(* ===== verification/_CoqProject ===== *)
-Q . S2P
Prelude.v
BitStrings.v
Stream.v
SphTypes.v
SphTheorems.v
JhTables.v
Jh.v
JhSpec.v
JhProof.v
JhMode.v
JhLanes.v
JhHash.v
JhTheorems.v
KeccakTables.v
Keccak.v
KeccakSpec.v
KeccakProof.v
KeccakMode.v
KeccakLanes.v
KeccakHash.v
KeccakTheorems.v
Aes.v
EchoSpec.v
AesProof.v
Echo.v
EchoProof.v
EchoMode.v
EchoLanes.v
EchoHash.v
EchoTheorems.v
Uint256.v
Uint256Proof.v
Uint256Hex.v
Uint256Theorems.v
Tribus.v
TribusTheorems.v
Serialize.v
SerializeProof.v
Transaction.v
TransactionProof.v
SerializeTheorems.v
TransactionTheorems.v
Merkle.v
MerkleTheorems.v
NetBase.v
NetBaseProof.v
NetBaseTheorems.v
AddrMan.v
AddrManProof.v
AddrManOps.v
AddrManTheorems.v
BigNum.v
BigNumProof.v
BigNumTheorems.v
Chain.v
ChainProof.v
Consensus.v
ConsensusProof.v
ConsensusTheorems.v
Kernel.v
KernelProof.v
KernelTheorems.v
BlockTree.v
BlockTreeProof.v
BlockTreeInv.v
Locator.v
BlockTreeTheorems.v
Script.v
Interpreter.v
ScriptProof.v
SignatureTheorems.v
ScriptTheorems.v
Coins.v
Blocks.v
CoinsProof.v
BlocksProof.v
BlockRules.v
BlocksTheorems.v
Base58.v
Base58Theorems.v
