(* ===== verification/Prelude.v ===== *)
(** * Denarius: proof of work and stake, transactions, the chain of blocks, and the peers of a node

    Denarius is a proof-of-work and proof-of-stake currency derived from
    Bitcoin.  This development models, from the sources under src/, the code
    that every node has to compute identically: the hash function Tribus, which
    identifies blocks and ranks masternodes, the fixed-width integers it
    returns, the formats of transactions and blocks, the rules a transaction
    has to satisfy by itself, the Merkle trees, the arithmetic of difficulty
    and rewards, the stake kernel, the scripts that guard the coins and the
    signatures they check, the coins that transactions spend and the rules of a
    block, and the tree of blocks with its best chain; and, of
    the code that faces the network, the addresses of peers and the table of
    them, and the locators by which nodes compare their chains.

    ** The program and its models

    - src/src/sph_types.h (words, rotations, byte order): [SphTypes].  A w-bit
      word is a [Z] in [0, 2^w); the operators that can leave the range are
      followed by the truncation of the C type.  What the preprocessor detects
      of the machine is the record [platform].
    - src/src/jh.c, keccak.c, echo.c (the three hash functions of Tribus, from
      sphlib): the files [Jh], [Keccak] and [Echo].  A context is a record, a
      C buffer a list of its declared length, a write outside of a buffer
      [None].  Every file is modelled in all the configurations its
      preprocessor conditionals allow: the operations on words are the class
      [JhWords] ([KeccakWords], [EchoWords]), with instances for 64-bit and
      32-bit words, which the rest of the code is written against.  The update
      loop the three files share is [Stream.absorb].
    - src/src/aes_helper.c (the rounds of AES used by echo.c): [Aes].
    - src/src/uint256.h (uint160, uint256, uint512): [Uint256].
    - src/src/hashblock.h (the template Tribus), and its direct uses in main.h
      and fortunastake: [Tribus].

    - src/src/serialize.h (CDataStream, compact sizes, variable-length integers,
      vectors): [Serialize].  A stream is a record of its bytes, its
      position and its exception state; reading is a function on streams that
      returns a value or an exception; a format is a record [Serializable]
      of the writer, the size and the reader that one macro generates.
    - src/src/core.h, main.h, main.cpp (transactions and blocks, their formats,
      [CheckTransaction], [GetMinFee]): [Transaction]; main.h (Merkle trees):
      [Merkle].  Uninitialised memory is an argument, an overflow of a signed
      integer an outcome of its own.
    - src/src/netbase.cpp (CNetAddr, CService, CSubNet): [NetBase].  An address is
      the list of its 16 bytes.
    - src/src/addrman.cpp (the table of peer addresses): [AddrMan].  An operation
      is a computation in a state monad that ends with a result and the new
      object, fails where the code would violate an assertion, leave an
      array or overflow an int, or finds its random source starved; [RAND_bytes],
      the clock and SHA-256 are parameters.

    - src/src/bignum.h (CBigNum): [BigNum], over the functions of OpenSSL as the class
      [BN_ops] with their documented laws [BN_spec]; [BigNumTheorems.Model] is an
      instance.
    - src/src/main.h (CBlockIndex): [Chain].  The objects are a heap, a finite map from
      addresses to records with the pointers [pprev] and [pnext].
    - src/src/main.cpp (retargeting, proof of work, coin age, rewards): [Consensus];
      kernel.cpp (stake modifiers, the kernel of a stake): [Kernel].
    - src/src/main.cpp (AddToBlockIndex, SetBestChain, Reorganize): [BlockTree].  An
      operation is a computation on the heap and the global variables that
      ends with a result or not at all.  Every call of the database, ConnectBlock and
      DisconnectBlock included, asks [answer], an arbitrary sequence of
      booleans; ConnectBlock may also set the amounts of its block.  The field [gap] is
      not of the program: it records that a postponed block was not connected.
    - src/src/main.h, main.cpp (CBlockLocator, FindBlockByHeight, the answers to
      getblocks and getheaders): [Locator].
    - src/src/script.h, script.cpp (scripts, their evaluation, signatures) and the checks
      of key.cpp: [Script] reads and builds scripts, [Interpreter] evaluates them.  The
      cases of the switch of EvalScript are [stack_op], [numeric_op], [hash_op],
      [multisig_op] and the like, [exec_op] is the switch, [step] a turn of the loop.  A
      computation is done, fails, or is undefined where the code would read outside
      of a vector; the hash functions and the verification of one signature are parameters.
    - src/src/main.cpp (FetchInputs, ConnectInputs, DisconnectInputs) and CTxIndex of main.h:
      [Coins].  The index of transactions and the changes queued over it are finite maps; a
      computation is accepted, refused with the addition to nDoS, throws, or goes wrong
      where an assertion fails, a vector is left or a sum overflows.  The transactions on
      the disk and the ring signatures (CheckAnonInputs) are parameters.
    - src/src/main.cpp (CheckBlock, ConnectBlock): [Blocks], over [Coins].  The variables of
      the loop of ConnectBlock are the record [tally]; the check of the payment of masternodes,
      which reads the list the node has collected from the network and changes neither the index nor
      the tally, is a parameter that accepts or refuses.
    - src/src/base58.cpp (base 58, addresses and secrets as strings): [Base58], on the
      conversions of [BigNum].

    [Serialize] carries [Transaction], whose hashes [Merkle] and [AddrMan] use;
    [AddrMan] stores the addresses of [NetBase].  [BigNum] carries [Consensus] and [Kernel], which
    walk the heap of [Chain]; [BlockTree] calls both, and [Locator] reads its state.
    [Interpreter] hashes the transactions of [Transaction] and computes with [BigNum]; [Coins] calls
    it for every input, and [Blocks] calls [Coins], [Consensus] and [Merkle].  [BlockTree] keeps
    ConnectBlock as a question to the database: it is not built on [Blocks].

    The specifications are independent of the code: [JhSpec], [KeccakSpec],
    [AesSpec] and [EchoSpec] (both in EchoSpec.v) follow the documents of the functions, on
    strings of bits, and generate their constants and tables; [TribusSpec] composes
    them.  [BlockRules] states the rules of a block on its data, its bytes and the opcodes of its
    scripts.  The number a uint256 stands for is [Uint256Proof.val].

    ** What the theorems show

    - The files whose names end in Theorems hold the properties
      with their examples; the lemmas they rest on are in the files before
      ([SerializeProof], [TransactionProof], [NetBaseProof],
      [AddrManProof], [AddrManOps], [BigNumProof], [ChainProof],
      [ConsensusProof], [KernelProof], [BlockTreeProof], [BlockTreeInv], and those named
      below) or at the head of the file.
    - Each of the twelve members of the three families, and their composition
      Tribus, computes the function of its specification, for every message
      cut in any pieces, every configuration and every content of the
      uninitialised memory, and makes no access outside of a buffer.
    - The parts: each permutation and compression function refines its
      specification on every word size ([JhProof], [KeccakProof], [AesProof],
      [EchoProof] for the abstract words, [JhLanes], [KeccakLanes],
      [EchoLanes] for the laws of the two word sizes); the modes of operation
      ([JhMode], [KeccakMode], [EchoMode]: buffering, counters, padding,
      output); the different forms of the same code are equal; the counters
      do not overflow; encoders and decoders are inverse on every platform.
    - The operators of uint256.h are arithmetic modulo 2^BITS for every number
      of words, the comparisons those of numbers, hexadecimal output and input
      are inverse.
    - The hash of a block is that of the 80 bytes of its header; the scores of
      masternodes are distances of hashes, computed without wrapping.

    - Whatever bytes a peer sends, reading a transaction or a block stays inside
      the buffer and throws or returns an object whose encoding is exactly what
      was read; what is written is read back.  What [CheckTransaction] accepts
      satisfies the rules of a transaction, without overflow, and it accepts all that do when
      the keys of anonymous outputs are compressed ([uninitialised_keys] shows another).
    - A branch of a Merkle tree verifies for every transaction of the block, and
      only for it, up to an explicit collision of the hash.
    - The groups of addresses are prefixes; a subnet contains exactly the
      addresses that agree with its prefix.
    - Every table of addresses the operations can reach satisfies the invariant
      [AddrManProof.consistent], by the rules of [wp]; hence the self-test of the
      code finds nothing, the table is bounded, no operation fails, and
      what each one promises holds.

    - Compact targets round to three bytes; retargeting, the proof-of-work test, the
      trust of a block, coin age and rewards are closed formulas on numbers, and
      their loops end ([ConsensusTheorems]); a new stake modifier takes one bit
      from each of distinct blocks, and a stake is accepted exactly by its
      formula ([KernelTheorems]).
    - From any well-formed heap the walks to the ancestors end within their fuel.  In every
      state that adding blocks and looking them up can reach, whatever the
      database answers, the index is a tree and the best block is cached as it is
      ([BlockTreeInv.inv], by the rules of [BlockTreeProof.wp]); adding a block
      always returns, and the trust of the best chain never falls; the
      links forward are those of the best chain, unless a postponed block failed
      to connect, which [unconnected_best_block] shows can happen.
    - While no postponed block failed to connect, a block is found by its height, and
      locators and the answers to them are exact.
    - Evaluation keeps every limit, ends, and is never undefined ([ScriptProof], by the rules
      of [safe]; [ScriptTheorems]); the standard outputs are spent as they mean to, a
      multisignature succeeds exactly when it can, numbers are the integers; and
      signatures are accepted exactly in their canonical form, and what they sign commits to
      the transaction ([SignatureTheorems]).
    - [CheckBlock] comes to an end, and accepts exactly the blocks that satisfy
      [BlockRules.block_rules], where the functions of the code do not occur; the lemmas of
      [BlockRules] take them one by one, [BlocksProof.block_valid] is the step between.  A
      transaction is connected only on distinct, unspent, mature coins that cover it;
      a connected block spends no coin twice, creates at most its subsidy, and is undone
      by disconnecting its inputs ([CoinsProof], [BlocksProof], whose relation [run] is
      what a block does to the index and the tally, transaction by transaction;
      [BlocksTheorems]).  The bound needs every coinstake to be where the code looks
      for it, and [late_coinstake_unlimited] is a block where one is not.
    - A string is decoded exactly when it is the encoding of bytes, of an address or of a
      secret, with spaces around it ([Base58Theorems]).

    ** Bounds and fuel

    The update loop is recursion on fuel, the length of the input, which is
    enough because each turn consumes a byte or ends ([absorb_terminates]).
    jh.c counts 512-bit blocks in 64 bits: the theorems on JH and Tribus ask
    for a message below 2^70 bytes; Keccak has no counter, ECHO's wraps as its
    specification does.  The loops over a Merkle tree have the number of hashes as
    fuel; running out of it is a failure the theorems exclude.  The walks on the block
    index have a height as fuel; a locator has 21 turns at most before its step passes its
    limit, and 22 as fuel.  The loops over a script have its length as fuel: an
    instruction has at least one byte, and [scripts_decided] shows that it is never
    used up.  [GetRand] may
    reject any number of words: the theorems on the table of addresses assume
    ([RandomSource]) that among any [tries] consecutive words one is in the lower
    half of their range, and hold for every such [tries].

    ** Not modelled

    - Third-party code kept in the tree (Tor, LevelDB, Ed25519, json_spirit,
      nlohmann, xxHash, LZ4, QCustomPlot, the IPFS client) and code that only
      calls OpenSSL, Berkeley DB, Boost or Qt.
    - Network, wallet, database and user-interface code: sockets, locks and
      input/output around the functions above.
    - [CFortunaStake::CalculateScore] hashes the bytes between the addresses of
      two distinct objects, which C++ does not define.
    - [CAddrMan::Select_] and [GetChance] (floating point), the file of the
      table, the textual forms of network addresses, name resolution.
    - Around the blocks: the payment of masternodes and the anonymous inputs, the index
      of addresses and the names that ConnectBlock and DisconnectBlock also keep,
      CheckProofOfStake, AcceptBlock, ProcessBlock, the memory pool; loading the index from disk;
      what SetBestChain tells the memory pool, the wallets and the user interface.
    - Key derivation (stealth.cpp, pbkdf2.cpp, scrypt.cpp, hash.cpp), which drives OpenSSL, and
      the filters of bloom.cpp, which nothing calls.
    - The cache of the signatures that were accepted, which only remembers answers; the
      templates of outputs (Solver), signing and combining signatures.
    - The SPARC and PowerPC assembly of sph_types.h, floating point
      ([getdouble]). *)
From Stdlib Require Import ZArith List Lia Bool Btauto.
From Stdlib Require Export ZifyNat.
Import ListNotations.
#[global] Set Warnings "-notation-overridden".

Declare Scope word_scope.
Delimit Scope word_scope with word.
Open Scope Z_scope.

(** ** Machine words

    A [w]-bit word is a [Z] in [0, 2^w).  The C operators that can leave that
    range (left shift, addition, complement) are followed by the truncation
    the C type performs. *)

(** The levels give the operators the precedence they have in C. *)
Infix ">>" := Z.shiftr (at level 52, left associativity) : word_scope.
Infix "<<" := Z.shiftl (at level 52, left associativity) : word_scope.
Infix ".&" := Z.land (at level 53, left associativity) : word_scope.
Infix ".^" := Z.lxor (at level 54, left associativity) : word_scope.
Infix ".|" := Z.lor (at level 56, left associativity) : word_scope.
Open Scope word_scope.

Definition word (w x : Z) : Prop := 0 <= x < 2 ^ w.

(** Truncation to [w] bits, and the complement of a [w]-bit word. *)
Definition trunc (w x : Z) : Z := Z.land x (Z.ones w).
Definition wnot (w x : Z) : Z := Z.lxor x (Z.ones w).
Definition shl (w x n : Z) : Z := trunc w (Z.shiftl x n).
Definition wadd (w x y : Z) : Z := trunc w (x + y).

(** *** Bit-level automation *)

Create Rewrite HintDb zbits.

Lemma ones_testbit w n : 0 <= w -> 0 <= n -> Z.testbit (Z.ones w) n = (n <? w).
Proof.
  intros Hw Hn. destruct (Z.ltb_spec n w).
  - now apply Z.ones_spec_low.
  - apply Z.ones_spec_high. lia.
Qed.

Lemma shiftl_testbit x k n :
  0 <= k -> 0 <= n -> Z.testbit (Z.shiftl x k) n = (k <=? n) && Z.testbit x (n - k).
Proof.
  intros Hk Hn. rewrite Z.shiftl_spec by lia.
  destruct (Z.leb_spec k n); [reflexivity|]. now rewrite Z.testbit_neg_r by lia.
Qed.

Lemma trunc_testbit w x n :
  0 <= w -> 0 <= n -> Z.testbit (trunc w x) n = (n <? w) && Z.testbit x n.
Proof. intros. unfold trunc. rewrite Z.land_spec, ones_testbit by lia. apply andb_comm. Qed.

Lemma wnot_testbit w x n :
  0 <= w -> 0 <= n -> Z.testbit (wnot w x) n = xorb (Z.testbit x n) (n <? w).
Proof. intros. unfold wnot. now rewrite Z.lxor_spec, ones_testbit by lia. Qed.

Lemma shl_testbit w x k n :
  0 <= w -> 0 <= k -> 0 <= n ->
  Z.testbit (shl w x k) n = (n <? w) && ((k <=? n) && Z.testbit x (n - k)).
Proof. intros. unfold shl. now rewrite trunc_testbit, shiftl_testbit by lia. Qed.

#[export] Hint Rewrite Z.lxor_spec Z.land_spec Z.lor_spec Z.testbit_0_l : zbits.
#[export] Hint Rewrite Z.shiftr_spec shiftl_testbit trunc_testbit wnot_testbit shl_testbit
  ones_testbit using lia : zbits.

(** Equality of integers, bit by bit. *)
Ltac bitwise n Hn := apply Z.bits_inj'; intros n Hn; autorewrite with zbits.

(** Splits the conjunctions in sight (and not a range, which is one). *)
Ltac splits := repeat match goal with |- _ /\ _ => split end.

(** Linear arithmetic with division and remainder by constants. *)
Ltac dlia := zify; Z.div_mod_to_equations; lia.

(** Decides the comparisons that [lia] can settle. *)
Ltac decide_cmp :=
  repeat match goal with
  | |- context [ ?a <? ?b ] =>
      first [ replace (a <? b) with true by (symmetry; apply Z.ltb_lt; lia)
            | replace (a <? b) with false by (symmetry; apply Z.ltb_ge; lia) ]
  | |- context [ ?a <=? ?b ] =>
      first [ replace (a <=? b) with true by (symmetry; apply Z.leb_le; lia)
            | replace (a <=? b) with false by (symmetry; apply Z.leb_gt; lia) ]
  end.

(** *** Ranges *)

Lemma word_testbit_high w x n : 0 <= w -> word w x -> w <= n -> Z.testbit x n = false.
Proof.
  intros Hw Hx Hn. destruct (Z.eq_dec x 0) as [->|]; [apply Z.testbit_0_l|].
  apply Z.bits_above_log2; [apply Hx|].
  apply Z.log2_lt_pow2; [unfold word in Hx; lia|].
  eapply Z.lt_le_trans; [apply Hx|]. apply Z.pow_le_mono_r; lia.
Qed.

Lemma word_of_bits w x :
  0 <= w -> 0 <= x -> (forall n, w <= n -> Z.testbit x n = false) -> word w x.
Proof.
  intros Hw Hx H. split; [assumption|].
  destruct (Z.eq_dec x 0) as [->|Hx0]; [apply Z.pow_pos_nonneg; lia|].
  apply Z.log2_lt_pow2; [lia|]. destruct (Z.lt_ge_cases (Z.log2 x) w) as [|Hge]; [assumption|].
  specialize (H _ Hge). rewrite Z.bit_log2 in H by lia. discriminate.
Qed.

Lemma trunc_word w x : 0 <= w -> word w (trunc w x).
Proof. intros. unfold trunc, word. rewrite Z.land_ones by lia. apply Z.mod_pos_bound. lia. Qed.

Lemma trunc_mod w x : 0 <= w -> trunc w x = x mod 2 ^ w.
Proof. intros. unfold trunc. now apply Z.land_ones. Qed.

Lemma trunc_id w x : 0 <= w -> word w x -> trunc w x = x.
Proof. intros Hw H. rewrite trunc_mod by lia. now apply Z.mod_small. Qed.

Lemma word_nonneg w x : word w x -> 0 <= x.
Proof. now intros []. Qed.

Lemma lxor_word w x y : 0 <= w -> word w x -> word w y -> word w (x .^ y).
Proof.
  intros Hw Hx Hy. apply word_of_bits; [lia| |].
  - apply Z.lxor_nonneg. split; intros; [apply (word_nonneg w)|apply (word_nonneg w)]; assumption.
  - intros n Hn. now rewrite Z.lxor_spec, !(word_testbit_high w) by assumption.
Qed.

Lemma land_word w x y : 0 <= w -> word w x -> word w (x .& y).
Proof.
  intros Hw Hx. apply word_of_bits; [lia| |].
  - apply Z.land_nonneg. left. now apply (word_nonneg w).
  - intros n Hn. now rewrite Z.land_spec, (word_testbit_high w) by assumption.
Qed.

Lemma land_mask_word w x y : 0 <= w -> word w y -> word w (x .& y).
Proof. intros. rewrite Z.land_comm. now apply land_word. Qed.

Lemma lor_word w x y : 0 <= w -> word w x -> word w y -> word w (x .| y).
Proof.
  intros Hw Hx Hy. apply word_of_bits; [lia| |].
  - apply Z.lor_nonneg. split; now apply (word_nonneg w).
  - intros n Hn. now rewrite Z.lor_spec, !(word_testbit_high w) by assumption.
Qed.

Lemma shiftr_word w x n : 0 <= w -> 0 <= n -> word w x -> word w (x >> n).
Proof.
  intros Hw Hn Hx. apply word_of_bits; [lia| |].
  - apply Z.shiftr_nonneg. now apply (word_nonneg w).
  - intros m Hm. rewrite Z.shiftr_spec by lia. apply (word_testbit_high w); [lia|assumption|lia].
Qed.

Lemma ones_word w : 0 <= w -> word w (Z.ones w).
Proof. intros. unfold word. rewrite Z.ones_equiv. pose proof (Z.pow_pos_nonneg 2 w). lia. Qed.

Lemma wnot_word w x : 0 <= w -> word w x -> word w (wnot w x).
Proof. intros. unfold wnot. apply lxor_word; auto using ones_word. Qed.

Lemma shl_word w x n : 0 <= w -> word w (shl w x n).
Proof. intros. now apply trunc_word. Qed.

Lemma word_0 w : 0 <= w -> word w 0.
Proof. intros. split; [lia|]. apply Z.pow_pos_nonneg; lia. Qed.

Lemma word_mono v w x : 0 <= v <= w -> word v x -> word w x.
Proof. unfold word. intros Hvw Hx. pose proof (Z.pow_le_mono_r 2 v w). lia. Qed.

(** Executable range test, for constants and tables. *)
Definition wordb (w x : Z) : bool := (0 <=? x) && (x <? 2 ^ w).

Lemma wordb_word w x : wordb w x = true <-> word w x.
Proof. unfold wordb, word. rewrite andb_true_iff, Z.leb_le, Z.ltb_lt. tauto. Qed.

Lemma wordb_Forall w l : forallb (wordb w) l = true -> Forall (word w) l.
Proof. rewrite forallb_forall, Forall_forall. intros H x Hx. now apply wordb_word, H. Qed.

Create HintDb words discriminated.
#[export] Hint Resolve lxor_word land_word lor_word shiftr_word wnot_word shl_word trunc_word
  word_0 ones_word : words.
#[export] Hint Extern 1 (0 <= _) => lia : words.

(** Two words with the same low [w] bits are equal. *)
Lemma word_ext w x y :
  0 <= w -> word w x -> word w y ->
  (forall n, 0 <= n < w -> Z.testbit x n = Z.testbit y n) -> x = y.
Proof.
  intros Hw Hx Hy H. apply Z.bits_inj'. intros n Hn.
  destruct (Z.lt_ge_cases n w); [now apply H|]. now rewrite !(word_testbit_high w) by assumption.
Qed.

(** ** Fixed-size arrays

    A C array is a [list] of its declared length.  A write outside of the
    array is undefined behaviour in C: the writing primitives return [None]
    there, so that a theorem that an operation returns [Some] includes its
    memory safety. *)

Notation "'let*' x ':=' e 'in' k" :=
  (match e with Some x => k | None => None end)
  (at level 10, x pattern, e at level 200, k at level 200) : word_scope.

Definition slice {A} (l : list A) (off n : nat) : list A := firstn n (skipn off l).

(** [memcpy (dst + off, src, |src|)] *)
Definition memcpy_at {A} (dst : list A) (off : nat) (src : list A) : option (list A) :=
  if (off + length src <=? length dst)%nat
  then Some (firstn off dst ++ src ++ skipn (off + length src) dst)
  else None.

(** [memset (dst + off, v, n)] *)
Definition memset_at {A} (dst : list A) (off : nat) (v : A) (n : nat) : option (list A) :=
  memcpy_at dst off (repeat v n).

(** [l[i] = v], for an index known to be in range. *)
Fixpoint upd {A} (l : list A) (i : nat) (v : A) : list A :=
  match l, i with
  | [], _ => []
  | _ :: t, O => v :: t
  | h :: t, S j => h :: upd t j v
  end.

(** *** Lists *)

Lemma length_upd {A} (l : list A) i v : length (upd l i v) = length l.
Proof. revert i. induction l; intros [|i]; simpl; auto. Qed.

Lemma nth_upd {A} (l : list A) i j v d :
  (i < length l)%nat -> nth j (upd l i v) d = if (j =? i)%nat then v else nth j l d.
Proof.
  revert i j. induction l as [|a l IH]; intros [|i] [|j] H; simpl in *; try lia; auto.
  rewrite IH by lia. reflexivity.
Qed.

Lemma nth_ext' {A} (l l' : list A) d :
  length l = length l' -> (forall i, (i < length l)%nat -> nth i l d = nth i l' d) -> l = l'.
Proof. intros. apply (nth_ext _ _ d d); auto. Qed.

Lemma nth_map_seq {A} (f : nat -> A) n i d :
  (i < n)%nat -> nth i (map f (seq 0 n)) d = f i.
Proof.
  intros H. rewrite (nth_indep _ d (f O)) by now rewrite length_map, length_seq.
  rewrite map_nth, seq_nth by assumption. reflexivity.
Qed.

Lemma nth_skipn' {A} (l : list A) k i d : nth i (skipn k l) d = nth (k + i) l d.
Proof. revert l. induction k; intros [|a l]; simpl; auto. now destruct i. Qed.

Lemma nth_firstn' {A} (l : list A) k i d :
  (i < k)%nat -> nth i (firstn k l) d = nth i l d.
Proof.
  revert l i. induction k; intros [|a l] [|i] H; simpl; auto; try lia. apply IHk. lia.
Qed.

Lemma nth_slice {A} (l : list A) off n i d :
  (i < n)%nat -> nth i (slice l off n) d = nth (off + i) l d.
Proof. intros. unfold slice. now rewrite nth_firstn', nth_skipn'. Qed.

Lemma length_slice {A} (l : list A) off n :
  (off + n <= length l)%nat -> length (slice l off n) = n.
Proof. intros. unfold slice. rewrite length_firstn, length_skipn. lia. Qed.

Lemma Forall_nth' {A} (P : A -> Prop) l i d : Forall P l -> P d -> P (nth i l d).
Proof.
  intros H Hd. destruct (Nat.lt_ge_cases i (length l)).
  - rewrite Forall_forall in H. now apply H, nth_In.
  - now rewrite nth_overflow.
Qed.

Lemma Forall_upd {A} (P : A -> Prop) l i v : Forall P l -> P v -> Forall P (upd l i v).
Proof. intros H. revert i. induction H; intros [|i]; simpl; auto. Qed.

Lemma Forall_firstn' {A} (P : A -> Prop) n l : Forall P l -> Forall P (firstn n l).
Proof. intros H. rewrite <- (firstn_skipn n l) in H. now apply Forall_app in H. Qed.

Lemma Forall_skipn' {A} (P : A -> Prop) n l : Forall P l -> Forall P (skipn n l).
Proof. intros H. rewrite <- (firstn_skipn n l) in H. now apply Forall_app in H. Qed.

Lemma Forall_slice {A} (P : A -> Prop) l off n : Forall P l -> Forall P (slice l off n).
Proof. intros. now apply Forall_firstn', Forall_skipn'. Qed.

Lemma Forall_repeat' {A} (P : A -> Prop) v n : P v -> Forall P (repeat v n).
Proof. intros. apply Forall_forall. now intros x ->%repeat_spec. Qed.

Lemma Forall_map_seq {A} (P : A -> Prop) (f : nat -> A) a n :
  (forall i, (a <= i < a + n)%nat -> P (f i)) -> Forall P (map f (seq a n)).
Proof. intros. apply Forall_map, Forall_forall. intros i ?%in_seq. auto. Qed.

(** A property of all indices below a bound, checked by evaluation. *)
Lemma forallb_seq (f : nat -> bool) n :
  forallb f (seq 0 n) = true -> forall i, (i < n)%nat -> f i = true.
Proof. rewrite forallb_forall. intros H i Hi. apply H, in_seq. lia. Qed.

Lemma map_seq_shift {A} (f : nat -> A) k n :
  map f (seq k n) = map (fun i => f (k + i)%nat) (seq 0 n).
Proof.
  revert k f. induction n as [|n IH]; intros k f; [reflexivity|]. cbn [seq map].
  rewrite Nat.add_0_r. f_equal. rewrite (IH (S k)), (IH 1%nat). apply map_ext. intros i.
  f_equal. lia.
Qed.

Lemma length_fold_left {A B} (f : list A -> B -> list A) l a :
  (forall a x, length (f a x) = length a) -> length (fold_left f l a) = length a.
Proof. intros H. revert a. induction l as [|x l IH]; intros a; cbn; [reflexivity|]. now rewrite IH. Qed.

(** *** Copies *)

Lemma memcpy_at_Some {A} (dst : list A) off src :
  (off + length src <= length dst)%nat ->
  memcpy_at dst off src = Some (firstn off dst ++ src ++ skipn (off + length src) dst).
Proof. intros H. unfold memcpy_at. now rewrite (proj2 (Nat.leb_le _ _) H). Qed.

Lemma memcpy_at_length {A} (dst dst' : list A) off src :
  memcpy_at dst off src = Some dst' -> length dst' = length dst.
Proof.
  unfold memcpy_at. destruct (Nat.leb_spec (off + length src) (length dst)); [|discriminate].
  intros [= <-]. rewrite !length_app, length_firstn, length_skipn. lia.
Qed.

Lemma memcpy_at_nil {A} (dst : list A) off :
  (off <= length dst)%nat -> memcpy_at dst off [] = Some dst.
Proof.
  intros. rewrite memcpy_at_Some by (simpl; lia). simpl. rewrite Nat.add_0_r.
  now rewrite firstn_skipn.
Qed.

Lemma memcpy_at_firstn {A} (dst dst' : list A) off src :
  memcpy_at dst off src = Some dst' -> firstn (off + length src) dst' = firstn off dst ++ src.
Proof.
  unfold memcpy_at. destruct (Nat.leb_spec (off + length src) (length dst)); [|discriminate].
  intros [= <-]. rewrite app_assoc. rewrite firstn_app.
  rewrite length_app, length_firstn, Nat.min_l by lia.
  rewrite firstn_all2 by (rewrite length_app, length_firstn; lia).
  rewrite Nat.sub_diag, firstn_O. apply app_nil_r.
Qed.

(** Two adjacent copies are one copy. *)
Lemma memcpy_at_app {A} (dst dst' : list A) off s1 s2 :
  memcpy_at dst off s1 = Some dst' ->
  memcpy_at dst' (off + length s1) s2 = memcpy_at dst off (s1 ++ s2).
Proof.
  intros H. pose proof (memcpy_at_length _ _ _ _ H) as Hl.
  unfold memcpy_at in H |- *. rewrite length_app, Nat.add_assoc, Hl.
  destruct (Nat.leb_spec (off + length s1) (length dst)) as [Hle|]; [|discriminate].
  destruct (Nat.leb_spec (off + length s1 + length s2) (length dst)); [|reflexivity].
  injection H as <-. rewrite (app_assoc (firstn off dst) s1).
  assert (Hp : length (firstn off dst ++ s1) = (off + length s1)%nat)
    by (rewrite length_app, length_firstn; lia).
  f_equal. rewrite <- Hp.
  rewrite firstn_app, Nat.sub_diag, firstn_O, app_nil_r, firstn_all.
  rewrite skipn_app, (skipn_all2 (firstn off dst ++ s1)) by lia.
  rewrite skipn_skipn. simpl. rewrite <- !app_assoc. do 4 f_equal. lia.
Qed.

(** [n] copies of [sz] bytes each, one after the other from the start. *)
Definition memcpy_loop {A} (sz : nat) (f : nat -> list A) (n : nat) (b : list A) :
    option (list A) :=
  fold_left (fun b u => let* b := b in memcpy_at b (sz * u) (f u)) (seq 0 n) (Some b).

Lemma memcpy_loop_ok {A} sz (f : nat -> list A) n b :
  (forall u, length (f u) = sz) -> (sz * n <= length b)%nat ->
  exists b', memcpy_loop sz f n b = Some b' /\ length b' = length b /\
    firstn (sz * n) b' = concat (map f (seq 0 n)).
Proof.
  intros Hf. unfold memcpy_loop. induction n as [|n IH]; intros Hb.
  - exists b. now rewrite Nat.mul_0_r.
  - destruct IH as (b1 & E & L & F); [nia|]. rewrite seq_S, fold_left_app, E. cbn [fold_left Nat.add].
    destruct (memcpy_at b1 (sz * n) (f n)) as [b2|] eqn:E2.
    2: { rewrite memcpy_at_Some in E2 by (rewrite Hf, L; nia). discriminate. }
    exists b2. split; [reflexivity|]. split; [now rewrite (memcpy_at_length _ _ _ _ E2)|].
    apply memcpy_at_firstn in E2. rewrite Hf in E2. rewrite map_app, concat_app, <- F. cbn.
    rewrite app_nil_r, <- E2. f_equal. nia.
Qed.

Lemma nth_concat {A} sz (ls : list (list A)) i d :
  (0 < sz)%nat -> Forall (fun l => length l = sz) ls ->
  nth i (concat ls) d = nth (i mod sz) (nth (i / sz) ls []) d.
Proof.
  intros Hsz Hl. revert i. induction Hl as [|l ls Hl _ IH]; intros i.
  - destruct i, (_ / sz)%nat, (_ mod sz)%nat; reflexivity.
  - cbn [concat]. destruct (Nat.lt_ge_cases i sz).
    + rewrite app_nth1, Nat.mod_small, Nat.div_small by lia. reflexivity.
    + rewrite app_nth2, IH, Hl by lia.
      replace i with (i - sz + 1 * sz)%nat at 3 4 by lia.
      rewrite Nat.Div0.mod_add, Nat.div_add, Nat.add_1_r by lia. reflexivity.
Qed.

Lemma slice_firstn {A} (l : list A) m off n :
  (off + n <= m)%nat -> slice (firstn m l) off n = slice l off n.
Proof. intros. unfold slice. rewrite skipn_firstn_comm, firstn_firstn. f_equal. lia. Qed.

(** ** Blocks of a message *)

(** The full [n]-byte blocks of [l], and what is left after them. *)
Definition chunks {A} (n : nat) (l : list A) : list (list A) :=
  map (fun i => slice l (i * n) n) (seq 0 (length l / n)).
Definition remainder {A} (n : nat) (l : list A) : list A := skipn (n * (length l / n)) l.

Lemma chunks_cons {A} n (a b : list A) :
  (0 < n)%nat -> length a = n -> chunks n (a ++ b) = a :: chunks n b.
Proof.
  intros Hn Ha. unfold chunks. rewrite length_app, Ha.
  replace ((n + length b) / n)%nat with (S (length b / n)).
  2: { replace (n + length b)%nat with (length b + 1 * n)%nat by lia.
       rewrite Nat.div_add by lia. lia. }
  cbn [seq map]. f_equal.
  - unfold slice. simpl. rewrite firstn_app, Ha, Nat.sub_diag, firstn_O, app_nil_r.
    apply firstn_all2. lia.
  - rewrite <- seq_shift, map_map. apply map_ext. intros i. unfold slice. simpl.
    rewrite skipn_app, skipn_all2 by lia. simpl. do 2 f_equal. lia.
Qed.

Lemma chunks_short {A} n (l : list A) : (length l < n)%nat -> chunks n l = [].
Proof. intros. unfold chunks. now rewrite Nat.div_small. Qed.

Lemma remainder_cons {A} n (a b : list A) :
  (0 < n)%nat -> length a = n -> remainder n (a ++ b) = remainder n b.
Proof.
  intros Hn Ha. unfold remainder. rewrite length_app, Ha.
  replace (n + length b)%nat with (length b + 1 * n)%nat by lia.
  rewrite Nat.div_add by lia. rewrite skipn_app, skipn_all2 by nia. simpl. f_equal. nia.
Qed.

Lemma remainder_short {A} n (l : list A) : (length l < n)%nat -> remainder n l = l.
Proof. intros. unfold remainder. now rewrite Nat.div_small, Nat.mul_0_r. Qed.

Lemma length_remainder {A} n (l : list A) :
  (0 < n)%nat -> length (remainder n l) = (length l mod n)%nat.
Proof.
  intros Hn. unfold remainder. rewrite length_skipn. pose proof (Nat.div_mod_eq (length l) n). lia.
Qed.

(** Induction on a message, block by block. *)
Lemma block_ind {A} n (Hn : (0 < n)%nat) (P : list A -> Prop) :
  (forall l, (length l < n)%nat -> P l) ->
  (forall b l, length b = n -> P l -> P (b ++ l)) ->
  forall l, P l.
Proof.
  intros Hs Hb l. remember (length l) as k eqn:Hk. revert l Hk.
  induction k as [k IH] using (well_founded_induction lt_wf). intros l ->.
  destruct (Nat.lt_ge_cases (length l) n); [now apply Hs|].
  rewrite <- (firstn_skipn n l). apply Hb; [rewrite length_firstn; lia|].
  apply (IH (length (skipn n l))); [rewrite length_skipn; lia|reflexivity].
Qed.

(** Every message is its blocks followed by its remainder. *)
Lemma chunks_remainder {A} n (l : list A) :
  (0 < n)%nat -> concat (chunks n l) ++ remainder n l = l.
Proof.
  intros Hn. induction l as [l Hl|b l Hb IH] using (block_ind n Hn).
  - now rewrite chunks_short, remainder_short.
  - rewrite chunks_cons, remainder_cons by assumption. simpl. now rewrite <- app_assoc, IH.
Qed.

(** Appending to a message only depends on its remainder. *)
Lemma chunks_app {A} n (l m : list A) :
  (0 < n)%nat -> chunks n (l ++ m) = chunks n l ++ chunks n (remainder n l ++ m).
Proof.
  intros Hn. induction l as [l Hl|b l Hb IH] using (block_ind n Hn).
  - now rewrite (chunks_short n l), (remainder_short n l).
  - rewrite <- app_assoc, !(chunks_cons n b), remainder_cons by assumption.
    simpl. now rewrite IH.
Qed.

Lemma remainder_app {A} n (l m : list A) :
  (0 < n)%nat -> remainder n (l ++ m) = remainder n (remainder n l ++ m).
Proof.
  intros Hn. induction l as [l Hl|b l Hb IH] using (block_ind n Hn).
  - now rewrite (remainder_short n l).
  - rewrite <- app_assoc, !(remainder_cons n b) by assumption. exact IH.
Qed.

Lemma chunks_lengths {A} n (l : list A) b : In b (chunks n l) -> length b = n.
Proof.
  unfold chunks. rewrite in_map_iff. intros (i & <- & Hi%in_seq).
  apply length_slice. destruct n; [lia|].
  pose proof (Nat.Div0.mul_div_le (length l) (S n)). nia.
Qed.

Lemma chunks_Forall {A} (P : A -> Prop) n l b : Forall P l -> In b (chunks n l) -> Forall P b.
Proof. unfold chunks. rewrite in_map_iff. intros H (i & <- & _). now apply Forall_slice. Qed.

Lemma length_chunks {A} n (l : list A) : length (chunks n l) = (length l / n)%nat.
Proof. unfold chunks. now rewrite length_map, length_seq. Qed.

(** ** Byte strings and native words

    [le_load n b] is the value an [n]-byte load gives on a little-endian
    machine at the address of [b]; [be_load] the same on a big-endian one. *)

Fixpoint le_load (n : nat) (b : list Z) : Z :=
  match n, b with
  | S n', h :: t => h .| (le_load n' t << 8)
  | _, _ => 0
  end.

Fixpoint le_store (n : nat) (v : Z) : list Z :=
  match n with
  | O => []
  | S n' => trunc 8 v :: le_store n' (v >> 8)
  end.

Definition be_load (n : nat) (b : list Z) : Z := le_load n (rev (firstn n b)).
Definition be_store (n : nat) (v : Z) : list Z := rev (le_store n v).

Definition bytes (b : list Z) : Prop := Forall (word 8) b.

(** The bytes of the first words. *)
Lemma firstn_concat_map {A} (f : A -> list Z) (d sz m : nat) (l : list A) :
  (forall x, length (f x) = sz) -> (d <= sz * m)%nat -> (m <= length l)%nat ->
  firstn d (concat (map f (firstn m l))) = firstn d (concat (map f l)).
Proof.
  intros Hf Hd Hm. rewrite <- (firstn_skipn m l) at 2. rewrite map_app, concat_app, firstn_app.
  assert (L : forall l', length (concat (map f l')) = (sz * length l')%nat).
  { induction l' as [|x l' IH]; cbn; [lia|]. rewrite length_app, Hf, IH. lia. }
  rewrite (L (firstn m l)), length_firstn, Nat.min_l by lia.
  replace (d - sz * m)%nat with 0%nat by lia. now rewrite firstn_O, app_nil_r.
Qed.

Lemma map_nth_seq (l : list Z) m : (m <= length l)%nat -> map (fun i => nth i l 0) (seq 0 m) = firstn m l.
Proof.
  intros H. apply (nth_ext' _ _ 0); rewrite length_map, length_seq; [now rewrite length_firstn; lia|].
  intros i Hi. now rewrite nth_map_seq, nth_firstn'.
Qed.

Lemma firstn_zeros k n : (k <= n)%nat -> firstn k (repeat 0 n) = repeat 0 k.
Proof.
  intros H. replace n with (k + (n - k))%nat by lia. rewrite repeat_app, firstn_app, repeat_length.
  rewrite Nat.sub_diag, firstn_O, app_nil_r. apply firstn_all2. now rewrite repeat_length.
Qed.

(** Writing up to the end of the buffer. *)
Lemma memcpy_at_end {A} (b src : list A) off :
  (off + length src = length b)%nat -> memcpy_at b off src = Some (firstn off b ++ src).
Proof.
  intros H. rewrite memcpy_at_Some by lia. rewrite skipn_all2 by lia. now rewrite app_nil_r.
Qed.

Lemma length_le_store n v : length (le_store n v) = n.
Proof. revert v. induction n; simpl; auto. Qed.

Lemma length_be_store n v : length (be_store n v) = n.
Proof. unfold be_store. now rewrite length_rev, length_le_store. Qed.

Lemma nth_le_store n v i :
  (i < n)%nat -> nth i (le_store n v) 0 = trunc 8 (v >> (8 * Z.of_nat i)).
Proof.
  revert v i. induction n; intros v [|i] Hi; try lia; cbn [le_store nth].
  - now rewrite Z.shiftr_0_r.
  - rewrite IHn, Z.shiftr_shiftr by lia. do 2 f_equal. lia.
Qed.

Lemma bytes_le_store n v : bytes (le_store n v).
Proof. revert v. induction n; intros v; constructor; [now apply trunc_word|apply IHn]. Qed.

Lemma bytes_be_store n v : bytes (be_store n v).
Proof. apply Forall_rev, bytes_le_store. Qed.

(** Bit [k] of a loaded word is bit [k mod 8] of byte [k / 8]. *)
Lemma le_load_testbit n b k :
  bytes b -> 0 <= k < 8 * Z.of_nat n ->
  Z.testbit (le_load n b) k = Z.testbit (nth (Z.to_nat (k / 8)) b 0) (k mod 8).
Proof.
  intros Hb. revert n k. induction Hb as [|h t Hh Ht IH]; intros n k Hk.
  - rewrite nth_overflow, Z.testbit_0_l by (simpl; lia). destruct n; apply Z.testbit_0_l.
  - destruct n as [|n]; [lia|]. cbn [le_load]. rewrite Z.lor_spec, shiftl_testbit by lia.
    destruct (Z.leb_spec 8 k) as [H8|H8].
    + rewrite (word_testbit_high 8 h) by (assumption || lia). simpl.
      rewrite IH by lia. replace (k / 8) with (1 + (k - 8) / 8).
      2: { replace k with (k - 8 + 1 * 8) at 2 by lia. rewrite Z.div_add by lia. lia. }
      rewrite Z2Nat.inj_add by (lia || apply Z.div_pos; lia). simpl.
      f_equal. rewrite <- (Z.mod_add (k - 8) 1 8) by lia. f_equal. lia.
    + simpl. rewrite orb_false_r, Z.div_small, Z.mod_small by lia. reflexivity.
Qed.

Lemma le_load_word n b : bytes b -> word (8 * Z.of_nat n) (le_load n b).
Proof.
  intros Hb. revert n. induction Hb as [|h t Hh Ht IH]; intros [|n]; cbn [le_load];
    try (apply word_0; lia).
  apply lor_word; [lia|apply (word_mono 8); [lia|assumption]|].
  apply word_of_bits; [lia| |].
  - apply Z.shiftl_nonneg. apply (word_nonneg _ _ (IH n)).
  - intros k Hk. rewrite shiftl_testbit by lia.
    rewrite (word_testbit_high (8 * Z.of_nat n)) by (apply IH || lia). apply andb_false_r.
Qed.

Lemma le_load_firstn n b : le_load n (firstn n b) = le_load n b.
Proof. revert b. induction n; intros [|h t]; cbn [firstn le_load]; auto. now rewrite IHn. Qed.

Lemma le_load_app n b c : length b = n -> le_load n (b ++ c) = le_load n b.
Proof.
  intros <-. induction b; cbn [length app le_load]; [now destruct c|]. now rewrite IHb.
Qed.

(** Storing a word and loading it back. *)
Lemma le_load_store n v : word (8 * Z.of_nat n) v -> le_load n (le_store n v) = v.
Proof.
  intros Hv. apply (word_ext (8 * Z.of_nat n)); try lia.
  - apply le_load_word, bytes_le_store.
  - assumption.
  - intros k Hk. rewrite le_load_testbit by (apply bytes_le_store || lia).
    rewrite nth_le_store, Z2Nat.id by dlia.
    assert (0 <= k mod 8 < 8 /\ 0 <= k / 8 /\ k = 8 * (k / 8) + k mod 8) as (? & ? & E) by dlia.
    autorewrite with zbits. decide_cmp. cbn [andb]. f_equal. lia.
Qed.

Lemma le_store_load n b : bytes b -> length b = n -> le_store n (le_load n b) = b.
Proof.
  intros Hb <-. induction Hb as [|h t Hh Ht IH]; [reflexivity|]. cbn [length le_load le_store].
  assert (E : (h .| (le_load (length t) t << 8)) >> 8 = le_load (length t) t).
  { bitwise k Hk. rewrite (word_testbit_high 8 h) by (assumption || lia). decide_cmp. simpl.
    f_equal. lia. }
  rewrite E, IH. f_equal. apply (word_ext 8); [lia|now apply trunc_word|assumption|].
  intros k Hk. autorewrite with zbits. decide_cmp. simpl. apply orb_false_r.
Qed.

(** Only the low bits are stored. *)
Lemma le_store_mod n v : le_store n (v mod 2 ^ (8 * Z.of_nat n)) = le_store n v.
Proof.
  apply (nth_ext' _ _ 0); [now rewrite !length_le_store|]. rewrite length_le_store. intros i Hi.
  rewrite !nth_le_store, <- trunc_mod by lia. bitwise k Hk.
  destruct (Z.ltb_spec k 8); [|reflexivity]. rewrite (proj2 (Z.ltb_lt _ (8 * Z.of_nat n))) by lia. reflexivity.
Qed.

(** A loop that stores the words of [l] one after the other. *)
Lemma memcpy_loop_words sz (enc : Z -> list Z) d m l tmp :
  (forall k, enc (nth k l 0) = le_store sz (nth k l 0)) ->
  (d <= sz * m)%nat -> (m <= length l)%nat -> (sz * m <= length tmp)%nat ->
  exists tmp', memcpy_loop sz (fun k => enc (nth k l 0)) m tmp = Some tmp' /\
    length tmp' = length tmp /\ firstn d tmp' = firstn d (concat (map (le_store sz) l)).
Proof.
  intros E Hd Hm Ht.
  destruct (memcpy_loop_ok sz (fun k => enc (nth k l 0)) m tmp) as (tmp' & E1 & L & F);
    [intros; rewrite E; apply length_le_store|assumption|].
  exists tmp'. split; [exact E1|]. split; [assumption|].
  rewrite (map_ext _ _ E), <- (map_map (fun i => nth i l 0) (le_store sz)), map_nth_seq in F by assumption.
  transitivity (firstn d (firstn (sz * m) tmp')); [now rewrite firstn_firstn, Nat.min_l|].
  rewrite F. now apply (firstn_concat_map _ _ sz); [apply length_le_store|..].
Qed.

Lemma be_load_store n v : word (8 * Z.of_nat n) v -> be_load n (be_store n v) = v.
Proof.
  intros. unfold be_load, be_store.
  rewrite firstn_all2 by (rewrite length_rev, length_le_store; lia).
  rewrite rev_involutive. now apply le_load_store.
Qed.

Lemma be_load_word n b : bytes b -> word (8 * Z.of_nat n) (be_load n b).
Proof. intros. now apply le_load_word, Forall_rev, Forall_firstn'. Qed.

Lemma nth_be_store n v i :
  (i < n)%nat -> nth i (be_store n v) 0 = trunc 8 (v >> (8 * Z.of_nat (n - 1 - i))).
Proof.
  intros. unfold be_store. rewrite rev_nth; rewrite length_le_store; [|assumption].
  rewrite nth_le_store by lia. do 4 f_equal. lia.
Qed.

(** Bit [k] of a big-endian load is bit [k mod 8] of byte [n - 1 - k / 8]. *)
Lemma be_load_testbit n b k :
  bytes b -> (n <= length b)%nat -> 0 <= k < 8 * Z.of_nat n ->
  Z.testbit (be_load n b) k = Z.testbit (nth (n - 1 - Z.to_nat (k / 8)) b 0) (k mod 8).
Proof.
  intros Hb Hn Hk. unfold be_load.
  rewrite le_load_testbit by (assumption || now apply Forall_rev, Forall_firstn').
  rewrite rev_nth by (rewrite length_firstn; dlia).
  rewrite length_firstn, Nat.min_l, nth_firstn' by dlia. do 2 f_equal. dlia.
Qed.

(** A list of known length, element by element. *)
Tactic Notation "expose_list" ident(a) integer(n) :=
  do n (destruct a as [|? a]; [discriminate|]); destruct a; [|discriminate].

(** A statement about all bit positions below a literal bound, case by case. *)
Lemma bit_cases (P : Z -> Prop) n :
  Forall P (map Z.of_nat (seq 0 n)) -> forall k, 0 <= k < Z.of_nat n -> P k.
Proof.
  rewrite Forall_forall. intros H k Hk. apply H, in_map_iff.
  exists (Z.to_nat k). rewrite in_seq, Z2Nat.id by lia. lia.
Qed.

Ltac each_bit n k Hk :=
  revert k Hk; apply (bit_cases _ n); cbn [map seq];
  repeat (apply Forall_cons; [|]); [..|apply Forall_nil];
  cbn [Z.of_nat Pos.of_succ_nat Pos.succ].

(** Evaluation of the bits of literals, and simplification of what is left. *)
Ltac is_pos_literal p :=
  lazymatch p with xH => idtac | xO ?q => is_pos_literal q | xI ?q => is_pos_literal q end.
Ltac is_literal z :=
  lazymatch z with Z0 => idtac | Zpos ?p => is_pos_literal p | Zneg ?p => is_pos_literal p end.

Ltac literal_bits :=
  repeat match goal with
  | |- context [ Z.testbit ?a ?b ] =>
      is_literal a; is_literal b;
      let r := eval vm_compute in (Z.testbit a b) in change (Z.testbit a b) with r
  end.

Ltac simpl_bools :=
  rewrite ?andb_true_r, ?andb_false_r, ?andb_true_l, ?andb_false_l, ?orb_false_r, ?orb_false_l,
    ?xorb_false_r, ?xorb_false_l.

(** Computes the bits of an expression at a literal position. *)
Ltac bit_compute :=
  autorewrite with zbits; cbn -[Z.testbit]; literal_bits; simpl_bools.

(** The bits of a [w]-bit word at literal positions above it are clear. *)
Ltac high_bits w x :=
  repeat match goal with
  | |- context [ Z.testbit x ?k ] =>
      is_literal k;
      lazymatch eval vm_compute in (w <=? k) with
      | true => rewrite (word_testbit_high w x k) by (assumption || lia)
      end
  end; simpl_bools.
