(* ===== verification/BitStrings.v ===== *)
(** * Bit strings

    The specifications of the hash functions are about strings of bits, the
    code about bytes.  JH and ECHO read the bits of a byte from the most
    significant one, Keccak from the least significant one: [bits_of] takes
    the order as an argument.  The file also has the byte that ends a message
    with a number of bits that is not a multiple of eight, which jh.c and
    echo.c build in the same way. *)

From Stdlib Require Import ZArith List Lia Bool.
From S2P Require Import Prelude.
Import ListNotations.

(** Bit [i] of a byte, in either order. *)
Definition msb_first (b : Z) (i : nat) : bool := Z.testbit b (7 - Z.of_nat i).
Definition lsb_first (b : Z) (i : nat) : bool := Z.testbit b (Z.of_nat i).

Section BitsOf.
  Variable bit : Z -> nat -> bool.

Definition bits_of (l : list Z) : list bool :=
  map (fun i => bit (nth (i / 8) l 0) (i mod 8)) (seq 0 (8 * length l)).

Definition byte_bits (b : Z) : list bool := map (bit b) (seq 0 8).

Lemma bits_of_cons b l : bits_of (b :: l) = byte_bits b ++ bits_of l.
Proof.
  unfold bits_of. cbn [length]. replace (8 * S (length l))%nat with (8 + 8 * length l)%nat by lia.
  rewrite seq_app, map_app. f_equal. rewrite map_seq_shift. apply map_ext. intros i.
  replace (0 + 8 + i)%nat with (i + 1 * 8)%nat by lia.
  rewrite Nat.div_add, Nat.Div0.mod_add, Nat.add_1_r by lia. reflexivity.
Qed.

Lemma bits_of_app a b : bits_of (a ++ b) = bits_of a ++ bits_of b.
Proof.
  induction a as [|x a IH]; [reflexivity|]. cbn [app]. now rewrite !bits_of_cons, IH, app_assoc.
Qed.

Lemma length_bits_of l : length (bits_of l) = (8 * length l)%nat.
Proof. unfold bits_of. now rewrite length_map, length_seq. Qed.

Lemma nth_bits_of l i :
  (i < 8 * length l)%nat -> nth i (bits_of l) false = bit (nth (i / 8) l 0) (i mod 8).
Proof. intros. unfold bits_of. now rewrite nth_map_seq. Qed.

Lemma bits_of_firstn k l : bits_of (firstn k l) = firstn (8 * k) (bits_of l).
Proof.
  revert l. induction k as [|k IH]; intros l; [reflexivity|].
  destruct l as [|x l]; [now rewrite !firstn_nil|].
  cbn [firstn]. rewrite !bits_of_cons, IH.
  replace (8 * S k)%nat with (length (byte_bits x) + 8 * k)%nat
    by (change (length (byte_bits x)) with 8%nat; lia).
  now rewrite firstn_app_2.
Qed.

Lemma bits_of_skipn k l : bits_of (skipn k l) = skipn (8 * k) (bits_of l).
Proof.
  revert l. induction k as [|k IH]; intros l; [reflexivity|].
  destruct l as [|x l]; [now rewrite !skipn_nil|].
  cbn [skipn]. rewrite IH, bits_of_cons. replace (8 * S k)%nat with (8 * k + 8)%nat by lia.
  now rewrite <- skipn_skipn.
Qed.

(** Blocks of [8 r] bits are blocks of [r] bytes. *)
Lemma bits_of_chunks r l :
  (0 < r)%nat -> chunks (8 * r) (bits_of l) = map bits_of (chunks r l).
Proof.
  intros Hr. induction l as [l Hl|b l Hb IH] using (block_ind r Hr).
  - rewrite !chunks_short; [reflexivity|lia|rewrite length_bits_of; lia].
  - rewrite bits_of_app, !chunks_cons by (rewrite ?length_bits_of; lia).
    cbn [map]. now rewrite IH.
Qed.

Lemma bits_of_zeros n :
  (forall i, bit 0 i = false) -> bits_of (repeat 0 n) = repeat false (8 * n).
Proof.
  intros H0. induction n as [|n IH]; [reflexivity|]. cbn [repeat]. rewrite bits_of_cons, IH.
  replace (8 * S n)%nat with (8 + 8 * n)%nat by lia. rewrite repeat_app. f_equal.
  unfold byte_bits. cbn [map seq repeat]. now rewrite !H0.
Qed.
End BitsOf.

Lemma msb_first_0 i : msb_first 0 i = false.
Proof. apply Z.testbit_0_l. Qed.

Lemma lsb_first_0 i : lsb_first 0 i = false.
Proof. apply Z.testbit_0_l. Qed.

(** ** Bytes that are not full

    The byte that ends a message: [n] bits of [ub], a bit 1, zeros. *)
Definition last_byte (ub n : Z) : Z :=
  let z := 0x80 >> n in ((ub .& trunc 32 (- z)) .| z) .& 0xFF.

(** The [n] bits of [ub] that belong to the message. *)
Definition extra_bits (ub : Z) (n : nat) : list bool := map (msb_first ub) (seq 0 n).

Lemma last_byte_bits ub n :
  (n < 8)%nat ->
  byte_bits msb_first (last_byte ub (Z.of_nat n)) =
  extra_bits ub n ++ [true] ++ repeat false (7 - n).
Proof.
  intros Hn. unfold byte_bits, extra_bits, last_byte, msb_first.
  do 8 (destruct n as [|n]; [cbn [seq map app repeat Nat.sub Z.of_nat Pos.of_succ_nat Pos.succ];
    repeat match goal with |- _ :: _ = _ :: _ => f_equal end;
    bit_compute; rewrite ?orb_true_r; reflexivity|]). lia.
Qed.

Lemma last_byte_word ub n : word 8 (last_byte ub n).
Proof. unfold last_byte. cbv zeta. rewrite Z.land_comm. apply land_word; [lia|]. now compute. Qed.
