(* ===== verification/Stream.v ===== *)
(** * Buffered absorption of a message

    The update functions of the three hash functions ([jh_core] in jh.c,
    [keccak_core] in keccak.c, [echo_small_core] and [echo_big_core] in
    echo.c) share one loop: fill the block buffer from the input, and each
    time it is full, run the compression function and start again.  This file
    models that loop once, over a compression function and a block size, and
    proves what its clients need: it terminates, it never writes outside of
    the buffer, cutting the input in pieces does not change the result, and
    the context is a function of the blocks of the whole message. *)

From Stdlib Require Import ZArith List Lia Bool.
From S2P Require Import Prelude.
Import ListNotations.

(** The part of a hash context the loop works on: the block buffer [buf], the
    number [ptr] of bytes in it, and the rest of the state. *)
Record bctx (St : Type) := Bctx { b_buf : list Z; b_ptr : nat; b_st : St }.
Arguments Bctx {St}.
Arguments b_buf {St}.
Arguments b_ptr {St}.
Arguments b_st {St}.

Section Absorb.
  Context {St : Type}.
  Variable lim : nat.
  Variable compress : list Z -> St -> St.

(** The [while (len > 0)] loop.  [None] is an out-of-bounds copy, or the end
    of the fuel. *)
Fixpoint absorb_loop (fuel : nat) (c : bctx St) (data : list Z) : option (bctx St) :=
  match data, fuel with
  | [], _ => Some c
  | _, O => None
  | _, S fuel' =>
      let clen := (lim - b_ptr c)%nat in
      let clen := if (length data <? clen)%nat then length data else clen in
      let* buf := memcpy_at (b_buf c) (b_ptr c) (firstn clen data) in
      let ptr := (b_ptr c + clen)%nat in
      let data := skipn clen data in
      if (ptr =? lim)%nat
      then absorb_loop fuel' (Bctx buf 0 (compress buf (b_st c))) data
      else absorb_loop fuel' (Bctx buf ptr (b_st c)) data
  end.

(** The whole update: a short input is only copied. *)
Definition absorb (c : bctx St) (data : list Z) : option (bctx St) :=
  if (length data <? lim - b_ptr c)%nat
  then let* buf := memcpy_at (b_buf c) (b_ptr c) data in
       Some (Bctx buf (b_ptr c + length data) (b_st c))
  else absorb_loop (length data) c data.

(** The invariant of a context: at least one byte of the block is free. *)
Definition bctx_ok (c : bctx St) : Prop := (b_ptr c < lim <= length (b_buf c))%nat.

(** One turn of the loop when the input does not fill the buffer, and when
    it does. *)
Lemma loop_short fuel c data :
  bctx_ok c -> (length data < lim - b_ptr c)%nat -> (length data <= fuel)%nat ->
  exists buf, memcpy_at (b_buf c) (b_ptr c) data = Some buf /\
    absorb_loop fuel c data = Some (Bctx buf (b_ptr c + length data) (b_st c)).
Proof.
  intros [Hp Hb] Hd Hf. destruct data as [|x data].
  - exists (b_buf c). rewrite memcpy_at_nil by lia. split; [reflexivity|].
    simpl. rewrite Nat.add_0_r. destruct fuel, c; reflexivity.
  - destruct fuel as [|fuel]; [simpl in Hf; lia|].
    remember (x :: data) as d eqn:Ed. exists (firstn (b_ptr c) (b_buf c) ++ d ++
      skipn (b_ptr c + length d) (b_buf c)).
    rewrite memcpy_at_Some by lia. split; [reflexivity|].
    rewrite Ed at 1. cbn [absorb_loop]. rewrite <- Ed.
    rewrite (proj2 (Nat.ltb_lt _ _) Hd), firstn_all, memcpy_at_Some, skipn_all by lia.
    rewrite (proj2 (Nat.eqb_neq _ _)) by lia. destruct fuel; reflexivity.
Qed.

Lemma loop_full fuel c d1 d2 :
  bctx_ok c -> length d1 = (lim - b_ptr c)%nat -> (0 < fuel)%nat ->
  exists buf, memcpy_at (b_buf c) (b_ptr c) d1 = Some buf /\
    absorb_loop fuel c (d1 ++ d2) =
      absorb_loop (fuel - 1) (Bctx buf 0 (compress buf (b_st c))) d2.
Proof.
  intros [Hp Hb] Hd Hf. destruct fuel as [|fuel]; [lia|].
  destruct d1 as [|x d1]; [simpl in Hd; lia|].
  remember (x :: d1) as d eqn:Ed. eexists. rewrite memcpy_at_Some by lia.
  split; [reflexivity|]. rewrite Ed at 1. cbn [app absorb_loop].
  change (x :: d1 ++ d2) with ((x :: d1) ++ d2). rewrite <- Ed, length_app.
  rewrite (proj2 (Nat.ltb_ge _ _)) by lia. rewrite <- Hd.
  rewrite firstn_app, Nat.sub_diag, firstn_O, app_nil_r, firstn_all.
  rewrite memcpy_at_Some by lia. rewrite (proj2 (Nat.eqb_eq _ _)) by lia.
  rewrite skipn_app, Nat.sub_diag, skipn_all. simpl. now rewrite Nat.sub_0_r.
Qed.

Lemma bctx_ok_next c d buf :
  bctx_ok c -> memcpy_at (b_buf c) (b_ptr c) d = Some buf ->
  bctx_ok (Bctx buf 0 (compress buf (b_st c))) /\
  ((length d < lim - b_ptr c)%nat -> bctx_ok (Bctx buf (b_ptr c + length d) (b_st c))).
Proof.
  unfold bctx_ok. simpl. intros [Hp Hb] ->%memcpy_at_length. lia.
Qed.

(** Case analysis on an input: it fits in the buffer, or it fills it. *)
Lemma data_split c (data : list Z) :
  bctx_ok c ->
  (length data < lim - b_ptr c)%nat \/
  exists d1 d2, data = d1 ++ d2 /\ length d1 = (lim - b_ptr c)%nat.
Proof.
  intros [Hp Hb]. destruct (Nat.lt_ge_cases (length data) (lim - b_ptr c)); [now left|].
  right. exists (firstn (lim - b_ptr c) data), (skipn (lim - b_ptr c) data).
  rewrite firstn_skipn, length_firstn. split; [reflexivity|lia].
Qed.

(** Fuel equal to the input's length is enough, and more changes nothing. *)
Lemma loop_total fuel c data :
  bctx_ok c -> (length data <= fuel)%nat ->
  exists c', absorb_loop fuel c data = Some c' /\
             absorb_loop (length data) c data = Some c' /\ bctx_ok c' /\
             length (b_buf c') = length (b_buf c).
Proof.
  revert c data. induction fuel as [fuel IH] using (well_founded_induction lt_wf).
  intros c data Hc Hf. destruct (data_split c data Hc) as [Hs|(d1 & d2 & -> & Hd)].
  - destruct (loop_short fuel c data Hc Hs Hf) as (buf & Hm & ->).
    destruct (loop_short (length data) c data Hc Hs (le_n _)) as (buf' & Hm' & ->).
    rewrite Hm in Hm'. injection Hm' as <-. eexists. repeat split; try reflexivity.
    + apply (proj2 (bctx_ok_next _ _ _ Hc Hm) Hs).
    + apply (proj2 (bctx_ok_next _ _ _ Hc Hm) Hs).
    + simpl. eapply memcpy_at_length, Hm.
  - rewrite length_app in Hf |- *. assert (0 < lim - b_ptr c)%nat by (destruct Hc; lia).
    destruct (loop_full fuel c d1 d2 Hc Hd) as (buf & Hm & ->); [lia|].
    destruct (loop_full (length d1 + length d2) c d1 d2 Hc Hd) as (buf' & Hm' & ->); [lia|].
    rewrite Hm in Hm'. injection Hm' as <-.
    pose proof (proj1 (bctx_ok_next _ _ _ Hc Hm)) as Hn.
    destruct (IH (fuel - 1)%nat ltac:(lia) _ d2 Hn ltac:(lia)) as (c' & E & E' & Hok & Hl).
    destruct (Nat.eq_dec fuel (length d1 + length d2)) as [<-|].
    + exists c'. simpl in Hl. rewrite (memcpy_at_length _ _ _ _ Hm) in Hl. auto.
    + destruct (IH (length d1 + length d2 - 1)%nat ltac:(lia) _ d2 Hn ltac:(lia))
        as (c'' & F & F' & Hok' & Hl').
      exists c'. rewrite E' in F'. injection F' as <-. simpl in Hl.
      rewrite (memcpy_at_length _ _ _ _ Hm) in Hl. auto.
Qed.

Lemma loop_fuel fuel c data :
  bctx_ok c -> (length data <= fuel)%nat ->
  absorb_loop fuel c data = absorb_loop (length data) c data.
Proof. intros H Hf. destruct (loop_total fuel c data H Hf) as (c' & -> & -> & _). reflexivity. Qed.

(** The early exit for short inputs agrees with the loop. *)
Lemma absorb_loop_eq c data :
  bctx_ok c -> absorb c data = absorb_loop (length data) c data.
Proof.
  intros Hc. unfold absorb. destruct (Nat.ltb_spec (length data) (lim - b_ptr c)); [|reflexivity].
  destruct (loop_short (length data) c data Hc H (le_n _)) as (buf & -> & ->). reflexivity.
Qed.

Lemma absorb_total c data :
  bctx_ok c ->
  exists c', absorb c data = Some c' /\ bctx_ok c' /\
             length (b_buf c') = length (b_buf c).
Proof.
  intros Hc. rewrite absorb_loop_eq by assumption.
  destruct (loop_total _ c data Hc (le_n _)) as (c' & E & _ & H). eauto.
Qed.

Lemma absorb_short c d :
  bctx_ok c -> (length d < lim - b_ptr c)%nat ->
  exists buf, memcpy_at (b_buf c) (b_ptr c) d = Some buf /\
    absorb c d = Some (Bctx buf (b_ptr c + length d) (b_st c)).
Proof.
  intros Hc Hd. destruct (loop_short (length d) c d Hc Hd (le_n _)) as (buf & Hm & E).
  exists buf. now rewrite absorb_loop_eq.
Qed.

Lemma absorb_full c d1 d2 :
  bctx_ok c -> length d1 = (lim - b_ptr c)%nat ->
  exists buf, memcpy_at (b_buf c) (b_ptr c) d1 = Some buf /\
    absorb c (d1 ++ d2) = absorb (Bctx buf 0 (compress buf (b_st c))) d2.
Proof.
  intros Hc Hd. assert (0 < lim - b_ptr c)%nat by (destruct Hc; lia).
  destruct (loop_full (length (d1 ++ d2)) c d1 d2 Hc Hd) as (buf & Hm & E);
    [rewrite length_app; lia|].
  pose proof (proj1 (bctx_ok_next _ _ _ Hc Hm)) as Hn.
  exists buf. split; [assumption|]. rewrite !absorb_loop_eq, E by assumption.
  apply loop_fuel; [assumption|]. rewrite length_app. lia.
Qed.

(** Absorbing in two pieces is absorbing the concatenation. *)
Theorem absorb_app c a b :
  bctx_ok c -> absorb c (a ++ b) = let* c' := absorb c a in absorb c' b.
Proof.
  remember (length a) as n eqn:Hn. revert c a Hn.
  induction n as [n IH] using (well_founded_induction lt_wf). intros c a -> Hc.
  destruct (data_split c a Hc) as [Hs|(d1 & d2 & -> & Hd)].
  - destruct (absorb_short c a Hc Hs) as (buf & Hm & ->).
    pose proof (proj2 (bctx_ok_next _ _ _ Hc Hm) Hs) as Hc'.
    destruct (data_split _ b Hc') as [Hb|(b1 & b2 & -> & Hb)]; cbn [b_ptr] in Hb.
    + assert (Hab : (length (a ++ b) < lim - b_ptr c)%nat) by (rewrite length_app; lia).
      destruct (absorb_short c (a ++ b) Hc Hab) as (buf1 & Hm1 & ->).
      destruct (absorb_short _ b Hc' Hb) as (buf2 & Hm2 & ->). simpl in *.
      rewrite (memcpy_at_app _ _ _ _ _ Hm), Hm1 in Hm2. injection Hm2 as <-.
      rewrite length_app. do 2 f_equal. lia.
    + rewrite app_assoc.
      destruct (absorb_full c (a ++ b1) b2 Hc) as (buf1 & Hm1 & ->);
        [rewrite length_app; lia|].
      destruct (absorb_full _ b1 b2 Hc' Hb) as (buf2 & Hm2 & ->). simpl in *.
      rewrite (memcpy_at_app _ _ _ _ _ Hm), Hm1 in Hm2. now injection Hm2 as <-.
  - rewrite <- app_assoc. assert (0 < lim - b_ptr c)%nat by (destruct Hc; lia).
    destruct (absorb_full c d1 (d2 ++ b) Hc Hd) as (buf & Hm & ->).
    destruct (absorb_full c d1 d2 Hc Hd) as (buf' & Hm' & ->).
    rewrite Hm in Hm'. injection Hm' as <-.
    apply (IH (length d2)); [rewrite length_app; lia|reflexivity|].
    apply (bctx_ok_next _ _ _ Hc Hm).
Qed.

(** ** The abstract state of a context

    The compression function reads the first [lim] bytes of the buffer. *)
Hypothesis compress_firstn : forall buf st, compress buf st = compress (firstn lim buf) st.

(** [c] has absorbed the message [msg], starting from the state [st0]: its
    state is the compression of the blocks of [msg] and its buffer holds the
    bytes of [msg] after them. *)
Definition absorbed (st0 : St) (msg : list Z) (c : bctx St) : Prop :=
  (lim <= length (b_buf c))%nat /\
  b_ptr c = (length msg mod lim)%nat /\
  firstn (b_ptr c) (b_buf c) = remainder lim msg /\
  b_st c = fold_left (fun st blk => compress blk st) (chunks lim msg) st0.

Hypothesis lim_pos : (0 < lim)%nat.

Lemma absorbed_ok st0 msg c : absorbed st0 msg c -> bctx_ok c.
Proof.
  intros (Hl & Hp & _). split; [|assumption]. rewrite Hp. apply Nat.mod_upper_bound. lia.
Qed.

Lemma absorbed_init buf st0 : (lim <= length buf)%nat -> absorbed st0 [] (Bctx buf 0 st0).
Proof.
  intros H. repeat split; simpl; auto.
  - now rewrite Nat.Div0.mod_0_l.
  - now rewrite remainder_short.
  - now rewrite chunks_short.
Qed.

(** Absorbing less than what fills the buffer, then exactly what fills it. *)
Lemma absorbed_short st0 msg c d buf :
  absorbed st0 msg c -> (length d < lim - b_ptr c)%nat ->
  memcpy_at (b_buf c) (b_ptr c) d = Some buf ->
  absorbed st0 (msg ++ d) (Bctx buf (b_ptr c + length d) (b_st c)).
Proof.
  intros (Hl & Hp & Hr & Hs) Hd Hm. pose proof (length_remainder lim msg lim_pos) as Hlr.
  assert (Hlen : (length (remainder lim msg ++ d) < lim)%nat) by (rewrite length_app; lia).
  repeat split; simpl.
  - now rewrite (memcpy_at_length _ _ _ _ Hm).
  - rewrite length_app, <- Nat.Div0.add_mod_idemp_l, <- Hp. symmetry. apply Nat.mod_small. lia.
  - rewrite (memcpy_at_firstn _ _ _ _ Hm), Hr, remainder_app by assumption.
    now rewrite (remainder_short lim (_ ++ d)).
  - rewrite Hs, chunks_app, (chunks_short lim (_ ++ d)) by assumption. now rewrite app_nil_r.
Qed.

Lemma absorbed_full st0 msg c d buf :
  absorbed st0 msg c -> length d = (lim - b_ptr c)%nat ->
  memcpy_at (b_buf c) (b_ptr c) d = Some buf ->
  absorbed st0 (msg ++ d) (Bctx buf 0 (compress buf (b_st c))).
Proof.
  intros Ha Hd Hm. pose proof (absorbed_ok _ _ _ Ha) as [Hlt _].
  destruct Ha as (Hl & Hp & Hr & Hs). pose proof (length_remainder lim msg lim_pos) as Hlr.
  assert (Hlen : length (remainder lim msg ++ d) = lim) by (rewrite length_app; lia).
  pose proof (memcpy_at_firstn _ _ _ _ Hm) as Hf. rewrite Hd, Hr in Hf.
  replace (b_ptr c + (lim - b_ptr c))%nat with lim in Hf by lia.
  repeat split; simpl.
  - now rewrite (memcpy_at_length _ _ _ _ Hm).
  - rewrite length_app, Hd, <- Nat.Div0.add_mod_idemp_l, <- Hp.
    replace (b_ptr c + (lim - b_ptr c))%nat with lim by lia. now rewrite Nat.Div0.mod_same.
  - rewrite remainder_app, <- (app_nil_r (_ ++ d)), remainder_cons by assumption.
    now rewrite remainder_short.
  - rewrite chunks_app, fold_left_app, <- Hs by assumption.
    rewrite <- (app_nil_r (_ ++ d)), chunks_cons, (chunks_short lim []) by assumption.
    simpl. now rewrite compress_firstn, Hf.
Qed.

(** The update refines appending to the abstract message. *)
Theorem absorb_absorbed st0 msg c data :
  absorbed st0 msg c ->
  exists c', absorb c data = Some c' /\ absorbed st0 (msg ++ data) c' /\
             length (b_buf c') = length (b_buf c).
Proof.
  remember (length data) as n eqn:Hn. revert msg c data Hn.
  induction n as [n IH] using (well_founded_induction lt_wf). intros msg c data -> Ha.
  pose proof (absorbed_ok _ _ _ Ha) as Hc.
  destruct (data_split c data Hc) as [Hs|(d1 & d2 & -> & Hd)].
  - destruct (absorb_short c data Hc Hs) as (buf & Hm & ->).
    eexists. split; [reflexivity|]. split; [now apply absorbed_short|].
    eapply memcpy_at_length, Hm.
  - destruct (absorb_full c d1 d2 Hc Hd) as (buf & Hm & ->).
    assert (0 < lim - b_ptr c)%nat by (destruct Hc; lia).
    destruct (IH (length d2) ltac:(rewrite length_app; lia) (msg ++ d1) _ d2 eq_refl
                (absorbed_full _ _ _ _ _ Ha Hd Hm)) as (c' & -> & Ha' & Hl).
    exists c'. rewrite <- app_assoc in Ha'. simpl in Hl.
    rewrite (memcpy_at_length _ _ _ _ Hm) in Hl. auto.
Qed.
End Absorb.
