(* ===== verification/SphTypes.v ===== *)
(** * sph_types.h: words, rotations, byte order

    The word macros and the encoding and decoding functions of
    src/src/sph_types.h, in every configuration of its preprocessor
    conditionals.  The theorems: whatever the configuration, a decoding
    function returns the little- (big-) endian value of the bytes, an encoding
    function stores it, and the two are inverse. *)

From Stdlib Require Import ZArith List Lia Bool Btauto.
From S2P Require Import Prelude.
Import ListNotations.

Definition SPH_T32 (x : Z) : Z := x .& 0xFFFFFFFF.
Definition SPH_T64 (x : Z) : Z := x .& 0xFFFFFFFFFFFFFFFF.
Definition SPH_ROTL32 (x n : Z) : Z := SPH_T32 ((x << n) .| (x >> (32 - n))).
Definition SPH_ROTR32 (x n : Z) : Z := SPH_ROTL32 x (32 - n).
Definition SPH_ROTL64 (x n : Z) : Z := SPH_T64 ((x << n) .| (x >> (64 - n))).
Definition SPH_ROTR64 (x n : Z) : Z := SPH_ROTL64 x (64 - n).

Lemma SPH_T32_trunc x : SPH_T32 x = trunc 32 x.
Proof. reflexivity. Qed.

Lemma SPH_T64_trunc x : SPH_T64 x = trunc 64 x.
Proof. reflexivity. Qed.

Definition sph_bswap32 (x : Z) : Z :=
  let x := SPH_T32 ((x << 16) .| (x >> 16)) in
  ((x .& 0xFF00FF00) >> 8) .| ((x .& 0x00FF00FF) << 8).

Definition sph_bswap64 (x : Z) : Z :=
  let x := SPH_T64 ((x << 32) .| (x >> 32)) in
  let x := ((x .& 0xFFFF0000FFFF0000) >> 16) .| ((x .& 0x0000FFFF0000FFFF) << 16) in
  ((x .& 0xFF00FF00FF00FF00) >> 8) .| ((x .& 0x00FF00FF00FF00FF) << 8).

(** ** The platform

    What the preprocessor detects: the byte order of the machine (or nothing,
    when it is not known), whether pointers can be cast to an integer type
    ([SPH_UPTR]) and whether unaligned accesses are efficient. *)

Inductive byte_order := SPH_LITTLE_ENDIAN | SPH_BIG_ENDIAN | order_unknown.

Record platform := Platform {
  order : byte_order;
  SPH_UPTR : bool;
  SPH_UNALIGNED : bool
}.

(** [#error SPH_UPTR defined, but endianness is not known.] *)
Definition platform_ok (p : platform) : bool :=
  match SPH_UPTR p, order p with
  | true, order_unknown => false
  | _, _ => true
  end.

(** A native access (through a pointer cast to a word type) goes through the machine's byte
    order; the code only performs one where that order is known. *)
Definition native_load (p : platform) (n : nat) (src : list Z) : Z :=
  match order p with SPH_BIG_ENDIAN => be_load n src | _ => le_load n src end.
Definition native_store (p : platform) (n : nat) (v : Z) : list Z :=
  match order p with SPH_BIG_ENDIAN => be_store n v | _ => le_store n v end.

Definition byte_at (src : list Z) (i : nat) : Z := nth i src 0.

(** ** 16 bits *)

Definition sph_enc16be (val : Z) : list Z := [trunc 8 (val >> 8); trunc 8 val].
Definition sph_dec16be (src : list Z) : Z := (byte_at src 0 << 8) .| byte_at src 1.
Definition sph_enc16le (val : Z) : list Z := [trunc 8 val; trunc 8 (val >> 8)].
Definition sph_dec16le (src : list Z) : Z := byte_at src 0 .| (byte_at src 1 << 8).

(** ** 32 bits

    [addr] is the address of the bytes: the unaligned variants test it. *)

Definition enc32be_bytes (val : Z) : list Z :=
  [trunc 8 (val >> 24); trunc 8 (val >> 16); trunc 8 (val >> 8); trunc 8 val].
Definition enc32le_bytes (val : Z) : list Z :=
  [trunc 8 val; trunc 8 (val >> 8); trunc 8 (val >> 16); trunc 8 (val >> 24)].
Definition dec32be_bytes (src : list Z) : Z :=
  (byte_at src 0 << 24) .| (byte_at src 1 << 16) .| (byte_at src 2 << 8) .| byte_at src 3.
Definition dec32le_bytes (src : list Z) : Z :=
  byte_at src 0 .| (byte_at src 1 << 8) .| (byte_at src 2 << 16) .| (byte_at src 3 << 24).

Definition sph_enc32be (p : platform) (addr val : Z) : list Z :=
  let native :=
    let val := match order p with SPH_LITTLE_ENDIAN => sph_bswap32 val | _ => val end in
    native_store p 4 val in
  if SPH_UPTR p then
    if SPH_UNALIGNED p then native
    else if (addr .& 3) =? 0 then native else enc32be_bytes val
  else enc32be_bytes val.

Definition sph_enc32be_aligned (p : platform) (val : Z) : list Z :=
  match order p with
  | SPH_LITTLE_ENDIAN => native_store p 4 (sph_bswap32 val)
  | SPH_BIG_ENDIAN => native_store p 4 val
  | order_unknown => enc32be_bytes val
  end.

Definition sph_dec32be (p : platform) (addr : Z) (src : list Z) : Z :=
  let native :=
    match order p with
    | SPH_LITTLE_ENDIAN => sph_bswap32 (native_load p 4 src)
    | _ => native_load p 4 src
    end in
  if SPH_UPTR p then
    if SPH_UNALIGNED p then native
    else if (addr .& 3) =? 0 then native else dec32be_bytes src
  else dec32be_bytes src.

Definition sph_dec32be_aligned (p : platform) (src : list Z) : Z :=
  match order p with
  | SPH_LITTLE_ENDIAN => sph_bswap32 (native_load p 4 src)
  | SPH_BIG_ENDIAN => native_load p 4 src
  | order_unknown => dec32be_bytes src
  end.

Definition sph_enc32le (p : platform) (addr val : Z) : list Z :=
  let native :=
    let val := match order p with SPH_BIG_ENDIAN => sph_bswap32 val | _ => val end in
    native_store p 4 val in
  if SPH_UPTR p then
    if SPH_UNALIGNED p then native
    else if (addr .& 3) =? 0 then native else enc32le_bytes val
  else enc32le_bytes val.

Definition sph_enc32le_aligned (p : platform) (val : Z) : list Z :=
  match order p with
  | SPH_LITTLE_ENDIAN => native_store p 4 val
  | SPH_BIG_ENDIAN => native_store p 4 (sph_bswap32 val)
  | order_unknown => enc32le_bytes val
  end.

Definition sph_dec32le (p : platform) (addr : Z) (src : list Z) : Z :=
  let native :=
    match order p with
    | SPH_BIG_ENDIAN => sph_bswap32 (native_load p 4 src)
    | _ => native_load p 4 src
    end in
  if SPH_UPTR p then
    if SPH_UNALIGNED p then native
    else if (addr .& 3) =? 0 then native else dec32le_bytes src
  else dec32le_bytes src.

Definition sph_dec32le_aligned (p : platform) (src : list Z) : Z :=
  match order p with
  | SPH_LITTLE_ENDIAN => native_load p 4 src
  | SPH_BIG_ENDIAN => sph_bswap32 (native_load p 4 src)
  | order_unknown => dec32le_bytes src
  end.

(** ** 64 bits *)

Definition enc64be_bytes (val : Z) : list Z :=
  [trunc 8 (val >> 56); trunc 8 (val >> 48); trunc 8 (val >> 40); trunc 8 (val >> 32);
   trunc 8 (val >> 24); trunc 8 (val >> 16); trunc 8 (val >> 8); trunc 8 val].
Definition enc64le_bytes (val : Z) : list Z :=
  [trunc 8 val; trunc 8 (val >> 8); trunc 8 (val >> 16); trunc 8 (val >> 24);
   trunc 8 (val >> 32); trunc 8 (val >> 40); trunc 8 (val >> 48); trunc 8 (val >> 56)].
Definition dec64be_bytes (src : list Z) : Z :=
  (byte_at src 0 << 56) .| (byte_at src 1 << 48) .| (byte_at src 2 << 40) .|
  (byte_at src 3 << 32) .| (byte_at src 4 << 24) .| (byte_at src 5 << 16) .|
  (byte_at src 6 << 8) .| byte_at src 7.
Definition dec64le_bytes (src : list Z) : Z :=
  byte_at src 0 .| (byte_at src 1 << 8) .| (byte_at src 2 << 16) .| (byte_at src 3 << 24) .|
  (byte_at src 4 << 32) .| (byte_at src 5 << 40) .| (byte_at src 6 << 48) .|
  (byte_at src 7 << 56).

Definition sph_enc64be (p : platform) (addr val : Z) : list Z :=
  let native :=
    let val := match order p with SPH_LITTLE_ENDIAN => sph_bswap64 val | _ => val end in
    native_store p 8 val in
  if SPH_UPTR p then
    if SPH_UNALIGNED p then native
    else if (addr .& 7) =? 0 then native else enc64be_bytes val
  else enc64be_bytes val.

Definition sph_enc64be_aligned (p : platform) (val : Z) : list Z :=
  match order p with
  | SPH_LITTLE_ENDIAN => native_store p 8 (sph_bswap64 val)
  | SPH_BIG_ENDIAN => native_store p 8 val
  | order_unknown => enc64be_bytes val
  end.

Definition sph_dec64be (p : platform) (addr : Z) (src : list Z) : Z :=
  let native :=
    match order p with
    | SPH_LITTLE_ENDIAN => sph_bswap64 (native_load p 8 src)
    | _ => native_load p 8 src
    end in
  if SPH_UPTR p then
    if SPH_UNALIGNED p then native
    else if (addr .& 7) =? 0 then native else dec64be_bytes src
  else dec64be_bytes src.

Definition sph_dec64be_aligned (p : platform) (src : list Z) : Z :=
  match order p with
  | SPH_LITTLE_ENDIAN => sph_bswap64 (native_load p 8 src)
  | SPH_BIG_ENDIAN => native_load p 8 src
  | order_unknown => dec64be_bytes src
  end.

Definition sph_enc64le (p : platform) (addr val : Z) : list Z :=
  let native :=
    let val := match order p with SPH_BIG_ENDIAN => sph_bswap64 val | _ => val end in
    native_store p 8 val in
  if SPH_UPTR p then
    if SPH_UNALIGNED p then native
    else if (addr .& 7) =? 0 then native else enc64le_bytes val
  else enc64le_bytes val.

Definition sph_enc64le_aligned (p : platform) (val : Z) : list Z :=
  match order p with
  | SPH_LITTLE_ENDIAN => native_store p 8 val
  | SPH_BIG_ENDIAN => native_store p 8 (sph_bswap64 val)
  | order_unknown => enc64le_bytes val
  end.

Definition sph_dec64le (p : platform) (addr : Z) (src : list Z) : Z :=
  let native :=
    match order p with
    | SPH_BIG_ENDIAN => sph_bswap64 (native_load p 8 src)
    | _ => native_load p 8 src
    end in
  if SPH_UPTR p then
    if SPH_UNALIGNED p then native
    else if (addr .& 7) =? 0 then native else dec64le_bytes src
  else dec64le_bytes src.

Definition sph_dec64le_aligned (p : platform) (src : list Z) : Z :=
  match order p with
  | SPH_LITTLE_ENDIAN => native_load p 8 src
  | SPH_BIG_ENDIAN => sph_bswap64 (native_load p 8 src)
  | order_unknown => dec64le_bytes src
  end.

(** * Properties *)

(** ** Rotations *)

Lemma SPH_ROTL64_testbit x n k :
  word 64 x -> 0 <= n < 64 -> 0 <= k < 64 ->
  Z.testbit (SPH_ROTL64 x n) k = Z.testbit x ((k - n) mod 64).
Proof.
  intros Hx Hn Hk. unfold SPH_ROTL64. rewrite SPH_T64_trunc. autorewrite with zbits.
  decide_cmp. cbn [andb]. destruct (Z.leb_spec n k).
  - rewrite (word_testbit_high 64 x (k + (64 - n))) by (assumption || lia). rewrite Z.mod_small by lia.
    apply orb_false_r.
  - cbn [andb orb]. replace (k - n) with (k + (64 - n) + (-1) * 64) by lia.
    rewrite Z.mod_add, Z.mod_small by lia. reflexivity.
Qed.

Lemma SPH_ROTL32_testbit x n k :
  word 32 x -> 0 <= n < 32 -> 0 <= k < 32 ->
  Z.testbit (SPH_ROTL32 x n) k = Z.testbit x ((k - n) mod 32).
Proof.
  intros Hx Hn Hk. unfold SPH_ROTL32. rewrite SPH_T32_trunc. autorewrite with zbits.
  decide_cmp. cbn [andb]. destruct (Z.leb_spec n k).
  - rewrite (word_testbit_high 32 x (k + (32 - n))) by (assumption || lia). rewrite Z.mod_small by lia.
    apply orb_false_r.
  - cbn [andb orb]. replace (k - n) with (k + (32 - n) + (-1) * 32) by lia.
    rewrite Z.mod_add, Z.mod_small by lia. reflexivity.
Qed.

Lemma SPH_ROTL64_word x n : word 64 (SPH_ROTL64 x n).
Proof. unfold SPH_ROTL64. rewrite SPH_T64_trunc. now apply trunc_word. Qed.

Lemma SPH_ROTL32_word x n : word 32 (SPH_ROTL32 x n).
Proof. unfold SPH_ROTL32. rewrite SPH_T32_trunc. now apply trunc_word. Qed.

#[export] Hint Resolve SPH_ROTL64_word SPH_ROTL32_word : words.

(** ** Byte swapping reverses the bytes *)

Lemma sph_bswap32_testbit x k :
  word 32 x -> 0 <= k < 32 ->
  Z.testbit (sph_bswap32 x) k = Z.testbit x (8 * (3 - k / 8) + k mod 8).
Proof.
  intros Hx Hk. unfold sph_bswap32. rewrite SPH_T32_trunc.
  each_bit 32%nat k Hk; bit_compute; high_bits 32 x; reflexivity.
Qed.

Lemma sph_bswap64_testbit x k :
  word 64 x -> 0 <= k < 64 ->
  Z.testbit (sph_bswap64 x) k = Z.testbit x (8 * (7 - k / 8) + k mod 8).
Proof.
  intros Hx Hk. unfold sph_bswap64. rewrite SPH_T64_trunc.
  each_bit 64%nat k Hk; bit_compute; high_bits 64 x; reflexivity.
Qed.

Lemma sph_bswap32_word x : word 32 x -> word 32 (sph_bswap32 x).
Proof.
  intros Hx. unfold sph_bswap32. rewrite SPH_T32_trunc. apply lor_word; [lia| |].
  - apply shiftr_word; auto using trunc_word, land_word with words.
  - apply word_of_bits; [lia| |].
    + apply Z.shiftl_nonneg, Z.land_nonneg. lia.
    + intros n Hn. autorewrite with zbits.
      rewrite (word_testbit_high 24 0x00FF00FF) by (lia || now vm_compute).
      now rewrite !andb_false_r.
Qed.

Lemma sph_bswap64_word x : word 64 x -> word 64 (sph_bswap64 x).
Proof.
  intros Hx. unfold sph_bswap64. rewrite SPH_T64_trunc. cbv zeta.
  set (y := (_ >> 16) .| _). assert (Hy : 0 <= y).
  { apply Z.lor_nonneg. split; [apply Z.shiftr_nonneg|apply Z.shiftl_nonneg];
      apply Z.land_nonneg; lia. }
  apply word_of_bits; [lia| |].
  - apply Z.lor_nonneg. split; [apply Z.shiftr_nonneg|apply Z.shiftl_nonneg];
      apply Z.land_nonneg; lia.
  - intros n Hn. autorewrite with zbits.
    rewrite (word_testbit_high 56 0x00FF00FF00FF00FF) by (lia || now vm_compute).
    rewrite (word_testbit_high 64 0xFF00FF00FF00FF00) by (lia || now vm_compute).
    now rewrite !andb_false_r.
Qed.

Lemma sph_bswap32_le_load b :
  bytes b -> (4 <= length b)%nat -> sph_bswap32 (le_load 4 b) = be_load 4 b.
Proof.
  intros Hb Hl. apply (word_ext 32); [lia| | |].
  - apply sph_bswap32_word, (le_load_word 4 b Hb).
  - apply (be_load_word 4 b Hb).
  - intros k Hk. rewrite sph_bswap32_testbit by (apply (le_load_word 4 b Hb) || lia).
    rewrite (le_load_testbit 4), (be_load_testbit 4) by (assumption || dlia).
    f_equal; [|dlia]. f_equal. dlia.
Qed.

Lemma sph_bswap64_le_load b :
  bytes b -> (8 <= length b)%nat -> sph_bswap64 (le_load 8 b) = be_load 8 b.
Proof.
  intros Hb Hl. apply (word_ext 64); [lia| | |].
  - apply sph_bswap64_word, (le_load_word 8 b Hb).
  - apply (be_load_word 8 b Hb).
  - intros k Hk. rewrite sph_bswap64_testbit by (apply (le_load_word 8 b Hb) || lia).
    rewrite (le_load_testbit 8), (be_load_testbit 8) by (assumption || dlia).
    f_equal; [|dlia]. f_equal. dlia.
Qed.

Lemma sph_bswap32_involutive x : word 32 x -> sph_bswap32 (sph_bswap32 x) = x.
Proof.
  intros Hx. apply (word_ext 32); auto using sph_bswap32_word; [lia|].
  intros k Hk. rewrite !sph_bswap32_testbit by (auto using sph_bswap32_word || dlia).
  f_equal. dlia.
Qed.

Lemma sph_bswap64_involutive x : word 64 x -> sph_bswap64 (sph_bswap64 x) = x.
Proof.
  intros Hx. apply (word_ext 64); auto using sph_bswap64_word; [lia|].
  intros k Hk. rewrite !sph_bswap64_testbit by (auto using sph_bswap64_word || dlia).
  f_equal. dlia.
Qed.

Lemma sph_bswap32_be_load b :
  bytes b -> (4 <= length b)%nat -> sph_bswap32 (be_load 4 b) = le_load 4 b.
Proof.
  intros Hb Hl. rewrite <- sph_bswap32_le_load by assumption.
  apply sph_bswap32_involutive, (le_load_word 4 b Hb).
Qed.

Lemma sph_bswap64_be_load b :
  bytes b -> (8 <= length b)%nat -> sph_bswap64 (be_load 8 b) = le_load 8 b.
Proof.
  intros Hb Hl. rewrite <- sph_bswap64_le_load by assumption.
  apply sph_bswap64_involutive, (le_load_word 8 b Hb).
Qed.

(** Storing a swapped word is storing the word in the other order. *)
Lemma le_store_bswap32 v : word 32 v -> le_store 4 (sph_bswap32 v) = be_store 4 v.
Proof.
  intros Hv. pose proof (bytes_be_store 4 v) as Hb. pose proof (length_be_store 4 v) as Hl.
  rewrite <- (be_load_store 4 v Hv) at 1. rewrite sph_bswap32_be_load by (assumption || lia).
  now apply le_store_load.
Qed.

Lemma be_store_bswap32 v : word 32 v -> be_store 4 (sph_bswap32 v) = le_store 4 v.
Proof.
  intros Hv. rewrite <- le_store_bswap32 by now apply sph_bswap32_word.
  now rewrite sph_bswap32_involutive.
Qed.

Lemma le_store_bswap64 v : word 64 v -> le_store 8 (sph_bswap64 v) = be_store 8 v.
Proof.
  intros Hv. pose proof (bytes_be_store 8 v) as Hb. pose proof (length_be_store 8 v) as Hl.
  rewrite <- (be_load_store 8 v Hv) at 1. rewrite sph_bswap64_be_load by (assumption || lia).
  now apply le_store_load.
Qed.

Lemma be_store_bswap64 v : word 64 v -> be_store 8 (sph_bswap64 v) = le_store 8 v.
Proof.
  intros Hv. rewrite <- le_store_bswap64 by now apply sph_bswap64_word.
  now rewrite sph_bswap64_involutive.
Qed.

(** ** The bytewise code is the load and the store of its byte order *)

Ltac shifts := rewrite ?Z.shiftl_lor, ?Z.shiftl_shiftl, ?Z.shiftr_shiftr by lia.

Lemma le_load_4 a b c d l :
  le_load 4 (a :: b :: c :: d :: l) = a .| (b << 8) .| (c << 16) .| (d << 24).
Proof.
  cbn [le_load]. destruct l; shifts; rewrite Z.shiftl_0_l, Z.lor_0_r; cbn;
    now rewrite !Z.lor_assoc.
Qed.

Lemma le_load_8 a b c d e f g h l :
  le_load 8 (a :: b :: c :: d :: e :: f :: g :: h :: l) =
  a .| (b << 8) .| (c << 16) .| (d << 24) .| (e << 32) .| (f << 40) .| (g << 48) .| (h << 56).
Proof.
  cbn [le_load]. destruct l; shifts; rewrite Z.shiftl_0_l, Z.lor_0_r; cbn;
    now rewrite !Z.lor_assoc.
Qed.

(** A list of at least [n] elements, as its first elements and a tail. *)
Ltac expose l n :=
  lazymatch n with
  | O => idtac
  | S ?m => let x := fresh "b" in let t := fresh "l" in
            destruct l as [|x t]; [simpl in *; lia|]; expose t m
  end.

Lemma dec32le_bytes_load src : (4 <= length src)%nat -> dec32le_bytes src = le_load 4 src.
Proof. intros H. expose src 4%nat. now rewrite le_load_4. Qed.

Lemma dec64le_bytes_load src : (8 <= length src)%nat -> dec64le_bytes src = le_load 8 src.
Proof. intros H. expose src 8%nat. now rewrite le_load_8. Qed.

Lemma dec32be_bytes_load src : (4 <= length src)%nat -> dec32be_bytes src = be_load 4 src.
Proof.
  intros H. expose src 4%nat. unfold be_load. cbn [firstn rev app].
  rewrite le_load_4. unfold dec32be_bytes, byte_at. cbn [nth].
  bitwise n Hn. btauto.
Qed.

Lemma dec64be_bytes_load src : (8 <= length src)%nat -> dec64be_bytes src = be_load 8 src.
Proof.
  intros H. expose src 8%nat. unfold be_load. cbn [firstn rev app].
  rewrite le_load_8. unfold dec64be_bytes, byte_at. cbn [nth].
  bitwise n Hn. btauto.
Qed.

Lemma enc32le_bytes_store v : enc32le_bytes v = le_store 4 v.
Proof. cbn [le_store]. shifts. reflexivity. Qed.

Lemma enc64le_bytes_store v : enc64le_bytes v = le_store 8 v.
Proof. cbn [le_store]. shifts. reflexivity. Qed.

Lemma enc32be_bytes_store v : enc32be_bytes v = be_store 4 v.
Proof. unfold be_store. rewrite <- enc32le_bytes_store. reflexivity. Qed.

Lemma enc64be_bytes_store v : enc64be_bytes v = be_store 8 v.
Proof. unfold be_store. rewrite <- enc64le_bytes_store. reflexivity. Qed.

(** ** Every configuration computes the same function *)

Create Rewrite HintDb sph.
#[local] Hint Rewrite dec32le_bytes_load dec64le_bytes_load dec32be_bytes_load
  dec64be_bytes_load enc32le_bytes_store enc64le_bytes_store enc32be_bytes_store
  enc64be_bytes_store sph_bswap32_le_load sph_bswap32_be_load sph_bswap64_le_load
  sph_bswap64_be_load le_store_bswap32 be_store_bswap32 le_store_bswap64 be_store_bswap64
  using (assumption || lia) : sph.

(** Goes through the configurations of a platform. *)
Ltac platforms p :=
  destruct p as [[] [] []]; try discriminate;
  unfold native_load, native_store; cbn [order SPH_UPTR SPH_UNALIGNED];
  repeat match goal with |- context [if ?b then _ else _] => destruct b end;
  autorewrite with sph; try reflexivity.

Section AnyPlatform.
  Variable p : platform.
  Variable addr : Z.
  Hypothesis Hp : platform_ok p = true.

Lemma sph_dec32le_load src :
  bytes src -> (4 <= length src)%nat -> sph_dec32le p addr src = le_load 4 src.
Proof. intros. unfold sph_dec32le. platforms p. Qed.

Lemma sph_dec32be_load src :
  bytes src -> (4 <= length src)%nat -> sph_dec32be p addr src = be_load 4 src.
Proof. intros. unfold sph_dec32be. platforms p. Qed.

Lemma sph_dec64le_load src :
  bytes src -> (8 <= length src)%nat -> sph_dec64le p addr src = le_load 8 src.
Proof. intros. unfold sph_dec64le. platforms p. Qed.

Lemma sph_dec64be_load src :
  bytes src -> (8 <= length src)%nat -> sph_dec64be p addr src = be_load 8 src.
Proof. intros. unfold sph_dec64be. platforms p. Qed.

Lemma sph_dec32le_aligned_load src :
  bytes src -> (4 <= length src)%nat -> sph_dec32le_aligned p src = le_load 4 src.
Proof. intros. unfold sph_dec32le_aligned. platforms p. Qed.

Lemma sph_dec32be_aligned_load src :
  bytes src -> (4 <= length src)%nat -> sph_dec32be_aligned p src = be_load 4 src.
Proof. intros. unfold sph_dec32be_aligned. platforms p. Qed.

Lemma sph_dec64le_aligned_load src :
  bytes src -> (8 <= length src)%nat -> sph_dec64le_aligned p src = le_load 8 src.
Proof. intros. unfold sph_dec64le_aligned. platforms p. Qed.

Lemma sph_dec64be_aligned_load src :
  bytes src -> (8 <= length src)%nat -> sph_dec64be_aligned p src = be_load 8 src.
Proof. intros. unfold sph_dec64be_aligned. platforms p. Qed.

Lemma sph_enc32le_store v : word 32 v -> sph_enc32le p addr v = le_store 4 v.
Proof. intros. unfold sph_enc32le. platforms p. Qed.

Lemma sph_enc32be_store v : word 32 v -> sph_enc32be p addr v = be_store 4 v.
Proof. intros. unfold sph_enc32be. platforms p. Qed.

Lemma sph_enc64le_store v : word 64 v -> sph_enc64le p addr v = le_store 8 v.
Proof. intros. unfold sph_enc64le. platforms p. Qed.

Lemma sph_enc64be_store v : word 64 v -> sph_enc64be p addr v = be_store 8 v.
Proof. intros. unfold sph_enc64be. platforms p. Qed.

Lemma sph_enc32le_aligned_store v : word 32 v -> sph_enc32le_aligned p v = le_store 4 v.
Proof. intros. unfold sph_enc32le_aligned. platforms p. Qed.

Lemma sph_enc32be_aligned_store v : word 32 v -> sph_enc32be_aligned p v = be_store 4 v.
Proof. intros. unfold sph_enc32be_aligned. platforms p. Qed.

Lemma sph_enc64le_aligned_store v : word 64 v -> sph_enc64le_aligned p v = le_store 8 v.
Proof. intros. unfold sph_enc64le_aligned. platforms p. Qed.

Lemma sph_enc64be_aligned_store v : word 64 v -> sph_enc64be_aligned p v = be_store 8 v.
Proof. intros. unfold sph_enc64be_aligned. platforms p. Qed.
End AnyPlatform.
