(* ===== verification/SphTheorems.v ===== *)
(** * Theorems on sph_types.h and on the buffered update

    The properties of the codecs of [SphTypes] and of the loop of [Stream]
    that the hash functions rely on. *)

From Stdlib Require Import ZArith List Lia Bool.
From S2P Require Import Prelude SphTypes Stream.
Import ListNotations.

(** Platforms of the three kinds the preprocessor distinguishes. *)
Definition little_endian : platform := Platform SPH_LITTLE_ENDIAN true true.
Definition big_endian : platform := Platform SPH_BIG_ENDIAN true false.
Definition portable : platform := Platform order_unknown false false.

Lemma le_load_2 src : (2 <= length src)%nat -> sph_dec16le src = le_load 2 src.
Proof.
  intros H. do 2 (destruct src as [|? src]; [cbn in H; lia|]).
  unfold sph_dec16le, byte_at. cbn [nth le_load]. destruct src; now rewrite Z.shiftl_0_l, Z.lor_0_r.
Qed.

Lemma be_load_2 src : (2 <= length src)%nat -> sph_dec16be src = be_load 2 src.
Proof.
  intros H. do 2 (destruct src as [|? src]; [cbn in H; lia|]).
  unfold sph_dec16be, byte_at, be_load. cbn [nth firstn rev app le_load].
  rewrite Z.shiftl_0_l, Z.lor_0_r. apply Z.lor_comm.
Qed.

(** On every platform the preprocessor accepts, and at every address, each decoding
    function returns the little- or big-endian value of the bytes it is given, whatever the
    byte order of the machine and the way the bytes are accessed. *)
Theorem sph_decoders_any_platform (p : platform) (addr : Z) (src : list Z) :
  platform_ok p = true -> bytes src -> (8 <= length src)%nat ->
  (sph_dec16le src = le_load 2 src /\ sph_dec16be src = be_load 2 src) /\
  (sph_dec32le p addr src = le_load 4 src /\ sph_dec32be p addr src = be_load 4 src /\
   sph_dec32le_aligned p src = le_load 4 src /\ sph_dec32be_aligned p src = be_load 4 src) /\
  (sph_dec64le p addr src = le_load 8 src /\ sph_dec64be p addr src = be_load 8 src /\
   sph_dec64le_aligned p src = le_load 8 src /\ sph_dec64be_aligned p src = be_load 8 src).
Proof.
  intros Hp Hb Hl. splits; auto using sph_dec32le_load, sph_dec32be_load, sph_dec32le_aligned_load,
    sph_dec32be_aligned_load, sph_dec64le_load, sph_dec64be_load, sph_dec64le_aligned_load,
    sph_dec64be_aligned_load with arith.
  - apply le_load_2. lia.
  - apply be_load_2. lia.
  - apply sph_dec32le_load; (assumption || lia).
  - apply sph_dec32be_load; (assumption || lia).
  - apply sph_dec32le_aligned_load; (assumption || lia).
  - apply sph_dec32be_aligned_load; (assumption || lia).
Qed.

Lemma sph_decoders_any_platform_witness :
  sph_dec32be little_endian 1 [1; 2; 3; 4; 5; 6; 7; 8] = 0x01020304.
Proof.
  refine (eq_trans (proj1 (proj2 (proj1 (proj2
    (sph_decoders_any_platform little_endian 1 [1; 2; 3; 4; 5; 6; 7; 8] _ _ _))))) _).
  - reflexivity.
  - repeat constructor; now compute.
  - cbn. lia.
  - reflexivity.
Defined.

(** Decoding what an encoding function stored gives the word back, and storing what was
    decoded gives the bytes back, on every platform, for both byte orders and both widths,
    at possibly different addresses. *)
Theorem sph_codec_roundtrip (p : platform) (a a' : Z) :
  platform_ok p = true ->
  (forall v, word 32 v ->
    sph_dec32le p a (sph_enc32le p a' v) = v /\ sph_dec32be p a (sph_enc32be p a' v) = v /\
    sph_dec32le_aligned p (sph_enc32le_aligned p v) = v /\
    sph_dec32be_aligned p (sph_enc32be_aligned p v) = v) /\
  (forall v, word 64 v ->
    sph_dec64le p a (sph_enc64le p a' v) = v /\ sph_dec64be p a (sph_enc64be p a' v) = v /\
    sph_dec64le_aligned p (sph_enc64le_aligned p v) = v /\
    sph_dec64be_aligned p (sph_enc64be_aligned p v) = v) /\
  (forall b, bytes b -> length b = 4%nat ->
    sph_enc32le p a (sph_dec32le p a' b) = b /\ sph_enc32le_aligned p (sph_dec32le_aligned p b) = b) /\
  (forall b, bytes b -> length b = 8%nat ->
    sph_enc64le p a (sph_dec64le p a' b) = b /\ sph_enc64le_aligned p (sph_dec64le_aligned p b) = b).
Proof.
  intros Hp. splits.
  - intros v Hv.
    rewrite sph_enc32le_store, sph_enc32be_store, sph_enc32le_aligned_store, sph_enc32be_aligned_store
      by assumption.
    rewrite sph_dec32le_load, sph_dec32be_load, sph_dec32le_aligned_load, sph_dec32be_aligned_load
      by (assumption || apply bytes_le_store || apply bytes_be_store ||
          (rewrite ?length_le_store, ?length_be_store; lia)).
    now rewrite le_load_store, be_load_store.
  - intros v Hv.
    rewrite sph_enc64le_store, sph_enc64be_store, sph_enc64le_aligned_store, sph_enc64be_aligned_store
      by assumption.
    rewrite sph_dec64le_load, sph_dec64be_load, sph_dec64le_aligned_load, sph_dec64be_aligned_load
      by (assumption || apply bytes_le_store || apply bytes_be_store ||
          (rewrite ?length_le_store, ?length_be_store; lia)).
    now rewrite le_load_store, be_load_store.
  - intros b Hb Hl. rewrite sph_dec32le_load, sph_dec32le_aligned_load by (assumption || lia).
    rewrite sph_enc32le_store, sph_enc32le_aligned_store by (assumption || apply (le_load_word 4 b Hb)).
    now rewrite le_store_load.
  - intros b Hb Hl. rewrite sph_dec64le_load, sph_dec64le_aligned_load by (assumption || lia).
    rewrite sph_enc64le_store, sph_enc64le_aligned_store by (assumption || apply (le_load_word 8 b Hb)).
    now rewrite le_store_load.
Qed.

Lemma sph_codec_roundtrip_witness :
  sph_dec64be_aligned big_endian (sph_enc64be_aligned big_endian 0x0102030405060708) = 0x0102030405060708.
Proof.
  apply (sph_codec_roundtrip big_endian 3 8); [reflexivity|]. split; [lia|reflexivity].
Defined.

(** The byte swaps reverse the bytes of a word (the little-endian value of four or eight
    bytes becomes the big-endian one) and are their own inverse. *)
Theorem sph_bswap_reverses (b : list Z) :
  bytes b ->
  (length b = 4%nat -> sph_bswap32 (le_load 4 b) = be_load 4 b /\
     sph_bswap32 (sph_bswap32 (le_load 4 b)) = le_load 4 b) /\
  (length b = 8%nat -> sph_bswap64 (le_load 8 b) = be_load 8 b /\
     sph_bswap64 (sph_bswap64 (le_load 8 b)) = le_load 8 b).
Proof.
  intros Hb. split; intros Hl; split.
  - apply sph_bswap32_le_load; (assumption || lia).
  - apply sph_bswap32_involutive, (le_load_word 4 b Hb).
  - apply sph_bswap64_le_load; (assumption || lia).
  - apply sph_bswap64_involutive, (le_load_word 8 b Hb).
Qed.

Lemma sph_bswap_reverses_witness : sph_bswap32 0x04030201 = 0x01020304.
Proof.
  apply (sph_bswap_reverses [1; 2; 3; 4]); [repeat constructor; now compute|reflexivity].
Defined.

(** The rotation macros move bit [k] to position [k + n], modulo the width, to the left,
    and to [k - n] to the right, and never leave a bit above the width. *)
Theorem sph_rotations (n k : Z) :
  (forall x, word 32 x -> 0 < n < 32 -> 0 <= k < 32 ->
     Z.testbit (SPH_ROTL32 x n) k = Z.testbit x ((k - n) mod 32) /\
     Z.testbit (SPH_ROTR32 x n) k = Z.testbit x ((k + n) mod 32) /\
     word 32 (SPH_ROTL32 x n) /\ word 32 (SPH_ROTR32 x n)) /\
  (forall x, word 64 x -> 0 < n < 64 -> 0 <= k < 64 ->
     Z.testbit (SPH_ROTL64 x n) k = Z.testbit x ((k - n) mod 64) /\
     Z.testbit (SPH_ROTR64 x n) k = Z.testbit x ((k + n) mod 64) /\
     word 64 (SPH_ROTL64 x n) /\ word 64 (SPH_ROTR64 x n)).
Proof.
  split; intros x Hx Hn Hk; unfold SPH_ROTR32, SPH_ROTR64; splits;
    try apply SPH_ROTL32_word; try apply SPH_ROTL64_word;
    rewrite ?SPH_ROTL32_testbit, ?SPH_ROTL64_testbit by (assumption || lia); f_equal; dlia.
Qed.

Lemma sph_rotations_witness : Z.testbit (SPH_ROTL64 1 63) 63 = true.
Proof.
  refine (eq_trans (proj1 (proj2 (sph_rotations 63 63) 1 _ _ _)) _);
    [split; [lia|reflexivity]|lia|lia|reflexivity].
Defined.

(** ** The buffered update *)

Section Update.
  Context {St : Type}.
  Variable lim : nat.
  Variable compress : list Z -> St -> St.

(** The update terminates without an access outside of the block buffer from every
    context with a byte free, keeps that invariant and the buffer's size, and its fuel (the
    length of the input) is enough: more gives the same result. *)
Theorem absorb_terminates (c : bctx St) (data : list Z) :
  bctx_ok lim c ->
  (exists c', absorb lim compress c data = Some c' /\ bctx_ok lim c' /\
              length (b_buf c') = length (b_buf c)) /\
  forall fuel, (length data <= fuel)%nat ->
    absorb_loop lim compress fuel c data = absorb lim compress c data.
Proof.
  intros Hc. split; [now apply absorb_total|]. intros fuel Hf.
  now rewrite absorb_loop_eq, loop_fuel.
Qed.

(** Cutting the input in two pieces at any place does not change the context: an update
    with a concatenation is the two updates in order. *)
Theorem absorb_pieces (c : bctx St) (a b : list Z) :
  bctx_ok lim c ->
  absorb lim compress c (a ++ b) =
    let* c' := absorb lim compress c a in absorb lim compress c' b.
Proof. apply absorb_app. Qed.

(** The update refines appending to a message: if the context stands for a message
    (its state is the compression of the message's full blocks in order, its buffer holds the
    rest), then after the update it stands for the message followed by the input. *)
Theorem absorb_refines_append (st0 : St) (msg : list Z) (c : bctx St) (data : list Z) :
  (forall buf st, compress buf st = compress (firstn lim buf) st) -> (0 < lim)%nat ->
  absorbed lim compress st0 msg c ->
  exists c', absorb lim compress c data = Some c' /\
             absorbed lim compress st0 (msg ++ data) c'.
Proof.
  intros Hf Hl Ha. destruct (absorb_absorbed lim compress Hf Hl st0 msg c data Ha) as (c' & E & H & _).
  eauto.
Qed.
End Update.

(** A compression function to evaluate: it lists the blocks it is given. *)
Definition log_block (n : nat) (buf : list Z) (st : list (list Z)) : list (list Z) :=
  st ++ [firstn n buf].

Lemma absorb_terminates_witness :
  exists c', absorb 4 (log_block 4) (Bctx [9; 9; 9; 9] 1 []) [1; 2; 3; 4; 5] = Some c'.
Proof.
  destruct (absorb_terminates 4 (log_block 4) (Bctx [9; 9; 9; 9] 1 []) [1; 2; 3; 4; 5]) as [(c' & E & _) _].
  - cbn. unfold bctx_ok. cbn. lia.
  - exists c'. exact E.
Defined.

Lemma absorb_pieces_witness :
  absorb 4 (log_block 4) (Bctx [9; 9; 9; 9] 1 []) ([1; 2] ++ [3; 4; 5]) =
  let* c' := absorb 4 (log_block 4) (Bctx [9; 9; 9; 9] 1 []) [1; 2] in
  absorb 4 (log_block 4) c' [3; 4; 5].
Proof. apply absorb_pieces. unfold bctx_ok. cbn. lia. Defined.

Lemma absorb_refines_append_witness :
  exists c', absorb 4 (log_block 4) (Bctx [0; 0; 0; 0] 0 []) [1; 2; 3; 4; 5] = Some c' /\
    absorbed 4 (log_block 4) [] ([] ++ [1; 2; 3; 4; 5]) c'.
Proof.
  apply absorb_refines_append.
  - intros buf st. unfold log_block. now rewrite firstn_firstn.
  - lia.
  - apply absorbed_init; cbn; lia.
Defined.
