(* ===== verification/Jh.v ===== *)
(** * jh.c: the JH hash function

    The four members of the family in every configuration of src/src/jh.c:
    64-bit ([SPH_JH_64], "wide") and 32-bit ("narrow") words, each in both
    byte orders, with the unrolled and the looping forms of the permutation
    [E8], and with a 64-bit or a two-word block counter ([SPH_64]).

    A register [x] of the code is a 128-bit row of the bit-sliced state, kept
    as its words [x##h x##l], or [x##3 x##2 x##1 x##0], most significant
    first: a [lane]. *)

From Stdlib Require Import ZArith List Lia Bool.
From S2P Require Import Prelude SphTypes Stream JhTables.
Import ListNotations.

Definition C32e (p : platform) (x : Z) : Z :=
  match order p with
  | SPH_LITTLE_ENDIAN =>
      (x >> 24) .| ((x >> 8) .& 0x0000FF00) .| ((x << 8) .& 0x00FF0000) .|
      ((x << 24) .& 0xFF000000)
  | _ => x
  end.
Definition dec32e_aligned (p : platform) (src : list Z) : Z :=
  match order p with
  | SPH_LITTLE_ENDIAN => sph_dec32le_aligned p src
  | _ => sph_dec32be_aligned p src
  end.
Definition enc32e (p : platform) (addr v : Z) : list Z :=
  match order p with
  | SPH_LITTLE_ENDIAN => sph_enc32le p addr v
  | _ => sph_enc32be p addr v
  end.

Definition C64e (p : platform) (x : Z) : Z :=
  match order p with
  | SPH_LITTLE_ENDIAN =>
      (x >> 56)
      .| ((x >> 40) .& 0x000000000000FF00) .| ((x >> 24) .& 0x0000000000FF0000)
      .| ((x >> 8) .& 0x00000000FF000000) .| ((x << 8) .& 0x000000FF00000000)
      .| ((x << 24) .& 0x0000FF0000000000) .| ((x << 40) .& 0x00FF000000000000)
      .| ((x << 56) .& 0xFF00000000000000)
  | _ => x
  end.
Definition dec64e_aligned (p : platform) (src : list Z) : Z :=
  match order p with
  | SPH_LITTLE_ENDIAN => sph_dec64le_aligned p src
  | _ => sph_dec64be_aligned p src
  end.
Definition enc64e (p : platform) (addr v : Z) : list Z :=
  match order p with
  | SPH_LITTLE_ENDIAN => sph_enc64le p addr v
  | _ => sph_enc64be p addr v
  end.

(** ** The S-box and linear layers on words *)

Definition Sb (w x0 x1 x2 x3 c : Z) : Z * Z * Z * Z :=
  let x3 := wnot w x3 in
  let x0 := x0 .^ (c .& wnot w x2) in
  let tmp := c .^ (x0 .& x1) in
  let x0 := x0 .^ (x2 .& x3) in
  let x3 := x3 .^ (wnot w x1 .& x2) in
  let x1 := x1 .^ (x0 .& x2) in
  let x2 := x2 .^ (x0 .& wnot w x3) in
  let x0 := x0 .^ (x1 .| x3) in
  let x3 := x3 .^ (x1 .& x2) in
  let x1 := x1 .^ (tmp .& x0) in
  let x2 := x2 .^ tmp in
  (x0, x1, x2, x3).

Definition Lb (x0 x1 x2 x3 x4 x5 x6 x7 : Z) : Z * Z * Z * Z * Z * Z * Z * Z :=
  let x4 := x4 .^ x1 in
  let x5 := x5 .^ x2 in
  let x6 := x6 .^ (x3 .^ x0) in
  let x7 := x7 .^ x0 in
  let x0 := x0 .^ x5 in
  let x1 := x1 .^ x6 in
  let x2 := x2 .^ (x7 .^ x4) in
  let x3 := x3 .^ x4 in
  (x0, x1, x2, x3, x4, x5, x6, x7).

(** [Wz] on one word [x]: the bit groups selected by [c] trade places with
    those [n] positions above. *)
Definition Wz_word (w x c n : Z) : Z :=
  let t := shl w (x .& c) n in
  ((x >> n) .& c) .| t.

(** ** Lanes *)

Definition lane : Type := list Z.

(** The word of a lane at index [i], most significant first. *)
Definition word_of (x : lane) (i : nat) : Z := nth i x 0.

(** The bit-sliced state: the local variables [h0] to [h7]. *)
Record regs := Regs { h0 : lane; h1 : lane; h2 : lane; h3 : lane;
                      h4 : lane; h5 : lane; h6 : lane; h7 : lane }.

(** What the code defines differently for each word size. *)
Class JhWords := {
  S_ : lane -> lane -> lane -> lane -> lane -> lane * lane * lane * lane;
  L_ : lane -> lane -> lane -> lane -> lane -> lane -> lane -> lane ->
       lane * lane * lane * lane * lane * lane * lane * lane;
  W_ : nat -> lane -> lane;
  Ceven_ : nat -> lane;
  Codd_ : nat -> lane;
  READ_STATE : list Z -> regs;
  WRITE_STATE : regs -> list Z;
  (** [m_k buf k], for k < 4: the four input rows, read from the block. *)
  input_row : list Z -> nat -> lane;
  IV224 : list Z;
  IV256 : list Z;
  IV384 : list Z;
  IV512 : list Z;
  (** The last loop of [jh_close]: encodes the second half of the state at
      the start of the buffer, whose address is the first argument. *)
  encode_state : Z -> list Z -> list Z -> option (list Z)
}.

(** ** 64-bit words *)

Module Wide.
Section Wide.
  Variable p : platform.

Definition hi (x : lane) : Z := word_of x 0.
Definition lo (x : lane) : Z := word_of x 1.

Definition C : list Z := map (C64e p) C_wide.
Definition Ceven (r : nat) : lane := [nth (4 * r + 0) C 0; nth (4 * r + 1) C 0].
Definition Codd (r : nat) : lane := [nth (4 * r + 2) C 0; nth (4 * r + 3) C 0].

Definition S (x0 x1 x2 x3 cb : lane) : lane * lane * lane * lane :=
  let '(x0h, x1h, x2h, x3h) := Sb 64 (hi x0) (hi x1) (hi x2) (hi x3) (hi cb) in
  let '(x0l, x1l, x2l, x3l) := Sb 64 (lo x0) (lo x1) (lo x2) (lo x3) (lo cb) in
  ([x0h; x0l], [x1h; x1l], [x2h; x2l], [x3h; x3l]).

Definition L (x0 x1 x2 x3 x4 x5 x6 x7 : lane) :
    lane * lane * lane * lane * lane * lane * lane * lane :=
  let '(x0h, x1h, x2h, x3h, x4h, x5h, x6h, x7h) :=
    Lb (hi x0) (hi x1) (hi x2) (hi x3) (hi x4) (hi x5) (hi x6) (hi x7) in
  let '(x0l, x1l, x2l, x3l, x4l, x5l, x6l, x7l) :=
    Lb (lo x0) (lo x1) (lo x2) (lo x3) (lo x4) (lo x5) (lo x6) (lo x7) in
  ([x0h; x0l], [x1h; x1l], [x2h; x2l], [x3h; x3l],
   [x4h; x4l], [x5h; x5l], [x6h; x6l], [x7h; x7l]).

Definition Wz (x : lane) (c n : Z) : lane := [Wz_word 64 (hi x) c n; Wz_word 64 (lo x) c n].

Definition W (ro : nat) (x : lane) : lane :=
  match ro with
  | 0%nat => Wz x 0x5555555555555555 1
  | 1%nat => Wz x 0x3333333333333333 2
  | 2%nat => Wz x 0x0F0F0F0F0F0F0F0F 4
  | 3%nat => Wz x 0x00FF00FF00FF00FF 8
  | 4%nat => Wz x 0x0000FFFF0000FFFF 16
  | 5%nat => Wz x 0x00000000FFFFFFFF 32
  | _ => [lo x; hi x]
  end.

Definition READ_STATE (wide : list Z) : regs :=
  let h k := [nth (2 * k) wide 0; nth (2 * k + 1) wide 0] in
  Regs (h 0%nat) (h 1%nat) (h 2%nat) (h 3%nat) (h 4%nat) (h 5%nat) (h 6%nat) (h 7%nat).

Definition WRITE_STATE (s : regs) : list Z :=
  [hi (h0 s); lo (h0 s); hi (h1 s); lo (h1 s); hi (h2 s); lo (h2 s); hi (h3 s); lo (h3 s);
   hi (h4 s); lo (h4 s); hi (h5 s); lo (h5 s); hi (h6 s); lo (h6 s); hi (h7 s); lo (h7 s)].

(** The [m##k##h] and [m##k##l] of [INPUT_BUF1]. *)
Definition input_row (buf : list Z) (k : nat) : lane :=
  [dec64e_aligned p (slice buf (16 * k) 8); dec64e_aligned p (slice buf (16 * k + 8) 8)].

Definition encode_state (addr : Z) (H buf : list Z) : option (list Z) :=
  fold_left (fun buf u =>
      let* b := buf in
      memcpy_at b (8 * u) (enc64e p (addr + Z.of_nat (8 * u)) (nth (u + 8) H 0)))
    (seq 0 8) (Some buf).

Definition words : JhWords := {|
  S_ := S; L_ := L; W_ := W; Ceven_ := Ceven; Codd_ := Codd;
  Jh.READ_STATE := READ_STATE; Jh.WRITE_STATE := WRITE_STATE; Jh.input_row := input_row;
  IV224 := map (C64e p) IV224_wide; IV256 := map (C64e p) IV256_wide;
  IV384 := map (C64e p) IV384_wide; IV512 := map (C64e p) IV512_wide;
  Jh.encode_state := encode_state
|}.
End Wide.
End Wide.

(** ** 32-bit words *)

Module Narrow.
Section Narrow.
  Variable p : platform.

(** [x##3] to [x##0]: the words of a lane, most significant first. *)
Definition w3 (x : lane) : Z := word_of x 0.
Definition w2 (x : lane) : Z := word_of x 1.
Definition w1 (x : lane) : Z := word_of x 2.
Definition w0 (x : lane) : Z := word_of x 3.

Definition C : list Z := map (C32e p) C_narrow.
Definition Ceven (r : nat) : lane :=
  [nth (8 * r + 0) C 0; nth (8 * r + 1) C 0; nth (8 * r + 2) C 0; nth (8 * r + 3) C 0].
Definition Codd (r : nat) : lane :=
  [nth (8 * r + 4) C 0; nth (8 * r + 5) C 0; nth (8 * r + 6) C 0; nth (8 * r + 7) C 0].

Definition S (x0 x1 x2 x3 cb : lane) : lane * lane * lane * lane :=
  let '(x03, x13, x23, x33) := Sb 32 (w3 x0) (w3 x1) (w3 x2) (w3 x3) (w3 cb) in
  let '(x02, x12, x22, x32) := Sb 32 (w2 x0) (w2 x1) (w2 x2) (w2 x3) (w2 cb) in
  let '(x01, x11, x21, x31) := Sb 32 (w1 x0) (w1 x1) (w1 x2) (w1 x3) (w1 cb) in
  let '(x00, x10, x20, x30) := Sb 32 (w0 x0) (w0 x1) (w0 x2) (w0 x3) (w0 cb) in
  ([x03; x02; x01; x00], [x13; x12; x11; x10], [x23; x22; x21; x20], [x33; x32; x31; x30]).

Definition L (x0 x1 x2 x3 x4 x5 x6 x7 : lane) :
    lane * lane * lane * lane * lane * lane * lane * lane :=
  let '(x03, x13, x23, x33, x43, x53, x63, x73) :=
    Lb (w3 x0) (w3 x1) (w3 x2) (w3 x3) (w3 x4) (w3 x5) (w3 x6) (w3 x7) in
  let '(x02, x12, x22, x32, x42, x52, x62, x72) :=
    Lb (w2 x0) (w2 x1) (w2 x2) (w2 x3) (w2 x4) (w2 x5) (w2 x6) (w2 x7) in
  let '(x01, x11, x21, x31, x41, x51, x61, x71) :=
    Lb (w1 x0) (w1 x1) (w1 x2) (w1 x3) (w1 x4) (w1 x5) (w1 x6) (w1 x7) in
  let '(x00, x10, x20, x30, x40, x50, x60, x70) :=
    Lb (w0 x0) (w0 x1) (w0 x2) (w0 x3) (w0 x4) (w0 x5) (w0 x6) (w0 x7) in
  ([x03; x02; x01; x00], [x13; x12; x11; x10], [x23; x22; x21; x20], [x33; x32; x31; x30],
   [x43; x42; x41; x40], [x53; x52; x51; x50], [x63; x62; x61; x60], [x73; x72; x71; x70]).

Definition Wz (x : lane) (c n : Z) : lane :=
  [Wz_word 32 (w3 x) c n; Wz_word 32 (w2 x) c n; Wz_word 32 (w1 x) c n; Wz_word 32 (w0 x) c n].

Definition W (ro : nat) (x : lane) : lane :=
  match ro with
  | 0%nat => Wz x 0x55555555 1
  | 1%nat => Wz x 0x33333333 2
  | 2%nat => Wz x 0x0F0F0F0F 4
  | 3%nat => Wz x 0x00FF00FF 8
  | 4%nat => Wz x 0x0000FFFF 16
  | 5%nat => [w2 x; w3 x; w0 x; w1 x]
  | _ => [w1 x; w0 x; w3 x; w2 x]
  end.

Definition READ_STATE (narrow : list Z) : regs :=
  let h k := [nth (4 * k) narrow 0; nth (4 * k + 1) narrow 0;
              nth (4 * k + 2) narrow 0; nth (4 * k + 3) narrow 0] in
  Regs (h 0%nat) (h 1%nat) (h 2%nat) (h 3%nat) (h 4%nat) (h 5%nat) (h 6%nat) (h 7%nat).

Definition WRITE_STATE (s : regs) : list Z :=
  let ws x := [w3 x; w2 x; w1 x; w0 x] in
  ws (h0 s) ++ ws (h1 s) ++ ws (h2 s) ++ ws (h3 s) ++
  ws (h4 s) ++ ws (h5 s) ++ ws (h6 s) ++ ws (h7 s).

Definition input_row (buf : list Z) (k : nat) : lane :=
  [dec32e_aligned p (slice buf (16 * k) 4); dec32e_aligned p (slice buf (16 * k + 4) 4);
   dec32e_aligned p (slice buf (16 * k + 8) 4); dec32e_aligned p (slice buf (16 * k + 12) 4)].

Definition encode_state (addr : Z) (H buf : list Z) : option (list Z) :=
  fold_left (fun buf u =>
      let* b := buf in
      memcpy_at b (4 * u) (enc32e p (addr + Z.of_nat (4 * u)) (nth (u + 16) H 0)))
    (seq 0 16) (Some buf).

Definition words : JhWords := {|
  S_ := S; L_ := L; W_ := W; Ceven_ := Ceven; Codd_ := Codd;
  Jh.READ_STATE := READ_STATE; Jh.WRITE_STATE := WRITE_STATE; Jh.input_row := input_row;
  IV224 := map (C32e p) IV224_narrow; IV256 := map (C32e p) IV256_narrow;
  IV384 := map (C32e p) IV384_narrow; IV512 := map (C32e p) IV512_narrow;
  Jh.encode_state := encode_state
|}.
End Narrow.
End Narrow.

(** ** The block counter

    One 64-bit word with [SPH_64], otherwise two 32-bit words. *)

Record counter := Counter { block_count_high : Z; block_count_low : Z }.

Class JhCount (cnt : Type) := {
  count_zero : cnt;
  count_incr : cnt -> cnt;
  (** The 16-byte bit length [jh_close] stores at address [addr], for [ptr]
      buffered bytes and [n] extra bits. *)
  count_length : Z -> cnt -> nat -> Z -> list Z
}.

Section Counters.
  Variable p : platform.

Definition count64_incr (block_count : Z) : Z := SPH_T64 (block_count + 1).
Definition count64_length (addr block_count : Z) (ptr : nat) (n : Z) : list Z :=
  let l0 := SPH_T64 (SPH_T64 (block_count << 9) + (Z.of_nat ptr << 3) + n) in
  let l1 := SPH_T64 (block_count >> 55) in
  sph_enc64be p addr l1 ++ sph_enc64be p (addr + 8) l0.

Definition count64 : JhCount Z :=
  {| count_zero := 0; count_incr := count64_incr; count_length := count64_length |}.

Definition count32_incr (c : counter) : counter :=
  let low := SPH_T32 (block_count_low c + 1) in
  if low =? 0
  then Counter (SPH_T32 (block_count_high c + 1)) low
  else Counter (block_count_high c) low.
Definition count32_length (addr : Z) (c : counter) (ptr : nat) (n : Z) : list Z :=
  let l0 := SPH_T32 (SPH_T32 (block_count_low c << 9) + (Z.of_nat ptr << 3) + n) in
  let l1 := SPH_T32 (SPH_T32 (block_count_low c >> 23) + SPH_T32 (block_count_high c << 9)) in
  let l2 := SPH_T32 (block_count_high c >> 23) in
  let l3 := 0 in
  sph_enc32be p addr l3 ++ sph_enc32be p (addr + 4) l2 ++
  sph_enc32be p (addr + 8) l1 ++ sph_enc32be p (addr + 12) l0.

Definition count32 : JhCount counter :=
  {| count_zero := Counter 0 0; count_incr := count32_incr; count_length := count32_length |}.
End Counters.

(** ** The permutation and the mode of operation *)

Section JH.
  Context {words : JhWords} {cnt : Type} {count : JhCount cnt}.

Definition SLu (r ro : nat) (s : regs) : regs :=
  let '(a0, a2, a4, a6) := S_ (h0 s) (h2 s) (h4 s) (h6 s) (Ceven_ r) in
  let '(a1, a3, a5, a7) := S_ (h1 s) (h3 s) (h5 s) (h7 s) (Codd_ r) in
  let '(a0, a2, a4, a6, a1, a3, a5, a7) := L_ a0 a2 a4 a6 a1 a3 a5 a7 in
  Regs a0 (W_ ro a1) a2 (W_ ro a3) a4 (W_ ro a5) a6 (W_ ro a7).

(** [SL (ro)], inside a loop on [r]. *)
Definition SL (r ro : nat) (s : regs) : regs := SLu (r + ro) ro s.

(** The unrolled form. *)
Definition E8_unrolled (s : regs) : regs :=
  fold_left (fun s '(r, ro) => SLu r ro s)
    [(0, 0); (1, 1); (2, 2); (3, 3); (4, 4); (5, 5); (6, 6);
     (7, 0); (8, 1); (9, 2); (10, 3); (11, 4); (12, 5); (13, 6);
     (14, 0); (15, 1); (16, 2); (17, 3); (18, 4); (19, 5); (20, 6);
     (21, 0); (22, 1); (23, 2); (24, 3); (25, 4); (26, 5); (27, 6);
     (28, 0); (29, 1); (30, 2); (31, 3); (32, 4); (33, 5); (34, 6);
     (35, 0); (36, 1); (37, 2); (38, 3); (39, 4); (40, 5); (41, 6)]%nat s.

(** [for (r = 0; r < 42; r += 7) { SL(0); ...; SL(6); }] *)
Definition E8_loop (s : regs) : regs :=
  fold_left (fun s r =>
      let s := SL r 0 s in
      let s := SL r 1 s in
      let s := SL r 2 s in
      let s := SL r 3 s in
      let s := SL r 4 s in
      let s := SL r 5 s in
      SL r 6 s)
    [0; 7; 14; 21; 28; 35]%nat s.

(** [for (r = g = 0; r < 42; r ++)] with a [switch (g)] and
    [if (++ g == 7) g = 0]: the body of the loop, and the loop. *)
Definition switch_body (st : regs * nat) (r : nat) : regs * nat :=
  let '(s, g) := st in
  let '(a0, a2, a4, a6) := S_ (h0 s) (h2 s) (h4 s) (h6 s) (Ceven_ r) in
  let '(a1, a3, a5, a7) := S_ (h1 s) (h3 s) (h5 s) (h7 s) (Codd_ r) in
  let '(a0, a2, a4, a6, a1, a3, a5, a7) := L_ a0 a2 a4 a6 a1 a3 a5 a7 in
  let s :=
    match g with
    | 0%nat => Regs a0 (W_ 0 a1) a2 (W_ 0 a3) a4 (W_ 0 a5) a6 (W_ 0 a7)
    | 1%nat => Regs a0 (W_ 1 a1) a2 (W_ 1 a3) a4 (W_ 1 a5) a6 (W_ 1 a7)
    | 2%nat => Regs a0 (W_ 2 a1) a2 (W_ 2 a3) a4 (W_ 2 a5) a6 (W_ 2 a7)
    | 3%nat => Regs a0 (W_ 3 a1) a2 (W_ 3 a3) a4 (W_ 3 a5) a6 (W_ 3 a7)
    | 4%nat => Regs a0 (W_ 4 a1) a2 (W_ 4 a3) a4 (W_ 4 a5) a6 (W_ 4 a7)
    | 5%nat => Regs a0 (W_ 5 a1) a2 (W_ 5 a3) a4 (W_ 5 a5) a6 (W_ 5 a7)
    | 6%nat => Regs a0 (W_ 6 a1) a2 (W_ 6 a3) a4 (W_ 6 a5) a6 (W_ 6 a7)
    | _ => Regs a0 a1 a2 a3 a4 a5 a6 a7
    end in
  (s, if (g + 1 =? 7)%nat then 0%nat else (g + 1)%nat).

Definition E8_switch (s : regs) : regs := fst (fold_left switch_body (seq 0 42) (s, 0%nat)).

(** Which of them is compiled. *)
Inductive footprint := Unrolled | Loop | Switch.
  Variable fp : footprint.

Definition E8 (s : regs) : regs :=
  match fp with
  | Unrolled => E8_unrolled s
  | Loop => E8_loop s
  | Switch => E8_switch s
  end.

Definition xor_lane (x m : lane) : lane := map (fun '(a, b) => a .^ b) (combine x m).

Definition INPUT_BUF1 (buf : list Z) (s : regs) : regs :=
  Regs (xor_lane (h0 s) (input_row buf 0)) (xor_lane (h1 s) (input_row buf 1))
       (xor_lane (h2 s) (input_row buf 2)) (xor_lane (h3 s) (input_row buf 3))
       (h4 s) (h5 s) (h6 s) (h7 s).

Definition INPUT_BUF2 (buf : list Z) (s : regs) : regs :=
  Regs (h0 s) (h1 s) (h2 s) (h3 s)
       (xor_lane (h4 s) (input_row buf 0)) (xor_lane (h5 s) (input_row buf 1))
       (xor_lane (h6 s) (input_row buf 2)) (xor_lane (h7 s) (input_row buf 3)).

(** [sph_jh_context] *)
Record jh_context := JhContext {
  buf : list Z;
  ptr : nat;
  H : list Z;
  block_count : cnt
}.

Definition jh_init (sc : jh_context) (iv : list Z) : jh_context :=
  {| buf := buf sc; ptr := 0; H := iv; block_count := count_zero |}.

(** What the loop does with a full buffer. *)
Definition jh_block (buf : list Z) (st : regs * cnt) : regs * cnt :=
  let '(s, c) := st in
  (INPUT_BUF2 buf (E8 (INPUT_BUF1 buf s)), count_incr c).

Definition jh_core (sc : jh_context) (data : list Z) : option jh_context :=
  if (length data <? 64 - ptr sc)%nat
  then
    let* b := memcpy_at (buf sc) (ptr sc) data in
    Some {| buf := b; ptr := ptr sc + length data; H := H sc; block_count := block_count sc |}
  else
    let* c := absorb_loop 64 jh_block (length data)
                (Bctx (buf sc) (ptr sc) (READ_STATE (H sc), block_count sc)) data in
    Some {| buf := b_buf c; ptr := b_ptr c; H := WRITE_STATE (fst (b_st c));
            block_count := snd (b_st c) |}.

(** [jh_close]: [stack] is the content of the uninitialised local buffer,
    [addr] its address.  The digest, and the context ready for a new hash. *)
Definition jh_close (stack : list Z) (addr : Z) (sc : jh_context) (ub n : Z)
    (out_size_w32 : nat) (iv : list Z) : option (list Z * jh_context) :=
  let z := 0x80 >> n in
  let* b := memcpy_at stack 0 [((ub .& trunc 32 (- z)) .| z) .& 0xFF] in
  let numz := if ((ptr sc =? 0)%nat && (n =? 0))%bool then 47%nat else (111 - ptr sc)%nat in
  let* b := memset_at b 1 0 numz in
  let* b := memcpy_at b (numz + 1)
              (count_length (addr + Z.of_nat (numz + 1)) (block_count sc) (ptr sc) n) in
  let* sc := jh_core sc (firstn (numz + 17) b) in
  let* b := encode_state addr (H sc) b in
  Some (slice b (4 * (16 - out_size_w32)) (4 * out_size_w32), jh_init sc iv).

(** ** The interface of sph_jh.h *)

Definition sph_jh224_init (cc : jh_context) : jh_context := jh_init cc IV224.
Definition sph_jh224 (cc : jh_context) (data : list Z) : option jh_context := jh_core cc data.
Definition sph_jh224_close stack addr (cc : jh_context) := jh_close stack addr cc 0 0 7 IV224.
Definition sph_jh224_addbits_and_close stack addr (cc : jh_context) (ub n : Z) :=
  jh_close stack addr cc ub n 7 IV224.

Definition sph_jh256_init (cc : jh_context) : jh_context := jh_init cc IV256.
Definition sph_jh256 (cc : jh_context) (data : list Z) : option jh_context := jh_core cc data.
Definition sph_jh256_close stack addr (cc : jh_context) := jh_close stack addr cc 0 0 8 IV256.
Definition sph_jh256_addbits_and_close stack addr (cc : jh_context) (ub n : Z) :=
  jh_close stack addr cc ub n 8 IV256.

Definition sph_jh384_init (cc : jh_context) : jh_context := jh_init cc IV384.
Definition sph_jh384 (cc : jh_context) (data : list Z) : option jh_context := jh_core cc data.
Definition sph_jh384_close stack addr (cc : jh_context) := jh_close stack addr cc 0 0 12 IV384.
Definition sph_jh384_addbits_and_close stack addr (cc : jh_context) (ub n : Z) :=
  jh_close stack addr cc ub n 12 IV384.

Definition sph_jh512_init (cc : jh_context) : jh_context := jh_init cc IV512.
Definition sph_jh512 (cc : jh_context) (data : list Z) : option jh_context := jh_core cc data.
Definition sph_jh512_close stack addr (cc : jh_context) := jh_close stack addr cc 0 0 16 IV512.
Definition sph_jh512_addbits_and_close stack addr (cc : jh_context) (ub n : Z) :=
  jh_close stack addr cc ub n 16 IV512.
End JH.
