(* ===== verification/JhSpec.v ===== *)
(** * The specification of JH

    The hash function JH (H. Wu, round 3 of the SHA-3 competition), as its
    document defines it: on strings of bits, with the state of the permutation
    E8 grouped in 256 four-bit elements, the two S-boxes as tables, the MDS
    code over GF(16), the permutation P8 in its three steps, and the round
    constants generated by the 6-dimensional round function from the square
    root of 2.  Nothing here is taken from src/: [JhProof] shows that the
    bit-sliced code computes this function. *)

From Stdlib Require Import ZArith List Lia Bool.
From S2P Require Import Prelude BitStrings.
Import ListNotations.

Module JHSpec.

(** Bits of a byte string, most significant bit of each byte first. *)
Abbreviation bits_of_bytes := (bits_of msb_first).

Definition b2z (b : bool) : Z := if b then 1 else 0.
Definition nibble (b3 b2 b1 b0 : bool) : Z := 8 * b2z b3 + 4 * b2z b2 + 2 * b2z b1 + b2z b0.

(** The S-boxes S0 and S1. *)
Definition S0 : list Z := [9; 0; 4; 11; 13; 12; 3; 15; 1; 10; 2; 6; 7; 5; 8; 14].
Definition S1 : list Z := [3; 12; 6; 13; 5; 7; 1; 9; 15; 2; 0; 4; 11; 10; 14; 8].
Definition sbox (c : bool) (x : Z) : Z := nth (Z.to_nat x) (if c then S1 else S0) 0.

(** Multiplication by 2 in GF(16) = GF(2)[x] / (x^4 + x + 1), and the linear
    transformation L (A, B) = (C, D) with D = B + 2 A and C = A + 2 D. *)
Definition mul2 (a : Z) : Z :=
  let b := Z.shiftl a 1 in if Z.testbit b 4 then Z.lxor b 0x13 else b.
Definition L_snd (a b : Z) : Z := Z.lxor b (mul2 a).
Definition L_fst (a b : Z) : Z := Z.lxor a (mul2 (L_snd a b)).

(** The permutation of [n] elements, as the index each element comes from:
    pi swaps the last two elements of each group of four, P' gathers the even
    and then the odd elements, phi swaps neighbours in the second half. *)
Definition pi_from (i : nat) : nat :=
  match (i mod 4)%nat with 2%nat => (i + 1)%nat | 3%nat => (i - 1)%nat | _ => i end.
Definition P'_from (n i : nat) : nat :=
  (if i <? n / 2 then 2 * i else 2 * (i - n / 2) + 1)%nat.
Definition phi_from (n i : nat) : nat :=
  (if i <? n / 2 then i else if Nat.even i then i + 1 else i - 1)%nat.
Definition P_from (n i : nat) : nat := pi_from (P'_from n (phi_from n i)).

(** The round function on [n] elements, for one constant bit per element. *)
Definition sub_layer (n : nat) (c : nat -> bool) (A : list Z) : list Z :=
  map (fun i => sbox (c i) (nth i A 0)) (seq 0 n).
Definition mds_layer (n : nat) (A : list Z) : list Z :=
  map (fun i => if Nat.even i then L_fst (nth i A 0) (nth (i + 1) A 0)
                else L_snd (nth (i - 1) A 0) (nth i A 0)) (seq 0 n).
Definition perm_layer (n : nat) (A : list Z) : list Z :=
  map (fun i => nth (P_from n i) A 0) (seq 0 n).
Definition round (n : nat) (c : nat -> bool) (A : list Z) : list Z :=
  perm_layer n (mds_layer n (sub_layer n c A)).

(** Round constants: 64 elements, the first 256 bits of the fraction of the
    square root of 2, then iterations of the 64-element round function with
    constant bits 0. *)
Definition constant_0 : list Z :=
  let r := Z.sqrt (2 * 2 ^ 512) - 2 ^ 256 in
  map (fun i => Z.land (Z.shiftr r (4 * (63 - Z.of_nat i))) 15) (seq 0 64).
Definition next_constant (rc : list Z) : list Z := round 64 (fun _ => false) rc.
Definition constant (r : nat) : list Z := Nat.iter r next_constant constant_0.

(** Bit [i] of a round constant: four bits per element. *)
Definition constant_bit (rc : list Z) (i : nat) : bool :=
  Z.testbit (nth (i / 4) rc 0) (3 - Z.of_nat (i mod 4)).

(** Grouping 1024 bits in 256 elements, and back. *)
Definition group_index (i : nat) : nat := (if Nat.even i then i / 2 else i / 2 + 128)%nat.
Definition ungroup_index (k : nat) : nat := (if k <? 128 then 2 * k else 2 * (k - 128) + 1)%nat.
Definition group (H : list bool) : list Z :=
  map (fun i => let k := group_index i in
                nibble (nth k H false) (nth (k + 256) H false)
                       (nth (k + 512) H false) (nth (k + 768) H false)) (seq 0 256).
Definition degroup (A : list Z) : list bool :=
  map (fun i => Z.testbit (nth (ungroup_index (i mod 256)) A 0) (3 - Z.of_nat (i / 256)))
      (seq 0 1024).

(** 42 rounds; the constants are carried along. *)
Definition step (st : list Z * list Z) : list Z * list Z :=
  let '(A, rc) := st in (round 256 (constant_bit rc) A, next_constant rc).
Definition E8 (H : list bool) : list bool :=
  degroup (fst (Nat.iter 42 step (group H, constant_0))).

(** The compression function F8, on a 512-bit block. *)
Definition xor_first (H M : list bool) : list bool :=
  map (fun i => if (i <? 512)%nat then xorb (nth i H false) (nth i M false)
                else nth i H false) (seq 0 1024).
Definition xor_last (H M : list bool) : list bool :=
  map (fun i => if (i <? 512)%nat then nth i H false
                else xorb (nth i H false) (nth (i - 512) M false)) (seq 0 1024).
Definition F8 (H M : list bool) : list bool := xor_last (E8 (xor_first H M)) M.

(** Bits of a number, most significant first. *)
Definition bits_of_Z (n : nat) (v : Z) : list bool :=
  map (fun i => Z.testbit v (Z.of_nat (n - 1 - i))) (seq 0 n).

(** Padding: a bit 1, then 383 + (-l mod 512) bits 0, then the 128-bit
    message length l. *)
Definition pad (m : list bool) : list bool :=
  m ++ [true] ++ repeat false (383 + (512 - length m mod 512) mod 512)
    ++ bits_of_Z 128 (Z.of_nat (length m)).

(** The initial value for a digest of [d] bits: F8 of the state that starts
    with [d] as a 16-bit number, with a zero block. *)
Definition IV (d : Z) : list bool :=
  F8 (bits_of_Z 16 d ++ repeat false 1008) (repeat false 512).

Definition compress_all (H : list bool) (blocks : list (list bool)) : list bool :=
  fold_left F8 blocks H.

(** The digest of [d] bits of the bit string [m]. *)
Definition hash (d : nat) (m : list bool) : list bool :=
  skipn (1024 - d) (compress_all (IV (Z.of_nat d)) (chunks 512 (pad m))).

End JHSpec.
