(* ===== verification/JhProof.v ===== *)
(** * The JH code computes JH

    The 128-bit rows of the bit-sliced code and the 256 four-bit elements of
    the specification are related round by round: element [i] before round
    [r] is the column of bits at a slot that depends on [r] with period 7.
    Everything is proved against the interface [JhLaws], what a word
    representation owes to the rest of jh.c; [JhWords] discharges it for
    64-bit and for 32-bit words. *)

From Stdlib Require Import ZArith List Lia Bool.
From S2P Require Import Prelude BitStrings SphTypes Stream JhTables Jh JhSpec.
Import ListNotations.

(** ** The boolean form of the layers *)

Definition sb_bits (c x0 x1 x2 x3 : bool) : bool * bool * bool * bool :=
  let x3 := negb x3 in
  let x0 := xorb x0 (c && negb x2) in
  let tmp := xorb c (x0 && x1) in
  let x0 := xorb x0 (x2 && x3) in
  let x3 := xorb x3 (negb x1 && x2) in
  let x1 := xorb x1 (x0 && x2) in
  let x2 := xorb x2 (x0 && negb x3) in
  let x0 := xorb x0 (x1 || x3) in
  let x3 := xorb x3 (x1 && x2) in
  let x1 := xorb x1 (tmp && x0) in
  let x2 := xorb x2 tmp in
  (x0, x1, x2, x3).

Definition nib4 (x : bool * bool * bool * bool) : Z :=
  let '(a, b, c, d) := x in JHSpec.nibble a b c d.

(** The S-box layer of the code is the pair of tables. *)
Lemma sb_bits_sbox c x0 x1 x2 x3 :
  nib4 (sb_bits c x0 x1 x2 x3) = JHSpec.sbox c (JHSpec.nibble x0 x1 x2 x3).
Proof. destruct c, x0, x1, x2, x3; reflexivity. Qed.

Definition lb_bits (x0 x1 x2 x3 x4 x5 x6 x7 : bool) :=
  let x4 := xorb x4 x1 in
  let x5 := xorb x5 x2 in
  let x6 := xorb x6 (xorb x3 x0) in
  let x7 := xorb x7 x0 in
  let x0 := xorb x0 x5 in
  let x1 := xorb x1 x6 in
  let x2 := xorb x2 (xorb x7 x4) in
  let x3 := xorb x3 x4 in
  (x0, x1, x2, x3, x4, x5, x6, x7).

(** The linear layer of the code is the MDS code. *)
Lemma lb_bits_mds x0 x1 x2 x3 x4 x5 x6 x7 :
  let '(y0, y1, y2, y3, y4, y5, y6, y7) := lb_bits x0 x1 x2 x3 x4 x5 x6 x7 in
  let a := JHSpec.nibble x0 x1 x2 x3 in
  let b := JHSpec.nibble x4 x5 x6 x7 in
  JHSpec.nibble y0 y1 y2 y3 = JHSpec.L_fst a b /\ JHSpec.nibble y4 y5 y6 y7 = JHSpec.L_snd a b.
Proof. destruct x0, x1, x2, x3, x4, x5, x6, x7; split; reflexivity. Qed.

(** The words compute those functions at each bit position. *)
Lemma Sb_testbit w x0 x1 x2 x3 c n :
  0 <= n < w ->
  let '(y0, y1, y2, y3) := Sb w x0 x1 x2 x3 c in
  sb_bits (Z.testbit c n) (Z.testbit x0 n) (Z.testbit x1 n) (Z.testbit x2 n) (Z.testbit x3 n) =
  (Z.testbit y0 n, Z.testbit y1 n, Z.testbit y2 n, Z.testbit y3 n).
Proof.
  intros Hn. unfold Sb, sb_bits. cbv zeta. autorewrite with zbits. decide_cmp.
  destruct (Z.testbit c n), (Z.testbit x0 n), (Z.testbit x1 n), (Z.testbit x2 n),
    (Z.testbit x3 n); reflexivity.
Qed.

Lemma Sb_word w x0 x1 x2 x3 c :
  0 <= w -> word w x0 -> word w x1 -> word w x2 -> word w x3 -> word w c ->
  let '(y0, y1, y2, y3) := Sb w x0 x1 x2 x3 c in
  word w y0 /\ word w y1 /\ word w y2 /\ word w y3.
Proof. intros. unfold Sb. cbv zeta. splits; auto 20 with words. Qed.

Lemma Lb_testbit x0 x1 x2 x3 x4 x5 x6 x7 n :
  let '(y0, y1, y2, y3, y4, y5, y6, y7) := Lb x0 x1 x2 x3 x4 x5 x6 x7 in
  lb_bits (Z.testbit x0 n) (Z.testbit x1 n) (Z.testbit x2 n) (Z.testbit x3 n)
          (Z.testbit x4 n) (Z.testbit x5 n) (Z.testbit x6 n) (Z.testbit x7 n) =
  (Z.testbit y0 n, Z.testbit y1 n, Z.testbit y2 n, Z.testbit y3 n,
   Z.testbit y4 n, Z.testbit y5 n, Z.testbit y6 n, Z.testbit y7 n).
Proof. unfold Lb, lb_bits. cbv zeta. now autorewrite with zbits. Qed.

Lemma Lb_word w x0 x1 x2 x3 x4 x5 x6 x7 :
  0 <= w -> word w x0 -> word w x1 -> word w x2 -> word w x3 ->
  word w x4 -> word w x5 -> word w x6 -> word w x7 ->
  let '(y0, y1, y2, y3, y4, y5, y6, y7) := Lb x0 x1 x2 x3 x4 x5 x6 x7 in
  (word w y0 /\ word w y1 /\ word w y2 /\ word w y3) /\
  (word w y4 /\ word w y5 /\ word w y6 /\ word w y7).
Proof. intros. unfold Lb. cbv zeta. splits; auto 20 with words. Qed.

(** ** Slots

    Where element [i] of the specification's state is before round [r]: in the
    even ([false]) or odd ([true]) rows, and at which bit. *)

Definition slot0 (i : nat) : bool * nat := (Nat.odd i, (i / 2)%nat).

(** The permutation of the 256 elements, tabulated once. *)
Definition P_indices : list nat := Eval vm_compute in map (JHSpec.P_from 256) (seq 0 256).

Lemma P_indices_ok : P_indices = map (JHSpec.P_from 256) (seq 0 256).
Proof. vm_compute. reflexivity. Qed.

Definition next_slots (ro : nat) (sl : list (bool * nat)) : list (bool * nat) :=
  map (fun i => let '(o, q) := nth i sl (false, 0%nat) in
                (o, if (o : bool) then Nat.lxor q (2 ^ ro) else q)) P_indices.

Fixpoint slots (r : nat) : list (bool * nat) :=
  match r with
  | O => map slot0 (seq 0 256)
  | S r' => next_slots (r' mod 7) (slots r')
  end.

Definition slot (r i : nat) : bool * nat := nth i (slots r) (false, 0%nat).

(** Neighbouring elements share a bit position, the first in the even rows and
    the second in the odd rows. *)
Definition slots_paired (sl : list (bool * nat)) : bool :=
  forallb (fun j =>
    let '(o, q) := nth (2 * j) sl (true, 0%nat) in
    let '(o', q') := nth (2 * j + 1) sl (false, 0%nat) in
    negb o && o' && (q =? q')%nat && (q <? 128)%nat) (seq 0 128).

(** All the slot tables up to [r], checked along the way. *)
Fixpoint slots_check (n r : nat) (sl : list (bool * nat)) : bool :=
  match n with
  | O => true
  | S n' => slots_paired sl && slots_check n' (S r) (next_slots (r mod 7) sl)
  end.

Lemma slots_check_ok n r :
  slots_check n r (slots r) = true -> forall k, (k < n)%nat -> slots_paired (slots (r + k)) = true.
Proof.
  revert r. induction n as [|n IH]; intros r H k Hk; [lia|].
  cbn [slots_check] in H. apply andb_true_iff in H as [H1 H2].
  destruct k as [|k]; [now rewrite Nat.add_0_r|].
  rewrite <- Nat.add_succ_comm. apply IH; [exact H2|lia].
Qed.

Lemma slots_paired_all r : (r < 42)%nat -> slots_paired (slots r) = true.
Proof. intros H. apply (slots_check_ok 42 0); [vm_compute; reflexivity|assumption]. Qed.

Lemma slots_42 : slots 42 = slots 0.
Proof. vm_compute. reflexivity. Qed.

Lemma slot_pair r j :
  (r < 42)%nat -> (j < 128)%nat ->
  exists q, (q < 128)%nat /\ slot r (2 * j) = (false, q) /\ slot r (2 * j + 1) = (true, q).
Proof.
  intros Hr Hj. pose proof (forallb_seq _ _ (slots_paired_all r Hr) j Hj) as H. cbv beta in H.
  assert (Hl : length (slots r) = 256%nat)
    by (destruct r; [reflexivity|]; cbn [slots]; unfold next_slots; now rewrite length_map).
  unfold slot. rewrite (nth_indep _ (false, 0%nat) (true, 0%nat)) by lia.
  destruct (nth (2 * j) (slots r) (true, 0%nat)) as [o q].
  destruct (nth (2 * j + 1) (slots r) (false, 0%nat)) as [o' q'].
  rewrite !andb_true_iff, negb_true_iff, Nat.eqb_eq, Nat.ltb_lt in H.
  destruct H as (((-> & ->) & ->) & H). eauto.
Qed.

Lemma slot_succ r i :
  (i < 256)%nat ->
  slot (S r) i = let '(o, q) := slot r (JHSpec.P_from 256 i) in
                 (o, if (o : bool) then Nat.lxor q (2 ^ (r mod 7)) else q).
Proof.
  intros. unfold slot. cbn [slots]. unfold next_slots. now rewrite P_indices_ok, map_map, nth_map_seq.
Qed.

Lemma slot_0 i : (i < 256)%nat -> slot 0 i = slot0 i.
Proof. intros. unfold slot. cbn [slots]. now rewrite nth_map_seq. Qed.

(** ** The interface: what a word representation promises *)

Definition reg (s : regs) (k : nat) : lane :=
  nth k [h0 s; h1 s; h2 s; h3 s; h4 s; h5 s; h6 s; h7 s] [].

Class JhLaws (words : JhWords) := {
  (** Bit [q] of a row, for q < 128, in the order of the specification. *)
  jbit : lane -> nat -> bool;
  lane_ok : lane -> Prop;
  S_ok x0 x1 x2 x3 c :
    lane_ok x0 -> lane_ok x1 -> lane_ok x2 -> lane_ok x3 -> lane_ok c ->
    let '(y0, y1, y2, y3) := S_ x0 x1 x2 x3 c in
    (lane_ok y0 /\ lane_ok y1 /\ lane_ok y2 /\ lane_ok y3) /\
    forall q, (q < 128)%nat ->
      sb_bits (jbit c q) (jbit x0 q) (jbit x1 q) (jbit x2 q) (jbit x3 q) =
      (jbit y0 q, jbit y1 q, jbit y2 q, jbit y3 q);
  L_ok x0 x1 x2 x3 x4 x5 x6 x7 :
    lane_ok x0 -> lane_ok x1 -> lane_ok x2 -> lane_ok x3 ->
    lane_ok x4 -> lane_ok x5 -> lane_ok x6 -> lane_ok x7 ->
    let '(y0, y1, y2, y3, y4, y5, y6, y7) := L_ x0 x1 x2 x3 x4 x5 x6 x7 in
    ((lane_ok y0 /\ lane_ok y1 /\ lane_ok y2 /\ lane_ok y3) /\
     (lane_ok y4 /\ lane_ok y5 /\ lane_ok y6 /\ lane_ok y7)) /\
    forall q, (q < 128)%nat ->
      lb_bits (jbit x0 q) (jbit x1 q) (jbit x2 q) (jbit x3 q)
              (jbit x4 q) (jbit x5 q) (jbit x6 q) (jbit x7 q) =
      (jbit y0 q, jbit y1 q, jbit y2 q, jbit y3 q, jbit y4 q, jbit y5 q, jbit y6 q, jbit y7 q);
  W_ok ro x :
    (ro < 7)%nat -> lane_ok x ->
    lane_ok (W_ ro x) /\
    forall q, (q < 128)%nat -> jbit (W_ ro x) q = jbit x (Nat.lxor q (2 ^ ro));
  const_ok r : (r < 42)%nat -> lane_ok (Ceven_ r) /\ lane_ok (Codd_ r);
  const_bits r i :
    (r < 42)%nat -> (i < 256)%nat ->
    let '(o, q) := slot r i in
    jbit (if (o : bool) then Codd_ r else Ceven_ r) q =
    JHSpec.constant_bit (JHSpec.constant r) i;
  xor_ok x m :
    lane_ok x -> lane_ok m ->
    lane_ok (xor_lane x m) /\
    forall q, (q < 128)%nat -> jbit (xor_lane x m) q = xorb (jbit x q) (jbit m q);
  input_ok buf k :
    bytes buf -> (64 <= length buf)%nat -> (k < 4)%nat ->
    lane_ok (input_row buf k) /\
    forall q, (q < 128)%nat ->
      jbit (input_row buf k) q = nth (128 * k + q) (JHSpec.bits_of_bytes (firstn 64 buf)) false
}.

Section Refinement.
  Context {words : JhWords} {laws : JhLaws words}.

Definition regs_ok (s : regs) : Prop := forall k, (k < 8)%nat -> lane_ok (reg s k).

(** The state as a string of 1024 bits, and a column of it as an element. *)
Definition regs_bits (s : regs) : list bool :=
  map (fun i => jbit (reg s (i / 128)) (i mod 128)) (seq 0 1024).

Definition column (s : regs) (sl : bool * nat) : Z :=
  let '(o, q) := sl in
  let k := if (o : bool) then 1%nat else 0%nat in
  JHSpec.nibble (jbit (reg s k) q) (jbit (reg s (k + 2)) q)
                (jbit (reg s (k + 4)) q) (jbit (reg s (k + 6)) q).

Lemma regs_ok_intro s :
  lane_ok (h0 s) -> lane_ok (h1 s) -> lane_ok (h2 s) -> lane_ok (h3 s) ->
  lane_ok (h4 s) -> lane_ok (h5 s) -> lane_ok (h6 s) -> lane_ok (h7 s) -> regs_ok s.
Proof. intros. intros k Hk. do 8 (destruct k as [|k]; [assumption|]). lia. Qed.

Lemma regs_ok_elim s :
  regs_ok s ->
  (lane_ok (h0 s) /\ lane_ok (h1 s) /\ lane_ok (h2 s) /\ lane_ok (h3 s)) /\
  (lane_ok (h4 s) /\ lane_ok (h5 s) /\ lane_ok (h6 s) /\ lane_ok (h7 s)).
Proof.
  intros H. splits; [apply (H 0%nat)|apply (H 1%nat)|apply (H 2%nat)|apply (H 3%nat)|
    apply (H 4%nat)|apply (H 5%nat)|apply (H 6%nat)|apply (H 7%nat)]; lia.
Qed.

(** One round on the columns of one bit position. *)
Lemma SLu_columns r ro s :
  (r < 42)%nat -> (ro < 7)%nat -> regs_ok s ->
  regs_ok (SLu r ro s) /\
  forall q, (q < 128)%nat ->
    let a := JHSpec.sbox (jbit (Ceven_ r) q) (column s (false, q)) in
    let b := JHSpec.sbox (jbit (Codd_ r) q) (column s (true, q)) in
    column (SLu r ro s) (false, q) = JHSpec.L_fst a b /\
    (Nat.lxor q (2 ^ ro) < 128 -> Nat.lxor (Nat.lxor q (2 ^ ro)) (2 ^ ro) = q ->
     column (SLu r ro s) (true, Nat.lxor q (2 ^ ro)) = JHSpec.L_snd a b)%nat.
Proof.
  intros Hr Hro Hs. apply regs_ok_elim in Hs as ((K0 & K1 & K2 & K3) & (K4 & K5 & K6 & K7)).
  destruct (const_ok r Hr) as [Ke Ko]. unfold SLu.
  pose proof (S_ok _ _ _ _ _ K0 K2 K4 K6 Ke) as HS.
  destruct (S_ (h0 s) (h2 s) (h4 s) (h6 s) (Ceven_ r)) as [[[a0 a2] a4] a6].
  pose proof (S_ok _ _ _ _ _ K1 K3 K5 K7 Ko) as HS'.
  destruct (S_ (h1 s) (h3 s) (h5 s) (h7 s) (Codd_ r)) as [[[a1 a3] a5] a7].
  destruct HS as ((O0 & O2 & O4 & O6) & HS), HS' as ((O1 & O3 & O5 & O7) & HS').
  pose proof (L_ok _ _ _ _ _ _ _ _ O0 O2 O4 O6 O1 O3 O5 O7) as HL.
  destruct (L_ a0 a2 a4 a6 a1 a3 a5 a7) as [[[[[[[b0 b2] b4] b6] b1] b3] b5] b7].
  destruct HL as (((Q0 & Q2 & Q4 & Q6) & (Q1 & Q3 & Q5 & Q7)) & HL).
  destruct (W_ok ro b1 Hro Q1) as [R1 W1], (W_ok ro b3 Hro Q3) as [R3 W3],
    (W_ok ro b5 Hro Q5) as [R5 W5], (W_ok ro b7 Hro Q7) as [R7 W7].
  split; [now apply regs_ok_intro|]. intros q Hq. cbv zeta.
  specialize (HS q Hq). specialize (HS' q Hq). specialize (HL q Hq).
  unfold column, reg. cbn [nth Nat.add h0 h1 h2 h3 h4 h5 h6 h7].
  pose proof (sb_bits_sbox (jbit (Ceven_ r) q) (jbit (h0 s) q) (jbit (h2 s) q) (jbit (h4 s) q)
    (jbit (h6 s) q)) as E. rewrite HS in E. rewrite <- E. clear E.
  pose proof (sb_bits_sbox (jbit (Codd_ r) q) (jbit (h1 s) q) (jbit (h3 s) q) (jbit (h5 s) q)
    (jbit (h7 s) q)) as E. rewrite HS' in E. rewrite <- E. clear E. cbn [nib4].
  pose proof (lb_bits_mds (jbit a0 q) (jbit a2 q) (jbit a4 q) (jbit a6 q)
    (jbit a1 q) (jbit a3 q) (jbit a5 q) (jbit a7 q)) as E. rewrite HL in E. cbv zeta in E.
  destruct E as [<- <-]. split; [reflexivity|].
  intros Hq' Hqq. rewrite W1, W3, W5, W7, Hqq by assumption. reflexivity.
Qed.

(** Before round [r], element [i] of [A] is the column of [s] at its slot. *)
Definition related (r : nat) (s : regs) (A : list Z) : Prop :=
  forall i, (i < 256)%nat -> nth i A 0 = column s (slot r i).

Lemma flip_bit q ro :
  (q < 128)%nat -> (ro < 7)%nat ->
  (Nat.lxor q (2 ^ ro) < 128)%nat /\ Nat.lxor (Nat.lxor q (2 ^ ro)) (2 ^ ro) = q.
Proof.
  intros Hq Hro.
  pose proof (forallb_seq (fun q => forallb (fun ro => (Nat.lxor q (2 ^ ro) <? 128)%nat &&
    (Nat.lxor (Nat.lxor q (2 ^ ro)) (2 ^ ro) =? q)%nat) (seq 0 7)) 128
    ltac:(vm_compute; reflexivity) q Hq) as H.
  pose proof (forallb_seq _ _ H ro Hro) as H'. cbv beta in H'.
  now rewrite andb_true_iff, Nat.ltb_lt, Nat.eqb_eq in H'.
Qed.

Lemma P_from_256 i : (i < 256)%nat -> (JHSpec.P_from 256 i < 256)%nat.
Proof.
  intros Hi. apply Nat.ltb_lt.
  apply (forallb_seq (fun i => (JHSpec.P_from 256 i <? 256)%nat) 256); [|assumption].
  vm_compute. reflexivity.
Qed.

(** An index of a 256-element state is the first or the second of its pair. *)
Lemma pair_cases k :
  (k < 256)%nat ->
  exists j, (j < 128)%nat /\
    (k = (2 * j)%nat /\ Nat.even k = true \/ k = (2 * j + 1)%nat /\ Nat.even k = false).
Proof.
  intros Hk. exists (k / 2)%nat. pose proof (Nat.div_mod_eq k 2).
  destruct (Nat.even k) eqn:E.
  - apply Nat.even_spec in E as [m ->]. split; [apply Nat.Div0.div_lt_upper_bound; lia|].
    left. split; [|reflexivity]. rewrite (Nat.mul_comm 2 m), Nat.div_mul by lia. lia.
  - assert (O : Nat.odd k = true) by (unfold Nat.odd; now rewrite E).
    apply Nat.odd_spec in O as [m ->]. split; [apply Nat.Div0.div_lt_upper_bound; lia|].
    right. split; [|reflexivity].
    replace (2 * m + 1)%nat with (1 + m * 2)%nat by lia. rewrite Nat.div_add by lia. simpl. lia.
Qed.

(** The code's round is the specification's round. *)
Lemma SLu_round r s A :
  (r < 42)%nat -> regs_ok s -> related r s A ->
  regs_ok (SLu r (r mod 7) s) /\
  related (S r) (SLu r (r mod 7) s)
    (JHSpec.round 256 (JHSpec.constant_bit (JHSpec.constant r)) A).
Proof.
  intros Hr Hs HA. assert (Hro : (r mod 7 < 7)%nat) by (apply Nat.mod_upper_bound; lia).
  destruct (SLu_columns r (r mod 7) s Hr Hro Hs) as [Hok HC]. split; [assumption|].
  intros i Hi. rewrite slot_succ by assumption.
  unfold JHSpec.round, JHSpec.perm_layer. rewrite nth_map_seq by assumption.
  pose proof (P_from_256 i Hi) as Hk. remember (JHSpec.P_from 256 i) as k eqn:Ek. clear Ek.
  unfold JHSpec.mds_layer. rewrite nth_map_seq by assumption.
  destruct (pair_cases k Hk) as (j & Hj & Hcase).
  destruct (slot_pair r j Hr Hj) as (q & Hq & E0 & E1).
  destruct (HC q Hq) as [C0 C1]. destruct (flip_bit q _ Hq Hro) as [F0 F1].
  specialize (C1 F0 F1).
  pose proof (const_bits r (2 * j) Hr ltac:(lia)) as B0. rewrite E0 in B0.
  pose proof (const_bits r (2 * j + 1) Hr ltac:(lia)) as B1. rewrite E1 in B1.
  rewrite B0, B1 in C0, C1.
  destruct Hcase as [[-> Ev]|[-> Ev]]; rewrite Ev; unfold JHSpec.sub_layer.
  - rewrite !nth_map_seq by lia. rewrite (HA (2 * j)%nat), (HA (2 * j + 1)%nat), E0, E1 by lia.
    now rewrite C0.
  - replace (2 * j + 1 - 1)%nat with (2 * j)%nat by lia. rewrite !nth_map_seq by lia.
    rewrite (HA (2 * j)%nat), (HA (2 * j + 1)%nat), E0, E1 by lia. now rewrite C1.
Qed.

(** [n] rounds, with the constants the specification carries along. *)
Lemma rounds_related n s A :
  (n <= 42)%nat -> regs_ok s -> related 0 s A ->
  let s' := fold_left (fun s r => SLu r (r mod 7) s) (seq 0 n) s in
  let '(A', rc) := Nat.iter n JHSpec.step (A, JHSpec.constant_0) in
  regs_ok s' /\ related n s' A' /\ rc = JHSpec.constant n.
Proof.
  intros Hn Hs HA. induction n as [|n IH].
  - simpl. auto.
  - cbv zeta in *. rewrite seq_S, fold_left_app. cbn [fold_left Nat.add].
    change (Nat.iter (S n) JHSpec.step (A, JHSpec.constant_0))
      with (JHSpec.step (Nat.iter n JHSpec.step (A, JHSpec.constant_0))).
    destruct (Nat.iter n JHSpec.step (A, JHSpec.constant_0)) as [A' rc].
    destruct IH as (Hs' & HA' & ->); [lia|]. cbn [JHSpec.step].
    destruct (SLu_round n _ A' ltac:(lia) Hs' HA') as [Hok HR].
    split; [assumption|]. split; [assumption|]. reflexivity.
Qed.

(** Grouping the bits of the state puts each element at its first slot. *)
Lemma nth_regs_bits s k q :
  (k < 8)%nat -> (q < 128)%nat -> nth (128 * k + q) (regs_bits s) false = jbit (reg s k) q.
Proof.
  intros Hk Hq. unfold regs_bits. rewrite nth_map_seq by lia.
  rewrite (Nat.mul_comm 128 k), Nat.div_add_l, (Nat.div_small q), Nat.add_0_r by lia.
  rewrite Nat.add_comm, Nat.Div0.mod_add, Nat.mod_small by lia. reflexivity.
Qed.

Lemma group_related s : related 0 s (JHSpec.group (regs_bits s)).
Proof.
  intros i Hi. unfold JHSpec.group. rewrite nth_map_seq, slot_0 by assumption.
  unfold slot0, JHSpec.group_index, Nat.odd.
  assert (Hq : (i / 2 < 128)%nat) by (apply Nat.Div0.div_lt_upper_bound; lia).
  destruct (Nat.even i); cbn [negb column].
  - rewrite <- (nth_regs_bits s 0), <- (nth_regs_bits s (0 + 2)), <- (nth_regs_bits s (0 + 4)),
      <- (nth_regs_bits s (0 + 6)) by lia.
    f_equal; f_equal; lia.
  - rewrite <- (nth_regs_bits s 1), <- (nth_regs_bits s (1 + 2)), <- (nth_regs_bits s (1 + 4)),
      <- (nth_regs_bits s (1 + 6)) by lia.
    f_equal; f_equal; lia.
Qed.

Lemma nibble_testbit a b c d j :
  (j < 4)%nat -> Z.testbit (JHSpec.nibble a b c d) (3 - Z.of_nat j) = nth j [a; b; c; d] false.
Proof. intros Hj. do 4 (destruct j as [|j]; [destruct a, b, c, d; reflexivity|]). lia. Qed.

Lemma related_degroup s A : related 0 s A -> JHSpec.degroup A = regs_bits s.
Proof.
  intros HA. unfold JHSpec.degroup, regs_bits. apply map_ext_in. intros i Hi%in_seq.
  pose proof (Nat.div_mod_eq i 256). pose proof (Nat.mod_upper_bound i 256).
  set (m := (i mod 256)%nat) in *. set (j := (i / 256)%nat) in *. assert (j < 4)%nat by lia.
  unfold JHSpec.ungroup_index.
  assert (E : forall o, (if o : bool then 128 <= m else m < 128)%nat ->
      i = (128 * (2 * j + (if o : bool then 1 else 0)) + (m - if o then 128 else 0))%nat)
    by (intros [] ?; lia).
  destruct (Nat.ltb_spec m 128) as [Hm|Hm].
  - rewrite HA, slot_0 by lia. unfold slot0, Nat.odd. rewrite Nat.even_even. cbn [negb column].
    rewrite (Nat.mul_comm 2 m), Nat.div_mul, nibble_testbit by lia.
    rewrite (E false Hm) at 1 2. rewrite Nat.add_0_r, Nat.sub_0_r.
    rewrite (Nat.mul_comm 128), Nat.div_add_l, (Nat.div_small m), Nat.add_0_r by lia.
    rewrite (Nat.add_comm _ m), Nat.Div0.mod_add, Nat.mod_small by lia.
    clearbody j. do 4 (destruct j as [|j]; [reflexivity|]). lia.
  - rewrite HA, slot_0 by lia. unfold slot0, Nat.odd. rewrite Nat.even_odd. cbn [negb column].
    replace ((2 * (m - 128) + 1) / 2)%nat with (m - 128)%nat.
    2: { rewrite (Nat.mul_comm 2), Nat.div_add_l by lia. simpl. lia. }
    rewrite nibble_testbit by lia. rewrite (E true Hm) at 1 2.
    rewrite (Nat.mul_comm 128), Nat.div_add_l, (Nat.div_small (m - 128)), Nat.add_0_r by lia.
    rewrite (Nat.add_comm _ (m - 128)), Nat.Div0.mod_add, (Nat.mod_small (m - 128)) by lia.
    clearbody j. do 4 (destruct j as [|j]; [reflexivity|]). lia.
Qed.

(** ** The three forms of E8 *)

Lemma E8_unrolled_rounds s :
  E8_unrolled s = fold_left (fun s r => SLu r (r mod 7) s) (seq 0 42) s.
Proof. reflexivity. Qed.

Lemma E8_loop_rounds s : E8_loop s = fold_left (fun s r => SLu r (r mod 7) s) (seq 0 42) s.
Proof. reflexivity. Qed.

Lemma switch_body_SLu s g r :
  (g < 7)%nat ->
  switch_body (s, g) r = (SLu r g s, if (g + 1 =? 7)%nat then 0%nat else (g + 1)%nat).
Proof.
  intros Hg. unfold switch_body, SLu.
  destruct (S_ (h0 s) (h2 s) (h4 s) (h6 s) (Ceven_ r)) as [[[a0 a2] a4] a6].
  destruct (S_ (h1 s) (h3 s) (h5 s) (h7 s) (Codd_ r)) as [[[a1 a3] a5] a7].
  destruct (L_ a0 a2 a4 a6 a1 a3 a5 a7) as [[[[[[[b0 b2] b4] b6] b1] b3] b5] b7].
  do 7 (destruct g as [|g]; [reflexivity|]). lia.
Qed.

Lemma E8_switch_rounds s : E8_switch s = fold_left (fun s r => SLu r (r mod 7) s) (seq 0 42) s.
Proof.
  unfold E8_switch.
  assert (H : forall n, fold_left switch_body (seq 0 n) (s, 0%nat) =
    (fold_left (fun s r => SLu r (r mod 7) s) (seq 0 n) s, (n mod 7)%nat)).
  { induction n as [|n IH]; [reflexivity|]. rewrite seq_S, !fold_left_app, IH.
    cbn [fold_left Nat.add]. pose proof (Nat.mod_upper_bound n 7).
    rewrite switch_body_SLu by lia. f_equal.
    pose proof (Nat.div_mod_eq n 7). destruct (Nat.eqb_spec (n mod 7 + 1) 7).
    - apply (Nat.mod_unique _ _ (n / 7 + 1)); lia.
    - apply (Nat.mod_unique _ _ (n / 7)); lia. }
  now rewrite H.
Qed.

Lemma E8_rounds fp s : E8 fp s = fold_left (fun s r => SLu r (r mod 7) s) (seq 0 42) s.
Proof.
  destruct fp; cbn [E8].
  - apply E8_unrolled_rounds.
  - apply E8_loop_rounds.
  - apply E8_switch_rounds.
Qed.

Lemma E8_spec fp s :
  regs_ok s -> regs_ok (E8 fp s) /\ regs_bits (E8 fp s) = JHSpec.E8 (regs_bits s).
Proof.
  intros Hs. rewrite E8_rounds.
  pose proof (rounds_related 42 s _ (le_n _) Hs (group_related s)) as H. cbv zeta in H.
  unfold JHSpec.E8.
  destruct (Nat.iter 42 JHSpec.step (JHSpec.group (regs_bits s), JHSpec.constant_0)) as [A rc].
  destruct H as (Hok & HA & _). split; [assumption|]. symmetry. apply related_degroup.
  unfold related, slot in HA. rewrite slots_42 in HA. exact HA.
Qed.
End Refinement.
