(* ===== verification/JhMode.v ===== *)
(** * The JH code's mode of operation

    Buffering, counting, padding and output of jh.c, against the
    specification of the hash of a bit string.  The proofs use the
    interfaces: [JhLaws] and [JhStateLaws] for the word representation,
    [JhCountLaws] for the block counter. *)

From Stdlib Require Import ZArith List Lia Bool.
From S2P Require Import Prelude BitStrings SphTypes Stream JhTables Jh JhSpec JhProof.
Import ListNotations.

(** ** Bit strings of byte strings *)

(** A big-endian number, bit by bit. *)
Lemma bits_of_bytes_be_store n v :
  JHSpec.bits_of_bytes (be_store n v) = JHSpec.bits_of_Z (8 * n) v.
Proof.
  unfold bits_of, JHSpec.bits_of_Z. rewrite length_be_store.
  apply map_ext_in. intros i Hi%in_seq. unfold msb_first.
  rewrite nth_be_store, trunc_testbit, Z.shiftr_spec by dlia.
  rewrite (proj2 (Z.ltb_lt _ _)) by dlia. cbn [andb]. f_equal. dlia.
Qed.

(** ** The interfaces *)

Definition state_ok {words : JhWords} {laws : JhLaws words} (H : list Z) : Prop :=
  regs_ok (READ_STATE H) /\ WRITE_STATE (READ_STATE H) = H.

(** What the stored form of the state promises. *)
Class JhStateLaws (words : JhWords) {laws : JhLaws words} := {
  read_write s : regs_ok s -> READ_STATE (WRITE_STATE s) = s;
  IV_state d iv :
    In (d, iv) [(224, IV224); (256, IV256); (384, IV384); (512, IV512)] ->
    state_ok iv /\ regs_bits (READ_STATE iv) = JHSpec.IV d;
  input_firstn buf k : (k < 4)%nat -> input_row buf k = input_row (firstn 64 buf) k;
  encode_ok addr s b :
    regs_ok s -> (64 <= length b)%nat ->
    exists b', encode_state addr (WRITE_STATE s) b = Some b' /\ length b' = length b /\
      bytes (firstn 64 b') /\ JHSpec.bits_of_bytes (firstn 64 b') = skipn 512 (regs_bits s)
}.

(** What the block counter promises: it counts modulo 2^64, and gives the
    length of the message in bits. *)
Class JhCountLaws {cnt} (count : JhCount cnt) := {
  count_ok : cnt -> Prop;
  count_val : cnt -> Z;
  count_range c : count_ok c -> word 64 (count_val c);
  count_zero_ok : count_ok count_zero /\ count_val count_zero = 0;
  count_incr_ok c :
    count_ok c -> count_ok (count_incr c) /\ count_val (count_incr c) = (count_val c + 1) mod 2 ^ 64;
  count_length_ok addr c ptr n :
    count_ok c -> (ptr < 64)%nat -> 0 <= n < 8 ->
    count_length addr c ptr n = be_store 16 (512 * count_val c + 8 * Z.of_nat ptr + n)
}.

Section Mode.
  Context {words : JhWords} {laws : JhLaws words} {slaws : JhStateLaws words}.
  Context {cnt : Type} {count : JhCount cnt} {claws : JhCountLaws count}.
  Variable fp : footprint.

(** ** The compression function *)

Lemma jh_block_firstn b st : jh_block fp b st = jh_block fp (firstn 64 b) st.
Proof.
  destruct st as [s c]. unfold jh_block, INPUT_BUF1, INPUT_BUF2.
  rewrite (input_firstn b 0), (input_firstn b 1), (input_firstn b 2), (input_firstn b 3) by lia.
  reflexivity.
Qed.

(** A row of the state after [INPUT_BUF1] or [INPUT_BUF2]. *)
Lemma regs_bits_xor_first s b :
  regs_ok s -> bytes b -> length b = 64%nat ->
  regs_ok (INPUT_BUF1 b s) /\
  regs_bits (INPUT_BUF1 b s) = JHSpec.xor_first (regs_bits s) (JHSpec.bits_of_bytes b).
Proof.
  intros Hs Hb Hl. pose proof (regs_ok_elim s Hs) as ((K0 & K1 & K2 & K3) & (K4 & K5 & K6 & K7)).
  assert (I : forall k, (k < 4)%nat -> lane_ok (input_row b k)) by (intros; apply input_ok; [assumption|lia|assumption]).
  split.
  - apply regs_ok_intro; cbn; try assumption; (apply xor_ok; [assumption|apply I; lia]).
  - unfold regs_bits at 1, JHSpec.xor_first. apply map_ext_in. intros i Hi%in_seq.
    pose proof (Nat.div_mod_eq i 128) as E. pose proof (Nat.mod_upper_bound i 128 ltac:(lia)) as Hm.
    set (q := (i mod 128)%nat) in *. set (k := (i / 128)%nat) in *. clearbody q k.
    rewrite E, nth_regs_bits by lia.
    assert (X : forall k x, (k < 4)%nat -> lane_ok x ->
      jbit (xor_lane x (input_row b k)) q =
      xorb (jbit x q) (nth (128 * k + q) (JHSpec.bits_of_bytes b) false)).
    { intros k' x Hk' Hx. destruct (xor_ok x (input_row b k') Hx (I k' Hk')) as [_ ->]; [|lia].
      destruct (input_ok b k' Hb ltac:(lia) Hk') as [_ ->]; [|lia].
      now rewrite (firstn_all2 b) by lia. }
    destruct (Nat.ltb_spec (128 * k + q) 512).
    + do 4 (destruct k as [|k]; [apply X; [lia|assumption]|]). lia.
    + do 4 (destruct k as [|k]; [lia|]).
      do 4 (destruct k as [|k]; [reflexivity|]). lia.
Qed.

Lemma regs_bits_xor_last s b :
  regs_ok s -> bytes b -> length b = 64%nat ->
  regs_ok (INPUT_BUF2 b s) /\
  regs_bits (INPUT_BUF2 b s) = JHSpec.xor_last (regs_bits s) (JHSpec.bits_of_bytes b).
Proof.
  intros Hs Hb Hl. pose proof (regs_ok_elim s Hs) as ((K0 & K1 & K2 & K3) & (K4 & K5 & K6 & K7)).
  assert (I : forall k, (k < 4)%nat -> lane_ok (input_row b k)) by (intros; apply input_ok; [assumption|lia|assumption]).
  split.
  - apply regs_ok_intro; cbn; try assumption; (apply xor_ok; [assumption|apply I; lia]).
  - unfold regs_bits at 1, JHSpec.xor_last. apply map_ext_in. intros i Hi%in_seq.
    pose proof (Nat.div_mod_eq i 128) as E. pose proof (Nat.mod_upper_bound i 128 ltac:(lia)) as Hm.
    set (q := (i mod 128)%nat) in *. set (k := (i / 128)%nat) in *. clearbody q k.
    rewrite E, nth_regs_bits by lia.
    assert (X : forall k x, (k < 4)%nat -> lane_ok x ->
      jbit (xor_lane x (input_row b k)) q =
      xorb (jbit x q) (nth (128 * (4 + k) + q - 512) (JHSpec.bits_of_bytes b) false)).
    { intros k' x Hk' Hx. destruct (xor_ok x (input_row b k') Hx (I k' Hk')) as [_ ->]; [|lia].
      destruct (input_ok b k' Hb ltac:(lia) Hk') as [_ ->]; [|lia].
      rewrite (firstn_all2 b) by lia. do 2 f_equal. lia. }
    destruct (Nat.ltb_spec (128 * k + q) 512).
    + do 4 (destruct k as [|k]; [reflexivity|]). lia.
    + do 4 (destruct k as [|k]; [lia|]).
      do 4 (destruct k as [|k]; [apply (X _ _); [lia|assumption]|]). lia.
Qed.

Lemma jh_block_F8 b s c :
  regs_ok s -> bytes b -> length b = 64%nat ->
  let '(s', c') := jh_block fp b (s, c) in
  regs_ok s' /\ regs_bits s' = JHSpec.F8 (regs_bits s) (JHSpec.bits_of_bytes b) /\ c' = count_incr c.
Proof.
  intros Hs Hb Hl. unfold jh_block, JHSpec.F8.
  destruct (regs_bits_xor_first s b Hs Hb Hl) as [O1 <-].
  destruct (E8_spec fp _ O1) as [O2 <-].
  destruct (regs_bits_xor_last _ b O2 Hb Hl) as [O3 <-]. auto.
Qed.

Lemma jh_blocks blocks s c :
  regs_ok s -> count_ok c -> Forall (fun b => bytes b /\ length b = 64%nat) blocks ->
  let '(s', c') := fold_left (fun st b => jh_block fp b st) blocks (s, c) in
  regs_ok s' /\ count_ok c' /\
  regs_bits s' = JHSpec.compress_all (regs_bits s) (map JHSpec.bits_of_bytes blocks) /\
  count_val c' mod 2 ^ 64 = (count_val c + Z.of_nat (length blocks)) mod 2 ^ 64.
Proof.
  intros Hs Hc Hb. revert s c Hs Hc. induction Hb as [|b blocks [Hb Hl] _ IH]; intros s c Hs Hc.
  - cbn. now rewrite Z.add_0_r.
  - cbn [fold_left]. pose proof (jh_block_F8 b s c Hs Hb Hl) as F.
    destruct (jh_block fp b (s, c)) as [s1 c1]. destruct F as (Hs1 & E1 & ->).
    destruct (count_incr_ok c Hc) as [Hc1 V1]. specialize (IH s1 _ Hs1 Hc1).
    destruct (fold_left _ blocks (s1, count_incr c)) as [s' c'].
    destruct IH as (? & ? & -> & ->). rewrite E1, V1. splits; try assumption; [reflexivity|].
    rewrite Z.add_mod_idemp_l by lia. f_equal. cbn [length]. lia.
Qed.

(** ** Updates *)

(** The context [sc] has absorbed [msg], starting from [iv]. *)
Definition jh_absorbed (iv msg : list Z) (sc : jh_context) : Prop :=
  length (buf sc) = 64%nat /\ WRITE_STATE (READ_STATE (H sc)) = H sc /\
  absorbed 64 (jh_block fp) (READ_STATE iv, count_zero) msg
    (Bctx (buf sc) (ptr sc) (READ_STATE (H sc), block_count sc)).

Lemma chunks_bytes msg :
  bytes msg -> Forall (fun b => bytes b /\ length b = 64%nat) (chunks 64 msg).
Proof.
  intros Hm. apply Forall_forall. intros b Hb. split.
  - now apply (chunks_Forall _ 64 msg).
  - now apply (chunks_lengths 64 msg).
Qed.

(** What an absorbed message says of the state. *)
Lemma absorbed_state iv msg c :
  state_ok iv -> bytes msg ->
  absorbed 64 (jh_block fp) (READ_STATE iv, count_zero) msg c ->
  regs_ok (fst (b_st c)) /\ count_ok (snd (b_st c)) /\
  regs_bits (fst (b_st c)) =
    JHSpec.compress_all (regs_bits (READ_STATE iv)) (chunks 512 (JHSpec.bits_of_bytes msg)) /\
  count_val (snd (b_st c)) mod 2 ^ 64 = Z.of_nat (length msg / 64) mod 2 ^ 64.
Proof.
  intros [Hi _] Hm (_ & _ & _ & ->). destruct count_zero_ok as [Z0 V0].
  pose proof (jh_blocks (chunks 64 msg) _ _ Hi Z0 (chunks_bytes msg Hm)) as B.
  destruct (fold_left _ _ _) as [s c']. destruct B as (? & ? & ? & ?). cbn [fst snd].
  splits; try assumption.
  - change 512%nat with (8 * 64)%nat. now rewrite bits_of_chunks by lia.
  - now rewrite V0, length_chunks in *.
Qed.

Lemma jh_init_absorbed sc iv :
  length (buf sc) = 64%nat -> state_ok iv -> jh_absorbed iv [] (jh_init sc iv).
Proof.
  intros Hb [_ Hi]. split; [assumption|]. split; [assumption|]. apply absorbed_init; cbn; lia.
Qed.

Lemma jh_core_absorbed iv msg data sc :
  state_ok iv -> bytes msg -> bytes data -> jh_absorbed iv msg sc ->
  exists sc', jh_core fp sc data = Some sc' /\ jh_absorbed iv (msg ++ data) sc' /\
    ((64 - ptr sc <= length data)%nat -> exists s, regs_ok s /\ H sc' = WRITE_STATE s).
Proof.
  intros Hi Hm Hd (Hb & Hw & Ha).
  pose proof (absorbed_ok 64 (jh_block fp) ltac:(lia) _ _ _ Ha) as Hok.
  destruct (absorb_absorbed 64 (jh_block fp) jh_block_firstn ltac:(lia) _ _ _ data Ha)
    as (c' & E & Ha' & Hl').
  unfold jh_core. destruct (Nat.ltb_spec (length data) (64 - ptr sc)) as [Hs|Hf].
  - unfold absorb in E. cbn [b_ptr b_buf b_st] in E. rewrite (proj2 (Nat.ltb_lt _ _) Hs) in E.
    destruct (memcpy_at (buf sc) (ptr sc) data) as [b|]; [|discriminate]. injection E as <-.
    eexists. split; [reflexivity|]. cbn in Hl'. split; [|lia].
    split; [cbn; lia|]. split; [assumption|]. exact Ha'.
  - rewrite absorb_loop_eq in E by assumption. rewrite E.
    destruct (absorbed_state iv (msg ++ data) c' Hi) as (Hs & _); [now apply Forall_app|assumption|].
    eexists. split; [reflexivity|]. cbn [b_buf] in Hl'. split; [|eauto].
    split; [cbn; lia|]. cbn [H buf ptr block_count]. rewrite read_write by assumption.
    split; [reflexivity|]. destruct c' as [b' p' [s' n']]. exact Ha'.
Qed.

(** ** Padding *)

Definition padding (ub n : Z) (len : nat) : list Z :=
  let ptr := (len mod 64)%nat in
  let numz := if ((ptr =? 0)%nat && (n =? 0))%bool then 47%nat else (111 - ptr)%nat in
  [last_byte ub n] ++ repeat 0 numz ++ be_store 16 (8 * Z.of_nat len + n).

Lemma padding_bytes ub n len : bytes (padding ub n len).
Proof.
  unfold padding. apply Forall_app. split; [constructor; [apply last_byte_word|constructor]|].
  apply Forall_app. split; [apply Forall_repeat'; now apply word_0|apply bytes_be_store].
Qed.

(** The padded message is the padding of the message's bits, [ub] giving the last [n]. *)
Lemma padding_pad ub n msg :
  (n < 8)%nat ->
  JHSpec.bits_of_bytes (msg ++ padding ub (Z.of_nat n) (length msg)) =
  JHSpec.pad (JHSpec.bits_of_bytes msg ++ extra_bits ub n).
Proof.
  intros Hn. unfold padding, JHSpec.pad. rewrite !bits_of_app, bits_of_cons,
    bits_of_zeros, bits_of_bytes_be_store, last_byte_bits by (assumption || apply msb_first_0).
  change (JHSpec.bits_of_bytes []) with (@nil bool). rewrite app_nil_r, <- !app_assoc.
  do 2 f_equal. cbn [app]. f_equal. rewrite length_app, length_bits_of.
  unfold extra_bits. rewrite length_map, length_seq. rewrite app_assoc, <- repeat_app.
  f_equal; [f_equal|f_equal; lia].
  destruct (Nat.eqb_spec (length msg mod 64) 0), (Z.eqb_spec (Z.of_nat n) 0); cbn [andb]; dlia.
Qed.

Lemma padding_length ub n msg :
  0 <= n < 8 ->
  let l := length (msg ++ padding ub n (length msg)) in
  (l mod 64 = 0 /\ 64 * (length msg / 64 + 1) <= l)%nat.
Proof.
  intros Hn. unfold padding. rewrite !length_app, repeat_length, length_be_store. cbn [length].
  destruct (Nat.eqb_spec (length msg mod 64) 0), (Z.eqb_spec n 0); cbn [andb]; dlia.
Qed.

(** ** The end of the computation *)

(** The local buffer of [jh_close], up to the call of [jh_core]. *)
Definition close_buffer (stack : list Z) (addr : Z) (sc : jh_context) (ub n : Z) (numz : nat) :
    option (list Z) :=
  let* b := memcpy_at stack 0 [last_byte ub n] in
  let* b := memset_at b 1 0 numz in
  memcpy_at b (numz + 1) (count_length (addr + Z.of_nat (numz + 1)) (block_count sc) (ptr sc) n).

Lemma close_buffer_padding stack addr sc ub n numz len :
  length stack = 128%nat -> 0 <= n < 8 -> (numz <= 111)%nat ->
  count_ok (block_count sc) -> (ptr sc < 64)%nat ->
  512 * count_val (block_count sc) + 8 * Z.of_nat (ptr sc) = 8 * Z.of_nat len ->
  exists b, close_buffer stack addr sc ub n numz = Some b /\ length b = 128%nat /\
    firstn (numz + 17) b = [last_byte ub n] ++ repeat 0 numz ++ be_store 16 (8 * Z.of_nat len + n).
Proof.
  intros Hs Hn Hz Hc Hp Hv. unfold close_buffer, memset_at.
  rewrite count_length_ok, Hv by assumption. set (e := be_store 16 _).
  assert (He : length e = 16%nat) by apply length_be_store.
  destruct (memcpy_at stack 0 [last_byte ub n]) as [b1|] eqn:E1.
  2: { rewrite memcpy_at_Some in E1 by (cbn; lia). discriminate. }
  pose proof (memcpy_at_length _ _ _ _ E1) as L1.
  pose proof (memcpy_at_app _ _ _ _ (repeat 0 numz) E1) as A1. cbn [length Nat.add] in A1. rewrite A1.
  destruct (memcpy_at stack 0 ([last_byte ub n] ++ repeat 0 numz)) as [b2|] eqn:E2.
  2: { rewrite memcpy_at_Some in E2 by (rewrite length_app, repeat_length; cbn; lia). discriminate. }
  pose proof (memcpy_at_app _ _ _ _ e E2) as A2.
  rewrite length_app, repeat_length in A2. cbn [length Nat.add] in A2.
  replace (numz + 1)%nat with (S numz) by lia. rewrite A2.
  assert (L3 : length (([last_byte ub n] ++ repeat 0 numz) ++ e) = (numz + 17)%nat)
    by (rewrite !length_app, repeat_length; cbn [length]; lia).
  destruct (memcpy_at stack 0 (([last_byte ub n] ++ repeat 0 numz) ++ e)) as [b3|] eqn:E3.
  2: { rewrite memcpy_at_Some in E3 by lia. discriminate. }
  exists b3. split; [reflexivity|]. split; [now rewrite (memcpy_at_length _ _ _ _ E3)|].
  pose proof (memcpy_at_firstn _ _ _ _ E3) as F. rewrite L3 in F. cbn [Nat.add firstn app] in F.
  rewrite F. cbn [app]. reflexivity.
Qed.

(** The hash of a bit string: the bytes [msg] absorbed so far and [n] bits of [ub]. *)
Lemma jh_close_hash stack addr sc ub n w d iv msg :
  In (32 * Z.of_nat w, iv) [(224, IV224); (256, IV256); (384, IV384); (512, IV512)] ->
  d = (32 * w)%nat -> (n < 8)%nat -> length stack = 128%nat ->
  bytes msg -> Z.of_nat (length msg) < 2 ^ 70 -> jh_absorbed iv msg sc ->
  exists out sc',
    jh_close fp stack addr sc ub (Z.of_nat n) w iv = Some (out, sc') /\
    JHSpec.bits_of_bytes out = JHSpec.hash d (JHSpec.bits_of_bytes msg ++ extra_bits ub n) /\
    bytes out /\ length out = (4 * w)%nat /\ jh_absorbed iv [] sc'.
Proof.
  intros Hiv -> Hn Hst Hm Hlen Ha. destruct (IV_state _ _ Hiv) as [Hi EIV].
  assert (Hw : (w <= 16)%nat).
  { cbn [In] in Hiv. destruct Hiv as [E|[E|[E|[E|[]]]]]; apply (f_equal fst) in E; cbn [fst] in E; lia. }
  pose proof Ha as (Hb & _ & Ha'). destruct (absorbed_state iv msg _ Hi Hm Ha') as (_ & Hc & _ & Hv).
  pose proof (absorbed_ok 64 (jh_block fp) ltac:(lia) _ _ _ Ha') as [Hp _]. cbn [b_ptr] in Hp.
  destruct Ha' as (_ & Ep & _ & _). cbn [b_ptr] in Ep. cbn [b_st snd] in Hc, Hv.
  assert (Hv' : count_val (block_count sc) = Z.of_nat (length msg / 64)).
  { pose proof (count_range _ Hc) as R. unfold word in R.
    rewrite !Z.mod_small in Hv; [assumption| |assumption]. split; [lia|dlia]. }
  unfold jh_close. set (numz := if ((ptr sc =? 0)%nat && (Z.of_nat n =? 0))%bool then 47%nat else _).
  assert (Hz : (numz <= 111)%nat) by (subst numz; destruct (_ && _)%bool; lia).
  destruct (close_buffer_padding stack addr sc ub (Z.of_nat n) numz (length msg))
    as (b & Eb & Lb & Fb); try assumption; [lia|rewrite Hv'; dlia|].
  cbv zeta. change (((ub .& trunc 32 (- (0x80 >> Z.of_nat n))) .| (0x80 >> Z.of_nat n)) .& 0xFF)
    with (last_byte ub (Z.of_nat n)). unfold close_buffer in Eb.
  destruct (memcpy_at stack 0 _) as [b1|]; [|discriminate].
  destruct (memset_at b1 1 0 numz) as [b2|]; [|discriminate]. rewrite Eb, Fb.
  assert (EP : [last_byte ub (Z.of_nat n)] ++ repeat 0 numz ++
      be_store 16 (8 * Z.of_nat (length msg) + Z.of_nat n) = padding ub (Z.of_nat n) (length msg))
    by (unfold padding, numz; now rewrite Ep).
  rewrite EP. pose proof (padding_bytes ub (Z.of_nat n) (length msg)) as PB.
  destruct (padding_length ub (Z.of_nat n) msg ltac:(lia)) as [PL PL'].
  destruct (jh_core_absorbed iv msg (padding ub (Z.of_nat n) (length msg)) sc Hi Hm PB Ha)
    as (sc' & -> & Ha2 & Hs). pose proof Ha2 as (Hb2 & _ & Ha2').
  destruct Hs as (s & Hs & EH).
  { rewrite length_app in PL'. rewrite Ep. clear - PL'. dlia. }
  destruct (absorbed_state iv _ _ Hi (proj2 (Forall_app _ _ _) (conj Hm PB)) Ha2')
    as (_ & _ & ES & _). cbn [b_st fst] in ES. rewrite EH, read_write in ES by assumption.
  destruct (encode_ok addr s b Hs ltac:(lia)) as (b' & Ee & Le & Be & BBe). rewrite EH, Ee.
  eexists _, _. split; [reflexivity|].
  assert (Eo : slice b' (4 * (16 - w)) (4 * w) = skipn (4 * (16 - w)) (firstn 64 b')).
  { unfold slice. rewrite firstn_skipn_comm. do 2 f_equal. lia. }
  rewrite Eo. splits.
  - rewrite bits_of_skipn, BBe, ES, EIV, skipn_skipn.
    unfold JHSpec.hash. rewrite padding_pad by assumption.
    replace (8 * (4 * (16 - w)) + 512)%nat with (1024 - 32 * w)%nat by lia.
    now rewrite Nat2Z.inj_mul.
  - now apply Forall_skipn'.
  - rewrite length_skipn, length_firstn. lia.
  - now apply jh_init_absorbed.
Qed.

(** A whole computation: initialisation, updates, close. *)
Definition jh_updates (sc : jh_context) (pieces : list (list Z)) : option jh_context :=
  fold_left (fun sc data => let* sc := sc in jh_core fp sc data) pieces (Some sc).

Lemma jh_updates_absorbed iv msg pieces sc :
  state_ok iv -> bytes msg -> Forall bytes pieces -> jh_absorbed iv msg sc ->
  exists sc', jh_updates sc pieces = Some sc' /\ jh_absorbed iv (msg ++ concat pieces) sc'.
Proof.
  intros Hi Hm Hp. revert msg sc Hm. induction Hp as [|d ps Hd _ IH]; intros msg sc Hm Ha.
  - exists sc. cbn. now rewrite app_nil_r.
  - destruct (jh_core_absorbed iv msg d sc Hi Hm Hd Ha) as (sc1 & E & Ha1 & _).
    destruct (IH (msg ++ d) sc1 (proj2 (Forall_app _ _ _) (conj Hm Hd)) Ha1) as (sc2 & E2 & Ha2).
    exists sc2. unfold jh_updates in *. cbn [fold_left concat]. rewrite E, app_assoc. auto.
Qed.

(** The context comes back initialised. *)
Lemma jh_close_init stack addr sc ub n w iv out sc' :
  jh_close fp stack addr sc ub n w iv = Some (out, sc') -> jh_init sc' iv = sc'.
Proof.
  unfold jh_close. intros E.
  repeat match type of E with match ?x with Some _ => _ | None => _ end = _ =>
    destruct x; [|discriminate] end.
  now injection E as _ <-.
Qed.

Lemma jh_whole w iv pieces sc stack addr ub n :
  In (32 * Z.of_nat w, iv) [(224, IV224); (256, IV256); (384, IV384); (512, IV512)] ->
  (n < 8)%nat -> length (buf sc) = 64%nat -> length stack = 128%nat ->
  Forall bytes pieces -> Z.of_nat (length (concat pieces)) < 2 ^ 70 ->
  exists sc1 out sc2,
    jh_updates (jh_init sc iv) pieces = Some sc1 /\
    jh_close fp stack addr sc1 ub (Z.of_nat n) w iv = Some (out, sc2) /\
    bytes out /\ length out = (4 * w)%nat /\
    JHSpec.bits_of_bytes out =
      JHSpec.hash (32 * w) (JHSpec.bits_of_bytes (concat pieces) ++ extra_bits ub n) /\
    length (buf sc2) = 64%nat /\ jh_init sc2 iv = sc2.
Proof.
  intros Hiv Hn Hb Hst Hp Hl. destruct (IV_state _ _ Hiv) as [Hi _].
  destruct (jh_updates_absorbed iv [] pieces _ Hi (Forall_nil _) Hp (jh_init_absorbed sc iv Hb Hi))
    as (sc1 & E1 & Ha1). cbn [app] in Ha1.
  assert (Hc : bytes (concat pieces)) by now apply Forall_concat.
  destruct (jh_close_hash stack addr sc1 ub n w _ iv _ Hiv eq_refl Hn Hst Hc Hl Ha1)
    as (out & sc2 & E2 & EH & Hob & Hol & Ha2).
  exists sc1, out, sc2. splits; try assumption; [apply Ha2|]. now apply jh_close_init in E2.
Qed.
End Mode.
