(* ===== verification/JhLanes.v ===== *)
(** * Both word sizes of jh.c keep the interface

    Instances of [JhLaws] for the 64-bit words ([Wide]) and the 32-bit words
    ([Narrow]) of jh.c, on a machine of any byte order.  Bit [q] of a row, in
    the order of the specification, is found in word [q / w]; inside the word
    the position is [q] read from the most significant end on a big-endian
    machine, and from the most significant end of each byte on a little-endian
    one. *)

From Stdlib Require Import ZArith List Lia Bool.
From S2P Require Import Prelude BitStrings SphTypes Stream JhTables Jh JhSpec JhProof.
Import ListNotations.

(** ** Bits of a row *)

(** What a position is combined with: its three low bits, or all of them. *)
Definition swizzle (p : platform) (w : Z) : Z :=
  match order p with SPH_LITTLE_ENDIAN => 7 | _ => w - 1 end.

Definition lane_bit (w s : Z) (x : lane) (q : nat) : bool :=
  Z.testbit (nth (Z.to_nat (Z.of_nat q / w)) x 0) (Z.lxor (Z.of_nat q mod w) s).

Definition lane_words (w : Z) (n : nat) (x : lane) : Prop := length x = n /\ Forall (word w) x.

Lemma swizzle_range p w k :
  w = 32 \/ w = 64 -> 0 <= k < w -> 0 <= Z.lxor k (swizzle p w) < w.
Proof.
  intros [-> | ->] Hk; [apply (lxor_word 5)|apply (lxor_word 6)];
    try assumption; try lia; unfold swizzle, word; destruct (order p); lia.
Qed.

(** Exclusive or with a literal is a bijection of the positions. *)
Lemma lxor_cancel k s : Z.lxor (Z.lxor k s) s = k.
Proof. now rewrite Z.lxor_assoc, Z.lxor_nilpotent, Z.lxor_0_r. Qed.

(** A position of a row is a word and a position in it. *)
Lemma wide_position p q :
  (q < 128)%nat ->
  let k := Z.lxor (Z.of_nat q mod 64) (swizzle p 64) in
  0 <= k < 64 /\ (Z.to_nat (Z.of_nat q / 64) = 0 \/ Z.to_nat (Z.of_nat q / 64) = 1)%nat.
Proof. intros. split; [apply swizzle_range; [auto|dlia]|dlia]. Qed.

Lemma narrow_position p q :
  (q < 128)%nat ->
  let k := Z.lxor (Z.of_nat q mod 32) (swizzle p 32) in
  0 <= k < 32 /\
  (Z.to_nat (Z.of_nat q / 32) = 0 \/ Z.to_nat (Z.of_nat q / 32) = 1 \/
   Z.to_nat (Z.of_nat q / 32) = 2 \/ Z.to_nat (Z.of_nat q / 32) = 3)%nat.
Proof. intros. split; [apply swizzle_range; [auto|dlia]|dlia]. Qed.

(** The bits of a row at [q], in each of the words it can be in. *)
Ltac wide_bits p q Hq :=
  unfold lane_bit; destruct (wide_position p q Hq) as [?Hk [-> | ->]]; cbn [nth];
  set (k := Z.lxor _ _) in *.
Ltac narrow_bits p q Hq :=
  unfold lane_bit; destruct (narrow_position p q Hq) as [?Hk [-> | [-> | [-> | ->]]]]; cbn [nth];
  set (k := Z.lxor _ _) in *.

(** The words of a row of known length. *)
Ltac wide_row x :=
  let x0 := fresh x "h" in let x1 := fresh x "l" in let F := fresh "F" in
  destruct x as [|x0 [|x1 [|]]]; try (exfalso; match goal with H : lane_words _ _ _ |- _ =>
    solve [destruct H as [H _]; discriminate H] end);
  match goal with H : lane_words _ _ [x0; x1] |- _ =>
    destruct H as [_ F]; rewrite !Forall_cons_iff in F; destruct F as (? & ? & _) end.
Ltac narrow_row x :=
  let x3 := fresh x "_3" in let x2 := fresh x "_2" in
  let x1 := fresh x "_1" in let x0 := fresh x "_0" in let F := fresh "F" in
  destruct x as [|x3 [|x2 [|x1 [|x0 [|]]]]]; try (exfalso; match goal with H : lane_words _ _ _ |- _ =>
    solve [destruct H as [H _]; discriminate H] end);
  match goal with H : lane_words _ _ [x3; x2; x1; x0] |- _ =>
    destruct H as [_ F]; rewrite !Forall_cons_iff in F; destruct F as (? & ? & ? & ? & _) end.

Lemma lane_words_2 w x0 x1 : word w x0 -> word w x1 -> lane_words w 2 [x0; x1].
Proof. split; auto. Qed.

Lemma lane_words_4 w x0 x1 x2 x3 :
  word w x0 -> word w x1 -> word w x2 -> word w x3 -> lane_words w 4 [x0; x1; x2; x3].
Proof. split; auto. Qed.

(** ** The bit permutations *)

(** [Wz_word] with the mask [c] moves bit [k] to [k] xor [n]. *)
Definition Wz_mask_ok (w : nat) (c n : Z) : bool :=
  forallb (fun k => let k := Z.of_nat k in
    if Z.testbit c k then (Z.lxor k n =? k + n) && ((k <? n) || negb (Z.testbit c (k - n)))
    else (Z.lxor k n =? k - n) && (n <=? k) && Z.testbit c (k - n)) (seq 0 w).

Lemma Wz_word_testbit w x c n k :
  Wz_mask_ok w c n = true -> 0 <= n -> 0 <= k < Z.of_nat w ->
  Z.testbit (Wz_word (Z.of_nat w) x c n) k = Z.testbit x (Z.lxor k n).
Proof.
  intros H Hn Hk. pose proof (forallb_seq _ _ H (Z.to_nat k) ltac:(lia)) as E. cbv beta zeta in E.
  rewrite Z2Nat.id in E by lia. unfold Wz_word. autorewrite with zbits. decide_cmp.
  destruct (Z.testbit c k).
  - rewrite andb_true_iff, Z.eqb_eq in E. destruct E as [-> E].
    destruct (Z.ltb_spec k n), (Z.leb_spec n k); try lia; cbn [andb orb negb] in *.
    + now rewrite andb_true_r, orb_false_r.
    + destruct (Z.testbit c (k - n)); [discriminate|]. now rewrite !andb_false_r, andb_true_r, orb_false_r.
  - rewrite !andb_true_iff, Z.eqb_eq, Z.leb_le in E. destruct E as [[-> E] ->].
    decide_cmp. cbn. now rewrite andb_false_r, !andb_true_r.
Qed.

Lemma Wz_word_word w x c n : 0 <= w -> 0 <= n -> word w x -> word w (Wz_word w x c n).
Proof. intros. unfold Wz_word. cbv zeta. auto with words. Qed.

(** Flipping a bit of the position below the word size stays in the word. *)
Lemma flip_in_word w ro q :
  (w = 32 /\ ro < 5 \/ w = 64 /\ ro < 6)%nat -> (q < 128)%nat ->
  Z.of_nat (Nat.lxor q (2 ^ ro)) / Z.of_nat w = Z.of_nat q / Z.of_nat w /\
  Z.of_nat (Nat.lxor q (2 ^ ro)) mod Z.of_nat w = Z.lxor (Z.of_nat q mod Z.of_nat w) (2 ^ Z.of_nat ro).
Proof.
  intros Hw Hq.
  assert (H : forall w m, forallb (fun ro => forallb (fun q =>
      (Z.of_nat (Nat.lxor q (2 ^ ro)) / Z.of_nat w =? Z.of_nat q / Z.of_nat w) &&
      (Z.of_nat (Nat.lxor q (2 ^ ro)) mod Z.of_nat w =?
       Z.lxor (Z.of_nat q mod Z.of_nat w) (2 ^ Z.of_nat ro))) (seq 0 128)) (seq 0 m) = true ->
      (ro < m)%nat -> Z.of_nat (Nat.lxor q (2 ^ ro)) / Z.of_nat w = Z.of_nat q / Z.of_nat w /\
      Z.of_nat (Nat.lxor q (2 ^ ro)) mod Z.of_nat w =
      Z.lxor (Z.of_nat q mod Z.of_nat w) (2 ^ Z.of_nat ro)).
  { intros w' m E Hm. pose proof (forallb_seq _ _ (forallb_seq _ _ E ro Hm) q Hq) as R.
    cbv beta in R. now rewrite andb_true_iff, !Z.eqb_eq in R. }
  destruct Hw as [[-> Hr]|[-> Hr]].
  - apply (H 32%nat 5%nat); [vm_compute; reflexivity|assumption].
  - apply (H 64%nat 6%nat); [vm_compute; reflexivity|assumption].
Qed.

(** Flipping a higher bit exchanges words. *)
Lemma flip_word w ro q :
  (w = 32 /\ (ro = 5 \/ ro = 6) \/ w = 64 /\ ro = 6)%nat -> (q < 128)%nat ->
  Z.to_nat (Z.of_nat (Nat.lxor q (2 ^ ro)) / Z.of_nat w) =
    Nat.lxor (Z.to_nat (Z.of_nat q / Z.of_nat w)) (2 ^ ro / w) /\
  Z.of_nat (Nat.lxor q (2 ^ ro)) mod Z.of_nat w = Z.of_nat q mod Z.of_nat w.
Proof.
  intros Hw Hq.
  assert (H : forallb (fun '(w, ro) => forallb (fun q =>
      (Z.to_nat (Z.of_nat (Nat.lxor q (2 ^ ro)) / Z.of_nat w) =?
       Nat.lxor (Z.to_nat (Z.of_nat q / Z.of_nat w)) (2 ^ ro / w))%nat &&
      (Z.of_nat (Nat.lxor q (2 ^ ro)) mod Z.of_nat w =? Z.of_nat q mod Z.of_nat w)) (seq 0 128))
      [(32, 5); (32, 6); (64, 6)]%nat = true) by (vm_compute; reflexivity).
  rewrite forallb_forall in H. specialize (H (w, ro)). cbv beta iota in H.
  assert (I : In (w, ro) [(32, 5); (32, 6); (64, 6)]%nat)
    by (simpl; destruct Hw as [[-> [-> | ->]]|[-> ->]]; auto).
  pose proof (forallb_seq _ _ (H I) q Hq) as R. cbv beta in R.
  now rewrite andb_true_iff, Nat.eqb_eq, Z.eqb_eq in R.
Qed.

(** A row whose words all go through [Wz_word]. *)
Lemma lane_bit_map_Wz p w ro c x q :
  (w = 32 /\ ro < 5 \/ w = 64 /\ ro < 6)%nat -> Wz_mask_ok w c (2 ^ Z.of_nat ro) = true ->
  (q < 128)%nat -> lane_words (Z.of_nat w) (128 / w) x ->
  lane_bit (Z.of_nat w) (swizzle p (Z.of_nat w))
    (map (fun a => Wz_word (Z.of_nat w) a c (2 ^ Z.of_nat ro)) x) q =
  lane_bit (Z.of_nat w) (swizzle p (Z.of_nat w)) x (Nat.lxor q (2 ^ ro)).
Proof.
  intros Hw Hc Hq [Hl Hx]. unfold lane_bit. destruct (flip_in_word w ro q Hw Hq) as [-> ->].
  assert (Hk : 0 <= Z.of_nat q mod Z.of_nat w < Z.of_nat w) by (apply Z.mod_pos_bound; lia).
  assert (Hi : (Z.to_nat (Z.of_nat q / Z.of_nat w) < length x)%nat).
  { rewrite Hl. destruct Hw as [[-> _]|[-> _]]; [change (128 / 32)%nat with 4%nat; change (Z.of_nat 32) with 32|
      change (128 / 64)%nat with 2%nat; change (Z.of_nat 64) with 64]; dlia. }
  rewrite (nth_indep _ 0 (Wz_word (Z.of_nat w) 0 c (2 ^ Z.of_nat ro))) by now rewrite length_map.
  rewrite (map_nth (fun a => Wz_word (Z.of_nat w) a c (2 ^ Z.of_nat ro))).
  rewrite Wz_word_testbit; [|assumption|lia|].
  - f_equal. rewrite !Z.lxor_assoc. f_equal. apply Z.lxor_comm.
  - apply swizzle_range; [|assumption]. destruct Hw as [[-> _]|[-> _]]; auto.
Qed.

Lemma lane_words_map_Wz w ro c x n :
  0 <= w -> lane_words w n x -> lane_words w n (map (fun a => Wz_word w a c (2 ^ Z.of_nat ro)) x).
Proof.
  intros Hw [Hl Hx]. split; [now rewrite length_map|]. apply Forall_map.
  eapply Forall_impl; [|exact Hx]. intros a Ha. apply Wz_word_word; [lia|lia|exact Ha].
Qed.

(** ** Constants and input *)

Lemma swizzle_be_or_le p w :
  swizzle p w = match order p with SPH_LITTLE_ENDIAN => 7 | _ => w - 1 end.
Proof. reflexivity. Qed.

(** A constant of the source is read, at each position, as the same literal with its most
    significant bit first. *)
Lemma C64e_bit p x k :
  word 64 x -> 0 <= k < 64 ->
  Z.testbit (C64e p x) (Z.lxor k (swizzle p 64)) = Z.testbit x (Z.lxor k 63).
Proof.
  intros Hx Hk. unfold C64e, swizzle. destruct (order p); [|reflexivity|reflexivity].
  each_bit 64%nat k Hk; cbn [Z.lxor Pos.lxor Z.of_N Pos.Ndouble Pos.Nsucc_double]; bit_compute;
    high_bits 64 x; reflexivity.
Qed.

Lemma C32e_bit p x k :
  word 32 x -> 0 <= k < 32 ->
  Z.testbit (C32e p x) (Z.lxor k (swizzle p 32)) = Z.testbit x (Z.lxor k 31).
Proof.
  intros Hx Hk. unfold C32e, swizzle. destruct (order p); [|reflexivity|reflexivity].
  each_bit 32%nat k Hk; cbn [Z.lxor Pos.lxor Z.of_N Pos.Ndouble Pos.Nsucc_double]; bit_compute;
    high_bits 32 x; reflexivity.
Qed.

Lemma C64e_word p x : word 64 x -> word 64 (C64e p x).
Proof.
  intros Hx. unfold C64e. destruct (order p); try assumption.
  repeat (apply lor_word; [lia| |]); [now apply shiftr_word|..];
    (apply land_mask_word; [lia|now compute]).
Qed.

Lemma C32e_word p x : word 32 x -> word 32 (C32e p x).
Proof.
  intros Hx. unfold C32e. destruct (order p); try assumption.
  repeat (apply lor_word; [lia| |]); [now apply shiftr_word|..];
    (apply land_mask_word; [lia|now compute]).
Qed.

(** So a row of constants is the row of its literals. *)
Lemma lane_bit_literals w s f x q :
  0 < w -> f 0 = 0 -> Forall (word w) x ->
  (forall v k, word w v -> 0 <= k < w -> Z.testbit (f v) (Z.lxor k s) = Z.testbit v (Z.lxor k (w - 1))) ->
  lane_bit w s (map f x) q = lane_bit w (w - 1) x q.
Proof.
  intros Hw H0 Hx Hf. unfold lane_bit. rewrite <- H0, map_nth, H0. apply Hf.
  - apply Forall_nth'; [assumption|]. unfold word. lia.
  - apply Z.mod_pos_bound. lia.
Qed.

Lemma C64e_0 p : C64e p 0 = 0.
Proof. unfold C64e. now destruct (order p). Qed.
Lemma C32e_0 p : C32e p 0 = 0.
Proof. unfold C32e. now destruct (order p). Qed.

Lemma C_wide_words : Forall (word 64) C_wide.
Proof. apply wordb_Forall. vm_compute. reflexivity. Qed.
Lemma C_narrow_words : Forall (word 32) C_narrow.
Proof. apply wordb_Forall. vm_compute. reflexivity. Qed.

(** The literals of [Ceven] and [Codd]. *)
Definition literals (l : list Z) (n r o : nat) : lane :=
  map (fun i => nth (2 * n * r + (o + i)) l 0) (seq 0 n).

Lemma literals_words w l n r o : 0 < w -> Forall (word w) l -> Forall (word w) (literals l n r o).
Proof.
  intros Hw Hl. apply Forall_map, Forall_forall. intros i _. apply Forall_nth'; [assumption|].
  unfold word. lia.
Qed.

Lemma literals_map f l n r o :
  f 0 = 0 -> map f (literals l n r o) = map (fun i => nth (2 * n * r + (o + i)) (map f l) 0) (seq 0 n).
Proof.
  intros H0. unfold literals. rewrite map_map. apply map_ext. intros i. now rewrite <- H0, map_nth, H0.
Qed.

Lemma Wide_literals p r :
  Wide.Ceven p r = map (C64e p) (literals C_wide 2 r 0) /\
  Wide.Codd p r = map (C64e p) (literals C_wide 2 r 2).
Proof. rewrite !literals_map by apply C64e_0. split; reflexivity. Qed.

Lemma Narrow_literals p r :
  Narrow.Ceven p r = map (C32e p) (literals C_narrow 4 r 0) /\
  Narrow.Codd p r = map (C32e p) (literals C_narrow 4 r 4).
Proof. rewrite !literals_map by apply C32e_0. split; reflexivity. Qed.

Lemma Wide_const_ok p r :
  (r < 42)%nat -> lane_words 64 2 (Wide.Ceven p r) /\ lane_words 64 2 (Wide.Codd p r).
Proof.
  intros _. destruct (Wide_literals p r) as [-> ->].
  split; (split; [reflexivity|]); apply Forall_map; (eapply Forall_impl; [apply C64e_word|]);
    apply literals_words; (lia || apply C_wide_words).
Qed.

Lemma Narrow_const_ok p r :
  (r < 42)%nat -> lane_words 32 4 (Narrow.Ceven p r) /\ lane_words 32 4 (Narrow.Codd p r).
Proof.
  intros _. destruct (Narrow_literals p r) as [-> ->].
  split; (split; [reflexivity|]); apply Forall_map; (eapply Forall_impl; [apply C32e_word|]);
    apply literals_words; (lia || apply C_narrow_words).
Qed.

(** The tables are the constants the specification generates. *)
Fixpoint constants_check (bit : lane -> nat -> bool) (Ceven Codd : nat -> lane)
    (n r : nat) (sl : list (bool * nat)) (rc : list Z) : bool :=
  match n with
  | O => true
  | S n' =>
      (let ce := Ceven r in
       let co := Codd r in
       forallb (fun i => let '(o, q) := nth i sl (false, 0%nat) in
         Bool.eqb (bit (if (o : bool) then co else ce) q) (JHSpec.constant_bit rc i)) (seq 0 256)) &&
      constants_check bit Ceven Codd n' (S r) (next_slots (r mod 7) sl) (JHSpec.next_constant rc)
  end.

Lemma constants_check_ok bit Ceven Codd n r k i :
  constants_check bit Ceven Codd n r (slots r) (JHSpec.constant r) = true ->
  (k < n)%nat -> (i < 256)%nat ->
  let '(o, q) := slot (r + k) i in
  bit (if (o : bool) then Codd (r + k)%nat else Ceven (r + k)%nat) q =
  JHSpec.constant_bit (JHSpec.constant (r + k)) i.
Proof.
  revert r k. induction n as [|n IH]; intros r k H Hk Hi; [lia|].
  cbn [constants_check] in H. apply andb_true_iff in H as [H H'].
  destruct k as [|k].
  - rewrite Nat.add_0_r. pose proof (forallb_seq _ _ H i Hi) as E. cbv beta in E.
    unfold slot. destruct (nth i (slots r) (false, 0%nat)) as [o q]. now apply eqb_prop.
  - rewrite <- Nat.add_succ_comm. apply IH; [exact H'|lia|assumption].
Qed.

Lemma Wide_literals_ok :
  constants_check (lane_bit 64 63) (fun r => literals C_wide 2 r 0) (fun r => literals C_wide 2 r 2)
    42 0 (slots 0) (JHSpec.constant 0) = true.
Proof. vm_compute. reflexivity. Qed.

Lemma Narrow_literals_ok :
  constants_check (lane_bit 32 31) (fun r => literals C_narrow 4 r 0) (fun r => literals C_narrow 4 r 4)
    42 0 (slots 0) (JHSpec.constant 0) = true.
Proof. vm_compute. reflexivity. Qed.

Lemma Wide_constants p r i :
  (r < 42)%nat -> (i < 256)%nat ->
  let '(o, q) := slot r i in
  lane_bit 64 (swizzle p 64) (if (o : bool) then Wide.Codd p r else Wide.Ceven p r) q =
  JHSpec.constant_bit (JHSpec.constant r) i.
Proof.
  intros Hr Hi. pose proof (constants_check_ok _ _ _ 42 0 r i Wide_literals_ok Hr Hi) as E.
  cbn [Nat.add] in E. destruct (slot r i) as [o q]. rewrite <- E.
  destruct (Wide_literals p r) as [-> ->].
  destruct o; apply lane_bit_literals;
    auto using C64e_0, C64e_bit, literals_words, C_wide_words with zarith.
Qed.

Lemma Narrow_constants p r i :
  (r < 42)%nat -> (i < 256)%nat ->
  let '(o, q) := slot r i in
  lane_bit 32 (swizzle p 32) (if (o : bool) then Narrow.Codd p r else Narrow.Ceven p r) q =
  JHSpec.constant_bit (JHSpec.constant r) i.
Proof.
  intros Hr Hi. pose proof (constants_check_ok _ _ _ 42 0 r i Narrow_literals_ok Hr Hi) as E.
  cbn [Nat.add] in E. destruct (slot r i) as [o q]. rewrite <- E.
  destruct (Narrow_literals p r) as [-> ->].
  destruct o; apply lane_bit_literals;
    auto using C32e_0, C32e_bit, literals_words, C_narrow_words with zarith.
Qed.

(** A position in a word, as a byte and a bit of the byte. *)
Lemma position_byte w k :
  w = 32 \/ w = 64 -> 0 <= k < w ->
  Z.lxor k 7 / 8 = k / 8 /\ Z.lxor k 7 mod 8 = 7 - k mod 8 /\
  0 <= Z.lxor k 7 < w /\ Z.lxor k (w - 1) = w - 1 - k.
Proof.
  intros Hw Hk.
  assert (H : forallb (fun w => forallb (fun k => let k := Z.of_nat k in
      (Z.lxor k 7 / 8 =? k / 8) && (Z.lxor k 7 mod 8 =? 7 - k mod 8) && (0 <=? Z.lxor k 7) &&
      (Z.lxor k 7 <? w) && (Z.lxor k (w - 1) =? w - 1 - k)) (seq 0 (Z.to_nat w))) [32; 64] = true)
    by (vm_compute; reflexivity).
  rewrite forallb_forall in H. specialize (H w ltac:(simpl; destruct Hw; auto)). cbv beta in H.
  pose proof (forallb_seq _ _ H (Z.to_nat k) ltac:(lia)) as E. cbv beta zeta in E.
  rewrite Z2Nat.id in E by lia.
  rewrite !andb_true_iff, !Z.eqb_eq, Z.leb_le, Z.ltb_lt in E. lia.
Qed.

(** Bit [k] of a loaded word, from the most significant end of its bytes. *)
Lemma dec64e_aligned_bit p src k :
  platform_ok p = true -> bytes src -> length src = 8%nat -> 0 <= k < 64 ->
  Z.testbit (dec64e_aligned p src) (Z.lxor k (swizzle p 64)) =
  msb_first (nth (Z.to_nat (k / 8)) src 0) (Z.to_nat (k mod 8)).
Proof.
  intros Hp Hb Hl Hk. destruct (position_byte 64 k (or_intror eq_refl) Hk) as (E1 & E2 & E3 & E4).
  unfold dec64e_aligned, msb_first, swizzle.
  destruct (order p).
  1: rewrite sph_dec64le_aligned_load, le_load_testbit, E1, E2 by (assumption || lia);
     f_equal; dlia.
  all: rewrite sph_dec64be_aligned_load, E4, be_load_testbit by (assumption || lia);
       f_equal; [f_equal; dlia|dlia].
Qed.

Lemma dec32e_aligned_bit p src k :
  platform_ok p = true -> bytes src -> length src = 4%nat -> 0 <= k < 32 ->
  Z.testbit (dec32e_aligned p src) (Z.lxor k (swizzle p 32)) =
  msb_first (nth (Z.to_nat (k / 8)) src 0) (Z.to_nat (k mod 8)).
Proof.
  intros Hp Hb Hl Hk. destruct (position_byte 32 k (or_introl eq_refl) Hk) as (E1 & E2 & E3 & E4).
  unfold dec32e_aligned, msb_first, swizzle.
  destruct (order p).
  1: rewrite sph_dec32le_aligned_load, le_load_testbit, E1, E2 by (assumption || lia);
     f_equal; dlia.
  all: rewrite sph_dec32be_aligned_load, E4, be_load_testbit by (assumption || lia);
       f_equal; [f_equal; dlia|dlia].
Qed.

Lemma dec64e_aligned_word p src :
  platform_ok p = true -> bytes src -> length src = 8%nat -> word 64 (dec64e_aligned p src).
Proof.
  intros Hp Hb Hl. unfold dec64e_aligned. destruct (order p);
    rewrite ?sph_dec64le_aligned_load, ?sph_dec64be_aligned_load by (assumption || lia);
    [apply (le_load_word 8)|apply (be_load_word 8)..]; assumption.
Qed.

Lemma dec32e_aligned_word p src :
  platform_ok p = true -> bytes src -> length src = 4%nat -> word 32 (dec32e_aligned p src).
Proof.
  intros Hp Hb Hl. unfold dec32e_aligned. destruct (order p);
    rewrite ?sph_dec32le_aligned_load, ?sph_dec32be_aligned_load by (assumption || lia);
    [apply (le_load_word 4)|apply (be_load_word 4)..]; assumption.
Qed.

(** A row read from a block, word [i] from the [w / 8] bytes at [16 k + i w / 8]. *)
Lemma input_lane_bit w p (dec : list Z -> Z) buf k q :
  w = 32 \/ w = 64 ->
  (forall src k, bytes src -> length src = Z.to_nat (w / 8) -> 0 <= k < w ->
    Z.testbit (dec src) (Z.lxor k (swizzle p w)) =
    msb_first (nth (Z.to_nat (k / 8)) src 0) (Z.to_nat (k mod 8))) ->
  bytes buf -> (64 <= length buf)%nat -> (k < 4)%nat -> (q < 128)%nat ->
  lane_bit w (swizzle p w)
    (map (fun i => dec (slice buf (16 * k + Z.to_nat (w / 8) * i) (Z.to_nat (w / 8))))
       (seq 0 (Z.to_nat (128 / w)))) q =
  nth (128 * k + q) (JHSpec.bits_of_bytes (firstn 64 buf)) false.
Proof.
  intros Hw Hdec Hb Hl Hk Hq. unfold lane_bit.
  set (i := Z.to_nat (Z.of_nat q / w)). set (j := Z.of_nat q mod w).
  assert (Hi : (i < Z.to_nat (128 / w))%nat /\ 0 <= j < w /\ Z.of_nat q = w * Z.of_nat i + j).
  { unfold i, j. destruct Hw as [-> | ->]; dlia. }
  destruct Hi as (Hi & Hj & Eq). clearbody i j.
  assert (W8 : (Z.to_nat (w / 8) * i + Z.to_nat (w / 8) <= 16)%nat /\ 0 <= w / 8 /\ w = 8 * (w / 8)).
  { destruct Hw as [-> | ->]; [change (Z.to_nat (128 / 32)) with 4%nat in Hi|
      change (Z.to_nat (128 / 64)) with 2%nat in Hi]; cbn; lia. }
  destruct W8 as (W8 & W0 & Ew).
  rewrite nth_map_seq, Hdec by (assumption || apply Forall_slice, Hb || apply length_slice; lia).
  rewrite nth_bits_of by (rewrite length_firstn; lia).
  assert (J : 0 <= j / 8 < w / 8) by (revert Ew Hj; clear; generalize (w / 8); intros; dlia).
  rewrite nth_slice by lia.
  assert (((128 * k + q) / 8)%nat = (16 * k + Z.to_nat (w / 8) * i + Z.to_nat (j / 8))%nat)
    as D.
  { clear - Hw Eq Hj. destruct Hw as [-> | ->].
    - change (Z.to_nat (32 / 8)) with 4%nat. dlia.
    - change (Z.to_nat (64 / 8)) with 8%nat. dlia. }
  rewrite nth_firstn' by (rewrite D; lia).
  f_equal; [f_equal; lia|].
  clear - Hw Eq Hj. destruct Hw as [-> | ->]; dlia.
Qed.

(** ** The instances of the interface *)

Section Instances.
  Variable p : platform.
  Hypothesis Hp : platform_ok p = true.

Abbreviation bit64 := (lane_bit 64 (swizzle p 64)).
Abbreviation bit32 := (lane_bit 32 (swizzle p 32)).

Lemma Wide_S_ok x0 x1 x2 x3 c :
  lane_words 64 2 x0 -> lane_words 64 2 x1 -> lane_words 64 2 x2 -> lane_words 64 2 x3 ->
  lane_words 64 2 c ->
  let '(y0, y1, y2, y3) := Wide.S x0 x1 x2 x3 c in
  (lane_words 64 2 y0 /\ lane_words 64 2 y1 /\ lane_words 64 2 y2 /\ lane_words 64 2 y3) /\
  forall q, (q < 128)%nat ->
    sb_bits (bit64 c q) (bit64 x0 q) (bit64 x1 q) (bit64 x2 q) (bit64 x3 q) =
    (bit64 y0 q, bit64 y1 q, bit64 y2 q, bit64 y3 q).
Proof.
  intros K0 K1 K2 K3 K4. wide_row x0. wide_row x1. wide_row x2. wide_row x3. wide_row c.
  unfold Wide.S, Wide.hi, Wide.lo, word_of. cbn [nth].
  pose proof (Sb_testbit 64 x0h x1h x2h x3h ch) as Eh.
  pose proof (Sb_word 64 x0h x1h x2h x3h ch ltac:(lia)) as Wh.
  destruct (Sb 64 x0h x1h x2h x3h ch) as [[[y0h y1h] y2h] y3h].
  pose proof (Sb_testbit 64 x0l x1l x2l x3l cl) as El.
  pose proof (Sb_word 64 x0l x1l x2l x3l cl ltac:(lia)) as Wl.
  destruct (Sb 64 x0l x1l x2l x3l cl) as [[[y0l y1l] y2l] y3l].
  destruct Wh as (? & ? & ? & ?); try assumption. destruct Wl as (? & ? & ? & ?); try assumption.
  split; [splits; now apply lane_words_2|].
  intros q Hq. wide_bits p q Hq; auto.
Qed.

Lemma Wide_L_ok x0 x1 x2 x3 x4 x5 x6 x7 :
  lane_words 64 2 x0 -> lane_words 64 2 x1 -> lane_words 64 2 x2 -> lane_words 64 2 x3 ->
  lane_words 64 2 x4 -> lane_words 64 2 x5 -> lane_words 64 2 x6 -> lane_words 64 2 x7 ->
  let '(y0, y1, y2, y3, y4, y5, y6, y7) := Wide.L x0 x1 x2 x3 x4 x5 x6 x7 in
  ((lane_words 64 2 y0 /\ lane_words 64 2 y1 /\ lane_words 64 2 y2 /\ lane_words 64 2 y3) /\
   (lane_words 64 2 y4 /\ lane_words 64 2 y5 /\ lane_words 64 2 y6 /\ lane_words 64 2 y7)) /\
  forall q, (q < 128)%nat ->
    lb_bits (bit64 x0 q) (bit64 x1 q) (bit64 x2 q) (bit64 x3 q)
            (bit64 x4 q) (bit64 x5 q) (bit64 x6 q) (bit64 x7 q) =
    (bit64 y0 q, bit64 y1 q, bit64 y2 q, bit64 y3 q, bit64 y4 q, bit64 y5 q, bit64 y6 q, bit64 y7 q).
Proof.
  intros K0 K1 K2 K3 K4 K5 K6 K7. wide_row x0. wide_row x1. wide_row x2. wide_row x3.
  wide_row x4. wide_row x5. wide_row x6. wide_row x7.
  unfold Wide.L, Wide.hi, Wide.lo, word_of. cbn [nth].
  pose proof (Lb_testbit x0h x1h x2h x3h x4h x5h x6h x7h) as Eh.
  pose proof (Lb_word 64 x0h x1h x2h x3h x4h x5h x6h x7h ltac:(lia)) as Wh.
  destruct (Lb x0h x1h x2h x3h x4h x5h x6h x7h) as [[[[[[[y0h y1h] y2h] y3h] y4h] y5h] y6h] y7h].
  pose proof (Lb_testbit x0l x1l x2l x3l x4l x5l x6l x7l) as El.
  pose proof (Lb_word 64 x0l x1l x2l x3l x4l x5l x6l x7l ltac:(lia)) as Wl.
  destruct (Lb x0l x1l x2l x3l x4l x5l x6l x7l) as [[[[[[[y0l y1l] y2l] y3l] y4l] y5l] y6l] y7l].
  destruct Wh as ((? & ? & ? & ?) & (? & ? & ? & ?)); try assumption.
  destruct Wl as ((? & ? & ? & ?) & (? & ? & ? & ?)); try assumption.
  split; [splits; now apply lane_words_2|].
  intros q Hq. wide_bits p q Hq; auto.
Qed.

Lemma Narrow_S_ok x0 x1 x2 x3 c :
  lane_words 32 4 x0 -> lane_words 32 4 x1 -> lane_words 32 4 x2 -> lane_words 32 4 x3 ->
  lane_words 32 4 c ->
  let '(y0, y1, y2, y3) := Narrow.S x0 x1 x2 x3 c in
  (lane_words 32 4 y0 /\ lane_words 32 4 y1 /\ lane_words 32 4 y2 /\ lane_words 32 4 y3) /\
  forall q, (q < 128)%nat ->
    sb_bits (bit32 c q) (bit32 x0 q) (bit32 x1 q) (bit32 x2 q) (bit32 x3 q) =
    (bit32 y0 q, bit32 y1 q, bit32 y2 q, bit32 y3 q).
Proof.
  intros K0 K1 K2 K3 K4. narrow_row x0. narrow_row x1. narrow_row x2. narrow_row x3. narrow_row c.
  unfold Narrow.S, Narrow.w3, Narrow.w2, Narrow.w1, Narrow.w0, word_of. cbn [nth].
  pose proof (Sb_testbit 32) as E. pose proof (fun a b c d e => Sb_word 32 a b c d e ltac:(lia)) as W.
  repeat match goal with
  | |- context [Sb 32 ?a ?b ?c ?d ?e] =>
      let E' := fresh "E" in let W' := fresh "W" in
      pose proof (E a b c d e) as E'; pose proof (W a b c d e) as W';
      destruct (Sb 32 a b c d e) as [[[? ?] ?] ?];
      destruct W' as (? & ? & ? & ?); try assumption
  end.
  clear E W. split; [splits; now apply lane_words_4|].
  intros q Hq. narrow_bits p q Hq; auto.
Qed.

Lemma Narrow_L_ok x0 x1 x2 x3 x4 x5 x6 x7 :
  lane_words 32 4 x0 -> lane_words 32 4 x1 -> lane_words 32 4 x2 -> lane_words 32 4 x3 ->
  lane_words 32 4 x4 -> lane_words 32 4 x5 -> lane_words 32 4 x6 -> lane_words 32 4 x7 ->
  let '(y0, y1, y2, y3, y4, y5, y6, y7) := Narrow.L x0 x1 x2 x3 x4 x5 x6 x7 in
  ((lane_words 32 4 y0 /\ lane_words 32 4 y1 /\ lane_words 32 4 y2 /\ lane_words 32 4 y3) /\
   (lane_words 32 4 y4 /\ lane_words 32 4 y5 /\ lane_words 32 4 y6 /\ lane_words 32 4 y7)) /\
  forall q, (q < 128)%nat ->
    lb_bits (bit32 x0 q) (bit32 x1 q) (bit32 x2 q) (bit32 x3 q)
            (bit32 x4 q) (bit32 x5 q) (bit32 x6 q) (bit32 x7 q) =
    (bit32 y0 q, bit32 y1 q, bit32 y2 q, bit32 y3 q, bit32 y4 q, bit32 y5 q, bit32 y6 q, bit32 y7 q).
Proof.
  intros K0 K1 K2 K3 K4 K5 K6 K7. narrow_row x0. narrow_row x1. narrow_row x2. narrow_row x3.
  narrow_row x4. narrow_row x5. narrow_row x6. narrow_row x7.
  unfold Narrow.L, Narrow.w3, Narrow.w2, Narrow.w1, Narrow.w0, word_of. cbn [nth].
  pose proof Lb_testbit as E.
  pose proof (fun a b c d e f g h => Lb_word 32 a b c d e f g h ltac:(lia)) as W.
  repeat match goal with
  | |- context [Lb ?a ?b ?c ?d ?e ?f ?g ?h] =>
      let E' := fresh "E" in let W' := fresh "W" in
      pose proof (E a b c d e f g h) as E'; pose proof (W a b c d e f g h) as W';
      destruct (Lb a b c d e f g h) as [[[[[[[? ?] ?] ?] ?] ?] ?] ?];
      destruct W' as ((? & ? & ? & ?) & (? & ? & ? & ?)); try assumption
  end.
  clear E W. split; [splits; now apply lane_words_4|].
  intros q Hq. narrow_bits p q Hq; auto.
Qed.

Lemma Wide_W_ok ro x :
  (ro < 7)%nat -> lane_words 64 2 x ->
  lane_words 64 2 (Wide.W ro x) /\
  forall q, (q < 128)%nat -> bit64 (Wide.W ro x) q = bit64 x (Nat.lxor q (2 ^ ro)).
Proof.
  intros Hro Hx.
  assert (Hz : forall c, (ro < 6)%nat -> Wz_mask_ok 64 c (2 ^ Z.of_nat ro) = true ->
    lane_words 64 2 (Wide.Wz x c (2 ^ Z.of_nat ro)) /\
    forall q, (q < 128)%nat ->
      bit64 (Wide.Wz x c (2 ^ Z.of_nat ro)) q = bit64 x (Nat.lxor q (2 ^ ro))).
  { intros c H6 Hc. replace (Wide.Wz x c (2 ^ Z.of_nat ro)) with
      (map (fun a => Wz_word 64 a c (2 ^ Z.of_nat ro)) x) by (wide_row x; reflexivity).
    split; [apply lane_words_map_Wz; [lia|assumption]|].
    intros q Hq. apply (lane_bit_map_Wz p 64); auto. }
  do 6 (destruct ro as [|ro]; [apply Hz; [lia|vm_compute; reflexivity]|]).
  destruct ro as [|ro]; [|lia]. clear Hz.
  split; [wide_row x; now apply lane_words_2|].
  intros q Hq. unfold lane_bit.
  destruct (flip_word 64 6 q ltac:(auto) Hq) as [E1 E2].
  change (Z.of_nat 64) with 64 in *. rewrite E1, E2. wide_row x.
  destruct (wide_position p q Hq) as [_ [-> | ->]]; reflexivity.
Qed.

Lemma Narrow_W_ok ro x :
  (ro < 7)%nat -> lane_words 32 4 x ->
  lane_words 32 4 (Narrow.W ro x) /\
  forall q, (q < 128)%nat -> bit32 (Narrow.W ro x) q = bit32 x (Nat.lxor q (2 ^ ro)).
Proof.
  intros Hro Hx.
  assert (Hz : forall c, (ro < 5)%nat -> Wz_mask_ok 32 c (2 ^ Z.of_nat ro) = true ->
    lane_words 32 4 (Narrow.Wz x c (2 ^ Z.of_nat ro)) /\
    forall q, (q < 128)%nat ->
      bit32 (Narrow.Wz x c (2 ^ Z.of_nat ro)) q = bit32 x (Nat.lxor q (2 ^ ro))).
  { intros c H5 Hc. replace (Narrow.Wz x c (2 ^ Z.of_nat ro)) with
      (map (fun a => Wz_word 32 a c (2 ^ Z.of_nat ro)) x) by (narrow_row x; reflexivity).
    split; [apply lane_words_map_Wz; [lia|assumption]|].
    intros q Hq. apply (lane_bit_map_Wz p 32); auto. }
  do 5 (destruct ro as [|ro]; [apply Hz; [lia|vm_compute; reflexivity]|]). clear Hz.
  split; [narrow_row x; do 2 (destruct ro as [|ro]; [now apply lane_words_4|]); lia|].
  intros q Hq. unfold lane_bit. remember (S (S (S (S (S ro))))) as r eqn:Er.
  destruct (flip_word 32 r q ltac:(lia) Hq) as [E1 E2].
  change (Z.of_nat 32) with 32 in *. rewrite E1, E2, Er. narrow_row x.
  do 2 (destruct ro as [|ro];
    [destruct (narrow_position p q Hq) as [_ [-> | [-> | [-> | ->]]]]; reflexivity|]). lia.
Qed.

Lemma Wide_xor_ok x m :
  lane_words 64 2 x -> lane_words 64 2 m ->
  lane_words 64 2 (xor_lane x m) /\
  forall q, (q < 128)%nat -> bit64 (xor_lane x m) q = xorb (bit64 x q) (bit64 m q).
Proof.
  intros Hx Hm. wide_row x. wide_row m. cbn [xor_lane combine map].
  split; [apply lane_words_2; auto with words|].
  intros q Hq. wide_bits p q Hq; apply Z.lxor_spec.
Qed.

Lemma Narrow_xor_ok x m :
  lane_words 32 4 x -> lane_words 32 4 m ->
  lane_words 32 4 (xor_lane x m) /\
  forall q, (q < 128)%nat -> bit32 (xor_lane x m) q = xorb (bit32 x q) (bit32 m q).
Proof.
  intros Hx Hm. narrow_row x. narrow_row m. cbn [xor_lane combine map].
  split; [apply lane_words_4; auto with words|].
  intros q Hq. narrow_bits p q Hq; apply Z.lxor_spec.
Qed.

Lemma Wide_input_ok buf k :
  bytes buf -> (64 <= length buf)%nat -> (k < 4)%nat ->
  lane_words 64 2 (Wide.input_row p buf k) /\
  forall q, (q < 128)%nat ->
    bit64 (Wide.input_row p buf k) q = nth (128 * k + q) (JHSpec.bits_of_bytes (firstn 64 buf)) false.
Proof.
  intros Hb Hl Hk. split.
  - apply lane_words_2; apply dec64e_aligned_word;
      (assumption || (now apply Forall_slice) || (apply length_slice; lia)).
  - intros q Hq. rewrite <- (input_lane_bit 64 p (dec64e_aligned p) buf k q); auto.
    + unfold Wide.input_row. change (Z.to_nat (128 / 64)) with 2%nat.
      change (Z.to_nat (64 / 8)) with 8%nat. cbn [seq map].
      now rewrite Nat.mul_0_r, Nat.add_0_r.
    + intros. now apply dec64e_aligned_bit.
Qed.

Lemma Narrow_input_ok buf k :
  bytes buf -> (64 <= length buf)%nat -> (k < 4)%nat ->
  lane_words 32 4 (Narrow.input_row p buf k) /\
  forall q, (q < 128)%nat ->
    bit32 (Narrow.input_row p buf k) q =
    nth (128 * k + q) (JHSpec.bits_of_bytes (firstn 64 buf)) false.
Proof.
  intros Hb Hl Hk. split.
  - apply lane_words_4; apply dec32e_aligned_word;
      (assumption || (now apply Forall_slice) || (apply length_slice; lia)).
  - intros q Hq. rewrite <- (input_lane_bit 32 p (dec32e_aligned p) buf k q); auto.
    + unfold Narrow.input_row. change (Z.to_nat (128 / 32)) with 4%nat.
      change (Z.to_nat (32 / 8)) with 4%nat. cbn [seq map].
      now rewrite Nat.mul_0_r, Nat.add_0_r.
    + intros. now apply dec32e_aligned_bit.
Qed.

#[export] Instance Wide_laws : JhLaws (Wide.words p) :=
  @Build_JhLaws (Wide.words p) bit64 (lane_words 64 2) Wide_S_ok Wide_L_ok Wide_W_ok
    (Wide_const_ok p) (Wide_constants p)
    Wide_xor_ok Wide_input_ok.

#[export] Instance Narrow_laws : JhLaws (Narrow.words p) :=
  @Build_JhLaws (Narrow.words p) bit32 (lane_words 32 4) Narrow_S_ok Narrow_L_ok Narrow_W_ok
    (Narrow_const_ok p) (Narrow_constants p)
    Narrow_xor_ok Narrow_input_ok.
End Instances.
