(* ===== verification/JhHash.v ===== *)
(** * jh.c computes JH

    The instances of the interfaces for the stored state and the block
    counter, the configurations jh.c can be compiled in, and the theorems on
    the functions of sph_jh.h: in every configuration they compute the hash
    of the specification, of any message, cut in any pieces. *)

From Stdlib Require Import ZArith List Lia Bool.
From S2P Require Import Prelude BitStrings SphTypes SphTheorems Stream JhTables Jh JhSpec JhProof JhMode JhLanes.
Import ListNotations.

(** ** The block counter *)

Definition counter_ok (c : counter) : Prop :=
  word 32 (block_count_high c) /\ word 32 (block_count_low c).
Definition counter_val (c : counter) : Z := 2 ^ 32 * block_count_high c + block_count_low c.

Section Counters.
  Variable p : platform.
  Hypothesis Hp : platform_ok p = true.

(** A 128-bit number stored as two or four words. *)
Lemma be_store_app m n v :
  be_store (m + n) v = be_store m (v >> (8 * Z.of_nat n)) ++ be_store n v.
Proof.
  apply (nth_ext' _ _ 0); [now rewrite length_app, !length_be_store|].
  rewrite length_be_store. intros i Hi. rewrite nth_be_store by assumption.
  destruct (Nat.lt_ge_cases i m).
  - rewrite app_nth1, nth_be_store by (rewrite ?length_be_store; lia).
    rewrite Z.shiftr_shiftr by lia. do 2 f_equal. lia.
  - rewrite app_nth2, length_be_store, nth_be_store by (rewrite ?length_be_store; lia).
    do 4 f_equal. lia.
Qed.

Lemma be_store_trunc n v : be_store n (trunc (8 * Z.of_nat n) v) = be_store n v.
Proof.
  apply (nth_ext' _ _ 0); [now rewrite !length_be_store|].
  rewrite length_be_store. intros i Hi. rewrite !nth_be_store by assumption.
  bitwise k Hk. destruct (Z.ltb_spec k 8); [|reflexivity]. decide_cmp. reflexivity.
Qed.

(** The parts of the bit length: [m] bits are in the unfinished block. *)
Lemma length_high c m k : 0 <= m < 512 -> 9 <= k -> (512 * c + m) >> k = c >> (k - 9).
Proof.
  intros Hm Hk. replace k with (9 + (k - 9)) at 1 by lia.
  rewrite <- Z.shiftr_shiftr by lia. f_equal. rewrite Z.shiftr_div_pow2 by lia.
  change (2 ^ 9) with 512. dlia.
Qed.

Lemma length_low w c m : 0 <= w -> trunc w (trunc w (c << 9) + m) = trunc w (512 * c + m).
Proof.
  intros. rewrite !trunc_mod, Z.shiftl_mul_pow2, Z.add_mod_idemp_l by lia. f_equal. lia.
Qed.

Lemma buffered_bits ptr n :
  (ptr < 64)%nat -> 0 <= n < 8 ->
  0 <= (Z.of_nat ptr << 3) + n < 512 /\ 8 * Z.of_nat ptr + n = (Z.of_nat ptr << 3) + n.
Proof. intros. rewrite Z.shiftl_mul_pow2 by lia. lia. Qed.

Lemma count64_length_ok addr c ptr n :
  word 64 c -> (ptr < 64)%nat -> 0 <= n < 8 ->
  count64_length p addr c ptr n = be_store 16 (512 * c + 8 * Z.of_nat ptr + n).
Proof.
  intros Hc Hptr Hn. unfold count64_length. change SPH_T64 with (trunc 64).
  rewrite !sph_enc64be_store by (assumption || now apply trunc_word).
  destruct (buffered_bits ptr n Hptr Hn) as [Hm Em]. rewrite <- !Z.add_assoc, Em.
  rewrite (be_store_app 8 8), <- (be_store_trunc 8 (_ >> _)), <- (be_store_trunc 8 (512 * c + _)).
  rewrite length_high, length_low by lia. reflexivity.
Qed.

Lemma count32_length_ok addr c ptr n :
  counter_ok c -> (ptr < 64)%nat -> 0 <= n < 8 ->
  count32_length p addr c ptr n = be_store 16 (512 * counter_val c + 8 * Z.of_nat ptr + n).
Proof.
  intros [Hh Hl] Hptr Hn. unfold count32_length. change SPH_T32 with (trunc 32).
  rewrite !sph_enc32be_store by (assumption || (now apply trunc_word) || now apply word_0).
  destruct (buffered_bits ptr n Hptr Hn) as [Hm Em]. rewrite <- !Z.add_assoc, Em.
  rewrite (be_store_app 4 12), (be_store_app 4 8), (be_store_app 4 4).
  rewrite <- (be_store_trunc 4 (_ >> (8 * Z.of_nat 12))), <- (be_store_trunc 4 (_ >> (8 * Z.of_nat 8))),
    <- (be_store_trunc 4 (_ >> (8 * Z.of_nat 4))), <- (be_store_trunc 4 (512 * _ + _)).
  rewrite !length_high, length_low by lia.
  change (8 * Z.of_nat 12 - 9) with 87. change (8 * Z.of_nat 8 - 9) with 55.
  change (8 * Z.of_nat 4 - 9) with 23. change (8 * Z.of_nat 4) with 32.
  destruct c as [h l]. unfold counter_val. cbn [block_count_high block_count_low] in *.
  assert (E55 : (2 ^ 32 * h + l) >> 55 = h >> 23).
  { change 55 with (32 + 23). rewrite <- Z.shiftr_shiftr by lia. f_equal.
    rewrite Z.shiftr_div_pow2 by lia. unfold word in Hl. dlia. }
  assert (E87 : (2 ^ 32 * h + l) >> 87 = 0).
  { change 87 with (55 + 32). rewrite <- Z.shiftr_shiftr, E55, Z.shiftr_shiftr by lia.
    rewrite Z.shiftr_div_pow2 by lia. apply Z.div_small. unfold word in Hh. lia. }
  rewrite E55, E87. change (trunc 32 0) with 0. do 2 f_equal.
  assert (E23 : trunc 32 (trunc 32 (l >> 23) + trunc 32 (h << 9)) = trunc 32 ((2 ^ 32 * h + l) >> 23)).
  { rewrite !trunc_mod, !Z.shiftr_div_pow2, Z.shiftl_mul_pow2, <- Z.add_mod by lia. f_equal.
    clear; dlia. }
  assert (E0 : trunc 32 (512 * l + ((Z.of_nat ptr << 3) + n)) =
               trunc 32 (512 * (2 ^ 32 * h + l) + ((Z.of_nat ptr << 3) + n))).
  { rewrite !trunc_mod by lia. generalize ((Z.of_nat ptr << 3) + n). intros m.
    replace (512 * (2 ^ 32 * h + l) + m) with (512 * l + m + (512 * h) * 2 ^ 32) by lia.
    now rewrite Z.mod_add by lia. }
  now rewrite E23, E0.
Qed.

Lemma count64_incr_ok c :
  word 64 c -> word 64 (count64_incr c) /\ count64_incr c = (c + 1) mod 2 ^ 64.
Proof.
  intros Hc. unfold count64_incr. rewrite SPH_T64_trunc.
  split; [now apply trunc_word|now apply trunc_mod].
Qed.

Lemma count32_incr_ok c :
  counter_ok c -> counter_ok (count32_incr c) /\
  counter_val (count32_incr c) = (counter_val c + 1) mod 2 ^ 64.
Proof.
  intros [Hh Hl]. unfold count32_incr, counter_ok, counter_val. change SPH_T32 with (trunc 32).
  destruct c as [h l]. cbn [block_count_high block_count_low] in *.
  pose proof (trunc_word 32 (l + 1)). pose proof (trunc_word 32 (h + 1)).
  rewrite !trunc_mod in * by lia. unfold word in *.
  destruct (Z.eqb_spec ((l + 1) mod 2 ^ 32) 0); cbn [block_count_high block_count_low];
    (split; [lia|dlia]).
Qed.

#[export] Instance count64_laws : JhCountLaws (count64 p) :=
  @Build_JhCountLaws Z (count64 p) (word 64) (fun c => c) (fun c H => H)
    (conj (word_0 64 ltac:(lia)) eq_refl) count64_incr_ok count64_length_ok.

Lemma counter_range c : counter_ok c -> word 64 (counter_val c).
Proof. unfold counter_ok, counter_val, word. lia. Qed.

#[export] Instance count32_laws : JhCountLaws (count32 p) :=
  @Build_JhCountLaws counter (count32 p) counter_ok counter_val counter_range
    (conj (conj (word_0 32 ltac:(lia)) (word_0 32 ltac:(lia))) eq_refl)
    count32_incr_ok count32_length_ok.
End Counters.

(** ** The stored state *)

(** The bytes of an encoded word, bit by bit. *)
Lemma enc64e_bits p addr v j i :
  platform_ok p = true -> word 64 v -> (j < 8)%nat -> (i < 8)%nat ->
  msb_first (nth j (enc64e p addr v) 0) i =
  Z.testbit v (Z.lxor (Z.of_nat (8 * j + i)) (swizzle p 64)).
Proof.
  intros Hp Hv Hj Hi.
  destruct (position_byte 64 (Z.of_nat (8 * j + i)) (or_intror eq_refl)) as (E1 & E2 & E3 & E4); [lia|].
  unfold enc64e, msb_first, swizzle.
  destruct (order p); rewrite ?sph_enc64le_store, ?sph_enc64be_store by assumption;
    rewrite ?nth_le_store, ?nth_be_store by assumption; autorewrite with zbits; decide_cmp;
    cbn [andb]; f_equal; dlia.
Qed.

Lemma enc32e_bits p addr v j i :
  platform_ok p = true -> word 32 v -> (j < 4)%nat -> (i < 8)%nat ->
  msb_first (nth j (enc32e p addr v) 0) i =
  Z.testbit v (Z.lxor (Z.of_nat (8 * j + i)) (swizzle p 32)).
Proof.
  intros Hp Hv Hj Hi.
  destruct (position_byte 32 (Z.of_nat (8 * j + i)) (or_introl eq_refl)) as (E1 & E2 & E3 & E4); [lia|].
  unfold enc32e, msb_first, swizzle.
  destruct (order p); rewrite ?sph_enc32le_store, ?sph_enc32be_store by assumption;
    rewrite ?nth_le_store, ?nth_be_store by assumption; autorewrite with zbits; decide_cmp;
    cbn [andb]; f_equal; dlia.
Qed.

Lemma enc64e_bytes p addr v :
  platform_ok p = true -> word 64 v -> bytes (enc64e p addr v) /\ length (enc64e p addr v) = 8%nat.
Proof.
  intros Hp Hv. unfold enc64e.
  destruct (order p); rewrite ?sph_enc64le_store, ?sph_enc64be_store by assumption;
    rewrite ?length_le_store, ?length_be_store; auto using bytes_le_store, bytes_be_store.
Qed.

Lemma enc32e_bytes p addr v :
  platform_ok p = true -> word 32 v -> bytes (enc32e p addr v) /\ length (enc32e p addr v) = 4%nat.
Proof.
  intros Hp Hv. unfold enc32e.
  destruct (order p); rewrite ?sph_enc32le_store, ?sph_enc32be_store by assumption;
    rewrite ?length_le_store, ?length_be_store; auto using bytes_le_store, bytes_be_store.
Qed.

Section StateLaws.
  Variable p : platform.
  Hypothesis Hp : platform_ok p = true.
  Abbreviation wide_laws := (Wide_laws p Hp).
  Abbreviation narrow_laws := (Narrow_laws p Hp).

(** The rows of a state, one after the other. *)
Definition rows (s : regs) : list lane := [h0 s; h1 s; h2 s; h3 s; h4 s; h5 s; h6 s; h7 s].

Lemma rows_ok w n s :
  (forall k, (k < 8)%nat -> lane_words w n (reg s k)) -> Forall (lane_words w n) (rows s).
Proof.
  intros H. unfold rows. repeat apply Forall_cons;
    [apply (H 0%nat)|apply (H 1%nat)|apply (H 2%nat)|apply (H 3%nat)|apply (H 4%nat)|
     apply (H 5%nat)|apply (H 6%nat)|apply (H 7%nat)|apply Forall_nil]; lia.
Qed.

Lemma Wide_write_rows s :
  Forall (lane_words 64 2) (rows s) -> Wide.WRITE_STATE s = concat (rows s).
Proof.
  destruct s as [x0 x1 x2 x3 x4 x5 x6 x7]. unfold rows. cbn [h0 h1 h2 h3 h4 h5 h6 h7].
  rewrite !Forall_cons_iff. intros (K0 & K1 & K2 & K3 & K4 & K5 & K6 & K7 & _).
  wide_row x0. wide_row x1. wide_row x2. wide_row x3. wide_row x4. wide_row x5. wide_row x6.
  wide_row x7. reflexivity.
Qed.

Lemma Narrow_write_rows s :
  Forall (lane_words 32 4) (rows s) -> Narrow.WRITE_STATE s = concat (rows s).
Proof.
  destruct s as [x0 x1 x2 x3 x4 x5 x6 x7]. unfold rows. cbn [h0 h1 h2 h3 h4 h5 h6 h7].
  rewrite !Forall_cons_iff. intros (K0 & K1 & K2 & K3 & K4 & K5 & K6 & K7 & _).
  narrow_row x0. narrow_row x1. narrow_row x2. narrow_row x3. narrow_row x4. narrow_row x5.
  narrow_row x6. narrow_row x7. reflexivity.
Qed.

Lemma Wide_read_write s :
  regs_ok (laws := wide_laws) s -> Wide.READ_STATE (Wide.WRITE_STATE s) = s.
Proof.
  intros Hs. apply rows_ok in Hs. rewrite Wide_write_rows by assumption.
  destruct s as [x0 x1 x2 x3 x4 x5 x6 x7]. revert Hs. unfold rows. cbn [h0 h1 h2 h3 h4 h5 h6 h7].
  rewrite !Forall_cons_iff. intros (K0 & K1 & K2 & K3 & K4 & K5 & K6 & K7 & _).
  wide_row x0. wide_row x1. wide_row x2. wide_row x3. wide_row x4. wide_row x5. wide_row x6.
  wide_row x7. reflexivity.
Qed.

Lemma Narrow_read_write s :
  regs_ok (laws := narrow_laws) s -> Narrow.READ_STATE (Narrow.WRITE_STATE s) = s.
Proof.
  intros Hs. apply rows_ok in Hs. rewrite Narrow_write_rows by assumption.
  destruct s as [x0 x1 x2 x3 x4 x5 x6 x7]. revert Hs. unfold rows. cbn [h0 h1 h2 h3 h4 h5 h6 h7].
  rewrite !Forall_cons_iff. intros (K0 & K1 & K2 & K3 & K4 & K5 & K6 & K7 & _).
  narrow_row x0. narrow_row x1. narrow_row x2. narrow_row x3. narrow_row x4. narrow_row x5.
  narrow_row x6. narrow_row x7. reflexivity.
Qed.

(** Bit [i] of the output is bit [512 + i] of the state: the word, the row
    and the bit in the word. *)
Lemma encoded_position nb i :
  (nb = 4 \/ nb = 8)%nat -> (i < 512)%nat ->
  ((i / 8 / nb + 64 / nb) mod (16 / nb))%nat =
    Z.to_nat (Z.of_nat ((512 + i) mod 128) / Z.of_nat (8 * nb)) /\
  ((i / 8 / nb + 64 / nb) / (16 / nb))%nat = ((512 + i) / 128)%nat /\
  Z.of_nat (8 * (i / 8 mod nb) + i mod 8) = Z.of_nat ((512 + i) mod 128) mod Z.of_nat (8 * nb).
Proof.
  intros Hnb Hi.
  assert (H : forallb (fun nb => forallb (fun i =>
      ((i / 8 / nb + 64 / nb) mod (16 / nb) =?
        Z.to_nat (Z.of_nat ((512 + i) mod 128) / Z.of_nat (8 * nb)))%nat &&
      ((i / 8 / nb + 64 / nb) / (16 / nb) =? (512 + i) / 128)%nat &&
      (Z.of_nat (8 * (i / 8 mod nb) + i mod 8) =?
        Z.of_nat ((512 + i) mod 128) mod Z.of_nat (8 * nb)))
      (seq 0 512)) [4; 8]%nat = true) by (vm_compute; reflexivity).
  rewrite forallb_forall in H. specialize (H nb ltac:(simpl; destruct Hnb; auto)).
  pose proof (forallb_seq _ _ H i Hi) as R. cbv beta in R.
  rewrite !andb_true_iff, !Nat.eqb_eq, Z.eqb_eq in R. tauto.
Qed.

(** The end of [jh_close]: the last 64 bytes of the state. *)
Lemma encode_rows w (nb : nat) (enc : Z -> Z -> list Z) addr s b :
  w = 8 * Z.of_nat nb -> (w = 32 \/ w = 64) ->
  (forall a v, word w v -> bytes (enc a v) /\ length (enc a v) = nb) ->
  (forall a v j i, word w v -> (j < nb)%nat -> (i < 8)%nat ->
     msb_first (nth j (enc a v) 0) i =
     Z.testbit v (Z.lxor (Z.of_nat (8 * j + i)) (swizzle p w))) ->
  Forall (lane_words w (16 / nb)) (rows s) -> (64 <= length b)%nat ->
  exists b', memcpy_loop nb (fun u => enc (addr + Z.of_nat (nb * u))
      (nth (u + 64 / nb) (concat (rows s)) 0)) (64 / nb) b = Some b' /\ length b' = length b /\
    bytes (firstn 64 b') /\
    JHSpec.bits_of_bytes (firstn 64 b') =
    skipn 512 (map (fun i => lane_bit w (swizzle p w) (reg s (i / 128)) (i mod 128)) (seq 0 1024)).
Proof.
  intros Ew Hw Henc Hbits Hs Hl.
  assert (Hnb : (nb = 4 \/ nb = 8)%nat) by lia.
  set (f := fun u => enc (addr + Z.of_nat (nb * u)) (nth (u + 64 / nb) (concat (rows s)) 0)).
  assert (Hword : forall u, word w (nth u (concat (rows s)) 0)).
  { intros u. apply Forall_nth'; [|apply word_0; lia]. apply Forall_concat.
    eapply Forall_impl; [|exact Hs]. now intros x [_ Hx]. }
  assert (E64 : (nb * (64 / nb) = 64)%nat) by (destruct Hnb as [-> | ->]; reflexivity).
  destruct (memcpy_loop_ok nb f (64 / nb) b) as (b' & E & L & F); [intros; now apply Henc|lia|].
  exists b'. split; [exact E|]. split; [assumption|]. rewrite E64 in F. rewrite F. split.
  { apply Forall_concat, Forall_map, Forall_forall. intros u _. now apply Henc. }
  assert (Lf : Forall (fun l => length l = nb) (map f (seq 0 (64 / nb))))
    by (apply Forall_map, Forall_forall; intros u _; now apply Henc).
  assert (Lr : Forall (fun l => length l = (16 / nb)%nat) (rows s))
    by (eapply Forall_impl; [|exact Hs]; now intros x [Hx _]).
  apply (nth_ext' _ _ false).
  { rewrite length_skipn, length_map, length_seq, length_bits_of, <- F, length_firstn. lia. }
  rewrite length_bits_of, <- F, length_firstn, F. intros i Hi.
  rewrite nth_bits_of, nth_skipn', nth_map_seq by (rewrite <- ?F, ?length_firstn; lia).
  rewrite (nth_concat nb) by (assumption || lia).
  rewrite nth_map_seq by (clear - Hi Hnb; destruct Hnb as [-> | ->];
    [change (64 / 4)%nat with 16%nat|change (64 / 8)%nat with 8%nat]; dlia).
  unfold f. rewrite Hbits by (apply Hword || apply Nat.mod_upper_bound; lia).
  rewrite (nth_concat (16 / nb)) by (assumption || destruct Hnb as [-> | ->]; cbn; lia).
  unfold lane_bit, reg. fold (rows s). assert (Hi' : (i < 512)%nat) by (clear - Hi; lia).
  destruct (encoded_position nb i Hnb Hi') as (P1 & P2 & P3).
  rewrite Ew. replace (8 * Z.of_nat nb) with (Z.of_nat (8 * nb)) by lia. now rewrite P1, P2, P3.
Qed.

Lemma Wide_encode_ok addr s b :
  regs_ok (laws := wide_laws) s -> (64 <= length b)%nat ->
  exists b', Wide.encode_state p addr (Wide.WRITE_STATE s) b = Some b' /\ length b' = length b /\
    bytes (firstn 64 b') /\
    JHSpec.bits_of_bytes (firstn 64 b') = skipn 512 (regs_bits (laws := wide_laws) s).
Proof.
  intros Hs Hl. apply rows_ok in Hs. rewrite Wide_write_rows by assumption.
  apply (encode_rows 64 8 (enc64e p)); auto.
  - intros. now apply enc64e_bytes.
  - intros. now apply enc64e_bits.
Qed.

Lemma Narrow_encode_ok addr s b :
  regs_ok (laws := narrow_laws) s -> (64 <= length b)%nat ->
  exists b', Narrow.encode_state p addr (Narrow.WRITE_STATE s) b = Some b' /\ length b' = length b /\
    bytes (firstn 64 b') /\
    JHSpec.bits_of_bytes (firstn 64 b') = skipn 512 (regs_bits (laws := narrow_laws) s).
Proof.
  intros Hs Hl. apply rows_ok in Hs. rewrite Narrow_write_rows by assumption.
  apply (encode_rows 32 4 (enc32e p)); auto.
  - intros. now apply enc32e_bytes.
  - intros. now apply enc32e_bits.
Qed.

(** *** The initial values

    The tables hold literals, which the machine stores swapped or not: the row
    of literals, read with its most significant bits first, is what counts. *)

Definition literal_bits (w : Z) (s : regs) : list bool :=
  map (fun i => lane_bit w (w - 1) (reg s (i / 128)) (i mod 128)%nat) (seq 0 1024).

Definition regs_map (f : Z -> Z) (s : regs) : regs :=
  Regs (map f (h0 s)) (map f (h1 s)) (map f (h2 s)) (map f (h3 s))
       (map f (h4 s)) (map f (h5 s)) (map f (h6 s)) (map f (h7 s)).

Lemma reg_map f s k : reg (regs_map f s) k = map f (reg s k).
Proof. unfold reg. rewrite <- (map_nth (map f)). reflexivity. Qed.

Definition row_shape (w : Z) (n : nat) (x : lane) : bool := (length x =? n)%nat && forallb (wordb w) x.

Lemma rows_shape w n s k :
  forallb (row_shape w n) (rows s) = true -> (k < 8)%nat -> lane_words w n (reg s k).
Proof.
  intros H Hk. rewrite forallb_forall in H. specialize (H (reg s k)). unfold row_shape in H.
  rewrite andb_true_iff, Nat.eqb_eq in H. destruct H as [L F]; [|split; [assumption|now apply wordb_Forall]].
  unfold reg, rows. now apply nth_In.
Qed.

(** What is said of the literals [l] of a table for [d]: the rows have words of the right size,
    reading is the inverse of writing, and the bits are those of the specification. *)
Lemma literals_state w n f (rd : list Z -> regs) (wr : regs -> list Z) s l spec :
  0 < w -> f 0 = 0 ->
  (forall v k, word w v -> 0 <= k < w -> Z.testbit (f v) (Z.lxor k s) = Z.testbit v (Z.lxor k (w - 1))) ->
  (forall v, word w v -> word w (f v)) ->
  rd (map f l) = regs_map f (rd l) -> wr (rd (map f l)) = map f l ->
  forallb (row_shape w n) (rows (rd l)) = true -> literal_bits w (rd l) = spec ->
  (forall k, (k < 8)%nat -> lane_words w n (reg (rd (map f l)) k)) /\ wr (rd (map f l)) = map f l /\
  map (fun i => lane_bit w s (reg (rd (map f l)) (i / 128)) (i mod 128)%nat) (seq 0 1024) = spec.
Proof.
  intros Hw H0 Hf Wf Er Ew Hs <-. splits; [|assumption|].
  - intros k Hk. rewrite Er, reg_map. destruct (rows_shape _ _ _ k Hs Hk) as [L F].
    split; [now rewrite length_map|]. apply Forall_map. eapply Forall_impl; [apply Wf|assumption].
  - unfold literal_bits. apply map_ext_in. intros i Hi. apply in_seq in Hi.
    rewrite Er, reg_map. apply lane_bit_literals; try assumption.
    apply (rows_shape _ _ _ (i / 128) Hs). dlia.
Qed.

Definition IV_tables : list (Z * (list Z * list Z)) :=
  [(224, (IV224_wide, IV224_narrow)); (256, (IV256_wide, IV256_narrow));
   (384, (IV384_wide, IV384_narrow)); (512, (IV512_wide, IV512_narrow))].

Ltac each_IV H :=
  cbn [In IV_tables] in H;
  repeat match type of H with
  | _ \/ _ => destruct H as [[= <- <- <-]|H]
  end; [..|contradiction].

(** The initial value of the specification, computed by the code on a machine whose byte order
    is that of the literals. *)
Definition IV_regs (d : Z) : regs :=
  let s := Regs [d << 48; 0] [0; 0] [0; 0] [0; 0] [0; 0] [0; 0] [0; 0] [0; 0] in
  let zeros := repeat 0 64 in
  @INPUT_BUF2 (Wide.words portable) zeros
    (@E8 (Wide.words portable) Unrolled (@INPUT_BUF1 (Wide.words portable) zeros s)).

Lemma literal_regs_bits s : literal_bits 64 s = regs_bits (laws := Wide_laws portable eq_refl) s.
Proof. reflexivity. Qed.

Lemma F8_regs (words : JhWords) (laws : JhLaws words) s b :
  regs_ok s -> bytes b -> length b = 64%nat ->
  regs_bits (INPUT_BUF2 b (E8 Unrolled (INPUT_BUF1 b s))) =
  JHSpec.F8 (regs_bits s) (JHSpec.bits_of_bytes b).
Proof.
  intros Hs Hb Hl. destruct (regs_bits_xor_first s b Hs Hb Hl) as [O1 E1].
  destruct (E8_spec Unrolled _ O1) as [O2 E2].
  destruct (regs_bits_xor_last _ b O2 Hb Hl) as [_ E3]. unfold JHSpec.F8. congruence.
Qed.

Lemma IV_regs_spec d wide narrow :
  In (d, (wide, narrow)) IV_tables -> literal_bits 64 (IV_regs d) = JHSpec.IV d.
Proof.
  intros H.
  set (s := Regs [d << 48; 0] [0; 0] [0; 0] [0; 0] [0; 0] [0; 0] [0; 0] [0; 0]).
  assert (Hs : regs_ok (laws := Wide_laws portable eq_refl) s).
  { intros k Hk. destruct k as [|k].
    - each_IV H; (split; [reflexivity|repeat constructor; now compute]).
    - do 7 (destruct k as [|k]; [split; [reflexivity|repeat constructor; now compute]|]). lia. }
  assert (Hb : bytes (repeat 0 64)) by (apply Forall_repeat'; now compute).
  rewrite literal_regs_bits. unfold IV_regs. fold s. cbv zeta. rewrite F8_regs by (assumption || reflexivity).
  unfold JHSpec.IV. f_equal. subst s. clear Hs Hb. each_IV H; vm_compute; reflexivity.
Qed.

Lemma IV_tables_ok d wide narrow :
  In (d, (wide, narrow)) IV_tables ->
  (length wide = 16%nat /\ forallb (row_shape 64 2) (rows (Wide.READ_STATE wide)) = true /\
   literal_bits 64 (Wide.READ_STATE wide) = JHSpec.IV d) /\
  (length narrow = 32%nat /\ forallb (row_shape 32 4) (rows (Narrow.READ_STATE narrow)) = true /\
   literal_bits 32 (Narrow.READ_STATE narrow) = JHSpec.IV d).
Proof.
  intros H. rewrite <- (IV_regs_spec d wide narrow H).
  each_IV H; (splits; vm_compute; reflexivity).
Qed.

Lemma Wide_read_map f l :
  length l = 16%nat -> Wide.READ_STATE (map f l) = regs_map f (Wide.READ_STATE l) /\
  Wide.WRITE_STATE (Wide.READ_STATE l) = l.
Proof. intros H. expose_list l 16. split; reflexivity. Qed.

Lemma Narrow_read_map f l :
  length l = 32%nat -> Narrow.READ_STATE (map f l) = regs_map f (Narrow.READ_STATE l) /\
  Narrow.WRITE_STATE (Narrow.READ_STATE l) = l.
Proof. intros H. expose_list l 32. split; reflexivity. Qed.

Lemma Wide_IV_state d iv :
  In (d, iv) [(224, @IV224 (Wide.words p)); (256, @IV256 (Wide.words p));
              (384, @IV384 (Wide.words p)); (512, @IV512 (Wide.words p))] ->
  state_ok (laws := wide_laws) iv /\
  regs_bits (laws := wide_laws) (@READ_STATE (Wide.words p) iv) = JHSpec.IV d.
Proof.
  intros H. assert (exists wide narrow, iv = map (C64e p) wide /\ In (d, (wide, narrow)) IV_tables)
    as (wide & narrow & -> & H').
  { cbn [In IV_tables] in *.
    destruct H as [[= <- <-]|[[= <- <-]|[[= <- <-]|[[= <- <-]|[]]]]];
      [exists IV224_wide, IV224_narrow|exists IV256_wide, IV256_narrow|
       exists IV384_wide, IV384_narrow|exists IV512_wide, IV512_narrow]; auto 10. }
  destruct (IV_tables_ok d wide narrow H') as [(L & R & B) _].
  destruct (literals_state 64 2 (C64e p) Wide.READ_STATE Wide.WRITE_STATE (swizzle p 64) wide (JHSpec.IV d))
    as (E1 & E2 & E3); auto using C64e_0, C64e_bit, C64e_word with zarith.
  - now apply Wide_read_map.
  - apply (Wide_read_map id). now rewrite length_map.
  - split; [split|]; assumption.
Qed.

Lemma Narrow_IV_state d iv :
  In (d, iv) [(224, @IV224 (Narrow.words p)); (256, @IV256 (Narrow.words p));
              (384, @IV384 (Narrow.words p)); (512, @IV512 (Narrow.words p))] ->
  state_ok (laws := narrow_laws) iv /\
  regs_bits (laws := narrow_laws) (@READ_STATE (Narrow.words p) iv) = JHSpec.IV d.
Proof.
  intros H. assert (exists wide narrow, iv = map (C32e p) narrow /\ In (d, (wide, narrow)) IV_tables)
    as (wide & narrow & -> & H').
  { cbn [In IV_tables] in *.
    destruct H as [[= <- <-]|[[= <- <-]|[[= <- <-]|[[= <- <-]|[]]]]];
      [exists IV224_wide, IV224_narrow|exists IV256_wide, IV256_narrow|
       exists IV384_wide, IV384_narrow|exists IV512_wide, IV512_narrow]; auto 10. }
  destruct (IV_tables_ok d wide narrow H') as [_ (L & R & B)].
  destruct (literals_state 32 4 (C32e p) Narrow.READ_STATE Narrow.WRITE_STATE (swizzle p 32) narrow (JHSpec.IV d))
    as (E1 & E2 & E3); auto using C32e_0, C32e_bit, C32e_word with zarith.
  - now apply Narrow_read_map.
  - apply (Narrow_read_map id). now rewrite length_map.
  - split; [split|]; assumption.
Qed.

Lemma Wide_input_firstn b k :
  (k < 4)%nat -> Wide.input_row p b k = Wide.input_row p (firstn 64 b) k.
Proof. intros. unfold Wide.input_row. now rewrite !slice_firstn by lia. Qed.

Lemma Narrow_input_firstn b k :
  (k < 4)%nat -> Narrow.input_row p b k = Narrow.input_row p (firstn 64 b) k.
Proof. intros. unfold Narrow.input_row. now rewrite !slice_firstn by lia. Qed.

#[export] Instance Wide_state_laws : JhStateLaws (Wide.words p) (laws := wide_laws) :=
  @Build_JhStateLaws (Wide.words p) wide_laws Wide_read_write Wide_IV_state Wide_input_firstn
    Wide_encode_ok.

#[export] Instance Narrow_state_laws : JhStateLaws (Narrow.words p) (laws := narrow_laws) :=
  @Build_JhStateLaws (Narrow.words p) narrow_laws Narrow_read_write Narrow_IV_state
    Narrow_input_firstn Narrow_encode_ok.
End StateLaws.

(** ** The configurations of jh.c *)

Record jh_config := JhConfig {
  jh_platform : platform;
  SPH_64 : bool;
  SPH_JH_64 : bool;
  jh_footprint : footprint
}.

Definition jh_config_ok (cf : jh_config) : bool :=
  platform_ok (jh_platform cf) && implb (SPH_JH_64 cf) (SPH_64 cf).

Definition jh_words (cf : jh_config) : JhWords :=
  if SPH_JH_64 cf then Wide.words (jh_platform cf) else Narrow.words (jh_platform cf).

Definition jh_count_type (cf : jh_config) : Type := if SPH_64 cf then Z else counter.
Definition jh_count (cf : jh_config) : JhCount (jh_count_type cf) :=
  match SPH_64 cf as b return JhCount (if b then Z else counter) with
  | true => count64 (jh_platform cf)
  | false => count32 (jh_platform cf)
  end.

Lemma jh_config_laws cf :
  jh_config_ok cf = true ->
  exists (laws : JhLaws (jh_words cf)) (_ : JhStateLaws (jh_words cf)),
    inhabited (JhCountLaws (jh_count cf)).
Proof.
  intros [Hp _]%andb_true_iff. destruct cf as [p s64 jh64 fp].
  unfold jh_words, jh_count, jh_count_type. cbn [jh_platform SPH_64 SPH_JH_64] in *.
  assert (C : inhabited (JhCountLaws (jh_count (JhConfig p s64 jh64 fp)))).
  { constructor. destruct s64; [exact (count64_laws p Hp)|exact (count32_laws p Hp)]. }
  destruct jh64.
  - exists (Wide_laws p Hp), (Wide_state_laws p Hp). auto.
  - exists (Narrow_laws p Hp), (Narrow_state_laws p Hp). auto.
Qed.

(** ** The functions of sph_jh.h *)

(** [init], any number of [update]s, then [addbits_and_close] with [n] extra
    bits: no access outside of a buffer, the digest of the specification, and
    a context that is initialised again; [close] is the case without bits. *)
Definition computes_jh {cnt : Type} (d : nat)
    (init : jh_context (cnt := cnt) -> jh_context (cnt := cnt))
    (update : jh_context -> list Z -> option jh_context)
    (addbits_and_close : list Z -> Z -> jh_context -> Z -> Z -> option (list Z * jh_context))
    (close : list Z -> Z -> jh_context -> option (list Z * jh_context)) : Prop :=
  forall pieces cc stack addr ub n,
  (n < 8)%nat -> length (buf cc) = 64%nat -> length stack = 128%nat ->
  Forall bytes pieces -> Z.of_nat (length (concat pieces)) < 2 ^ 70 ->
  exists cc1 out cc2,
    fold_left (fun cc data => let* cc := cc in update cc data) pieces (Some (init cc)) = Some cc1 /\
    addbits_and_close stack addr cc1 ub (Z.of_nat n) = Some (out, cc2) /\
    close stack addr cc1 = addbits_and_close stack addr cc1 0 0 /\
    bytes out /\ (8 * length out = d)%nat /\
    JHSpec.bits_of_bytes out =
      JHSpec.hash d (JHSpec.bits_of_bytes (concat pieces) ++ extra_bits ub n) /\
    length (buf cc2) = 64%nat /\ init cc2 = cc2.

Section API.
  Variable cf : jh_config.
#[local] Instance cf_words : JhWords := jh_words cf.
#[local] Instance cf_count : JhCount (jh_count_type cf) := jh_count cf.
  Abbreviation fp := (jh_footprint cf).

Lemma jh_family :
  jh_config_ok cf = true ->
  computes_jh 224 sph_jh224_init (sph_jh224 fp) (sph_jh224_addbits_and_close fp) (sph_jh224_close fp) /\
  computes_jh 256 sph_jh256_init (sph_jh256 fp) (sph_jh256_addbits_and_close fp) (sph_jh256_close fp) /\
  computes_jh 384 sph_jh384_init (sph_jh384 fp) (sph_jh384_addbits_and_close fp) (sph_jh384_close fp) /\
  computes_jh 512 sph_jh512_init (sph_jh512 fp) (sph_jh512_addbits_and_close fp) (sph_jh512_close fp).
Proof.
  intros Hc. destruct (jh_config_laws cf Hc) as (laws & slaws & [claws]).
  assert (G : forall w iv,
    In (32 * Z.of_nat w, iv) [(224, IV224); (256, IV256); (384, IV384); (512, IV512)] ->
    computes_jh (32 * w) (fun sc => jh_init sc iv) (jh_core fp)
      (fun stack addr sc ub n => jh_close fp stack addr sc ub n w iv)
      (fun stack addr sc => jh_close fp stack addr sc 0 0 w iv)).
  { intros w iv Hiv pieces cc stack addr ub n Hn Hb Hs Hp Hl.
    destruct (jh_whole fp w iv pieces cc stack addr ub n Hiv Hn Hb Hs Hp Hl)
      as (c1 & out & c2 & E1 & E2 & Ho & Lo & E & L & I).
    exists c1, out, c2. splits; try assumption; [reflexivity|lia]. }
  splits; [apply (G 7%nat)|apply (G 8%nat)|apply (G 12%nat)|apply (G 16%nat)]; cbn; tauto.
Qed.
End API.
