(* ===== verification/JhTheorems.v ===== *)
(** * Theorems on jh.c

    What a user of the functions of sph_jh.h relies on, for every
    configuration jh.c can be compiled in. *)

From Stdlib Require Import ZArith List Lia Bool.
From S2P Require Import Prelude BitStrings SphTypes Stream JhTables Jh JhSpec JhProof JhMode JhLanes.
From S2P Require Import JhHash SphTheorems.
Import ListNotations.

(** C36: in every configuration (byte order, 64-bit or 32-bit words, loop or unrolled code), for
    each of the four members, initialising a context, updating it with any pieces of a message
    shorter than 2^73 bits and closing it with up to seven more bits makes no access outside of
    a buffer, returns the JH digest of the message's bits, and leaves the context initialised. *)
Theorem jh_computes_JH (cf : jh_config) :
  jh_config_ok cf = true ->
  let words := jh_words cf in let count := jh_count cf in let fp := jh_footprint cf in
  computes_jh 224 sph_jh224_init (sph_jh224 fp) (sph_jh224_addbits_and_close fp) (sph_jh224_close fp) /\
  computes_jh 256 sph_jh256_init (sph_jh256 fp) (sph_jh256_addbits_and_close fp) (sph_jh256_close fp) /\
  computes_jh 384 sph_jh384_init (sph_jh384 fp) (sph_jh384_addbits_and_close fp) (sph_jh384_close fp) /\
  computes_jh 512 sph_jh512_init (sph_jh512 fp) (sph_jh512_addbits_and_close fp) (sph_jh512_close fp).
Proof. apply jh_family. Qed.

Lemma jh_computes_JH_witness :
  let words := Narrow.words big_endian in let count := count32 big_endian in
  computes_jh (cnt := counter) 512 sph_jh512_init (sph_jh512 Switch)
    (sph_jh512_addbits_and_close Switch) (sph_jh512_close Switch).
Proof.
  apply (jh_computes_JH (JhConfig big_endian false false Switch)). reflexivity.
Defined.

(** On the 64-bit and on the 32-bit words, on a machine of any byte order, the bit-sliced
    permutation, in each of its three forms, is the permutation E8 of the specification on the
    1024 bits the eight rows stand for. *)
Theorem jh_E8_refines (p : platform) (Hp : platform_ok p = true) (fp : footprint) :
  (forall s, @regs_ok _ (Wide_laws p Hp) s ->
     @regs_ok _ (Wide_laws p Hp) (@E8 (Wide.words p) fp s) /\
     @regs_bits _ (Wide_laws p Hp) (@E8 (Wide.words p) fp s) =
       JHSpec.E8 (@regs_bits _ (Wide_laws p Hp) s)) /\
  (forall s, @regs_ok _ (Narrow_laws p Hp) s ->
     @regs_ok _ (Narrow_laws p Hp) (@E8 (Narrow.words p) fp s) /\
     @regs_bits _ (Narrow_laws p Hp) (@E8 (Narrow.words p) fp s) =
       JHSpec.E8 (@regs_bits _ (Narrow_laws p Hp) s)).
Proof. split; intros s Hs; now apply E8_spec. Qed.

(** The zero state, on 64-bit words. *)
Definition zero_regs : regs :=
  Regs [0; 0] [0; 0] [0; 0] [0; 0] [0; 0] [0; 0] [0; 0] [0; 0].

Lemma jh_E8_refines_witness :
  @regs_bits _ (Wide_laws portable eq_refl) (@E8 (Wide.words portable) Loop zero_regs) =
  JHSpec.E8 (repeat false 1024).
Proof.
  destruct (jh_E8_refines portable eq_refl Loop) as [W _].
  destruct (W zero_regs) as [_ E].
  - intros k Hk. do 8 (destruct k as [|k]; [split; [reflexivity|repeat constructor; now compute]|]). lia.
  - exact E.
Defined.

(** Whatever the words, the unrolled code, the loop of seven rounds and the loop with a
    [switch] whose counter wraps at seven compute the same permutation. *)
Theorem jh_E8_forms_equal (words : JhWords) (s : regs) :
  E8 Loop s = E8 Unrolled s /\ E8 Switch s = E8 Unrolled s.
Proof. now rewrite !E8_rounds. Qed.

(** The counter in two 32-bit words behaves as the 64-bit one: both count blocks modulo
    2^64, and both store the same 128-bit length, 512 bits per block and those of the partial
    block, without overflow for any value of the counter. *)
Theorem jh_counters_agree (p : platform) (addr c : Z) (c32 : counter) (ptr : nat) (n : Z) :
  platform_ok p = true -> word 64 c -> counter_ok c32 -> counter_val c32 = c ->
  (ptr < 64)%nat -> 0 <= n < 8 ->
  counter_val (count32_incr c32) = count64_incr c /\
  count64_incr c = (c + 1) mod 2 ^ 64 /\
  count32_length p addr c32 ptr n = count64_length p addr c ptr n /\
  count64_length p addr c ptr n = be_store 16 (512 * c + 8 * Z.of_nat ptr + n).
Proof.
  intros Hp Hc H32 <- Hptr Hn. destruct (count32_incr_ok c32 H32) as [_ E32].
  destruct (count64_incr_ok (counter_val c32) Hc) as [_ E64].
  rewrite (count32_length_ok p Hp), (count64_length_ok p Hp) by assumption.
  splits; congruence.
Qed.

Lemma jh_counters_agree_witness :
  counter_val (count32_incr (Counter 0 0xFFFFFFFF)) = count64_incr 0xFFFFFFFF.
Proof.
  apply (jh_counters_agree portable 0 0xFFFFFFFF (Counter 0 0xFFFFFFFF) 3 5);
    try reflexivity; try lia; repeat split; now compute.
Defined.
