(* ===== verification/KeccakTables.v ===== *)
(** * keccak.c: constants and layouts

    The round constants of src/src/keccak.c in their three forms, the names
    [aXY] of the state words, and the tables [P0] to [P23]: the code never
    performs the permutation pi of Keccak, round [r] works on the words named
    in the order of [P##r].  [Pn_TO_P0] moves the words back. *)

From Stdlib Require Import ZArith List.
Import ListNotations.
Open Scope Z_scope.

(** [RC] with 64-bit words. *)
Definition RC_wide : list Z :=
  [0x0000000000000001; 0x0000000000008082; 0x800000000000808A; 0x8000000080008000;
   0x000000000000808B; 0x0000000080000001; 0x8000000080008081; 0x8000000000008009;
   0x000000000000008A; 0x0000000000000088; 0x0000000080008009; 0x000000008000000A;
   0x000000008000808B; 0x800000000000008B; 0x8000000000008089; 0x8000000000008003;
   0x8000000000008002; 0x8000000000000080; 0x000000000000800A; 0x800000008000000A;
   0x8000000080008081; 0x8000000000008080; 0x0000000080000001; 0x8000000080008008].

(** [RC] with 32-bit words, [high] and [low], bit-interleaved and not. *)
Definition RC_interleaved : list (Z * Z) :=
  [(0x00000000, 0x00000001); (0x00000089, 0x00000000); (0x8000008B, 0x00000000);
   (0x80008080, 0x00000000); (0x0000008B, 0x00000001); (0x00008000, 0x00000001);
   (0x80008088, 0x00000001); (0x80000082, 0x00000001); (0x0000000B, 0x00000000);
   (0x0000000A, 0x00000000); (0x00008082, 0x00000001); (0x00008003, 0x00000000);
   (0x0000808B, 0x00000001); (0x8000000B, 0x00000001); (0x8000008A, 0x00000001);
   (0x80000081, 0x00000001); (0x80000081, 0x00000000); (0x80000008, 0x00000000);
   (0x00000083, 0x00000000); (0x80008003, 0x00000000); (0x80008088, 0x00000001);
   (0x80000088, 0x00000000); (0x00008000, 0x00000001); (0x80008082, 0x00000000)].

Definition RC_narrow : list (Z * Z) :=
  [(0x00000000, 0x00000001); (0x00000000, 0x00008082); (0x80000000, 0x0000808A);
   (0x80000000, 0x80008000); (0x00000000, 0x0000808B); (0x00000000, 0x80000001);
   (0x80000000, 0x80008081); (0x80000000, 0x00008009); (0x00000000, 0x0000008A);
   (0x00000000, 0x00000088); (0x00000000, 0x80008009); (0x00000000, 0x8000000A);
   (0x00000000, 0x8000808B); (0x80000000, 0x0000008B); (0x80000000, 0x00008089);
   (0x80000000, 0x00008003); (0x80000000, 0x00008002); (0x80000000, 0x00000080);
   (0x00000000, 0x0000800A); (0x80000000, 0x8000000A); (0x80000000, 0x80008081);
   (0x80000000, 0x00008080); (0x00000000, 0x80000001); (0x80000000, 0x80008008)].

(** Where the word [aXY] is in the state. *)
Definition a00 : nat := 0.
Definition a10 : nat := 1.
Definition a20 : nat := 2.
Definition a30 : nat := 3.
Definition a40 : nat := 4.
Definition a01 : nat := 5.
Definition a11 : nat := 6.
Definition a21 : nat := 7.
Definition a31 : nat := 8.
Definition a41 : nat := 9.
Definition a02 : nat := 10.
Definition a12 : nat := 11.
Definition a22 : nat := 12.
Definition a32 : nat := 13.
Definition a42 : nat := 14.
Definition a03 : nat := 15.
Definition a13 : nat := 16.
Definition a23 : nat := 17.
Definition a33 : nat := 18.
Definition a43 : nat := 19.
Definition a04 : nat := 20.
Definition a14 : nat := 21.
Definition a24 : nat := 22.
Definition a34 : nat := 23.
Definition a44 : nat := 24.

Definition P0 : list nat :=
  [a00; a01; a02; a03; a04; a10; a11; a12; a13; a14; a20; a21; a22; a23; a24; a30; a31; a32;
   a33; a34; a40; a41; a42; a43; a44].
Definition P1 : list nat :=
  [a00; a30; a10; a40; a20; a11; a41; a21; a01; a31; a22; a02; a32; a12; a42; a33; a13; a43;
   a23; a03; a44; a24; a04; a34; a14].
Definition P2 : list nat :=
  [a00; a33; a11; a44; a22; a41; a24; a02; a30; a13; a32; a10; a43; a21; a04; a23; a01; a34;
   a12; a40; a14; a42; a20; a03; a31].
Definition P3 : list nat :=
  [a00; a23; a41; a14; a32; a24; a42; a10; a33; a01; a43; a11; a34; a02; a20; a12; a30; a03;
   a21; a44; a31; a04; a22; a40; a13].
Definition P4 : list nat :=
  [a00; a12; a24; a31; a43; a42; a04; a11; a23; a30; a34; a41; a03; a10; a22; a21; a33; a40;
   a02; a14; a13; a20; a32; a44; a01].
Definition P5 : list nat :=
  [a00; a21; a42; a13; a34; a04; a20; a41; a12; a33; a03; a24; a40; a11; a32; a02; a23; a44;
   a10; a31; a01; a22; a43; a14; a30].
Definition P6 : list nat :=
  [a00; a02; a04; a01; a03; a20; a22; a24; a21; a23; a40; a42; a44; a41; a43; a10; a12; a14;
   a11; a13; a30; a32; a34; a31; a33].
Definition P7 : list nat :=
  [a00; a10; a20; a30; a40; a22; a32; a42; a02; a12; a44; a04; a14; a24; a34; a11; a21; a31;
   a41; a01; a33; a43; a03; a13; a23].
Definition P8 : list nat :=
  [a00; a11; a22; a33; a44; a32; a43; a04; a10; a21; a14; a20; a31; a42; a03; a41; a02; a13;
   a24; a30; a23; a34; a40; a01; a12].
Definition P9 : list nat :=
  [a00; a41; a32; a23; a14; a43; a34; a20; a11; a02; a31; a22; a13; a04; a40; a24; a10; a01;
   a42; a33; a12; a03; a44; a30; a21].
Definition P10 : list nat :=
  [a00; a24; a43; a12; a31; a34; a03; a22; a41; a10; a13; a32; a01; a20; a44; a42; a11; a30;
   a04; a23; a21; a40; a14; a33; a02].
Definition P11 : list nat :=
  [a00; a42; a34; a21; a13; a03; a40; a32; a24; a11; a01; a43; a30; a22; a14; a04; a41; a33;
   a20; a12; a02; a44; a31; a23; a10].
Definition P12 : list nat :=
  [a00; a04; a03; a02; a01; a40; a44; a43; a42; a41; a30; a34; a33; a32; a31; a20; a24; a23;
   a22; a21; a10; a14; a13; a12; a11].
Definition P13 : list nat :=
  [a00; a20; a40; a10; a30; a44; a14; a34; a04; a24; a33; a03; a23; a43; a13; a22; a42; a12;
   a32; a02; a11; a31; a01; a21; a41].
Definition P14 : list nat :=
  [a00; a22; a44; a11; a33; a14; a31; a03; a20; a42; a23; a40; a12; a34; a01; a32; a04; a21;
   a43; a10; a41; a13; a30; a02; a24].
Definition P15 : list nat :=
  [a00; a32; a14; a41; a23; a31; a13; a40; a22; a04; a12; a44; a21; a03; a30; a43; a20; a02;
   a34; a11; a24; a01; a33; a10; a42].
Definition P16 : list nat :=
  [a00; a43; a31; a24; a12; a13; a01; a44; a32; a20; a21; a14; a02; a40; a33; a34; a22; a10;
   a03; a41; a42; a30; a23; a11; a04].
Definition P17 : list nat :=
  [a00; a34; a13; a42; a21; a01; a30; a14; a43; a22; a02; a31; a10; a44; a23; a03; a32; a11;
   a40; a24; a04; a33; a12; a41; a20].
Definition P18 : list nat :=
  [a00; a03; a01; a04; a02; a30; a33; a31; a34; a32; a10; a13; a11; a14; a12; a40; a43; a41;
   a44; a42; a20; a23; a21; a24; a22].
Definition P19 : list nat :=
  [a00; a40; a30; a20; a10; a33; a23; a13; a03; a43; a11; a01; a41; a31; a21; a44; a34; a24;
   a14; a04; a22; a12; a02; a42; a32].
Definition P20 : list nat :=
  [a00; a44; a33; a22; a11; a23; a12; a01; a40; a34; a41; a30; a24; a13; a02; a14; a03; a42;
   a31; a20; a32; a21; a10; a04; a43].
Definition P21 : list nat :=
  [a00; a14; a23; a32; a41; a12; a21; a30; a44; a03; a24; a33; a42; a01; a10; a31; a40; a04;
   a13; a22; a43; a02; a11; a20; a34].
Definition P22 : list nat :=
  [a00; a31; a12; a43; a24; a21; a02; a33; a14; a40; a42; a23; a04; a30; a11; a13; a44; a20;
   a01; a32; a34; a10; a41; a22; a03].
Definition P23 : list nat :=
  [a00; a13; a21; a34; a42; a02; a10; a23; a31; a44; a04; a12; a20; a33; a41; a01; a14; a22;
   a30; a43; a03; a11; a24; a32; a40].

Definition layouts : list (list nat) :=
  [P0; P1; P2; P3; P4; P5; P6; P7; P8; P9; P10; P11; P12; P13; P14; P15; P16; P17; P18; P19;
   P20; P21; P22; P23].

(** The [MOV64]s of a [Pn_TO_P0]: destination and source, [None] being the
    temporary [t]. *)
Definition move : Type := option nat * option nat.
Definition T_ (s : nat) : move := (None, Some s).
Definition _T (d : nat) : move := (Some d, None).
Definition mv (d s : nat) : move := (Some d, Some s).

Definition P1_TO_P0 : list move :=
  [T_ a01; mv a01 a30; mv a30 a33; mv a33 a23; mv a23 a12; mv a12 a21; mv a21 a02; mv a02 a10;
   mv a10 a11; mv a11 a41; mv a41 a24; mv a24 a42; mv a42 a04; mv a04 a20; mv a20 a22;
   mv a22 a32; mv a32 a43; mv a43 a34; mv a34 a03; mv a03 a40; mv a40 a44; mv a44 a14;
   mv a14 a31; mv a31 a13; _T a13].
Definition P2_TO_P0 : list move :=
  [T_ a01; mv a01 a33; mv a33 a12; mv a12 a02; mv a02 a11; mv a11 a24; mv a24 a04; mv a04 a22;
   mv a22 a43; mv a43 a03; mv a03 a44; mv a44 a31; _T a31; T_ a10; mv a10 a41; mv a41 a42;
   mv a42 a20; mv a20 a32; mv a32 a34; mv a34 a40; mv a40 a14; mv a14 a13; mv a13 a30;
   mv a30 a23; mv a23 a21; _T a21].
Definition P4_TO_P0 : list move :=
  [T_ a01; mv a01 a12; mv a12 a11; mv a11 a04; mv a04 a43; mv a43 a44; _T a44; T_ a02;
   mv a02 a24; mv a24 a22; mv a22 a03; mv a03 a31; mv a31 a33; _T a33; T_ a10; mv a10 a42;
   mv a42 a32; mv a32 a40; mv a40 a13; mv a13 a23; _T a23; T_ a14; mv a14 a30; mv a30 a21;
   mv a21 a41; mv a41 a20; mv a20 a34; _T a34].
Definition P6_TO_P0 : list move :=
  [T_ a01; mv a01 a02; mv a02 a04; mv a04 a03; _T a03; T_ a10; mv a10 a20; mv a20 a40;
   mv a40 a30; _T a30; T_ a11; mv a11 a22; mv a22 a44; mv a44 a33; _T a33; T_ a12; mv a12 a24;
   mv a24 a43; mv a43 a31; _T a31; T_ a13; mv a13 a21; mv a21 a42; mv a42 a34; _T a34; T_ a14;
   mv a14 a23; mv a23 a41; mv a41 a32; _T a32].
Definition P8_TO_P0 : list move :=
  [T_ a01; mv a01 a11; mv a11 a43; _T a43; T_ a02; mv a02 a22; mv a22 a31; _T a31; T_ a03;
   mv a03 a33; mv a33 a24; _T a24; T_ a04; mv a04 a44; mv a44 a12; _T a12; T_ a10; mv a10 a32;
   mv a32 a13; _T a13; T_ a14; mv a14 a21; mv a21 a20; _T a20; T_ a23; mv a23 a42; mv a42 a40;
   _T a40; T_ a30; mv a30 a41; mv a41 a34; _T a34].
Definition P12_TO_P0 : list move :=
  [T_ a01; mv a01 a04; _T a04; T_ a02; mv a02 a03; _T a03; T_ a10; mv a10 a40; _T a40; T_ a11;
   mv a11 a44; _T a44; T_ a12; mv a12 a43; _T a43; T_ a13; mv a13 a42; _T a42; T_ a14;
   mv a14 a41; _T a41; T_ a20; mv a20 a30; _T a30; T_ a21; mv a21 a34; _T a34; T_ a22;
   mv a22 a33; _T a33; T_ a23; mv a23 a32; _T a32; T_ a24; mv a24 a31; _T a31].
