(* ===== verification/Keccak.v ===== *)
(** * keccak.c: the Keccak hash function

    The four members of the family in every configuration of
    src/src/keccak.c: 64-bit words ([SPH_KECCAK_64]), 32-bit words with or
    without bit interleaving ([SPH_KECCAK_INTERLEAVE]), the seven unrollings
    of the permutation ([SPH_KECCAK_UNROLL]), and the state copied in local
    variables or not ([SPH_KECCAK_NOCOPY]).

    The macros of the permutation take the words they work on as parameters:
    here the list of their 25 positions in the state, [b00, b01, ..., b44]. *)

From Stdlib Require Import ZArith List Lia Bool.
From S2P Require Import Prelude SphTypes Stream KeccakTables.
Import ListNotations.

(** What the code defines differently for each word size. *)
Class KeccakWords := {
  lane : Type;
  lane_0 : lane;
  XOR64 : lane -> lane -> lane;
  AND64 : lane -> lane -> lane;
  OR64 : lane -> lane -> lane;
  NOT64 : lane -> lane;
  ROL64 : nat -> lane -> lane;
  (** [XOR64_IOTA(d, s, RC[j])] *)
  XOR64_IOTA : lane -> nat -> lane;
  (** The state words [aXY]: read from the context, and written to it. *)
  READ_STATE : list Z -> list lane;
  WRITE_STATE : list lane -> list Z;
  (** The input word at an offset of the buffer. *)
  READ64 : list Z -> nat -> lane;
  (** In [keccak_init], the loop and the lane complement. *)
  init_words : list Z -> list Z;
  (** In [keccak_close], the lane complement and the interleaving undone. *)
  finalize : list Z -> list Z;
  (** In [keccak_close], [d] bytes of output encoded in [tmp]. *)
  encode_words : nat -> list Z -> list Z -> option (list Z)
}.

(** The state words complemented between the rounds: the positions in
    [keccak_init] and [keccak_close]. *)
Definition complemented : list nat := [1; 2; 8; 12; 17; 20]%nat.

(** ** 64-bit words *)

Module Wide.
Section Wide.
  Variable p : platform.

Definition NOT64 (s : Z) : Z := SPH_T64 (wnot 64 s).
Definition ROL64 (n : nat) (v : Z) : Z := SPH_ROTL64 v (Z.of_nat n).
Definition XOR64_IOTA (s : Z) (j : nat) : Z := s .^ nth j RC_wide 0.

Definition READ_STATE (wide : list Z) : list Z := map (fun i => nth i wide 0) (seq 0 25).
Definition WRITE_STATE (a : list Z) : list Z := map (fun i => nth i a 0) (seq 0 25).
Definition READ64 (buf : list Z) (off : nat) : Z := sph_dec64le_aligned p (slice buf off 8).

Definition init_words (wide : list Z) : list Z :=
  let wide := fold_left (fun wide i => upd wide i 0) (seq 0 25) wide in
  let wide := upd wide 1 0xFFFFFFFFFFFFFFFF in
  let wide := upd wide 2 0xFFFFFFFFFFFFFFFF in
  let wide := upd wide 8 0xFFFFFFFFFFFFFFFF in
  let wide := upd wide 12 0xFFFFFFFFFFFFFFFF in
  let wide := upd wide 17 0xFFFFFFFFFFFFFFFF in
  upd wide 20 0xFFFFFFFFFFFFFFFF.

Definition finalize (wide : list Z) : list Z :=
  let wide := upd wide 1 (wnot 64 (nth 1 wide 0)) in
  let wide := upd wide 2 (wnot 64 (nth 2 wide 0)) in
  let wide := upd wide 8 (wnot 64 (nth 8 wide 0)) in
  let wide := upd wide 12 (wnot 64 (nth 12 wide 0)) in
  let wide := upd wide 17 (wnot 64 (nth 17 wide 0)) in
  upd wide 20 (wnot 64 (nth 20 wide 0)).

(** [for (j = 0; j < d; j += 8)] *)
Definition encode_words (d : nat) (wide tmp : list Z) : option (list Z) :=
  memcpy_loop 8 (fun i => sph_enc64le_aligned p (nth i wide 0)) ((d + 7) / 8) tmp.

Definition words : KeccakWords := {|
  lane := Z; lane_0 := 0; XOR64 := Z.lxor; AND64 := Z.land; OR64 := Z.lor;
  Keccak.NOT64 := NOT64; Keccak.ROL64 := ROL64; Keccak.XOR64_IOTA := XOR64_IOTA;
  Keccak.READ_STATE := READ_STATE; Keccak.WRITE_STATE := WRITE_STATE; Keccak.READ64 := READ64;
  Keccak.init_words := init_words; Keccak.finalize := finalize;
  Keccak.encode_words := encode_words
|}.
End Wide.
End Wide.

(** ** 32-bit words *)

Module Narrow.

(** [x##l] and [x##h]. *)
Record lane := Lane { l : Z; h : Z }.

(** One exchange of bits of a word: those selected by [m] and those [n] above. *)
Definition swap_bits (x m n : Z) : Z :=
  let t := (x .^ (x >> n)) .& m in x .^ (t .^ shl 32 t n).

Definition INTERLEAVE (x : lane) : lane :=
  let l := l x in
  let h := h x in
  let l := swap_bits l 0x22222222 1 in
  let h := swap_bits h 0x22222222 1 in
  let l := swap_bits l 0x0C0C0C0C 2 in
  let h := swap_bits h 0x0C0C0C0C 2 in
  let l := swap_bits l 0x00F000F0 4 in
  let h := swap_bits h 0x00F000F0 4 in
  let l := swap_bits l 0x0000FF00 8 in
  let h := swap_bits h 0x0000FF00 8 in
  let t := (l .^ SPH_T32 (h << 16)) .& 0xFFFF0000 in
  let l := l .^ t in
  let h := h .^ (t >> 16) in
  Lane l h.

Definition UNINTERLEAVE (x : lane) : lane :=
  let l := l x in
  let h := h x in
  let t := (l .^ SPH_T32 (h << 16)) .& 0xFFFF0000 in
  let l := l .^ t in
  let h := h .^ (t >> 16) in
  let l := swap_bits l 0x0000FF00 8 in
  let h := swap_bits h 0x0000FF00 8 in
  let l := swap_bits l 0x00F000F0 4 in
  let h := swap_bits h 0x00F000F0 4 in
  let l := swap_bits l 0x0C0C0C0C 2 in
  let h := swap_bits h 0x0C0C0C0C 2 in
  let l := swap_bits l 0x22222222 1 in
  let h := swap_bits h 0x22222222 1 in
  Lane l h.

Definition XOR64 (a b : lane) : lane := Lane (l a .^ l b) (h a .^ h b).
Definition AND64 (a b : lane) : lane := Lane (l a .& l b) (h a .& h b).
Definition OR64 (a b : lane) : lane := Lane (l a .| l b) (h a .| h b).
Definition NOT64 (s : lane) : lane := Lane (SPH_T32 (wnot 32 (l s))) (SPH_T32 (wnot 32 (h s))).

(** Rotations of interleaved words. *)
Definition ROL64_odd1 (v : lane) : lane :=
  let tmp := l v in
  Lane (SPH_T32 (h v << 1) .| (h v >> 31)) tmp.
Definition ROL64_odd63 (v : lane) : lane :=
  let tmp := SPH_T32 (l v << 31) .| (l v >> 1) in
  Lane (h v) tmp.
Definition ROL64_odd (v : lane) (n : Z) : lane :=
  let tmp := SPH_T32 (l v << (n - 1)) .| (l v >> (33 - n)) in
  Lane (SPH_T32 (h v << n) .| (h v >> (32 - n))) tmp.
Definition ROL64_even (v : lane) (n : Z) : lane :=
  Lane (SPH_T32 (l v << n) .| (l v >> (32 - n))) (SPH_T32 (h v << n) .| (h v >> (32 - n))).

(** [ROL64_0] to [ROL64_63] *)
Definition ROL64_interleaved (n : nat) (v : lane) : lane :=
  if (n =? 0)%nat then v
  else if (n =? 1)%nat then ROL64_odd1 v
  else if (n =? 63)%nat then ROL64_odd63 v
  else if Nat.even n then ROL64_even v (Z.of_nat (n / 2))
  else ROL64_odd v (Z.of_nat ((n + 1) / 2)).

(** Rotations of words that are not interleaved. *)
Definition ROL64_small (v : lane) (n : Z) : lane :=
  let tmp := SPH_T32 (l v << n) .| (h v >> (32 - n)) in
  Lane tmp (SPH_T32 (h v << n) .| (l v >> (32 - n))).
Definition ROL64_32 (v : lane) : lane := let tmp := l v in Lane (h v) tmp.
Definition ROL64_big (v : lane) (n : Z) : lane :=
  let tr := ROL64_small v n in Lane (h tr) (l tr).

Definition ROL64_plain (n : nat) (v : lane) : lane :=
  if (n =? 0)%nat then v
  else if (n <? 32)%nat then ROL64_small v (Z.of_nat n)
  else if (n =? 32)%nat then ROL64_32 v
  else ROL64_big v (Z.of_nat (n - 32)).

Section Narrow.
  Variable p : platform.
  (** [SPH_KECCAK_INTERLEAVE] *)
  Variable interleave : bool.

Definition ROL64 (n : nat) (v : lane) : lane :=
  if interleave then ROL64_interleaved n v else ROL64_plain n v.

(** The constant [k], with its [high] and [low]. *)
Definition XOR64_IOTA (s : lane) (j : nat) : lane :=
  let '(high, low) := nth j (if interleave then RC_interleaved else RC_narrow) (0, 0) in
  Lane (l s .^ low) (h s .^ high).

Definition READ_STATE (narrow : list Z) : list lane :=
  map (fun i => Lane (nth (2 * i + 0) narrow 0) (nth (2 * i + 1) narrow 0)) (seq 0 25).
Definition WRITE_STATE (a : list lane) : list Z :=
  concat (map (fun i => let x := nth i a (Lane 0 0) in [l x; h x]) (seq 0 25)).

Definition READ64 (buf : list Z) (off : nat) : lane :=
  let x := Lane (sph_dec32le_aligned p (slice buf off 4))
                (sph_dec32le_aligned p (slice buf (off + 4) 4)) in
  if interleave then INTERLEAVE x else x.

Definition narrow_complemented : list nat := [2; 3; 4; 5; 16; 17; 24; 25; 34; 35; 40; 41]%nat.

Definition init_words (narrow : list Z) : list Z :=
  let narrow := fold_left (fun narrow i => upd narrow i 0) (seq 0 50) narrow in
  fold_left (fun narrow i => upd narrow i 0xFFFFFFFF) narrow_complemented narrow.

Definition finalize (narrow : list Z) : list Z :=
  let narrow := fold_left (fun narrow i => upd narrow i (wnot 32 (nth i narrow 0)))
                  narrow_complemented narrow in
  fold_left (fun narrow i =>
      let j := (2 * i)%nat in
      let x := Lane (nth j narrow 0) (nth (j + 1) narrow 0) in
      let x := if interleave then UNINTERLEAVE x else x in
      upd (upd narrow j (l x)) (j + 1) (h x)) (seq 0 25) narrow.

(** [for (j = 0; j < d; j += 4)] *)
Definition encode_words (d : nat) (narrow tmp : list Z) : option (list Z) :=
  memcpy_loop 4 (fun i => sph_enc32le_aligned p (nth i narrow 0)) ((d + 3) / 4) tmp.

Definition words : KeccakWords := {|
  Keccak.lane := lane; lane_0 := Lane 0 0; Keccak.XOR64 := XOR64; Keccak.AND64 := AND64;
  Keccak.OR64 := OR64; Keccak.NOT64 := NOT64; Keccak.ROL64 := ROL64;
  Keccak.XOR64_IOTA := XOR64_IOTA;
  Keccak.READ_STATE := READ_STATE; Keccak.WRITE_STATE := WRITE_STATE; Keccak.READ64 := READ64;
  Keccak.init_words := init_words; Keccak.finalize := finalize;
  Keccak.encode_words := encode_words
|}.
End Narrow.
End Narrow.

(** ** The permutation *)

(** [SPH_KECCAK_UNROLL] *)
Inductive unroll := Unroll_0 | Unroll_1 | Unroll_2 | Unroll_4 | Unroll_6 | Unroll_8 | Unroll_12.

Section Keccak.
  Context {words : KeccakWords}.

(** The parameter [bXY] of a macro, and the word there. *)
Definition pos (b : list nat) (x y : nat) : nat := nth (5 * x + y) b 0%nat.
Definition word_at (a : list lane) (i : nat) : lane := nth i a lane_0.
Definition cell (b : list nat) (a : list lane) (x y : nat) : lane := word_at a (pos b x y).

Definition TH_ELT (c0 c1 c2 c3 c4 d0 d1 d2 d3 d4 : lane) : lane :=
  let tt0 := XOR64 d0 d1 in
  let tt1 := XOR64 d2 d3 in
  let tt0 := XOR64 tt0 d4 in
  let tt0 := XOR64 tt0 tt1 in
  let tt0 := ROL64 1 tt0 in
  let tt2 := XOR64 c0 c1 in
  let tt3 := XOR64 c2 c3 in
  let tt0 := XOR64 tt0 c4 in
  let tt2 := XOR64 tt2 tt3 in
  XOR64 tt0 tt2.

Definition THETA (b : list nat) (a : list lane) : list lane :=
  let t0 := TH_ELT (cell b a 4 0) (cell b a 4 1) (cell b a 4 2) (cell b a 4 3) (cell b a 4 4)
                   (cell b a 1 0) (cell b a 1 1) (cell b a 1 2) (cell b a 1 3) (cell b a 1 4) in
  let t1 := TH_ELT (cell b a 0 0) (cell b a 0 1) (cell b a 0 2) (cell b a 0 3) (cell b a 0 4)
                   (cell b a 2 0) (cell b a 2 1) (cell b a 2 2) (cell b a 2 3) (cell b a 2 4) in
  let t2 := TH_ELT (cell b a 1 0) (cell b a 1 1) (cell b a 1 2) (cell b a 1 3) (cell b a 1 4)
                   (cell b a 3 0) (cell b a 3 1) (cell b a 3 2) (cell b a 3 3) (cell b a 3 4) in
  let t3 := TH_ELT (cell b a 2 0) (cell b a 2 1) (cell b a 2 2) (cell b a 2 3) (cell b a 2 4)
                   (cell b a 4 0) (cell b a 4 1) (cell b a 4 2) (cell b a 4 3) (cell b a 4 4) in
  let t4 := TH_ELT (cell b a 3 0) (cell b a 3 1) (cell b a 3 2) (cell b a 3 3) (cell b a 3 4)
                   (cell b a 0 0) (cell b a 0 1) (cell b a 0 2) (cell b a 0 3) (cell b a 0 4) in
  fold_left (fun a '(x, y, t) => upd a (pos b x y) (XOR64 (word_at a (pos b x y)) t))
    [(0, 0, t0); (0, 1, t0); (0, 2, t0); (0, 3, t0); (0, 4, t0);
     (1, 0, t1); (1, 1, t1); (1, 2, t1); (1, 3, t1); (1, 4, t1);
     (2, 0, t2); (2, 1, t2); (2, 2, t2); (2, 3, t2); (2, 4, t2);
     (3, 0, t3); (3, 1, t3); (3, 2, t3); (3, 3, t3); (3, 4, t3);
     (4, 0, t4); (4, 1, t4); (4, 2, t4); (4, 3, t4); (4, 4, t4)]%nat a.

Definition RHO (b : list nat) (a : list lane) : list lane :=
  fold_left (fun a '(x, y, n) => upd a (pos b x y) (ROL64 n (word_at a (pos b x y))))
    [(0, 1, 36); (0, 2, 3); (0, 3, 41); (0, 4, 18);
     (1, 0, 1); (1, 1, 44); (1, 2, 10); (1, 3, 45); (1, 4, 2);
     (2, 0, 62); (2, 1, 6); (2, 2, 43); (2, 3, 15); (2, 4, 61);
     (3, 0, 28); (3, 1, 55); (3, 2, 25); (3, 3, 21); (3, 4, 56);
     (4, 0, 27); (4, 1, 20); (4, 2, 39); (4, 3, 8); (4, 4, 14)]%nat a.

Definition KHI_XO (a b c : lane) : lane := let kt := OR64 b c in XOR64 a kt.
Definition KHI_XA (a b c : lane) : lane := let kt := AND64 b c in XOR64 a kt.

(** [MOV64(b0y, c0); ...; MOV64(b4y, c4)] *)
Definition mov_row (b : list nat) (y : nat) (c0 c1 c2 c3 c4 : lane) (a : list lane) : list lane :=
  let a := upd a (pos b 0 y) c0 in
  let a := upd a (pos b 1 y) c1 in
  let a := upd a (pos b 2 y) c2 in
  let a := upd a (pos b 3 y) c3 in
  upd a (pos b 4 y) c4.

(** One block of [KHI] per row; [bnn] is the complemented word. *)
Definition KHI_row0 (b : list nat) (a : list lane) : list lane :=
  let bnn := NOT64 (cell b a 2 0) in
  let c0 := KHI_XO (cell b a 0 0) (cell b a 1 0) (cell b a 2 0) in
  let c1 := KHI_XO (cell b a 1 0) bnn (cell b a 3 0) in
  let c2 := KHI_XA (cell b a 2 0) (cell b a 3 0) (cell b a 4 0) in
  let c3 := KHI_XO (cell b a 3 0) (cell b a 4 0) (cell b a 0 0) in
  let c4 := KHI_XA (cell b a 4 0) (cell b a 0 0) (cell b a 1 0) in
  mov_row b 0 c0 c1 c2 c3 c4 a.
Definition KHI_row1 (b : list nat) (a : list lane) : list lane :=
  let bnn := NOT64 (cell b a 4 1) in
  let c0 := KHI_XO (cell b a 0 1) (cell b a 1 1) (cell b a 2 1) in
  let c1 := KHI_XA (cell b a 1 1) (cell b a 2 1) (cell b a 3 1) in
  let c2 := KHI_XO (cell b a 2 1) (cell b a 3 1) bnn in
  let c3 := KHI_XO (cell b a 3 1) (cell b a 4 1) (cell b a 0 1) in
  let c4 := KHI_XA (cell b a 4 1) (cell b a 0 1) (cell b a 1 1) in
  mov_row b 1 c0 c1 c2 c3 c4 a.
Definition KHI_row2 (b : list nat) (a : list lane) : list lane :=
  let bnn := NOT64 (cell b a 3 2) in
  let c0 := KHI_XO (cell b a 0 2) (cell b a 1 2) (cell b a 2 2) in
  let c1 := KHI_XA (cell b a 1 2) (cell b a 2 2) (cell b a 3 2) in
  let c2 := KHI_XA (cell b a 2 2) bnn (cell b a 4 2) in
  let c3 := KHI_XO bnn (cell b a 4 2) (cell b a 0 2) in
  let c4 := KHI_XA (cell b a 4 2) (cell b a 0 2) (cell b a 1 2) in
  mov_row b 2 c0 c1 c2 c3 c4 a.
Definition KHI_row3 (b : list nat) (a : list lane) : list lane :=
  let bnn := NOT64 (cell b a 3 3) in
  let c0 := KHI_XA (cell b a 0 3) (cell b a 1 3) (cell b a 2 3) in
  let c1 := KHI_XO (cell b a 1 3) (cell b a 2 3) (cell b a 3 3) in
  let c2 := KHI_XO (cell b a 2 3) bnn (cell b a 4 3) in
  let c3 := KHI_XA bnn (cell b a 4 3) (cell b a 0 3) in
  let c4 := KHI_XO (cell b a 4 3) (cell b a 0 3) (cell b a 1 3) in
  mov_row b 3 c0 c1 c2 c3 c4 a.
Definition KHI_row4 (b : list nat) (a : list lane) : list lane :=
  let bnn := NOT64 (cell b a 1 4) in
  let c0 := KHI_XA (cell b a 0 4) bnn (cell b a 2 4) in
  let c1 := KHI_XO bnn (cell b a 2 4) (cell b a 3 4) in
  let c2 := KHI_XA (cell b a 2 4) (cell b a 3 4) (cell b a 4 4) in
  let c3 := KHI_XO (cell b a 3 4) (cell b a 4 4) (cell b a 0 4) in
  let c4 := KHI_XA (cell b a 4 4) (cell b a 0 4) (cell b a 1 4) in
  mov_row b 4 c0 c1 c2 c3 c4 a.

Definition KHI (b : list nat) (a : list lane) : list lane :=
  let a := KHI_row0 b a in
  let a := KHI_row1 b a in
  let a := KHI_row2 b a in
  let a := KHI_row3 b a in
  KHI_row4 b a.

Definition IOTA (j : nat) (a : list lane) : list lane :=
  upd a a00 (XOR64_IOTA (word_at a a00) j).

(** [Pn_TO_P0], with the temporary [t]. *)
Definition run_move (st : list lane * lane) (m : move) : list lane * lane :=
  let '(a, t) := st in
  let v := match snd m with Some s => word_at a s | None => t end in
  match fst m with Some d => (upd a d v, t) | None => (a, v) end.
Definition run_moves (ms : list move) (a : list lane) : list lane :=
  fst (fold_left run_move ms (a, lane_0)).

Definition KF_ELT (r s k : nat) (a : list lane) : list lane :=
  let a := THETA (nth r layouts []) a in
  let a := RHO (nth r layouts []) a in
  let a := KHI (nth s layouts []) a in
  IOTA k a.

(** A sequence [KF_ELT(r, s, RC[j + k])]. *)
Definition KF_ELTs (j : nat) (l : list (nat * nat * nat)) (a : list lane) : list lane :=
  fold_left (fun a '(r, s, k) => KF_ELT r s (j + k) a) l a.

(** [for (j = 0; j < 24; j += n) { KF_ELT ...; Pn_TO_P0; }] *)
Definition KF_loop (n : nat) (l : list (nat * nat * nat)) (back : list move) (a : list lane) :
    list lane :=
  fold_left (fun a i => run_moves back (KF_ELTs (n * i) l a)) (seq 0 (24 / n)) a.

Definition KECCAK_F_1600 (u : unroll) (a : list lane) : list lane :=
  match u with
  | Unroll_1 => KF_loop 1 [(0, 1, 0)]%nat P1_TO_P0 a
  | Unroll_2 => KF_loop 2 [(0, 1, 0); (1, 2, 1)]%nat P2_TO_P0 a
  | Unroll_4 => KF_loop 4 [(0, 1, 0); (1, 2, 1); (2, 3, 2); (3, 4, 3)]%nat P4_TO_P0 a
  | Unroll_6 =>
      KF_loop 6 [(0, 1, 0); (1, 2, 1); (2, 3, 2); (3, 4, 3); (4, 5, 4); (5, 6, 5)]%nat P6_TO_P0 a
  | Unroll_8 =>
      KF_loop 8 [(0, 1, 0); (1, 2, 1); (2, 3, 2); (3, 4, 3);
                 (4, 5, 4); (5, 6, 5); (6, 7, 6); (7, 8, 7)]%nat P8_TO_P0 a
  | Unroll_12 =>
      KF_loop 12 [(0, 1, 0); (1, 2, 1); (2, 3, 2); (3, 4, 3); (4, 5, 4); (5, 6, 5);
                  (6, 7, 6); (7, 8, 7); (8, 9, 8); (9, 10, 9); (10, 11, 10);
                  (11, 12, 11)]%nat P12_TO_P0 a
  | Unroll_0 =>
      KF_ELTs 0 [(0, 1, 0); (1, 2, 1); (2, 3, 2); (3, 4, 3); (4, 5, 4); (5, 6, 5); (6, 7, 6);
                 (7, 8, 7); (8, 9, 8); (9, 10, 9); (10, 11, 10); (11, 12, 11); (12, 13, 12);
                 (13, 14, 13); (14, 15, 14); (15, 16, 15); (16, 17, 16); (17, 18, 17);
                 (18, 19, 18); (19, 20, 19); (20, 21, 20); (21, 22, 21); (22, 23, 22);
                 (23, 0, 23)]%nat a
  end.

(** ** Absorbing a block *)

(** [aXY ^= READ64(buf + off)] *)
Definition xor_input (buf : list Z) (a : list lane) (x : nat * nat) : list lane :=
  let '(i, off) := x in upd a i (XOR64 (word_at a i) (READ64 buf off)).

(** [INPUT_BUF(size)], on the words of the context. *)
Definition INPUT_BUF_loop (size : nat) (buf : list Z) (a : list lane) : list lane :=
  fold_left (xor_input buf) (map (fun i => (i, 8 * i)%nat) (seq 0 (size / 8))) a.

(** [INPUT_BUF(lim)], on the local variables. *)
Definition INPUT_BUF_copy (lim : nat) (buf : list Z) (a : list lane) : list lane :=
  let a := fold_left (xor_input buf)
    [(a00, 0); (a10, 8); (a20, 16); (a30, 24); (a40, 32);
     (a01, 40); (a11, 48); (a21, 56); (a31, 64)]%nat a in
  if (lim =? 72)%nat then a else
  let a := fold_left (xor_input buf) [(a41, 72); (a02, 80); (a12, 88); (a22, 96)]%nat a in
  if (lim =? 104)%nat then a else
  let a := fold_left (xor_input buf) [(a32, 104); (a42, 112); (a03, 120); (a13, 128)]%nat a in
  if (lim =? 136)%nat then a else
  fold_left (xor_input buf) [(a23, 136)]%nat a.

(** The same for one block size, without tests. *)
Definition INPUT_BUF144 (buf : list Z) (a : list lane) : list lane :=
  fold_left (xor_input buf)
    [(a00, 0); (a10, 8); (a20, 16); (a30, 24); (a40, 32); (a01, 40);
     (a11, 48); (a21, 56); (a31, 64); (a41, 72); (a02, 80); (a12, 88);
     (a22, 96); (a32, 104); (a42, 112); (a03, 120); (a13, 128); (a23, 136)]%nat a.
Definition INPUT_BUF136 (buf : list Z) (a : list lane) : list lane :=
  fold_left (xor_input buf)
    [(a00, 0); (a10, 8); (a20, 16); (a30, 24); (a40, 32); (a01, 40);
     (a11, 48); (a21, 56); (a31, 64); (a41, 72); (a02, 80); (a12, 88);
     (a22, 96); (a32, 104); (a42, 112); (a03, 120); (a13, 128)]%nat a.
Definition INPUT_BUF104 (buf : list Z) (a : list lane) : list lane :=
  fold_left (xor_input buf)
    [(a00, 0); (a10, 8); (a20, 16); (a30, 24); (a40, 32); (a01, 40);
     (a11, 48); (a21, 56); (a31, 64); (a41, 72); (a02, 80); (a12, 88);
     (a22, 96)]%nat a.
Definition INPUT_BUF72 (buf : list Z) (a : list lane) : list lane :=
  fold_left (xor_input buf)
    [(a00, 0); (a10, 8); (a20, 16); (a30, 24); (a40, 32); (a01, 40);
     (a11, 48); (a21, 56); (a31, 64)]%nat a.

(** [SPH_KECCAK_UNROLL] and [SPH_KECCAK_NOCOPY] *)
  Variable un : unroll.
  Variable nocopy : bool.

Definition INPUT_BUF (lim : nat) (buf : list Z) (a : list lane) : list lane :=
  if nocopy then INPUT_BUF_loop lim buf a else INPUT_BUF_copy lim buf a.

(** [sph_keccak_context]; [u] is the member of the union in use. *)
Record keccak_context := KeccakContext { buf : list Z; ptr : nat; lim : nat; u : list Z }.

Definition keccak_init (kc : keccak_context) (out_size : Z) : keccak_context :=
  {| buf := buf kc; ptr := 0; lim := 200 - Z.to_nat (out_size >> 2); u := init_words (u kc) |}.

(** What the loop does with a full buffer. *)
Definition keccak_block (lim : nat) (buf : list Z) (a : list lane) : list lane :=
  KECCAK_F_1600 un (INPUT_BUF lim buf a).

Definition keccak_core (kc : keccak_context) (data : list Z) (lim : nat) : option keccak_context :=
  if (length data <? lim - ptr kc)%nat
  then
    let* b := memcpy_at (buf kc) (ptr kc) data in
    Some {| buf := b; ptr := ptr kc + length data; Keccak.lim := Keccak.lim kc; u := u kc |}
  else
    let* c := absorb_loop lim (keccak_block lim) (length data)
                (Bctx (buf kc) (ptr kc) (READ_STATE (u kc))) data in
    Some {| buf := b_buf c; ptr := b_ptr c; Keccak.lim := Keccak.lim kc;
            u := WRITE_STATE (b_st c) |}.

(** [DEFCLOSE(d, lim)]; [stack] is the content of the uninitialised [u.tmp]. *)
Definition keccak_close (d lim : nat) (stack : list Z) (kc : keccak_context) (ub n : Z) :
    option (list Z * keccak_context) :=
  let eb := (0x100 .| (ub .& 0xFF)) >> (8 - n) in
  let* (tmp, j) :=
    if (ptr kc =? lim - 1)%nat then
      if n =? 7 then
        let* tmp := memcpy_at stack 0 [trunc 8 eb] in
        let* tmp := memset_at tmp 1 0 (lim - 1) in
        let* tmp := memcpy_at tmp lim [0x80] in
        Some (tmp, 1 + lim)%nat
      else
        let* tmp := memcpy_at stack 0 [trunc 8 (eb .| 0x80)] in
        Some (tmp, 1%nat)
    else
      let j := (lim - ptr kc)%nat in
      let* tmp := memcpy_at stack 0 [trunc 8 eb] in
      let* tmp := memset_at tmp 1 0 (j - 2) in
      let* tmp := memcpy_at tmp (j - 1) [0x80] in
      Some (tmp, j) in
  let* kc := keccak_core kc (firstn j tmp) lim in
  let u' := finalize (u kc) in
  let* tmp := encode_words d u' tmp in
  Some (firstn d tmp,
        keccak_init {| buf := buf kc; ptr := ptr kc; Keccak.lim := Keccak.lim kc; u := u' |}
          (Z.of_nat d << 3)).

(** ** The interface of sph_keccak.h *)

Definition sph_keccak224_init (cc : keccak_context) : keccak_context := keccak_init cc 224.
Definition sph_keccak224 (cc : keccak_context) (data : list Z) : option keccak_context :=
  keccak_core cc data 144.
Definition sph_keccak224_addbits_and_close stack (cc : keccak_context) (ub n : Z) :=
  keccak_close 28 144 stack cc ub n.
Definition sph_keccak224_close stack (cc : keccak_context) :=
  sph_keccak224_addbits_and_close stack cc 0 0.

Definition sph_keccak256_init (cc : keccak_context) : keccak_context := keccak_init cc 256.
Definition sph_keccak256 (cc : keccak_context) (data : list Z) : option keccak_context :=
  keccak_core cc data 136.
Definition sph_keccak256_addbits_and_close stack (cc : keccak_context) (ub n : Z) :=
  keccak_close 32 136 stack cc ub n.
Definition sph_keccak256_close stack (cc : keccak_context) :=
  sph_keccak256_addbits_and_close stack cc 0 0.

Definition sph_keccak384_init (cc : keccak_context) : keccak_context := keccak_init cc 384.
Definition sph_keccak384 (cc : keccak_context) (data : list Z) : option keccak_context :=
  keccak_core cc data 104.
Definition sph_keccak384_addbits_and_close stack (cc : keccak_context) (ub n : Z) :=
  keccak_close 48 104 stack cc ub n.
Definition sph_keccak384_close stack (cc : keccak_context) :=
  sph_keccak384_addbits_and_close stack cc 0 0.

Definition sph_keccak512_init (cc : keccak_context) : keccak_context := keccak_init cc 512.
Definition sph_keccak512 (cc : keccak_context) (data : list Z) : option keccak_context :=
  keccak_core cc data 72.
Definition sph_keccak512_addbits_and_close stack (cc : keccak_context) (ub n : Z) :=
  keccak_close 64 72 stack cc ub n.
Definition sph_keccak512_close stack (cc : keccak_context) :=
  sph_keccak512_addbits_and_close stack cc 0 0.
End Keccak.
