(* ===== verification/KeccakSpec.v ===== *)
(** * The specification of Keccak

    The sponge function Keccak[r, c] with the permutation Keccak-f[1600], as
    its designers define it: the five step mappings on a state of 5 x 5 lanes
    of 64 bits, the rotation offsets and the round constants generated (by the
    walk (x, y) -> (y, 2x + 3y) and by the linear feedback shift register of
    degree 8), the padding 10*1.  Nothing here is taken from src/. *)

From Stdlib Require Import ZArith List Lia Bool.
From S2P Require Import Prelude BitStrings.
Import ListNotations.

Module KeccakSpec.

(** The lane at coordinates x, y (modulo 5) of a state. *)
Definition lane (A : list Z) (x y : nat) : Z := nth (x mod 5 + 5 * (y mod 5)) A 0.
Definition make (f : nat -> nat -> Z) : list Z := map (fun i => f (i mod 5) (i / 5))%nat (seq 0 25).

Definition rotl (v : Z) (n : nat) : Z :=
  trunc 64 (Z.shiftl v (Z.of_nat n)) .| (v >> (64 - Z.of_nat n)).

Definition theta_C (A : list Z) (x : nat) : Z :=
  lane A x 0 .^ lane A x 1 .^ lane A x 2 .^ lane A x 3 .^ lane A x 4.
Definition theta_D (A : list Z) (x : nat) : Z :=
  theta_C A (x + 4) .^ rotl (theta_C A (x + 1)) 1.
Definition theta (A : list Z) : list Z := make (fun x y => lane A x y .^ theta_D A x).

(** The offset of a lane: (t + 1) (t + 2) / 2 for the [t]-th lane of the walk. *)
Fixpoint offset_from (n t x y x' y' : nat) : nat :=
  match n with
  | O => 0%nat
  | S n' =>
      if ((x =? x') && (y =? y'))%nat then ((t + 1) * (t + 2) / 2) mod 64
      else offset_from n' (t + 1) y ((2 * x + 3 * y) mod 5) x' y'
  end.
Definition offset (x y : nat) : nat := offset_from 24 0 1 0 x y.

Definition rho (A : list Z) : list Z := make (fun x y => rotl (lane A x y) (offset x y)).
Definition pi (A : list Z) : list Z := make (fun x y => lane A (x + 3 * y) x).
Definition chi (A : list Z) : list Z :=
  make (fun x y => lane A x y .^ (wnot 64 (lane A (x + 1) y) .& lane A (x + 2) y)).

(** The shift register, and the round constants. *)
Definition lfsr_step (s : Z) : Z :=
  let s := Z.shiftl s 1 in if Z.testbit s 8 then s .^ 0x171 else s.
Definition rc (t : nat) : bool := Z.testbit (Nat.iter t lfsr_step 1) 0.
Definition RC (r : nat) : Z :=
  fold_left (fun v j => if rc (j + 7 * r) then Z.setbit v (2 ^ Z.of_nat j - 1) else v) (seq 0 7) 0.
Definition iota (r : nat) (A : list Z) : list Z :=
  make (fun x y => if ((x =? 0) && (y =? 0))%nat then lane A x y .^ RC r else lane A x y).

Definition round (r : nat) (A : list Z) : list Z := iota r (chi (pi (rho (theta A)))).
Definition f1600 (A : list Z) : list Z := fold_left (fun A r => round r A) (seq 0 24) A.

(** The sponge, on strings of bits: the least significant bit of a byte, or of
    a lane, comes first. *)
Abbreviation bits_of_bytes := (bits_of lsb_first).

Fixpoint Z_of_bits (l : list bool) : Z :=
  match l with
  | [] => 0
  | b :: l' => (if b then 1 else 0) + 2 * Z_of_bits l'
  end.

Definition pad (r : nat) (m : list bool) : list bool :=
  m ++ [true] ++ repeat false ((r - (length m + 2) mod r) mod r) ++ [true].

Definition absorb_block (A : list Z) (blk : list bool) : list Z :=
  f1600 (map (fun i => nth i A 0 .^ Z_of_bits (slice blk (64 * i) 64)) (seq 0 25)).
Definition absorb_blocks (blocks : list (list bool)) : list Z :=
  fold_left absorb_block blocks (repeat 0 25).

Definition state_bits (A : list Z) : list bool :=
  map (fun i => Z.testbit (nth (i / 64) A 0) (Z.of_nat (i mod 64))) (seq 0 1600).

(** [d] bits of digest: rate r = 1600 - 2 d, one squeeze. *)
Definition hash (d : nat) (m : list bool) : list bool :=
  let r := (1600 - 2 * d)%nat in
  firstn d (state_bits (absorb_blocks (chunks r (pad r m)))).

End KeccakSpec.
