(* ===== verification/KeccakProof.v ===== *)
(** * The permutation of keccak.c is Keccak-f[1600]

    Two things separate the code from the specification: the words never
    move (each round has its own layout of the state, [P##r]), and six of the
    words are kept complemented between the rounds.  The first is removed by
    [view], the state in the order of the specification; the second by the
    linearity of theta, rho and pi.  Everything is proved against the
    interface [KeccakLaws], what a word representation owes to the code. *)

From Stdlib Require Import ZArith List Lia Bool Btauto.
From S2P Require Import Prelude BitStrings SphTypes Stream KeccakTables Keccak KeccakSpec.
Import ListNotations.

(** ** The interface *)

Class KeccakLaws (words : KeccakWords) := {
  (** The lane [x] is the 64-bit word [v]. *)
  reps : lane -> Z -> Prop;
  reps_word x v : reps x v -> word 64 v;
  XOR64_reps x y v w : reps x v -> reps y w -> reps (XOR64 x y) (v .^ w);
  AND64_reps x y v w : reps x v -> reps y w -> reps (AND64 x y) (v .& w);
  OR64_reps x y v w : reps x v -> reps y w -> reps (OR64 x y) (v .| w);
  NOT64_reps x v : reps x v -> reps (NOT64 x) (wnot 64 v);
  ROL64_reps n x v : (0 < n < 64)%nat -> reps x v -> reps (ROL64 n x) (KeccakSpec.rotl v n);
  IOTA_reps j x v : (j < 24)%nat -> reps x v -> reps (XOR64_IOTA x j) (v .^ KeccakSpec.RC j);
  READ64_reps b off :
    bytes b -> (off + 8 <= length b)%nat -> reps (READ64 b off) (le_load 8 (slice b off 8))
}.

(** ** The layouts *)

Section Layouts.
  Context {words : KeccakWords}.

(** The state in the order of the specification. *)
Definition view (b : list nat) (a : list lane) : list lane :=
  map (fun i => cell b a (i mod 5) (i / 5)) (seq 0 25).

(** A state of 25 words, word by word. *)
Ltac expose_state a :=
  do 25 (destruct a as [|?x a]; [discriminate|]); destruct a; [|discriminate].
Ltac each_layout r :=
  do 24 (destruct r as [|r]; [lazy; reflexivity|]); lia.

Abbreviation P r := (nth r layouts []).

Lemma view_P0 a : length a = 25%nat -> view P0 a = a.
Proof. intros H. expose_state a. reflexivity. Qed.

Lemma view_THETA r a :
  (r < 24)%nat -> length a = 25%nat -> view (P r) (THETA (P r) a) = THETA P0 (view (P r) a).
Proof. intros Hr H. expose_state a. each_layout r. Qed.

Lemma view_RHO r a :
  (r < 24)%nat -> length a = 25%nat -> view (P r) (RHO (P r) a) = RHO P0 (view (P r) a).
Proof. intros Hr H. expose_state a. each_layout r. Qed.

Lemma view_KHI r a :
  (r < 24)%nat -> length a = 25%nat -> view (P r) (KHI (P r) a) = KHI P0 (view (P r) a).
Proof. intros Hr H. expose_state a. each_layout r. Qed.

Lemma view_IOTA r k a :
  (r < 24)%nat -> length a = 25%nat -> view (P r) (IOTA k a) = IOTA k (view (P r) a).
Proof. intros Hr H. expose_state a. each_layout r. Qed.

Lemma length_THETA b a : length (THETA b a) = length a.
Proof. apply length_fold_left. intros a' [[x y] t]. apply length_upd. Qed.

Lemma length_RHO b a : length (RHO b a) = length a.
Proof. apply length_fold_left. intros a' [[x y] t]. apply length_upd. Qed.

Lemma length_mov_row b y c0 c1 c2 c3 c4 a : length (mov_row b y c0 c1 c2 c3 c4 a) = length a.
Proof. unfold mov_row. cbv zeta. now rewrite !length_upd. Qed.

Lemma length_KHI b a : length (KHI b a) = length a.
Proof.
  unfold KHI. cbv zeta. unfold KHI_row4. cbv zeta. rewrite length_mov_row.
  unfold KHI_row3. cbv zeta. rewrite length_mov_row. unfold KHI_row2. cbv zeta. rewrite length_mov_row.
  unfold KHI_row1. cbv zeta. rewrite length_mov_row. apply length_mov_row.
Qed.

Lemma length_IOTA k a : length (IOTA k a) = length a.
Proof. apply length_upd. Qed.

Lemma length_KF_ELT r s k a : length (KF_ELT r s k a) = length a.
Proof. unfold KF_ELT. cbv zeta. now rewrite length_IOTA, length_KHI, length_RHO, length_THETA. Qed.

Lemma length_view b a : length (view b a) = 25%nat.
Proof. unfold view. now rewrite length_map, length_seq. Qed.

(** The next layout is pi of this one, and the layouts have period 24. *)
Definition next_layout (r : nat) : nat := if (r =? 23)%nat then 0%nat else S r.
Definition PI (a : list lane) : list lane :=
  map (fun i => word_at a ((i mod 5 + 3 * (i / 5)) mod 5 + 5 * (i mod 5))%nat) (seq 0 25).

Lemma view_next r a :
  (r < 24)%nat -> length a = 25%nat -> view (P (next_layout r)) a = PI (view (P r) a).
Proof. intros Hr H. expose_state a. each_layout r. Qed.

(** One round, in the first layout. *)
Definition ROUND (k : nat) (a : list lane) : list lane := IOTA k (KHI P0 (PI (RHO P0 (THETA P0 a)))).

Lemma view_KF_ELT r k a :
  (r < 24)%nat -> length a = 25%nat ->
  view (P (next_layout r)) (KF_ELT r (next_layout r) k a) = ROUND k (view (P r) a).
Proof.
  intros Hr H. assert (Hs : (next_layout r < 24)%nat)
    by (unfold next_layout; destruct (Nat.eqb_spec r 23); lia).
  unfold KF_ELT, ROUND. cbv zeta.
  rewrite view_IOTA, view_KHI, view_next, view_RHO, view_THETA
    by (rewrite ?length_KHI, ?length_RHO, ?length_THETA; assumption). reflexivity.
Qed.

#[local] Opaque KF_ELT ROUND.

(** A sequence of rounds. *)
Definition ROUNDS (j n : nat) (a : list lane) : list lane :=
  fold_left (fun a k => ROUND k a) (seq j n) a.

Definition elts (n : nat) : list (nat * nat * nat) := map (fun r => (r, next_layout r, r)) (seq 0 n).

Lemma length_KF_ELTs j l a : length (KF_ELTs j l a) = length a.
Proof. apply length_fold_left. intros a' [[r s] k]. apply length_KF_ELT. Qed.

Lemma view_KF_ELTs j n a :
  (n <= 24)%nat -> length a = 25%nat ->
  view (P (if (n =? 24)%nat then 0%nat else n)) (KF_ELTs j (elts n) a) = ROUNDS j n (view P0 a).
Proof.
  intros Hn H. assert (G : forall m, (m <= n)%nat ->
    view (P (if (m =? 24)%nat then 0%nat else m)) (KF_ELTs j (elts m) a) = ROUNDS j m (view P0 a)).
  { induction m as [|m IH]; intros Hm; [reflexivity|].
    unfold elts, ROUNDS, KF_ELTs in *. rewrite !seq_S, map_app, !fold_left_app. cbn [map fold_left Nat.add].
    rewrite <- IH by lia. destruct (Nat.eqb_spec m 24) as [|Hm']; [lia|].
    replace (if (S m =? 24)%nat then 0%nat else S m) with (next_layout m) by reflexivity.
    rewrite view_KF_ELT; [reflexivity|lia|]. exact (eq_trans (length_KF_ELTs j (elts m) a) H). }
  now apply G.
Qed.

(** The moves at the end of a loop body bring the words back. *)
Lemma run_moves_view n back a :
  In (n, back) [(1, P1_TO_P0); (2, P2_TO_P0); (4, P4_TO_P0); (6, P6_TO_P0); (8, P8_TO_P0);
                (12, P12_TO_P0)]%nat ->
  length a = 25%nat -> run_moves back a = view (P n) a.
Proof.
  cbn [In]. intros Hn H. expose_state a.
  repeat (destruct Hn as [[= <- <-]|Hn]; [lazy; reflexivity|]). contradiction.
Qed.

Lemma KF_loop_rounds n back a :
  In (n, back) [(1, P1_TO_P0); (2, P2_TO_P0); (4, P4_TO_P0); (6, P6_TO_P0); (8, P8_TO_P0);
                (12, P12_TO_P0)]%nat ->
  length a = 25%nat -> KF_loop n (elts n) back a = ROUNDS 0 24 a.
Proof.
  intros Hn H. unfold KF_loop.
  assert (Hn' : (n <= 12 /\ n * (24 / n) = 24)%nat).
  { cbn [In] in Hn. repeat (destruct Hn as [[= <- _]|Hn]; [split; [lia|reflexivity]|]). contradiction. }
  assert (G : forall m, let a' := fold_left (fun a i => run_moves back (KF_ELTs (n * i) (elts n) a))
      (seq 0 m) a in length a' = 25%nat /\ a' = ROUNDS 0 (n * m) a).
  { induction m as [|m [IHl IH]]; [now rewrite Nat.mul_0_r|]. cbv zeta in *.
    rewrite seq_S, fold_left_app. cbn [fold_left Nat.add].
    set (a' := fold_left _ _ a) in *.
    rewrite (run_moves_view n) by (rewrite ?length_KF_ELTs; assumption).
    split; [apply length_view|].
    pose proof (view_KF_ELTs (n * m) n a' ltac:(lia) IHl) as V.
    destruct (Nat.eqb_spec n 24); [lia|]. rewrite V, view_P0 by assumption.
    rewrite IH. unfold ROUNDS. rewrite Nat.mul_succ_r, seq_app, fold_left_app. reflexivity. }
  destruct (G (24 / n)%nat) as [_ ->]. now rewrite (proj2 Hn').
Qed.

(** All the unrollings are 24 rounds. *)
Lemma KECCAK_F_1600_rounds un a :
  length a = 25%nat -> KECCAK_F_1600 un a = ROUNDS 0 24 a.
Proof.
  intros H. destruct un; cbn [KECCAK_F_1600].
  - pose proof (view_KF_ELTs 0 24 a (le_n _) H) as V. cbn [Nat.eqb nth layouts] in V.
    rewrite !view_P0 in V by (rewrite ?length_KF_ELTs; assumption). exact V.
  - apply (KF_loop_rounds 1); [cbn; tauto|assumption].
  - apply (KF_loop_rounds 2); [cbn; tauto|assumption].
  - apply (KF_loop_rounds 4); [cbn; tauto|assumption].
  - apply (KF_loop_rounds 6); [cbn; tauto|assumption].
  - apply (KF_loop_rounds 8); [cbn; tauto|assumption].
  - apply (KF_loop_rounds 12); [cbn; tauto|assumption].
Qed.
End Layouts.

(** ** The linear steps *)

Section Lanes.

Definition xors (A B : list Z) : list Z := map (fun '(a, b) => a .^ b) (combine A B).

Lemma rotl_word v n : (n <= 64)%nat -> word 64 v -> word 64 (KeccakSpec.rotl v n).
Proof. intros Hn Hv. unfold KeccakSpec.rotl. auto with words. Qed.

Lemma rotl_testbit v n k :
  (n < 64)%nat -> word 64 v -> 0 <= k < 64 ->
  Z.testbit (KeccakSpec.rotl v n) k = Z.testbit v ((k - Z.of_nat n) mod 64).
Proof.
  intros Hn Hv Hk. rewrite <- SPH_ROTL64_testbit by (assumption || lia).
  unfold KeccakSpec.rotl, SPH_ROTL64. change SPH_T64 with (trunc 64). autorewrite with zbits. decide_cmp.
  reflexivity.
Qed.

Lemma rotl_lxor v w n :
  (n < 64)%nat -> word 64 v -> word 64 w ->
  KeccakSpec.rotl (v .^ w) n = KeccakSpec.rotl v n .^ KeccakSpec.rotl w n.
Proof.
  intros Hn Hv Hw. apply (word_ext 64); auto using rotl_word, lxor_word with words; try lia.
  - apply rotl_word; auto with words. lia.
  - apply lxor_word; [lia|apply rotl_word; [lia|assumption]..].
  - intros k Hk. rewrite Z.lxor_spec, !rotl_testbit by (auto with words). apply Z.lxor_spec.
Qed.

(** The state as a list of 25 words. *)
Lemma make_ext f g :
  (forall x y, (x < 5)%nat -> (y < 5)%nat -> f x y = g x y) -> KeccakSpec.make f = KeccakSpec.make g.
Proof.
  intros H. unfold KeccakSpec.make. apply map_ext_in. intros i Hi%in_seq. apply H.
  - apply Nat.mod_upper_bound. lia.
  - apply Nat.Div0.div_lt_upper_bound. lia.
Qed.

Lemma xors_make f g : xors (KeccakSpec.make f) (KeccakSpec.make g) = KeccakSpec.make (fun x y => f x y .^ g x y).
Proof. reflexivity. Qed.

Lemma nth_xors A B i : length A = length B -> nth i (xors A B) 0 = nth i A 0 .^ nth i B 0.
Proof.
  revert B i. induction A as [|a A IH]; intros [|b B] [|i] H; try discriminate; try reflexivity.
  cbn. apply IH. now injection H.
Qed.

Lemma lane_xors A B x y :
  length A = length B -> KeccakSpec.lane (xors A B) x y = KeccakSpec.lane A x y .^ KeccakSpec.lane B x y.
Proof. apply nth_xors. Qed.

Lemma lane_word A x y : Forall (word 64) A -> word 64 (KeccakSpec.lane A x y).
Proof. intros. unfold KeccakSpec.lane. apply Forall_nth'; [assumption|now apply word_0]. Qed.

Lemma theta_C_word A x : Forall (word 64) A -> word 64 (KeccakSpec.theta_C A x).
Proof. intros. unfold KeccakSpec.theta_C. auto 10 using lane_word with words. Qed.

Lemma theta_xors A B :
  length A = length B -> Forall (word 64) A -> Forall (word 64) B ->
  KeccakSpec.theta (xors A B) = xors (KeccakSpec.theta A) (KeccakSpec.theta B).
Proof.
  intros H HA HB. unfold KeccakSpec.theta. rewrite xors_make. apply make_ext. intros x y _ _.
  unfold KeccakSpec.theta_D.
  assert (HC : forall x, KeccakSpec.theta_C (xors A B) x = KeccakSpec.theta_C A x .^ KeccakSpec.theta_C B x).
  { intros x'. unfold KeccakSpec.theta_C. rewrite !lane_xors by assumption. bitwise k Hk. btauto. }
  rewrite !HC, rotl_lxor, lane_xors by (auto using theta_C_word; lia). bitwise k Hk. btauto.
Qed.

Lemma offset_64 x y : (x < 5)%nat -> (y < 5)%nat -> (KeccakSpec.offset x y < 64)%nat.
Proof.
  intros Hx Hy. do 5 (destruct x as [|x]; [do 5 (destruct y as [|y]; [vm_compute; lia|]); lia|]). lia.
Qed.

Lemma rho_xors A B :
  length A = length B -> Forall (word 64) A -> Forall (word 64) B ->
  KeccakSpec.rho (xors A B) = xors (KeccakSpec.rho A) (KeccakSpec.rho B).
Proof.
  intros H HA HB. unfold KeccakSpec.rho. rewrite xors_make. apply make_ext. intros x y Hx Hy.
  rewrite lane_xors by assumption. apply rotl_lxor; auto using lane_word, offset_64.
Qed.

Lemma pi_xors A B :
  length A = length B -> KeccakSpec.pi (xors A B) = xors (KeccakSpec.pi A) (KeccakSpec.pi B).
Proof.
  intros H. unfold KeccakSpec.pi. rewrite xors_make. apply make_ext. intros. now apply lane_xors.
Qed.

Lemma length_make f : length (KeccakSpec.make f) = 25%nat.
Proof. unfold KeccakSpec.make. now rewrite length_map, length_seq. Qed.

Lemma iota_xors k A B :
  length A = 25%nat -> length B = 25%nat ->
  KeccakSpec.iota k (xors A B) = xors (KeccakSpec.iota k A) B.
Proof.
  intros HA HB. unfold KeccakSpec.iota. apply (nth_ext' _ _ 0).
  { unfold xors. now rewrite length_map, length_combine, !length_make, HB. }
  rewrite length_make. intros i Hi. rewrite nth_xors by now rewrite length_make, HB.
  unfold KeccakSpec.make. rewrite !nth_map_seq by assumption.
  rewrite lane_xors by now rewrite HA, HB. unfold KeccakSpec.lane.
  assert (E : (i mod 5 mod 5 + 5 * (i / 5 mod 5) = i)%nat) by dlia. rewrite E.
  destruct ((i mod 5 =? 0) && (i / 5 =? 0))%nat; [|reflexivity]. bitwise n Hn. btauto.
Qed.

(** The complemented words, between the rounds and at the start of [KHI]; the
    second are those the comment before [KHI] lists. *)
Definition mask (l : list nat) : list Z :=
  map (fun i => if existsb (Nat.eqb i) l then Z.ones 64 else 0) (seq 0 25).
Definition KHI_input : list nat :=
  [a00; a01; a02; a04; a13; a20; a21; a22; a30; a33; a34; a43].

Lemma mask_rounds :
  KeccakSpec.pi (KeccakSpec.rho (KeccakSpec.theta (mask complemented))) = mask KHI_input.
Proof. vm_compute. reflexivity. Qed.

Lemma length_mask l : length (mask l) = 25%nat.
Proof. unfold mask. now rewrite length_map, length_seq. Qed.
End Lanes.

(** ** A round of the code is a round of the specification *)

Section Round.
  Context {words : KeccakWords} {laws : KeccakLaws words}.

Lemma reps_eq x v w : reps x v -> v = w -> reps x w.
Proof. now intros ? <-. Qed.

(** The state holds the words of [A]. *)
Definition state_reps (a : list lane) (A : list Z) : Prop := Forall2 reps a A.

Lemma state_reps_length a A : state_reps a A -> length a = length A.
Proof. apply Forall2_length. Qed.

Lemma state_reps_words a A : state_reps a A -> Forall (word 64) A.
Proof. induction 1; constructor; [eapply reps_word; eassumption|assumption]. Qed.

Lemma state_reps_nth a A i : (i < length A)%nat -> state_reps a A -> reps (word_at a i) (nth i A 0).
Proof.
  intros Hi H. revert i Hi. induction H as [|x v a A Hx _ IH]; intros [|i] Hi; cbn in *; try lia.
  - exact Hx.
  - apply IH. lia.
Qed.

(** A represented state of 25 words, word by word. *)
Ltac expose_reps a A Ha H :=
  do 25 (let x := fresh "x" in let v := fresh "v" in let a' := fresh "a" in let A' := fresh "A" in
         let Hx := fresh "Hx" in let Ha' := fresh "Ha" in
         inversion Ha as [|x v a' A' Hx Ha']; subst a; subst A; [discriminate H|];
         clear Ha; rename a' into a; rename A' into A; rename Ha' into Ha);
  inversion Ha; subst a; subst A; [clear Ha|discriminate H].

Lemma TH_ELT_reps c0 c1 c2 c3 c4 d0 d1 d2 d3 d4 v0 v1 v2 v3 v4 w0 w1 w2 w3 w4 :
  reps c0 v0 -> reps c1 v1 -> reps c2 v2 -> reps c3 v3 -> reps c4 v4 ->
  reps d0 w0 -> reps d1 w1 -> reps d2 w2 -> reps d3 w3 -> reps d4 w4 ->
  reps (TH_ELT c0 c1 c2 c3 c4 d0 d1 d2 d3 d4)
    (v0 .^ v1 .^ v2 .^ v3 .^ v4 .^ KeccakSpec.rotl (w0 .^ w1 .^ w2 .^ w3 .^ w4) 1).
Proof.
  intros. unfold TH_ELT. cbv zeta. eapply reps_eq.
  - apply XOR64_reps.
    + apply XOR64_reps; [apply ROL64_reps; [lia|]|eassumption].
      apply XOR64_reps; [apply XOR64_reps; [apply XOR64_reps|]|apply XOR64_reps]; eassumption.
    + apply XOR64_reps; apply XOR64_reps; eassumption.
  - replace (w0 .^ w1 .^ w4 .^ (w2 .^ w3)) with (w0 .^ w1 .^ w2 .^ w3 .^ w4) by (bitwise k Hk; btauto).
    generalize (KeccakSpec.rotl (w0 .^ w1 .^ w2 .^ w3 .^ w4) 1). intros r. bitwise k Hk. btauto.
Qed.

Lemma THETA_reps a A :
  length A = 25%nat -> state_reps a A -> state_reps (THETA P0 a) (KeccakSpec.theta A).
Proof.
  intros H Ha. unfold state_reps in *. expose_reps a A Ha H.
  lazy -[TH_ELT XOR64 reps Z.lxor KeccakSpec.rotl].
  repeat (apply Forall2_cons; [apply XOR64_reps; [assumption|apply TH_ELT_reps; assumption]|]).
  apply Forall2_nil.
Qed.

Lemma rotl_0 v : word 64 v -> KeccakSpec.rotl v 0 = v.
Proof.
  intros Hv. apply (word_ext 64); [lia|apply rotl_word; [lia|assumption]|assumption|].
  intros k Hk. rewrite rotl_testbit by (assumption || lia).
  f_equal. change (Z.of_nat 0) with 0. rewrite Z.sub_0_r. apply Z.mod_small. lia.
Qed.

Lemma RHO_reps a A :
  length A = 25%nat -> state_reps a A -> state_reps (RHO P0 a) (KeccakSpec.rho A).
Proof.
  intros H Ha. unfold state_reps in *. expose_reps a A Ha H.
  lazy -[ROL64 reps KeccakSpec.rotl].
  repeat (apply Forall2_cons;
    [first [apply ROL64_reps; [lia|assumption]
           |eapply reps_eq; [eassumption|symmetry; apply rotl_0; eapply reps_word; eassumption]]|]).
  apply Forall2_nil.
Qed.

Lemma PI_reps a A :
  length A = 25%nat -> state_reps a A -> state_reps (PI a) (KeccakSpec.pi A).
Proof.
  intros H Ha. unfold state_reps in *. expose_reps a A Ha H.
  lazy -[reps]. repeat (apply Forall2_cons; [assumption|]). apply Forall2_nil.
Qed.

(** The lane complement: [KHI] is chi on the complemented words. *)
Lemma KHI_XO_reps x y z u v w : reps x u -> reps y v -> reps z w -> reps (KHI_XO x y z) (u .^ (v .| w)).
Proof. intros. apply XOR64_reps; [|apply OR64_reps]; assumption. Qed.

Lemma KHI_XA_reps x y z u v w : reps x u -> reps y v -> reps z w -> reps (KHI_XA x y z) (u .^ (v .& w)).
Proof. intros. apply XOR64_reps; [|apply AND64_reps]; assumption. Qed.

(** An equality of words, bit by bit. *)
Ltac solve_word :=
  repeat first [assumption|apply lxor_word|apply land_word|apply lor_word|apply wnot_word|
                apply ones_word|apply word_0|lia].
Ltac word_bits :=
  apply (word_ext 64); [lia|solve_word..|];
  intros k Hk; clear - Hk; autorewrite with zbits; decide_cmp; btauto.

Lemma KHI_reps a A :
  length A = 25%nat -> Forall (word 64) A -> state_reps a (xors A (mask KHI_input)) ->
  state_reps (KHI P0 a) (xors (KeccakSpec.chi A) (mask complemented)).
Proof.
  intros H HA Ha. unfold state_reps in *.
  do 25 (destruct A as [|?v A]; [discriminate H|]). destruct A; [|discriminate H]. clear H.
  rewrite !Forall_cons_iff in HA. destruct HA as (? & ? & ? & ? & ? & ? & ? & ? & ? & ? & ? & ? &
    ? & ? & ? & ? & ? & ? & ? & ? & ? & ? & ? & ? & ? & _).
  lazy -[reps Z.lxor Z.ones] in Ha.
  do 25 (let x := fresh "x" in let Hx := fresh "Hx" in let Ha' := fresh "Ha" in
    inversion Ha as [|x ? a' ? Hx Ha']; subst a; clear Ha; rename a' into a; rename Ha' into Ha).
  inversion Ha. subst a. clear Ha.
  lazy -[reps Z.lxor Z.ones wnot Z.land KHI_XO KHI_XA NOT64].
  repeat (apply Forall2_cons;
    [eapply reps_eq; [first [apply KHI_XO_reps|apply KHI_XA_reps];
                      first [eassumption|apply NOT64_reps; eassumption]
                     |word_bits]|]).
  apply Forall2_nil.
Qed.

Lemma IOTA_reps' k a A :
  (k < 24)%nat -> length A = 25%nat -> state_reps a A -> state_reps (IOTA k a) (KeccakSpec.iota k A).
Proof.
  intros Hk H Ha. unfold state_reps in *. expose_reps a A Ha H.
  lazy -[reps Z.lxor XOR64_IOTA KeccakSpec.RC]. apply Forall2_cons; [now apply IOTA_reps|].
  repeat (apply Forall2_cons; [assumption|]). apply Forall2_nil.
Qed.

Lemma xors_words A B : Forall (word 64) A -> Forall (word 64) B -> Forall (word 64) (xors A B).
Proof.
  intros HA. revert B. induction HA as [|a A Ha _ IH]; intros [|b B] HB; try constructor.
  - apply Forall_cons_iff in HB as [Hb _]. auto with words.
  - apply Forall_cons_iff in HB as [_ HB]. now apply IH.
Qed.

Lemma mask_words l : Forall (word 64) (mask l).
Proof. apply Forall_map_seq. intros i _. destruct (existsb _ l); auto with words. Qed.

Lemma make_words f :
  (forall x y, (x < 5)%nat -> (y < 5)%nat -> word 64 (f x y)) -> Forall (word 64) (KeccakSpec.make f).
Proof.
  intros H. apply Forall_map_seq. intros i Hi.
  apply H; [apply Nat.mod_upper_bound; lia|apply Nat.Div0.div_lt_upper_bound; lia].
Qed.

Lemma theta_words A : Forall (word 64) A -> Forall (word 64) (KeccakSpec.theta A).
Proof.
  intros H. apply make_words. intros x y _ _. unfold KeccakSpec.theta_D.
  assert (W : forall x, word 64 (KeccakSpec.theta_C A x)) by (intros; now apply theta_C_word).
  pose proof (rotl_word _ 1 ltac:(lia) (W (x + 1)%nat)). pose proof (lane_word A x y H).
  auto with words.
Qed.

Lemma rho_words A : Forall (word 64) A -> Forall (word 64) (KeccakSpec.rho A).
Proof.
  intros H. apply make_words. intros x y Hx Hy. pose proof (offset_64 x y Hx Hy).
  apply rotl_word; [lia|now apply lane_word].
Qed.

Lemma pi_words A : Forall (word 64) A -> Forall (word 64) (KeccakSpec.pi A).
Proof. intros H. apply make_words. intros. now apply lane_word. Qed.

(** One round, with the complemented words. *)
Lemma ROUND_reps k a A :
  (k < 24)%nat -> length A = 25%nat -> Forall (word 64) A ->
  state_reps a (xors A (mask complemented)) ->
  state_reps (ROUND k a) (xors (KeccakSpec.round k A) (mask complemented)).
Proof.
  intros Hk H HA Ha. unfold ROUND, KeccakSpec.round.
  pose proof (mask_words complemented) as HM. pose proof (length_mask complemented) as LM.
  assert (LX : length (xors A (mask complemented)) = 25%nat)
    by (unfold xors; now rewrite length_map, length_combine, H, LM).
  apply THETA_reps, RHO_reps, PI_reps in Ha; try assumption; try apply length_make.
  rewrite theta_xors, rho_xors, pi_xors, mask_rounds in Ha
    by (rewrite ?length_make; auto using theta_words; now rewrite H, LM).
  apply KHI_reps in Ha; [|apply length_make|auto using theta_words, rho_words, pi_words].
  rewrite <- iota_xors by (apply length_make || assumption).
  apply IOTA_reps'; [assumption| |assumption].
  unfold xors, KeccakSpec.chi. now rewrite length_map, length_combine, length_make, LM.
Qed.

Lemma RC_word k : (k < 24)%nat -> word 64 (KeccakSpec.RC k).
Proof.
  intros Hk. apply wordb_word. revert k Hk. apply forallb_seq. vm_compute. reflexivity.
Qed.

Lemma round_words k A : (k < 24)%nat -> Forall (word 64) A -> Forall (word 64) (KeccakSpec.round k A).
Proof.
  intros Hk H. unfold KeccakSpec.round, KeccakSpec.iota, KeccakSpec.chi.
  assert (HB := pi_words _ (rho_words _ (theta_words _ H))).
  set (B := KeccakSpec.pi _) in *. clearbody B.
  assert (HC : Forall (word 64) (KeccakSpec.chi B)).
  { apply make_words. intros. auto 10 using lane_word with words. }
  fold (KeccakSpec.chi B). apply make_words. intros x y _ _. pose proof (RC_word k Hk).
  destruct ((x =? 0) && (y =? 0))%nat; auto using lane_word with words.
Qed.

(** The permutation. *)
Lemma f1600_reps un a A :
  length A = 25%nat -> Forall (word 64) A -> state_reps a (xors A (mask complemented)) ->
  state_reps (KECCAK_F_1600 un a) (xors (KeccakSpec.f1600 A) (mask complemented)) /\
  Forall (word 64) (KeccakSpec.f1600 A) /\ length (KeccakSpec.f1600 A) = 25%nat.
Proof.
  intros H HA Ha. rewrite KECCAK_F_1600_rounds.
  2: { rewrite (state_reps_length _ _ Ha). unfold xors.
       now rewrite length_map, length_combine, H, length_mask. }
  unfold ROUNDS, KeccakSpec.f1600.
  assert (G : forall n, (n <= 24)%nat ->
    let A' := fold_left (fun A r => KeccakSpec.round r A) (seq 0 n) A in
    state_reps (fold_left (fun a k => ROUND k a) (seq 0 n) a) (xors A' (mask complemented)) /\
    Forall (word 64) A' /\ length A' = 25%nat).
  { induction n as [|n IH]; intros Hn; [auto|]. cbv zeta in *. destruct IH as (I1 & I2 & I3); [lia|].
    rewrite seq_S, !fold_left_app. cbn [fold_left Nat.add].
    split; [apply ROUND_reps; (assumption || lia)|]. split; [apply round_words; (assumption || lia)|].
    apply length_make. }
  now apply G.
Qed.
End Round.
