(* ===== verification/KeccakMode.v ===== *)
(** * The Keccak code's mode of operation

    Absorption, keccak_padding and output of keccak.c, against the sponge of the
    specification, for the four rates.  The proofs use the interfaces
    [KeccakLaws] and [KeccakStateLaws]. *)

From Stdlib Require Import ZArith List Lia Bool.
From S2P Require Import Prelude BitStrings SphTypes Stream KeccakTables Keccak KeccakSpec KeccakProof.
Import ListNotations.

(** A lane of a block is the little-endian word of its bytes. *)
Lemma Z_of_bits_testbit l k :
  0 <= k -> Z.testbit (KeccakSpec.Z_of_bits l) k = nth (Z.to_nat k) l false.
Proof.
  revert k. induction l as [|b l IH]; intros k Hk.
  - cbn. rewrite Z.testbit_0_l. now destruct (Z.to_nat k).
  - cbn [KeccakSpec.Z_of_bits]. destruct (Z.eq_dec k 0) as [->|].
    + cbn [Z.to_nat nth]. rewrite Z.add_comm. destruct b; [apply Z.testbit_odd_0|].
      rewrite Z.add_0_r. apply Z.testbit_even_0.
    + replace k with (Z.succ (k - 1)) at 1 by lia. rewrite Z.add_comm.
      replace (Z.to_nat k) with (S (Z.to_nat (k - 1))) by lia. cbn [nth].
      destruct b; [rewrite Z.testbit_odd_succ by lia|rewrite Z.add_0_r, Z.testbit_even_succ by lia];
        apply IH; lia.
Qed.

Lemma Z_of_bits_word l n : (length l <= n)%nat -> word (Z.of_nat n) (KeccakSpec.Z_of_bits l).
Proof.
  intros H. apply word_of_bits; [lia| |].
  - clear. induction l as [|b l IH]; cbn [KeccakSpec.Z_of_bits]; [lia|]. destruct b; lia.
  - intros k Hk. rewrite Z_of_bits_testbit by lia. apply nth_overflow. lia.
Qed.

Lemma Z_of_bits_bytes l n :
  bytes l -> length l = n -> KeccakSpec.Z_of_bits (KeccakSpec.bits_of_bytes l) = le_load n l.
Proof.
  intros Hb Hl. apply (word_ext (8 * Z.of_nat n)); [lia| | |].
  - replace (8 * Z.of_nat n) with (Z.of_nat (8 * n)) by lia. apply Z_of_bits_word.
    rewrite length_bits_of. lia.
  - now apply le_load_word.
  - intros k Hk. rewrite Z_of_bits_testbit, nth_bits_of, le_load_testbit by (assumption || lia).
    unfold lsb_first. f_equal; [f_equal|]; dlia.
Qed.

Lemma block_lane blk i :
  bytes blk -> (8 * i + 8 <= length blk)%nat ->
  KeccakSpec.Z_of_bits (slice (KeccakSpec.bits_of_bytes blk) (64 * i) 64) = le_load 8 (slice blk (8 * i) 8).
Proof.
  intros Hb Hi. rewrite <- (Z_of_bits_bytes (slice blk (8 * i) 8) 8);
    [|now apply Forall_slice|apply length_slice; lia].
  unfold slice. rewrite bits_of_firstn, bits_of_skipn. do 3 f_equal. lia.
Qed.

Lemma block_lane_0 blk i :
  (length blk <= 8 * i)%nat ->
  KeccakSpec.Z_of_bits (slice (KeccakSpec.bits_of_bytes blk) (64 * i) 64) = 0.
Proof.
  intros H. unfold slice. rewrite skipn_all2; [reflexivity|]. rewrite length_bits_of. lia.
Qed.

(** The first bits of the state are those of its words' bytes. *)
Lemma state_bits_bytes A :
  length A = 25%nat -> Forall (word 64) A ->
  KeccakSpec.state_bits A = KeccakSpec.bits_of_bytes (concat (map (le_store 8) A)).
Proof.
  intros HA HW.
  assert (HF : Forall (fun l => length l = 8%nat) (map (le_store 8) A))
    by (apply Forall_map, Forall_forall; intros; apply length_le_store).
  assert (HL : length (concat (map (le_store 8) A)) = 200%nat).
  { clear HW. do 25 (destruct A as [|? A]; [discriminate HA|]). destruct A; [reflexivity|discriminate HA]. }
  unfold KeccakSpec.state_bits, bits_of. rewrite HL.
  apply map_ext_in. intros i Hi%in_seq. rewrite (nth_concat 8) by (assumption || lia).
  rewrite (nth_indep _ [] (le_store 8 0)) by (rewrite length_map, HA; dlia).
  rewrite map_nth, nth_le_store by dlia. unfold lsb_first.
  autorewrite with zbits.
  rewrite (proj2 (Z.ltb_lt _ _)) by dlia. cbn [andb]. f_equal; [f_equal|]; dlia.
Qed.

(** ** The interface of the stored state *)

Class KeccakStateLaws (words : KeccakWords) {laws : KeccakLaws words} := {
  (** The number of words of the array in use. *)
  nwords : nat;
  read_write a : length a = 25%nat -> READ_STATE (WRITE_STATE a) = a;
  write_length a : length (WRITE_STATE a) = nwords;
  init_ok v :
    length v = nwords ->
    length (init_words v) = nwords /\ WRITE_STATE (READ_STATE (init_words v)) = init_words v /\
    init_words (init_words v) = init_words v /\
    state_reps (READ_STATE (init_words v)) (mask complemented);
  finalize_length v : length v = nwords -> length (finalize v) = nwords;
  READ64_firstn b off m : (off + 8 <= m)%nat -> READ64 (firstn m b) off = READ64 b off;
  encode_ok d a A tmp :
    (d <= 200)%nat -> (8 * ((d + 7) / 8) <= length tmp)%nat ->
    length A = 25%nat -> Forall (word 64) A -> state_reps a (xors A (mask complemented)) ->
    exists tmp', encode_words d (finalize (WRITE_STATE a)) tmp = Some tmp' /\
      length tmp' = length tmp /\ firstn d tmp' = firstn d (concat (map (le_store 8) A))
}.

(** The four members: bytes of digest and bytes of a block. *)
Definition members : list (nat * nat) := [(28, 144); (32, 136); (48, 104); (64, 72)]%nat.

Section Mode.
  Context {words : KeccakWords} {laws : KeccakLaws words} {slaws : KeccakStateLaws words}.
  Variable un : unroll.
  Variable nocopy : bool.
  Variables d lim : nat.
  Hypothesis member : In (d, lim) members.

Lemma lim_cases :
  (lim = 144 /\ d = 28 \/ lim = 136 /\ d = 32 \/ lim = 104 /\ d = 48 \/ lim = 72 /\ d = 64)%nat.
Proof.
  cbn [In members] in member. destruct member as [E|[E|[E|[E|[]]]]]; injection E as <- <-; auto.
Qed.

(** ** A block *)

Lemma INPUT_BUF_loop_eq b a : INPUT_BUF nocopy lim b a = INPUT_BUF_loop lim b a.
Proof.
  unfold INPUT_BUF. destruct nocopy; [reflexivity|].
  destruct lim_cases as [[-> _]|[[-> _]|[[-> _]|[-> _]]]]; reflexivity.
Qed.

Lemma input_prefix b a n :
  (n <= length a)%nat ->
  let a' := fold_left (xor_input b) (map (fun i => (i, 8 * i)%nat) (seq 0 n)) a in
  length a' = length a /\
  forall j, word_at a' j =
    if (j <? n)%nat then XOR64 (word_at a j) (READ64 b (8 * j)) else word_at a j.
Proof.
  induction n as [|n IH]; intros Hn; [auto|]. cbv zeta in *. destruct IH as [IHl IH]; [lia|].
  rewrite seq_S, map_app, fold_left_app. cbn [map fold_left xor_input Nat.add].
  split; [now rewrite length_upd|]. intros j. unfold word_at at 1. rewrite nth_upd by lia.
  destruct (Nat.eqb_spec j n) as [->|].
  - rewrite IH, (proj2 (Nat.ltb_ge n n)), (proj2 (Nat.ltb_lt n (S n))) by lia. reflexivity.
  - fold (word_at (fold_left (xor_input b) (map (fun i => (i, 8 * i)%nat) (seq 0 n)) a) j).
    rewrite IH. destruct (Nat.ltb_spec j n), (Nat.ltb_spec j (S n)); try lia; reflexivity.
Qed.

Lemma state_reps_intro a A :
  length a = length A -> (forall i, (i < length A)%nat -> reps (word_at a i) (nth i A 0)) ->
  state_reps a A.
Proof.
  revert A. induction a as [|x a IH]; intros [|v A] Hl H; try discriminate; constructor.
  - apply (H 0%nat). cbn. lia.
  - apply IH; [now injection Hl|]. intros i Hi. apply (H (S i)). cbn. lia.
Qed.

Definition absorb_lanes (A : list Z) (blk : list Z) : list Z :=
  map (fun i => nth i A 0 .^
    KeccakSpec.Z_of_bits (slice (KeccakSpec.bits_of_bytes blk) (64 * i) 64)) (seq 0 25).

Lemma INPUT_BUF_reps a A blk :
  length A = 25%nat -> bytes blk -> length blk = lim ->
  state_reps a (xors A (mask complemented)) ->
  state_reps (INPUT_BUF nocopy lim blk a) (xors (absorb_lanes A blk) (mask complemented)).
Proof.
  intros HA Hb Hl Ha. rewrite INPUT_BUF_loop_eq. unfold INPUT_BUF_loop.
  pose proof (length_mask complemented) as LM.
  assert (LX : forall B, length B = 25%nat -> length (xors B (mask complemented)) = 25%nat)
    by (intros B HB; unfold xors; now rewrite length_map, length_combine, HB, LM).
  assert (LL : length (absorb_lanes A blk) = 25%nat)
    by (unfold absorb_lanes; now rewrite length_map, length_seq).
  pose proof (state_reps_length _ _ Ha) as La. rewrite LX in La by assumption.
  destruct (input_prefix blk a (lim / 8)) as [L N].
  { destruct lim_cases as [[-> _]|[[-> _]|[[-> _]|[-> _]]]]; rewrite La; cbn; lia. }
  apply state_reps_intro; [now rewrite L, La, LX|].
  rewrite LX by assumption. intros i Hi. rewrite N, nth_xors by now rewrite LL, LM.
  unfold absorb_lanes. rewrite nth_map_seq by assumption.
  pose proof (state_reps_nth a _ i (eq_ind_r _ Hi (LX A HA)) Ha) as R.
  rewrite nth_xors in R by now rewrite HA, LM.
  destruct (Nat.ltb_spec i (lim / 8)) as [Hlt|Hge].
  - assert (8 * i + 8 <= lim)%nat by dlia.
    rewrite block_lane by (assumption || lia). eapply reps_eq.
    + apply XOR64_reps; [exact R|apply READ64_reps; [assumption|lia]].
    + bitwise k Hk. destruct (Z.testbit (nth i A 0) k), (Z.testbit (nth i (mask complemented) 0) k),
        (Z.testbit (le_load 8 (slice blk (8 * i) 8)) k); reflexivity.
  - assert (lim <= 8 * i)%nat
      by (destruct lim_cases as [[-> _]|[[-> _]|[[-> _]|[-> _]]]]; cbn in Hge; lia).
    rewrite block_lane_0, Z.lxor_0_r by lia. exact R.
Qed.

Lemma absorb_lanes_words A blk :
  Forall (word 64) A -> Forall (word 64) (absorb_lanes A blk).
Proof.
  intros HA. apply Forall_map_seq. intros i _. apply lxor_word; [lia| |].
  - apply Forall_nth'; [assumption|now apply word_0].
  - apply (Z_of_bits_word _ 64). unfold slice. rewrite length_firstn. lia.
Qed.

(** The state of the code and the state of the sponge. *)
Definition sponge_state (a : list lane) (A : list Z) : Prop :=
  length A = 25%nat /\ Forall (word 64) A /\ state_reps a (xors A (mask complemented)).

Lemma keccak_block_reps a A blk :
  bytes blk -> length blk = lim -> sponge_state a A ->
  sponge_state (keccak_block un nocopy lim blk a)
    (KeccakSpec.absorb_block A (KeccakSpec.bits_of_bytes blk)).
Proof.
  intros Hb Hl (HA & HW & Ha). unfold keccak_block, KeccakSpec.absorb_block.
  pose proof (INPUT_BUF_reps a A blk HA Hb Hl Ha) as R.
  destruct (f1600_reps un (INPUT_BUF nocopy lim blk a) (absorb_lanes A blk)) as (R1 & R2 & R3);
    [unfold absorb_lanes; now rewrite length_map, length_seq|now apply absorb_lanes_words|exact R|].
  split; [exact R3|]. split; [exact R2|exact R1].
Qed.

Lemma keccak_blocks blocks a A :
  Forall (fun b => bytes b /\ length b = lim) blocks -> sponge_state a A ->
  sponge_state (fold_left (fun a b => keccak_block un nocopy lim b a) blocks a)
    (fold_left KeccakSpec.absorb_block (map KeccakSpec.bits_of_bytes blocks) A).
Proof.
  intros Hb. revert a A. induction Hb as [|b blocks [Hb Hl] _ IH]; intros a A H; [exact H|].
  cbn [fold_left map]. apply IH. now apply keccak_block_reps.
Qed.

Lemma keccak_block_firstn b a :
  keccak_block un nocopy lim b a = keccak_block un nocopy lim (firstn lim b) a.
Proof.
  unfold keccak_block. f_equal. rewrite !INPUT_BUF_loop_eq. unfold INPUT_BUF_loop.
  assert (E : forall l a, Forall (fun x => snd x + 8 <= lim)%nat l ->
    fold_left (xor_input b) l a = fold_left (xor_input (firstn lim b)) l a).
  { clear a. intros l a H. revert a. induction H as [|[i off] l Hx _ IH]; intros a; [reflexivity|].
    cbn [fold_left xor_input]. rewrite READ64_firstn by assumption. apply IH. }
  apply E. apply Forall_map, Forall_forall. intros i Hi%in_seq. cbn [snd]. dlia.
Qed.

(** ** Updates *)

(** The initial state of the code. *)
Definition keccak_start : list lane := READ_STATE (init_words (repeat 0 nwords)).

(** The context [kc] has absorbed [msg]. *)
Definition keccak_absorbed (msg : list Z) (kc : keccak_context) : Prop :=
  length (buf kc) = 144%nat /\ length (u kc) = nwords /\ WRITE_STATE (READ_STATE (u kc)) = u kc /\
  exists a0, sponge_state a0 (repeat 0 25) /\
    absorbed lim (keccak_block un nocopy lim) a0 msg (Bctx (buf kc) (ptr kc) (READ_STATE (u kc))).

Lemma lim_range : (0 < lim <= 144)%nat.
Proof. pose proof lim_cases. lia. Qed.

Lemma keccak_chunks_bytes msg :
  bytes msg -> Forall (fun b => bytes b /\ length b = lim) (chunks lim msg).
Proof.
  intros Hm. apply Forall_forall. intros b Hb. split.
  - now apply (chunks_Forall _ lim msg).
  - now apply (chunks_lengths lim msg).
Qed.

Lemma keccak_absorbed_state a0 msg c :
  bytes msg -> sponge_state a0 (repeat 0 25) ->
  absorbed lim (keccak_block un nocopy lim) a0 msg c ->
  sponge_state (b_st c)
    (KeccakSpec.absorb_blocks (chunks (8 * lim) (KeccakSpec.bits_of_bytes msg))).
Proof.
  intros Hm H0 (_ & _ & _ & ->). pose proof lim_range.
  rewrite bits_of_chunks by lia. apply keccak_blocks; [now apply keccak_chunks_bytes|assumption].
Qed.

Lemma sponge_state_length a A : sponge_state a A -> length a = 25%nat.
Proof.
  intros (HA & _ & H). rewrite (state_reps_length _ _ H). unfold xors.
  now rewrite length_map, length_combine, HA, length_mask.
Qed.

Lemma xors_0 l : length l = 25%nat -> xors (repeat 0 25) l = l.
Proof.
  intros H. apply (nth_ext' _ _ 0).
  { unfold xors. rewrite length_map, length_combine, repeat_length. lia. }
  intros i Hi. rewrite nth_xors, nth_repeat by now rewrite repeat_length. reflexivity.
Qed.

Lemma keccak_init_absorbed kc n :
  length (buf kc) = 144%nat -> length (u kc) = nwords -> keccak_absorbed [] (keccak_init kc n).
Proof.
  intros Hb Hu. pose proof lim_range. destruct (init_ok (u kc) Hu) as (I1 & I2 & _ & I3).
  split; [assumption|]. split; [assumption|]. split; [assumption|].
  exists (READ_STATE (init_words (u kc))). split.
  - split; [reflexivity|]. split; [apply Forall_repeat'; now apply word_0|].
    now rewrite xors_0 by apply length_mask.
  - apply absorbed_init; cbn; lia.
Qed.

Lemma keccak_core_absorbed msg data kc :
  bytes msg -> bytes data -> keccak_absorbed msg kc ->
  exists kc', keccak_core un nocopy kc data lim = Some kc' /\ keccak_absorbed (msg ++ data) kc'.
Proof.
  intros Hm Hd (Hb & Hu & Hw & a0 & H0 & Ha). pose proof lim_range as Hlim.
  pose proof (absorbed_ok lim (keccak_block un nocopy lim) ltac:(lia) _ _ _ Ha) as Hok.
  destruct (absorb_absorbed lim (keccak_block un nocopy lim) keccak_block_firstn ltac:(lia)
    _ _ _ data Ha) as (c' & E & Ha' & Hl').
  unfold keccak_core. destruct (Nat.ltb_spec (length data) (lim - ptr kc)) as [Hs|Hf].
  - unfold absorb in E. cbn [b_ptr b_buf b_st] in E. rewrite (proj2 (Nat.ltb_lt _ _) Hs) in E.
    destruct (memcpy_at (buf kc) (ptr kc) data) as [b|]; [|discriminate]. injection E as <-.
    eexists. split; [reflexivity|]. cbn in Hl'. split; [cbn; lia|].
    split; [assumption|]. split; [assumption|]. exists a0. split; [assumption|exact Ha'].
  - rewrite absorb_loop_eq in E by assumption. rewrite E.
    pose proof (keccak_absorbed_state a0 (msg ++ data) c' (proj2 (Forall_app _ _ _) (conj Hm Hd)) H0 Ha') as S.
    apply sponge_state_length in S.
    eexists. split; [reflexivity|]. cbn [b_buf] in Hl'. split; [cbn; lia|].
    split; [apply write_length|]. cbn [u buf ptr]. rewrite read_write by assumption.
    split; [reflexivity|]. exists a0. split; [assumption|]. destruct c' as [b' p' s']. exact Ha'.
Qed.

(** ** Padding *)

(** The [n] high bits of [ub], as the code orders them. *)
Definition keccak_extra_bits (ub : Z) (n : nat) : list bool :=
  map (fun i => Z.testbit ub (Z.of_nat (8 - n + i))) (seq 0 n).

Definition keccak_eb (ub n : Z) : Z := (0x100 .| (ub .& 0xFF)) >> (8 - n).

Lemma keccak_eb_bits ub n :
  (n < 8)%nat ->
  byte_bits lsb_first (trunc 8 (keccak_eb ub (Z.of_nat n))) = keccak_extra_bits ub n ++ [true] ++ repeat false (7 - n).
Proof.
  intros Hn. unfold byte_bits, lsb_first, keccak_extra_bits, keccak_eb.
  do 8 (destruct n as [|n]; [cbn [seq map app repeat Nat.sub Nat.add Z.of_nat Pos.of_succ_nat Pos.succ];
    repeat match goal with |- _ :: _ = _ :: _ => f_equal end;
    bit_compute; rewrite ?orb_true_r; reflexivity|]). lia.
Qed.

Lemma keccak_eb_80_bits ub n :
  (n < 7)%nat ->
  byte_bits lsb_first (trunc 8 (keccak_eb ub (Z.of_nat n) .| 0x80)) =
  keccak_extra_bits ub n ++ [true] ++ repeat false (6 - n) ++ [true].
Proof.
  intros Hn. unfold byte_bits, lsb_first, keccak_extra_bits, keccak_eb.
  do 7 (destruct n as [|n]; [cbn [seq map app repeat Nat.sub Nat.add Z.of_nat Pos.of_succ_nat Pos.succ];
    repeat match goal with |- _ :: _ = _ :: _ => f_equal end;
    bit_compute; rewrite ?orb_true_r; reflexivity|]). lia.
Qed.

(** The bytes [keccak_close] absorbs. *)
Definition keccak_padding (ub n : Z) (len : nat) : list Z :=
  let ptr := (len mod lim)%nat in
  if (ptr =? lim - 1)%nat then
    if n =? 7 then [trunc 8 (keccak_eb ub n)] ++ repeat 0 (lim - 1) ++ [0x80]
    else [trunc 8 (keccak_eb ub n .| 0x80)]
  else [trunc 8 (keccak_eb ub n)] ++ repeat 0 (lim - ptr - 2) ++ [0x80].

Lemma keccak_padding_bytes ub n len : bytes (keccak_padding ub n len).
Proof.
  assert (B : forall x k, bytes ([trunc 8 x] ++ repeat 0 k ++ [0x80])).
  { intros x k. apply Forall_app. split; [repeat constructor; now apply trunc_word|].
    apply Forall_app. split; [apply Forall_repeat'; now apply word_0|]. repeat constructor; now compute. }
  unfold keccak_padding. cbv zeta. destruct (_ =? _)%nat; [destruct (n =? 7)|]; try apply B.
  repeat constructor; now apply trunc_word.
Qed.

(** The padded message is the keccak_padding of the message's bits, [ub] giving the
    last [n]. *)
Lemma keccak_padding_pad ub n msg :
  (n < 8)%nat ->
  KeccakSpec.bits_of_bytes (msg ++ keccak_padding ub (Z.of_nat n) (length msg)) =
  KeccakSpec.pad (8 * lim) (KeccakSpec.bits_of_bytes msg ++ keccak_extra_bits ub n).
Proof.
  intros Hn. unfold keccak_padding, KeccakSpec.pad. rewrite bits_of_app, <- app_assoc. f_equal.
  rewrite length_app, length_bits_of.
  assert (EL : length (keccak_extra_bits ub n) = n)
    by (unfold keccak_extra_bits; now rewrite length_map, length_seq). rewrite EL.
  assert (Ez : forall x k, KeccakSpec.bits_of_bytes ([trunc 8 x] ++ repeat 0 k ++ [0x80]) =
    byte_bits lsb_first (trunc 8 x) ++ repeat false (8 * k + 7) ++ [true]).
  { intros x k. rewrite !bits_of_app, bits_of_zeros, bits_of_cons by apply lsb_first_0.
    change (KeccakSpec.bits_of_bytes []) with (@nil bool).
    change (KeccakSpec.bits_of_bytes [128]) with (repeat false 7 ++ [true]).
    rewrite app_nil_r, repeat_app, <- !app_assoc. reflexivity. }
  destruct (Nat.eqb_spec (length msg mod lim) (lim - 1)) as [E|E];
    [destruct (Z.eqb_spec (Z.of_nat n) 7) as [E'|E']|].
  - rewrite Ez, keccak_eb_bits by lia. assert (n = 7%nat) as -> by lia.
    rewrite <- !app_assoc. cbn [repeat Nat.sub app]. do 2 f_equal. f_equal. f_equal.
    destruct lim_cases as [[-> _]|[[-> _]|[[-> _]|[-> _]]]]; dlia.
  - rewrite bits_of_cons. change (KeccakSpec.bits_of_bytes []) with (@nil bool).
    rewrite app_nil_r, keccak_eb_80_bits by lia. do 2 f_equal. f_equal. f_equal.
    destruct lim_cases as [[-> _]|[[-> _]|[[-> _]|[-> _]]]]; dlia.
  - rewrite Ez, keccak_eb_bits by lia. rewrite <- !app_assoc. do 2 f_equal.
    rewrite (app_assoc (repeat false (7 - n))), <- repeat_app. f_equal. f_equal.
    destruct lim_cases as [[-> _]|[[-> _]|[[-> _]|[-> _]]]]; dlia.
Qed.

(** ** The end of the computation *)

(** The local buffer of [keccak_close] and the number of bytes absorbed. *)
Definition keccak_close_buffer (stack : list Z) (ptr : nat) (ub n : Z) : option (list Z * nat) :=
  if (ptr =? lim - 1)%nat then
    if n =? 7 then
      let* tmp := memcpy_at stack 0 [trunc 8 (keccak_eb ub n)] in
      let* tmp := memset_at tmp 1 0 (lim - 1) in
      let* tmp := memcpy_at tmp lim [0x80] in
      Some (tmp, 1 + lim)%nat
    else
      let* tmp := memcpy_at stack 0 [trunc 8 (keccak_eb ub n .| 0x80)] in
      Some (tmp, 1%nat)
  else
    let j := (lim - ptr)%nat in
    let* tmp := memcpy_at stack 0 [trunc 8 (keccak_eb ub n)] in
    let* tmp := memset_at tmp 1 0 (j - 2) in
    let* tmp := memcpy_at tmp (j - 1) [0x80] in
    Some (tmp, j).

Lemma memcpy_at_0 {A} (dst src : list A) :
  (length src <= length dst)%nat ->
  exists dst', memcpy_at dst 0 src = Some dst' /\ length dst' = length dst /\
    firstn (length src) dst' = src.
Proof.
  intros H. destruct (memcpy_at dst 0 src) as [dst'|] eqn:E.
  2: { rewrite memcpy_at_Some in E by (cbn; lia). discriminate. }
  exists dst'. split; [reflexivity|]. split; [eapply memcpy_at_length, E|].
  apply memcpy_at_firstn in E. exact E.
Qed.

(** A byte, zeros and a last byte, written one after the other. *)
Lemma write_padding stack x k :
  (k + 2 <= length stack)%nat ->
  exists tmp, (let* tmp := memcpy_at stack 0 [x] in
               let* tmp := memset_at tmp 1 0 k in memcpy_at tmp (k + 1) [0x80]) = Some tmp /\
    length tmp = length stack /\ firstn (k + 2) tmp = [x] ++ repeat 0 k ++ [0x80].
Proof.
  intros Hk. destruct (memcpy_at_0 stack [x]) as (b1 & E1 & _); [cbn; lia|].
  pose proof (memcpy_at_app _ _ _ _ (repeat 0 k) E1) as A1. cbn [length Nat.add] in A1.
  destruct (memcpy_at_0 stack ([x] ++ repeat 0 k)) as (b2 & E2 & _);
    [rewrite length_app, repeat_length; cbn; lia|].
  pose proof (memcpy_at_app _ _ _ _ [0x80] E2) as A2.
  rewrite length_app, repeat_length in A2. cbn [length Nat.add] in A2.
  destruct (memcpy_at_0 stack (([x] ++ repeat 0 k) ++ [0x80])) as (b3 & E3 & L3 & F3);
    [rewrite !length_app, repeat_length; cbn; lia|].
  exists b3. rewrite E1. unfold memset_at. rewrite A1, E2.
  replace (k + 1)%nat with (S k) by lia. rewrite A2. split; [exact E3|]. split; [exact L3|].
  rewrite !length_app, repeat_length in F3. cbn [length] in F3.
  replace (k + 2)%nat with (1 + k + 1)%nat by lia. now rewrite F3, <- app_assoc.
Qed.

Lemma keccak_close_buffer_padding stack len ub n :
  length stack = (lim + 1)%nat ->
  exists tmp j, keccak_close_buffer stack (len mod lim) ub n = Some (tmp, j) /\
    length tmp = (lim + 1)%nat /\ firstn j tmp = keccak_padding ub n len.
Proof.
  intros Hs. pose proof lim_range as Hlim.
  pose proof (Nat.mod_upper_bound len lim ltac:(lia)) as Hp.
  unfold keccak_close_buffer, keccak_padding. cbv zeta.
  destruct (Nat.eqb_spec (len mod lim) (lim - 1)) as [E|E]; [destruct (n =? 7)|].
  - destruct (write_padding stack (trunc 8 (keccak_eb ub n)) (lim - 1)) as (tmp & W & L & F); [lia|].
    replace (lim - 1 + 1)%nat with lim in W by lia. replace (lim - 1 + 2)%nat with (1 + lim)%nat in F by lia.
    exists tmp, (1 + lim)%nat.
    destruct (memcpy_at stack 0 _) as [b1|]; [|discriminate].
    destruct (memset_at b1 1 0 _) as [b2|]; [|discriminate]. rewrite W.
    split; [reflexivity|]. split; [lia|exact F].
  - destruct (memcpy_at_0 stack [trunc 8 (keccak_eb ub n .| 0x80)]) as (tmp & W & L & F); [cbn; lia|].
    exists tmp, 1%nat. rewrite W. split; [reflexivity|]. split; [lia|exact F].
  - destruct (write_padding stack (trunc 8 (keccak_eb ub n)) (lim - len mod lim - 2)) as (tmp & W & L & F);
      [lia|].
    replace (lim - len mod lim - 2 + 1)%nat with (lim - len mod lim - 1)%nat in W by lia.
    replace (lim - len mod lim - 2 + 2)%nat with (lim - len mod lim)%nat in F by lia.
    exists tmp, (lim - len mod lim)%nat.
    destruct (memcpy_at stack 0 _) as [b1|]; [|discriminate].
    destruct (memset_at b1 1 0 _) as [b2|]; [|discriminate]. rewrite W.
    split; [reflexivity|]. split; [lia|exact F].
Qed.

Lemma keccak_close_hash stack kc ub n msg :
  (n < 8)%nat -> length stack = (lim + 1)%nat -> bytes msg -> keccak_absorbed msg kc ->
  exists out kc',
    keccak_close un nocopy d lim stack kc ub (Z.of_nat n) = Some (out, kc') /\
    KeccakSpec.bits_of_bytes out =
      KeccakSpec.hash (8 * d) (KeccakSpec.bits_of_bytes msg ++ keccak_extra_bits ub n) /\
    bytes out /\ length out = d /\ keccak_absorbed [] kc' /\
    keccak_init kc' (8 * Z.of_nat d) = kc'.
Proof.
  intros Hn Hs Hm Ha. pose proof lim_range as Hlim. pose proof Ha as (Hb & Hu & Hw & a0 & H0 & Ha').
  destruct Ha' as (_ & Ep & _ & _). cbn [b_ptr] in Ep.
  destruct (keccak_close_buffer_padding stack (length msg) ub (Z.of_nat n) Hs) as (tmp & j & Ec & Lt & Fj).
  rewrite <- Ep in Ec.
  pose proof (keccak_padding_bytes ub (Z.of_nat n) (length msg)) as PB.
  destruct (keccak_core_absorbed msg (keccak_padding ub (Z.of_nat n) (length msg)) kc Hm PB Ha)
    as (kc1 & E1 & Hb1 & Hu1 & Hw1 & a1 & H1 & Ha1).
  apply keccak_absorbed_state in Ha1; [|now apply Forall_app|assumption]. cbn [b_st] in Ha1.
  destruct Ha1 as (LA & WA & RA). rewrite keccak_padding_pad in LA, WA, RA by assumption.
  set (A := KeccakSpec.absorb_blocks _) in *.
  destruct (encode_ok d (READ_STATE (u kc1)) A tmp) as (tmp' & E2 & L2 & F2); try assumption;
    [destruct lim_cases; lia|rewrite Lt; destruct lim_cases as [[-> ->]|[[-> ->]|[[-> ->]|[-> ->]]]]; cbn; lia|].
  rewrite Hw1 in E2.
  pose proof (finalize_length (u kc1) Hu1) as Lf. destruct (init_ok _ Lf) as (I1 & I2 & I3 & I4).
  exists (firstn d tmp'), (keccak_init {| buf := buf kc1; ptr := ptr kc1; Keccak.lim := Keccak.lim kc1;
    u := finalize (u kc1) |} (Z.of_nat d << 3)).
  assert (Ed : (Z.of_nat d << 3) = 8 * Z.of_nat d) by (rewrite Z.shiftl_mul_pow2; lia).
  splits.
  - unfold keccak_close. change (if (ptr kc =? lim - 1)%nat then _ else _) with
      (keccak_close_buffer stack (ptr kc) ub (Z.of_nat n)). rewrite Ec, Fj, E1. now rewrite E2.
  - rewrite F2, bits_of_firstn, <- state_bits_bytes by assumption.
    unfold KeccakSpec.hash.
    replace (1600 - 2 * (8 * d))%nat with (8 * lim)%nat; [reflexivity|].
    destruct lim_cases as [[-> ->]|[[-> ->]|[[-> ->]|[-> ->]]]]; reflexivity.
  - rewrite F2. apply Forall_firstn', Forall_concat, Forall_map, Forall_forall.
    intros v _. apply bytes_le_store.
  - rewrite length_firstn. destruct lim_cases; lia.
  - apply keccak_init_absorbed; assumption.
  - unfold keccak_init. cbn [buf ptr u]. rewrite I3. now rewrite Ed.
Qed.

(** A whole computation: initialisation, updates, close. *)
Lemma keccak_updates_absorbed msg pieces kc :
  bytes msg -> Forall bytes pieces -> keccak_absorbed msg kc ->
  exists kc', fold_left (fun kc data => let* kc := kc in keccak_core un nocopy kc data lim)
                pieces (Some kc) = Some kc' /\
    keccak_absorbed (msg ++ concat pieces) kc'.
Proof.
  intros Hm Hp. revert msg kc Hm. induction Hp as [|data ps Hd _ IH]; intros msg kc Hm Ha.
  - exists kc. cbn. now rewrite app_nil_r.
  - destruct (keccak_core_absorbed msg data kc Hm Hd Ha) as (kc1 & E & Ha1).
    destruct (IH (msg ++ data) kc1 (proj2 (Forall_app _ _ _) (conj Hm Hd)) Ha1) as (kc2 & E2 & Ha2).
    exists kc2. cbn [fold_left concat]. rewrite E, app_assoc. auto.
Qed.

Lemma keccak_whole pieces kc stack ub n :
  (n < 8)%nat -> length (buf kc) = 144%nat -> length (u kc) = nwords ->
  length stack = (lim + 1)%nat -> Forall bytes pieces ->
  exists kc1 out kc2,
    fold_left (fun kc data => let* kc := kc in keccak_core un nocopy kc data lim)
      pieces (Some (keccak_init kc (8 * Z.of_nat d))) = Some kc1 /\
    keccak_close un nocopy d lim stack kc1 ub (Z.of_nat n) = Some (out, kc2) /\
    bytes out /\ length out = d /\
    KeccakSpec.bits_of_bytes out =
      KeccakSpec.hash (8 * d) (KeccakSpec.bits_of_bytes (concat pieces) ++ keccak_extra_bits ub n) /\
    length (buf kc2) = 144%nat /\ keccak_init kc2 (8 * Z.of_nat d) = kc2.
Proof.
  intros Hn Hb Hu Hs Hp.
  destruct (keccak_updates_absorbed [] pieces _ (Forall_nil _) Hp
    (keccak_init_absorbed kc (8 * Z.of_nat d) Hb Hu)) as (kc1 & E1 & Ha1). cbn [app] in Ha1.
  assert (Hc : bytes (concat pieces)) by now apply Forall_concat.
  destruct (keccak_close_hash stack kc1 ub n _ Hn Hs Hc Ha1) as (out & kc2 & E2 & EH & Hob & Hol & Ha2 & I2).
  exists kc1, out, kc2. splits; try assumption. apply Ha2.
Qed.
End Mode.
