(* ===== verification/KeccakLanes.v ===== *)
(** * The word representations of keccak.c keep the interface

    Instances of [KeccakLaws] and [KeccakStateLaws] for 64-bit words and for
    pairs of 32-bit words, bit-interleaved or not, on a machine of any byte
    order. *)

From Stdlib Require Import ZArith List Lia Bool Btauto.
From S2P Require Import Prelude BitStrings SphTypes Stream KeccakTables Keccak KeccakSpec KeccakProof KeccakMode.
Import ListNotations.

(** ** 64-bit words *)

Section Wide.
  Variable p : platform.
  Hypothesis Hp : platform_ok p = true.

Definition wide_reps (x v : Z) : Prop := x = v /\ word 64 v.

Lemma Wide_XOR64 x y v w : wide_reps x v -> wide_reps y w -> wide_reps (x .^ y) (v .^ w).
Proof. intros [-> ?] [-> ?]. split; auto with words. Qed.

Lemma Wide_AND64 x y v w : wide_reps x v -> wide_reps y w -> wide_reps (x .& y) (v .& w).
Proof. intros [-> ?] [-> ?]. split; auto with words. Qed.

Lemma Wide_OR64 x y v w : wide_reps x v -> wide_reps y w -> wide_reps (x .| y) (v .| w).
Proof. intros [-> ?] [-> ?]. split; auto with words. Qed.

Lemma Wide_NOT64 x v : wide_reps x v -> wide_reps (Wide.NOT64 x) (wnot 64 v).
Proof.
  intros [-> ?]. split; [|auto with words]. unfold Wide.NOT64. rewrite SPH_T64_trunc.
  apply trunc_id; auto with words.
Qed.

Lemma Wide_ROL64 n x v :
  (0 < n < 64)%nat -> wide_reps x v -> wide_reps (Wide.ROL64 n x) (KeccakSpec.rotl v n).
Proof.
  intros Hn [-> Hv]. split; [|apply rotl_word; [lia|assumption]].
  apply (word_ext 64); [lia|apply SPH_ROTL64_word|apply rotl_word; [lia|assumption]|].
  intros k Hk. unfold Wide.ROL64. now rewrite SPH_ROTL64_testbit, rotl_testbit by (assumption || lia).
Qed.

Lemma RC_wide_spec j : (j < 24)%nat -> nth j RC_wide 0 = KeccakSpec.RC j.
Proof.
  intros Hj. apply Z.eqb_eq. revert j Hj. apply forallb_seq. vm_compute. reflexivity.
Qed.

Lemma Wide_IOTA j x v :
  (j < 24)%nat -> wide_reps x v -> wide_reps (Wide.XOR64_IOTA x j) (v .^ KeccakSpec.RC j).
Proof.
  intros Hj [-> Hv]. unfold Wide.XOR64_IOTA. rewrite RC_wide_spec by assumption.
  pose proof (RC_word j Hj). split; auto with words.
Qed.

Lemma Wide_READ64 b off :
  bytes b -> (off + 8 <= length b)%nat -> wide_reps (Wide.READ64 p b off) (le_load 8 (slice b off 8)).
Proof.
  intros Hb Hl. unfold Wide.READ64.
  assert (B : bytes (slice b off 8)) by now apply Forall_slice.
  rewrite sph_dec64le_aligned_load by (rewrite ?length_slice; assumption || lia).
  split; [reflexivity|]. now apply (le_load_word 8).
Qed.

#[export] Instance Wide_laws : KeccakLaws (Wide.words p) :=
  @Build_KeccakLaws (Wide.words p) wide_reps (fun x v H => proj2 H) Wide_XOR64 Wide_AND64 Wide_OR64
    Wide_NOT64 Wide_ROL64 Wide_IOTA Wide_READ64.

Lemma Wide_keccak_read_write (a : list Z) : length a = 25%nat -> Wide.READ_STATE (Wide.WRITE_STATE a) = a.
Proof. intros H. expose_list a 25. reflexivity. Qed.

Lemma Wide_write_length (a : list Z) : length (Wide.WRITE_STATE a) = 25%nat.
Proof. reflexivity. Qed.

Lemma wide_reps_refl A : Forall (word 64) A -> Forall2 wide_reps A A.
Proof. induction 1; constructor; [split; [reflexivity|assumption]|assumption]. Qed.

Lemma wide_reps_eq a A : Forall2 wide_reps a A -> a = A.
Proof. induction 1 as [|x v a A [-> _] _ ->]; reflexivity. Qed.

Lemma Wide_init_ok (v : list Z) :
  length v = 25%nat ->
  length (Wide.init_words v) = 25%nat /\
  Wide.WRITE_STATE (Wide.READ_STATE (Wide.init_words v)) = Wide.init_words v /\
  Wide.init_words (Wide.init_words v) = Wide.init_words v /\
  state_reps (laws := Wide_laws) (Wide.READ_STATE (Wide.init_words v)) (mask complemented).
Proof.
  intros H. expose_list v 25. split; [reflexivity|]. split; [reflexivity|]. split; [reflexivity|].
  apply (wide_reps_refl (mask complemented)), mask_words.
Qed.

Lemma Wide_finalize_length (v : list Z) : length v = 25%nat -> length (Wide.finalize v) = 25%nat.
Proof. intros H. unfold Wide.finalize. cbv zeta. now rewrite !length_upd. Qed.

Lemma Wide_READ64_firstn b off m :
  (off + 8 <= m)%nat -> Wide.READ64 p (firstn m b) off = Wide.READ64 p b off.
Proof. intros. unfold Wide.READ64. now rewrite slice_firstn. Qed.

(** Complementing again the complemented words. *)
Lemma wnot_wnot w x : wnot w (wnot w x) = x.
Proof. unfold wnot. now rewrite Z.lxor_assoc, Z.lxor_nilpotent, Z.lxor_0_r. Qed.

Lemma Wide_finalize A :
  length A = 25%nat -> Wide.finalize (Wide.WRITE_STATE (xors A (mask complemented))) = A.
Proof.
  intros H. expose_list A 25.
  lazy -[wnot Z.lxor Z.ones]. rewrite !Z.lxor_0_r.
  repeat match goal with |- context [Z.lxor ?x (Z.ones 64)] =>
    change (Z.lxor x (Z.ones 64)) with (wnot 64 x) end.
  now rewrite !wnot_wnot.
Qed.

Lemma Wide_keccak_encode_ok (d : nat) (a A tmp : list Z) :
  (d <= 200)%nat -> (8 * ((d + 7) / 8) <= length tmp)%nat ->
  length A = 25%nat -> Forall (word 64) A -> Forall2 wide_reps a (xors A (mask complemented)) ->
  exists tmp', Wide.encode_words p d (Wide.finalize (Wide.WRITE_STATE a)) tmp = Some tmp' /\
    length tmp' = length tmp /\ firstn d tmp' = firstn d (concat (map (le_store 8) A)).
Proof.
  intros Hd Ht HA HW ->%wide_reps_eq. rewrite Wide_finalize by assumption. unfold Wide.encode_words.
  assert (E : forall i, sph_enc64le_aligned p (nth i A 0) = le_store 8 (nth i A 0)).
  { intros i. apply sph_enc64le_aligned_store; [assumption|]. apply Forall_nth'; [assumption|].
    now apply word_0. }
  apply (memcpy_loop_words 8 (sph_enc64le_aligned p)); [assumption|dlia|rewrite HA; dlia|assumption].
Qed.

#[export] Instance Wide_state_laws : KeccakStateLaws (Wide.words p) (laws := Wide_laws) :=
  @Build_KeccakStateLaws (Wide.words p) Wide_laws 25 Wide_keccak_read_write Wide_write_length Wide_init_ok
    Wide_finalize_length Wide_READ64_firstn Wide_keccak_encode_ok.
End Wide.

(** ** Pairs of 32-bit words *)

Section Narrow.
  Variable p : platform.
  Hypothesis Hp : platform_ok p = true.
  Variable interleave : bool.

(** Where bit [k] of the words [l] and [h] is in the lane. *)
Definition l_pos (k : Z) : Z := if interleave then 2 * k else k.
Definition h_pos (k : Z) : Z := if interleave then 2 * k + 1 else k + 32.

Definition narrow_reps (x : Narrow.lane) (v : Z) : Prop :=
  word 32 (Narrow.l x) /\ word 32 (Narrow.h x) /\ word 64 v /\
  forall k, 0 <= k < 32 ->
    Z.testbit (Narrow.l x) k = Z.testbit v (l_pos k) /\ Z.testbit (Narrow.h x) k = Z.testbit v (h_pos k).

Ltac pos_range := unfold l_pos, h_pos; destruct interleave; lia.

Lemma Narrow_XOR64 x y v w : narrow_reps x v -> narrow_reps y w -> narrow_reps (Narrow.XOR64 x y) (v .^ w).
Proof.
  intros (Xl & Xh & Xv & X) (Yl & Yh & Yv & Y). unfold narrow_reps; splits; cbn [Narrow.l Narrow.h Narrow.XOR64 Narrow.AND64 Narrow.OR64]; auto with words.
  intros k Hk. destruct (X k Hk) as [X1 X2], (Y k Hk) as [Y1 Y2].
  now rewrite !Z.lxor_spec, X1, X2, Y1, Y2.
Qed.

Lemma Narrow_AND64 x y v w : narrow_reps x v -> narrow_reps y w -> narrow_reps (Narrow.AND64 x y) (v .& w).
Proof.
  intros (Xl & Xh & Xv & X) (Yl & Yh & Yv & Y). unfold narrow_reps; splits; cbn [Narrow.l Narrow.h Narrow.XOR64 Narrow.AND64 Narrow.OR64]; auto with words.
  intros k Hk. destruct (X k Hk) as [X1 X2], (Y k Hk) as [Y1 Y2].
  now rewrite !Z.land_spec, X1, X2, Y1, Y2.
Qed.

Lemma Narrow_OR64 x y v w : narrow_reps x v -> narrow_reps y w -> narrow_reps (Narrow.OR64 x y) (v .| w).
Proof.
  intros (Xl & Xh & Xv & X) (Yl & Yh & Yv & Y). unfold narrow_reps; splits; cbn [Narrow.l Narrow.h Narrow.XOR64 Narrow.AND64 Narrow.OR64]; auto with words.
  intros k Hk. destruct (X k Hk) as [X1 X2], (Y k Hk) as [Y1 Y2].
  now rewrite !Z.lor_spec, X1, X2, Y1, Y2.
Qed.

Lemma Narrow_NOT64 x v : narrow_reps x v -> narrow_reps (Narrow.NOT64 x) (wnot 64 v).
Proof.
  intros (Xl & Xh & Xv & X). unfold Narrow.NOT64. change SPH_T32 with (trunc 32). rewrite !trunc_id by auto with words.
  unfold narrow_reps; splits; cbn [Narrow.l Narrow.h Narrow.XOR64 Narrow.AND64 Narrow.OR64]; auto with words. intros k Hk. destruct (X k Hk) as [X1 X2].
  rewrite !wnot_testbit, X1, X2 by (lia || pos_range).
  rewrite !(proj2 (Z.ltb_lt _ _)) by (lia || pos_range). auto.
Qed.

(** Both halves of a 32-bit rotation. *)
Definition rot32 (x n : Z) : Z := SPH_T32 (x << n) .| (x >> (32 - n)).

Lemma rot32_testbit x n k :
  word 32 x -> 0 <= n <= 32 -> 0 <= k < 32 ->
  Z.testbit (rot32 x n) k = Z.testbit x ((k - n) mod 32).
Proof.
  intros Hx Hn Hk. unfold rot32. change SPH_T32 with (trunc 32). autorewrite with zbits.
  rewrite (proj2 (Z.ltb_lt k 32)) by lia. cbn [andb]. destruct (Z.leb_spec n k).
  - rewrite (word_testbit_high 32 x (k + (32 - n))) by (assumption || lia).
    rewrite orb_false_r. cbn [andb]. f_equal. symmetry. apply Z.mod_small. lia.
  - cbn [andb orb]. f_equal. replace (k - n) with (k + (32 - n) + (-1) * 32) by lia.
    rewrite Z.mod_add, Z.mod_small by lia. reflexivity.
Qed.

Lemma rot32_word x n : word 32 x -> 0 <= n <= 32 -> word 32 (rot32 x n).
Proof. intros Hx Hn. unfold rot32. change SPH_T32 with (trunc 32). auto with words. Qed.

(** A rotation, from the rotations of the two words. *)
Lemma rotl_reps n x v a b :
  (0 < n < 64)%nat -> narrow_reps x v -> word 32 a -> word 32 b ->
  (forall k, 0 <= k < 32 ->
     Z.testbit a k = Z.testbit v ((l_pos k - Z.of_nat n) mod 64) /\
     Z.testbit b k = Z.testbit v ((h_pos k - Z.of_nat n) mod 64)) ->
  narrow_reps (Narrow.Lane a b) (KeccakSpec.rotl v n).
Proof.
  intros Hn (_ & _ & Hv & _) Ha Hb H. unfold narrow_reps; splits; cbn [Narrow.l Narrow.h Narrow.XOR64 Narrow.AND64 Narrow.OR64]; try assumption.
  - apply rotl_word; [lia|assumption].
  - intros k Hk. destruct (H k Hk) as [H1 H2].
    rewrite !rotl_testbit by (assumption || lia || pos_range). auto.
Qed.

Lemma ROL64_interleaved_cases n x :
  (0 < n < 64)%nat -> word 32 (Narrow.l x) -> word 32 (Narrow.h x) ->
  Narrow.ROL64_interleaved n x =
  if Nat.even n
  then Narrow.Lane (rot32 (Narrow.l x) (Z.of_nat n / 2)) (rot32 (Narrow.h x) (Z.of_nat n / 2))
  else Narrow.Lane (rot32 (Narrow.h x) ((Z.of_nat n + 1) / 2)) (rot32 (Narrow.l x) ((Z.of_nat n - 1) / 2)).
Proof.
  intros Hn Hl Hh. unfold Narrow.ROL64_interleaved.
  destruct (Nat.eqb_spec n 0); [lia|].
  assert (R0 : forall x, word 32 x -> rot32 x 0 = x).
  { intros y Hy. apply (word_ext 32); [lia|apply rot32_word; [assumption|lia]|assumption|].
    intros k Hk. rewrite rot32_testbit by (assumption || lia). f_equal. rewrite Z.sub_0_r. apply Z.mod_small. lia. }
  assert (R32 : forall x, word 32 x -> rot32 x 32 = x).
  { intros y Hy. apply (word_ext 32); [lia|apply rot32_word; [assumption|lia]|assumption|].
    intros k Hk. rewrite rot32_testbit by (assumption || lia). f_equal. dlia. }
  destruct (Nat.eqb_spec n 1) as [->|];
    [cbn [Nat.even]; change ((Z.of_nat 1 - 1) / 2) with 0; now rewrite R0|].
  destruct (Nat.eqb_spec n 63) as [->|];
    [cbn [Nat.even]; change ((Z.of_nat 63 + 1) / 2) with 32; now rewrite R32|].
  destruct (Nat.even n) eqn:E.
  - unfold Narrow.ROL64_even. now rewrite Nat2Z.inj_div.
  - unfold Narrow.ROL64_odd. rewrite Nat2Z.inj_div, Nat2Z.inj_add.
    assert (O : Nat.odd n = true) by (unfold Nat.odd; now rewrite E).
    apply Nat.odd_spec in O as [m ->]. unfold rot32.
    replace ((Z.of_nat (2 * m + 1) - 1) / 2) with ((Z.of_nat (2 * m + 1) + 1) / 2 - 1) by dlia.
    replace (32 - ((Z.of_nat (2 * m + 1) + 1) / 2 - 1)) with (33 - (Z.of_nat (2 * m + 1) + 1) / 2) by lia.
    reflexivity.
Qed.

Lemma Narrow_ROL64 n x v :
  (0 < n < 64)%nat -> narrow_reps x v ->
  narrow_reps (Narrow.ROL64 interleave n x) (KeccakSpec.rotl v n).
Proof.
  intros Hn Hx. pose proof Hx as (Xl & Xh & Xv & X). unfold Narrow.ROL64, l_pos, h_pos in *.
  destruct interleave eqn:EI.
  - rewrite ROL64_interleaved_cases by assumption. destruct (Nat.even n) eqn:E.
    + apply Nat.even_spec in E as [m ->].
      apply (rotl_reps _ x); try (apply rot32_word; [assumption|dlia]); try assumption.
      intros k Hk. unfold l_pos, h_pos. rewrite EI, !rot32_testbit by (assumption || dlia).
      destruct (X ((k - Z.of_nat (2 * m) / 2) mod 32) ltac:(dlia)) as [-> ->]. split; f_equal; dlia.
    + assert (O : Nat.odd n = true) by (unfold Nat.odd; now rewrite E).
      apply Nat.odd_spec in O as [m ->].
      apply (rotl_reps _ x); try (apply rot32_word; [assumption|dlia]); try assumption.
      intros k Hk. unfold l_pos, h_pos. rewrite EI, !rot32_testbit by (assumption || dlia).
      destruct (X ((k - (Z.of_nat (2 * m + 1) + 1) / 2) mod 32) ltac:(dlia)) as [_ ->].
      destruct (X ((k - (Z.of_nat (2 * m + 1) - 1) / 2) mod 32) ltac:(dlia)) as [-> _].
      split; f_equal; dlia.
  - unfold Narrow.ROL64_plain. destruct (Nat.eqb_spec n 0); [lia|].
    assert (S : forall m, 0 < m < 32 ->
      word 32 (Narrow.l (Narrow.ROL64_small x m)) /\ word 32 (Narrow.h (Narrow.ROL64_small x m)) /\
      forall k, 0 <= k < 32 ->
        Z.testbit (Narrow.l (Narrow.ROL64_small x m)) k = Z.testbit v ((k - m) mod 64) /\
        Z.testbit (Narrow.h (Narrow.ROL64_small x m)) k = Z.testbit v ((k + 32 - m) mod 64)).
    { intros m Hm. unfold Narrow.ROL64_small. change SPH_T32 with (trunc 32). cbn [Narrow.l Narrow.h].
      splits; auto with words. intros k Hk. autorewrite with zbits.
      rewrite (proj2 (Z.ltb_lt k 32)) by lia. cbn [andb]. destruct (Z.leb_spec m k).
      - destruct (X (k - m) ltac:(lia)) as [-> ->].
        rewrite (word_testbit_high 32 (Narrow.l x)), (word_testbit_high 32 (Narrow.h x)) by (assumption || lia).
        rewrite !orb_false_r. cbn [andb]. split; f_equal; dlia.
      - destruct (X (k + (32 - m)) ltac:(lia)) as [-> ->]. cbn [andb orb]. split; f_equal; dlia. }
    destruct (Nat.ltb_spec n 32); [|destruct (Nat.eqb_spec n 32) as [->|]].
    + destruct (S (Z.of_nat n) ltac:(lia)) as (S1 & S2 & S3).
      apply (rotl_reps _ x); auto. intros k Hk. unfold l_pos, h_pos. rewrite EI. now apply S3.
    + apply (rotl_reps _ x); auto; cbn [Narrow.l Narrow.h]; auto. intros k Hk. unfold l_pos, h_pos.
      rewrite EI. destruct (X k Hk) as [-> ->]. split; f_equal; dlia.
    + destruct (S (Z.of_nat (n - 32)) ltac:(lia)) as (S1 & S2 & S3). unfold Narrow.ROL64_big.
      apply (rotl_reps _ x); auto. intros k Hk. unfold l_pos, h_pos. rewrite EI.
      destruct (S3 k Hk) as [-> ->]. split; f_equal; dlia.
Qed.

(** *** Interleaving *)

Definition swap_pos (m n k : Z) : Z :=
  if Z.testbit m k then k + n else if (n <=? k) && Z.testbit m (k - n) then k - n else k.

Definition swap_mask_ok (m n : Z) : bool :=
  wordb 32 m && forallb (fun k => let k := Z.of_nat k in
    negb (Z.testbit m k && (n <=? k) && Z.testbit m (k - n))) (seq 0 32).

Lemma swap_bits_testbit x m n k :
  swap_mask_ok m n = true -> 0 <= n -> 0 <= k < 32 ->
  Z.testbit (Narrow.swap_bits x m n) k = Z.testbit x (swap_pos m n k).
Proof.
  intros [_ H]%andb_true_iff Hn Hk. pose proof (forallb_seq _ _ H (Z.to_nat k) ltac:(lia)) as E.
  cbv beta zeta in E. rewrite Z2Nat.id in E by lia.
  unfold Narrow.swap_bits, swap_pos. autorewrite with zbits.
  rewrite (proj2 (Z.ltb_lt k 32)) by lia. cbn [andb].
  destruct (Z.leb_spec n k).
  - autorewrite with zbits. replace (k - n + n) with k by lia.
    destruct (Z.testbit m k), (Z.testbit m (k - n)); try discriminate; cbn [andb]; btauto.
  - rewrite !andb_false_l, !xorb_false_r. destruct (Z.testbit m k); cbn [andb]; btauto.
Qed.

Lemma swap_bits_word x m n :
  swap_mask_ok m n = true -> word 32 x -> word 32 (Narrow.swap_bits x m n).
Proof.
  intros [Hm _]%andb_true_iff Hx. apply wordb_word in Hm. unfold Narrow.swap_bits. cbv zeta.
  apply lxor_word; [lia|assumption|]. apply lxor_word; [lia| |now apply shl_word].
  rewrite Z.land_comm. now apply land_word.
Qed.

(** The exchange of the high half of [l] with the low half of [h]. *)
Definition exchange (l h : Z) : Z * Z :=
  let t := (l .^ SPH_T32 (h << 16)) .& 0xFFFF0000 in (l .^ t, h .^ (t >> 16)).

Lemma high_mask_testbit k : 0 <= k -> Z.testbit 0xFFFF0000 k = (16 <=? k) && (k <? 32).
Proof.
  intros Hk. change 0xFFFF0000 with (Z.shiftl (Z.ones 16) 16). autorewrite with zbits.
  destruct (Z.leb_spec 16 k); [|reflexivity]. rewrite ones_testbit by lia. cbn [andb].
  destruct (Z.ltb_spec (k - 16) 16), (Z.ltb_spec k 32); reflexivity || lia.
Qed.

Lemma exchange_testbit l h k :
  word 32 l -> word 32 h -> 0 <= k < 32 ->
  Z.testbit (fst (exchange l h)) k = (if k <? 16 then Z.testbit l k else Z.testbit h (k - 16)) /\
  Z.testbit (snd (exchange l h)) k = (if k <? 16 then Z.testbit l (k + 16) else Z.testbit h k).
Proof.
  intros Hl Hh Hk. unfold exchange. change SPH_T32 with (trunc 32). cbn [fst snd].
  autorewrite with zbits. rewrite !high_mask_testbit by lia.
  destruct (Z.ltb_spec k 16); decide_cmp; cbn [andb]; replace (k + 16 - 16) with k by lia;
    split; btauto.
Qed.

Lemma exchange_word l h :
  word 32 l -> word 32 h -> word 32 (fst (exchange l h)) /\ word 32 (snd (exchange l h)).
Proof.
  intros Hl Hh. unfold exchange. change SPH_T32 with (trunc 32). cbn [fst snd].
  split; auto 10 with words.
Qed.

(** The four exchanges inside a word gather its even bits and its odd bits. *)
Definition gather_bits (x : Z) : Z :=
  Narrow.swap_bits (Narrow.swap_bits (Narrow.swap_bits (Narrow.swap_bits x
    0x22222222 1) 0x0C0C0C0C 2) 0x00F000F0 4) 0x0000FF00 8.
Definition scatter_bits (x : Z) : Z :=
  Narrow.swap_bits (Narrow.swap_bits (Narrow.swap_bits (Narrow.swap_bits x
    0x0000FF00 8) 0x00F000F0 4) 0x0C0C0C0C 2) 0x22222222 1.

Lemma masks_ok :
  swap_mask_ok 0x22222222 1 = true /\ swap_mask_ok 0x0C0C0C0C 2 = true /\
  swap_mask_ok 0x00F000F0 4 = true /\ swap_mask_ok 0x0000FF00 8 = true.
Proof. vm_compute. auto. Qed.

Lemma gather_bits_testbit x k :
  0 <= k < 32 ->
  Z.testbit (gather_bits x) k = Z.testbit x (if k <? 16 then 2 * k else 2 * (k - 16) + 1).
Proof.
  intros Hk. destruct masks_ok as (M1 & M2 & M4 & M8). unfold gather_bits.
  assert (R : forall k, 0 <= k < 32 ->
    let k3 := swap_pos 0x0000FF00 8 k in let k2 := swap_pos 0x00F000F0 4 k3 in
    let k1 := swap_pos 0x0C0C0C0C 2 k2 in
    0 <= k3 < 32 /\ 0 <= k2 < 32 /\ 0 <= k1 < 32 /\
    swap_pos 0x22222222 1 k1 = if k <? 16 then 2 * k else 2 * (k - 16) + 1).
  { clear. intros k Hk. each_bit 32%nat k Hk; vm_compute; repeat split; discriminate. }
  destruct (R k Hk) as (R3 & R2 & R1 & <-). now rewrite !swap_bits_testbit by (assumption || lia).
Qed.

Lemma scatter_bits_testbit x k :
  0 <= k < 32 ->
  Z.testbit (scatter_bits x) k = Z.testbit x (if Z.even k then k / 2 else k / 2 + 16).
Proof.
  intros Hk. destruct masks_ok as (M1 & M2 & M4 & M8). unfold scatter_bits.
  assert (R : forall k, 0 <= k < 32 ->
    let k3 := swap_pos 0x22222222 1 k in let k2 := swap_pos 0x0C0C0C0C 2 k3 in
    let k1 := swap_pos 0x00F000F0 4 k2 in
    0 <= k3 < 32 /\ 0 <= k2 < 32 /\ 0 <= k1 < 32 /\
    swap_pos 0x0000FF00 8 k1 = if Z.even k then k / 2 else k / 2 + 16).
  { clear. intros k Hk. each_bit 32%nat k Hk; vm_compute; repeat split; discriminate. }
  destruct (R k Hk) as (R3 & R2 & R1 & <-). now rewrite !swap_bits_testbit by (assumption || lia).
Qed.

Lemma gather_bits_word x : word 32 x -> word 32 (gather_bits x).
Proof. intros Hx. destruct masks_ok as (M1 & M2 & M4 & M8). unfold gather_bits. auto using swap_bits_word. Qed.

Lemma scatter_bits_word x : word 32 x -> word 32 (scatter_bits x).
Proof. intros Hx. destruct masks_ok as (M1 & M2 & M4 & M8). unfold scatter_bits. auto using swap_bits_word. Qed.

Lemma INTERLEAVE_exchange x :
  Narrow.INTERLEAVE x =
  let '(l, h) := exchange (gather_bits (Narrow.l x)) (gather_bits (Narrow.h x)) in Narrow.Lane l h.
Proof. reflexivity. Qed.

Lemma UNINTERLEAVE_exchange x :
  Narrow.UNINTERLEAVE x =
  let '(l, h) := exchange (Narrow.l x) (Narrow.h x) in Narrow.Lane (scatter_bits l) (scatter_bits h).
Proof. reflexivity. Qed.

(** The two halves of a 64-bit word, and its even and odd bits. *)
Definition halves (x : Narrow.lane) (v : Z) : Prop :=
  word 32 (Narrow.l x) /\ word 32 (Narrow.h x) /\ word 64 v /\
  forall k, 0 <= k < 32 ->
    Z.testbit (Narrow.l x) k = Z.testbit v k /\ Z.testbit (Narrow.h x) k = Z.testbit v (k + 32).
Definition even_odd (x : Narrow.lane) (v : Z) : Prop :=
  word 32 (Narrow.l x) /\ word 32 (Narrow.h x) /\ word 64 v /\
  forall k, 0 <= k < 32 ->
    Z.testbit (Narrow.l x) k = Z.testbit v (2 * k) /\ Z.testbit (Narrow.h x) k = Z.testbit v (2 * k + 1).

Lemma INTERLEAVE_ok x v : halves x v -> even_odd (Narrow.INTERLEAVE x) v.
Proof.
  intros (Xl & Xh & Xv & X). rewrite INTERLEAVE_exchange.
  pose proof (gather_bits_word _ Xl) as Gl. pose proof (gather_bits_word _ Xh) as Gh.
  pose proof (exchange_word _ _ Gl Gh) as [W1 W2].
  pose proof (fun k => exchange_testbit _ _ k Gl Gh) as T.
  destruct (exchange _ _) as [l h]. cbn [fst snd] in *. unfold even_odd. cbn [Narrow.l Narrow.h].
  splits; try assumption. intros k Hk. destruct (T k Hk) as [-> ->].
  rewrite !gather_bits_testbit by (destruct (Z.ltb_spec k 16); lia).
  destruct (Z.ltb_spec k 16); rewrite !gather_bits_testbit by lia; decide_cmp.
  - destruct (X (2 * k) ltac:(lia)) as [-> _].
    destruct (X (2 * (k + 16 - 16) + 1) ltac:(lia)) as [-> _]. split; f_equal; lia.
  - destruct (X (2 * (k - 16)) ltac:(lia)) as [_ ->].
    destruct (X (2 * (k - 16) + 1) ltac:(lia)) as [_ ->]. split; f_equal; lia.
Qed.

Lemma UNINTERLEAVE_ok x v : even_odd x v -> halves (Narrow.UNINTERLEAVE x) v.
Proof.
  intros (Xl & Xh & Xv & X). rewrite UNINTERLEAVE_exchange.
  pose proof (exchange_word _ _ Xl Xh) as [W1 W2].
  pose proof (fun k => exchange_testbit _ _ k Xl Xh) as T.
  destruct (exchange _ _) as [l h]. cbn [fst snd] in *. unfold halves. cbn [Narrow.l Narrow.h].
  splits; try (now apply scatter_bits_word); try assumption. intros k Hk.
  rewrite !scatter_bits_testbit by assumption. pose proof (Zmod_even k) as E.
  pose proof (Z.div_mod k 2 ltac:(lia)) as D. destruct (Z.even k); rewrite E in D.
  - destruct (T (k / 2) ltac:(lia)) as [-> ->]. decide_cmp.
    destruct (X (k / 2) ltac:(lia)) as [-> _]. destruct (X (k / 2 + 16) ltac:(lia)) as [-> _].
    split; f_equal; lia.
  - destruct (T (k / 2 + 16) ltac:(lia)) as [-> ->]. decide_cmp.
    replace (k / 2 + 16 - 16) with (k / 2) by lia.
    destruct (X (k / 2) ltac:(lia)) as [_ ->]. destruct (X (k / 2 + 16) ltac:(lia)) as [_ ->].
    split; f_equal; lia.
Qed.

(** *** The instances *)

Lemma narrow_reps_halves x v :
  narrow_reps x v <-> if interleave then even_odd x v else halves x v.
Proof. unfold narrow_reps, even_odd, halves, l_pos, h_pos. destruct interleave; reflexivity. Qed.

Definition IOTA_check (j : nat) : bool :=
  let '(high, low) := nth j (if interleave then RC_interleaved else RC_narrow) (0, 0) in
  wordb 32 low && wordb 32 high && forallb (fun k => let k := Z.of_nat k in
    Bool.eqb (Z.testbit low k) (Z.testbit (KeccakSpec.RC j) (l_pos k)) &&
    Bool.eqb (Z.testbit high k) (Z.testbit (KeccakSpec.RC j) (h_pos k))) (seq 0 32).

Lemma Narrow_IOTA j x v :
  (j < 24)%nat -> narrow_reps x v ->
  narrow_reps (Narrow.XOR64_IOTA interleave x j) (v .^ KeccakSpec.RC j).
Proof.
  intros Hj Hx.
  assert (C : IOTA_check j = true).
  { revert j Hj. apply forallb_seq. unfold IOTA_check, l_pos, h_pos.
    destruct interleave; vm_compute; reflexivity. }
  unfold IOTA_check in C. unfold Narrow.XOR64_IOTA.
  destruct (nth j _ _) as [high low]. rewrite !andb_true_iff, !wordb_word in C.
  destruct C as [[Cl Ch] C]. change (Narrow.Lane (Narrow.l x .^ low) (Narrow.h x .^ high)) with
    (Narrow.XOR64 x (Narrow.Lane low high)).
  apply Narrow_XOR64; [assumption|]. unfold narrow_reps. cbn [Narrow.l Narrow.h].
  splits; try assumption; [now apply RC_word|]. intros k Hk.
  pose proof (forallb_seq _ _ C (Z.to_nat k) ltac:(lia)) as E. cbv beta zeta in E.
  rewrite Z2Nat.id in E by lia. apply andb_true_iff in E as [E1 E2]. split; now apply eqb_prop.
Qed.

Lemma load_halves b :
  bytes b -> length b = 8%nat ->
  halves (Narrow.Lane (le_load 4 (slice b 0 4)) (le_load 4 (slice b 4 4))) (le_load 8 b).
Proof.
  intros Hb Hl.
  assert (B : forall o, bytes (slice b o 4)) by (intros; now apply Forall_slice).
  unfold halves. cbn [Narrow.l Narrow.h].
  splits; [apply (le_load_word 4)|apply (le_load_word 4)|apply (le_load_word 8)|]; auto.
  intros k Hk. rewrite !le_load_testbit by (auto || lia). rewrite !nth_slice by dlia.
  split; [reflexivity|]. f_equal; [f_equal; dlia|dlia].
Qed.

Lemma Narrow_READ64 b off :
  bytes b -> (off + 8 <= length b)%nat ->
  narrow_reps (Narrow.READ64 p interleave b off) (le_load 8 (slice b off 8)).
Proof.
  intros Hb Hl. apply narrow_reps_halves. unfold Narrow.READ64.
  assert (B : forall o n, bytes (slice b o n)) by (intros; now apply Forall_slice).
  rewrite !sph_dec32le_aligned_load by (auto || rewrite length_slice; lia).
  pose proof (load_halves (slice b off 8) (B off 8%nat) (length_slice _ _ _ Hl)) as H.
  assert (E : forall o, (o + 4 <= 8)%nat -> slice (slice b off 8) o 4 = slice b (off + o) 4).
  { intros o Ho. unfold slice. rewrite skipn_firstn_comm, firstn_firstn, skipn_skipn.
    f_equal; [lia|]. f_equal. lia. }
  rewrite !E, Nat.add_0_r in H by lia. destruct interleave; [now apply INTERLEAVE_ok|exact H].
Qed.

#[export] Instance Narrow_laws : KeccakLaws (Narrow.words p interleave) :=
  @Build_KeccakLaws (Narrow.words p interleave) narrow_reps
    (fun x v H => proj1 (proj2 (proj2 H))) Narrow_XOR64 Narrow_AND64 Narrow_OR64
    Narrow_NOT64 Narrow_ROL64 Narrow_IOTA Narrow_READ64.

Lemma Narrow_keccak_read_write (a : list Narrow.lane) :
  length a = 25%nat -> Narrow.READ_STATE (Narrow.WRITE_STATE a) = a.
Proof.
  intros H. expose_list a 25.
  repeat match goal with x : Narrow.lane |- _ => destruct x end. reflexivity.
Qed.

Lemma Narrow_write_length (a : list Narrow.lane) : length (Narrow.WRITE_STATE a) = 50%nat.
Proof. reflexivity. Qed.

Lemma narrow_0 : narrow_reps (Narrow.Lane 0 0) 0.
Proof.
  unfold narrow_reps. cbn [Narrow.l Narrow.h]. splits; auto with words.
  intros. rewrite !Z.testbit_0_l. auto.
Qed.

Lemma narrow_ones : narrow_reps (Narrow.Lane 0xFFFFFFFF 0xFFFFFFFF) (Z.ones 64).
Proof.
  change 0xFFFFFFFF with (Z.ones 32).
  unfold narrow_reps. cbn [Narrow.l Narrow.h]. splits; [apply ones_word; lia..|].
  intros k Hk. rewrite !ones_testbit by (lia || pos_range).
  rewrite !(proj2 (Z.ltb_lt _ _)) by (lia || pos_range). auto.
Qed.

Definition narrow_start : list Z :=
  concat (map (fun i => if existsb (Nat.eqb i) complemented then [0xFFFFFFFF; 0xFFFFFFFF]
                        else [0; 0]) (seq 0 25)).

Lemma Narrow_init_words (v : list Z) : length v = 50%nat -> Narrow.init_words v = narrow_start.
Proof. intros H. expose_list v 50. vm_compute. reflexivity. Qed.

Lemma Narrow_init_ok (v : list Z) :
  length v = 50%nat ->
  length (Narrow.init_words v) = 50%nat /\
  Narrow.WRITE_STATE (Narrow.READ_STATE (Narrow.init_words v)) = Narrow.init_words v /\
  Narrow.init_words (Narrow.init_words v) = Narrow.init_words v /\
  state_reps (laws := Narrow_laws) (Narrow.READ_STATE (Narrow.init_words v)) (mask complemented).
Proof.
  intros H. rewrite (Narrow_init_words v H).
  split; [reflexivity|]. split; [vm_compute; reflexivity|]. split; [now apply Narrow_init_words|].
  pose proof narrow_0. pose proof narrow_ones.
  change (Forall2 narrow_reps
    (map (fun i => if existsb (Nat.eqb i) complemented then Narrow.Lane 0xFFFFFFFF 0xFFFFFFFF
                   else Narrow.Lane 0 0) (seq 0 25)) (mask complemented)).
  unfold mask. generalize (seq 0 25). induction l as [|i l IH]; constructor; [|exact IH].
  destruct (existsb _ _); assumption.
Qed.

Lemma Narrow_finalize_length (v : list Z) :
  length v = 50%nat -> length (Narrow.finalize interleave v) = 50%nat.
Proof.
  intros H. unfold Narrow.finalize. cbv zeta. rewrite length_fold_left.
  - rewrite length_fold_left; [assumption|]. intros. apply length_upd.
  - intros. now rewrite !length_upd.
Qed.

Lemma Narrow_READ64_firstn b off m :
  (off + 8 <= m)%nat -> Narrow.READ64 p interleave (firstn m b) off = Narrow.READ64 p interleave b off.
Proof. intros. unfold Narrow.READ64. now rewrite !slice_firstn by lia. Qed.

(** The words at the end of [keccak_close]: complemented back, then not
    interleaved any more. *)
Definition final_lane (a : list Narrow.lane) (i : nat) : Narrow.lane :=
  let x := nth i a (Narrow.Lane 0 0) in
  let x := if existsb (Nat.eqb i) complemented
           then Narrow.Lane (wnot 32 (Narrow.l x)) (wnot 32 (Narrow.h x)) else x in
  if interleave then Narrow.UNINTERLEAVE x else x.

Lemma Narrow_finalize a :
  length a = 25%nat ->
  Narrow.finalize interleave (Narrow.WRITE_STATE a) =
  concat (map (fun i => [Narrow.l (final_lane a i); Narrow.h (final_lane a i)]) (seq 0 25)).
Proof.
  intros H. expose_list a 25. unfold final_lane.
  repeat match goal with x : Narrow.lane |- _ => destruct x end.
  destruct interleave; lazy -[Narrow.UNINTERLEAVE wnot]; reflexivity.
Qed.

Lemma final_lane_halves a A i :
  (i < 25)%nat -> length A = 25%nat -> Forall (word 64) A ->
  Forall2 narrow_reps a (xors A (mask complemented)) -> halves (final_lane a i) (nth i A 0).
Proof.
  intros Hi HA HW Ha. pose proof (length_mask complemented) as LM.
  assert (LX : length (xors A (mask complemented)) = 25%nat)
    by (unfold xors; now rewrite length_map, length_combine, HA, LM).
  pose proof (state_reps_nth (laws := Narrow_laws) a _ i (eq_ind_r _ Hi LX) Ha) as R.
  rewrite nth_xors in R by now rewrite HA, LM.
  change (narrow_reps (nth i a (Narrow.Lane 0 0)) (nth i A 0 .^ nth i (mask complemented) 0)) in R.
  assert (R' : narrow_reps
    (if existsb (Nat.eqb i) complemented
     then Narrow.Lane (wnot 32 (Narrow.l (nth i a (Narrow.Lane 0 0))))
                      (wnot 32 (Narrow.h (nth i a (Narrow.Lane 0 0))))
     else nth i a (Narrow.Lane 0 0)) (nth i A 0)).
  { unfold mask in R. rewrite nth_map_seq in R by assumption.
    destruct (existsb _ _); [|now rewrite Z.lxor_0_r in R].
    pose proof (Narrow_NOT64 _ _ R) as N. fold (wnot 64 (nth i A 0)) in N.
    rewrite wnot_wnot in N. destruct R as (Rl & Rh & _). revert N. unfold Narrow.NOT64.
    change SPH_T32 with (trunc 32). now rewrite !trunc_id by auto with words. }
  apply narrow_reps_halves in R'. unfold final_lane. cbv zeta.
  destruct interleave; [now apply UNINTERLEAVE_ok|exact R'].
Qed.

Lemma halves_bytes x v : halves x v -> le_store 4 (Narrow.l x) ++ le_store 4 (Narrow.h x) = le_store 8 v.
Proof.
  intros (Xl & Xh & Xv & X). apply (nth_ext' _ _ 0).
  { now rewrite length_app, !length_le_store. }
  rewrite length_app, !length_le_store. intros i Hi.
  rewrite (nth_le_store 8) by assumption.
  destruct (Nat.lt_ge_cases i 4).
  - rewrite app_nth1, nth_le_store by (rewrite ?length_le_store; lia). bitwise k Hk.
    destruct (Z.ltb_spec k 8); [|reflexivity]. cbn [andb]. apply X. lia.
  - rewrite app_nth2, length_le_store, nth_le_store by (rewrite ?length_le_store; lia). bitwise k Hk.
    destruct (Z.ltb_spec k 8); [|reflexivity]. cbn [andb].
    destruct (X (k + 8 * Z.of_nat (i - 4)) ltac:(lia)) as [_ ->]. f_equal. lia.
Qed.

Lemma Narrow_keccak_encode_ok (d : nat) (a : list Narrow.lane) (A tmp : list Z) :
  (d <= 200)%nat -> (8 * ((d + 7) / 8) <= length tmp)%nat ->
  length A = 25%nat -> Forall (word 64) A -> Forall2 narrow_reps a (xors A (mask complemented)) ->
  exists tmp', Narrow.encode_words p d (Narrow.finalize interleave (Narrow.WRITE_STATE a)) tmp = Some tmp' /\
    length tmp' = length tmp /\ firstn d tmp' = firstn d (concat (map (le_store 8) A)).
Proof.
  intros Hd Ht HA HW Ha.
  assert (La : length a = 25%nat).
  { apply Forall2_length in Ha. rewrite Ha. unfold xors. now rewrite length_map, length_combine, HA, length_mask. }
  rewrite Narrow_finalize by assumption.
  set (ws := concat _).
  assert (F : forall i, (i < 25)%nat -> halves (final_lane a i) (nth i A 0))
    by (intros; now apply final_lane_halves).
  assert (Ww : Forall (word 32) ws).
  { apply Forall_concat, Forall_map, Forall_forall. intros i Hi%in_seq.
    destruct (F i) as (? & ? & _); [lia|]. auto. }
  assert (Lw : length ws = 50%nat) by reflexivity.
  assert (Ew : concat (map (le_store 4) ws) = concat (map (le_store 8) A)).
  { unfold ws. rewrite concat_map, map_map.
    rewrite <- (firstn_all A), HA, <- map_nth_seq by lia. rewrite map_map.
    clear - F. assert (G : forall n, (n <= 25)%nat ->
      concat (concat (map (fun x => map (le_store 4)
        [Narrow.l (final_lane a x); Narrow.h (final_lane a x)]) (seq 0 n))) =
      concat (map (fun i => le_store 8 (nth i A 0)) (seq 0 n))).
    { induction n as [|n IH]; intros Hn; [reflexivity|].
      rewrite seq_S, !map_app, !concat_app, IH by lia. f_equal. cbn [map concat app Nat.add].
      rewrite !app_nil_r. apply halves_bytes, F. lia. }
    exact (G 25%nat (le_n _)). }
  clearbody ws. clear F.
  assert (E : forall i, sph_enc32le_aligned p (nth i ws 0) = le_store 4 (nth i ws 0)).
  { intros i. apply sph_enc32le_aligned_store; [assumption|]. apply Forall_nth'; [assumption|].
    apply word_0. lia. }
  unfold Narrow.encode_words.
  destruct (memcpy_loop_ok 4 (fun i => sph_enc32le_aligned p (nth i ws 0)) ((d + 3) / 4) tmp)
    as (tmp' & E1 & L & G); [intros; rewrite E; apply length_le_store|dlia|].
  exists tmp'. split; [exact E1|]. split; [assumption|].
  rewrite (map_ext _ _ E) in G. rewrite <- (map_map (fun i => nth i ws 0) (le_store 4)) in G.
  rewrite map_nth_seq in G by (rewrite Lw; dlia).
  transitivity (firstn d (firstn (4 * ((d + 3) / 4)) tmp')).
  { rewrite firstn_firstn. f_equal. dlia. }
  rewrite G, <- Ew. apply (firstn_concat_map _ _ 4); [apply length_le_store|dlia|rewrite Lw; dlia].
Qed.

#[export] Instance Narrow_state_laws :
    KeccakStateLaws (Narrow.words p interleave) (laws := Narrow_laws) :=
  @Build_KeccakStateLaws (Narrow.words p interleave) Narrow_laws 50 Narrow_keccak_read_write
    Narrow_write_length Narrow_init_ok Narrow_finalize_length Narrow_READ64_firstn Narrow_keccak_encode_ok.
End Narrow.
