(* ===== verification/KeccakHash.v ===== *)
(** * keccak.c computes Keccak

    The configurations keccak.c can be compiled in, and the theorem on the
    functions of sph_keccak.h: in every configuration they compute the hash of
    the specification, of any message, cut in any pieces. *)

From Stdlib Require Import ZArith List Lia Bool.
From S2P Require Import Prelude BitStrings SphTypes Stream KeccakTables Keccak KeccakSpec KeccakProof.
From S2P Require Import KeccakMode KeccakLanes.
Import ListNotations.

Record keccak_config := KeccakConfig {
  keccak_platform : platform;
  SPH_KECCAK_64 : bool;
  SPH_KECCAK_INTERLEAVE : bool;
  SPH_KECCAK_UNROLL : unroll;
  SPH_KECCAK_NOCOPY : bool
}.

Definition keccak_words (cf : keccak_config) : KeccakWords :=
  if SPH_KECCAK_64 cf then Wide.words (keccak_platform cf)
  else Narrow.words (keccak_platform cf) (SPH_KECCAK_INTERLEAVE cf).

(** The number of words of the state array in use. *)
Definition state_words (cf : keccak_config) : nat := if SPH_KECCAK_64 cf then 25%nat else 50%nat.

Lemma keccak_config_laws cf :
  platform_ok (keccak_platform cf) = true ->
  exists (laws : KeccakLaws (keccak_words cf)) (slaws : @KeccakStateLaws (keccak_words cf) laws),
    @nwords _ laws slaws = state_words cf.
Proof.
  intros Hp. destruct cf as [p k64 il un nc]. unfold keccak_words, state_words.
  cbn [keccak_platform SPH_KECCAK_64 SPH_KECCAK_INTERLEAVE] in *. destruct k64.
  - exists (Wide_laws p Hp), (Wide_state_laws p Hp). reflexivity.
  - exists (Narrow_laws p Hp il), (Narrow_state_laws p Hp il). reflexivity.
Qed.

(** [init], any number of [update]s, then [addbits_and_close] with [n] extra
    bits: no access outside of a buffer, the digest of the specification, and
    a context that is initialised again; [close] is the case without bits.
    [lim] is the size of a block, [nu] that of the state array. *)
Definition computes_keccak (d lim nu : nat)
    (init : keccak_context -> keccak_context)
    (update : keccak_context -> list Z -> option keccak_context)
    (addbits_and_close : list Z -> keccak_context -> Z -> Z -> option (list Z * keccak_context))
    (close : list Z -> keccak_context -> option (list Z * keccak_context)) : Prop :=
  forall pieces cc stack ub n,
  (n < 8)%nat -> length (buf cc) = 144%nat -> length (u cc) = nu ->
  length stack = (lim + 1)%nat -> Forall bytes pieces ->
  exists cc1 out cc2,
    fold_left (fun cc data => let* cc := cc in update cc data) pieces (Some (init cc)) = Some cc1 /\
    addbits_and_close stack cc1 ub (Z.of_nat n) = Some (out, cc2) /\
    close stack cc1 = addbits_and_close stack cc1 0 0 /\
    bytes out /\ (8 * length out = d)%nat /\
    KeccakSpec.bits_of_bytes out =
      KeccakSpec.hash d (KeccakSpec.bits_of_bytes (concat pieces) ++ keccak_extra_bits ub n) /\
    length (buf cc2) = 144%nat /\ init cc2 = cc2.

Section API.
  Variable cf : keccak_config.
#[local] Instance cf_words : KeccakWords := keccak_words cf.
  Abbreviation un := (SPH_KECCAK_UNROLL cf).
  Abbreviation nc := (SPH_KECCAK_NOCOPY cf).
  Abbreviation nu := (state_words cf).

Lemma keccak_family :
  platform_ok (keccak_platform cf) = true ->
  computes_keccak 224 144 nu sph_keccak224_init (sph_keccak224 un nc)
    (sph_keccak224_addbits_and_close un nc) (sph_keccak224_close un nc) /\
  computes_keccak 256 136 nu sph_keccak256_init (sph_keccak256 un nc)
    (sph_keccak256_addbits_and_close un nc) (sph_keccak256_close un nc) /\
  computes_keccak 384 104 nu sph_keccak384_init (sph_keccak384 un nc)
    (sph_keccak384_addbits_and_close un nc) (sph_keccak384_close un nc) /\
  computes_keccak 512 72 nu sph_keccak512_init (sph_keccak512 un nc)
    (sph_keccak512_addbits_and_close un nc) (sph_keccak512_close un nc).
Proof.
  intros Hp. destruct (keccak_config_laws cf Hp) as (laws & slaws & Hnw).
  assert (G : forall d lim, In (d, lim) members ->
    computes_keccak (8 * d) lim nu (fun kc => keccak_init kc (8 * Z.of_nat d))
      (fun kc data => keccak_core un nc kc data lim)
      (fun stack kc ub n => keccak_close un nc d lim stack kc ub n)
      (fun stack kc => keccak_close un nc d lim stack kc 0 0)).
  { intros d lim Hm pieces cc stack ub n Hn Hb Hu Hs Hpc. rewrite <- Hnw in Hu.
    destruct (keccak_whole un nc d lim Hm pieces cc stack ub n Hn Hb Hu Hs Hpc)
      as (c1 & out & c2 & E1 & E2 & Ho & Lo & E & L & I).
    exists c1, out, c2. splits; try assumption; [reflexivity|lia]. }
  splits; [apply (G 28%nat 144%nat)|apply (G 32%nat 136%nat)|apply (G 48%nat 104%nat)|
           apply (G 64%nat 72%nat)]; cbn; tauto.
Qed.
End API.
