(* ===== verification/KeccakTheorems.v ===== *)
(** * Theorems on keccak.c

    What a user of the functions of sph_keccak.h relies on, for every
    configuration keccak.c can be compiled in, and the properties of the
    tricks the code plays: bit interleaving, complemented lanes, unrolled
    rounds on permuted variables. *)

From Stdlib Require Import ZArith List Lia Bool.
From S2P Require Import Prelude BitStrings SphTypes Stream KeccakTables Keccak KeccakSpec KeccakProof.
From S2P Require Import KeccakMode KeccakLanes KeccakHash SphTheorems.
Import ListNotations.

(** C37: in every configuration (byte order, 64-bit words, 32-bit words with or without bit
    interleaving, each unrolling, state copied or not), for each of the four members,
    initialising a context, updating it with any pieces of a message and closing it with up to
    seven more bits makes no access outside of a buffer, returns the Keccak digest of the
    message's bits, and leaves the context initialised. *)
Theorem keccak_computes_Keccak (cf : keccak_config) :
  platform_ok (keccak_platform cf) = true ->
  let words := keccak_words cf in
  let un := SPH_KECCAK_UNROLL cf in let nc := SPH_KECCAK_NOCOPY cf in let nu := state_words cf in
  computes_keccak 224 144 nu sph_keccak224_init (sph_keccak224 un nc)
    (sph_keccak224_addbits_and_close un nc) (sph_keccak224_close un nc) /\
  computes_keccak 256 136 nu sph_keccak256_init (sph_keccak256 un nc)
    (sph_keccak256_addbits_and_close un nc) (sph_keccak256_close un nc) /\
  computes_keccak 384 104 nu sph_keccak384_init (sph_keccak384 un nc)
    (sph_keccak384_addbits_and_close un nc) (sph_keccak384_close un nc) /\
  computes_keccak 512 72 nu sph_keccak512_init (sph_keccak512 un nc)
    (sph_keccak512_addbits_and_close un nc) (sph_keccak512_close un nc).
Proof. apply keccak_family. Qed.

Lemma keccak_computes_Keccak_witness :
  let words := Narrow.words little_endian true in
  computes_keccak 256 136 50 sph_keccak256_init (sph_keccak256 Unroll_6 true)
    (sph_keccak256_addbits_and_close Unroll_6 true) (sph_keccak256_close Unroll_6 true).
Proof.
  apply (keccak_computes_Keccak (KeccakConfig little_endian false true Unroll_6 true)). reflexivity.
Defined.

(** On a state that holds the words [A] with six of them complemented, each unrolling of
    the permutation leaves a state that holds Keccak-f[1600] of [A] with the same six words
    complemented, whatever the representation of the words. *)
Theorem keccak_f1600_refines (words : KeccakWords) (laws : KeccakLaws words) (un : unroll)
    (a : list lane) (A : list Z) :
  length A = 25%nat -> Forall (word 64) A -> state_reps a (xors A (mask complemented)) ->
  state_reps (KECCAK_F_1600 un a) (xors (KeccakSpec.f1600 A) (mask complemented)).
Proof. intros. now apply f1600_reps. Qed.

Lemma keccak_f1600_refines_witness :
  @state_reps _ (Wide_laws portable eq_refl)
    (@KECCAK_F_1600 (Wide.words portable) Unroll_8 (mask complemented))
    (xors (KeccakSpec.f1600 (repeat 0 25)) (mask complemented)).
Proof.
  apply keccak_f1600_refines.
  - reflexivity.
  - repeat constructor; now compute.
  - repeat constructor; now compute.
Defined.

(** The seven unrollings, which permute the roles of the local variables in different
    ways and move them back, compute the same function of the state. *)
Theorem keccak_unrollings_equal (words : KeccakWords) (un un' : unroll) (a : list lane) :
  length a = 25%nat -> KECCAK_F_1600 un a = KECCAK_F_1600 un' a.
Proof. intros H. now rewrite !KECCAK_F_1600_rounds. Qed.

Lemma keccak_unrollings_equal_witness :
  @KECCAK_F_1600 (Wide.words portable) Unroll_0 (repeat 5 25) =
  @KECCAK_F_1600 (Wide.words portable) Unroll_2 (repeat 5 25).
Proof. apply keccak_unrollings_equal. reflexivity. Defined.

(** The input macro on local variables, with its chain of cases on the block size, and
    the macros for one block size add the same words to the state as the loop used without the
    copy, for the four block sizes. *)
Theorem keccak_input_forms_equal (words : KeccakWords) (d lim : nat) (buf : list Z) (a : list lane) :
  In (d, lim) members ->
  INPUT_BUF_copy lim buf a = INPUT_BUF_loop lim buf a /\
  INPUT_BUF144 buf a = INPUT_BUF_loop 144 buf a /\ INPUT_BUF136 buf a = INPUT_BUF_loop 136 buf a /\
  INPUT_BUF104 buf a = INPUT_BUF_loop 104 buf a /\ INPUT_BUF72 buf a = INPUT_BUF_loop 72 buf a.
Proof. intros H. split; [exact (INPUT_BUF_loop_eq false d lim H buf a)|]. splits; reflexivity. Qed.

Lemma keccak_input_forms_equal_witness :
  @INPUT_BUF_copy (Wide.words portable) 104 (repeat 1 144) (repeat 0 25) =
  @INPUT_BUF_loop (Wide.words portable) 104 (repeat 1 144) (repeat 0 25).
Proof. refine (proj1 (keccak_input_forms_equal (Wide.words portable) 48 104 _ _ _)). cbn. tauto. Defined.

(** Interleaving puts the bits of even rank of a 64-bit word in the first half and those
    of odd rank in the second, and undoing the interleaving gives the two halves back. *)
Theorem keccak_interleave_roundtrip (x : Narrow.lane) (v : Z) :
  halves x v ->
  even_odd (Narrow.INTERLEAVE x) v /\ Narrow.UNINTERLEAVE (Narrow.INTERLEAVE x) = x.
Proof.
  intros Hx. pose proof (INTERLEAVE_ok x v Hx) as E. split; [assumption|].
  pose proof (UNINTERLEAVE_ok _ v E) as (Wl & Wh & _ & U). destruct Hx as (Xl & Xh & _ & X).
  destruct (Narrow.UNINTERLEAVE (Narrow.INTERLEAVE x)) as [l' h'], x as [l h].
  cbn [Narrow.l Narrow.h] in *.
  f_equal; (apply (word_ext 32); [lia|assumption|assumption|]); intros k Hk;
    destruct (U k Hk), (X k Hk); congruence.
Qed.

Lemma keccak_interleave_roundtrip_witness :
  Narrow.UNINTERLEAVE (Narrow.INTERLEAVE (Narrow.Lane 0x12345678 0x9ABCDEF0)) =
  Narrow.Lane 0x12345678 0x9ABCDEF0.
Proof.
  apply (keccak_interleave_roundtrip _ 0x9ABCDEF012345678). unfold halves.
  splits; [now compute|now compute|now compute|].
  intros k Hk. cbn [Narrow.l Narrow.h]. split.
  - each_bit 32%nat k Hk; reflexivity.
  - each_bit 32%nat k Hk; reflexivity.
Defined.

(** On interleaved words and on plain pairs of words, the 64 rotation macros (with their
    special cases for 0, 1, 32 and 63, and their odd and even forms) rotate the 64-bit word
    the two halves stand for. *)
Theorem keccak_rotations (interleave : bool) (n : nat) (x : Narrow.lane) (v : Z) :
  (0 < n < 64)%nat -> narrow_reps interleave x v ->
  narrow_reps interleave (Narrow.ROL64 interleave n x) (KeccakSpec.rotl v n).
Proof. apply Narrow_ROL64. Qed.

Lemma keccak_rotations_witness :
  narrow_reps false (Narrow.ROL64 false 33 (Narrow.Lane 1 0)) (KeccakSpec.rotl 1 33).
Proof.
  apply keccak_rotations; [lia|]. unfold narrow_reps. splits; [now compute|now compute|now compute|].
  intros k Hk. unfold l_pos, h_pos. cbn [Narrow.l Narrow.h]. split.
  - each_bit 32%nat k Hk; reflexivity.
  - each_bit 32%nat k Hk; reflexivity.
Defined.

(** The list of complemented words in the comment before [KHI] is right: if words 1, 2,
    8, 12, 17 and 20 of the state are complemented at the start of a round, those complemented
    when [KHI] starts are the twelve listed, and the linear steps commute with it. *)
Theorem keccak_complement_propagates (A : list Z) :
  length A = 25%nat -> Forall (word 64) A ->
  KeccakSpec.pi (KeccakSpec.rho (KeccakSpec.theta (xors A (mask complemented)))) =
  xors (KeccakSpec.pi (KeccakSpec.rho (KeccakSpec.theta A))) (mask KHI_input).
Proof.
  intros HA HW. assert (LM : length A = length (mask complemented)) by now rewrite HA, length_mask.
  pose proof (mask_words complemented) as WM.
  pose proof (theta_words A HW) as T1. pose proof (theta_words _ WM) as T2.
  rewrite theta_xors, rho_xors, pi_xors, mask_rounds by (assumption || reflexivity). reflexivity.
Qed.

Lemma keccak_complement_propagates_witness :
  KeccakSpec.pi (KeccakSpec.rho (KeccakSpec.theta (xors (repeat 3 25) (mask complemented)))) =
  xors (KeccakSpec.pi (KeccakSpec.rho (KeccakSpec.theta (repeat 3 25)))) (mask KHI_input).
Proof.
  apply keccak_complement_propagates; [reflexivity|]. repeat constructor; now compute.
Defined.
