(* ===== verification/EchoSpec.v ===== *)
(** * The specification of ECHO

    The hash function ECHO (Benadjila et al., second round of the SHA-3
    competition), as its document defines it: a state of 16 words of 16 bytes,
    on which BIG.SubWords is two rounds of AES per word, BIG.ShiftRows moves
    words and BIG.MixColumns is AES's MixColumns across words.  The salt is
    zero.  Nothing here is taken from src/: [EchoProof] and [EchoMode] show
    that the code computes this function. *)

From Stdlib Require Import ZArith List Lia Bool.
From S2P Require Import Prelude BitStrings.
Import ListNotations.

(** ** The specification of a round of AES

    SubBytes, ShiftRows, MixColumns and AddRoundKey of FIPS 197, on a state of
    16 bytes in column-major order.  The S-box is computed: inversion in
    GF(2^8) followed by the affine map.  Nothing here is taken from src/. *)

Module AesSpec.

(** GF(2^8) modulo x^8 + x^4 + x^3 + x + 1. *)
Definition xtime (a : Z) : Z :=
  let b := Z.shiftl a 1 in if Z.testbit b 8 then Z.lxor b 0x11b else b.
Definition gf_mul (a b : Z) : Z :=
  fst (fold_left (fun '(acc, a) i =>
         ((if Z.testbit b (Z.of_nat i) then Z.lxor acc a else acc), xtime a)) (seq 0 8) (0, a)).
(** The inverse of a (and 0 for 0): a^254, as the product of the seven squares a^2, ..., a^128. *)
Definition gf_inv (a : Z) : Z :=
  snd (Nat.iter 7 (fun '(sq, acc) => let sq := gf_mul sq sq in (sq, gf_mul acc sq)) (a, 1)).

Definition sbox (a : Z) : Z :=
  let b := gf_inv a in
  let rot i := (Z.lor (Z.shiftl b i) (Z.shiftr b (8 - i))) .& 0xff in
  b .^ rot 1 .^ rot 2 .^ rot 3 .^ rot 4 .^ 0x63.

Definition sub_bytes (s : list Z) : list Z := map sbox s.
(** Row r = i mod 4 is rotated by r columns. *)
Definition shift_rows (s : list Z) : list Z :=
  map (fun i => nth ((i + 4 * (i mod 4)) mod 16) s 0) (seq 0 16).
Definition mix_byte (a b c d : Z) : Z := xtime a .^ xtime b .^ b .^ c .^ d.
Definition mix_columns (s : list Z) : list Z :=
  map (fun i => let b j := nth (4 * (i / 4) + (i + j) mod 4) s 0 in
                mix_byte (b 0%nat) (b 1%nat) (b 2%nat) (b 3%nat)) (seq 0 16).
Definition add_key (s k : list Z) : list Z := map (fun '(a, b) => a .^ b) (combine s k).

Definition round (s k : list Z) : list Z := add_key (mix_columns (shift_rows (sub_bytes s))) k.

End AesSpec.

(** ** The theorems *)

Module EchoSpec.

(** A byte string and the string of its bits, most significant bit first. *)
Abbreviation bits_of_bytes := (bits_of msb_first).
Definition byte_of_bits (l : list bool) : Z :=
  fold_left (fun v (b : bool) => 2 * v + (if b then 1 else 0)) l 0.
Definition bytes_of_bits (l : list bool) : list Z := map byte_of_bits (chunks 8 l).

(** ** The rounds, on the 256 bytes of a state

    Byte [p] is byte [p mod 16] of word [p / 16]; word [i] is in row [i mod 4]
    and column [i / 4]. *)

Definition get_word (s : list Z) (i : nat) : list Z := slice s (16 * i) 16.

Definition salt : list Z := repeat 0 16.

(** The key of a word is the counter [k], which the words increment. *)
Definition sub_word (k : Z) (w : list Z) : list Z :=
  AesSpec.round (AesSpec.round w (le_store 16 k)) salt.
Definition big_sub_words (k : Z) (s : list Z) : list Z :=
  concat (map (fun i => sub_word (k + Z.of_nat i) (get_word s i)) (seq 0 16)).

(** The word in row [r] moves by [r] columns. *)
Definition big_shift_rows (s : list Z) : list Z :=
  map (fun p => let i := (p / 16)%nat in
                nth (16 * ((i + 4 * (i mod 4)) mod 16) + p mod 16) s 0) (seq 0 256).

Definition big_mix_columns (s : list Z) : list Z :=
  map (fun p => let i := (p / 16)%nat in
                let x j := nth (16 * (4 * (i / 4) + (i + j) mod 4) + p mod 16) s 0 in
                AesSpec.mix_byte (x 0%nat) (x 1%nat) (x 2%nat) (x 3%nat)) (seq 0 256).

Definition big_round (k : Z) (s : list Z) : list Z :=
  big_mix_columns (big_shift_rows (big_sub_words k s)).

Definition rounds (n : nat) (k : Z) (s : list Z) : list Z :=
  fold_left (fun s r => big_round (k + 16 * Z.of_nat r) s) (seq 0 n) s.

(** ** The compression function

    A variant has [csize] bytes of chaining value and [n] rounds; a block is
    what is left of the 256 bytes. *)

Record variant := Variant { csize : nat; nrounds : nat }.
Definition small : variant := Variant 64 8.
Definition big : variant := Variant 128 10.
Definition msize (v : variant) : nat := (256 - csize v)%nat.

Definition xor_at (s t : list Z) (i : nat) : Z := nth i s 0 .^ nth i t 0.

(** BIG.Final: the chaining value, the parts of the block and the parts of the
    state, all added. *)
Definition final (v : variant) (s t : list Z) : list Z :=
  map (fun i => fold_left (fun acc j => acc .^ xor_at s t (i + csize v * j))
                  (seq 0 (256 / csize v)) 0) (seq 0 (csize v)).

Definition compress (v : variant) (k : Z) (V M : list Z) : list Z :=
  final v (V ++ M) (rounds (nrounds v) k (V ++ M)).

(** ** The hash function *)

(** The value of the counter for block [i] of a message of [len] bits: the
    number of bits hashed at the end of that block, or 0 when the block has no
    bit of the message. *)
Definition counter (v : variant) (len : Z) (i : nat) : Z :=
  let r := 8 * Z.of_nat (msize v) in
  if r * Z.of_nat i <? len then Z.min len (r * (Z.of_nat i + 1)) else 0.

Fixpoint compress_all (v : variant) (len : Z) (i : nat) (V : list Z) (blocks : list (list bool)) :
    list Z :=
  match blocks with
  | [] => V
  | b :: bs =>
      compress_all v len (S i) (compress v (counter v len i) V (bytes_of_bits b)) bs
  end.

(** Padding: a bit 1, zeros, the size of the digest on 16 bits and the length
    of the message on 128 bits, both little-endian. *)
Definition pad (v : variant) (d : nat) (m : list bool) : list bool :=
  let r := (8 * msize v)%nat in
  m ++ [true] ++ repeat false ((r - (length m + 145) mod r) mod r)
    ++ bits_of_bytes (le_store 2 (Z.of_nat d))
    ++ bits_of_bytes (le_store 16 (Z.of_nat (length m))).

Definition IV (v : variant) (d : nat) : list Z :=
  concat (repeat (le_store 16 (Z.of_nat d)) (csize v / 16)).

Definition variant_of (d : nat) : variant := if (d <=? 256)%nat then small else big.

(** The digest of [d] bits of the bit string [m]. *)
Definition hash (d : nat) (m : list bool) : list bool :=
  let v := variant_of d in
  firstn d (bits_of_bytes
    (compress_all v (Z.of_nat (length m)) 0 (IV v d) (chunks (8 * msize v) (pad v d m)))).

End EchoSpec.
