(* ===== verification/AesProof.v ===== *)
(** * aes_helper.c computes a round of AES

    The tables hold the products of the S-box by the column of MixColumns, and
    a round on four words is the round of FIPS 197 on their 16 bytes: in
    little-endian order for the [LE] macros, in big-endian order for the [BE]
    ones. *)

From Stdlib Require Import ZArith List Lia Bool Btauto.
From S2P Require Import Prelude SphTypes Aes EchoSpec.
Import ListNotations.

(** The product by 3, and the column of each table for the S-box value [s]. *)
Definition times3 (s : Z) : Z := AesSpec.xtime s .^ s.
Definition table_column (t : nat) (s : Z) : list Z :=
  let x2 := AesSpec.xtime s in
  let x3 := times3 s in
  nth t [[x2; s; s; x3]; [x3; x2; s; s]; [s; x3; x2; s]; [s; s; x3; x2]] [].

(** The S-box, tabulated once. *)
Definition sbox_list : list Z := Eval vm_compute in map AesSpec.sbox (map Z.of_nat (seq 0 256)).

Lemma sbox_list_ok : sbox_list = map AesSpec.sbox (map Z.of_nat (seq 0 256)).
Proof. vm_compute. reflexivity. Qed.

Lemma sbox_nth b : word 8 b -> AesSpec.sbox b = nth (Z.to_nat b) sbox_list 0.
Proof.
  intros Hb. unfold word in Hb. rewrite sbox_list_ok, map_map, nth_map_seq by lia.
  cbn. now rewrite Z2Nat.id by lia.
Qed.

Definition table_ok (t : nat) (store : Z -> list Z) (table : list Z) : bool :=
  forallb (fun i => wordb 32 (nth i table 0) &&
      (if list_eq_dec Z.eq_dec (store (nth i table 0)) (table_column t (nth i sbox_list 0))
       then true else false)) (seq 0 256).

Lemma tables_LE_ok :
  table_ok 0 (le_store 4) AES0_LE && table_ok 1 (le_store 4) AES1_LE &&
  table_ok 2 (le_store 4) AES2_LE && table_ok 3 (le_store 4) AES3_LE = true.
Proof. vm_compute. reflexivity. Qed.

Lemma tables_BE_ok :
  table_ok 0 (be_store 4) AES0_BE && table_ok 1 (be_store 4) AES1_BE &&
  table_ok 2 (be_store 4) AES2_BE && table_ok 3 (be_store 4) AES3_BE = true.
Proof. vm_compute. reflexivity. Qed.

(** ** A round *)

(** The bytes of the four words of a state. *)
Definition quad_bytes (store : Z -> list Z) (X : quad) : list Z :=
  let '(X0, X1, X2, X3) := X in store X0 ++ store X1 ++ store X2 ++ store X3.
Definition quad_ok (X : quad) : Prop :=
  let '(X0, X1, X2, X3) := X in word 32 X0 /\ word 32 X1 /\ word 32 X2 /\ word 32 X3.

Lemma entry_column t store table x :
  table_ok t store table = true ->
  store (entry table x) = table_column t (AesSpec.sbox (trunc 8 x)) /\ word 32 (entry table x).
Proof.
  intros T. unfold entry. change (x .& 0xFF) with (trunc 8 x).
  pose proof (trunc_word 8 x ltac:(lia)) as Hw. set (b := trunc 8 x) in *. clearbody b.
  unfold table_ok in T. rewrite forallb_forall in T.
  specialize (T (Z.to_nat b)). rewrite sbox_nth by assumption.
  assert (H : In (Z.to_nat b) (seq 0 256)) by (apply in_seq; unfold word in Hw; lia).
  apply T, andb_true_iff in H. destruct H as [H1 H2]. clear T.
  split; [|now apply wordb_word].
  destruct (list_eq_dec _ _ _) as [E|]; [exact E|discriminate].
Qed.

(** The two byte orders of a word: the position of byte [i]. *)
Definition byte_order_ok (store : Z -> list Z) (off : nat -> Z) : Prop :=
  forall v, store v = map (fun i => trunc 8 (v >> off i)) (seq 0 4).

Lemma le_order : byte_order_ok (le_store 4) (fun i => 8 * Z.of_nat i).
Proof. intros v. rewrite <- enc32le_bytes_store. unfold enc32le_bytes. cbn -[Z.shiftr trunc]. now rewrite Z.shiftr_0_r. Qed.

Lemma be_order : byte_order_ok (be_store 4) (fun i => 8 * Z.of_nat (3 - i)).
Proof. intros v. rewrite <- enc32be_bytes_store. unfold enc32be_bytes. cbn -[Z.shiftr trunc]. now rewrite Z.shiftr_0_r. Qed.

Section Round.
  Variable store : Z -> list Z.
  Variable off : nat -> Z.
  Hypothesis order_ok : byte_order_ok store off.
  Variables A0 A1 A2 A3 : list Z.
  Hypothesis tables_ok :
    table_ok 0 store A0 && table_ok 1 store A1 && table_ok 2 store A2 && table_ok 3 store A3 = true.

(** One word of the round: a column of the state. *)
Definition round_word (X0 X1 X2 X3 K : Z) : Z :=
  entry A0 (X0 >> off 0) .^ entry A1 (X1 >> off 1) .^ entry A2 (X2 >> off 2)
    .^ entry A3 (X3 >> off 3) .^ K.

Lemma store_lxor a b : store (a .^ b) = AesSpec.add_key (store a) (store b).
Proof.
  rewrite !order_ok. unfold AesSpec.add_key. cbn [map seq combine].
  repeat match goal with |- _ :: _ = _ :: _ => f_equal end; bitwise n Hn; btauto.
Qed.

Lemma round_word_bytes X0 X1 X2 X3 K :
  let s0 := AesSpec.sbox (trunc 8 (X0 >> off 0)) in
  let s1 := AesSpec.sbox (trunc 8 (X1 >> off 1)) in
  let s2 := AesSpec.sbox (trunc 8 (X2 >> off 2)) in
  let s3 := AesSpec.sbox (trunc 8 (X3 >> off 3)) in
  store (round_word X0 X1 X2 X3 K) =
  AesSpec.add_key
    [AesSpec.mix_byte s0 s1 s2 s3; AesSpec.mix_byte s1 s2 s3 s0;
     AesSpec.mix_byte s2 s3 s0 s1; AesSpec.mix_byte s3 s0 s1 s2] (store K).
Proof.
  intros s0 s1 s2 s3. pose proof tables_ok as T. rewrite !andb_true_iff in T.
  destruct T as [[[T0 T1] T2] T3]. unfold round_word. rewrite !store_lxor.
  rewrite (proj1 (entry_column _ _ _ (X0 >> off 0) T0)), (proj1 (entry_column _ _ _ (X1 >> off 1) T1)),
    (proj1 (entry_column _ _ _ (X2 >> off 2) T2)), (proj1 (entry_column _ _ _ (X3 >> off 3) T3)).
  fold s0 s1 s2 s3. f_equal. clearbody s0 s1 s2 s3. clear T0 T1 T2 T3.
  unfold table_column, times3, AesSpec.mix_byte, AesSpec.add_key. cbn [nth combine map].
  generalize (AesSpec.xtime s0) (AesSpec.xtime s1) (AesSpec.xtime s2) (AesSpec.xtime s3).
  intros. repeat match goal with |- _ :: _ = _ :: _ => f_equal end; bitwise n Hn; btauto.
Qed.

Lemma round_word_word X0 X1 X2 X3 K : word 32 K -> word 32 (round_word X0 X1 X2 X3 K).
Proof.
  intros HK. pose proof tables_ok as T. rewrite !andb_true_iff in T.
  destruct T as [[[T0 T1] T2] T3]. unfold round_word.
  repeat (apply lxor_word; [lia| |]); try assumption; eapply entry_column; eassumption.
Qed.

Definition round_quad (X K : quad) : quad :=
  let '(X0, X1, X2, X3) := X in
  let '(K0, K1, K2, K3) := K in
  (round_word X0 X1 X2 X3 K0, round_word X1 X2 X3 X0 K1,
   round_word X2 X3 X0 X1 K2, round_word X3 X0 X1 X2 K3).

Lemma round_quad_ok X K :
  quad_ok K ->
  quad_ok (round_quad X K) /\
  quad_bytes store (round_quad X K) = AesSpec.round (quad_bytes store X) (quad_bytes store K).
Proof.
  destruct X as [[[X0 X1] X2] X3], K as [[[K0 K1] K2] K3]. intros (H0 & H1 & H2 & H3). split.
  - repeat split; now apply round_word_word.
  - unfold round_quad, quad_bytes. rewrite !round_word_bytes, !order_ok. clear. cbn [map seq].
    repeat match goal with |- context [trunc 8 ?x] =>
      let b := fresh "b" in set (b := trunc 8 x); clearbody b end.
    lazy -[AesSpec.sbox AesSpec.mix_byte Z.lxor]. reflexivity.
Qed.
End Round.

Lemma AES_ROUND_LE_ok X K :
  quad_ok K ->
  quad_ok (AES_ROUND_LE X K) /\
  quad_bytes (le_store 4) (AES_ROUND_LE X K) =
    AesSpec.round (quad_bytes (le_store 4) X) (quad_bytes (le_store 4) K).
Proof.
  intros HK. pose proof (round_quad_ok _ _ le_order _ _ _ _ tables_LE_ok X K HK) as R.
  destruct X as [[[X0 X1] X2] X3], K as [[[K0 K1] K2] K3]. unfold round_quad, round_word in R.
  change (8 * Z.of_nat 0) with 0 in R. rewrite !Z.shiftr_0_r in R. exact R.
Qed.

Lemma AES_ROUND_BE_ok X K :
  quad_ok K ->
  quad_ok (AES_ROUND_BE X K) /\
  quad_bytes (be_store 4) (AES_ROUND_BE X K) =
    AesSpec.round (quad_bytes (be_store 4) X) (quad_bytes (be_store 4) K).
Proof.
  intros HK. pose proof (round_quad_ok _ _ be_order _ _ _ _ tables_BE_ok X K HK) as R.
  destruct X as [[[X0 X1] X2] X3], K as [[[K0 K1] K2] K3]. unfold round_quad, round_word in R.
  change (8 * Z.of_nat (3 - 3)) with 0 in R. rewrite !Z.shiftr_0_r in R. exact R.
Qed.

(** Without a key: the key zero. *)
Lemma quad_zero_ok : quad_ok (0, 0, 0, 0).
Proof. repeat split; now compute. Qed.
