(* ===== verification/Echo.v ===== *)
(** * echo.c: the ECHO hash function

    The four members of the family in every configuration of src/src/echo.c:
    64-bit ([SPH_ECHO_64]) or 32-bit state words, and the code with or without
    [SPH_SMALL_FOOTPRINT_ECHO].  ECHO-224 and ECHO-256 use the "small"
    functions (four words of chaining value, blocks of 192 bytes), ECHO-384
    and ECHO-512 the "big" ones (eight words, 128 bytes).

    The array [W[16][2]] (or [W[16][4]]) is the list of its 16 rows; the
    chaining value [Vb] (or [Vs]) is the flat list of its words. *)

From Stdlib Require Import ZArith List Lia Bool.
From S2P Require Import Prelude SphTypes Stream Aes.
Import ListNotations.

(** [W[a][n]], and an assignment to it. *)
Definition W_get (W : list (list Z)) (a n : nat) : Z := nth n (nth a W []) 0.
Definition W_set (W : list (list Z)) (a n : nat) (v : Z) : list (list Z) :=
  upd W a (upd (nth a W []) n v).

(** The 128-bit key, incremented after each use. *)
Definition next_key (K : quad) : quad :=
  let '(K0, K1, K2, K3) := K in
  let K0 := SPH_T32 (K0 + 1) in
  if K0 =? 0 then
    let K1 := SPH_T32 (K1 + 1) in
    if K1 =? 0 then
      let K2 := SPH_T32 (K2 + 1) in
      if K2 =? 0 then (K0, K1, K2, SPH_T32 (K3 + 1)) else (K0, K1, K2, K3)
    else (K0, K1, K2, K3)
  else (K0, K1, K2, K3).

(** What the code defines differently for each word size. *)
Class EchoWords := {
  (** The number of words of a row of [W]. *)
  row_words : nat;
  INPUT_BLOCK_SMALL : list Z -> list Z -> list (list Z);
  INPUT_BLOCK_BIG : list Z -> list Z -> list (list Z);
  (** The two rounds of AES on a row. *)
  aes_2rounds : list Z -> quad -> list Z;
  (** [abx], [bcx], [cdx]: the bytes of a word multiplied by x. *)
  xtimes : Z -> Z;
  (** The new chaining value, from the old one, the block and [W]. *)
  FINAL_SMALL : list Z -> list Z -> list (list Z) -> list Z;
  FINAL_BIG : list Z -> list Z -> list (list Z) -> list Z;
  (** The chaining value set by the [init] functions. *)
  V_init_small : Z -> list Z;
  V_init_big : Z -> list Z;
  (** The loop on [VV] of the [close] functions. *)
  encode_VV : nat -> list Z -> list Z -> option (list Z)
}.

(** ** 64-bit words *)

Module Wide.
Section Wide.
  Variable p : platform.

Definition dec (buf : list Z) (off : nat) : Z := sph_dec64le_aligned p (slice buf off 8).

Definition INPUT_BLOCK_SMALL (Vb buf : list Z) : list (list Z) :=
  map (fun u => [nth (2 * u) Vb 0; nth (2 * u + 1) Vb 0]) (seq 0 4) ++
  map (fun u => [dec buf (16 * u); dec buf (16 * u + 8)]) (seq 0 12).

Definition INPUT_BLOCK_BIG (Vb buf : list Z) : list (list Z) :=
  map (fun u => [nth (2 * u) Vb 0; nth (2 * u + 1) Vb 0]) (seq 0 8) ++
  map (fun u => [dec buf (16 * u); dec buf (16 * u + 8)]) (seq 0 8).

Definition aes_2rounds (X : list Z) (K : quad) : list Z :=
  let X0 := trunc 32 (nth 0 X 0) in
  let X1 := trunc 32 (nth 0 X 0 >> 32) in
  let X2 := trunc 32 (nth 1 X 0) in
  let X3 := trunc 32 (nth 1 X 0 >> 32) in
  let Y := AES_ROUND_LE (X0, X1, X2, X3) K in
  let '(X0, X1, X2, X3) := AES_ROUND_NOKEY_LE Y in
  [X0 .| (X1 << 32); X2 .| (X3 << 32)].

(** The eight bytes of a word multiplied by x. *)
Definition xtimes (ab : Z) : Z :=
  trunc 64 (((ab .& 0x8080808080808080) >> 7) * 27) .^ shl 64 (ab .& 0x7F7F7F7F7F7F7F7F) 1.

Definition FINAL_SMALL (Vb buf : list Z) (W : list (list Z)) : list Z :=
  let WW u := nth u (concat W) 0 in
  map (fun u => nth u Vb 0 .^ (dec buf (u * 8) .^ dec buf (u * 8 + 64) .^ dec buf (u * 8 + 128)
                  .^ WW u .^ WW (u + 8)%nat .^ WW (u + 16)%nat .^ WW (u + 24)%nat)) (seq 0 8).

Definition FINAL_BIG (Vb buf : list Z) (W : list (list Z)) : list Z :=
  let WW u := nth u (concat W) 0 in
  map (fun u => nth u Vb 0 .^ (dec buf (u * 8) .^ WW u .^ WW (u + 16)%nat)) (seq 0 16).

Definition V_init_small (out_len : Z) : list Z :=
  [out_len; 0; out_len; 0; out_len; 0; out_len; 0].
Definition V_init_big (out_len : Z) : list Z :=
  [out_len; 0; out_len; 0; out_len; 0; out_len; 0; out_len; 0; out_len; 0; out_len; 0; out_len; 0].

(** [for (k = 0; k < ((out_size_w32 + 1) >> 1); k ++)] *)
Definition encode_VV (out_size_w32 : nat) (VV tmp : list Z) : option (list Z) :=
  memcpy_loop 8 (fun k => sph_enc64le_aligned p (nth k VV 0)) ((out_size_w32 + 1) / 2) tmp.

Definition words : EchoWords := {|
  row_words := 2;
  Echo.INPUT_BLOCK_SMALL := INPUT_BLOCK_SMALL; Echo.INPUT_BLOCK_BIG := INPUT_BLOCK_BIG;
  Echo.aes_2rounds := aes_2rounds; Echo.xtimes := xtimes;
  Echo.FINAL_SMALL := FINAL_SMALL; Echo.FINAL_BIG := FINAL_BIG;
  Echo.V_init_small := V_init_small; Echo.V_init_big := V_init_big;
  Echo.encode_VV := encode_VV
|}.
End Wide.
End Wide.

(** ** 32-bit words *)

Module Narrow.
Section Narrow.
  Variable p : platform.

Definition dec (buf : list Z) (off : nat) : Z := sph_dec32le_aligned p (slice buf off 4).

Definition INPUT_BLOCK_SMALL (Vs buf : list Z) : list (list Z) :=
  map (fun u => [nth (4 * u) Vs 0; nth (4 * u + 1) Vs 0; nth (4 * u + 2) Vs 0;
                 nth (4 * u + 3) Vs 0]) (seq 0 4) ++
  map (fun u => [dec buf (16 * u); dec buf (16 * u + 4); dec buf (16 * u + 8);
                 dec buf (16 * u + 12)]) (seq 0 12).

Definition INPUT_BLOCK_BIG (Vs buf : list Z) : list (list Z) :=
  map (fun u => [nth (4 * u) Vs 0; nth (4 * u + 1) Vs 0; nth (4 * u + 2) Vs 0;
                 nth (4 * u + 3) Vs 0]) (seq 0 8) ++
  map (fun u => [dec buf (16 * u); dec buf (16 * u + 4); dec buf (16 * u + 8);
                 dec buf (16 * u + 12)]) (seq 0 8).

Definition aes_2rounds (X : list Z) (K : quad) : list Z :=
  let Y := AES_ROUND_LE (nth 0 X 0, nth 1 X 0, nth 2 X 0, nth 3 X 0) K in
  let '(X0, X1, X2, X3) := AES_ROUND_NOKEY_LE Y in
  [X0; X1; X2; X3].

(** The four bytes of a word multiplied by x. *)
Definition xtimes (ab : Z) : Z :=
  trunc 32 (((ab .& 0x80808080) >> 7) * 27) .^ shl 32 (ab .& 0x7F7F7F7F) 1.

Definition FINAL_SMALL (Vs buf : list Z) (W : list (list Z)) : list Z :=
  let WW u := nth u (concat W) 0 in
  map (fun u => nth u Vs 0 .^ (dec buf (u * 4) .^ dec buf (u * 4 + 64) .^ dec buf (u * 4 + 128)
                  .^ WW u .^ WW (u + 16)%nat .^ WW (u + 32)%nat .^ WW (u + 48)%nat)) (seq 0 16).

Definition FINAL_BIG (Vs buf : list Z) (W : list (list Z)) : list Z :=
  let WW u := nth u (concat W) 0 in
  map (fun u => nth u Vs 0 .^ (dec buf (u * 4) .^ WW u .^ WW (u + 32)%nat)) (seq 0 32).

Definition V_init_small (out_len : Z) : list Z :=
  [out_len; 0; 0; 0; out_len; 0; 0; 0; out_len; 0; 0; 0; out_len; 0; 0; 0].
Definition V_init_big (out_len : Z) : list Z :=
  [out_len; 0; 0; 0; out_len; 0; 0; 0; out_len; 0; 0; 0; out_len; 0; 0; 0;
   out_len; 0; 0; 0; out_len; 0; 0; 0; out_len; 0; 0; 0; out_len; 0; 0; 0].

Definition encode_VV (out_size_w32 : nat) (VV tmp : list Z) : option (list Z) :=
  memcpy_loop 4 (fun k => sph_enc32le_aligned p (nth k VV 0)) out_size_w32 tmp.

Definition words : EchoWords := {|
  row_words := 4;
  Echo.INPUT_BLOCK_SMALL := INPUT_BLOCK_SMALL; Echo.INPUT_BLOCK_BIG := INPUT_BLOCK_BIG;
  Echo.aes_2rounds := aes_2rounds; Echo.xtimes := xtimes;
  Echo.FINAL_SMALL := FINAL_SMALL; Echo.FINAL_BIG := FINAL_BIG;
  Echo.V_init_small := V_init_small; Echo.V_init_big := V_init_big;
  Echo.encode_VV := encode_VV
|}.
End Narrow.
End Narrow.

(** ** The rounds *)

Section Echo.
  Context {words : EchoWords}.
  (** [SPH_SMALL_FOOTPRINT_ECHO] *)
  Variable small_footprint : bool.

(** The state [W] and the key [K0], ..., [K3] of a compression. *)
Definition rounds_state : Type := list (list Z) * quad.

(** [AES_2ROUNDS(W[n])], which is also the body of the loop of
    [aes_2rounds_all]. *)
Definition AES_2ROUNDS (n : nat) (st : rounds_state) : rounds_state :=
  let '(W, K) := st in
  (upd W n (aes_2rounds (nth n W []) K), next_key K).

Definition aes_2rounds_all (st : rounds_state) : rounds_state :=
  fold_left (fun st n => AES_2ROUNDS n st) (seq 0 16) st.

Definition BIG_SUB_WORDS (st : rounds_state) : rounds_state :=
  if small_footprint then aes_2rounds_all st else
  let st := AES_2ROUNDS 0 st in
  let st := AES_2ROUNDS 1 st in
  let st := AES_2ROUNDS 2 st in
  let st := AES_2ROUNDS 3 st in
  let st := AES_2ROUNDS 4 st in
  let st := AES_2ROUNDS 5 st in
  let st := AES_2ROUNDS 6 st in
  let st := AES_2ROUNDS 7 st in
  let st := AES_2ROUNDS 8 st in
  let st := AES_2ROUNDS 9 st in
  let st := AES_2ROUNDS 10 st in
  let st := AES_2ROUNDS 11 st in
  let st := AES_2ROUNDS 12 st in
  let st := AES_2ROUNDS 13 st in
  let st := AES_2ROUNDS 14 st in
  AES_2ROUNDS 15 st.

(** One column of [SHIFT_ROW1] and of [SHIFT_ROW2], then all of them. *)
Definition shift_row1 (a b c d n : nat) (W : list (list Z)) : list (list Z) :=
  let tmp := W_get W a n in
  let W := W_set W a n (W_get W b n) in
  let W := W_set W b n (W_get W c n) in
  let W := W_set W c n (W_get W d n) in
  W_set W d n tmp.

Definition shift_row2 (a b c d n : nat) (W : list (list Z)) : list (list Z) :=
  let tmp := W_get W a n in
  let W := W_set W a n (W_get W c n) in
  let W := W_set W c n tmp in
  let tmp := W_get W b n in
  let W := W_set W b n (W_get W d n) in
  W_set W d n tmp.

Definition columns (f : nat -> list (list Z) -> list (list Z)) (W : list (list Z)) :
    list (list Z) :=
  fold_left (fun W n => f n W) (seq 0 row_words) W.

Definition SHIFT_ROW1 (a b c d : nat) (W : list (list Z)) := columns (shift_row1 a b c d) W.
Definition SHIFT_ROW2 (a b c d : nat) (W : list (list Z)) := columns (shift_row2 a b c d) W.
Definition SHIFT_ROW3 (a b c d : nat) (W : list (list Z)) := SHIFT_ROW1 d c b a W.

Definition BIG_SHIFT_ROWS (W : list (list Z)) : list (list Z) :=
  let W := SHIFT_ROW1 1 5 9 13 W in
  let W := SHIFT_ROW2 2 6 10 14 W in
  SHIFT_ROW3 3 7 11 15 W.

(** The macro, which is also the body of the loop of [mix_column]. *)
Definition MIX_COLUMN1 (ia ib ic id n : nat) (W : list (list Z)) : list (list Z) :=
  let a := W_get W ia n in
  let b := W_get W ib n in
  let c := W_get W ic n in
  let d := W_get W id n in
  let ab := a .^ b in
  let bc := b .^ c in
  let cd := c .^ d in
  let abx := xtimes ab in
  let bcx := xtimes bc in
  let cdx := xtimes cd in
  let W := W_set W ia n (abx .^ bc .^ d) in
  let W := W_set W ib n (bcx .^ a .^ cd) in
  let W := W_set W ic n (cdx .^ ab .^ d) in
  W_set W id n (abx .^ bcx .^ cdx .^ ab .^ c).

Definition MIX_COLUMN (a b c d : nat) (W : list (list Z)) := columns (MIX_COLUMN1 a b c d) W.

Definition BIG_MIX_COLUMNS (W : list (list Z)) : list (list Z) :=
  let W := MIX_COLUMN 0 1 2 3 W in
  let W := MIX_COLUMN 4 5 6 7 W in
  let W := MIX_COLUMN 8 9 10 11 W in
  MIX_COLUMN 12 13 14 15 W.

Definition BIG_ROUND (st : rounds_state) : rounds_state :=
  let '(W, K) := BIG_SUB_WORDS st in
  let W := BIG_SHIFT_ROWS W in
  let W := BIG_MIX_COLUMNS W in
  (W, K).

(** The new chaining value, from the counter, the old value and the block. *)
Definition COMPRESS_SMALL (C : quad) (V buf : list Z) : list Z :=
  let W := INPUT_BLOCK_SMALL V buf in
  let '(W, K) := fold_left (fun st (_ : nat) => BIG_ROUND st) (seq 0 8) (W, C) in
  FINAL_SMALL V buf W.

Definition COMPRESS_BIG (C : quad) (V buf : list Z) : list Z :=
  let W := INPUT_BLOCK_BIG V buf in
  let '(W, K) := fold_left (fun st (_ : nat) => BIG_ROUND st) (seq 0 10) (W, C) in
  FINAL_BIG V buf W.

(** ** The contexts *)

Definition INCR_COUNTER (C : quad) (val : Z) : quad :=
  let '(C0, C1, C2, C3) := C in
  let C0 := SPH_T32 (C0 + trunc 32 val) in
  if C0 <? trunc 32 val then
    let C1 := SPH_T32 (C1 + 1) in
    if C1 =? 0 then
      let C2 := SPH_T32 (C2 + 1) in
      if C2 =? 0 then (C0, C1, C2, SPH_T32 (C3 + 1)) else (C0, C1, C2, C3)
    else (C0, C1, C2, C3)
  else (C0, C1, C2, C3).

(** [sph_echo_small_context] and [sph_echo_big_context]; [u] is the member of
    the union in use, [C] is [C0], ..., [C3]. *)
Record echo_context := EchoContext { buf : list Z; ptr : nat; u : list Z; C : quad }.

Definition echo_small_init (sc : echo_context) (out_len : Z) : echo_context :=
  {| buf := buf sc; ptr := 0; u := V_init_small out_len; C := (0, 0, 0, 0) |}.
Definition echo_big_init (sc : echo_context) (out_len : Z) : echo_context :=
  {| buf := buf sc; ptr := 0; u := V_init_big out_len; C := (0, 0, 0, 0) |}.

Definition echo_small_compress (sc : echo_context) : echo_context :=
  {| buf := buf sc; ptr := ptr sc; u := COMPRESS_SMALL (C sc) (u sc) (buf sc); C := C sc |}.
Definition echo_big_compress (sc : echo_context) : echo_context :=
  {| buf := buf sc; ptr := ptr sc; u := COMPRESS_BIG (C sc) (u sc) (buf sc); C := C sc |}.

(** What the loops of [echo_small_core] and [echo_big_core] do with a full
    buffer. *)
Definition small_block (buf : list Z) (st : list Z * quad) : list Z * quad :=
  let '(V, C) := st in
  let C := INCR_COUNTER C 1536 in
  (COMPRESS_SMALL C V buf, C).
Definition big_block (buf : list Z) (st : list Z * quad) : list Z * quad :=
  let '(V, C) := st in
  let C := INCR_COUNTER C 1024 in
  (COMPRESS_BIG C V buf, C).

(** The two functions only differ in the size of the buffer, and in what they
    do when it is full. *)
Definition core (size : nat) (block : list Z -> list Z * quad -> list Z * quad)
    (sc : echo_context) (data : list Z) : option echo_context :=
  if (length data <? size - ptr sc)%nat
  then
    let* b := memcpy_at (buf sc) (ptr sc) data in
    Some {| buf := b; ptr := ptr sc + length data; u := u sc; C := C sc |}
  else
    let* c := absorb_loop size block (length data) (Bctx (buf sc) (ptr sc) (u sc, C sc)) data in
    Some {| buf := b_buf c; ptr := b_ptr c; u := fst (b_st c); C := snd (b_st c) |}.

Definition echo_small_core (sc : echo_context) (data : list Z) : option echo_context :=
  core 192 small_block sc data.
Definition echo_big_core (sc : echo_context) (data : list Z) : option echo_context :=
  core 128 big_block sc data.

(** The two [close] functions, in the same way; [stack] is the content of the
    uninitialised [u.tmp]. *)
Definition close (p : platform) (size : nat) (compress : echo_context -> echo_context)
    (init : echo_context -> Z -> echo_context)
    (stack : list Z) (sc : echo_context) (ub n : Z) (out_size_w32 : nat) :
    option (list Z * echo_context) :=
  let elen := trunc 32 (shl 32 (Z.of_nat (ptr sc)) 3 + n) in
  let '(C0, C1, C2, C3) := INCR_COUNTER (C sc) elen in
  let* tmp := memcpy_at stack 0 (sph_enc32le_aligned p C0) in
  let* tmp := memcpy_at tmp 4 (sph_enc32le_aligned p C1) in
  let* tmp := memcpy_at tmp 8 (sph_enc32le_aligned p C2) in
  let* tmp := memcpy_at tmp 12 (sph_enc32le_aligned p C3) in
  let C := if elen =? 0 then (0, 0, 0, 0) else (C0, C1, C2, C3) in
  let z := 0x80 >> n in
  let* b := memcpy_at (buf sc) (ptr sc) [((ub .& trunc 32 (- z)) .| z) .& 0xFF] in
  let ptr := (ptr sc + 1)%nat in
  let* b := memset_at b ptr 0 (size - ptr) in
  let sc := {| buf := b; ptr := Echo.ptr sc; u := u sc; C := C |} in
  let* sc :=
    if (size - 18 <? ptr)%nat then
      let sc := compress sc in
      let* b := memset_at (buf sc) 0 0 size in
      Some {| buf := b; ptr := Echo.ptr sc; u := u sc; C := (0, 0, 0, 0) |}
    else Some sc in
  let* b := memcpy_at (buf sc) (size - 18) (sph_enc16le (Z.of_nat out_size_w32 << 5)) in
  let* b := memcpy_at b (size - 16) (firstn 16 tmp) in
  let sc := compress {| buf := b; ptr := Echo.ptr sc; u := u sc; C := Echo.C sc |} in
  let* tmp := encode_VV out_size_w32 (u sc) tmp in
  Some (firstn (4 * out_size_w32) tmp, init sc (Z.of_nat out_size_w32 << 5)).

(** ** The interface of sph_echo.h *)

  Variable p : platform.

Definition echo_small_close := close p 192 echo_small_compress echo_small_init.
Definition echo_big_close := close p 128 echo_big_compress echo_big_init.

Definition sph_echo224_init (cc : echo_context) : echo_context := echo_small_init cc 224.
Definition sph_echo224 (cc : echo_context) (data : list Z) : option echo_context :=
  echo_small_core cc data.
Definition sph_echo224_close stack (cc : echo_context) := echo_small_close stack cc 0 0 7.
Definition sph_echo224_addbits_and_close stack (cc : echo_context) (ub n : Z) :=
  echo_small_close stack cc ub n 7.

Definition sph_echo256_init (cc : echo_context) : echo_context := echo_small_init cc 256.
Definition sph_echo256 (cc : echo_context) (data : list Z) : option echo_context :=
  echo_small_core cc data.
Definition sph_echo256_close stack (cc : echo_context) := echo_small_close stack cc 0 0 8.
Definition sph_echo256_addbits_and_close stack (cc : echo_context) (ub n : Z) :=
  echo_small_close stack cc ub n 8.

Definition sph_echo384_init (cc : echo_context) : echo_context := echo_big_init cc 384.
Definition sph_echo384 (cc : echo_context) (data : list Z) : option echo_context :=
  echo_big_core cc data.
Definition sph_echo384_close stack (cc : echo_context) := echo_big_close stack cc 0 0 12.
Definition sph_echo384_addbits_and_close stack (cc : echo_context) (ub n : Z) :=
  echo_big_close stack cc ub n 12.

Definition sph_echo512_init (cc : echo_context) : echo_context := echo_big_init cc 512.
Definition sph_echo512 (cc : echo_context) (data : list Z) : option echo_context :=
  echo_big_core cc data.
Definition sph_echo512_close stack (cc : echo_context) := echo_big_close stack cc 0 0 16.
Definition sph_echo512_addbits_and_close stack (cc : echo_context) (ub n : Z) :=
  echo_big_close stack cc ub n 16.
End Echo.
