(* ===== verification/EchoProof.v ===== *)
(** * The rounds of echo.c are the rounds of ECHO

    The array [W] holds the 256 bytes of the state, little-endian in each
    word.  [EchoLaws] says what the two word sizes promise; from it this file
    derives the compression functions of the code, against the specification. *)

From Stdlib Require Import ZArith List Lia Bool Btauto.
From S2P Require Import Prelude BitStrings SphTypes Stream Aes EchoSpec AesProof Echo.
Import ListNotations.

(** ** Words as bytes *)

(** Byte [i] of a word. *)
Definition byte (i : nat) (v : Z) : Z := trunc 8 (v >> (8 * Z.of_nat i)).

Lemma byte_lxor i a b : byte i (a .^ b) = byte i a .^ byte i b.
Proof. unfold byte. bitwise n Hn. btauto. Qed.

Lemma byte_word i v : word 8 (byte i v).
Proof. now apply trunc_word. Qed.

(** The bytes of a list of words of [n] bytes. *)
Definition flat (n : nat) (l : list Z) : list Z := concat (map (le_store n) l).

Lemma flat_app n l m : flat n (l ++ m) = flat n l ++ flat n m.
Proof. unfold flat. now rewrite map_app, concat_app. Qed.

Lemma flat_cons n v l : flat n (v :: l) = le_store n v ++ flat n l.
Proof. reflexivity. Qed.

Lemma length_flat n l : length (flat n l) = (n * length l)%nat.
Proof.
  induction l as [|v l IH]; [cbn; lia|]. rewrite flat_cons, length_app, length_le_store, IH. cbn. lia.
Qed.

Lemma bytes_flat n l : bytes (flat n l).
Proof. apply Forall_concat, Forall_map, Forall_forall. intros v _. apply bytes_le_store. Qed.

Lemma nth_flat n l q :
  (0 < n)%nat -> nth q (flat n l) 0 = if (q <? n * length l)%nat then byte (q mod n) (nth (q / n) l 0) else 0.
Proof.
  intros Hn. destruct (Nat.ltb_spec q (n * length l)).
  - unfold flat. rewrite (nth_concat n);
      [|assumption|apply Forall_map, Forall_forall; intros; apply length_le_store].
    assert (q / n < length l)%nat by (apply Nat.Div0.div_lt_upper_bound; lia).
    rewrite (nth_indep _ [] (le_store n 0)) by now rewrite length_map.
    rewrite map_nth, nth_le_store by (apply Nat.mod_upper_bound; lia). reflexivity.
  - apply nth_overflow. rewrite length_flat. lia.
Qed.

(** Byte [i] of a word read from a buffer. *)
Lemma byte_le_load n b i : bytes b -> length b = n -> (i < n)%nat -> byte i (le_load n b) = nth i b 0.
Proof.
  intros Hb Hl Hi. unfold byte. rewrite <- (nth_le_store n) by assumption. now rewrite le_store_load.
Qed.

(** A word is determined by its bytes. *)
Lemma word_bytes_eq n v w :
  word (8 * Z.of_nat n) v -> word (8 * Z.of_nat n) w -> le_store n v = le_store n w -> v = w.
Proof. intros Hv Hw E. rewrite <- (le_load_store n v), <- (le_load_store n w), E by assumption. reflexivity. Qed.

(** ** What the word sizes promise *)

Class EchoLaws (words : EchoWords) := {
  (** The number of bytes of a word. *)
  wb : nat;
  (** The word of the block at an offset. *)
  dec : list Z -> nat -> Z;
  wb_cases : (wb = 4 /\ row_words = 4 \/ wb = 8 /\ row_words = 2)%nat;
  dec_load buf off :
    bytes buf -> (off + wb <= length buf)%nat -> dec buf off = le_load wb (slice buf off wb);
  input_small V buf :
    INPUT_BLOCK_SMALL V buf =
    map (fun u => map (fun n => nth (row_words * u + n) V 0) (seq 0 row_words)) (seq 0 4) ++
    map (fun u => map (fun n => dec buf (16 * u + wb * n)) (seq 0 row_words)) (seq 0 12);
  input_big V buf :
    INPUT_BLOCK_BIG V buf =
    map (fun u => map (fun n => nth (row_words * u + n) V 0) (seq 0 row_words)) (seq 0 8) ++
    map (fun u => map (fun n => dec buf (16 * u + wb * n)) (seq 0 row_words)) (seq 0 8);
  final_small V buf W :
    FINAL_SMALL V buf W =
    map (fun u => nth u V 0 .^ (dec buf (u * wb) .^ dec buf (u * wb + 64) .^ dec buf (u * wb + 128)
        .^ nth u (concat W) 0 .^ nth (u + 4 * row_words) (concat W) 0
        .^ nth (u + 8 * row_words) (concat W) 0 .^ nth (u + 12 * row_words) (concat W) 0))
      (seq 0 (4 * row_words));
  final_big V buf W :
    FINAL_BIG V buf W =
    map (fun u => nth u V 0 .^ (dec buf (u * wb) .^ nth u (concat W) 0
        .^ nth (u + 8 * row_words) (concat W) 0)) (seq 0 (8 * row_words));
  dec_firstn buf off m : (off + wb <= m)%nat -> dec (firstn m buf) off = dec buf off;
  aes_ok X K :
    length X = row_words -> Forall (word (8 * Z.of_nat wb)) X -> quad_ok K ->
    length (aes_2rounds X K) = row_words /\
    Forall (word (8 * Z.of_nat wb)) (aes_2rounds X K) /\
    flat wb (aes_2rounds X K) =
      AesSpec.round (AesSpec.round (flat wb X) (quad_bytes (le_store 4) K)) EchoSpec.salt;
  xtimes_ok v :
    word (8 * Z.of_nat wb) v ->
    word (8 * Z.of_nat wb) (xtimes v) /\
    forall i, (i < wb)%nat -> byte i (xtimes v) = AesSpec.xtime (byte i v);
  init_small d :
    0 <= d < 2 ^ 32 ->
    length (V_init_small d) = (4 * row_words)%nat /\
    Forall (word (8 * Z.of_nat wb)) (V_init_small d) /\
    flat wb (V_init_small d) = concat (repeat (le_store 16 d) 4);
  init_big d :
    0 <= d < 2 ^ 32 ->
    length (V_init_big d) = (8 * row_words)%nat /\
    Forall (word (8 * Z.of_nat wb)) (V_init_big d) /\
    flat wb (V_init_big d) = concat (repeat (le_store 16 d) 8);
  encode_ok w V tmp :
    (wb * ((4 * w + wb - 1) / wb) <= length tmp)%nat -> (4 * w <= wb * length V)%nat ->
    Forall (word (8 * Z.of_nat wb)) V ->
    exists tmp', encode_VV w V tmp = Some tmp' /\ length tmp' = length tmp /\
      firstn (4 * w) tmp' = firstn (4 * w) (flat wb V)
}.

(** ** The key *)

Definition quad_val (K : quad) : Z :=
  let '(K0, K1, K2, K3) := K in K0 + 2 ^ 32 * (K1 + 2 ^ 32 * (K2 + 2 ^ 32 * K3)).

Lemma SPH_T32_mod x : SPH_T32 x = x mod 2 ^ 32.
Proof. change (SPH_T32 x) with (trunc 32 x). now apply trunc_mod. Qed.

Lemma quad_val_range K : quad_ok K -> 0 <= quad_val K < 2 ^ 128.
Proof. destruct K as [[[K0 K1] K2] K3]. unfold quad_ok, quad_val, word. lia. Qed.

Lemma incr_cases x :
  word 32 x ->
  (x + 1) mod 2 ^ 32 = 0 /\ x = 2 ^ 32 - 1 \/ (x + 1) mod 2 ^ 32 = x + 1 /\ 0 < x + 1 < 2 ^ 32.
Proof. unfold word. change (2 ^ 32) with 4294967296. intros. dlia. Qed.

Lemma quad_val_mod v q : q = v \/ q + 2 ^ 128 = v -> 0 <= q < 2 ^ 128 -> q = v mod 2 ^ 128.
Proof.
  intros [<- | <-] Hq; [now rewrite Z.mod_small|].
  replace (q + 2 ^ 128) with (q + 1 * 2 ^ 128) by lia. now rewrite Z.mod_add, Z.mod_small.
Qed.

Lemma next_key_ok K :
  quad_ok K -> quad_ok (next_key K) /\ quad_val (next_key K) = (quad_val K + 1) mod 2 ^ 128.
Proof.
  intros HK. destruct K as [[[K0 K1] K2] K3]. unfold next_key. rewrite !SPH_T32_mod.
  destruct HK as (H0 & H1 & H2 & H3).
  destruct (incr_cases K0 H0) as [[E0 ->]|[E0 R0]]; rewrite E0; cbn [Z.eqb];
    [destruct (incr_cases K1 H1) as [[E1 ->]|[E1 R1]]; rewrite E1; cbn [Z.eqb];
     [destruct (incr_cases K2 H2) as [[E2 ->]|[E2 R2]]; rewrite E2; cbn [Z.eqb];
      [destruct (incr_cases K3 H3) as [[E3 ->]|[E3 R3]]; rewrite E3|]|]|];
    rewrite ?(proj2 (Z.eqb_neq (K0 + 1) 0)), ?(proj2 (Z.eqb_neq (K1 + 1) 0)),
      ?(proj2 (Z.eqb_neq (K2 + 1) 0)) by lia;
    (split; [|apply quad_val_mod]); unfold quad_ok, quad_val, word in *; lia.
Qed.

Lemma le_store_app n m v : le_store (n + m) v = le_store n v ++ le_store m (v >> (8 * Z.of_nat n)).
Proof.
  revert v. induction n as [|n IH]; intros v; [cbn -[Z.shiftr]; now rewrite Z.shiftr_0_r|].
  cbn [Nat.add le_store app]. rewrite IH, Z.shiftr_shiftr by lia. do 4 f_equal. lia.
Qed.

Lemma quad_bytes_val K : quad_ok K -> quad_bytes (le_store 4) K = le_store 16 (quad_val K).
Proof.
  destruct K as [[[K0 K1] K2] K3]. unfold quad_ok, quad_val, quad_bytes, word. intros HK.
  rewrite (le_store_app 4 12), (le_store_app 4 8), (le_store_app 4 4), !Z.shiftr_shiftr by lia.
  rewrite !Z.shiftr_div_pow2 by lia.
  rewrite <- (le_store_mod 4 (_ + _)), <- (le_store_mod 4 (_ / 2 ^ (8 * Z.of_nat 4))).
  rewrite <- (le_store_mod 4 (_ / 2 ^ (8 * Z.of_nat 4 + 8 * Z.of_nat 4))).
  do 4 (try f_equal); dlia.
Qed.

(** ** Multiplication by x is linear *)

Lemma xtime_lxor a b : AesSpec.xtime (a .^ b) = AesSpec.xtime a .^ AesSpec.xtime b.
Proof.
  unfold AesSpec.xtime. cbv zeta. rewrite !Z.shiftl_lxor, Z.lxor_spec.
  destruct (Z.testbit (Z.shiftl a 1) 8), (Z.testbit (Z.shiftl b 1) 8); cbn [xorb];
    bitwise n Hn; btauto.
Qed.

Section Rounds.
  Context {words : EchoWords} {laws : EchoLaws words}.

(** ** The state *)

Definition word_ok (v : Z) : Prop := word (8 * Z.of_nat wb) v.
Definition row_ok (X : list Z) : Prop := length X = row_words /\ Forall word_ok X.
Definition W_ok (W : list (list Z)) : Prop := length W = 16%nat /\ Forall row_ok W.

(** The 256 bytes of the state. *)
Definition state_bytes (W : list (list Z)) : list Z := concat (map (flat wb) W).

Lemma wb_row : (wb * row_words = 16 /\ 0 < wb /\ 0 < row_words)%nat.
Proof. destruct wb_cases as [[-> ->]|[-> ->]]; cbn; lia. Qed.

Lemma row_ok_nth W i : W_ok W -> (i < 16)%nat -> row_ok (nth i W []).
Proof. intros [L F] Hi. rewrite Forall_forall in F. apply F, nth_In. lia. Qed.

Lemma length_row_bytes X : row_ok X -> length (flat wb X) = 16%nat.
Proof. intros [L _]. rewrite length_flat, L. apply wb_row. Qed.

Lemma row_bytes_lengths W : W_ok W -> Forall (fun l => length l = 16%nat) (map (flat wb) W).
Proof.
  intros [_ F]. apply Forall_map. eapply Forall_impl; [|exact F]. intros X HX.
  now apply length_row_bytes.
Qed.

Lemma state_bytes_flat W : state_bytes W = flat wb (concat W).
Proof.
  unfold state_bytes. induction W as [|X W IH]; [reflexivity|].
  cbn [map concat]. now rewrite IH, flat_app.
Qed.

Lemma nth_row_bytes W i q :
  W_ok W -> (i < 16)%nat -> (q < 16)%nat ->
  nth (16 * i + q) (state_bytes W) 0 = nth q (flat wb (nth i W [])) 0.
Proof.
  intros HW Hi Hq. unfold state_bytes. rewrite (nth_concat 16) by (lia || now apply row_bytes_lengths).
  replace ((16 * i + q) mod 16)%nat with q by dlia. replace ((16 * i + q) / 16)%nat with i by dlia.
  f_equal. rewrite (nth_indep _ [] (flat wb [])) by (rewrite length_map; destruct HW as [-> _]; lia).
  apply map_nth.
Qed.

Lemma length_state_bytes W : W_ok W -> length (state_bytes W) = 256%nat.
Proof.
  intros HW. unfold state_bytes. pose proof (row_bytes_lengths W HW) as F.
  destruct HW as [L _]. rewrite length_concat, map_map. clear -F L.
  rewrite (map_ext_in _ (fun _ => 16%nat)).
  - do 16 (destruct W as [|? W]; [discriminate L|]). destruct W; [reflexivity|discriminate L].
  - intros X HX. rewrite Forall_map, Forall_forall in F. now apply F.
Qed.

Lemma word_state_bytes W i :
  W_ok W -> (i < 16)%nat -> EchoSpec.get_word (state_bytes W) i = flat wb (nth i W []).
Proof.
  intros HW Hi. pose proof (length_state_bytes W HW) as L.
  pose proof (length_row_bytes _ (row_ok_nth W i HW Hi)) as Lr.
  assert (Ls : length (slice (state_bytes W) (16 * i) 16) = 16%nat) by (apply length_slice; lia).
  apply (nth_ext' _ _ 0); unfold EchoSpec.get_word; rewrite Ls; [congruence|].
  intros q Hq. rewrite nth_slice by lia. now apply nth_row_bytes.
Qed.

(** Byte [p] of the state, in the array. *)
Lemma nth_state_bytes W p :
  W_ok W -> (p < 256)%nat ->
  nth p (state_bytes W) 0 = byte (p mod 16 mod wb) (W_get W (p / 16) (p mod 16 / wb)).
Proof.
  intros HW Hp. pose proof wb_row as (H16 & Hwb & _).
  replace p with (16 * (p / 16) + p mod 16)%nat at 1 by dlia.
  assert (p / 16 < 16)%nat by dlia. assert (p mod 16 < 16)%nat by dlia.
  rewrite nth_row_bytes, nth_flat by assumption.
  destruct (row_ok_nth W (p / 16) HW ltac:(assumption)) as [-> _].
  rewrite H16, (proj2 (Nat.ltb_lt _ _)) by assumption. reflexivity.
Qed.

(** ** BIG.SubWords *)

Lemma AES_2ROUNDS_ok n W K :
  W_ok W -> quad_ok K -> (n < 16)%nat ->
  let '(W', K') := AES_2ROUNDS n (W, K) in
  W_ok W' /\ quad_ok K' /\ quad_val K' = (quad_val K + 1) mod 2 ^ 128 /\
  (forall i, i <> n -> nth i W' [] = nth i W []) /\
  flat wb (nth n W' []) = EchoSpec.sub_word (quad_val K) (flat wb (nth n W [])).
Proof.
  intros HW HK Hn. unfold AES_2ROUNDS. destruct (row_ok_nth W n HW Hn) as [L F].
  destruct (aes_ok _ K L F HK) as (L' & F' & E). destruct (next_key_ok K HK) as [HK' V].
  destruct HW as [LW FW]. splits; try assumption.
  - split; [now rewrite length_upd|]. apply Forall_upd; [assumption|]. now split.
  - intros i Hi. rewrite nth_upd by lia. now rewrite (proj2 (Nat.eqb_neq _ _)).
  - rewrite nth_upd, Nat.eqb_refl, E, quad_bytes_val by (assumption || lia). reflexivity.
Qed.

Lemma sub_word_mod k w : EchoSpec.sub_word (k mod 2 ^ 128) w = EchoSpec.sub_word k w.
Proof. unfold EchoSpec.sub_word. now rewrite (le_store_mod 16). Qed.

Lemma sub_prefix W K n :
  W_ok W -> quad_ok K -> (n <= 16)%nat ->
  let '(W', K') := fold_left (fun st i => AES_2ROUNDS i st) (seq 0 n) (W, K) in
  W_ok W' /\ quad_ok K' /\ quad_val K' = (quad_val K + Z.of_nat n) mod 2 ^ 128 /\
  forall i, (i < 16)%nat -> flat wb (nth i W' []) =
    if (i <? n)%nat then EchoSpec.sub_word (quad_val K + Z.of_nat i) (flat wb (nth i W []))
    else flat wb (nth i W []).
Proof.
  intros HW HK. induction n as [|n IH]; intros Hn.
  - cbn. pose proof (quad_val_range K HK). rewrite Z.add_0_r, Z.mod_small by assumption. auto.
  - rewrite seq_S, fold_left_app. cbn [fold_left Nat.add].
    destruct (fold_left (fun (st : rounds_state) i => AES_2ROUNDS i st) (seq 0 n) (W, K)) as [W1 K1].
    destruct IH as (HW1 & HK1 & V1 & E1); [lia|].
    pose proof (AES_2ROUNDS_ok n W1 K1 HW1 HK1 ltac:(lia)) as R.
    destruct (AES_2ROUNDS n (W1, K1)) as [W2 K2]. destruct R as (HW2 & HK2 & V2 & E2 & E3).
    splits; try assumption.
    + rewrite V2, V1, Zplus_mod_idemp_l. f_equal. lia.
    + intros i Hi. destruct (Nat.eq_dec i n) as [->|].
      * rewrite E3, V1, sub_word_mod, E1, (proj2 (Nat.ltb_lt n (S n))), (proj2 (Nat.ltb_ge n n)) by lia.
        reflexivity.
      * rewrite E2, E1 by assumption.
        destruct (Nat.ltb_spec i n), (Nat.ltb_spec i (S n)); try lia; reflexivity.
Qed.

Lemma BIG_SUB_WORDS_ok fp W K :
  W_ok W -> quad_ok K ->
  let '(W', K') := BIG_SUB_WORDS fp (W, K) in
  W_ok W' /\ quad_ok K' /\ quad_val K' = (quad_val K + 16) mod 2 ^ 128 /\
  state_bytes W' = EchoSpec.big_sub_words (quad_val K) (state_bytes W).
Proof.
  intros HW HK.
  assert (E : BIG_SUB_WORDS fp (W, K) = fold_left (fun st i => AES_2ROUNDS i st) (seq 0 16) (W, K))
    by (destruct fp; reflexivity).
  rewrite E. pose proof (sub_prefix W K 16 HW HK ltac:(lia)) as S.
  destruct (fold_left (fun (st : rounds_state) i => AES_2ROUNDS i st) (seq 0 16) (W, K)) as [W' K']. destruct S as (HW' & HK' & V & B).
  splits; try assumption. unfold EchoSpec.big_sub_words, state_bytes at 1. f_equal.
  apply (nth_ext' _ _ []); [rewrite !length_map, length_seq; apply HW'|].
  rewrite length_map. intros i Hi. destruct HW' as [LW' FW']. rewrite LW' in Hi.
  rewrite nth_map_seq, word_state_bytes by assumption.
  rewrite (nth_indep _ [] (flat wb [])) by (rewrite length_map; lia).
  rewrite map_nth, B, (proj2 (Nat.ltb_lt _ _)) by assumption. reflexivity.
Qed.

(** ** Operations on one column at a time *)

Definition shape (W : list (list Z)) : Prop :=
  length W = 16%nat /\ Forall (fun X => length X = row_words) W.

Lemma W_ok_shape W : W_ok W -> shape W.
Proof. intros [L F]. split; [assumption|]. eapply Forall_impl; [|exact F]. intros X HX. apply HX. Qed.

Lemma shape_row W a : shape W -> (a < 16)%nat -> length (nth a W []) = row_words.
Proof. intros [L F] Ha. rewrite Forall_forall in F. apply F, nth_In. lia. Qed.

Lemma W_ok_intro W :
  shape W -> (forall r m, (r < 16)%nat -> (m < row_words)%nat -> word_ok (W_get W r m)) -> W_ok W.
Proof.
  intros S H. split; [apply S|]. apply Forall_forall. intros X HX.
  destruct (In_nth _ _ [] HX) as (r & Hr & <-). rewrite (proj1 S) in Hr.
  pose proof (shape_row W r S Hr) as L. split; [assumption|]. apply Forall_forall. intros v Hv.
  destruct (In_nth _ _ 0 Hv) as (m & Hm & <-). apply H; [assumption|]. lia.
Qed.

Lemma W_ok_get W r m : W_ok W -> (r < 16)%nat -> (m < row_words)%nat -> word_ok (W_get W r m).
Proof.
  intros HW Hr Hm. destruct (row_ok_nth W r HW Hr) as [L F]. rewrite Forall_forall in F.
  apply F, nth_In. lia.
Qed.

Lemma shape_set W a n v : shape W -> (a < 16)%nat -> shape (W_set W a n v).
Proof.
  intros S Ha. split; unfold W_set; [rewrite length_upd; apply S|].
  apply Forall_upd; [apply S|]. rewrite length_upd. now apply shape_row.
Qed.

Lemma W_get_set W a n v r m :
  shape W -> (a < 16)%nat -> (n < row_words)%nat ->
  W_get (W_set W a n v) r m = if ((r =? a) && (m =? n))%nat then v else W_get W r m.
Proof.
  intros S Ha Hn. unfold W_get, W_set. rewrite nth_upd by (rewrite (proj1 S); lia).
  destruct (Nat.eqb_spec r a) as [->|]; [|reflexivity]. cbn [andb].
  rewrite nth_upd by (rewrite shape_row; assumption). reflexivity.
Qed.

(** [f n] replaces column [n] by its image by [g], which only looks at the 16
    rows. *)
Definition column_wise (f : nat -> list (list Z) -> list (list Z)) (g : (nat -> Z) -> nat -> Z) : Prop :=
  (forall n W, shape W -> (n < row_words)%nat ->
    shape (f n W) /\
    forall r m, W_get (f n W) r m = if (m =? n)%nat then g (fun r' => W_get W r' n) r else W_get W r m) /\
  (forall c c' r, (forall r', (r' < 16)%nat -> c r' = c' r') -> (r < 16)%nat -> g c r = g c' r).

Lemma columns_get f g W :
  column_wise f g -> shape W ->
  shape (columns f W) /\
  forall r m, (r < 16)%nat -> (m < row_words)%nat ->
    W_get (columns f W) r m = g (fun r' => W_get W r' m) r.
Proof.
  intros [Hf Hg] HS. unfold columns.
  assert (P : forall n, (n <= row_words)%nat ->
    let W' := fold_left (fun W n => f n W) (seq 0 n) W in
    shape W' /\ forall r m, (r < 16)%nat ->
      W_get W' r m = if (m <? n)%nat then g (fun r' => W_get W r' m) r else W_get W r m).
  { induction n as [|n IH]; intros Hn; [now split|]. cbv zeta in *.
    rewrite seq_S, fold_left_app. cbn [fold_left Nat.add]. destruct IH as [HS' E]; [lia|].
    destruct (Hf n _ HS' ltac:(lia)) as [HS'' E']. split; [assumption|]. intros r m Hr. rewrite E'.
    destruct (Nat.eqb_spec m n) as [->|].
    - rewrite (proj2 (Nat.ltb_lt n (S n))) by lia. apply Hg; [|assumption].
      intros r' Hr'. now rewrite E, Nat.ltb_irrefl.
    - rewrite E by assumption. destruct (Nat.ltb_spec m n), (Nat.ltb_spec m (S n)); try lia; reflexivity. }
  destruct (P row_words (le_n _)) as [HS' E]. split; [exact HS'|].
  intros r m Hr Hm. rewrite E, (proj2 (Nat.ltb_lt _ _)) by assumption. reflexivity.
Qed.

(** The image of a column by an assignment to four of its rows. *)
Definition assign4 (a b c d : nat) (va vb vc vd : Z) (col : nat -> Z) (r : nat) : Z :=
  if (r =? a)%nat then va else if (r =? b)%nat then vb else
  if (r =? c)%nat then vc else if (r =? d)%nat then vd else col r.

Definition rotate1 (a b c d : nat) (col : nat -> Z) : nat -> Z :=
  assign4 a b c d (col b) (col c) (col d) (col a) col.
Definition rotate2 (a b c d : nat) (col : nat -> Z) : nat -> Z :=
  assign4 a b c d (col c) (col d) (col a) (col b) col.
Definition mix4 (a b c d : nat) (col : nat -> Z) : nat -> Z :=
  let ab := col a .^ col b in let bc := col b .^ col c in let cd := col c .^ col d in
  assign4 a b c d (xtimes ab .^ bc .^ col d) (xtimes bc .^ col a .^ cd) (xtimes cd .^ ab .^ col d)
    (xtimes ab .^ xtimes bc .^ xtimes cd .^ ab .^ col c) col.

(** Four distinct rows. *)
Definition rows4 (a b c d : nat) : Prop :=
  (a < 16 /\ b < 16 /\ c < 16 /\ d < 16)%nat /\ NoDup [a; b; c; d].

(** Evaluation of the reads and writes of a straight-line macro. *)
Ltac four_rows a b c d m n r :=
  repeat rewrite W_get_set by (repeat apply shape_set; assumption || lia);
  unfold assign4; destruct (Nat.eqb_spec m n) as [->|];
  rewrite ?andb_true_r, ?andb_false_r, ?Nat.eqb_refl; [|reflexivity];
  destruct (Nat.eqb_spec r a), (Nat.eqb_spec r b), (Nat.eqb_spec r c), (Nat.eqb_spec r d);
    subst; try congruence;
  repeat match goal with
  | H : ?x <> ?y |- context [(?x =? ?y)%nat] => rewrite (proj2 (Nat.eqb_neq x y) H)
  | H : ?x <> ?y |- context [(?y =? ?x)%nat] => rewrite (proj2 (Nat.eqb_neq y x) (not_eq_sym H))
  end; reflexivity.

Lemma rows4_elim a b c d :
  rows4 a b c d ->
  (a < 16 /\ b < 16 /\ c < 16 /\ d < 16)%nat /\
  (a <> b /\ a <> c /\ a <> d /\ b <> c /\ b <> d /\ c <> d).
Proof.
  intros [H N]. split; [assumption|]. inversion_clear N as [|? ? Na N1]. inversion_clear N1 as [|? ? Nb N2].
  inversion_clear N2 as [|? ? Nc _]. cbn [In] in *. intuition congruence.
Qed.

Lemma shift_row1_columns a b c d :
  rows4 a b c d -> column_wise (shift_row1 a b c d) (rotate1 a b c d).
Proof.
  intros ((Ha & Hb & Hc & Hd) & (ab & ac & ad & bc & bd & cd))%rows4_elim. split.
  - intros n W S Hn. unfold shift_row1, rotate1. split; [now repeat apply shape_set|].
    intros r m. four_rows a b c d m n r.
  - intros x y r E Hr. unfold rotate1, assign4. now rewrite !E.
Qed.

Lemma shift_row2_columns a b c d :
  rows4 a b c d -> column_wise (shift_row2 a b c d) (rotate2 a b c d).
Proof.
  intros ((Ha & Hb & Hc & Hd) & (ab & ac & ad & bc & bd & cd))%rows4_elim. split.
  - intros n W S Hn. unfold shift_row2, rotate2. split; [now repeat apply shape_set|].
    intros r m. four_rows a b c d m n r.
  - intros x y r E Hr. unfold rotate2, assign4. now rewrite !E.
Qed.

Lemma MIX_COLUMN1_columns a b c d :
  rows4 a b c d -> column_wise (MIX_COLUMN1 a b c d) (mix4 a b c d).
Proof.
  intros ((Ha & Hb & Hc & Hd) & (ab & ac & ad & bc & bd & cd))%rows4_elim. split.
  - intros n W S Hn. unfold MIX_COLUMN1, mix4. cbv zeta. split; [now repeat apply shape_set|].
    intros r m. four_rows a b c d m n r.
  - intros x y r E Hr. unfold mix4, assign4. now rewrite !E.
Qed.

Lemma rows4_intro a b c d :
  forallb (fun i => i <? 16)%nat [a; b; c; d] &&
  negb ((a =? b) || (a =? c) || (a =? d) || (b =? c) || (b =? d) || (c =? d))%nat = true ->
  rows4 a b c d.
Proof.
  rewrite andb_true_iff, negb_true_iff, !orb_false_iff. cbn [forallb].
  rewrite !andb_true_iff, !Nat.ltb_lt, !Nat.eqb_neq. intros [H N]. split; [tauto|].
  repeat constructor; cbn [In]; intuition congruence.
Qed.

(** Three or four macros in a row act on a column by composing their images. *)
Lemma BIG_SHIFT_ROWS_get W :
  shape W ->
  shape (BIG_SHIFT_ROWS W) /\
  forall r m, (r < 16)%nat -> (m < row_words)%nat ->
    W_get (BIG_SHIFT_ROWS W) r m = W_get W ((r + 4 * (r mod 4)) mod 16) m.
Proof.
  intros H0. unfold BIG_SHIFT_ROWS, SHIFT_ROW3, SHIFT_ROW1, SHIFT_ROW2. cbv zeta.
  destruct (columns_get _ _ W (shift_row1_columns 1 5 9 13 (rows4_intro 1 5 9 13 eq_refl)) H0) as [H1 E1].
  destruct (columns_get _ _ _ (shift_row2_columns 2 6 10 14 (rows4_intro 2 6 10 14 eq_refl)) H1) as [H2 E2].
  destruct (columns_get _ _ _ (shift_row1_columns 15 11 7 3 (rows4_intro 15 11 7 3 eq_refl)) H2) as [H3 E3].
  split; [assumption|]. intros r m Hr Hm. rewrite E3 by assumption. clear E3 H3.
  unfold rotate1, assign4. rewrite !E2 by (assumption || lia). clear E2 H2.
  unfold rotate2, assign4. rewrite !E1 by (assumption || lia). clear E1 H1.
  unfold rotate1, assign4. do 16 (destruct r as [|r]; [reflexivity|]). lia.
Qed.

(** The new word in row [r], from the four words of its column. *)
Definition mixed (col : nat -> Z) (r : nat) : Z :=
  let q := (4 * (r / 4))%nat in mix4 q (q + 1) (q + 2) (q + 3) col r.

Lemma mixed_ext c c' r :
  (forall r', (r' / 4 = r / 4)%nat -> c r' = c' r') -> mixed c r = mixed c' r.
Proof.
  intros E. unfold mixed, mix4, assign4. set (q := (4 * (r / 4))%nat).
  rewrite (E q), (E (q + 1)%nat), (E (q + 2)%nat), (E (q + 3)%nat), (E r) by (subst q; dlia).
  reflexivity.
Qed.

Lemma MIX_COLUMN_get q W :
  (q < 4)%nat -> shape W ->
  let W' := MIX_COLUMN (4 * q) (4 * q + 1) (4 * q + 2) (4 * q + 3) W in
  shape W' /\
  forall r m, (r < 16)%nat -> (m < row_words)%nat ->
    W_get W' r m = if (r / 4 =? q)%nat then mixed (fun r' => W_get W r' m) r else W_get W r m.
Proof.
  intros Hq HS. unfold MIX_COLUMN. cbv zeta.
  assert (R4 : rows4 (4 * q) (4 * q + 1) (4 * q + 2) (4 * q + 3)).
  { split; [lia|]. repeat constructor; cbn [In]; lia. }
  destruct (columns_get _ _ W (MIX_COLUMN1_columns _ _ _ _ R4) HS) as [H' E].
  split; [assumption|]. intros r m Hr Hm. rewrite E by assumption.
  destruct (Nat.eqb_spec (r / 4) q) as [<-|N]; [reflexivity|].
  unfold mix4, assign4. rewrite !(proj2 (Nat.eqb_neq r _)) by dlia. reflexivity.
Qed.

Lemma BIG_MIX_COLUMNS_get W :
  shape W ->
  shape (BIG_MIX_COLUMNS W) /\
  forall r m, (r < 16)%nat -> (m < row_words)%nat ->
    W_get (BIG_MIX_COLUMNS W) r m = mixed (fun r' => W_get W r' m) r.
Proof.
  intros H0. unfold BIG_MIX_COLUMNS. cbv zeta.
  destruct (MIX_COLUMN_get 0 W ltac:(lia) H0) as [H1 E1]. cbn [Nat.add Nat.mul] in H1, E1.
  destruct (MIX_COLUMN_get 1 _ ltac:(lia) H1) as [H2 E2]. cbn [Nat.add Nat.mul] in H2, E2.
  destruct (MIX_COLUMN_get 2 _ ltac:(lia) H2) as [H3 E3]. cbn [Nat.add Nat.mul] in H3, E3.
  destruct (MIX_COLUMN_get 3 _ ltac:(lia) H3) as [H4 E4]. cbn [Nat.add Nat.mul] in H4, E4.
  split; [assumption|]. intros r m Hr Hm.
  assert (K : (r / 4 = 0 \/ r / 4 = 1 \/ r / 4 = 2 \/ r / 4 = 3)%nat) by dlia.
  destruct K as [K|[K|[K|K]]].
  - rewrite E4, E3, E2, E1, K by assumption. reflexivity.
  - rewrite E4, E3, E2, K by assumption. apply mixed_ext. intros r' K'. rewrite K in K'.
    rewrite E1, K' by (assumption || dlia). reflexivity.
  - rewrite E4, E3, K by assumption. apply mixed_ext. intros r' K'. rewrite K in K'.
    rewrite E2, E1, K' by (assumption || dlia). reflexivity.
  - rewrite E4, K by assumption. apply mixed_ext. intros r' K'. rewrite K in K'.
    rewrite E3, E2, E1, K' by (assumption || dlia). reflexivity.
Qed.

(** ** BIG.ShiftRows and BIG.MixColumns, on bytes *)

Lemma BIG_SHIFT_ROWS_ok W :
  W_ok W -> W_ok (BIG_SHIFT_ROWS W) /\
  state_bytes (BIG_SHIFT_ROWS W) = EchoSpec.big_shift_rows (state_bytes W).
Proof.
  intros HW. pose proof wb_row as (HR & Hwb & _).
  destruct (BIG_SHIFT_ROWS_get W (W_ok_shape W HW)) as [HS E].
  assert (HW' : W_ok (BIG_SHIFT_ROWS W)).
  { apply W_ok_intro; [assumption|]. intros r m Hr Hm. rewrite E by assumption.
    apply W_ok_get; [assumption|apply Nat.mod_upper_bound; lia|assumption]. }
  split; [assumption|]. apply (nth_ext' _ _ 0).
  { rewrite length_state_bytes by assumption. unfold EchoSpec.big_shift_rows.
    now rewrite length_map, length_seq. }
  rewrite length_state_bytes by assumption. intros i Hi.
  unfold EchoSpec.big_shift_rows. rewrite nth_map_seq, nth_state_bytes by assumption. cbv zeta.
  set (j := ((i / 16 + 4 * ((i / 16) mod 4)) mod 16)%nat).
  assert (Hj : (j < 16)%nat) by (apply Nat.mod_upper_bound; lia).
  assert (Hm : (i mod 16 < 16)%nat) by dlia.
  rewrite nth_state_bytes by (assumption || lia).
  replace ((16 * j + i mod 16) / 16)%nat with j by (clearbody j; dlia).
  replace ((16 * j + i mod 16) mod 16)%nat with (i mod 16)%nat by (clearbody j; dlia).
  rewrite E; [reflexivity|dlia|]. apply Nat.Div0.div_lt_upper_bound. lia.
Qed.

(** A mixed word, byte by byte. *)
Lemma byte_mixed i col r :
  (forall r', (r' < 16)%nat -> word_ok (col r')) -> (i < wb)%nat -> (r < 16)%nat ->
  word_ok (mixed col r) /\
  byte i (mixed col r) =
    let x j := byte i (col (4 * (r / 4) + (r + j) mod 4)%nat) in
    AesSpec.mix_byte (x 0%nat) (x 1%nat) (x 2%nat) (x 3%nat).
Proof.
  intros Hc Hi Hr. cbv zeta. set (q := (4 * (r / 4))%nat).
  assert (Hq : (q + 3 < 16)%nat) by (subst q; dlia).
  assert (X : forall a b, (a < 16)%nat -> (b < 16)%nat ->
    word_ok (xtimes (col a .^ col b)) /\
    byte i (xtimes (col a .^ col b)) =
      AesSpec.xtime (byte i (col a)) .^ AesSpec.xtime (byte i (col b))).
  { intros a b Ha Hb. destruct (xtimes_ok (col a .^ col b)) as [H1 H2].
    - apply lxor_word; [lia|apply Hc; assumption..].
    - split; [assumption|]. now rewrite H2, byte_lxor, xtime_lxor. }
  destruct (X q (q + 1)%nat) as [W1 B1]; [lia..|].
  destruct (X (q + 1) (q + 2))%nat as [W2 B2]; [lia..|].
  destruct (X (q + 2) (q + 3))%nat as [W3 B3]; [lia..|].
  pose proof (Hc q ltac:(lia)) as C0. pose proof (Hc (q + 1)%nat ltac:(lia)) as C1.
  pose proof (Hc (q + 2)%nat ltac:(lia)) as C2. pose proof (Hc (q + 3)%nat ltac:(lia)) as C3.
  unfold word_ok in *. split.
  - unfold mixed, mix4, assign4. fold q.
    assert (Hrq : r = q \/ r = (q + 1)%nat \/ r = (q + 2)%nat \/ r = (q + 3)%nat) by (subst q; dlia).
    repeat match goal with |- context [(r =? ?x)%nat] => destruct (Nat.eqb_spec r x) end;
      try lia; repeat (apply lxor_word; [lia| |]); assumption.
  - assert (Hrq : exists k, (k < 4)%nat /\ r = (q + k)%nat)
      by (exists (r mod 4)%nat; subst q; dlia).
    destruct Hrq as (k & Hk & Ek).
    assert (Em : forall j, ((r + j) mod 4 = (k + j) mod 4)%nat) by (intros j; subst q; dlia).
    rewrite !Em. unfold mixed, mix4, assign4. fold q. rewrite Ek. clear Em Ek Hr Hq.
    clearbody q.
    do 4 (destruct k as [|k]; [
      cbn [Nat.add Nat.modulo Nat.divmod Nat.sub fst snd]; rewrite ?Nat.add_0_r, ?Nat.eqb_refl;
      rewrite ?(proj2 (Nat.eqb_neq (q + 1) q)), ?(proj2 (Nat.eqb_neq (q + 2) q)),
        ?(proj2 (Nat.eqb_neq (q + 3) q)), ?(proj2 (Nat.eqb_neq (q + 2) (q + 1))),
        ?(proj2 (Nat.eqb_neq (q + 3) (q + 1))), ?(proj2 (Nat.eqb_neq (q + 3) (q + 2))) by lia;
      cbn -[byte Z.lxor AesSpec.mix_byte Nat.add]; rewrite ?Nat.add_0_r; rewrite !byte_lxor, ?B1, ?B2, ?B3;
      unfold AesSpec.mix_byte; clear;
      generalize (AesSpec.xtime (byte i (col q))) (AesSpec.xtime (byte i (col (q + 1)%nat)))
        (AesSpec.xtime (byte i (col (q + 2)%nat))) (AesSpec.xtime (byte i (col (q + 3)%nat)));
      intros; bitwise n Hn; btauto|]). lia.
Qed.

Lemma BIG_MIX_COLUMNS_ok W :
  W_ok W -> W_ok (BIG_MIX_COLUMNS W) /\
  state_bytes (BIG_MIX_COLUMNS W) = EchoSpec.big_mix_columns (state_bytes W).
Proof.
  intros HW. pose proof wb_row as (HR & Hwb & _).
  destruct (BIG_MIX_COLUMNS_get W (W_ok_shape W HW)) as [HS E].
  assert (HC : forall m, (m < row_words)%nat -> forall r, (r < 16)%nat -> word_ok (W_get W r m))
    by (intros; now apply W_ok_get).
  assert (HW' : W_ok (BIG_MIX_COLUMNS W)).
  { apply W_ok_intro; [assumption|]. intros r m Hr Hm. rewrite E by assumption.
    apply (byte_mixed 0); [now apply HC|lia|assumption]. }
  split; [assumption|]. apply (nth_ext' _ _ 0).
  { rewrite length_state_bytes by assumption. unfold EchoSpec.big_mix_columns.
    now rewrite length_map, length_seq. }
  rewrite length_state_bytes by assumption. intros i Hi.
  assert (Hm : (i mod 16 < 16)%nat) by dlia. assert (Hr : (i / 16 < 16)%nat) by dlia.
  assert (Hn : (i mod 16 / wb < row_words)%nat) by (apply Nat.Div0.div_lt_upper_bound; lia).
  assert (Hb : (i mod 16 mod wb < wb)%nat) by (apply Nat.mod_upper_bound; lia).
  unfold EchoSpec.big_mix_columns. rewrite nth_map_seq, nth_state_bytes, E by assumption. cbv zeta.
  rewrite (proj2 (byte_mixed _ _ _ (HC _ Hn) Hb Hr)). cbv zeta.
  assert (N : forall j, nth (16 * (4 * (i / 16 / 4) + (i / 16 + j) mod 4) + i mod 16) (state_bytes W) 0 =
    byte (i mod 16 mod wb) (W_get W (4 * (i / 16 / 4) + (i / 16 + j) mod 4) (i mod 16 / wb))).
  { intros j. set (k := (4 * (i / 16 / 4) + (i / 16 + j) mod 4)%nat).
    assert (k < 16)%nat by (subst k; dlia). clearbody k.
    rewrite nth_state_bytes by (assumption || lia).
    replace ((16 * k + i mod 16) / 16)%nat with k by dlia.
    now replace ((16 * k + i mod 16) mod 16)%nat with (i mod 16)%nat by dlia. }
  now rewrite !N.
Qed.

Lemma big_round_mod k s : EchoSpec.big_round (k mod 2 ^ 128) s = EchoSpec.big_round k s.
Proof.
  unfold EchoSpec.big_round, EchoSpec.big_sub_words. do 3 f_equal. apply map_ext. intros i.
  rewrite <- sub_word_mod, Zplus_mod_idemp_l. apply sub_word_mod.
Qed.

Lemma BIG_ROUND_ok fp W K :
  W_ok W -> quad_ok K ->
  let '(W', K') := BIG_ROUND fp (W, K) in
  W_ok W' /\ quad_ok K' /\ quad_val K' = (quad_val K + 16) mod 2 ^ 128 /\
  state_bytes W' = EchoSpec.big_round (quad_val K) (state_bytes W).
Proof.
  intros HW HK. unfold BIG_ROUND. pose proof (BIG_SUB_WORDS_ok fp W K HW HK) as S.
  destruct (BIG_SUB_WORDS fp (W, K)) as [W1 K1]. destruct S as (HW1 & HK1 & V1 & E1).
  destruct (BIG_SHIFT_ROWS_ok W1 HW1) as [HW2 E2]. destruct (BIG_MIX_COLUMNS_ok _ HW2) as [HW3 E3].
  splits; try assumption. now rewrite E3, E2, E1.
Qed.

(** Any number of rounds; the key goes on from one to the next. *)
Lemma rounds_ok fp n W C :
  W_ok W -> quad_ok C ->
  let '(W', K') := fold_left (fun st (_ : nat) => BIG_ROUND fp st) (seq 0 n) (W, C) in
  W_ok W' /\ state_bytes W' = EchoSpec.rounds n (quad_val C) (state_bytes W).
Proof.
  intros HW HC.
  assert (P : let '(W', K') := fold_left (fun st (_ : nat) => BIG_ROUND fp st) (seq 0 n) (W, C) in
    W_ok W' /\ quad_ok K' /\ quad_val K' = (quad_val C + 16 * Z.of_nat n) mod 2 ^ 128 /\
    state_bytes W' = EchoSpec.rounds n (quad_val C) (state_bytes W)).
  { unfold EchoSpec.rounds. induction n as [|n IH].
    - cbn. pose proof (quad_val_range C HC). rewrite Z.add_0_r, Z.mod_small by assumption. auto.
    - rewrite seq_S, !fold_left_app. cbn [fold_left Nat.add].
      destruct (fold_left (fun st (_ : nat) => BIG_ROUND fp st) (seq 0 n) (W, C)) as [W1 K1].
      destruct IH as (HW1 & HK1 & V1 & E1). pose proof (BIG_ROUND_ok fp W1 K1 HW1 HK1) as R.
      destruct (BIG_ROUND fp (W1, K1)) as [W2 K2]. destruct R as (HW2 & HK2 & V2 & E2).
      splits; try assumption.
      + rewrite V2, V1, Zplus_mod_idemp_l. f_equal. lia.
      + now rewrite E2, V1, big_round_mod, E1. }
  destruct (fold_left _ _ _) as [W' K']. now destruct P as (? & _ & _ & ?).
Qed.

(** ** Loading a block *)

Definition input_rows (k : nat) (V buf : list Z) : list (list Z) :=
  map (fun u => map (fun n => nth (row_words * u + n) V 0) (seq 0 row_words)) (seq 0 k) ++
  map (fun u => map (fun n => dec buf (16 * u + wb * n)) (seq 0 row_words)) (seq 0 (16 - k)).

Lemma shape_input k V buf : (k <= 16)%nat -> shape (input_rows k V buf).
Proof.
  intros Hk. unfold input_rows. split; [rewrite length_app, !length_map, !length_seq; lia|].
  apply Forall_app. split; apply Forall_map_seq; intros; now rewrite length_map, length_seq.
Qed.

Lemma W_get_input k V buf r m :
  (k <= 16)%nat -> (r < 16)%nat -> (m < row_words)%nat ->
  W_get (input_rows k V buf) r m =
    if (r <? k)%nat then nth (row_words * r + m) V 0 else dec buf (16 * (r - k) + wb * m).
Proof.
  intros Hk Hr Hm. unfold W_get, input_rows. destruct (Nat.ltb_spec r k).
  - rewrite app_nth1 by (rewrite length_map, length_seq; assumption). now rewrite !nth_map_seq.
  - rewrite app_nth2; rewrite length_map, length_seq; [|assumption].
    rewrite nth_map_seq by lia. now rewrite nth_map_seq.
Qed.

Lemma dec_word buf off : bytes buf -> (off + wb <= length buf)%nat -> word_ok (dec buf off).
Proof. intros Hb Hl. rewrite dec_load by assumption. apply le_load_word. now apply Forall_slice. Qed.

Lemma byte_dec buf off i :
  bytes buf -> (off + wb <= length buf)%nat -> (i < wb)%nat ->
  byte i (dec buf off) = nth (off + i) buf 0.
Proof.
  intros Hb Hl Hi. rewrite dec_load by assumption.
  rewrite byte_le_load; [|now apply Forall_slice|now apply length_slice|assumption].
  now rewrite nth_slice.
Qed.

Lemma input_rows_ok k V buf :
  (k <= 16)%nat -> length V = (k * row_words)%nat -> Forall word_ok V ->
  bytes buf -> length buf = (16 * (16 - k))%nat ->
  W_ok (input_rows k V buf) /\ state_bytes (input_rows k V buf) = flat wb V ++ buf.
Proof.
  intros Hk HV FV Hb Hl. pose proof wb_row as (HR & Hwb & Hrw).
  assert (HW : W_ok (input_rows k V buf)).
  { apply W_ok_intro; [now apply shape_input|]. intros r m Hr Hm. rewrite W_get_input by assumption.
    destruct (Nat.ltb_spec r k); [apply Forall_nth'; [assumption|now apply word_0; lia]|].
    apply dec_word; [assumption|]. rewrite Hl. nia. }
  assert (LF : length (flat wb V) = (16 * k)%nat) by (rewrite length_flat, HV; nia).
  split; [assumption|]. apply (nth_ext' _ _ 0).
  { rewrite length_state_bytes, length_app by assumption. lia. }
  rewrite length_state_bytes by assumption. intros p Hp.
  assert (Hn : (p mod 16 / wb < row_words)%nat) by (apply Nat.Div0.div_lt_upper_bound; dlia).
  assert (Hm : (p mod 16 mod wb < wb)%nat) by (apply Nat.mod_upper_bound; lia).
  rewrite nth_state_bytes, W_get_input by (assumption || dlia).
  destruct (Nat.ltb_spec (p / 16) k).
  - rewrite app_nth1 by dlia. rewrite length_flat in LF. rewrite nth_flat, LF, (proj2 (Nat.ltb_lt _ _)) by (assumption || dlia).
    destruct wb_cases as [[-> ->]|[-> ->]]; (f_equal; [|f_equal]; dlia).
  - rewrite app_nth2, LF by dlia.
    assert (wb * (p mod 16 / wb) + wb <= 16)%nat by (clear - Hn HR; nia).
    rewrite byte_dec by (assumption || dlia). f_equal. destruct wb_cases as [[-> _]|[-> _]]; dlia.
Qed.

(** ** The compression functions *)

Ltac literal_products :=
  repeat match goal with
  | |- context [(?a * ?b)%nat] => let r := eval cbv in (a * b)%nat in change (a * b)%nat with r
  end.

(** Sums of the same bytes. *)
Ltac xor_sort :=
  repeat match goal with
  | |- context [nth ?i ?l 0] => let b := fresh "b" in set (b := nth i l 0); clearbody b
  end;
  let n := fresh "n" in let Hn := fresh "Hn" in bitwise n Hn; btauto.

(** The final additions, for [k] words of 16 bytes of chaining value: byte [i]
    of each part of the block and of the state. *)
Lemma byte_part W i j :
  W_ok W -> (i + 16 * j < 256)%nat ->
  byte (i mod wb) (nth (i / wb + j * row_words) (concat W) 0) = nth (i + 16 * j) (state_bytes W) 0.
Proof.
  intros HW Hi. pose proof wb_row as (HR & Hwb & Hrw). pose proof (length_state_bytes W HW) as L.
  rewrite state_bytes_flat in *. rewrite length_flat in L.
  rewrite nth_flat, L, (proj2 (Nat.ltb_lt _ _)) by assumption.
  assert (E : (i + 16 * j = i + (j * row_words) * wb)%nat) by nia.
  now rewrite E, Nat.Div0.mod_add, Nat.div_add by lia.
Qed.

Lemma byte_V V i :
  (i < wb * length V)%nat -> byte (i mod wb) (nth (i / wb) V 0) = nth i (flat wb V) 0.
Proof. intros Hi. rewrite nth_flat by apply wb_row. now rewrite (proj2 (Nat.ltb_lt _ _)). Qed.

Lemma byte_buf buf i off :
  bytes buf -> (i / wb * wb + off + wb <= length buf)%nat ->
  byte (i mod wb) (dec buf (i / wb * wb + off)) = nth (i + off) buf 0.
Proof.
  intros Hb Hl. pose proof wb_row as (_ & Hwb & _).
  rewrite byte_dec by (assumption || apply Nat.mod_upper_bound; lia).
  f_equal. pose proof (Nat.div_mod_eq i wb). lia.
Qed.

Lemma byte_part_0 W i :
  W_ok W -> (i < 256)%nat ->
  byte (i mod wb) (nth (i / wb) (concat W) 0) = nth i (state_bytes W) 0.
Proof.
  intros HW Hi. pose proof (byte_part W i 0 HW) as P. cbn [Nat.mul] in P.
  rewrite !Nat.add_0_r in P. now apply P.
Qed.

Lemma byte_buf_0 buf i :
  bytes buf -> (i / wb * wb + wb <= length buf)%nat ->
  byte (i mod wb) (dec buf (i / wb * wb)) = nth i buf 0.
Proof.
  intros Hb Hl. pose proof (byte_buf buf i 0 Hb) as P. rewrite !Nat.add_0_r in P. now apply P.
Qed.

(** A row of words, and the place of its last one. *)
Lemma last_word i k : (i < 16 * k)%nat -> (i / wb * wb + wb <= 16 * k)%nat.
Proof. intros H. destruct wb_cases as [[-> _]|[-> _]]; dlia. Qed.

Lemma final_length V buf W :
  length (FINAL_SMALL V buf W) = (4 * row_words)%nat /\ length (FINAL_BIG V buf W) = (8 * row_words)%nat.
Proof. rewrite final_small, final_big. now rewrite !length_map, !length_seq. Qed.

Lemma word_nth l i : Forall word_ok l -> word_ok (nth i l 0).
Proof. intros. apply Forall_nth'; [assumption|]. apply word_0. lia. Qed.

Lemma concat_words W : W_ok W -> Forall word_ok (concat W).
Proof. intros [_ F]. apply Forall_concat. eapply Forall_impl; [|exact F]. intros X HX. apply HX. Qed.

Lemma final_small_ok V buf W :
  length V = (4 * row_words)%nat -> Forall word_ok V -> bytes buf -> length buf = 192%nat -> W_ok W ->
  Forall word_ok (FINAL_SMALL V buf W) /\
  flat wb (FINAL_SMALL V buf W) = EchoSpec.final EchoSpec.small (flat wb V ++ buf) (state_bytes W).
Proof.
  intros HV FV Hb Hl HW. pose proof wb_row as (HR & Hwb & Hrw).
  assert (LV : (wb * length V = 64)%nat) by nia.
  split.
  - rewrite final_small. apply Forall_map_seq. intros u Hu. assert (u * wb + wb <= 64)%nat by nia.
    pose proof (concat_words W HW). unfold word_ok.
    repeat (apply lxor_word; [lia| |]); try (now apply word_nth); apply dec_word; (assumption || lia).
  - apply (nth_ext' _ _ 0).
    { rewrite length_flat, (proj1 (final_length _ _ _)). unfold EchoSpec.final.
      rewrite length_map, length_seq. cbn. nia. }
    rewrite length_flat, (proj1 (final_length _ _ _)). intros i Hi.
    replace (wb * (4 * row_words))%nat with 64%nat in Hi by nia.
    rewrite nth_flat, (proj1 (final_length _ _ _)), (proj2 (Nat.ltb_lt _ _)) by nia.
    pose proof (last_word i 4 Hi) as Hw. rewrite final_small, nth_map_seq by nia.
    rewrite !byte_lxor, byte_V by lia.
    rewrite byte_buf_0, !byte_buf, byte_part_0, !byte_part by (assumption || lia).
    unfold EchoSpec.final, EchoSpec.xor_at. rewrite nth_map_seq by (cbn; lia).
    cbn [EchoSpec.csize EchoSpec.small seq fold_left Nat.div Nat.divmod fst].
    rewrite (app_nth1 (flat wb V) buf) by (rewrite length_flat; lia).
    rewrite !app_nth2; rewrite length_flat, LV; [|lia..].
    replace (i + 64 * 1 - 64)%nat with i by lia.
    replace (i + 64 * 2 - 64)%nat with (i + 64)%nat by lia.
    replace (i + 64 * 3 - 64)%nat with (i + 128)%nat by lia.
    literal_products. rewrite !Nat.add_0_r. xor_sort.
Qed.

Lemma final_big_ok V buf W :
  length V = (8 * row_words)%nat -> Forall word_ok V -> bytes buf -> length buf = 128%nat -> W_ok W ->
  Forall word_ok (FINAL_BIG V buf W) /\
  flat wb (FINAL_BIG V buf W) = EchoSpec.final EchoSpec.big (flat wb V ++ buf) (state_bytes W).
Proof.
  intros HV FV Hb Hl HW. pose proof wb_row as (HR & Hwb & Hrw).
  assert (LV : (wb * length V = 128)%nat) by nia.
  split.
  - rewrite final_big. apply Forall_map_seq. intros u Hu. assert (u * wb + wb <= 128)%nat by nia.
    pose proof (concat_words W HW). unfold word_ok.
    repeat (apply lxor_word; [lia| |]); try (now apply word_nth); apply dec_word; (assumption || lia).
  - apply (nth_ext' _ _ 0).
    { rewrite length_flat, (proj2 (final_length _ _ _)). unfold EchoSpec.final.
      rewrite length_map, length_seq. cbn. nia. }
    rewrite length_flat, (proj2 (final_length _ _ _)). intros i Hi.
    replace (wb * (8 * row_words))%nat with 128%nat in Hi by nia.
    rewrite nth_flat, (proj2 (final_length _ _ _)), (proj2 (Nat.ltb_lt _ _)) by nia.
    pose proof (last_word i 8 Hi) as Hw. rewrite final_big, nth_map_seq by nia.
    rewrite !byte_lxor, byte_V by lia.
    rewrite byte_buf_0, byte_part_0, !byte_part by (assumption || lia).
    unfold EchoSpec.final, EchoSpec.xor_at. rewrite nth_map_seq by (cbn; lia).
    cbn [EchoSpec.csize EchoSpec.big seq fold_left Nat.div Nat.divmod fst].
    rewrite (app_nth1 (flat wb V) buf) by (rewrite length_flat; lia).
    rewrite !app_nth2; rewrite length_flat, LV; [|lia..].
    replace (i + 128 * 1 - 128)%nat with i by lia.
    literal_products. rewrite !Nat.add_0_r. xor_sort.
Qed.

Lemma COMPRESS_SMALL_ok fp C V buf :
  quad_ok C -> length V = (4 * row_words)%nat -> Forall word_ok V -> bytes buf -> length buf = 192%nat ->
  length (COMPRESS_SMALL fp C V buf) = (4 * row_words)%nat /\
  Forall word_ok (COMPRESS_SMALL fp C V buf) /\
  flat wb (COMPRESS_SMALL fp C V buf) =
    EchoSpec.compress EchoSpec.small (quad_val C) (flat wb V) buf.
Proof.
  intros HC HV FV Hb Hl. unfold COMPRESS_SMALL. rewrite input_small.
  change (map _ (seq 0 4) ++ _) with (input_rows 4 V buf).
  destruct (input_rows_ok 4 V buf) as [HW EW]; try assumption; [lia|].
  pose proof (rounds_ok fp 8 _ C HW HC) as R.
  destruct (fold_left _ _ _) as [W' K']. destruct R as [HW' E'].
  split; [apply final_length|]. destruct (final_small_ok V buf W') as [F1 F2]; try assumption.
  split; [assumption|]. rewrite F2, E', EW. reflexivity.
Qed.

Lemma COMPRESS_BIG_ok fp C V buf :
  quad_ok C -> length V = (8 * row_words)%nat -> Forall word_ok V -> bytes buf -> length buf = 128%nat ->
  length (COMPRESS_BIG fp C V buf) = (8 * row_words)%nat /\
  Forall word_ok (COMPRESS_BIG fp C V buf) /\
  flat wb (COMPRESS_BIG fp C V buf) =
    EchoSpec.compress EchoSpec.big (quad_val C) (flat wb V) buf.
Proof.
  intros HC HV FV Hb Hl. unfold COMPRESS_BIG. rewrite input_big.
  change (map _ (seq 0 8) ++ _) with (input_rows 8 V buf).
  destruct (input_rows_ok 8 V buf) as [HW EW]; try assumption; [lia|].
  pose proof (rounds_ok fp 10 _ C HW HC) as R.
  destruct (fold_left _ _ _) as [W' K']. destruct R as [HW' E'].
  split; [apply final_length|]. destruct (final_big_ok V buf W') as [F1 F2]; try assumption.
  split; [assumption|]. rewrite F2, E', EW. reflexivity.
Qed.
End Rounds.
