(* ===== verification/EchoMode.v ===== *)
(** * The mode of operation of echo.c

    Counter, padding, updates and close of echo.c, for any representation of
    the words that satisfies [EchoLaws]: a context that has absorbed a message
    holds the specification's chaining value and bit count, and closing it
    returns the digest of the message's bits.  Counters are modulo 2^128, as
    in the specification, so that no bound on the message is needed. *)

From Stdlib Require Import ZArith List Lia Bool.
From S2P Require Import Prelude BitStrings SphTypes Stream Aes AesProof Echo EchoSpec EchoProof.
Import ListNotations.

(** ** The counter *)

Lemma add_cases x v :
  word 32 x -> word 32 v ->
  (x + v) mod 2 ^ 32 = x + v /\ x + v < 2 ^ 32 \/
  (x + v) mod 2 ^ 32 = x + v - 2 ^ 32 /\ 2 ^ 32 <= x + v.
Proof. unfold word. change (2 ^ 32) with 4294967296. intros. dlia. Qed.

Lemma INCR_COUNTER_ok K v :
  quad_ok K -> word 32 v ->
  quad_ok (INCR_COUNTER K v) /\ quad_val (INCR_COUNTER K v) = (quad_val K + v) mod 2 ^ 128.
Proof.
  intros HK Hv. destruct K as [[[K0 K1] K2] K3]. unfold INCR_COUNTER.
  rewrite (trunc_id 32 v ltac:(lia) Hv), !SPH_T32_mod. destruct HK as (H0 & H1 & H2 & H3).
  destruct (add_cases K0 v H0 Hv) as [[E0 R0]|[E0 R0]]; rewrite E0.
  - rewrite (proj2 (Z.ltb_ge (K0 + v) v)) by (unfold word in *; lia).
    split; [|apply quad_val_mod]; unfold quad_ok, quad_val, word in *; lia.
  - rewrite (proj2 (Z.ltb_lt _ v)) by (unfold word in *; lia).
    destruct (incr_cases K1 H1) as [[E1 ->]|[E1 R1]]; rewrite E1; cbn [Z.eqb];
     [destruct (incr_cases K2 H2) as [[E2 ->]|[E2 R2]]; rewrite E2; cbn [Z.eqb];
      [destruct (incr_cases K3 H3) as [[E3 ->]|[E3 R3]]; rewrite E3|]|];
    rewrite ?(proj2 (Z.eqb_neq (K1 + 1) 0)), ?(proj2 (Z.eqb_neq (K2 + 1) 0)) by lia;
    (split; [|apply quad_val_mod]); unfold quad_ok, quad_val, word in *; lia.
Qed.

(** ** The specification modulo 2^128, and on bytes *)

Lemma rounds_mod n k s : EchoSpec.rounds n (k mod 2 ^ 128) s = EchoSpec.rounds n k s.
Proof.
  unfold EchoSpec.rounds. revert s. induction (seq 0 n) as [|r l IH]; intros s; [reflexivity|].
  cbn [fold_left]. rewrite <- big_round_mod, Zplus_mod_idemp_l, big_round_mod. apply IH.
Qed.

Lemma compress_mod v k V M :
  EchoSpec.compress v (k mod 2 ^ 128) V M = EchoSpec.compress v k V M.
Proof. unfold EchoSpec.compress. now rewrite rounds_mod. Qed.

Lemma byte_of_bits_byte b : word 8 b -> EchoSpec.byte_of_bits (byte_bits msb_first b) = b.
Proof.
  intros Hb. unfold word in Hb. apply Z.eqb_eq.
  pose proof (forallb_seq (fun i => EchoSpec.byte_of_bits (byte_bits msb_first (Z.of_nat i)) =? Z.of_nat i)
    256 ltac:(vm_compute; reflexivity) (Z.to_nat b) ltac:(lia)) as E.
  cbv beta in E. now rewrite Z2Nat.id in E by lia.
Qed.

Lemma bytes_of_bits_bytes b :
  bytes b -> EchoSpec.bytes_of_bits (EchoSpec.bits_of_bytes b) = b.
Proof.
  unfold EchoSpec.bytes_of_bits. induction 1 as [|x b Hx Hb IH]; [reflexivity|].
  rewrite bits_of_cons, chunks_cons by (reflexivity || lia). cbn [map].
  now rewrite IH, byte_of_bits_byte.
Qed.

Lemma compress_all_app v len i V a b :
  EchoSpec.compress_all v len i V (a ++ b) =
  EchoSpec.compress_all v len (i + length a) (EchoSpec.compress_all v len i V a) b.
Proof.
  revert i V. induction a as [|x a IH]; intros i V; cbn [app length EchoSpec.compress_all].
  - now rewrite Nat.add_0_r.
  - rewrite IH. f_equal. lia.
Qed.

(** ** A member of the family

    The two sizes of block differ by the compression function and the number
    of words of the chaining value. *)

Section Mode.
  Context {words : EchoWords} {laws : EchoLaws words}.
  Variable v : EchoSpec.variant.
  Variable comp : quad -> list Z -> list Z -> list Z.
  Variable V_init : Z -> list Z.
  Abbreviation size := (EchoSpec.msize v).

(** A chaining value. *)
Definition V_ok (V : list Z) : Prop :=
  length V = (EchoSpec.csize v / 16 * row_words)%nat /\ Forall word_ok V.

  Hypothesis v_cases : v = EchoSpec.small \/ v = EchoSpec.big.
  Hypothesis comp_firstn : forall C V buf, comp C V buf = comp C V (firstn size buf).
  Hypothesis comp_ok : forall C V buf,
    quad_ok C -> V_ok V -> bytes buf -> length buf = size ->
    V_ok (comp C V buf) /\ flat wb (comp C V buf) = EchoSpec.compress v (quad_val C) (flat wb V) buf.
  Hypothesis V_init_ok : forall d, 0 <= d < 2 ^ 32 ->
    V_ok (V_init d) /\ flat wb (V_init d) = concat (repeat (le_store 16 d) (EchoSpec.csize v / 16)).

(** The functions of the code, for this member. *)
Definition block (buf : list Z) (st : list Z * quad) : list Z * quad :=
  let '(V, C) := st in
  let C := INCR_COUNTER C (8 * Z.of_nat size) in
  (comp C V buf, C).
Definition compress (sc : echo_context) : echo_context :=
  {| buf := buf sc; ptr := ptr sc; u := comp (C sc) (u sc) (buf sc); C := C sc |}.
Definition init (sc : echo_context) (d : Z) : echo_context :=
  {| buf := buf sc; ptr := 0; u := V_init d; C := (0, 0, 0, 0) |}.

Lemma size_cases : (size = 192 \/ size = 128)%nat.
Proof. destruct v_cases as [E|E]; rewrite E; auto. Qed.

Lemma size_pos : (0 < size)%nat.
Proof. destruct size_cases as [-> | ->]; lia. Qed.

Lemma block_firstn b st : block b st = block (firstn size b) st.
Proof. destruct st as [V K]. unfold block. now rewrite comp_firstn. Qed.

(** The counter of a full block of the message. *)
Lemma counter_full len i :
  8 * Z.of_nat size * (Z.of_nat i + 1) <= len ->
  EchoSpec.counter v len i = 8 * Z.of_nat size * (Z.of_nat i + 1).
Proof.
  intros H. unfold EchoSpec.counter. cbv zeta.
  destruct size_cases as [E|E]; rewrite E in H |- *; rewrite (proj2 (Z.ltb_lt _ _)) by lia; lia.
Qed.

Lemma blocks_ok blocks V K i len :
  V_ok V -> quad_ok K -> quad_val K = (8 * Z.of_nat size * Z.of_nat i) mod 2 ^ 128 ->
  Forall (fun b => bytes b /\ length b = size) blocks ->
  8 * Z.of_nat size * Z.of_nat (i + length blocks) <= len ->
  let '(V', K') := fold_left (fun st b => block b st) blocks (V, K) in
  V_ok V' /\ quad_ok K' /\
  quad_val K' = (8 * Z.of_nat size * Z.of_nat (i + length blocks)) mod 2 ^ 128 /\
  flat wb V' =
    EchoSpec.compress_all v len i (flat wb V) (map EchoSpec.bits_of_bytes blocks).
Proof.
  intros HV HK VK HF Hlen. revert V K i HV HK VK Hlen.
  induction HF as [|b bs [Hb Hl] _ IH]; intros V K i HV HK VK Hlen.
  - cbn. now rewrite Nat.add_0_r.
  - cbn [fold_left map EchoSpec.compress_all length] in *. unfold block at 2.
    assert (Hs : word 32 (8 * Z.of_nat size)) by (unfold word; destruct size_cases as [-> | ->]; lia).
    destruct (INCR_COUNTER_ok K _ HK Hs) as [HK1 VK1].
    set (K1 := INCR_COUNTER K _) in *.
    assert (VK2 : quad_val K1 = (8 * Z.of_nat size * Z.of_nat (S i)) mod 2 ^ 128)
      by (rewrite VK1, VK, Zplus_mod_idemp_l; f_equal; lia).
    destruct (comp_ok K1 V b HK1 HV Hb Hl) as [HV1 E1].
    specialize (IH _ K1 (S i) HV1 HK1 VK2 ltac:(rewrite Nat.add_succ_comm; exact Hlen)).
    destruct (fold_left _ bs _) as [V' K']. rewrite <- Nat.add_succ_comm.
    destruct IH as (? & ? & ? & ->). splits; try assumption.
    rewrite bytes_of_bits_bytes by assumption. f_equal.
    rewrite counter_full by lia. rewrite E1, VK2, compress_mod. f_equal. lia.
Qed.

(** ** Updates *)

(** The context [sc] has absorbed [msg], for a digest of [d] bits. *)
Definition C_zero : quad := (0, 0, 0, 0).
Definition echo_absorbed (d : Z) (msg : list Z) (sc : echo_context) : Prop :=
  length (buf sc) = size /\
  absorbed size block (V_init d, C_zero) msg (Bctx (buf sc) (ptr sc) (u sc, C sc)).

Lemma echo_chunks_bytes msg :
  bytes msg -> Forall (fun b => bytes b /\ length b = size) (chunks size msg).
Proof.
  intros Hm. apply Forall_forall. intros b Hb. split.
  - now apply (chunks_Forall _ size msg).
  - now apply (chunks_lengths size msg).
Qed.

Lemma echo_absorbed_state d msg sc len :
  0 <= d < 2 ^ 32 -> bytes msg -> echo_absorbed d msg sc -> 8 * Z.of_nat (length msg) <= len ->
  V_ok (u sc) /\ quad_ok (C sc) /\
  quad_val (C sc) = (8 * Z.of_nat size * Z.of_nat (length msg / size)) mod 2 ^ 128 /\
  flat wb (u sc) = EchoSpec.compress_all v len 0 (flat wb (V_init d))
    (chunks (8 * size) (EchoSpec.bits_of_bytes msg)).
Proof.
  intros Hd Hm (_ & _ & _ & _ & E) Hlen. cbn [b_st] in E. destruct (V_init_ok d Hd) as [HV _].
  pose proof size_pos as Hs.
  pose proof (blocks_ok (chunks size msg) (V_init d) C_zero 0 len HV quad_zero_ok) as B.
  rewrite <- E, length_chunks in B by assumption. cbn [Nat.add] in B. rewrite bits_of_chunks by assumption.
  apply B; [now rewrite Z.mul_0_r|now apply echo_chunks_bytes|].
  pose proof (Nat.Div0.mul_div_le (length msg) size).
  rewrite <- Z.mul_assoc, <- Nat2Z.inj_mul by assumption. lia.
Qed.

Lemma echo_init_absorbed sc d : length (buf sc) = size -> echo_absorbed d [] (init sc d).
Proof. intros Hb. split; [assumption|]. apply absorbed_init; [apply size_pos|]. cbn [init buf]. lia. Qed.

Lemma echo_core_absorbed d msg data sc :
  echo_absorbed d msg sc ->
  exists sc', core size block sc data = Some sc' /\ echo_absorbed d (msg ++ data) sc'.
Proof.
  intros (Hb & Ha). pose proof size_pos as Hs.
  pose proof (absorbed_ok size block Hs _ _ _ Ha) as Hok.
  destruct (absorb_absorbed size block block_firstn Hs _ _ _ data Ha) as (c' & E & Ha' & Hl').
  unfold core. destruct (Nat.ltb_spec (length data) (size - ptr sc)) as [Hd|Hd].
  - unfold absorb in E. cbn [b_ptr b_buf b_st] in E. rewrite (proj2 (Nat.ltb_lt _ _) Hd) in E.
    destruct (memcpy_at (buf sc) (ptr sc) data) as [b|]; [|discriminate]. injection E as <-.
    eexists. split; [reflexivity|]. cbn [b_buf] in Hl'. split; [cbn [buf]; lia|exact Ha'].
  - rewrite absorb_loop_eq in E by assumption. rewrite E. eexists. split; [reflexivity|].
    cbn [b_buf] in Hl'. split; [cbn [buf]; lia|]. destruct c' as [b' p' [s' n']]. exact Ha'.
Qed.

(** ** Padding *)

Definition pad_zeros (len : nat) : nat :=
  let p := (len mod size + 1)%nat in
  (if size - 18 <? p then size - p + (size - 18) else size - 18 - p)%nat.

(** The bytes after the message, of which [n] bits of [ub] are a part. *)
Definition padding (d : nat) (ub n : Z) (len : nat) : list Z :=
  [last_byte ub n] ++ repeat 0 (pad_zeros len) ++
  le_store 2 (Z.of_nat d) ++ le_store 16 (8 * Z.of_nat len + n).

Lemma echo_padding_pad d ub n msg :
  (n < 8)%nat ->
  EchoSpec.bits_of_bytes (msg ++ padding d ub (Z.of_nat n) (length msg)) =
  EchoSpec.pad v d (EchoSpec.bits_of_bytes msg ++ extra_bits ub n).
Proof.
  intros Hn. unfold padding, EchoSpec.pad. rewrite !bits_of_app, bits_of_cons,
    bits_of_zeros, last_byte_bits by (assumption || apply msb_first_0).
  change (EchoSpec.bits_of_bytes []) with (@nil bool). rewrite app_nil_r, <- !app_assoc.
  do 2 f_equal. cbn [app]. f_equal. rewrite length_app, length_bits_of.
  unfold extra_bits. rewrite length_map, length_seq. rewrite app_assoc, <- repeat_app.
  f_equal; [f_equal|do 3 f_equal; lia]. unfold pad_zeros.
  destruct size_cases as [E|E]; rewrite E;
    match goal with |- context [(?a <? ?b)%nat] => destruct (Nat.ltb_spec a b) end; dlia.
Qed.

(** ** The end of the computation *)

(** [u.tmp] receives the counter. *)
Lemma store_counter p stack C0 C1 C2 C3 :
  platform_ok p = true -> quad_ok (C0, C1, C2, C3) -> (16 <= length stack)%nat ->
  exists t1 t2 t3 t4,
    memcpy_at stack 0 (sph_enc32le_aligned p C0) = Some t1 /\
    memcpy_at t1 4 (sph_enc32le_aligned p C1) = Some t2 /\
    memcpy_at t2 8 (sph_enc32le_aligned p C2) = Some t3 /\
    memcpy_at t3 12 (sph_enc32le_aligned p C3) = Some t4 /\
    length t4 = length stack /\ firstn 16 t4 = le_store 16 (quad_val (C0, C1, C2, C3)).
Proof.
  intros Hp HC Hl. rewrite <- quad_bytes_val by assumption. destruct HC as (H0 & H1 & H2 & H3).
  rewrite !sph_enc32le_aligned_store by assumption. unfold quad_bytes.
  pose proof (length_le_store 4 C0) as L0. pose proof (length_le_store 4 C1) as L1.
  pose proof (length_le_store 4 C2) as L2. pose proof (length_le_store 4 C3) as L3.
  set (e0 := le_store 4 C0) in *. set (e1 := le_store 4 C1) in *.
  set (e2 := le_store 4 C2) in *. set (e3 := le_store 4 C3) in *.
  assert (S : forall e, length e = 16%nat ->
    memcpy_at stack 0 e = Some (e ++ skipn 16 stack)) by (intros; now rewrite memcpy_at_Some; [rewrite H|lia]).
  destruct (memcpy_at stack 0 e0) as [t1|] eqn:E1; [|rewrite memcpy_at_Some in E1 by lia; discriminate].
  pose proof (memcpy_at_app _ _ _ _ e1 E1) as A1. rewrite L0 in A1.
  destruct (memcpy_at stack 0 (e0 ++ e1)) as [t2|] eqn:E2;
    [|rewrite memcpy_at_Some in E2 by (rewrite length_app; lia); discriminate].
  pose proof (memcpy_at_app _ _ _ _ e2 E2) as A2. rewrite length_app, L0, L1 in A2.
  destruct (memcpy_at stack 0 ((e0 ++ e1) ++ e2)) as [t3|] eqn:E3;
    [|rewrite memcpy_at_Some in E3 by (rewrite !length_app; lia); discriminate].
  pose proof (memcpy_at_app _ _ _ _ e3 E3) as A3. rewrite !length_app, L0, L1, L2 in A3.
  assert (L : length (e0 ++ e1 ++ e2 ++ e3) = 16%nat) by (rewrite !length_app; lia).
  rewrite <- !app_assoc, (S _ L) in A3.
  cbn [Nat.add] in A1, A2, A3.
  exists t1, t2, t3, (e0 ++ e1 ++ e2 ++ e3 ++ skipn 16 stack). splits; auto.
  - rewrite !length_app, length_skipn. lia.
Qed.

(** The byte that ends the message, and zeros up to the end of the buffer. *)
Lemma store_last b p x :
  length b = size -> (p < size)%nat ->
  exists b1, memcpy_at b p [x] = Some b1 /\
    memset_at b1 (p + 1) 0 (size - (p + 1)) = Some (firstn p b ++ [x] ++ repeat 0 (size - (p + 1))).
Proof.
  intros Hb Hp. destruct (memcpy_at b p [x]) as [b1|] eqn:E;
    [|rewrite memcpy_at_Some in E by (cbn; lia); discriminate].
  exists b1. split; [reflexivity|]. unfold memset_at.
  pose proof (memcpy_at_app _ _ _ _ (repeat 0 (size - (p + 1))) E) as A. cbn [length] in A.
  rewrite A. apply memcpy_at_end. rewrite length_app, repeat_length. cbn [length]. lia.
Qed.

(** The size of the digest and the length of the message, at the end of the block. *)
Lemma store_tail (b e t : list Z) :
  length b = size -> length e = 2%nat -> length t = 16%nat ->
  exists b1, memcpy_at b (size - 18) e = Some b1 /\
    memcpy_at b1 (size - 16) t = Some (firstn (size - 18) b ++ e ++ t).
Proof.
  intros Hb He Ht. assert (18 <= size)%nat by (destruct size_cases as [-> | ->]; lia).
  destruct (memcpy_at b (size - 18) e) as [b1|] eqn:E;
    [|rewrite memcpy_at_Some in E by lia; discriminate].
  exists b1. split; [reflexivity|]. pose proof (memcpy_at_app _ _ _ _ t E) as A.
  replace (size - 18 + length e)%nat with (size - 16)%nat in A by lia. rewrite A.
  apply memcpy_at_end. rewrite length_app. lia.
Qed.

Lemma chunks_one (b : list Z) : length b = size -> chunks size b = [b].
Proof.
  intros H. rewrite <- (app_nil_r b) at 1. rewrite chunks_cons by (assumption || apply size_pos).
  now rewrite chunks_short by apply size_pos.
Qed.

(** The blocks that are left after those of the message. *)
Definition final_blocks (x : Z) (rem e t : list Z) : list (list Z) :=
  let p := (length rem + 1)%nat in
  if (size - 18 <? p)%nat
  then [rem ++ [x] ++ repeat 0 (size - p); repeat 0 (size - 18) ++ e ++ t]
  else [rem ++ [x] ++ repeat 0 (size - 18 - p) ++ e ++ t].

Lemma chunks_padding d ub n msg :
  chunks size (remainder size msg ++ padding d ub n (length msg)) =
  final_blocks (last_byte ub n) (remainder size msg) (le_store 2 (Z.of_nat d))
    (le_store 16 (8 * Z.of_nat (length msg) + n)).
Proof.
  pose proof size_pos as Hs. pose proof (length_remainder size msg Hs) as Hl.
  pose proof (Nat.mod_upper_bound (length msg) size ltac:(lia)) as Hr.
  assert (18 <= size)%nat by (destruct size_cases as [-> | ->]; lia).
  unfold final_blocks, padding, pad_zeros. rewrite <- Hl in *.
  set (rem := remainder size msg) in *. set (e := le_store 2 _). set (t := le_store 16 _).
  assert (Le : length e = 2%nat) by apply length_le_store.
  assert (Lt : length t = 16%nat) by apply length_le_store.
  destruct (Nat.ltb_spec (size - 18) (length rem + 1)).
  - rewrite repeat_app, <- !app_assoc, (app_assoc [_]), (app_assoc rem).
    rewrite chunks_cons; [|assumption|rewrite !length_app, repeat_length; cbn [length]; lia].
    rewrite <- (app_nil_r t), chunks_one; rewrite ?app_nil_r; auto.
    rewrite !length_app, repeat_length. lia.
  - rewrite chunks_one; auto. rewrite !length_app, repeat_length. cbn [length]. lia.
Qed.

(** What [close] computes from the buffer [rem ++ [x] ++ zeros]. *)
Definition final_value (K : quad) (V : list Z) (x : Z) (rem e t : list Z) : list Z :=
  let p := (length rem + 1)%nat in
  if (size - 18 <? p)%nat
  then comp C_zero (comp K V (rem ++ [x] ++ repeat 0 (size - p))) (repeat 0 (size - 18) ++ e ++ t)
  else comp K V (rem ++ [x] ++ repeat 0 (size - 18 - p) ++ e ++ t).

Lemma final_value_ok K V x rem e t len i :
  quad_ok K -> V_ok V -> bytes rem -> word 8 x -> bytes e -> bytes t -> (length rem < size)%nat ->
  length e = 2%nat -> length t = 16%nat ->
  quad_val K = EchoSpec.counter v len i mod 2 ^ 128 -> EchoSpec.counter v len (S i) = 0 ->
  V_ok (final_value K V x rem e t) /\
  flat wb (final_value K V x rem e t) =
    EchoSpec.compress_all v len i (flat wb V) (map EchoSpec.bits_of_bytes (final_blocks x rem e t)).
Proof.
  intros HK HV Hr Hx He Ht Hl Le Lt VK VS. unfold final_value, final_blocks.
  assert (18 <= size)%nat by (destruct size_cases as [-> | ->]; lia).
  assert (B : forall n, bytes (repeat 0 n)) by (intros; apply Forall_repeat'; now apply word_0).
  assert (Bx : bytes [x]) by (constructor; [assumption|constructor]).
  destruct (Nat.ltb_spec (size - 18) (length rem + 1));
    cbn [map EchoSpec.compress_all]; rewrite !bytes_of_bits_bytes by (repeat (apply Forall_app; split); (assumption || apply B)).
  - destruct (comp_ok K V (rem ++ [x] ++ repeat 0 (size - (length rem + 1)))) as [V1 E1]; try assumption.
    { repeat (apply Forall_app; split); (assumption || apply B). }
    { rewrite !length_app, repeat_length. cbn [length]. lia. }
    destruct (comp_ok C_zero _ (repeat 0 (size - 18) ++ e ++ t) quad_zero_ok V1) as [V2 E2].
    { repeat (apply Forall_app; split); (assumption || apply B). }
    { rewrite !length_app, repeat_length. lia. }
    split; [assumption|]. rewrite E2, E1, VK, VS, compress_mod. exact eq_refl.
  - destruct (comp_ok K V (rem ++ [x] ++ repeat 0 (size - 18 - (length rem + 1)) ++ e ++ t)) as [V1 E1]; try assumption.
    { repeat (apply Forall_app; split); (assumption || apply B). }
    { rewrite !length_app, repeat_length. cbn [length]. lia. }
    split; [assumption|]. rewrite E1, VK, compress_mod. exact eq_refl.
Qed.

(** The number of bits in the buffer. *)
Lemma elen_ok p n :
  (p < size)%nat -> (n < 8)%nat ->
  trunc 32 (shl 32 (Z.of_nat p) 3 + Z.of_nat n) = 8 * Z.of_nat p + Z.of_nat n /\
  word 32 (8 * Z.of_nat p + Z.of_nat n).
Proof.
  intros Hp Hn. unfold shl. rewrite Z.shiftl_mul_pow2 by lia.
  assert (W : word 32 (8 * Z.of_nat p + Z.of_nat n))
    by (unfold word; destruct size_cases as [E|E]; rewrite E in Hp; lia).
  split; [|assumption]. change (2 ^ 3) with 8. unfold word in *.
  rewrite (trunc_id 32 (_ * 8)) by (unfold word; lia). rewrite trunc_id; unfold word; lia.
Qed.

(** The counter of the last block of the message, and of a block after it. *)
Lemma counter_last q p n :
  (p < size)%nat -> 0 <= n < 8 ->
  let len := 8 * Z.of_nat size * Z.of_nat q + (8 * Z.of_nat p + n) in
  EchoSpec.counter v len q = (if 8 * Z.of_nat p + n =? 0 then 0 else len) /\
  EchoSpec.counter v len (S q) = 0.
Proof.
  intros Hp Hn len. unfold EchoSpec.counter. cbv zeta. subst len. split.
  - destruct (Z.eqb_spec (8 * Z.of_nat p + n) 0) as [E|E].
    + rewrite (proj2 (Z.ltb_ge _ _)) by lia. reflexivity.
    + rewrite (proj2 (Z.ltb_lt _ _)) by lia. nia.
  - rewrite (proj2 (Z.ltb_ge _ _)) by nia. reflexivity.
Qed.

Lemma shl5 w : Z.of_nat w << 5 = Z.of_nat (32 * w).
Proof. rewrite Z.shiftl_mul_pow2 by lia. change (2 ^ 5) with 32. lia. Qed.

Lemma enc16_ok w : sph_enc16le (Z.of_nat w << 5) = le_store 2 (Z.of_nat (32 * w)).
Proof. rewrite shl5. reflexivity. Qed.

(** The sizes of the digests of this member, in words of 32 bits. *)
Definition out_ok (w : nat) : Prop :=
  (4 * w <= EchoSpec.csize v /\ 4 * (w + w mod 2) <= EchoSpec.csize v / 2)%nat.

Lemma encode_room w V (stack : list Z) :
  out_ok w -> V_ok V -> length stack = (EchoSpec.csize v / 2)%nat ->
  (wb * ((4 * w + wb - 1) / wb) <= length stack)%nat /\ (4 * w <= wb * length V)%nat /\
  (16 <= length stack)%nat.
Proof.
  intros [H1 H2] [HL _] ->. rewrite HL.
  destruct v_cases as [E|E]; rewrite E in *; cbn [EchoSpec.csize EchoSpec.small EchoSpec.big] in *;
    destruct wb_cases as [[-> ->]|[-> ->]]; splits; dlia.
Qed.

(** The output, from the value after the last block. *)
Lemma encode_hash ub n w msg V tmp sc :
  let d := (32 * w)%nat in
  let len := 8 * Z.of_nat (length msg) + Z.of_nat n in
  out_ok w -> EchoSpec.variant_of d = v -> (n < 8)%nat -> length tmp = (EchoSpec.csize v / 2)%nat ->
  0 <= Z.of_nat d < 2 ^ 32 -> length (buf sc) = size -> V_ok V ->
  flat wb V =
    EchoSpec.compress_all v len (length msg / size)
      (EchoSpec.compress_all v len 0 (flat wb (V_init (Z.of_nat d)))
         (chunks (8 * size) (EchoSpec.bits_of_bytes msg)))
      (map EchoSpec.bits_of_bytes (final_blocks (last_byte ub (Z.of_nat n)) (remainder size msg)
         (le_store 2 (Z.of_nat d)) (le_store 16 len))) ->
  exists out sc',
    (let* tmp := encode_VV w V tmp in
     Some (firstn (4 * w) tmp, init sc (Z.of_nat w << 5))) = Some (out, sc') /\
    EchoSpec.bits_of_bytes out = EchoSpec.hash d (EchoSpec.bits_of_bytes msg ++ extra_bits ub n) /\
    bytes out /\ length out = (4 * w)%nat /\ length (buf sc') = size /\ init sc' (Z.of_nat d) = sc'.
Proof.
  intros d len Hw Hv Hn Ht Hd Hb HV E. destruct (encode_room w V tmp Hw HV Ht) as (R1 & R2 & _).
  pose proof size_pos as Hs. destruct (encode_ok w V tmp R1 R2 (proj2 HV)) as (tmp' & -> & _ & Ft).
  eexists _, _. split; [reflexivity|]. rewrite Ft. splits.
  - rewrite bits_of_firstn, E. unfold EchoSpec.hash. rewrite Hv.
    replace (8 * (4 * w))%nat with d by (subst d; lia). f_equal. rewrite <- echo_padding_pad by assumption.
    rewrite (bits_of_chunks _ size msg), (bits_of_chunks _ size (msg ++ _)) by assumption.
    rewrite chunks_app, map_app, compress_all_app, chunks_padding by assumption.
    rewrite length_map, length_chunks, (proj2 (V_init_ok _ Hd)).
    replace (Z.of_nat (length (EchoSpec.bits_of_bytes msg ++ extra_bits ub n))) with len.
    2: { unfold extra_bits. rewrite length_app, length_bits_of, length_map, length_seq. subst len. lia. }
    reflexivity.
  - apply Forall_firstn', bytes_flat.
  - rewrite length_firstn, length_flat. lia.
  - assumption.
  - unfold init. cbn [buf]. now rewrite shl5.
Qed.

Lemma close_hash p stack sc ub n w msg :
  platform_ok p = true -> out_ok w -> EchoSpec.variant_of (32 * w) = v -> (n < 8)%nat ->
  length stack = (EchoSpec.csize v / 2)%nat -> bytes msg ->
  echo_absorbed (Z.of_nat (32 * w)) msg sc ->
  exists out sc',
    close p size compress init stack sc ub (Z.of_nat n) w = Some (out, sc') /\
    EchoSpec.bits_of_bytes out =
      EchoSpec.hash (32 * w) (EchoSpec.bits_of_bytes msg ++ extra_bits ub n) /\
    bytes out /\ length out = (4 * w)%nat /\ length (buf sc') = size /\ init sc' (Z.of_nat (32 * w)) = sc'.
Proof.
  intros Hp Hw Hv Hn Hst Hm Ha. pose proof size_pos as Hs.
  set (d := (32 * w)%nat) in *. set (len := 8 * Z.of_nat (length msg) + Z.of_nat n).
  assert (Hd : 0 <= Z.of_nat d < 2 ^ 32) by
    (destruct Hw as [Hw _]; subst d; destruct v_cases as [E|E]; rewrite E in Hw; cbn in Hw; lia).
  destruct (echo_absorbed_state _ msg sc len Hd Hm Ha ltac:(subst len; lia)) as (HV & HK & VK & EV).
  destruct Ha as (Hb & _ & Ep & Er & _). cbn [b_ptr b_buf] in Ep, Er.
  pose proof (length_remainder size msg Hs) as Lr. rewrite <- Ep in Lr.
  assert (Hptr : (ptr sc < size)%nat) by (rewrite Ep; apply Nat.mod_upper_bound; lia).
  assert (Elen : len = 8 * Z.of_nat size * Z.of_nat (length msg / size) +
                       (8 * Z.of_nat (ptr sc) + Z.of_nat n)).
  { subst len. rewrite Ep. pose proof (Nat.div_mod_eq (length msg) size). nia. }
  destruct (elen_ok _ _ Hptr Hn) as [EE HE].
  destruct (INCR_COUNTER_ok _ _ HK HE) as [HK1 VK1].
  destruct (counter_last (length msg / size) (ptr sc) (Z.of_nat n) Hptr ltac:(lia)) as [CL CS].
  rewrite <- Elen in CL, CS.
  unfold close. rewrite EE. destruct (INCR_COUNTER (C sc) _) as [[[C0 C1] C2] C3].
  rewrite VK, Zplus_mod_idemp_l, <- Elen in VK1.
  destruct (store_counter p stack C0 C1 C2 C3 Hp HK1) as (t1 & t2 & t3 & t4 & -> & -> & -> & -> & L4 & F4).
  { apply (encode_room w _ stack Hw HV Hst). }
  change (((ub .& trunc 32 (- (0x80 >> Z.of_nat n))) .| (0x80 >> Z.of_nat n)) .& 0xFF)
    with (last_byte ub (Z.of_nat n)). cbv zeta.
  set (K := if _ =? 0 then _ else _).
  assert (HK2 : quad_ok K) by (subst K; destruct (_ =? 0); [exact quad_zero_ok|assumption]).
  assert (VK2 : quad_val K = EchoSpec.counter v len (length msg / size) mod 2 ^ 128)
    by (rewrite CL; subst K; destruct (_ =? 0); [reflexivity|assumption]).
  destruct (store_last (buf sc) (ptr sc) (last_byte ub (Z.of_nat n)) Hb Hptr) as (b1 & -> & ->).
  rewrite VK1 in F4. rewrite (le_store_mod 16) in F4. rewrite enc16_ok, F4. fold d.
  set (e := le_store 2 (Z.of_nat d)). set (t := le_store 16 len).
  assert (Le : length e = 2%nat) by apply length_le_store.
  assert (Lt : length t = 16%nat) by apply length_le_store.
  destruct (final_value_ok K (u sc) (last_byte ub (Z.of_nat n)) (remainder size msg) e t len
              (length msg / size) HK2 HV) as [FV FE];
    try assumption; try apply bytes_le_store; [|apply last_byte_word|lia|].
  { now apply Forall_skipn'. }
  rewrite Er. set (x := last_byte ub (Z.of_nat n)) in *. set (rem := remainder size msg) in *.
  assert (Lb : length (rem ++ [x] ++ repeat 0 (size - (ptr sc + 1))) = size)
    by (rewrite !length_app, repeat_length; cbn [length]; lia).
  unfold final_value in FV, FE. rewrite Lr in FV, FE.
  rewrite EV in FE. assert (L4' : length t4 = (EchoSpec.csize v / 2)%nat) by congruence.
  assert (Hz : (18 <= size)%nat) by (destruct size_cases as [-> | ->]; lia).
  destruct (Nat.ltb_spec (size - 18) (ptr sc + 1)) as [H2|H1]; cbn [compress buf ptr u C].
  - unfold memset_at. rewrite memcpy_at_end by (rewrite repeat_length; lia). cbn [firstn app].
    cbn [buf u C ptr]. destruct (store_tail (repeat 0 size) e t (repeat_length _ _) Le Lt) as (b2 & -> & ->).
    rewrite firstn_zeros by lia. apply (encode_hash ub n w msg); try assumption.
    cbn [buf compress]. rewrite !length_app, repeat_length. lia.
  - destruct (store_tail _ e t Lb Le Lt) as (b2 & -> & ->).
    assert (EB : firstn (size - 18) (rem ++ [x] ++ repeat 0 (size - (ptr sc + 1))) ++ e ++ t =
                 rem ++ [x] ++ repeat 0 (size - 18 - (ptr sc + 1)) ++ e ++ t).
    { rewrite (app_assoc rem [x]), firstn_app, firstn_all2, length_app
        by (rewrite length_app; cbn [length]; lia).
      rewrite Lr. cbn [length]. rewrite firstn_zeros by lia. now rewrite <- !app_assoc. }
    rewrite EB. apply (encode_hash ub n w msg); try assumption.
    cbn [buf compress]. rewrite !length_app, repeat_length. cbn [length]. lia.
Qed.

(** ** A whole computation *)

Definition echo_updates (sc : echo_context) (pieces : list (list Z)) : option echo_context :=
  fold_left (fun sc data => let* sc := sc in core size block sc data) pieces (Some sc).

Lemma echo_updates_absorbed d msg pieces sc :
  echo_absorbed d msg sc ->
  exists sc', echo_updates sc pieces = Some sc' /\ echo_absorbed d (msg ++ concat pieces) sc'.
Proof.
  revert msg sc. induction pieces as [|data pieces IH]; intros msg sc Ha.
  - exists sc. cbn. now rewrite app_nil_r.
  - destruct (echo_core_absorbed d msg data sc Ha) as (sc1 & E & Ha1).
    destruct (IH (msg ++ data) sc1 Ha1) as (sc2 & E2 & Ha2).
    exists sc2. unfold echo_updates in *. cbn [fold_left concat]. rewrite E, app_assoc. auto.
Qed.

Lemma echo_whole p stack sc ub n w pieces :
  platform_ok p = true -> out_ok w -> EchoSpec.variant_of (32 * w) = v -> (n < 8)%nat ->
  length stack = (EchoSpec.csize v / 2)%nat -> length (buf sc) = size -> Forall bytes pieces ->
  exists sc1 out sc2,
    echo_updates (init sc (Z.of_nat (32 * w))) pieces = Some sc1 /\
    close p size compress init stack sc1 ub (Z.of_nat n) w = Some (out, sc2) /\
    EchoSpec.bits_of_bytes out =
      EchoSpec.hash (32 * w) (EchoSpec.bits_of_bytes (concat pieces) ++ extra_bits ub n) /\
    bytes out /\ length out = (4 * w)%nat /\ length (buf sc2) = size /\
    init sc2 (Z.of_nat (32 * w)) = sc2.
Proof.
  intros Hp Hw Hv Hn Hst Hb HF.
  destruct (echo_updates_absorbed _ [] pieces _ (echo_init_absorbed sc (Z.of_nat (32 * w)) Hb))
    as (sc1 & E1 & Ha). cbn [app] in Ha.
  destruct (close_hash p stack sc1 ub n w (concat pieces) Hp Hw Hv Hn Hst)
    as (out & sc2 & E2 & R); [now apply Forall_concat|assumption|].
  exists sc1, out, sc2. auto.
Qed.
End Mode.
