(* ===== verification/EchoLanes.v ===== *)
(** * Both word sizes of echo.c keep the interface

    Instances of [EchoLaws] for the 64-bit words ([Wide]) and the 32-bit words
    ([Narrow]) of echo.c, on a machine of any byte order.  The words are
    little-endian: their bytes are those of the state. *)

From Stdlib Require Import ZArith List Lia Bool Btauto.
From S2P Require Import Prelude BitStrings SphTypes Stream Aes EchoSpec AesProof Echo EchoProof.
Import ListNotations.

(** ** Multiplication of the bytes of a word by x *)

(** A product by 27 = 1 + 2 + 8 + 16 has no carry if the bits of the factor are eight apart. *)
Definition bits_apart (y : Z) : Prop :=
  0 <= y /\ forall n, 0 <= n -> Z.testbit y n = true -> n mod 8 = 0.

Lemma shifted_apart y a b :
  bits_apart y -> 0 <= a < b -> b < 8 ->
  forall n, 0 <= n -> Z.testbit (Z.shiftl y a) n = true -> Z.testbit (Z.shiftl y b) n = false.
Proof.
  intros [H0 H] Hab Hb n Hn Ha. rewrite shiftl_testbit in Ha |- * by lia.
  destruct (Z.leb_spec a n); [|discriminate]. destruct (Z.leb_spec b n); [|reflexivity].
  destruct (Z.testbit y (n - b)) eqn:E; [|reflexivity]. cbn [andb] in *.
  apply H in Ha; [|lia]. apply H in E; [|lia]. exfalso. dlia.
Qed.

Lemma mul27 y :
  bits_apart y ->
  y * 27 = Z.shiftl y 0 .^ Z.shiftl y 1 .^ Z.shiftl y 3 .^ Z.shiftl y 4.
Proof.
  intros Hy. assert (D : forall a b n, 0 <= a < b -> b < 8 -> 0 <= n ->
    Z.testbit (Z.shiftl y a) n && Z.testbit (Z.shiftl y b) n = false).
  { intros a b n Hab Hb Hn. destruct (Z.testbit (Z.shiftl y a) n) eqn:E; [|reflexivity].
    now rewrite (shifted_apart y a b Hy Hab Hb n Hn E). }
  replace (y * 27) with (Z.shiftl y 0 + Z.shiftl y 1 + Z.shiftl y 3 + Z.shiftl y 4)
    by (rewrite !Z.shiftl_mul_pow2 by lia; lia).
  rewrite (Z.add_nocarry_lxor (Z.shiftl y 0)), (Z.add_nocarry_lxor (_ .^ _)),
    (Z.add_nocarry_lxor (_ .^ _ .^ _)); [reflexivity|..];
    apply Z.bits_inj'; intros n Hn; rewrite !Z.land_spec, ?Z.lxor_spec, Z.testbit_0_l;
    pose proof (D 0 1 n ltac:(lia) ltac:(lia) Hn); pose proof (D 0 3 n ltac:(lia) ltac:(lia) Hn);
    pose proof (D 0 4 n ltac:(lia) ltac:(lia) Hn); pose proof (D 1 3 n ltac:(lia) ltac:(lia) Hn);
    pose proof (D 1 4 n ltac:(lia) ltac:(lia) Hn); pose proof (D 3 4 n ltac:(lia) ltac:(lia) Hn);
    destruct (Z.testbit (Z.shiftl y 0) n), (Z.testbit (Z.shiftl y 1) n),
      (Z.testbit (Z.shiftl y 3) n), (Z.testbit (Z.shiftl y 4) n); (reflexivity || discriminate).
Qed.

(** The top bits of the bytes of a word. *)
Lemma top_bits_testbit nb v m n :
  (forall k, 0 <= k -> Z.testbit m k = (k mod 8 =? 7) && (k <? 8 * nb)) -> 0 <= n ->
  Z.testbit ((v .& m) >> 7) n = Z.testbit v (n + 7) && ((n mod 8 =? 0) && (n + 7 <? 8 * nb)).
Proof.
  intros Hm Hn. rewrite Z.shiftr_spec, Z.land_spec, Hm by lia. do 2 f_equal.
  destruct (Z.eqb_spec ((n + 7) mod 8) 7), (Z.eqb_spec (n mod 8) 0); (reflexivity || dlia).
Qed.

Lemma top_bits_apart nb v m :
  (forall k, 0 <= k -> Z.testbit m k = (k mod 8 =? 7) && (k <? 8 * nb)) -> 0 <= m ->
  bits_apart ((v .& m) >> 7).
Proof.
  intros Hm H0. split.
  - apply Z.shiftr_nonneg, Z.land_nonneg. now right.
  - intros n Hn E. rewrite (top_bits_testbit nb) in E by assumption.
    rewrite !andb_true_iff, Z.eqb_eq in E. tauto.
Qed.

Lemma xtime_word a : word 8 a -> word 8 (AesSpec.xtime a).
Proof.
  intros Ha. unfold word in Ha. apply wordb_word.
  pose proof (forallb_seq (fun i => wordb 8 (AesSpec.xtime (Z.of_nat i))) 256
    ltac:(vm_compute; reflexivity) (Z.to_nat a) ltac:(lia)) as E.
  cbv beta in E. now rewrite Z2Nat.id in E by lia.
Qed.

Lemma xtime_testbit a n :
  0 <= n < 8 ->
  Z.testbit (AesSpec.xtime a) n =
  xorb ((1 <=? n) && Z.testbit a (n - 1)) (Z.testbit a 7 && Z.testbit 0x1b n).
Proof.
  intros Hn. unfold AesSpec.xtime. cbv zeta. rewrite (shiftl_testbit a 1 8) by lia.
  change ((1 <=? 8) && Z.testbit a (8 - 1)) with (Z.testbit a 7).
  destruct (Z.testbit a 7); cbn [andb].
  - rewrite Z.lxor_spec, shiftl_testbit by lia. f_equal. each_bit 8%nat n Hn; reflexivity.
  - now rewrite shiftl_testbit, xorb_false_r by lia.
Qed.

Lemma xtimes_bytes nb v m m7 :
  0 < nb ->
  (forall k, 0 <= k -> Z.testbit m k = (k mod 8 =? 7) && (k <? 8 * nb)) -> 0 <= m ->
  (forall k, 0 <= k < 8 * nb -> Z.testbit m7 k = negb (k mod 8 =? 7)) ->
  let X := trunc (8 * nb) (((v .& m) >> 7) * 27) .^ shl (8 * nb) (v .& m7) 1 in
  word (8 * nb) X /\
  forall i, Z.of_nat i < nb -> byte i X = AesSpec.xtime (byte i v).
Proof.
  intros Hnb Hm H0 H7 X. split.
  { apply lxor_word; [lia|now apply trunc_word; lia|]. unfold shl. apply trunc_word. lia. }
  intros i Hi. apply (word_ext 8); [lia|apply byte_word|apply xtime_word, byte_word|].
  intros n Hn. rewrite xtime_testbit by assumption. unfold byte, X.
  rewrite mul27 by now apply (top_bits_apart nb).
  set (y := (v .& m) >> 7).
  assert (Y : forall a, 0 <= a < 5 ->
    (a <=? 8 * Z.of_nat i + n) && Z.testbit y (8 * Z.of_nat i + n - a) =
    Z.testbit v (8 * Z.of_nat i + 7) && (n =? a)).
  { intros a Ha. destruct (Z.leb_spec a (8 * Z.of_nat i + n)).
    - subst y. rewrite (top_bits_testbit nb) by (assumption || lia). cbn [andb].
      destruct (Z.eqb_spec n a) as [->|N].
      + replace (8 * Z.of_nat i + a - a + 7) with (8 * Z.of_nat i + 7) by lia. f_equal.
        rewrite (proj2 (Z.ltb_lt _ _)) by lia. rewrite (proj2 (Z.eqb_eq _ _)) by dlia. reflexivity.
      + rewrite (proj2 (Z.eqb_neq _ 0)) by dlia. now rewrite !andb_false_r.
    - rewrite (proj2 (Z.eqb_neq _ _)) by lia. now rewrite andb_false_r. }
  rewrite !trunc_testbit, !Z.shiftr_spec by lia. rewrite (Z.add_comm n).
  rewrite Z.lxor_spec, trunc_testbit, !Z.lxor_spec, !shiftl_testbit, !Y by lia.
  unfold shl. rewrite trunc_testbit, shiftl_testbit, Z.land_spec by lia.
  rewrite (proj2 (Z.ltb_lt (8 * Z.of_nat i + n) _)), (proj2 (Z.ltb_lt n 8)) by lia. cbn [andb].
  assert (B : forall k, 0 <= k < 8 ->
    Z.testbit (trunc 8 (v >> (8 * Z.of_nat i))) k = Z.testbit v (8 * Z.of_nat i + k)).
  { intros k Hk. rewrite trunc_testbit, Z.shiftr_spec, (proj2 (Z.ltb_lt k 8)), (Z.add_comm k) by lia.
    reflexivity. }
  rewrite (B 7) by lia. set (t := Z.testbit v (8 * Z.of_nat i + 7)).
  destruct (Z.leb_spec 1 n).
  - rewrite (B (n - 1)), H7, Z.add_sub_assoc by lia. rewrite (proj2 (Z.leb_le _ _)) by lia.
    rewrite (proj2 (Z.eqb_neq _ 7)) by dlia. cbn [negb andb]. rewrite andb_true_r.
    set (b := Z.testbit v _). clearbody b t. clear - Hn.
    destruct b, t; each_bit 8%nat n Hn; reflexivity.
  - replace n with 0 by lia. cbn [andb].
    destruct (Z.leb_spec 1 (8 * Z.of_nat i + 0)); [rewrite H7 by lia|];
      [rewrite (proj2 (Z.eqb_eq _ 7)) by dlia|]; rewrite ?andb_false_r; now destruct t.
Qed.

(** The masks of the code. *)
Lemma mask80_64 k : 0 <= k -> Z.testbit 0x8080808080808080 k = (k mod 8 =? 7) && (k <? 8 * 8).
Proof.
  intros Hk. destruct (Z.ltb_spec k (8 * 8)).
  - assert (H' : 0 <= k < 64) by lia. clear Hk H. each_bit 64%nat k H'; reflexivity.
  - rewrite andb_false_r. apply (word_testbit_high 64); [lia|now compute|lia].
Qed.

Lemma mask80_32 k : 0 <= k -> Z.testbit 0x80808080 k = (k mod 8 =? 7) && (k <? 8 * 4).
Proof.
  intros Hk. destruct (Z.ltb_spec k (8 * 4)).
  - assert (H' : 0 <= k < 32) by lia. clear Hk H. each_bit 32%nat k H'; reflexivity.
  - rewrite andb_false_r. apply (word_testbit_high 32); [lia|now compute|lia].
Qed.

Lemma mask7f_64 k : 0 <= k < 8 * 8 -> Z.testbit 0x7F7F7F7F7F7F7F7F k = negb (k mod 8 =? 7).
Proof. intros Hk. change (8 * 8) with 64 in Hk. each_bit 64%nat k Hk; reflexivity. Qed.

Lemma mask7f_32 k : 0 <= k < 8 * 4 -> Z.testbit 0x7F7F7F7F k = negb (k mod 8 =? 7).
Proof. intros Hk. change (8 * 4) with 32 in Hk. each_bit 32%nat k Hk; reflexivity. Qed.

(** ** Two rounds of AES *)

Lemma NOKEY_LE Y : AES_ROUND_NOKEY_LE Y = AES_ROUND_LE Y (0, 0, 0, 0).
Proof. reflexivity. Qed.

Lemma two_rounds Q K :
  quad_ok K ->
  quad_ok (AES_ROUND_NOKEY_LE (AES_ROUND_LE Q K)) /\
  quad_bytes (le_store 4) (AES_ROUND_NOKEY_LE (AES_ROUND_LE Q K)) =
  AesSpec.round (AesSpec.round (quad_bytes (le_store 4) Q) (quad_bytes (le_store 4) K)) EchoSpec.salt.
Proof.
  intros HK. rewrite NOKEY_LE. destruct (AES_ROUND_LE_ok Q K HK) as [H1 E1].
  destruct (AES_ROUND_LE_ok (AES_ROUND_LE Q K) _ quad_zero_ok) as [H2 E2].
  split; [assumption|]. now rewrite E2, E1.
Qed.

(** A 64-bit word and its two halves. *)
Lemma le_store_halves x :
  le_store 8 x = le_store 4 (trunc 32 x) ++ le_store 4 (trunc 32 (x >> 32)).
Proof. rewrite !trunc_mod by lia. rewrite !(le_store_mod 4). apply (le_store_app 4 4). Qed.

Lemma join_halves lo hi :
  word 32 lo -> word 32 hi ->
  word 64 (lo .| (hi << 32)) /\ le_store 8 (lo .| (hi << 32)) = le_store 4 lo ++ le_store 4 hi.
Proof.
  intros Hl Hh. split.
  - apply lor_word; [lia|apply (word_mono 32); [lia|assumption]|].
    unfold word in *. rewrite Z.shiftl_mul_pow2 by lia. lia.
  - rewrite le_store_halves. f_equal; f_equal; apply (word_ext 32);
      try assumption; try (apply trunc_word); try lia; intros n Hn;
      rewrite trunc_testbit, ?Z.shiftr_spec, Z.lor_spec, shiftl_testbit by lia; decide_cmp; cbn [andb orb].
    + now rewrite orb_false_r.
    + rewrite (word_testbit_high 32 lo) by (assumption || lia). cbn [orb]. f_equal. lia.
Qed.

Section Instances.
  Variable p : platform.
  Hypothesis Hp : platform_ok p = true.

Lemma Wide_aes_ok X K :
  length X = 2%nat -> Forall (word 64) X -> quad_ok K ->
  length (Wide.aes_2rounds X K) = 2%nat /\ Forall (word 64) (Wide.aes_2rounds X K) /\
  flat 8 (Wide.aes_2rounds X K) =
    AesSpec.round (AesSpec.round (flat 8 X) (quad_bytes (le_store 4) K)) EchoSpec.salt.
Proof.
  intros HL HF HK. expose_list X 2. unfold Wide.aes_2rounds. cbn [nth].
  set (Q := (trunc 32 z, trunc 32 (z >> 32), trunc 32 z0, trunc 32 (z0 >> 32))).
  assert (EQ : flat 8 [z; z0] = quad_bytes (le_store 4) Q).
  { unfold flat. cbn [map concat]. rewrite !le_store_halves, app_nil_r, <- app_assoc. reflexivity. }
  rewrite EQ. destruct (two_rounds Q K HK) as [H E]. rewrite <- E.
  destruct (AES_ROUND_NOKEY_LE (AES_ROUND_LE Q K)) as [[[X0 X1] X2] X3]. destruct H as (H0 & H1 & H2 & H3).
  destruct (join_halves X0 X1 H0 H1) as [W0 E0]. destruct (join_halves X2 X3 H2 H3) as [W1 E1].
  splits; [reflexivity|auto|]. unfold flat. cbn [map concat].
  rewrite E0, E1, app_nil_r, <- app_assoc. reflexivity.
Qed.

Lemma Narrow_aes_ok X K :
  length X = 4%nat -> Forall (word 32) X -> quad_ok K ->
  length (Narrow.aes_2rounds X K) = 4%nat /\ Forall (word 32) (Narrow.aes_2rounds X K) /\
  flat 4 (Narrow.aes_2rounds X K) =
    AesSpec.round (AesSpec.round (flat 4 X) (quad_bytes (le_store 4) K)) EchoSpec.salt.
Proof.
  intros HL HF HK. expose_list X 4. unfold Narrow.aes_2rounds. cbn [nth].
  assert (EQ : forall a b c d, flat 4 [a; b; c; d] = quad_bytes (le_store 4) (a, b, c, d))
    by (intros; unfold flat, quad_bytes; cbn [map concat]; now rewrite app_nil_r).
  rewrite EQ. destruct (two_rounds (z, z0, z1, z2) K HK) as [H E]. rewrite <- E.
  destruct (AES_ROUND_NOKEY_LE _) as [[[X0 X1] X2] X3]. destruct H as (H0 & H1 & H2 & H3).
  rewrite EQ. splits; [reflexivity|auto|reflexivity].
Qed.

(** ** The other members *)

Lemma Echo_Wide_encode_ok w V tmp :
  (8 * ((4 * w + 8 - 1) / 8) <= length tmp)%nat -> (4 * w <= 8 * length V)%nat -> Forall (word 64) V ->
  exists tmp', Wide.encode_VV p w V tmp = Some tmp' /\ length tmp' = length tmp /\
    firstn (4 * w) tmp' = firstn (4 * w) (flat 8 V).
Proof.
  intros Ht HV HF. apply (memcpy_loop_words 8 (sph_enc64le_aligned p)); try dlia.
  intros k. apply sph_enc64le_aligned_store; [assumption|]. apply Forall_nth'; [assumption|].
  now apply word_0.
Qed.

Lemma Echo_Narrow_encode_ok w V tmp :
  (4 * ((4 * w + 4 - 1) / 4) <= length tmp)%nat -> (4 * w <= 4 * length V)%nat -> Forall (word 32) V ->
  exists tmp', Narrow.encode_VV p w V tmp = Some tmp' /\ length tmp' = length tmp /\
    firstn (4 * w) tmp' = firstn (4 * w) (flat 4 V).
Proof.
  intros Ht HV HF. apply (memcpy_loop_words 4 (sph_enc32le_aligned p)); try dlia.
  intros k. apply sph_enc32le_aligned_store; [assumption|]. apply Forall_nth'; [assumption|].
  now apply word_0.
Qed.

(** The length of the digest, in the first word of each group of 16 bytes. *)
Lemma le_store_low n m d : 0 <= d < 2 ^ (8 * Z.of_nat n) -> le_store (n + m) d = le_store n d ++ repeat 0 m.
Proof.
  intros Hd. rewrite le_store_app, Z.shiftr_div_pow2, Z.div_small by lia. f_equal.
  induction m as [|m IH]; [reflexivity|]. cbn. now rewrite IH.
Qed.

Lemma Echo_Wide_init_ok d :
  0 <= d < 2 ^ 32 ->
  (length (Wide.V_init_small d) = 8%nat /\ Forall (word 64) (Wide.V_init_small d) /\
   flat 8 (Wide.V_init_small d) = concat (repeat (le_store 16 d) 4)) /\
  (length (Wide.V_init_big d) = 16%nat /\ Forall (word 64) (Wide.V_init_big d) /\
   flat 8 (Wide.V_init_big d) = concat (repeat (le_store 16 d) 8)).
Proof.
  intros Hd. assert (Wd : word 64 d) by (unfold word; lia). assert (W0 : word 64 0) by now apply word_0.
  change (le_store 16 d) with (le_store (8 + 8) d). rewrite le_store_low by lia.
  unfold flat, Wide.V_init_small, Wide.V_init_big. cbn [map concat repeat].
  change (le_store 8 0) with (repeat 0 8). cbn [repeat].
  splits; auto 20; cbn [app]; now rewrite <- !app_assoc.
Qed.

Lemma Echo_Narrow_init_ok d :
  0 <= d < 2 ^ 32 ->
  (length (Narrow.V_init_small d) = 16%nat /\ Forall (word 32) (Narrow.V_init_small d) /\
   flat 4 (Narrow.V_init_small d) = concat (repeat (le_store 16 d) 4)) /\
  (length (Narrow.V_init_big d) = 32%nat /\ Forall (word 32) (Narrow.V_init_big d) /\
   flat 4 (Narrow.V_init_big d) = concat (repeat (le_store 16 d) 8)).
Proof.
  intros Hd. assert (Wd : word 32 d) by (unfold word; lia). assert (W0 : word 32 0) by now apply word_0.
  change (le_store 16 d) with (le_store (4 + 12) d). rewrite le_store_low by lia.
  unfold flat, Narrow.V_init_small, Narrow.V_init_big. cbn [map concat repeat].
  change (le_store 4 0) with (repeat 0 4). cbn [repeat].
  splits; auto 40; cbn [app]; now rewrite <- !app_assoc.
Qed.

#[export] Instance Wide_laws : EchoLaws (Wide.words p).
Proof.
  refine (@Build_EchoLaws (Wide.words p) 8 (Wide.dec p) _ _ _ _ _ _ _ _ _ _ _ _).
  - right. split; reflexivity.
  - intros buf off Hb Hl. apply sph_dec64le_aligned_load; [assumption|now apply Forall_slice|].
    rewrite length_slice; lia.
  - intros. cbn [INPUT_BLOCK_SMALL Wide.words]. unfold Wide.INPUT_BLOCK_SMALL.
    f_equal; apply map_ext; intros u; cbn [row_words map seq Nat.mul]; now rewrite !Nat.add_0_r.
  - intros. cbn [INPUT_BLOCK_BIG Wide.words]. unfold Wide.INPUT_BLOCK_BIG.
    f_equal; apply map_ext; intros u; cbn [row_words map seq Nat.mul]; now rewrite !Nat.add_0_r.
  - reflexivity.
  - reflexivity.
  - intros buf off m Hm. unfold Wide.dec. now rewrite slice_firstn.
  - intros X K HL HF HK. now apply Wide_aes_ok.
  - intros v Hv. destruct (xtimes_bytes 8 v _ _ ltac:(lia) mask80_64 ltac:(lia) mask7f_64) as [W B].
    split; [exact W|]. intros i Hi. apply B. lia.
  - intros d Hd. now apply Echo_Wide_init_ok.
  - intros d Hd. now apply Echo_Wide_init_ok.
  - intros w V tmp. apply Echo_Wide_encode_ok.
Defined.

#[export] Instance Narrow_laws : EchoLaws (Narrow.words p).
Proof.
  refine (@Build_EchoLaws (Narrow.words p) 4 (Narrow.dec p) _ _ _ _ _ _ _ _ _ _ _ _).
  - left. split; reflexivity.
  - intros buf off Hb Hl. apply sph_dec32le_aligned_load; [assumption|now apply Forall_slice|].
    rewrite length_slice; lia.
  - intros. cbn [INPUT_BLOCK_SMALL Narrow.words]. unfold Narrow.INPUT_BLOCK_SMALL.
    f_equal; apply map_ext; intros u; cbn [row_words map seq Nat.mul]; now rewrite !Nat.add_0_r.
  - intros. cbn [INPUT_BLOCK_BIG Narrow.words]. unfold Narrow.INPUT_BLOCK_BIG.
    f_equal; apply map_ext; intros u; cbn [row_words map seq Nat.mul]; now rewrite !Nat.add_0_r.
  - reflexivity.
  - reflexivity.
  - intros buf off m Hm. unfold Narrow.dec. now rewrite slice_firstn.
  - intros X K HL HF HK. now apply Narrow_aes_ok.
  - intros v Hv. destruct (xtimes_bytes 4 v _ _ ltac:(lia) mask80_32 ltac:(lia) mask7f_32) as [W B].
    split; [exact W|]. intros i Hi. apply B. lia.
  - intros d Hd. now apply Echo_Narrow_init_ok.
  - intros d Hd. now apply Echo_Narrow_init_ok.
  - intros w V tmp. apply Echo_Narrow_encode_ok.
Defined.
End Instances.
