(* ===== verification/EchoHash.v ===== *)
(** * echo.c computes ECHO

    The configurations echo.c can be compiled in, and the lemma on the
    functions of sph_echo.h: in every configuration they compute the hash of
    the specification, of any message, cut in any pieces. *)

From Stdlib Require Import ZArith List Lia Bool.
From S2P Require Import Prelude BitStrings SphTypes Stream Aes Echo EchoSpec EchoProof EchoMode EchoLanes.
Import ListNotations.

Record echo_config := EchoConfig {
  echo_platform : platform;
  SPH_ECHO_64 : bool;
  SPH_SMALL_FOOTPRINT_ECHO : bool
}.

Definition echo_words (cf : echo_config) : EchoWords :=
  if SPH_ECHO_64 cf then Wide.words (echo_platform cf) else Narrow.words (echo_platform cf).

Lemma echo_config_laws cf : platform_ok (echo_platform cf) = true -> EchoLaws (echo_words cf).
Proof.
  intros Hp. destruct cf as [p k64 fp]. unfold echo_words. cbn [echo_platform SPH_ECHO_64] in *.
  destruct k64; [now apply Wide_laws|now apply Narrow_laws].
Qed.

(** ** The compression functions only read one block *)

Section Firstn.
  Context {words : EchoWords} {laws : EchoLaws words}.

Lemma dec_row buf m u :
  (16 * u + 16 <= m)%nat ->
  map (fun n => dec (firstn m buf) (16 * u + wb * n)) (seq 0 row_words) =
  map (fun n => dec buf (16 * u + wb * n)) (seq 0 row_words).
Proof.
  intros Hm. apply map_ext_in. intros n Hn%in_seq. apply dec_firstn.
  destruct wb_cases as [[W R]|[W R]]; rewrite W, R in *; lia.
Qed.

Lemma COMPRESS_SMALL_firstn fp C V buf :
  COMPRESS_SMALL fp C V buf = COMPRESS_SMALL fp C V (firstn 192 buf).
Proof.
  unfold COMPRESS_SMALL. replace (INPUT_BLOCK_SMALL V (firstn 192 buf)) with (INPUT_BLOCK_SMALL V buf).
  - destruct (fold_left _ _ _) as [W K]. rewrite !final_small. apply map_ext_in. intros u Hu%in_seq.
    rewrite !dec_firstn; [reflexivity|..]; destruct wb_cases as [[E R]|[E R]]; rewrite E, R in *; lia.
  - rewrite !input_small. f_equal. apply map_ext_in. intros u Hu%in_seq.
    symmetry. apply dec_row. lia.
Qed.

Lemma COMPRESS_BIG_firstn fp C V buf :
  COMPRESS_BIG fp C V buf = COMPRESS_BIG fp C V (firstn 128 buf).
Proof.
  unfold COMPRESS_BIG. replace (INPUT_BLOCK_BIG V (firstn 128 buf)) with (INPUT_BLOCK_BIG V buf).
  - destruct (fold_left _ _ _) as [W K]. rewrite !final_big. apply map_ext_in. intros u Hu%in_seq.
    rewrite !dec_firstn; [reflexivity|..]; destruct wb_cases as [[E R]|[E R]]; rewrite E, R in *; lia.
  - rewrite !input_big. f_equal. apply map_ext_in. intros u Hu%in_seq.
    symmetry. apply dec_row. lia.
Qed.
End Firstn.

(** ** The functions of sph_echo.h *)

(** [init], any number of [update]s, then [addbits_and_close] with [n] extra
    bits: no access outside of a buffer, the digest of the specification, and
    a context that is initialised again; [close] is the case without bits.
    [size] is the size of a block, [out] that of the local array of [close]. *)
Definition computes_echo (d size out : nat)
    (init : echo_context -> echo_context)
    (update : echo_context -> list Z -> option echo_context)
    (addbits_and_close : list Z -> echo_context -> Z -> Z -> option (list Z * echo_context))
    (close : list Z -> echo_context -> option (list Z * echo_context)) : Prop :=
  forall pieces cc stack ub n,
  (n < 8)%nat -> length (buf cc) = size -> length stack = out -> Forall bytes pieces ->
  exists cc1 digest cc2,
    fold_left (fun cc data => let* cc := cc in update cc data) pieces (Some (init cc)) = Some cc1 /\
    addbits_and_close stack cc1 ub (Z.of_nat n) = Some (digest, cc2) /\
    close stack cc1 = addbits_and_close stack cc1 0 0 /\
    bytes digest /\ (8 * length digest = d)%nat /\
    EchoSpec.bits_of_bytes digest =
      EchoSpec.hash d (EchoSpec.bits_of_bytes (concat pieces) ++ extra_bits ub n) /\
    length (buf cc2) = size /\ init cc2 = cc2.

Section API.
  Variable cf : echo_config.
#[local] Instance cf_words : EchoWords := echo_words cf.
  Abbreviation fp := (SPH_SMALL_FOOTPRINT_ECHO cf).
  Abbreviation p := (echo_platform cf).

Lemma echo_family :
  platform_ok p = true ->
  computes_echo 224 192 32 sph_echo224_init (sph_echo224 fp)
    (sph_echo224_addbits_and_close fp p) (sph_echo224_close fp p) /\
  computes_echo 256 192 32 sph_echo256_init (sph_echo256 fp)
    (sph_echo256_addbits_and_close fp p) (sph_echo256_close fp p) /\
  computes_echo 384 128 64 sph_echo384_init (sph_echo384 fp)
    (sph_echo384_addbits_and_close fp p) (sph_echo384_close fp p) /\
  computes_echo 512 128 64 sph_echo512_init (sph_echo512 fp)
    (sph_echo512_addbits_and_close fp p) (sph_echo512_close fp p).
Proof.
  intros Hp. pose proof (echo_config_laws cf Hp) as laws. change (echo_words cf) with cf_words in laws.
  assert (S : forall w, In w [7; 8]%nat -> computes_echo (32 * w) 192 32
      (fun sc => echo_small_init sc (Z.of_nat (32 * w))) (echo_small_core fp)
      (fun stack sc ub n => echo_small_close fp p stack sc ub n w)
      (fun stack sc => echo_small_close fp p stack sc 0 0 w)).
  { intros w Hw pieces cc stack ub n Hn Hb Hs Hpc.
    destruct (echo_whole EchoSpec.small (COMPRESS_SMALL fp) V_init_small (or_introl eq_refl)
      (COMPRESS_SMALL_firstn fp)
      (fun C V b HC HV Hb Hl => match COMPRESS_SMALL_ok fp C V b HC (proj1 HV) (proj2 HV) Hb Hl with
        conj a (conj b c) => conj (conj a b) c end)
      (fun d Hd => match init_small d Hd with conj a (conj b c) => conj (conj a b) c end)
      p stack cc ub n w pieces Hp) as (c1 & out & c2 & E1 & E2 & E & Ho & Lo & L & I); try assumption.
    - cbn [In] in Hw. destruct Hw as [<-|[<-|[]]]; split; vm_compute; lia.
    - cbn [In] in Hw. destruct Hw as [<-|[<-|[]]]; reflexivity.
    - exists c1, out, c2. splits; try assumption; [reflexivity|lia]. }
  assert (B : forall w, In w [12; 16]%nat -> computes_echo (32 * w) 128 64
      (fun sc => echo_big_init sc (Z.of_nat (32 * w))) (echo_big_core fp)
      (fun stack sc ub n => echo_big_close fp p stack sc ub n w)
      (fun stack sc => echo_big_close fp p stack sc 0 0 w)).
  { intros w Hw pieces cc stack ub n Hn Hb Hs Hpc.
    destruct (echo_whole EchoSpec.big (COMPRESS_BIG fp) V_init_big (or_intror eq_refl)
      (COMPRESS_BIG_firstn fp)
      (fun C V b HC HV Hb Hl => match COMPRESS_BIG_ok fp C V b HC (proj1 HV) (proj2 HV) Hb Hl with
        conj a (conj b c) => conj (conj a b) c end)
      (fun d Hd => match init_big d Hd with conj a (conj b c) => conj (conj a b) c end)
      p stack cc ub n w pieces Hp) as (c1 & out & c2 & E1 & E2 & E & Ho & Lo & L & I); try assumption.
    - cbn [In] in Hw. destruct Hw as [<-|[<-|[]]]; split; vm_compute; lia.
    - cbn [In] in Hw. destruct Hw as [<-|[<-|[]]]; reflexivity.
    - exists c1, out, c2. splits; try assumption; [reflexivity|lia]. }
  splits; [apply (S 7%nat)|apply (S 8%nat)|apply (B 12%nat)|apply (B 16%nat)]; cbn; tauto.
Qed.
End API.
