(* ===== verification/EchoTheorems.v ===== *)
(** * Theorems on echo.c and aes_helper.c

    What a user of the functions of sph_echo.h relies on, for every
    configuration echo.c can be compiled in, and the properties of the rounds
    and of the counter they are made of. *)

From Stdlib Require Import ZArith List Lia Bool.
From S2P Require Import Prelude BitStrings SphTypes Stream SphTheorems Aes EchoSpec AesProof.
From S2P Require Import Echo EchoSpec EchoProof EchoMode EchoLanes EchoHash.
Import ListNotations.

(** C38: in every configuration (byte order, 64-bit or 32-bit words, loops or unrolled code), for
    each of the four members, initialising a context, updating it with any pieces of a message
    and closing it with up to seven more bits makes no access outside of a buffer, returns the
    ECHO digest of the message's bits, and leaves the context initialised. *)
Theorem echo_computes_ECHO (cf : echo_config) :
  platform_ok (echo_platform cf) = true ->
  let words := echo_words cf in
  let fp := SPH_SMALL_FOOTPRINT_ECHO cf in let p := echo_platform cf in
  computes_echo 224 192 32 sph_echo224_init (sph_echo224 fp)
    (sph_echo224_addbits_and_close fp p) (sph_echo224_close fp p) /\
  computes_echo 256 192 32 sph_echo256_init (sph_echo256 fp)
    (sph_echo256_addbits_and_close fp p) (sph_echo256_close fp p) /\
  computes_echo 384 128 64 sph_echo384_init (sph_echo384 fp)
    (sph_echo384_addbits_and_close fp p) (sph_echo384_close fp p) /\
  computes_echo 512 128 64 sph_echo512_init (sph_echo512 fp)
    (sph_echo512_addbits_and_close fp p) (sph_echo512_close fp p).
Proof. apply echo_family. Qed.

Lemma echo_computes_ECHO_witness :
  let words := Narrow.words big_endian in
  computes_echo 384 128 64 sph_echo384_init (sph_echo384 true)
    (sph_echo384_addbits_and_close true big_endian) (sph_echo384_close true big_endian).
Proof. apply (echo_computes_ECHO (EchoConfig big_endian false true)). reflexivity. Defined.

(** The table lookups of the two round macros are a round of AES on the 16 bytes of four
    words, in little-endian order for the [LE] macro and in big-endian order for the [BE] one;
    the macros without key are those with the key zero. *)
Theorem aes_rounds_are_AES (X K : quad) :
  quad_ok K ->
  quad_bytes (le_store 4) (AES_ROUND_LE X K) =
    AesSpec.round (quad_bytes (le_store 4) X) (quad_bytes (le_store 4) K) /\
  quad_bytes (be_store 4) (AES_ROUND_BE X K) =
    AesSpec.round (quad_bytes (be_store 4) X) (quad_bytes (be_store 4) K) /\
  AES_ROUND_NOKEY_LE X = AES_ROUND_LE X (0, 0, 0, 0) /\
  AES_ROUND_NOKEY_BE X = AES_ROUND_BE X (0, 0, 0, 0).
Proof.
  intros HK. splits; [now apply AES_ROUND_LE_ok|now apply AES_ROUND_BE_ok|reflexivity|reflexivity].
Qed.

(** The example of appendix B of FIPS 197: the second round. *)
Definition fips_state : quad := (0xa49c7ff2, 0x689f352b, 0x6b5bea43, 0x026a5049).
Definition fips_key : quad := (0xf2c295f2, 0x7a96b943, 0x5935807a, 0x7359f67f).

Lemma aes_rounds_are_AES_witness :
  quad_bytes (be_store 4) (AES_ROUND_BE fips_state fips_key) =
    AesSpec.round (quad_bytes (be_store 4) fips_state) (quad_bytes (be_store 4) fips_key) /\
  AES_ROUND_BE fips_state fips_key = (0xaa8f5f03, 0x61dde3ef, 0x82d24ad2, 0x6832469a).
Proof.
  split; [|reflexivity]. apply (aes_rounds_are_AES fips_state fips_key).
  repeat split; now compute.
Defined.

(** The compression functions, on 64-bit and on 32-bit words, on a machine of any byte
    order and in both forms of the code, are those of the specification on the bytes of the
    chaining value. *)
Theorem echo_compress_refines (p : platform) (Hp : platform_ok p = true) (fp : bool) (C : quad)
    (buf V8 V4 : list Z) :
  quad_ok C -> bytes buf -> Forall (word 64) V8 -> Forall (word 32) V4 ->
  (length buf = 192%nat -> length V8 = 8%nat -> length V4 = 16%nat ->
   flat 8 (@COMPRESS_SMALL (Wide.words p) fp C V8 buf) =
     EchoSpec.compress EchoSpec.small (quad_val C) (flat 8 V8) buf /\
   flat 4 (@COMPRESS_SMALL (Narrow.words p) fp C V4 buf) =
     EchoSpec.compress EchoSpec.small (quad_val C) (flat 4 V4) buf) /\
  (length buf = 128%nat -> length V8 = 16%nat -> length V4 = 32%nat ->
   flat 8 (@COMPRESS_BIG (Wide.words p) fp C V8 buf) =
     EchoSpec.compress EchoSpec.big (quad_val C) (flat 8 V8) buf /\
   flat 4 (@COMPRESS_BIG (Narrow.words p) fp C V4 buf) =
     EchoSpec.compress EchoSpec.big (quad_val C) (flat 4 V4) buf).
Proof.
  intros HC Hb F8 F4. pose proof (@COMPRESS_SMALL_ok _ (Wide_laws p Hp) fp C V8 buf HC) as SW.
  pose proof (@COMPRESS_SMALL_ok _ (Narrow_laws p Hp) fp C V4 buf HC) as SN.
  pose proof (@COMPRESS_BIG_ok _ (Wide_laws p Hp) fp C V8 buf HC) as BW.
  pose proof (@COMPRESS_BIG_ok _ (Narrow_laws p Hp) fp C V4 buf HC) as BN.
  split; intros Lb L8 L4; split; [apply SW|apply SN|apply BW|apply BN]; assumption.
Qed.

Lemma echo_compress_refines_witness :
  flat 8 (@COMPRESS_BIG (Wide.words portable) false (5, 0, 0, 0) (repeat 7 16) (repeat 9 128)) =
  EchoSpec.compress EchoSpec.big 5 (flat 8 (repeat 7 16)) (repeat 9 128).
Proof.
  refine (proj1 (proj2 (echo_compress_refines portable eq_refl false (5, 0, 0, 0) (repeat 9 128)
    (repeat 7 16) (repeat 7 32) _ _ _ _) eq_refl eq_refl eq_refl)).
  - repeat split; now compute.
  - repeat constructor; now compute.
  - repeat constructor; now compute.
  - repeat constructor; now compute.
Defined.

(** The counter and the key are in four 32-bit words, with carries tested by the
    wrap-around of each word: [INCR_COUNTER] adds any 32-bit number and the key is incremented
    by one, both modulo 2^128. *)
Theorem echo_counter_carries (K : quad) (v : Z) :
  quad_ok K -> word 32 v ->
  (quad_ok (INCR_COUNTER K v) /\ quad_val (INCR_COUNTER K v) = (quad_val K + v) mod 2 ^ 128) /\
  (quad_ok (next_key K) /\ quad_val (next_key K) = (quad_val K + 1) mod 2 ^ 128).
Proof. intros HK Hv. split; [now apply INCR_COUNTER_ok|now apply next_key_ok]. Qed.

Lemma echo_counter_carries_witness :
  quad_val (INCR_COUNTER (0xFFFFFFFF, 0xFFFFFFFF, 0xFFFFFFFF, 7) 1024) = 2 ^ 99 + 1023.
Proof.
  refine (eq_trans (proj2 (proj1 (echo_counter_carries (0xFFFFFFFF, 0xFFFFFFFF, 0xFFFFFFFF, 7) 1024 _ _))) _).
  - repeat split; now compute.
  - now compute.
  - reflexivity.
Defined.
