(* ===== verification/Uint256.v ===== *)
(** * uint256.h: fixed-width unsigned integers

    The template [base_uint<BITS>] of src/src/uint256.h, whose instances are
    [uint160], [uint256] and [uint512]: [WIDTH] 32-bit words [pn], the least
    significant first.  The member functions are translated with their loops;
    those that only combine them are derived at the end of the section.  What
    the functions compute is proved in [Uint256Proof]. *)

From Stdlib Require Import ZArith List Lia Bool.
From S2P Require Import Prelude SphTypes.
Import ListNotations.

(** [for (int i = 0; i < n; i++)] *)
Definition for_i {A} (n : nat) (body : nat -> A -> A) (a : A) : A :=
  fold_left (fun a i => body i a) (seq 0 n) a.

(** [pn[i]] *)
Definition pn_at (pn : list Z) (i : nat) : Z := nth i pn 0.

Section BaseUint.
  Variable WIDTH : nat.

(** An object before its words are assigned; every word is written before it is read. *)
Definition zeros : list Z := repeat 0 WIDTH.

Definition op_is_zero (pn : list Z) : bool := forallb (fun i => pn_at pn i =? 0) (seq 0 WIDTH).

Definition op_complement (pn : list Z) : list Z :=
  for_i WIDTH (fun i ret => upd ret i (wnot 32 (pn_at pn i))) zeros.

(** [while (++pn[i] == 0 && i < WIDTH-1) i++], with [n] for [WIDTH-1-i]. *)
Fixpoint increment_from (n : nat) (pn : list Z) : list Z :=
  let i := (WIDTH - 1 - n)%nat in
  let pn := upd pn i (trunc 32 (pn_at pn i + 1)) in
  if pn_at pn i =? 0 then match n with O => pn | S n' => increment_from n' pn end else pn.
Definition op_increment (pn : list Z) : list Z := increment_from (WIDTH - 1) pn.

(** [while (--pn[i] == -1 && i < WIDTH-1) i++]: [-1] is converted to [unsigned int]. *)
Fixpoint decrement_from (n : nat) (pn : list Z) : list Z :=
  let i := (WIDTH - 1 - n)%nat in
  let pn := upd pn i (trunc 32 (pn_at pn i - 1)) in
  if pn_at pn i =? 0xFFFFFFFF then match n with O => pn | S n' => decrement_from n' pn end else pn.
Definition op_decrement (pn : list Z) : list Z := decrement_from (WIDTH - 1) pn.

Definition op_negate (pn : list Z) : list Z :=
  op_increment (for_i WIDTH (fun i ret => upd ret i (wnot 32 (pn_at pn i))) zeros).

(** [operator=(uint64_t)] *)
Definition op_assign64 (pn : list Z) (b : Z) : list Z :=
  let pn := upd pn 0 (trunc 32 b) in
  let pn := upd pn 1 (trunc 32 (b >> 32)) in
  fold_left (fun pn i => upd pn i 0) (seq 2 (WIDTH - 2)) pn.

Definition op_xor_assign (pn b : list Z) : list Z :=
  for_i WIDTH (fun i pn => upd pn i (pn_at pn i .^ pn_at b i)) pn.
Definition op_and_assign (pn b : list Z) : list Z :=
  for_i WIDTH (fun i pn => upd pn i (pn_at pn i .& pn_at b i)) pn.
Definition op_or_assign (pn b : list Z) : list Z :=
  for_i WIDTH (fun i pn => upd pn i (pn_at pn i .| pn_at b i)) pn.

Definition op_xor_assign64 (pn : list Z) (b : Z) : list Z :=
  let pn := upd pn 0 (pn_at pn 0 .^ trunc 32 b) in
  upd pn 1 (pn_at pn 1 .^ trunc 32 (b >> 32)).
Definition op_or_assign64 (pn : list Z) (b : Z) : list Z :=
  let pn := upd pn 0 (pn_at pn 0 .| trunc 32 b) in
  upd pn 1 (pn_at pn 1 .| trunc 32 (b >> 32)).

(** [operator<<=] and [operator>>=]; [k] is an [int]. *)
Definition op_shl_assign (pn : list Z) (shift : Z) : list Z :=
  let a := pn in
  let pn := for_i WIDTH (fun i pn => upd pn i 0) pn in
  let k := shift / 32 in
  let shift := shift mod 32 in
  for_i WIDTH (fun i pn =>
    let j := Z.of_nat i + k in
    let pn :=
      if (j + 1 <? Z.of_nat WIDTH) && negb (shift =? 0)
      then upd pn (Z.to_nat (j + 1)) (pn_at pn (Z.to_nat (j + 1)) .| (pn_at a i >> (32 - shift)))
      else pn in
    if j <? Z.of_nat WIDTH
    then upd pn (Z.to_nat j) (pn_at pn (Z.to_nat j) .| shl 32 (pn_at a i) shift)
    else pn) pn.

Definition op_shr_assign (pn : list Z) (shift : Z) : list Z :=
  let a := pn in
  let pn := for_i WIDTH (fun i pn => upd pn i 0) pn in
  let k := shift / 32 in
  let shift := shift mod 32 in
  for_i WIDTH (fun i pn =>
    let j := Z.of_nat i - k in
    let pn :=
      if (0 <=? j - 1) && negb (shift =? 0)
      then upd pn (Z.to_nat (j - 1)) (pn_at pn (Z.to_nat (j - 1)) .| shl 32 (pn_at a i) (32 - shift))
      else pn in
    if 0 <=? j
    then upd pn (Z.to_nat j) (pn_at pn (Z.to_nat j) .| (pn_at a i >> shift))
    else pn) pn.

(** [operator+=]; [carry] and [n] are [uint64_t]. *)
Definition op_add_assign (pn b : list Z) : list Z :=
  snd (for_i WIDTH (fun i '(carry, pn) =>
         let n := trunc 64 (trunc 64 (carry + pn_at pn i) + pn_at b i) in
         (n >> 32, upd pn i (n .& 0xffffffff))) (0, pn)).
Definition op_sub_assign (pn b : list Z) : list Z := op_add_assign pn (op_negate b).
Definition op_add_assign64 (pn : list Z) (b64 : Z) : list Z :=
  op_add_assign pn (op_assign64 zeros b64).
Definition op_sub_assign64 (pn : list Z) (b64 : Z) : list Z :=
  op_add_assign pn (op_negate (op_assign64 zeros b64)).

(** The comparisons go from the most significant word down; [n] is [i + 1]. *)
Fixpoint less_from (n : nat) (a b : list Z) : bool :=
  match n with
  | O => false
  | S i => if pn_at a i <? pn_at b i then true
           else if pn_at b i <? pn_at a i then false else less_from i a b
  end.
Fixpoint less_eq_from (n : nat) (a b : list Z) : bool :=
  match n with
  | O => true
  | S i => if pn_at a i <? pn_at b i then true
           else if pn_at b i <? pn_at a i then false else less_eq_from i a b
  end.
Fixpoint greater_from (n : nat) (a b : list Z) : bool :=
  match n with
  | O => false
  | S i => if pn_at b i <? pn_at a i then true
           else if pn_at a i <? pn_at b i then false else greater_from i a b
  end.
Fixpoint greater_eq_from (n : nat) (a b : list Z) : bool :=
  match n with
  | O => true
  | S i => if pn_at b i <? pn_at a i then true
           else if pn_at a i <? pn_at b i then false else greater_eq_from i a b
  end.
Definition op_less := less_from WIDTH.
Definition op_less_eq := less_eq_from WIDTH.
Definition op_greater := greater_from WIDTH.
Definition op_greater_eq := greater_eq_from WIDTH.

Definition op_equal (a b : list Z) : bool :=
  forallb (fun i => pn_at a i =? pn_at b i) (seq 0 WIDTH).
Definition op_equal64 (a : list Z) (b : Z) : bool :=
  (pn_at a 0 =? trunc 32 b) && (pn_at a 1 =? trunc 32 (b >> 32)) &&
  forallb (fun i => pn_at a i =? 0) (seq 2 (WIDTH - 2)).
Definition op_not_equal (a b : list Z) : bool := negb (op_equal a b).
Definition op_not_equal64 (a : list Z) (b : Z) : bool := negb (op_equal64 a b).

Definition Get64 (pn : list Z) (n : nat) : Z := pn_at pn (2 * n) .| (pn_at pn (2 * n + 1) << 32).

(** ** Hexadecimal strings

    [pn] seen as an array of [unsigned char]. *)
  Variable p : platform.

Definition memory (pn : list Z) : list Z := concat (map (native_store p 4) pn).
Definition of_memory (b : list Z) : list Z :=
  map (fun i => native_load p 4 (slice b (4 * i) 4)) (seq 0 WIDTH).

(** The two characters of ["%02x"]. *)
Definition hex_digit (d : Z) : Z := if d <? 10 then 48 + d else 87 + d.
Definition sprintf_02x (c : Z) : list Z := [hex_digit (c / 16); hex_digit (c mod 16)].

Definition GetHex (pn : list Z) : list Z :=
  let m := memory pn in
  flat_map (fun i => sprintf_02x (nth (4 * WIDTH - i - 1) m 0)) (seq 0 (4 * WIDTH)).

Definition isspace (c : Z) : bool := (c =? 32) || ((9 <=? c) && (c <=? 13)).
Definition tolower (c : Z) : Z := if (65 <=? c) && (c <=? 90) then c + 32 else c.

(** The table [phexdigit]: zero where it is not set. *)
Definition phexdigit_table : list Z :=
  repeat 0 48 ++ [0; 1; 2; 3; 4; 5; 6; 7; 8; 9; 0; 0; 0; 0; 0; 0] ++
  [0; 0xa; 0xb; 0xc; 0xd; 0xe; 0xf; 0; 0; 0; 0; 0; 0; 0; 0; 0] ++ repeat 0 16 ++
  [0; 0xa; 0xb; 0xc; 0xd; 0xe; 0xf; 0; 0; 0; 0; 0; 0; 0; 0; 0] ++ repeat 0 144.
Definition phexdigit (c : Z) : Z := nth (Z.to_nat c) phexdigit_table 0.

(** The characters of a C string before its terminator; reading past them gives the 0. *)
Fixpoint skip_spaces (psz : list Z) : list Z :=
  match psz with
  | c :: t => if isspace c then skip_spaces t else psz
  | [] => []
  end.
Definition skip_0x (psz : list Z) : list Z :=
  if (nth 0 psz 0 =? 48) && (tolower (nth 1 psz 0) =? 120) then skipn 2 psz else psz.

(** [while (phexdigit[*psz] || *psz == '0') psz++]: the digits passed over, which the second
    loop reads from the last one back to [pbegin]. *)
Fixpoint hex_run (psz : list Z) : list Z :=
  match psz with
  | c :: t => if negb (phexdigit c =? 0) || (c =? 48) then c :: hex_run t else []
  | [] => []
  end.

(** [while (psz >= pbegin && p1 < pend)], on the digits from the last to the first; [i] is
    [p1 - pn]. *)
Fixpoint write_digits (digits : list Z) (i : nat) (m : list Z) : list Z :=
  match digits with
  | [] => m
  | c :: digits =>
      if (i <? 4 * WIDTH)%nat then
        let m := upd m i (phexdigit c) in
        match digits with
        | [] => m
        | c :: digits =>
            let m := upd m i (nth i m 0 .| trunc 8 (phexdigit c << 4)) in
            write_digits digits (i + 1) m
        end
      else m
  end.

Definition SetHex (psz : list Z) : list Z :=
  let m := memory zeros in
  let psz := skip_spaces psz in
  let psz := skip_0x psz in
  of_memory (write_digits (rev (hex_run psz)) 0 m).
End BaseUint.

(** [uint256 (const std::vector<unsigned char>& vch)], and [uint160], [uint512] alike. *)
Definition of_vector (WIDTH : nat) (p : platform) (vch : list Z) : list Z :=
  if (length vch =? 4 * WIDTH)%nat then of_memory WIDTH p vch else op_assign64 WIDTH (zeros WIDTH) 0.

(** [uint512::trim256] *)
Definition trim256 (pn : list Z) : list Z :=
  fold_left (fun ret i => upd ret i (pn_at pn i)) (seq 0 8) (zeros 8).

(** The binary operators, for example [uint256(a) += b]. *)
Definition op_add (WIDTH : nat) (a b : list Z) : list Z := op_add_assign WIDTH a b.
Definition op_sub (WIDTH : nat) (a b : list Z) : list Z := op_sub_assign WIDTH a b.
Definition op_xor (WIDTH : nat) (a b : list Z) : list Z := op_xor_assign WIDTH a b.
Definition op_and (WIDTH : nat) (a b : list Z) : list Z := op_and_assign WIDTH a b.
Definition op_or (WIDTH : nat) (a b : list Z) : list Z := op_or_assign WIDTH a b.
Definition op_shl (WIDTH : nat) (a : list Z) (shift : Z) : list Z := op_shl_assign WIDTH a shift.
Definition op_shr (WIDTH : nat) (a : list Z) (shift : Z) : list Z := op_shr_assign WIDTH a shift.
