(* ===== verification/Uint256Proof.v ===== *)
(** * uint256.h computes modulo 2^BITS

    The number a [base_uint] stands for, and what each operator computes on
    it, for any number [WIDTH] of words: the arithmetic operators are those of
    Z modulo 2^(32 WIDTH), the comparisons those of Z. *)

From Stdlib Require Import ZArith List Lia Bool Btauto.
From S2P Require Import Prelude SphTypes Uint256.
Import ListNotations.

(** The value of a list of words, least significant first. *)
Fixpoint val (pn : list Z) : Z :=
  match pn with [] => 0 | x :: t => x + 2 ^ 32 * val t end.

Definition words_ok (WIDTH : nat) (pn : list Z) : Prop := length pn = WIDTH /\ Forall (word 32) pn.

Lemma val_app a b : val (a ++ b) = val a + 2 ^ (32 * Z.of_nat (length a)) * val b.
Proof.
  induction a as [|x a IH].
  - cbn [app val length]. rewrite Z.mul_0_r. lia.
  - cbn [app val length]. rewrite IH, Nat2Z.inj_succ, Z.mul_succ_r, Z.pow_add_r by lia. lia.
Qed.

Lemma val_range pn : Forall (word 32) pn -> 0 <= val pn < 2 ^ (32 * Z.of_nat (length pn)).
Proof.
  induction 1 as [|x pn Hx _ IH]; [cbn; lia|]. cbn [val length].
  rewrite Nat2Z.inj_succ, Z.mul_succ_r, Z.pow_add_r by lia. unfold word in Hx. nia.
Qed.

Lemma val_word n pn : words_ok n pn -> word (32 * Z.of_nat n) (val pn).
Proof. intros [<- H]. now apply val_range. Qed.

(** Bit [k] of the value is bit [k mod 32] of word [k / 32]. *)
Lemma val_testbit pn k :
  Forall (word 32) pn -> 0 <= k ->
  Z.testbit (val pn) k = Z.testbit (pn_at pn (Z.to_nat (k / 32))) (k mod 32).
Proof.
  intros H. revert k. induction H as [|x pn Hx H IH]; intros k Hk; unfold pn_at.
  - cbn [val]. now rewrite nth_overflow, !Z.testbit_0_l by (cbn; lia).
  - cbn [val]. unfold word in Hx. rewrite Z.mul_comm, <- Z.shiftl_mul_pow2 by lia.
    rewrite Z.add_nocarry_lxor; [rewrite Z.lxor_spec|].
    + rewrite shiftl_testbit by lia. destruct (Z.leb_spec 32 k) as [H3|H3].
      * rewrite (word_testbit_high 32 x) by (assumption || lia). rewrite IH by lia. cbn [xorb andb].
        replace (k / 32) with (1 + (k - 32) / 32) by dlia.
        rewrite Z2Nat.inj_add by dlia. cbn [nth Nat.add Z.to_nat Pos.to_nat Pos.iter_op].
        unfold pn_at. f_equal. dlia.
      * rewrite Z.div_small, Z.mod_small by lia. cbn. now rewrite xorb_false_r.
    + bitwise n Hn. destruct (Z.leb_spec 32 n); [|apply andb_false_r].
      now rewrite (word_testbit_high 32 x).
Qed.

(** Words with the same values are equal. *)
Lemma val_inj n a b : words_ok n a -> words_ok n b -> val a = val b -> a = b.
Proof.
  intros [La Ha] [Lb Hb] E. apply (nth_ext' _ _ 0); [congruence|]. intros i Hi.
  apply (word_ext 32); [lia|apply Forall_nth'; [assumption|now apply word_0]..|].
  intros k Hk. assert (T : Z.testbit (val a) (32 * Z.of_nat i + k) = Z.testbit (val b) (32 * Z.of_nat i + k))
    by now rewrite E.
  rewrite !val_testbit in T by (assumption || lia). unfold pn_at in T.
  replace (Z.to_nat ((32 * Z.of_nat i + k) / 32)) with i in T by dlia.
  replace ((32 * Z.of_nat i + k) mod 32) with k in T by dlia. exact T.
Qed.

(** To prove a value, bit by bit. *)
Lemma val_eq n pn v :
  words_ok n pn -> word (32 * Z.of_nat n) v ->
  (forall i k, (i < n)%nat -> 0 <= k < 32 ->
    Z.testbit (pn_at pn i) k = Z.testbit v (32 * Z.of_nat i + k)) ->
  val pn = v.
Proof.
  intros H Hv B. apply (word_ext (32 * Z.of_nat n)); [lia|now apply val_word|assumption|].
  intros k Hk. destruct H as [L F]. rewrite val_testbit by (assumption || lia).
  rewrite B by dlia. f_equal. dlia.
Qed.

Lemma forallb_ext_in' {A} (f g : A -> bool) l :
  (forall x, In x l -> f x = g x) -> forallb f l = forallb g l.
Proof.
  intros H. induction l as [|x l IH]; [reflexivity|]. cbn [forallb].
  rewrite H by now left. f_equal. apply IH. intros y Hy. apply H. now right.
Qed.

(** ** Loops on the words *)

(** A loop that computes each word from the one it replaces, with a state. *)
Fixpoint scan {St} (g : St -> nat -> Z -> St * Z) (s : St) (i : nat) (l : list Z) : St * list Z :=
  match l with
  | [] => (s, [])
  | x :: l => let '(s, y) := g s i x in let '(s, l) := scan g s (i + 1) l in (s, y :: l)
  end.

Lemma upd_middle {A} (a b : list A) x y : upd (a ++ x :: b) (length a) y = a ++ y :: b.
Proof. induction a as [|z a IH]; [reflexivity|]. cbn. now rewrite IH. Qed.

Lemma nth_middle' (a b : list Z) x : nth (length a) (a ++ x :: b) 0 = x.
Proof. induction a as [|z a IH]; [reflexivity|]. exact IH. Qed.

Lemma scan_loop {St} (g : St -> nat -> Z -> St * Z) s a l :
  fold_left (fun st i => let '(s, pn) := st in let '(s, y) := g s i (pn_at pn i) in (s, upd pn i y))
    (seq (length a) (length l)) (s, a ++ l) =
  let '(s, l') := scan g s (length a) l in (s, a ++ l').
Proof.
  revert s a. induction l as [|x l IH]; intros s a; [reflexivity|].
  cbn [length seq fold_left scan]. unfold pn_at at 2. rewrite nth_middle'.
  destruct (g s (length a) x) as [s1 y] eqn:E. rewrite upd_middle.
  specialize (IH s1 (a ++ [y])). rewrite length_app, <- app_assoc in IH. cbn [length app] in IH.
  rewrite Nat.add_1_r in *. rewrite IH. destruct (scan g s1 (S (length a)) l) as [s2 l2].
  now rewrite <- app_assoc.
Qed.

(** The loops of the bitwise operators have no state. *)
Definition map_i (g : nat -> Z -> Z) (i : nat) (l : list Z) : list Z :=
  snd (scan (fun (_ : unit) i x => (tt, g i x)) tt i l).

Lemma map_i_cons g i x l : map_i g i (x :: l) = g i x :: map_i g (i + 1) l.
Proof. unfold map_i. cbn [scan]. now destruct (scan _ tt (i + 1) l). Qed.

Lemma nth_map_i g i l j : (j < length l)%nat -> nth j (map_i g i l) 0 = g (i + j)%nat (nth j l 0).
Proof.
  revert i j. induction l as [|x l IH]; intros i j Hj; [cbn in Hj; lia|].
  rewrite map_i_cons. destruct j as [|j]; cbn [nth]; [now rewrite Nat.add_0_r|].
  cbn in Hj. rewrite IH by lia. f_equal. lia.
Qed.

Lemma length_map_i g i l : length (map_i g i l) = length l.
Proof. revert i. induction l; intros i; [reflexivity|]. rewrite map_i_cons. cbn. now rewrite IHl. Qed.

Lemma map_loop g n (pn : list Z) :
  length pn = n -> for_i n (fun i pn => upd pn i (g i (pn_at pn i))) pn = map_i g 0 pn.
Proof.
  intros <-. unfold for_i, map_i.
  pose proof (scan_loop (fun (_ : unit) i x => (tt, g i x)) tt [] pn) as E. cbn [length app] in E.
  assert (G : forall l s, fold_left (fun (st : unit * list Z) i => let '(s, pn) := st in
      let '(s, y) := (tt, g i (pn_at pn i)) in (s, upd pn i y)) l (tt, s) = (tt, fold_left (fun pn i => upd pn i (g i (pn_at pn i))) l s)).
  { induction l as [|i l IH]; intros s; [reflexivity|]. cbn [fold_left]. apply IH. }
  rewrite G in E. now destruct (scan _ tt 0 pn) as [[] l']; injection E as ->.
Qed.

(** What such a loop leaves, when it sets every word to a function of the index. *)
Lemma set_loop (g : nat -> Z) n (pn : list Z) :
  length pn = n -> for_i n (fun i pn => upd pn i (g i)) pn = map g (seq 0 n).
Proof.
  intros H. rewrite (map_loop (fun i _ => g i)) by assumption.
  apply (nth_ext' _ _ 0); [now rewrite length_map_i, length_map, length_seq|].
  rewrite length_map_i, H. intros i Hi. now rewrite nth_map_i, nth_map_seq by lia.
Qed.

Lemma wnot_value w x : 0 <= w -> word w x -> wnot w x = 2 ^ w - 1 - x.
Proof.
  intros Hw Hx. assert (E : x + wnot w x = 2 ^ w - 1); [|lia].
  rewrite Z.add_nocarry_lxor.
  - rewrite Z.sub_1_r, <- Z.ones_equiv. bitwise n Hn.
    destruct (Z.ltb_spec n w); [btauto|]. now rewrite (word_testbit_high w x).
  - bitwise n Hn. destruct (Z.ltb_spec n w); [btauto|]. now rewrite (word_testbit_high w x).
Qed.

Section Proofs.
  Variable WIDTH : nat.
  Abbreviation ok := (words_ok WIDTH).
  Abbreviation BITS := (32 * Z.of_nat WIDTH).

Lemma words_nth pn i : ok pn -> word 32 (pn_at pn i).
Proof. intros [_ H]. unfold pn_at. apply Forall_nth'; [assumption|now apply word_0]. Qed.

Lemma ok_intro pn :
  length pn = WIDTH -> (forall i, (i < WIDTH)%nat -> word 32 (pn_at pn i)) -> ok pn.
Proof.
  intros L H. split; [assumption|]. apply Forall_nth. intros i d Hi. rewrite (nth_indep _ d 0) by lia.
  apply H. lia.
Qed.

Lemma zeros_ok : ok (zeros WIDTH) /\ val (zeros WIDTH) = 0.
Proof.
  unfold zeros. split; [split; [apply repeat_length|apply Forall_repeat'; now apply word_0]|].
  induction WIDTH as [|n IH]; [reflexivity|]. cbn [repeat val]. now rewrite IH.
Qed.

(** ** Bitwise operators *)

Lemma complement_words pn :
  op_complement WIDTH pn = map (fun i => wnot 32 (pn_at pn i)) (seq 0 WIDTH).
Proof. apply (set_loop (fun i => wnot 32 (pn_at pn i))), zeros_ok. Qed.

Lemma op_complement_ok pn :
  ok pn -> ok (op_complement WIDTH pn) /\ val (op_complement WIDTH pn) = 2 ^ BITS - 1 - val pn.
Proof.
  intros H. rewrite complement_words.
  assert (O : ok (map (fun i => wnot 32 (pn_at pn i)) (seq 0 WIDTH))).
  { apply ok_intro; [now rewrite length_map, length_seq|]. intros i Hi. unfold pn_at.
    rewrite nth_map_seq by assumption. apply wnot_word; [lia|now apply (words_nth pn)]. }
  split; [assumption|]. destruct H as [L F]. rewrite <- L in *. clear L O. induction F as [|x l Hx F IH]; [reflexivity|].
  cbn [length seq map val]. rewrite <- seq_shift, map_map. unfold pn_at in *. cbn [nth]. rewrite IH.
  rewrite Nat2Z.inj_succ, Z.mul_succ_r, Z.pow_add_r by lia.
  rewrite wnot_value by (lia || assumption). change (2 ^ 32) with 4294967296. ring.
Qed.


(** An operator that works on each bit. *)
Lemma bitwise_loop f (fb : bool -> bool -> bool) a b :
  (forall x y n, 0 <= n -> Z.testbit (f x y) n = fb (Z.testbit x n) (Z.testbit y n)) ->
  (forall w x y, 0 <= w -> word w x -> word w y -> word w (f x y)) ->
  ok a -> ok b ->
  let r := for_i WIDTH (fun i pn => upd pn i (f (pn_at pn i) (pn_at b i))) a in
  ok r /\ val r = f (val a) (val b).
Proof.
  intros Hf Hw Ha Hb r. subst r. rewrite (map_loop (fun i x => f x (pn_at b i))) by apply Ha.
  assert (N : forall i, (i < WIDTH)%nat ->
    pn_at (map_i (fun i x => f x (pn_at b i)) 0 a) i = f (pn_at a i) (pn_at b i)).
  { intros i Hi. unfold pn_at at 1. rewrite nth_map_i by (destruct Ha; lia). reflexivity. }
  assert (O : ok (map_i (fun i x => f x (pn_at b i)) 0 a)).
  { apply ok_intro; [rewrite length_map_i; apply Ha|]. intros i Hi. rewrite N by assumption.
    apply Hw; [lia|now apply words_nth..]. }
  split; [assumption|]. apply (val_eq WIDTH); [assumption|apply Hw; [lia|now apply val_word..]|].
  intros i k Hi Hk. rewrite N, !Hf, !val_testbit by (apply Ha || apply Hb || lia).
  replace (Z.to_nat ((32 * Z.of_nat i + k) / 32)) with i by dlia.
  now replace ((32 * Z.of_nat i + k) mod 32) with k by dlia.
Qed.

Lemma op_xor_ok a b :
  ok a -> ok b -> ok (op_xor_assign WIDTH a b) /\ val (op_xor_assign WIDTH a b) = val a .^ val b.
Proof. intros. apply (bitwise_loop Z.lxor xorb); auto using lxor_word. intros. apply Z.lxor_spec. Qed.

Lemma op_and_ok a b :
  ok a -> ok b -> ok (op_and_assign WIDTH a b) /\ val (op_and_assign WIDTH a b) = val a .& val b.
Proof. intros. apply (bitwise_loop Z.land andb); auto using land_word. intros. apply Z.land_spec. Qed.

Lemma op_or_ok a b :
  ok a -> ok b -> ok (op_or_assign WIDTH a b) /\ val (op_or_assign WIDTH a b) = val a .| val b.
Proof. intros. apply (bitwise_loop Z.lor orb); auto using lor_word. intros. apply Z.lor_spec. Qed.

(** ** One word at a time *)

Lemma val_upd pn i y :
  (i < length pn)%nat -> val (upd pn i y) = val pn + (y - pn_at pn i) * 2 ^ (32 * Z.of_nat i).
Proof.
  revert i. induction pn as [|x pn IH]; intros i Hi; [cbn in Hi; lia|].
  destruct i as [|i]; cbn [upd val pn_at nth].
  - unfold pn_at. cbn [nth]. change (2 ^ (32 * Z.of_nat 0)) with 1. lia.
  - cbn in Hi. rewrite IH by lia. unfold pn_at. cbn [nth].
    rewrite Nat2Z.inj_succ, Z.mul_succ_r, Z.pow_add_r by lia. lia.
Qed.

Lemma upd_ok pn i y : ok pn -> word 32 y -> ok (upd pn i y).
Proof. intros [L F] Hy. split; [now rewrite length_upd|now apply Forall_upd]. Qed.

Lemma pn_at_upd pn i y : ok pn -> (i < WIDTH)%nat -> pn_at (upd pn i y) i = y.
Proof. intros [L _] Hi. unfold pn_at. now rewrite nth_upd, Nat.eqb_refl by lia. Qed.

(** A value in range is the residue of what it is congruent to. *)
Lemma residue m q v : 0 <= v < m -> forall u, u = v + q * m -> v = u mod m.
Proof. intros Hv u ->. now rewrite Z.mod_add, Z.mod_small by lia. Qed.

Lemma pow_next i : (i < WIDTH)%nat -> 2 ^ (32 * Z.of_nat (S i)) = 2 ^ 32 * 2 ^ (32 * Z.of_nat i).
Proof. intros. rewrite Nat2Z.inj_succ, Z.mul_succ_r, Z.pow_add_r by lia. lia. Qed.

(** One word incremented or decremented: with a carry, or without. *)
Lemma increment_step pn i :
  ok pn -> (i < WIDTH)%nat ->
  let pn' := upd pn i (trunc 32 (pn_at pn i + 1)) in
  ok pn' /\
  (pn_at pn' i = 0 /\ val pn' = val pn + 2 ^ (32 * Z.of_nat i) - 2 ^ (32 * Z.of_nat (S i)) \/
   pn_at pn' i <> 0 /\ val pn' = val pn + 2 ^ (32 * Z.of_nat i)).
Proof.
  intros H Hi pn'. pose proof (words_nth pn i H) as Hx. unfold word in Hx.
  assert (Hl : (i < length pn)%nat) by (destruct H; lia).
  split; [apply upd_ok; [assumption|now apply trunc_word]|]. subst pn'.
  rewrite pn_at_upd, val_upd, pow_next, trunc_mod by (assumption || lia).
  change (2 ^ 32) with 4294967296 in *. set (x := pn_at pn i) in *.
  destruct (Z.eq_dec x 4294967295) as [->|N]; [left|right].
  - change ((4294967295 + 1) mod 4294967296) with 0. split; [reflexivity|ring].
  - rewrite Z.mod_small by lia. split; [lia|ring].
Qed.

Lemma decrement_step pn i :
  ok pn -> (i < WIDTH)%nat ->
  let pn' := upd pn i (trunc 32 (pn_at pn i - 1)) in
  ok pn' /\
  (pn_at pn' i = 0xFFFFFFFF /\ val pn' = val pn - 2 ^ (32 * Z.of_nat i) + 2 ^ (32 * Z.of_nat (S i)) \/
   pn_at pn' i <> 0xFFFFFFFF /\ val pn' = val pn - 2 ^ (32 * Z.of_nat i)).
Proof.
  intros H Hi pn'. pose proof (words_nth pn i H) as Hx. unfold word in Hx.
  assert (Hl : (i < length pn)%nat) by (destruct H; lia).
  split; [apply upd_ok; [assumption|now apply trunc_word]|]. subst pn'.
  rewrite pn_at_upd, val_upd, pow_next, trunc_mod by (assumption || lia).
  change (2 ^ 32) with 4294967296 in *. set (x := pn_at pn i) in *.
  destruct (Z.eq_dec x 0) as [->|N]; [left|right].
  - change ((0 - 1) mod 4294967296) with 4294967295. split; [reflexivity|ring].
  - rewrite Z.mod_small by lia. split; [lia|ring].
Qed.

Lemma increment_from_ok n pn :
  ok pn -> (n < WIDTH)%nat ->
  ok (increment_from WIDTH n pn) /\
  val (increment_from WIDTH n pn) = (val pn + 2 ^ (32 * Z.of_nat (WIDTH - 1 - n))) mod 2 ^ BITS.
Proof.
  revert pn. induction n as [|n IH]; intros pn H Hn; cbn [increment_from];
    (match goal with |- context [upd pn ?i _] =>
       destruct (increment_step pn i H ltac:(lia)) as [O [[-> V]|[E V]]] end;
     [cbn [Z.eqb]|rewrite (proj2 (Z.eqb_neq _ _) E); split; [assumption|];
      apply (residue _ 0); [apply val_word, O|rewrite V; ring]]).
  - split; [assumption|]. apply (residue _ 1); [apply val_word, O|].
    rewrite V. replace (S (WIDTH - 1 - 0)) with WIDTH by lia. ring.
  - destruct (IH _ O ltac:(lia)) as [O' V']. split; [assumption|]. rewrite V', V.
    replace (S (WIDTH - 1 - S n)) with (WIDTH - 1 - n)%nat by lia. f_equal. ring.
Qed.

Lemma decrement_from_ok n pn :
  ok pn -> (n < WIDTH)%nat ->
  ok (decrement_from WIDTH n pn) /\
  val (decrement_from WIDTH n pn) = (val pn - 2 ^ (32 * Z.of_nat (WIDTH - 1 - n))) mod 2 ^ BITS.
Proof.
  revert pn. induction n as [|n IH]; intros pn H Hn; cbn [decrement_from];
    (match goal with |- context [upd pn ?i _] =>
       destruct (decrement_step pn i H ltac:(lia)) as [O [[-> V]|[E V]]] end;
     [cbn [Z.eqb Pos.eqb]|rewrite (proj2 (Z.eqb_neq _ _) E); split; [assumption|];
      apply (residue _ 0); [apply val_word, O|rewrite V; ring]]).
  - split; [assumption|]. apply (residue _ (-1)); [apply val_word, O|].
    rewrite V. replace (S (WIDTH - 1 - 0)) with WIDTH by lia. ring.
  - destruct (IH _ O ltac:(lia)) as [O' V']. split; [assumption|]. rewrite V', V.
    replace (S (WIDTH - 1 - S n)) with (WIDTH - 1 - n)%nat by lia. f_equal. ring.
Qed.

  Hypothesis width_pos : (0 < WIDTH)%nat.

Lemma op_increment_ok pn :
  ok pn -> ok (op_increment WIDTH pn) /\ val (op_increment WIDTH pn) = (val pn + 1) mod 2 ^ BITS.
Proof.
  intros H. destruct (increment_from_ok (WIDTH - 1) pn H ltac:(lia)) as [O V].
  replace (WIDTH - 1 - (WIDTH - 1))%nat with 0%nat in V by lia. auto.
Qed.

Lemma op_decrement_ok pn :
  ok pn -> ok (op_decrement WIDTH pn) /\ val (op_decrement WIDTH pn) = (val pn - 1) mod 2 ^ BITS.
Proof.
  intros H. destruct (decrement_from_ok (WIDTH - 1) pn H ltac:(lia)) as [O V].
  replace (WIDTH - 1 - (WIDTH - 1))%nat with 0%nat in V by lia. auto.
Qed.

Lemma op_negate_ok pn :
  ok pn -> ok (op_negate WIDTH pn) /\ val (op_negate WIDTH pn) = (- val pn) mod 2 ^ BITS.
Proof.
  intros H. destruct (op_complement_ok pn H) as [O V].
  destruct (op_increment_ok _ O) as [O' V']. split; [exact O'|]. unfold op_negate.
  change (for_i WIDTH _ _) with (op_complement WIDTH pn). rewrite V', V.
  replace (2 ^ BITS - 1 - val pn + 1) with (- val pn + 1 * 2 ^ BITS) by ring.
  apply Z.mod_add. pose proof (Z.pow_pos_nonneg 2 BITS). lia.
Qed.

(** ** Addition *)

Definition add_word (b : list Z) (carry : Z) (i : nat) (x : Z) : Z * Z :=
  let n := trunc 64 (trunc 64 (carry + x) + pn_at b i) in (n >> 32, n .& 0xffffffff).

Lemma add_word_ok b c i x :
  ok b -> 0 <= c <= 1 -> word 32 x ->
  let '(c', y) := add_word b c i x in
  0 <= c' <= 1 /\ word 32 y /\ y + 2 ^ 32 * c' = c + x + pn_at b i.
Proof.
  intros Hb Hc Hx. pose proof (words_nth b i Hb) as Hy. unfold word, add_word in *.
  rewrite (trunc_id 64 (c + x)), (trunc_id 64) by (unfold word; lia).
  set (n := c + x + pn_at b i). change (n .& 0xffffffff) with (trunc 32 n).
  rewrite trunc_mod, Z.shiftr_div_pow2 by lia. change (2 ^ 32) with 4294967296 in *. dlia.
Qed.

Lemma add_words b c l i :
  ok b -> 0 <= c <= 1 -> Forall (word 32) l ->
  let '(c', l') := scan (add_word b) c i l in
  0 <= c' <= 1 /\ length l' = length l /\ Forall (word 32) l' /\
  val l' + 2 ^ (32 * Z.of_nat (length l)) * c' =
    c + val l + val (map (pn_at b) (seq i (length l))).
Proof.
  intros Hb Hc Hl. revert c i Hc. induction Hl as [|x l Hx Hl IH]; intros c i Hc.
  - cbn [scan length seq map val]. change (2 ^ (32 * Z.of_nat 0)) with 1. splits; auto; lia.
  - cbn [scan length seq map val]. pose proof (add_word_ok b c i x Hb Hc Hx) as A.
    destruct (add_word b c i x) as [c1 y]. destruct A as (H1 & Hy & E1).
    specialize (IH c1 (i + 1)%nat H1). destruct (scan (add_word b) c1 (i + 1) l) as [c2 l2].
    destruct IH as (H2 & L2 & F2 & E2). cbn [length val]. splits; try lia; [now constructor|].
    rewrite Nat2Z.inj_succ, Z.mul_succ_r, Z.pow_add_r by lia. rewrite Nat.add_1_r in E2. nia.
Qed.

Lemma val_map_seq b : ok b -> val (map (pn_at b) (seq 0 WIDTH)) = val b.
Proof. intros [L F]. unfold pn_at. rewrite map_nth_seq, firstn_all2 by lia. reflexivity. Qed.

Lemma op_add_assign_ok a b :
  ok a -> ok b ->
  ok (op_add_assign WIDTH a b) /\ val (op_add_assign WIDTH a b) = (val a + val b) mod 2 ^ BITS.
Proof.
  intros Ha Hb. assert (E : op_add_assign WIDTH a b = snd (scan (add_word b) 0 0 a)).
  { pose proof (scan_loop (add_word b) 0 [] a) as E. cbn [length app] in E.
    rewrite (proj1 Ha) in E. transitivity (snd (let '(s, l') := scan (add_word b) 0 0 a in (s, l')));
      [rewrite <- E|now destruct (scan _ _ _ _)].
    reflexivity. }
  pose proof (add_words b 0 a 0 Hb ltac:(lia) (proj2 Ha)) as S. rewrite E.
  destruct (scan (add_word b) 0 0 a) as [c l]. destruct S as (Hc & L & F & V). cbn [snd].
  rewrite (proj1 Ha), val_map_seq in V by assumption.
  assert (O : ok l) by (split; [destruct Ha; lia|assumption]). split; [assumption|].
  apply (residue _ c); [now apply val_word|lia].
Qed.

Lemma op_sub_assign_ok a b :
  ok a -> ok b ->
  ok (op_sub_assign WIDTH a b) /\ val (op_sub_assign WIDTH a b) = (val a - val b) mod 2 ^ BITS.
Proof.
  intros Ha Hb. destruct (op_negate_ok b Hb) as [On Vn].
  destruct (op_add_assign_ok a _ Ha On) as [O V]. split; [exact O|]. unfold op_sub_assign.
  now rewrite V, Vn, Zplus_mod_idemp_r.
Qed.

(** ** Comparisons *)

Lemma val_firstn_succ pn i :
  ok pn -> (i < WIDTH)%nat ->
  val (firstn (S i) pn) = val (firstn i pn) + 2 ^ (32 * Z.of_nat i) * pn_at pn i /\
  0 <= val (firstn i pn) < 2 ^ (32 * Z.of_nat i) /\ word 32 (pn_at pn i).
Proof.
  intros H Hi. assert (L : length (firstn i pn) = i) by (rewrite length_firstn; destruct H; lia).
  splits; try now apply words_nth.
  - assert (E : firstn (S i) pn = firstn i pn ++ [pn_at pn i]).
    { apply (nth_ext' _ _ 0); rewrite length_firstn, ?length_app, ?L; [destruct H; cbn [length]; lia|].
      intros j Hj. rewrite nth_firstn' by lia. destruct (Nat.lt_ge_cases j i).
      - now rewrite app_nth1, nth_firstn' by lia.
      - rewrite app_nth2, L by lia. replace j with i by lia. now rewrite Nat.sub_diag. }
    rewrite E, val_app, L. cbn [val]. lia.
  - pose proof (val_range (firstn i pn)) as R. rewrite L in R. now apply R, Forall_firstn', H.
  - pose proof (val_range (firstn i pn)) as R. rewrite L in R. now apply R, Forall_firstn', H.
Qed.

(** Comparing the first [n] words: the most significant decides. *)
Lemma compare_step a b n :
  ok a -> ok b -> (n < WIDTH)%nat ->
  (pn_at a n < pn_at b n -> val (firstn (S n) a) < val (firstn (S n) b)) /\
  (pn_at b n < pn_at a n -> val (firstn (S n) b) < val (firstn (S n) a)) /\
  (pn_at a n = pn_at b n ->
   val (firstn (S n) a) - val (firstn (S n) b) = val (firstn n a) - val (firstn n b)).
Proof.
  intros Ha Hb Hn. destruct (val_firstn_succ a n Ha Hn) as (-> & Ra & Wa).
  destruct (val_firstn_succ b n Hb Hn) as (-> & Rb & Wb). unfold word in *. splits; intros; nia.
Qed.

Lemma less_from_ok n a b :
  ok a -> ok b -> (n <= WIDTH)%nat ->
  less_from n a b = (val (firstn n a) <? val (firstn n b)) /\
  less_eq_from n a b = (val (firstn n a) <=? val (firstn n b)) /\
  greater_from n a b = (val (firstn n b) <? val (firstn n a)) /\
  greater_eq_from n a b = (val (firstn n b) <=? val (firstn n a)).
Proof.
  intros Ha Hb. induction n as [|n IH]; intros Hn; [repeat split; reflexivity|].
  destruct (IH ltac:(lia)) as (I1 & I2 & I3 & I4). cbn [less_from less_eq_from greater_from greater_eq_from].
  destruct (compare_step a b n Ha Hb ltac:(lia)) as (L & G & E).
  destruct (Z.ltb_spec (pn_at a n) (pn_at b n)) as [H|H].
  - specialize (L H). rewrite (proj2 (Z.ltb_ge (pn_at b n) _)) by lia.
    splits; symmetry; (apply Z.ltb_lt || apply Z.leb_le || apply Z.ltb_ge || apply Z.leb_gt); lia.
  - destruct (Z.ltb_spec (pn_at b n) (pn_at a n)) as [H'|H'].
    + specialize (G H').
      splits; symmetry; (apply Z.ltb_lt || apply Z.leb_le || apply Z.ltb_ge || apply Z.leb_gt); lia.
    + specialize (E ltac:(lia)). rewrite I1, I2, I3, I4.
      splits; symmetry;
        match goal with
        | |- _ = (?c <? ?d) => destruct (Z.ltb_spec c d)
        | |- _ = (?c <=? ?d) => destruct (Z.leb_spec c d)
        end; (apply Z.ltb_lt || apply Z.leb_le || apply Z.ltb_ge || apply Z.leb_gt); lia.
Qed.

Lemma comparisons_ok a b :
  ok a -> ok b ->
  op_less WIDTH a b = (val a <? val b) /\ op_less_eq WIDTH a b = (val a <=? val b) /\
  op_greater WIDTH a b = (val b <? val a) /\ op_greater_eq WIDTH a b = (val b <=? val a).
Proof.
  intros Ha Hb. pose proof (less_from_ok WIDTH a b Ha Hb ltac:(lia)) as C.
  rewrite !firstn_all2 in C by (destruct Ha, Hb; lia). exact C.
Qed.

Lemma op_equal_ok a b : ok a -> ok b -> op_equal WIDTH a b = (val a =? val b).
Proof.
  intros Ha Hb. unfold op_equal. destruct (Z.eqb_spec (val a) (val b)) as [E|N].
  - rewrite (val_inj WIDTH a b Ha Hb E). apply forallb_forall. intros i _. apply Z.eqb_refl.
  - apply not_true_iff_false. intros T. apply N. f_equal.
    apply (nth_ext' _ _ 0); [destruct Ha, Hb; congruence|]. intros i Hi.
    apply Z.eqb_eq. apply (forallb_seq _ _ T). destruct Ha; lia.
Qed.

Lemma op_is_zero_ok a : ok a -> op_is_zero WIDTH a = (val a =? 0).
Proof.
  intros Ha. destruct zeros_ok as [Oz Vz]. rewrite <- Vz, <- op_equal_ok by assumption.
  unfold op_is_zero, op_equal. induction (seq 0 WIDTH) as [|i l IH]; [reflexivity|].
  cbn [forallb]. rewrite IH. f_equal. f_equal. unfold zeros, pn_at.
  destruct (Nat.lt_ge_cases i WIDTH); [now rewrite nth_repeat_lt|].
  now rewrite nth_overflow by (rewrite repeat_length; lia).
Qed.

(** ** The 64-bit operands *)

Lemma fold_upd_zero l (pn : list Z) j :
  (forall i, In i l -> (i < length pn)%nat) ->
  length (fold_left (fun pn i => upd pn i 0) l pn) = length pn /\
  nth j (fold_left (fun pn i => upd pn i 0) l pn) 0 =
    if existsb (Nat.eqb j) l then 0 else nth j pn 0.
Proof.
  revert pn. induction l as [|i l IH]; intros pn H; [now split|]. cbn [fold_left existsb].
  destruct (IH (upd pn i 0)) as [L N].
  { intros k Hk. rewrite length_upd. apply H. now right. }
  rewrite L, N, length_upd. split; [reflexivity|].
  rewrite nth_upd by (apply H; now left). destruct (existsb _ l), (j =? i)%nat; reflexivity.
Qed.

Lemma op_assign64_ok pn b :
  (2 <= WIDTH)%nat -> length pn = WIDTH -> word 64 b ->
  ok (op_assign64 WIDTH pn b) /\ val (op_assign64 WIDTH pn b) = b.
Proof.
  intros Hw L Hb. unfold op_assign64.
  set (p1 := upd (upd pn 0 (trunc 32 b)) 1 (trunc 32 (b >> 32))).
  assert (L1 : length p1 = WIDTH) by (subst p1; now rewrite !length_upd).
  assert (E : fold_left (fun pn i => upd pn i 0) (seq 2 (WIDTH - 2)) p1 =
              trunc 32 b :: trunc 32 (b >> 32) :: repeat 0 (WIDTH - 2)).
  { destruct (fold_upd_zero (seq 2 (WIDTH - 2)) p1 0) as [L2 _]; [intros i Hi%in_seq; lia|].
    apply (nth_ext' _ _ 0); [cbn [length]; rewrite repeat_length; lia|]. intros j Hj.
    destruct (fold_upd_zero (seq 2 (WIDTH - 2)) p1 j) as [_ ->]; [intros i Hi%in_seq; lia|].
    destruct (existsb (Nat.eqb j) (seq 2 (WIDTH - 2))) eqn:X.
    - apply existsb_exists in X. destruct X as (i & Hi%in_seq & <-%Nat.eqb_eq).
      destruct j as [|[|j]]; [lia|lia|]. cbn [nth]. now rewrite nth_repeat_lt by lia.
    - destruct j as [|[|j]]; subst p1.
      + rewrite !nth_upd by (rewrite ?length_upd; lia). reflexivity.
      + rewrite !nth_upd by (rewrite ?length_upd; lia). reflexivity.
      + exfalso. apply not_true_iff_false in X. apply X, existsb_exists. exists (S (S j)).
        split; [apply in_seq; lia|apply Nat.eqb_refl]. }
  rewrite E. assert (Z0 : forall n, val (repeat 0 n) = 0)
    by (induction n as [|n IH]; [reflexivity|]; cbn [repeat val]; now rewrite IH).
  split.
  - split; [cbn [length]; rewrite repeat_length; lia|].
    constructor; [apply trunc_word; lia|]. constructor; [apply trunc_word; lia|].
    apply Forall_repeat'. apply word_0; lia.
  - cbn [val]. rewrite Z0, Z.mul_0_r, Z.add_0_r, !trunc_mod, Z.shiftr_div_pow2 by lia.
    unfold word in Hb. change (2 ^ 32) with 4294967296. dlia.
Qed.

Lemma op_add64_ok a b :
  (2 <= WIDTH)%nat -> ok a -> word 64 b ->
  (ok (op_add_assign64 WIDTH a b) /\ val (op_add_assign64 WIDTH a b) = (val a + b) mod 2 ^ BITS) /\
  (ok (op_sub_assign64 WIDTH a b) /\ val (op_sub_assign64 WIDTH a b) = (val a - b) mod 2 ^ BITS).
Proof.
  intros Hw Ha Hb. destruct (op_assign64_ok (zeros WIDTH) b Hw (proj1 (proj1 zeros_ok)) Hb) as [O V].
  split.
  - destruct (op_add_assign_ok a _ Ha O) as [O1 V1]. rewrite V in V1. now split.
  - destruct (op_sub_assign_ok a _ Ha O) as [O1 V1]. rewrite V in V1. now split.
Qed.

(** ** Shifts

    What the loops have written in word [j] after [n] turns. *)

Lemma upd_or_nth pn i y j :
  (i < length pn)%nat ->
  nth j (upd pn i (pn_at pn i .| y)) 0 = nth j pn 0 .| (if (j =? i)%nat then y else 0).
Proof.
  intros Hi. rewrite nth_upd by assumption. unfold pn_at.
  destruct (Nat.eqb_spec j i) as [->|]; [reflexivity|now rewrite Z.lor_0_r].
Qed.

(** A loop whose turn [i] adds [f i] to word [t1 i] and [g i] to word [t2 i], where [t1 i] and
    [t2 i] are [None] when the code has no assignment. *)
Lemma or_loop (f g : nat -> Z) (t1 t2 : nat -> option nat) n pn j :
  (forall i k, t1 i = Some k -> (k < length pn)%nat) ->
  (forall i k, t2 i = Some k -> (k < length pn)%nat) ->
  let body i pn :=
    let pn := match t1 i with Some k => upd pn k (pn_at pn k .| f i) | None => pn end in
    match t2 i with Some k => upd pn k (pn_at pn k .| g i) | None => pn end in
  length (for_i n body pn) = length pn /\
  nth j (for_i n body pn) 0 =
    fold_left (fun acc i => acc .| (if match t1 i with Some k => (j =? k)%nat | None => false end then f i else 0)
                                .| (if match t2 i with Some k => (j =? k)%nat | None => false end then g i else 0))
      (seq 0 n) (nth j pn 0).
Proof.
  intros H1 H2 body. unfold for_i. induction n as [|n IH]; [now split|].
  rewrite seq_S, !fold_left_app. cbn [fold_left Nat.add]. destruct IH as [L N].
  set (r := fold_left _ (seq 0 n) pn) in *. rewrite <- N. unfold body.
  destruct (t1 n) as [k1|] eqn:E1, (t2 n) as [k2|] eqn:E2;
    try (pose proof (H1 n k1 E1)); try (pose proof (H2 n k2 E2));
    rewrite ?length_upd, ?upd_or_nth, ?Z.lor_0_r by (rewrite ?length_upd; lia); auto.
Qed.

(** A sum of terms that are zero except at one index. *)
Lemma fold_or_one (h : nat -> Z) n x :
  fold_left (fun acc i => acc .| h i) (seq 0 n) x =
  x .| fold_left (fun acc i => acc .| h i) (seq 0 n) 0.
Proof.
  induction n as [|n IH]; [now rewrite Z.lor_0_r|]. rewrite seq_S, !fold_left_app. cbn [fold_left].
  now rewrite IH, Z.lor_assoc.
Qed.

Lemma fold_or_pick (h : nat -> Z) n i0 :
  (forall i, (i < n)%nat -> i <> i0 -> h i = 0) ->
  fold_left (fun acc i => acc .| h i) (seq 0 n) 0 = if (i0 <? n)%nat then h i0 else 0.
Proof.
  intros H. induction n as [|n IH]; [reflexivity|]. rewrite seq_S, fold_left_app. cbn [fold_left Nat.add].
  rewrite IH by (intros; apply H; lia).
  destruct (Nat.eq_dec n i0) as [->|N].
  - rewrite Nat.ltb_irrefl. now rewrite (proj2 (Nat.ltb_lt i0 (S i0))) by lia.
  - rewrite (H n), Z.lor_0_r by lia. destruct (Nat.ltb_spec i0 n), (Nat.ltb_spec i0 (S n)); lia || reflexivity.
Qed.

Lemma fold_or_split (h1 h2 : nat -> Z) n x :
  fold_left (fun acc i => acc .| h1 i .| h2 i) (seq 0 n) x =
  x .| fold_left (fun acc i => acc .| h1 i) (seq 0 n) 0 .| fold_left (fun acc i => acc .| h2 i) (seq 0 n) 0.
Proof.
  induction n as [|n IH]; [now rewrite !Z.lor_0_r|]. rewrite seq_S, !fold_left_app. cbn [fold_left].
  rewrite IH. bitwise k Hk. btauto.
Qed.

Lemma for_i_ext {A} n (f g : nat -> A -> A) a : (forall i a, f i a = g i a) -> for_i n f a = for_i n g a.
Proof.
  intros H. unfold for_i. revert a. induction (seq 0 n) as [|i l IH]; intros a; [reflexivity|].
  cbn [fold_left]. now rewrite H, IH.
Qed.

Lemma zeroing_loop pn :
  length pn = WIDTH -> for_i WIDTH (fun i pn => upd pn i 0) pn = repeat 0 WIDTH.
Proof.
  intros H. rewrite (set_loop (fun _ => 0)) by assumption.
  apply (nth_ext' _ _ 0); rewrite length_map, length_seq; [now rewrite repeat_length|].
  intros i Hi. rewrite nth_map_seq by assumption. symmetry. apply nth_repeat.
Qed.

(** The index an assignment of the loops of the shifts writes, when it is made. *)
Definition target (made : bool) (j : Z) : option nat := if made then Some (Z.to_nat j) else None.

Lemma target_Some made j k : target made j = Some k -> made = true /\ k = Z.to_nat j.
Proof. destruct made; [intros [= <-]; auto|discriminate]. Qed.

Lemma op_shl_words pn shift :
  ok pn -> 0 <= shift ->
  length (op_shl_assign WIDTH pn shift) = WIDTH /\
  forall j, (j < WIDTH)%nat ->
    pn_at (op_shl_assign WIDTH pn shift) j =
      (let q := Z.of_nat j - shift / 32 in
       (if (0 <=? q - 1) && negb (shift mod 32 =? 0)
        then pn_at pn (Z.to_nat (q - 1)) >> (32 - shift mod 32) else 0) .|
       (if 0 <=? q then shl 32 (pn_at pn (Z.to_nat q)) (shift mod 32) else 0)).
Proof.
  intros Hpn Hs. unfold op_shl_assign. rewrite zeroing_loop by apply Hpn.
  set (k := shift / 32). set (sh := shift mod 32). assert (Hk : 0 <= k) by (apply Z.div_pos; lia).
  set (c1 i := (Z.of_nat i + k + 1 <? Z.of_nat WIDTH) && negb (sh =? 0)).
  set (c2 i := Z.of_nat i + k <? Z.of_nat WIDTH).
  rewrite (for_i_ext _ _ (fun i pn0 =>
    let pn0 := match target (c1 i) (Z.of_nat i + k + 1) with
      | Some t => upd pn0 t (pn_at pn0 t .| (pn_at pn i >> (32 - sh))) | None => pn0 end in
    match target (c2 i) (Z.of_nat i + k) with
    | Some t => upd pn0 t (pn_at pn0 t .| shl 32 (pn_at pn i) sh) | None => pn0 end))
    by (intros i a; unfold target, c1, c2; destruct (_ && _), (_ <? _); reflexivity).
  assert (T1 : forall i t, target (c1 i) (Z.of_nat i + k + 1) = Some t -> (t < length (repeat 0%Z WIDTH))%nat).
  { intros i t [H ->]%target_Some. unfold c1 in H. rewrite andb_true_iff, Z.ltb_lt in H.
    rewrite repeat_length. lia. }
  assert (T2 : forall i t, target (c2 i) (Z.of_nat i + k) = Some t -> (t < length (repeat 0%Z WIDTH))%nat).
  { intros i t [H ->]%target_Some. unfold c2 in H. rewrite Z.ltb_lt in H. rewrite repeat_length. lia. }
  pose proof (fun j => or_loop (fun i => pn_at pn i >> (32 - sh)) (fun i => shl 32 (pn_at pn i) sh)
    _ _ WIDTH (repeat 0 WIDTH) j T1 T2) as R. cbv zeta beta in R |- *.
  split; [now rewrite (proj1 (R 0%nat)), repeat_length|].
  intros j Hj. unfold pn_at at 1. rewrite (proj2 (R j)). clear R T1 T2.
    rewrite nth_repeat, fold_or_split, Z.lor_0_l. f_equal; cbv zeta.
    + rewrite (fold_or_pick _ WIDTH (Z.to_nat (Z.of_nat j - k - 1))).
      * unfold target, c1. destruct (Z.eqb_spec sh 0); cbn [negb]; rewrite ?andb_false_r, ?andb_true_r.
        { now destruct (_ <? _)%nat. }
        destruct (Z.leb_spec 0 (Z.of_nat j - k - 1)).
        { rewrite (proj2 (Nat.ltb_lt _ _)), Z2Nat.id, (proj2 (Z.ltb_lt _ _)), (proj2 (Nat.eqb_eq _ _)) by lia.
          reflexivity. }
        { replace (Z.to_nat (Z.of_nat j - k - 1)) with 0%nat by lia.
          destruct (0 <? WIDTH)%nat; [|reflexivity].
          destruct (Z.of_nat 0 + k + 1 <? Z.of_nat WIDTH); [|reflexivity].
          rewrite (proj2 (Nat.eqb_neq _ _)) by lia. reflexivity. }
      * intros i Hi N. unfold target, c1. destruct (_ && _) eqn:E; [|reflexivity].
        rewrite (proj2 (Nat.eqb_neq _ _)) by lia. reflexivity.
    + rewrite (fold_or_pick _ WIDTH (Z.to_nat (Z.of_nat j - k))).
      * unfold target, c2. destruct (Z.leb_spec 0 (Z.of_nat j - k)).
        { rewrite (proj2 (Nat.ltb_lt _ _)), Z2Nat.id, (proj2 (Z.ltb_lt _ _)), (proj2 (Nat.eqb_eq _ _)) by lia.
          reflexivity. }
        { replace (Z.to_nat (Z.of_nat j - k)) with 0%nat by lia.
          destruct (0 <? WIDTH)%nat; [|reflexivity].
          destruct (Z.of_nat 0 + k <? Z.of_nat WIDTH); [|reflexivity].
          rewrite (proj2 (Nat.eqb_neq _ _)) by lia. reflexivity. }
      * intros i Hi N. unfold target, c2. destruct (_ <? _) eqn:E; [|reflexivity].
        rewrite (proj2 (Nat.eqb_neq _ _)) by lia. reflexivity.
Qed.

(** The same on the turns that are made. *)
Lemma for_i_ext_lt {A} n (f g : nat -> A -> A) a :
  (forall i a, (i < n)%nat -> f i a = g i a) -> for_i n f a = for_i n g a.
Proof.
  intros H. unfold for_i. assert (G : forall l a, (forall i, In i l -> (i < n)%nat) ->
    fold_left (fun a i => f i a) l a = fold_left (fun a i => g i a) l a).
  { induction l as [|i l IH]; intros b Hl; [reflexivity|]. cbn [fold_left].
    rewrite H by (apply Hl; now left). apply IH. intros j Hj. apply Hl. now right. }
  apply G. intros i Hi%in_seq. lia.
Qed.

Lemma op_shr_words pn shift :
  ok pn -> 0 <= shift ->
  length (op_shr_assign WIDTH pn shift) = WIDTH /\
  forall j, (j < WIDTH)%nat ->
    pn_at (op_shr_assign WIDTH pn shift) j =
      (let q := Z.of_nat j + shift / 32 in
       (if (q + 1 <? Z.of_nat WIDTH) && negb (shift mod 32 =? 0)
        then shl 32 (pn_at pn (Z.to_nat (q + 1))) (32 - shift mod 32) else 0) .|
       (if q <? Z.of_nat WIDTH then pn_at pn (Z.to_nat q) >> (shift mod 32) else 0)).
Proof.
  intros Hpn Hs. unfold op_shr_assign. rewrite zeroing_loop by apply Hpn.
  set (k := shift / 32). set (sh := shift mod 32). assert (Hk : 0 <= k) by (apply Z.div_pos; lia).
  set (c1 i := (0 <=? Z.of_nat i - k - 1) && negb (sh =? 0) && (i <? WIDTH)%nat).
  set (c2 i := (0 <=? Z.of_nat i - k) && (i <? WIDTH)%nat).
  rewrite (for_i_ext_lt _ _ (fun i pn0 =>
    let pn0 := match target (c1 i) (Z.of_nat i - k - 1) with
      | Some t => upd pn0 t (pn_at pn0 t .| shl 32 (pn_at pn i) (32 - sh)) | None => pn0 end in
    match target (c2 i) (Z.of_nat i - k) with
    | Some t => upd pn0 t (pn_at pn0 t .| (pn_at pn i >> sh)) | None => pn0 end)).
  2: { intros i a Hi. unfold target, c1, c2. rewrite (proj2 (Nat.ltb_lt _ _) Hi), !andb_true_r.
       destruct (_ && _), (_ <=? _); reflexivity. }
  assert (T1 : forall i t, target (c1 i) (Z.of_nat i - k - 1) = Some t -> (t < length (repeat 0%Z WIDTH))%nat).
  { intros i t [H ->]%target_Some. unfold c1 in H. rewrite !andb_true_iff, Z.leb_le, Nat.ltb_lt in H.
    rewrite repeat_length. lia. }
  assert (T2 : forall i t, target (c2 i) (Z.of_nat i - k) = Some t -> (t < length (repeat 0%Z WIDTH))%nat).
  { intros i t [H ->]%target_Some. unfold c2 in H. rewrite andb_true_iff, Z.leb_le, Nat.ltb_lt in H.
    rewrite repeat_length. lia. }
  pose proof (fun j => or_loop (fun i => shl 32 (pn_at pn i) (32 - sh)) (fun i => pn_at pn i >> sh)
    _ _ WIDTH (repeat 0 WIDTH) j T1 T2) as R. cbv zeta beta in R |- *.
  split; [now rewrite (proj1 (R 0%nat)), repeat_length|].
  intros j Hj. unfold pn_at at 1. rewrite (proj2 (R j)). clear R T1 T2.
  rewrite nth_repeat, fold_or_split, Z.lor_0_l. f_equal.
  - rewrite (fold_or_pick _ WIDTH (Z.to_nat (Z.of_nat j + k + 1))).
    + unfold target, c1. rewrite Z2Nat.id by lia.
      destruct (Z.eqb_spec sh 0); cbn [negb]; rewrite ?andb_false_r, ?andb_true_r.
      { now destruct (_ <? _)%nat. }
      destruct (Z.ltb_spec (Z.of_nat j + k + 1) (Z.of_nat WIDTH)).
      * rewrite (proj2 (Nat.ltb_lt _ _)), (proj2 (Z.leb_le _ _)) by lia. cbn [andb].
        rewrite (proj2 (Nat.eqb_eq _ _)) by lia. reflexivity.
      * rewrite (proj2 (Nat.ltb_ge _ _)) by lia. reflexivity.
    + intros i Hi N. unfold target. destruct (c1 i) eqn:E; [|reflexivity].
      unfold c1 in E. rewrite !andb_true_iff, Z.leb_le in E.
      rewrite (proj2 (Nat.eqb_neq _ _)) by lia. reflexivity.
  - rewrite (fold_or_pick _ WIDTH (Z.to_nat (Z.of_nat j + k))).
    + unfold target, c2. rewrite Z2Nat.id by lia.
      destruct (Z.ltb_spec (Z.of_nat j + k) (Z.of_nat WIDTH)).
      * rewrite (proj2 (Nat.ltb_lt _ _)), (proj2 (Z.leb_le _ _)) by lia. cbn [andb].
        rewrite (proj2 (Nat.eqb_eq _ _)) by lia. reflexivity.
      * rewrite (proj2 (Nat.ltb_ge _ _)) by lia. reflexivity.
    + intros i Hi N. unfold target. destruct (c2 i) eqn:E; [|reflexivity].
      unfold c2 in E. rewrite andb_true_iff, Z.leb_le in E.
      rewrite (proj2 (Nat.eqb_neq _ _)) by lia. reflexivity.
Qed.

(** On the values: a product and a quotient by a power of 2, modulo 2^BITS. *)
Lemma op_shl_ok pn shift :
  ok pn -> 0 <= shift ->
  ok (op_shl_assign WIDTH pn shift) /\
  val (op_shl_assign WIDTH pn shift) = (val pn * 2 ^ shift) mod 2 ^ BITS.
Proof.
  intros Hpn Hs. destruct (op_shl_words pn shift Hpn Hs) as [L N]. cbv zeta in N.
  assert (O : ok (op_shl_assign WIDTH pn shift)).
  { apply ok_intro; [assumption|]. intros j Hj. rewrite N by assumption. apply lor_word; [lia| |].
    - destruct (_ && _); [apply shiftr_word; [lia|dlia|now apply words_nth]|apply word_0; lia].
    - destruct (_ <=? _); [apply shl_word; lia|apply word_0; lia]. }
  split; [assumption|]. rewrite <- Z.shiftl_mul_pow2, <- trunc_mod by lia.
  apply (val_eq WIDTH); [assumption|apply trunc_word; lia|]. intros j m Hj Hm.
  rewrite N, trunc_testbit, shiftl_testbit, (proj2 (Z.ltb_lt _ _)) by lia. cbn [andb]. rewrite Z.lor_spec.
  set (q := Z.of_nat j - shift / 32). pose proof (Z.div_mod shift 32) as D.
  pose proof (Z.mod_pos_bound shift 32) as B. set (sh := shift mod 32) in *.
  assert (E : 32 * Z.of_nat j + m - shift = 32 * q + (m - sh)) by lia. rewrite E.
  destruct (Z.leb_spec sh m) as [H|H].
  - replace (Z.testbit (if (0 <=? q - 1) && negb (sh =? 0) then _ else 0) m) with false.
    2: { destruct (_ && _) eqn:C; [|now rewrite Z.testbit_0_l].
         rewrite Z.shiftr_spec by lia. symmetry. apply (word_testbit_high 32); [lia|now apply words_nth|lia]. }
    cbn [orb]. destruct (Z.leb_spec 0 q).
    + rewrite shl_testbit, (proj2 (Z.leb_le shift _)), val_testbit by (apply Hpn || lia). decide_cmp. cbn [andb].
      replace ((32 * q + (m - sh)) / 32) with q by dlia. f_equal. dlia.
    + rewrite Z.testbit_0_l, (proj2 (Z.leb_gt shift _)) by lia. reflexivity.
  - replace (Z.testbit (if 0 <=? q then _ else 0) m) with false.
    2: { destruct (0 <=? q); [|now rewrite Z.testbit_0_l]. rewrite shl_testbit by lia. decide_cmp.
         now rewrite ?andb_false_r. }
    rewrite orb_false_r. rewrite (proj2 (Z.eqb_neq sh 0)) by lia. cbn [negb]. rewrite andb_true_r.
    destruct (Z.leb_spec 0 (q - 1)).
    + rewrite Z.shiftr_spec, (proj2 (Z.leb_le shift _)), val_testbit by (apply Hpn || lia). cbn [andb].
      replace ((32 * q + (m - sh)) / 32) with (q - 1) by dlia. f_equal. dlia.
    + rewrite Z.testbit_0_l, (proj2 (Z.leb_gt shift _)) by lia. reflexivity.
Qed.

Lemma op_shr_ok pn shift :
  ok pn -> 0 <= shift ->
  ok (op_shr_assign WIDTH pn shift) /\ val (op_shr_assign WIDTH pn shift) = val pn / 2 ^ shift.
Proof.
  intros Hpn Hs. destruct (op_shr_words pn shift Hpn Hs) as [L N]. cbv zeta in N.
  assert (O : ok (op_shr_assign WIDTH pn shift)).
  { apply ok_intro; [assumption|]. intros j Hj. rewrite N by assumption. apply lor_word; [lia| |].
    - destruct (_ && _); [apply shl_word; lia|apply word_0; lia].
    - destruct (_ <? _); [apply shiftr_word; [lia|dlia|now apply words_nth]|apply word_0; lia]. }
  split; [assumption|]. rewrite <- Z.shiftr_div_pow2 by lia.
  apply (val_eq WIDTH); [assumption|apply shiftr_word; [lia|lia|now apply val_word]|]. intros j m Hj Hm.
  rewrite N, Z.shiftr_spec, val_testbit, Z.lor_spec by (apply Hpn || lia).
  set (q := Z.of_nat j + shift / 32). pose proof (Z.div_mod shift 32) as D.
  pose proof (Z.mod_pos_bound shift 32) as B. set (sh := shift mod 32) in *.
  assert (E : 32 * Z.of_nat j + m + shift = 32 * q + (m + sh)) by lia. rewrite E.
  assert (Hq : 0 <= q) by (subst q; pose proof (Z.div_pos shift 32); lia).
  assert (Out : forall i b, Z.of_nat WIDTH <= i -> Z.testbit (pn_at pn (Z.to_nat i)) b = false).
  { intros i b Hi. unfold pn_at. rewrite nth_overflow by (destruct Hpn; lia). apply Z.testbit_0_l. }
  destruct (Z.lt_ge_cases (m + sh) 32) as [H|H].
  - replace ((32 * q + (m + sh)) / 32) with q by dlia.
    replace ((32 * q + (m + sh)) mod 32) with (m + sh) by dlia.
    replace (Z.testbit (if (q + 1 <? _) && negb (sh =? 0) then _ else 0) m) with false.
    2: { destruct (_ && _); [|now rewrite Z.testbit_0_l]. rewrite shl_testbit by lia. decide_cmp.
         now rewrite ?andb_false_r. }
    cbn [orb]. destruct (Z.ltb_spec q (Z.of_nat WIDTH)); [now rewrite Z.shiftr_spec by lia|].
    now rewrite Out, Z.testbit_0_l by lia.
  - replace ((32 * q + (m + sh)) / 32) with (q + 1) by dlia.
    replace ((32 * q + (m + sh)) mod 32) with (m + sh - 32) by dlia.
    replace (Z.testbit (if q <? _ then _ else 0) m) with false.
    2: { destruct (q <? _); [|now rewrite Z.testbit_0_l]. rewrite Z.shiftr_spec by lia. symmetry.
         apply (word_testbit_high 32); [lia|now apply words_nth|lia]. }
    rewrite orb_false_r. rewrite (proj2 (Z.eqb_neq sh 0)) by lia. cbn [negb]. rewrite andb_true_r.
    destruct (Z.ltb_spec (q + 1) (Z.of_nat WIDTH)); [|now rewrite Out, Z.testbit_0_l by lia].
    rewrite shl_testbit by lia. decide_cmp. cbn [andb]. f_equal. lia.
Qed.

(** ** Access to 64 bits *)

Lemma op_equal64_ok a b :
  (2 <= WIDTH)%nat -> ok a -> word 64 b -> op_equal64 WIDTH a b = (val a =? b).
Proof.
  intros Hw Ha Hb. destruct (op_assign64_ok a b Hw (proj1 Ha) Hb) as [O V].
  rewrite <- V at 2. rewrite <- op_equal_ok by assumption. unfold op_equal64, op_equal.
  assert (S : seq 0 WIDTH = 0%nat :: 1%nat :: seq 2 (WIDTH - 2)).
  { replace WIDTH with (2 + (WIDTH - 2))%nat at 1 by lia. reflexivity. }
  rewrite S. cbn [forallb]. unfold op_assign64. clear S.
  set (p1 := upd (upd a 0 (trunc 32 b)) 1 (trunc 32 (b >> 32))).
  assert (L1 : length p1 = WIDTH) by (subst p1; rewrite !length_upd; apply Ha).
  assert (P : forall i, (i < WIDTH)%nat -> pn_at (fold_left (fun pn i => upd pn i 0) (seq 2 (WIDTH - 2)) p1) i =
    match i with 0%nat => trunc 32 b | 1%nat => trunc 32 (b >> 32) | _ => 0 end).
  { intros i Hi. unfold pn_at. destruct (fold_upd_zero (seq 2 (WIDTH - 2)) p1 i) as [_ ->];
      [intros k Hk%in_seq; lia|].
    destruct (existsb (Nat.eqb i) (seq 2 (WIDTH - 2))) eqn:X.
    - apply existsb_exists in X. destruct X as (k & Hk%in_seq & <-%Nat.eqb_eq).
      destruct i as [|[|i]]; [lia|lia|reflexivity].
    - destruct Ha as [La _].
      destruct i as [|[|i]]; subst p1; [now rewrite !nth_upd by (rewrite ?length_upd; lia)..|].
      exfalso. apply not_true_iff_false in X. apply X, existsb_exists. exists (S (S i)).
      split; [apply in_seq; lia|apply Nat.eqb_refl]. }
  rewrite !P by lia. rewrite andb_assoc. f_equal. apply forallb_ext_in'. intros i Hi%in_seq.
  rewrite P by lia. destruct i as [|[|i]]; [lia|lia|reflexivity].
Qed.

Lemma Get64_ok a n :
  ok a -> (2 * n + 1 < WIDTH)%nat -> Get64 a n = (val a / 2 ^ (64 * Z.of_nat n)) mod 2 ^ 64.
Proof.
  intros Ha Hn. unfold Get64. rewrite <- trunc_mod, <- Z.shiftr_div_pow2 by lia.
  bitwise k Hk. rewrite val_testbit by (apply Ha || lia).
  destruct (Z.ltb_spec k 64); cbn [andb].
  - destruct (Z.leb_spec 32 k); cbn [andb].
    + rewrite (word_testbit_high 32 (pn_at a (2 * n))) by (now apply words_nth || lia). cbn [orb].
      f_equal; [f_equal; dlia|dlia].
    + rewrite orb_false_r. f_equal; [f_equal; dlia|dlia].
  - rewrite (word_testbit_high 32 (pn_at a (2 * n))) by (now apply words_nth || lia). cbn [orb].
    rewrite (word_testbit_high 32 (pn_at a (2 * n + 1))) by (now apply words_nth || lia).
    apply andb_false_r.
Qed.
End Proofs.

(** ** uint512::trim256 *)

Lemma trim256_firstn pn : length pn = 16%nat -> trim256 pn = firstn 8 pn.
Proof. intros L. expose_list pn 16. reflexivity. Qed.

Lemma val_firstn_mod n k pn :
  words_ok n pn -> (k <= n)%nat -> val (firstn k pn) = val pn mod 2 ^ (32 * Z.of_nat k).
Proof.
  intros [L F] Hk. pose proof (val_range (firstn k pn) (Forall_firstn' _ k _ F)) as R.
  rewrite length_firstn, Nat.min_l in R by lia.
  rewrite <- (firstn_skipn k pn) at 2. rewrite val_app, length_firstn, Nat.min_l by lia.
  rewrite Z.mul_comm, Z_mod_plus_full. symmetry. now apply Z.mod_small.
Qed.

Lemma trim256_ok pn :
  words_ok 16 pn -> words_ok 8 (trim256 pn) /\ val (trim256 pn) = val pn mod 2 ^ 256.
Proof.
  intros H. rewrite trim256_firstn by apply H. split.
  - split; [rewrite length_firstn; destruct H; lia|now apply Forall_firstn', H].
  - rewrite (val_firstn_mod 16) by (assumption || lia). reflexivity.
Qed.
