(* ===== verification/Uint256Hex.v ===== *)
(** * Hexadecimal strings of uint256.h

    [SetHex] reads a number in base 16, [GetHex] writes it: their values, and
    the round trip, which holds on a machine of any byte order. *)

From Stdlib Require Import ZArith List Lia Bool.
From S2P Require Import Prelude SphTypes Uint256 Uint256Proof.
Import ListNotations.

(** ** Numbers in a base, least significant digit first *)

Fixpoint base_val (B : Z) (l : list Z) : Z :=
  match l with [] => 0 | x :: t => x + B * base_val B t end.

Lemma base_val_app B a b : base_val B (a ++ b) = base_val B a + B ^ Z.of_nat (length a) * base_val B b.
Proof.
  induction a as [|x a IH]; [cbn [app base_val length]; change (B ^ Z.of_nat 0) with 1; lia|].
  cbn [app base_val length]. rewrite IH, Nat2Z.inj_succ, Z.pow_succ_r by lia. ring.
Qed.

Lemma base_val_upd B l i y :
  (i < length l)%nat -> base_val B (upd l i y) = base_val B l + (y - nth i l 0) * B ^ Z.of_nat i.
Proof.
  revert i. induction l as [|x l IH]; intros i Hi; [cbn in Hi; lia|]. destruct i as [|i].
  - cbn [upd base_val nth]. change (B ^ Z.of_nat 0) with 1. ring.
  - cbn [length] in Hi. cbn [upd base_val nth]. rewrite IH, Nat2Z.inj_succ, Z.pow_succ_r by lia. ring.
Qed.

Definition digits (B : Z) (l : list Z) : Prop := Forall (fun d => 0 <= d < B) l.

Lemma base_val_range B l : 0 < B -> digits B l -> 0 <= base_val B l < B ^ Z.of_nat (length l).
Proof.
  intros HB H. induction H as [|x l Hx _ IH]; [cbn; lia|].
  cbn [base_val length]. rewrite Nat2Z.inj_succ, Z.pow_succ_r by lia. nia.
Qed.

Lemma base_val_inj B a b :
  0 < B -> digits B a -> digits B b -> length a = length b -> base_val B a = base_val B b -> a = b.
Proof.
  intros HB Ha. revert b. induction Ha as [|x a Hx Ha IH]; intros b Hb L E; destruct b as [|y b];
    try discriminate; [reflexivity|].
  inversion Hb as [|? ? Hy Hb']; subst. cbn [base_val] in E. injection L as L.
  assert (x = y) as ->; [|f_equal; apply IH; [assumption|assumption|nia]].
  pose proof (Z.mod_unique_pos (x + B * base_val B a) B (base_val B a) x ltac:(lia) ltac:(lia)) as U.
  pose proof (Z.mod_unique_pos (x + B * base_val B a) B (base_val B b) y ltac:(lia) ltac:(lia)) as V.
  congruence.
Qed.

Lemma base_val_zeros B n : base_val B (repeat 0 n) = 0.
Proof. induction n as [|n IH]; [reflexivity|]. cbn [repeat base_val]. rewrite IH. ring. Qed.

Lemma bytes_digits l : bytes l <-> digits 256 l.
Proof. reflexivity. Qed.

(** The bytes of the words. *)
Lemma base_val_store n v : word (8 * Z.of_nat n) v -> base_val 256 (le_store n v) = v.
Proof.
  revert v. induction n as [|n IH]; intros v Hv.
  - unfold word in Hv. change (2 ^ (8 * Z.of_nat 0)) with 1 in Hv. cbn. lia.
  - cbn [le_store base_val]. unfold word in *. rewrite Nat2Z.inj_succ, Z.mul_succ_r, Z.pow_add_r in Hv by lia.
    rewrite IH by (rewrite Z.shiftr_div_pow2 by lia; dlia).
    rewrite trunc_mod, Z.shiftr_div_pow2 by lia. change (2 ^ 8) with 256. dlia.
Qed.

Lemma length_native_store p n v : length (native_store p n v) = n.
Proof. unfold native_store. destruct (order p); (apply length_le_store || apply length_be_store). Qed.

Lemma bytes_native_store p n v : bytes (native_store p n v).
Proof. unfold native_store. destruct (order p); (apply bytes_le_store || apply bytes_be_store). Qed.

Lemma native_load_store p n v rest :
  word (8 * Z.of_nat n) v -> native_load p n (native_store p n v ++ rest) = v.
Proof.
  intros Hv. unfold native_load, native_store. destruct (order p).
  - rewrite le_load_app by apply length_le_store. now apply le_load_store.
  - rewrite <- (be_load_store n v Hv) at 2. unfold be_load.
    rewrite firstn_app, length_be_store, Nat.sub_diag, firstn_O. now rewrite app_nil_r.
  - rewrite le_load_app by apply length_le_store. now apply le_load_store.
Qed.

Lemma native_store_load p n b : bytes b -> length b = n -> native_store p n (native_load p n b) = b.
Proof.
  intros Hb Hl. assert (E : be_store n (be_load n b) = b).
  { unfold be_store, be_load. rewrite firstn_all2 by lia.
    rewrite le_store_load; [apply rev_involutive|now apply Forall_rev|now rewrite length_rev]. }
  unfold native_load, native_store. now destruct (order p); try apply le_store_load.
Qed.

Lemma native_load_word p n b : bytes b -> word (8 * Z.of_nat n) (native_load p n b).
Proof. intros H. unfold native_load. destruct (order p); [|apply be_load_word|]; try assumption; now apply le_load_word. Qed.

Lemma native_store_mod p n v : native_store p n (v mod 2 ^ (8 * Z.of_nat n)) = native_store p n v.
Proof. unfold native_store, be_store. now destruct (order p); rewrite le_store_mod. Qed.

Section Hex.
  Variable WIDTH : nat.
  Variable p : platform.
  Abbreviation ok := (words_ok WIDTH).

Lemma memory_length pn : length pn = WIDTH -> length (memory p pn) = (4 * WIDTH)%nat.
Proof.
  intros <-. unfold memory. induction pn as [|x pn IH]; [reflexivity|].
  cbn [map concat length]. rewrite length_app, IH, length_native_store. lia.
Qed.

Lemma memory_bytes pn : bytes (memory p pn).
Proof.
  apply Forall_concat, Forall_map, Forall_forall. intros x _. apply bytes_native_store.
Qed.

(** Reading the memory back as words. *)
Lemma of_memory_memory pn : ok pn -> of_memory WIDTH p (memory p pn) = pn.
Proof.
  intros [<- F]. unfold of_memory. induction F as [|x pn Hx F IH]; [reflexivity|].
  cbn [length seq map]. rewrite <- seq_shift, map_map. unfold memory in *. cbn [map concat].
  pose proof (length_native_store p 4 x) as L.
  f_equal.
  - rewrite Nat.mul_0_r. unfold slice. cbn [skipn]. rewrite firstn_app, L, Nat.sub_diag, firstn_O.
    rewrite firstn_all2 by lia. now apply native_load_store.
  - rewrite <- IH at 2. apply map_ext. intros i. f_equal. unfold slice.
    rewrite Nat.mul_succ_r, <- skipn_skipn, skipn_app, L, Nat.sub_diag.
    rewrite (skipn_all2 (native_store p 4 x)) by lia. reflexivity.
Qed.

Lemma memory_of_memory m : length m = (4 * WIDTH)%nat -> bytes m -> memory p (of_memory WIDTH p m) = m.
Proof.
  intros L F. unfold of_memory, memory. rewrite map_map.
  rewrite (map_ext_in _ (fun i => slice m (4 * i) 4)).
  - revert m L F. induction WIDTH as [|n IH]; intros m L F; [now destruct m|].
    cbn [seq map concat]. rewrite map_seq_shift.
    rewrite (map_ext _ (fun i => slice (skipn 4 m) (4 * i) 4)).
    + rewrite IH; [apply firstn_skipn|rewrite length_skipn; lia|now apply Forall_skipn'].
    + intros i. unfold slice. rewrite skipn_skipn. do 2 f_equal. lia.
  - intros i Hi%in_seq. apply native_store_load; [now apply Forall_slice|apply length_slice; lia].
Qed.

Lemma of_memory_ok m : length m = (4 * WIDTH)%nat -> bytes m -> ok (of_memory WIDTH p m).
Proof.
  intros L F. split; [unfold of_memory; now rewrite length_map, length_seq|].
  apply Forall_map_seq. intros i Hi. unfold native_load.
  destruct (order p); [apply (le_load_word 4)|apply (be_load_word 4)|apply (le_load_word 4)]; now apply Forall_slice.
Qed.

(** ** Digits *)

Lemma phexdigit_range c : 0 <= phexdigit c < 16.
Proof.
  unfold phexdigit. apply (Forall_nth' (fun d => 0 <= d < 16)); [|lia].
  apply Forall_forall. intros d Hd.
  assert (H : forallb (fun d => (0 <=? d) && (d <? 16)) phexdigit_table = true) by reflexivity.
  rewrite forallb_forall in H. specialize (H d Hd). rewrite andb_true_iff in H. lia.
Qed.

Lemma hex_digit_cases (P : Z -> Prop) d :
  0 <= d < 16 -> Forall P (map (fun i => hex_digit (Z.of_nat i)) (seq 0 16)) -> P (hex_digit d).
Proof.
  intros Hd H. rewrite Forall_map, Forall_forall in H. specialize (H (Z.to_nat d)).
  rewrite Z2Nat.id in H by lia. apply H, in_seq. lia.
Qed.

Lemma phexdigit_hex d : 0 <= d < 16 -> phexdigit (hex_digit d) = d.
Proof.
  intros Hd. assert (H : forallb (fun i => phexdigit (hex_digit (Z.of_nat i)) =? Z.of_nat i) (seq 0 16) = true)
    by reflexivity.
  pose proof (forallb_seq _ _ H (Z.to_nat d) ltac:(lia)) as E. cbv beta in E.
  rewrite Z2Nat.id in E by lia. now apply Z.eqb_eq.
Qed.

(** ** SetHex *)

Lemma land_shl_0 a b : word 4 a -> trunc 8 (b << 4) .| a = trunc 8 (b << 4) + a.
Proof.
  intros Ha. symmetry. rewrite Z.add_nocarry_lxor.
  - bitwise n Hn. destruct (Z.leb_spec 4 n); cbn [andb]; rewrite ?andb_false_r, ?xorb_false_l; auto.
    rewrite (word_testbit_high 4 a) by (assumption || lia). now rewrite xorb_false_r, orb_false_r.
  - bitwise n Hn. destruct (Z.leb_spec 4 n); cbn [andb]; rewrite ?andb_false_r; auto.
    rewrite (word_testbit_high 4 a) by (assumption || lia). now rewrite andb_false_r.
Qed.

(** The byte made of two digits. *)
Lemma two_digits d e :
  0 <= d < 16 -> 0 <= e < 16 -> d .| trunc 8 (e << 4) = d + 16 * e.
Proof.
  intros Hd He. rewrite Z.lor_comm, land_shl_0 by (unfold word; lia).
  rewrite Z.shiftl_mul_pow2, trunc_id by (unfold word; lia). lia.
Qed.

Lemma write_digits_ok ds i m :
  length m = (4 * WIDTH)%nat -> bytes m -> (forall k, (i <= k)%nat -> nth k m 0 = 0) ->
  length (write_digits WIDTH ds i m) = (4 * WIDTH)%nat /\ bytes (write_digits WIDTH ds i m) /\
  base_val 256 (write_digits WIDTH ds i m) =
    (base_val 256 m + 256 ^ Z.of_nat i * base_val 16 (map phexdigit ds)) mod 256 ^ Z.of_nat (4 * WIDTH).
Proof.
  remember (length ds) as n eqn:Hn. revert ds i m Hn.
  induction n as [n IH] using (well_founded_induction lt_wf). intros ds i m -> L Hm Hz.
  assert (R : 0 <= base_val 256 m < 256 ^ Z.of_nat (4 * WIDTH))
    by (rewrite <- L; apply base_val_range; [lia|exact Hm]).
  destruct ds as [|c ds]; cbn [write_digits map base_val].
  { rewrite Z.mul_0_r, Z.add_0_r, Z.mod_small by assumption. auto. }
  pose proof (phexdigit_range c) as Hc. destruct (Nat.ltb_spec i (4 * WIDTH)) as [Hi|Hi].
  2: { splits; try assumption. replace (Z.of_nat i) with (Z.of_nat (4 * WIDTH) + (Z.of_nat i - Z.of_nat (4 * WIDTH))) by lia.
       rewrite Z.pow_add_r by lia. rewrite <- Z.mul_assoc, (Z.mul_comm (256 ^ Z.of_nat (4 * WIDTH))), Z.mod_add by lia.
       now rewrite Z.mod_small. }
  assert (V1 : forall y, base_val 256 (upd m i y) = base_val 256 m + y * 256 ^ Z.of_nat i)
    by (intros y; rewrite base_val_upd, (Hz i) by lia; ring).
  destruct ds as [|e ds]; cbn [map base_val].
  - assert (B : bytes (upd m i (phexdigit c))) by (apply Forall_upd; [assumption|unfold word; lia]).
    rewrite length_upd. splits; try assumption.
    rewrite V1. symmetry. rewrite Z.mul_0_r, Z.add_0_r, Z.mul_comm, <- V1. apply Z.mod_small.
    rewrite <- L, <- (length_upd m i (phexdigit c)). apply base_val_range; [lia|exact B].
  - pose proof (phexdigit_range e) as He.
    assert (E : nth i (upd m i (phexdigit c)) 0 .| trunc 8 (phexdigit e << 4) = phexdigit c + 16 * phexdigit e).
    { rewrite nth_upd, Nat.eqb_refl by lia. now apply two_digits. }
    rewrite E. set (y := phexdigit c + 16 * phexdigit e).
    set (m2 := upd (upd m i (phexdigit c)) i y).
    assert (L2 : length m2 = (4 * WIDTH)%nat) by (subst m2; now rewrite !length_upd).
    assert (B2 : bytes m2) by (subst m2; repeat apply Forall_upd; try assumption; unfold word; subst y; lia).
    assert (V2 : base_val 256 m2 = base_val 256 m + y * 256 ^ Z.of_nat i).
    { subst m2. rewrite base_val_upd, V1, nth_upd, Nat.eqb_refl by (rewrite ?length_upd; lia). ring. }
    destruct (IH (length ds) ltac:(cbn; lia) ds (i + 1)%nat m2 eq_refl L2 B2) as (L3 & B3 & V3).
    { intros k Hk. subst m2. rewrite !nth_upd by (rewrite ?length_upd; lia).
      rewrite (proj2 (Nat.eqb_neq _ _)) by lia. apply Hz. lia. }
    splits; try assumption. rewrite V3, V2. f_equal.
    rewrite Nat2Z.inj_add, Z.pow_add_r by lia. change (256 ^ Z.of_nat 1) with 256. subst y. ring.
Qed.

(** The characters [SetHex] takes as digits. *)
Definition hex_part (psz : list Z) : list Z := hex_run (skip_0x (skip_spaces psz)).

Lemma memory_zeros : memory p (zeros WIDTH) = repeat 0 (4 * WIDTH).
Proof.
  unfold memory, zeros. induction WIDTH as [|n IH]; [reflexivity|]. cbn [repeat map concat].
  rewrite IH. replace (4 * S n)%nat with (4 + 4 * n)%nat by lia. rewrite repeat_app. f_equal.
  unfold native_store. now destruct (order p).
Qed.

Lemma write_digits_memory ds :
  length (write_digits WIDTH ds 0 (memory p (zeros WIDTH))) = (4 * WIDTH)%nat /\
  bytes (write_digits WIDTH ds 0 (memory p (zeros WIDTH))) /\
  base_val 256 (write_digits WIDTH ds 0 (memory p (zeros WIDTH))) =
    base_val 16 (map phexdigit ds) mod 256 ^ Z.of_nat (4 * WIDTH).
Proof.
  rewrite memory_zeros.
  destruct (write_digits_ok ds 0 (repeat 0 (4 * WIDTH))) as (L & B & V);
    [apply repeat_length|apply Forall_repeat'; now apply word_0|intros; apply nth_repeat|].
  splits; try assumption. rewrite V, base_val_zeros. f_equal. change (256 ^ Z.of_nat 0) with 1. ring.
Qed.

(** On a little-endian machine the value of the words is that of the bytes. *)
Lemma val_of_memory m :
  order p <> SPH_BIG_ENDIAN -> length m = (4 * WIDTH)%nat -> bytes m ->
  val (of_memory WIDTH p m) = base_val 256 m.
Proof.
  intros Hp. unfold of_memory. assert (E : forall b, native_load p 4 b = le_load 4 b)
    by (intros; unfold native_load; destruct (order p); [reflexivity|contradiction|reflexivity]).
  revert m. induction WIDTH as [|n IH]; intros m L Hm; [destruct m; [reflexivity|discriminate]|].
  do 4 (destruct m as [|? m]; [exfalso; cbn [length] in L; lia|]). cbn [seq map val].
  rewrite <- seq_shift, map_map, E.
  change (slice (z :: z0 :: z1 :: z2 :: m) (4 * 0) 4) with [z; z0; z1; z2].
  inversion Hm as [|? ? H0 Hm1]; subst. inversion Hm1 as [|? ? H1 Hm2]; subst.
  inversion Hm2 as [|? ? H2 Hm3]; subst. inversion Hm3 as [|? ? H3 Hm4]; subst.
  specialize (IH m ltac:(cbn [length] in L; lia) Hm4). cbn [base_val]. rewrite <- IH.
  assert (F : le_load 4 [z; z0; z1; z2] = z + 256 * (z0 + 256 * (z1 + 256 * z2))).
  { assert (B4 : bytes [z; z0; z1; z2]) by (repeat (apply Forall_cons; [assumption|]); apply Forall_nil).
    rewrite <- (base_val_store 4 (le_load 4 [z; z0; z1; z2])) by now apply (le_load_word 4).
    rewrite le_store_load by (reflexivity || assumption). cbn [base_val]. ring. }
  rewrite F. rewrite (map_ext (fun x => native_load p 4 (slice (z :: z0 :: z1 :: z2 :: m) (4 * S x) 4))
    (fun i => native_load p 4 (slice m (4 * i) 4))); [ring|].
  intros i. replace (4 * S i)%nat with (S (S (S (S (4 * i))))) by lia. reflexivity.
Qed.

Lemma SetHex_value psz :
  ok (SetHex WIDTH p psz) /\
  (order p <> SPH_BIG_ENDIAN ->
   val (SetHex WIDTH p psz) = base_val 16 (rev (map phexdigit (hex_part psz))) mod 2 ^ (32 * Z.of_nat WIDTH)).
Proof.
  destruct (write_digits_memory (rev (hex_part psz))) as (L & B & V). unfold SetHex. split.
  - now apply of_memory_ok.
  - intros Hp. rewrite val_of_memory by assumption. fold (hex_part psz). rewrite V, map_rev. f_equal.
    change 256 with (2 ^ 8). rewrite <- Z.pow_mul_r by lia. f_equal. lia.
Qed.

(** ** GetHex *)

Lemma rev_as_map (m : list Z) n :
  length m = n -> map (fun i => nth (n - i - 1) m 0) (seq 0 n) = rev m.
Proof.
  intros <-. apply (nth_ext' _ _ 0); rewrite length_map, length_seq; [now rewrite length_rev|].
  intros i Hi. rewrite nth_map_seq, rev_nth by assumption. f_equal. lia.
Qed.

Lemma GetHex_rev pn :
  length pn = WIDTH -> GetHex WIDTH p pn = flat_map sprintf_02x (rev (memory p pn)).
Proof.
  intros H. unfold GetHex. rewrite <- (rev_as_map (memory p pn) (4 * WIDTH)) by now apply memory_length.
  now rewrite !flat_map_concat_map, map_map.
Qed.

(** The nibbles of the characters, from the last one. *)
Lemma sprintf_digits m :
  bytes m ->
  map phexdigit (rev (flat_map sprintf_02x (rev m))) = flat_map (fun b => [b mod 16; b / 16]) m.
Proof.
  induction 1 as [|b m Hb Hm IH]; [reflexivity|]. unfold word in Hb. change (2 ^ 8) with 256 in Hb.
  cbn [rev flat_map]. rewrite flat_map_app, rev_app_distr, map_app, IH. cbn [flat_map app rev map sprintf_02x].
  rewrite !phexdigit_hex by dlia. reflexivity.
Qed.

Lemma nibbles_value m :
  bytes m -> base_val 16 (flat_map (fun b => [b mod 16; b / 16]) m) = base_val 256 m.
Proof.
  induction 1 as [|b m Hb _ IH]; [reflexivity|]. cbn [flat_map app base_val]. rewrite IH.
  pose proof (Z.div_mod b 16). lia.
Qed.

(** Every character is a lower-case hexadecimal digit. *)
Definition is_hex (c : Z) : bool :=
  (negb (phexdigit c =? 0) || (c =? 48)) && negb (isspace c) && negb (tolower c =? 120) && negb (c =? 0).

Lemma sprintf_hex b : word 8 b -> forallb is_hex (sprintf_02x b) = true.
Proof.
  intros Hb. unfold word in Hb. change (2 ^ 8) with 256 in Hb. unfold sprintf_02x. cbn [forallb].
  assert (H : forall d, 0 <= d < 16 -> is_hex (hex_digit d) = true).
  { intros d Hd. apply (hex_digit_cases (fun c => is_hex c = true) d Hd).
    apply Forall_forall. intros c Hc. assert (F : forallb is_hex (map (fun i => hex_digit (Z.of_nat i)) (seq 0 16)) = true)
      by reflexivity. rewrite forallb_forall in F. now apply F. }
  rewrite !H by dlia. reflexivity.
Qed.

Lemma GetHex_hex pn : length pn = WIDTH -> forallb is_hex (GetHex WIDTH p pn) = true.
Proof.
  intros H. rewrite GetHex_rev by assumption. pose proof (memory_bytes pn) as B.
  apply Forall_rev in B. induction B as [|b m Hb _ IH]; [reflexivity|].
  cbn [flat_map]. now rewrite forallb_app, sprintf_hex, IH.
Qed.

(** A string of digits is all taken. *)
Lemma hex_run_all s : forallb is_hex s = true -> hex_run s = s.
Proof.
  induction s as [|c s IH]; [reflexivity|]. cbn [forallb hex_run]. unfold is_hex at 1.
  rewrite !andb_true_iff. intros [[[[-> _] _] _] H]. now rewrite IH.
Qed.

Lemma hex_part_all s : forallb is_hex s = true -> hex_part s = s.
Proof.
  intros H. unfold hex_part. assert (E : skip_spaces s = s).
  { destruct s as [|c s]; [reflexivity|]. cbn [forallb] in H. unfold is_hex in H at 1.
    rewrite !andb_true_iff, !negb_true_iff in H. cbn [skip_spaces].
    now destruct H as [[[[_ ->] _] _] _]. }
  rewrite E. assert (X : skip_0x s = s).
  { unfold skip_0x. destruct s as [|c [|d s]]; [reflexivity|now rewrite andb_false_r|].
    cbn [nth forallb] in *. unfold is_hex in H at 2. rewrite !andb_true_iff, !negb_true_iff in H.
    destruct H as (_ & [[_ ->] _] & _). now rewrite andb_false_r. }
  rewrite X. now apply hex_run_all.
Qed.

Lemma GetHex_value pn :
  ok pn -> order p <> SPH_BIG_ENDIAN ->
  length (GetHex WIDTH p pn) = (8 * WIDTH)%nat /\
  base_val 16 (rev (map phexdigit (GetHex WIDTH p pn))) = val pn.
Proof.
  intros H Hp. pose proof (memory_bytes pn) as B. pose proof (memory_length pn (proj1 H)) as L.
  rewrite GetHex_rev by apply H. split.
  - rewrite <- (length_rev (memory p pn)) in L. revert L. generalize (rev (memory p pn)). intros m L.
    transitivity (2 * length m)%nat; [|lia]. clear L. induction m as [|b m IH]; [reflexivity|].
    cbn [flat_map length app sprintf_02x]. lia.
  - rewrite <- map_rev, sprintf_digits, nibbles_value by assumption.
    rewrite <- val_of_memory by assumption. now rewrite of_memory_memory.
Qed.

Lemma SetHex_GetHex pn : ok pn -> SetHex WIDTH p (GetHex WIDTH p pn) = pn.
Proof.
  intros H. pose proof (memory_bytes pn) as B. pose proof (memory_length pn (proj1 H)) as L.
  unfold SetHex. fold (hex_part (GetHex WIDTH p pn)).
  rewrite (hex_part_all _ (GetHex_hex pn (proj1 H))), GetHex_rev by apply H.
  destruct (write_digits_memory (rev (flat_map sprintf_02x (rev (memory p pn))))) as (L' & B' & V).
  rewrite <- (of_memory_memory pn) at 2 by assumption. f_equal.
  apply (base_val_inj 256); [lia|assumption|assumption|lia|].
  rewrite V, sprintf_digits, nibbles_value by assumption. apply Z.mod_small.
  rewrite <- L. apply base_val_range; [lia|exact B].
Qed.
End Hex.
