(* ===== verification/Uint256Theorems.v ===== *)
(** * Theorems on uint256.h

    The operators of [base_uint], for any number [WIDTH] of words: what they
    do to the number an object stands for. *)

From Stdlib Require Import ZArith List Lia Bool.
From S2P Require Import Prelude SphTypes SphTheorems Uint256 Uint256Proof Uint256Hex.
Import ListNotations.

(** Addition, subtraction, increment, decrement and negation keep an object well formed and
    are those of integers modulo 2^BITS, with operands that are objects or 64-bit integers. *)
Theorem uint_arithmetic (WIDTH : nat) (a b : list Z) (b64 : Z) :
  (2 <= WIDTH)%nat -> words_ok WIDTH a -> words_ok WIDTH b -> word 64 b64 ->
  let M := 2 ^ (32 * Z.of_nat WIDTH) in
  let gives r v := words_ok WIDTH r /\ val r = v mod M in
  gives (op_add_assign WIDTH a b) (val a + val b) /\ gives (op_sub_assign WIDTH a b) (val a - val b) /\
  gives (op_add_assign64 WIDTH a b64) (val a + b64) /\ gives (op_sub_assign64 WIDTH a b64) (val a - b64) /\
  gives (op_increment WIDTH a) (val a + 1) /\ gives (op_decrement WIDTH a) (val a - 1) /\
  gives (op_negate WIDTH a) (- val a).
Proof.
  intros Hw Ha Hb H64 M gives. assert (W : (0 < WIDTH)%nat) by lia.
  pose proof (op_add64_ok WIDTH W a b64 Hw Ha H64) as [A64 S64].
  splits; [now apply op_add_assign_ok|now apply op_sub_assign_ok|exact A64|exact S64|
           now apply op_increment_ok|now apply op_decrement_ok|now apply op_negate_ok].
Qed.

Lemma uint_arithmetic_witness :
  val (op_sub_assign 2 [3; 0] [5; 0]) = (-2) mod 2 ^ 64 /\
  op_increment 2 [0xFFFFFFFF; 0xFFFFFFFF] = [0; 0].
Proof.
  split; [|reflexivity].
  apply (uint_arithmetic 2 [3; 0] [5; 0] 1); [lia| | |now compute];
    (split; [reflexivity|]; apply wordb_Forall; reflexivity).
Defined.

(** The shifts multiply by 2^shift modulo 2^BITS and divide by 2^shift, for every
    non-negative shift: also by multiples of 32 bits and by BITS or more. *)
Theorem uint_shifts (WIDTH : nat) (a : list Z) (shift : Z) :
  (0 < WIDTH)%nat -> words_ok WIDTH a -> 0 <= shift ->
  (words_ok WIDTH (op_shl_assign WIDTH a shift) /\
   val (op_shl_assign WIDTH a shift) = val a * 2 ^ shift mod 2 ^ (32 * Z.of_nat WIDTH)) /\
  (words_ok WIDTH (op_shr_assign WIDTH a shift) /\
   val (op_shr_assign WIDTH a shift) = val a / 2 ^ shift).
Proof. intros Hw Ha Hs. split; [now apply op_shl_ok|now apply op_shr_ok]. Qed.

Lemma uint_shifts_witness :
  val (op_shl_assign 8 (repeat 0xFFFFFFFF 8) 96) = val (repeat 0xFFFFFFFF 8) * 2 ^ 96 mod 2 ^ 256 /\
  val (op_shr_assign 8 (repeat 0xFFFFFFFF 8) 37) = val (repeat 0xFFFFFFFF 8) / 2 ^ 37.
Proof.
  assert (O : words_ok 8 (repeat 0xFFFFFFFF 8)) by (split; [reflexivity|apply wordb_Forall; reflexivity]).
  destruct (uint_shifts 8 (repeat 0xFFFFFFFF 8) 96 ltac:(lia) O ltac:(lia)) as [[_ L] _].
  destruct (uint_shifts 8 (repeat 0xFFFFFFFF 8) 37 ltac:(lia) O ltac:(lia)) as [_ [_ R]].
  split; [exact L|exact R].
Defined.

(** The comparisons, which walk the words from the most significant one, order and identify
    the objects as their numbers, also against a 64-bit integer. *)
Theorem uint_comparisons (WIDTH : nat) (a b : list Z) (b64 : Z) :
  (2 <= WIDTH)%nat -> words_ok WIDTH a -> words_ok WIDTH b -> word 64 b64 ->
  op_less WIDTH a b = (val a <? val b) /\ op_less_eq WIDTH a b = (val a <=? val b) /\
  op_greater WIDTH a b = (val b <? val a) /\ op_greater_eq WIDTH a b = (val b <=? val a) /\
  op_equal WIDTH a b = (val a =? val b) /\ op_not_equal WIDTH a b = negb (val a =? val b) /\
  op_equal64 WIDTH a b64 = (val a =? b64) /\ op_not_equal64 WIDTH a b64 = negb (val a =? b64) /\
  op_is_zero WIDTH a = (val a =? 0).
Proof.
  intros Hw Ha Hb H64. assert (W : (0 < WIDTH)%nat) by lia.
  pose proof (comparisons_ok WIDTH W a b Ha Hb) as (C1 & C2 & C3 & C4).
  unfold op_not_equal, op_not_equal64.
  rewrite (op_equal_ok WIDTH W a b Ha Hb), (op_equal64_ok WIDTH W a b64 Hw Ha H64).
  splits; (assumption || reflexivity || now apply op_is_zero_ok).
Qed.

Lemma uint_comparisons_witness :
  op_less 8 (repeat 1 8) (repeat 2 8) = (val (repeat 1 8) <? val (repeat 2 8)) /\
  op_less 8 (repeat 1 8) (repeat 2 8) = true.
Proof.
  split; [|reflexivity].
  apply (uint_comparisons 8 (repeat 1 8) (repeat 2 8) 0); [lia| | |now compute];
    (split; [reflexivity|]; apply wordb_Forall; reflexivity).
Defined.

(** The bitwise operators act on the bits of the numbers; the complement is the distance to
    the largest number; assigning a 64-bit integer clears the words above it, [Get64] reads the
    64-bit digit of the given rank and [trim256] keeps the number modulo 2^256. *)
Theorem uint_bits (WIDTH : nat) (a b : list Z) (b64 : Z) (n : nat) (c : list Z) :
  (2 <= WIDTH)%nat -> words_ok WIDTH a -> words_ok WIDTH b -> word 64 b64 -> (2 * n + 1 < WIDTH)%nat ->
  words_ok 16 c ->
  let gives r v := words_ok WIDTH r /\ val r = v in
  gives (op_xor_assign WIDTH a b) (Z.lxor (val a) (val b)) /\
  gives (op_and_assign WIDTH a b) (Z.land (val a) (val b)) /\
  gives (op_or_assign WIDTH a b) (Z.lor (val a) (val b)) /\
  gives (op_complement WIDTH a) (2 ^ (32 * Z.of_nat WIDTH) - 1 - val a) /\
  gives (op_assign64 WIDTH a b64) b64 /\
  Get64 a n = (val a / 2 ^ (64 * Z.of_nat n)) mod 2 ^ 64 /\
  (words_ok 8 (trim256 c) /\ val (trim256 c) = val c mod 2 ^ 256).
Proof.
  intros Hw Ha Hb H64 Hn Hc gives. assert (W : (0 < WIDTH)%nat) by lia.
  splits; [now apply op_xor_ok|now apply op_and_ok|now apply op_or_ok|now apply op_complement_ok|
           apply op_assign64_ok; [lia|lia|apply Ha|assumption]|now apply (Get64_ok WIDTH W)|now apply trim256_ok|now apply trim256_ok].
Qed.

Lemma uint_bits_witness :
  Get64 [1; 2; 3; 4] 1 = (val [1; 2; 3; 4] / 2 ^ 64) mod 2 ^ 64 /\ Get64 [1; 2; 3; 4] 1 = 3 + 4 * 2 ^ 32.
Proof.
  split; [|reflexivity].
  assert (O : words_ok 4 [1; 2; 3; 4]) by (split; [reflexivity|apply wordb_Forall; reflexivity]).
  assert (O' : words_ok 16 (repeat 5 16)) by (split; [reflexivity|apply wordb_Forall; reflexivity]).
  destruct (uint_bits 4 [1; 2; 3; 4] [1; 2; 3; 4] 0 1 (repeat 5 16) ltac:(lia) O O (word_0 64 ltac:(lia)) ltac:(lia) O')
    as (_ & _ & _ & _ & _ & G & _). exact G.
Defined.

(** [SetHex] skips white space and a 0x, reads hexadecimal digits up to the first other
    character, and keeps the number they write modulo 2^BITS; the result is well formed for any
    string.  (The value is that of the words on a machine that is not big-endian.) *)
Theorem uint_SetHex (WIDTH : nat) (p : platform) (psz : list Z) :
  words_ok WIDTH (SetHex WIDTH p psz) /\
  (order p <> SPH_BIG_ENDIAN ->
   val (SetHex WIDTH p psz) =
     base_val 16 (rev (map phexdigit (hex_part psz))) mod 2 ^ (32 * Z.of_nat WIDTH)).
Proof. apply SetHex_value. Qed.

(** The string " 0xfFz". *)
Lemma uint_SetHex_witness :
  val (SetHex 2 little_endian [32; 48; 120; 102; 70; 122]) =
    base_val 16 (rev (map phexdigit (hex_part [32; 48; 120; 102; 70; 122]))) mod 2 ^ 64 /\
  SetHex 2 little_endian [32; 48; 120; 102; 70; 122] = [255; 0].
Proof. split; [|reflexivity]. now apply uint_SetHex. Defined.

(** [GetHex] writes the digits of the number, two for each byte, and [SetHex] reads back the
    object they came from, on a machine of any byte order. *)
Theorem uint_hex_roundtrip (WIDTH : nat) (p : platform) (pn : list Z) :
  words_ok WIDTH pn ->
  SetHex WIDTH p (GetHex WIDTH p pn) = pn /\
  (order p <> SPH_BIG_ENDIAN ->
   length (GetHex WIDTH p pn) = (8 * WIDTH)%nat /\
   base_val 16 (rev (map phexdigit (GetHex WIDTH p pn))) = val pn).
Proof. intros H. split; [now apply SetHex_GetHex|]. intros Hp. now apply GetHex_value. Qed.

Lemma uint_hex_roundtrip_witness :
  SetHex 3 big_endian (GetHex 3 big_endian [0xdeadbeef; 0; 7]) = [0xdeadbeef; 0; 7].
Proof. apply uint_hex_roundtrip. split; [reflexivity|]. apply wordb_Forall. reflexivity. Defined.
