(* ===== verification/Tribus.v ===== *)
(** * Tribus: the proof-of-work hash

    The function template of src/src/hashblock.h, which chains JH-512,
    Keccak-512 and ECHO-512 and keeps 256 bits, and what the code computes
    directly from it: the hash of a block header, the entropy bit of a block
    and the scores of the masternodes.  The specification is the composition of
    the specifications of the three functions. *)

From Stdlib Require Import ZArith List Lia Bool.
From S2P Require Import Prelude BitStrings SphTypes Stream JhSpec KeccakSpec EchoSpec.
From S2P Require Import Jh JhHash Keccak KeccakHash Echo EchoHash Uint256.
Import ListNotations.

(** ** Specification *)

Module TribusSpec.

(** The bytes of a string of bits, least significant bit first (Keccak's order). *)
Definition lsb_bytes (l : list bool) : list Z :=
  map (fun b => EchoSpec.byte_of_bits (rev b)) (chunks 8 l).

Definition jh512 (m : list Z) : list Z :=
  EchoSpec.bytes_of_bits (JHSpec.hash 512 (bits_of msb_first m)).
Definition keccak512 (m : list Z) : list Z :=
  lsb_bytes (KeccakSpec.hash 512 (bits_of lsb_first m)).
Definition echo512 (m : list Z) : list Z :=
  EchoSpec.bytes_of_bits (EchoSpec.hash 512 (bits_of msb_first m)).

(** The 32 bytes of the digest of a byte string. *)
Definition tribus (m : list Z) : list Z := firstn 32 (echo512 (keccak512 (jh512 m))).

End TribusSpec.

(** ** The code *)

(** How the three files are compiled; they share the platform. *)
Record tribus_config := TribusConfig {
  tribus_jh : jh_config;
  tribus_keccak : keccak_config;
  tribus_echo : echo_config
}.
Definition tribus_platform (cf : tribus_config) : platform := jh_platform (tribus_jh cf).

Section Tribus.
  Variable cf : tribus_config.
#[local] Instance tribus_jh_words : JhWords := jh_words (tribus_jh cf).
#[local] Instance tribus_jh_count : JhCount (jh_count_type (tribus_jh cf)) := jh_count (tribus_jh cf).
#[local] Instance tribus_keccak_words : KeccakWords := keccak_words (tribus_keccak cf).
#[local] Instance tribus_echo_words : EchoWords := echo_words (tribus_echo cf).
  Abbreviation p := (tribus_platform cf).
  Abbreviation jh_fp := (jh_footprint (tribus_jh cf)).
  Abbreviation un := (SPH_KECCAK_UNROLL (tribus_keccak cf)).
  Abbreviation nc := (SPH_KECCAK_NOCOPY (tribus_keccak cf)).
  Abbreviation echo_fp := (SPH_SMALL_FOOTPRINT_ECHO (tribus_echo cf)).

(** The uninitialised local variables of [Tribus], and those of the three [close] functions:
    the contexts, the array [uint512 hash[17]], the buffers and an address. *)
Record locals := Locals {
  ctx_jh : jh_context (cnt := jh_count_type (tribus_jh cf));
  ctx_keccak : keccak_context;
  ctx_echo : echo_context;
  hash_array : list Z;
  jh_stack : list Z;
  jh_stack_addr : Z;
  keccak_stack : list Z;
  echo_stack : list Z
}.

(** [pdata] is the range [pbegin, pend); an empty range hashes no byte of [pblank]. *)
Definition Tribus (l : locals) (pdata : list Z) : option (list Z) :=
  let ctx := sph_jh512_init (ctx_jh l) in
  let* ctx := sph_jh512 jh_fp ctx pdata in
  let* (out, ctx) := sph_jh512_close jh_fp (jh_stack l) (jh_stack_addr l) ctx in
  let* hash := memcpy_at (hash_array l) 0 out in
  let kctx := sph_keccak512_init (ctx_keccak l) in
  let* kctx := sph_keccak512 un nc kctx (slice hash 0 64) in
  let* (out, kctx) := sph_keccak512_close un nc (keccak_stack l) kctx in
  let* hash := memcpy_at hash 64 out in
  let ectx := sph_echo512_init (ctx_echo l) in
  let* ectx := sph_echo512 echo_fp ectx (slice hash 64 64) in
  let* (out, ectx) := sph_echo512_close echo_fp p (echo_stack l) ectx in
  let* hash := memcpy_at hash 128 out in
  Some (trim256 (of_memory 16 p (slice hash 128 64))).

(** ** Its direct uses *)

(** The header of a [CBlock], of which [GetPoWHash] hashes the 80 bytes from [nVersion] to
    [nNonce]; [nVersion] as the [unsigned int] with the same bytes. *)
Record block_header := BlockHeader {
  nVersion : Z; hashPrevBlock : list Z; hashMerkleRoot : list Z; nTime : Z; nBits : Z; nNonce : Z
}.
Definition header_bytes (b : block_header) : list Z :=
  native_store p 4 (nVersion b) ++ memory p (hashPrevBlock b) ++ memory p (hashMerkleRoot b) ++
  native_store p 4 (nTime b) ++ native_store p 4 (nBits b) ++ native_store p 4 (nNonce b).

Definition GetPoWHash (l : locals) (b : block_header) : option (list Z) := Tribus l (header_bytes b).
Definition GetHash (l : locals) (b : block_header) : option (list Z) := GetPoWHash l b.

Definition GetStakeEntropyBit (l : locals) (b : block_header) : option Z :=
  let* h := GetHash l b in Some (Get64 h 0 .& 1).

(** [CFortunastakePaymentWinner::GetHash]; [nBlockHeight] is an [int]. *)
Definition PaymentWinner_GetHash (l : locals) (nBlockHeight : Z) (prevout_hash : list Z) :
    option (list Z) :=
  let* n2 := Tribus l (native_store p 4 nBlockHeight) in
  let n3 := if op_greater 8 prevout_hash n2 then op_sub 8 prevout_hash n2 else op_sub 8 n2 prevout_hash in
  Some n3.

(** [CFortunastakePayments::CalculateScore] *)
Definition CalculateScore (l : locals) (blockHash prevout_hash : list Z) : option Z :=
  let n1 := blockHash in
  let* n2 := Tribus l (memory p n1) in
  let* n3 := Tribus l (memory p prevout_hash) in
  let n4 := if op_greater 8 n3 n2 then op_sub 8 n3 n2 else op_sub 8 n2 n3 in
  Some (Get64 n4 0).
End Tribus.
