(* ===== verification/TribusTheorems.v ===== *)
(** * Theorems on hashblock.h and its uses

    The proof-of-work hash, the hash of a block and the masternode scores. *)

From Stdlib Require Import ZArith List Lia Bool.
From S2P Require Import Prelude BitStrings Stream SphTypes SphTheorems Jh JhSpec JhHash Keccak KeccakSpec KeccakMode KeccakHash Echo EchoSpec EchoMode EchoHash Uint256 Uint256Proof Uint256Hex Tribus.
Import ListNotations.

(** ** Tribus computes the composition of the three hash functions

    The template of hashblock.h against [TribusSpec.tribus], and the values of
    the scores that are made of it. *)

(** ** Bytes and bits *)

Lemma lsb_byte b : word 8 b -> EchoSpec.byte_of_bits (rev (byte_bits lsb_first b)) = b.
Proof.
  intros Hb. rewrite <- (byte_of_bits_byte b Hb) at 2. f_equal.
Qed.

Lemma lsb_bytes_bits b : bytes b -> TribusSpec.lsb_bytes (bits_of lsb_first b) = b.
Proof.
  unfold TribusSpec.lsb_bytes. induction 1 as [|x b Hx Hb IH]; [reflexivity|].
  rewrite bits_of_cons, chunks_cons by (reflexivity || lia). cbn [map].
  now rewrite IH, lsb_byte.
Qed.

(** ** The memory of a trimmed number *)

Lemma trim256_of_memory p d :
  trim256 (of_memory 16 p d) = of_memory 8 p (firstn 32 d).
Proof.
  unfold of_memory. rewrite trim256_firstn by (now rewrite length_map, length_seq).
  rewrite firstn_map. change (firstn 8 (seq 0 16)) with (seq 0 8). apply map_ext_in.
  intros i Hi%in_seq. rewrite slice_firstn by lia. reflexivity.
Qed.

(** ** The array of results *)

Lemma slice_memcpy (h h' : list Z) off src n :
  memcpy_at h off src = Some h' -> length src = n -> slice h' off n = src.
Proof.
  unfold memcpy_at. destruct (Nat.leb_spec (off + length src) (length h)); [|discriminate].
  intros [= <-] <-. unfold slice.
  rewrite skipn_app, length_firstn, Nat.min_l, Nat.sub_diag by lia.
  rewrite (skipn_all2 (firstn off h)) by (rewrite length_firstn; lia). cbn [skipn app].
  rewrite firstn_app, Nat.sub_diag, firstn_O, app_nil_r. apply firstn_all.
Qed.

Section Proofs.
  Variable cf : tribus_config.
#[local] Hint Extern 0 JhWords => exact (tribus_jh_words cf) : typeclass_instances.
#[local] Hint Extern 0 (JhCount _) => exact (tribus_jh_count cf) : typeclass_instances.
#[local] Hint Extern 0 KeccakWords => exact (tribus_keccak_words cf) : typeclass_instances.
#[local] Hint Extern 0 EchoWords => exact (tribus_echo_words cf) : typeclass_instances.
  Abbreviation p := (tribus_platform cf).

(** The three files are compiled for one machine. *)
Definition tribus_config_ok : bool := jh_config_ok (tribus_jh cf).
Definition same_platform : Prop :=
  keccak_platform (tribus_keccak cf) = p /\ echo_platform (tribus_echo cf) = p.

(** The declared sizes of the local arrays. *)
Definition locals_ok (l : locals cf) : Prop :=
  length (Jh.buf (ctx_jh cf l)) = 64%nat /\ length (Keccak.buf (ctx_keccak cf l)) = 144%nat /\
  length (Keccak.u (ctx_keccak cf l)) = state_words (tribus_keccak cf) /\
  length (Echo.buf (ctx_echo cf l)) = 128%nat /\ length (hash_array cf l) = (17 * 64)%nat /\
  length (jh_stack cf l) = 128%nat /\ length (keccak_stack cf l) = 73%nat /\
  length (echo_stack cf l) = 64%nat.

Lemma config_platform : tribus_config_ok = true -> platform_ok p = true.
Proof. unfold tribus_config_ok, jh_config_ok. now intros [? _]%andb_true_iff. Qed.

Lemma jh512_stage (l : locals cf) m :
  tribus_config_ok = true -> locals_ok l -> bytes m -> Z.of_nat (length m) < 2 ^ 70 ->
  exists cc1 cc2,
    sph_jh512 (jh_footprint (tribus_jh cf)) (sph_jh512_init (ctx_jh cf l)) m = Some cc1 /\
    sph_jh512_close (jh_footprint (tribus_jh cf)) (jh_stack cf l) (jh_stack_addr cf l) cc1 =
      Some (TribusSpec.jh512 m, cc2) /\
    bytes (TribusSpec.jh512 m) /\ length (TribusSpec.jh512 m) = 64%nat.
Proof.
  intros Hc Hl Hm Hlen. destruct (jh_family (tribus_jh cf) Hc) as (_ & _ & _ & F).
  assert (L : concat [m] = m) by apply app_nil_r.
  destruct (F [m] (ctx_jh cf l) (jh_stack cf l) (jh_stack_addr cf l) 0 0%nat)
    as (c1 & out & c2 & E1 & E2 & E3 & Ho & Lo & E & _ & _);
    [lia|apply Hl|apply Hl|now constructor|now rewrite L|].
  cbn [fold_left] in E1. change (Z.of_nat 0) with 0 in E2. rewrite <- E3 in E2.
  rewrite L in E. change (extra_bits 0 0) with (@nil bool) in E. rewrite app_nil_r in E.
  assert (O : TribusSpec.jh512 m = out).
  { unfold TribusSpec.jh512. rewrite <- E. now apply bytes_of_bits_bytes. }
  rewrite O. exists c1, c2. splits; try assumption. lia.
Qed.

Lemma keccak512_stage (l : locals cf) m :
  platform_ok p = true -> same_platform -> locals_ok l -> bytes m ->
  let un := SPH_KECCAK_UNROLL (tribus_keccak cf) in let nc := SPH_KECCAK_NOCOPY (tribus_keccak cf) in
  exists cc1 cc2,
    sph_keccak512 un nc (sph_keccak512_init (ctx_keccak cf l)) m = Some cc1 /\
    sph_keccak512_close un nc (keccak_stack cf l) cc1 = Some (TribusSpec.keccak512 m, cc2) /\
    bytes (TribusSpec.keccak512 m) /\ length (TribusSpec.keccak512 m) = 64%nat.
Proof.
  intros Hc [Hp _] Hl Hm un nc. rewrite <- Hp in Hc.
  destruct (keccak_family (tribus_keccak cf) Hc) as (_ & _ & _ & F).
  assert (L : concat [m] = m) by apply app_nil_r.
  destruct (F [m] (ctx_keccak cf l) (keccak_stack cf l) 0 0%nat)
    as (c1 & out & c2 & E1 & E2 & E3 & Ho & Lo & E & _ & _);
    [lia|apply Hl|apply Hl|apply Hl|now constructor|].
  cbn [fold_left] in E1. change (Z.of_nat 0) with 0 in E2. rewrite <- E3 in E2.
  rewrite L in E. change (keccak_extra_bits 0 0) with (@nil bool) in E. rewrite app_nil_r in E.
  assert (O : TribusSpec.keccak512 m = out).
  { unfold TribusSpec.keccak512. rewrite <- E. now apply lsb_bytes_bits. }
  rewrite O. exists c1, c2. splits; try assumption. lia.
Qed.

Lemma echo512_stage (l : locals cf) m :
  platform_ok p = true -> same_platform -> locals_ok l -> bytes m ->
  let fp := SPH_SMALL_FOOTPRINT_ECHO (tribus_echo cf) in
  exists cc1 cc2,
    sph_echo512 fp (sph_echo512_init (ctx_echo cf l)) m = Some cc1 /\
    sph_echo512_close fp p (echo_stack cf l) cc1 = Some (TribusSpec.echo512 m, cc2) /\
    bytes (TribusSpec.echo512 m) /\ length (TribusSpec.echo512 m) = 64%nat.
Proof.
  intros Hc [_ Hp] Hl Hm fp. rewrite <- Hp in Hc |- *.
  destruct (echo_family (tribus_echo cf) Hc) as (_ & _ & _ & F).
  assert (L : concat [m] = m) by apply app_nil_r.
  destruct (F [m] (ctx_echo cf l) (echo_stack cf l) 0 0%nat)
    as (c1 & out & c2 & E1 & E2 & E3 & Ho & Lo & E & _ & _);
    [lia|apply Hl|apply Hl|now constructor|].
  cbn [fold_left] in E1. change (Z.of_nat 0) with 0 in E2. rewrite <- E3 in E2.
  rewrite L in E. change (extra_bits 0 0) with (@nil bool) in E. rewrite app_nil_r in E.
  assert (O : TribusSpec.echo512 m = out).
  { unfold TribusSpec.echo512. rewrite <- E. now apply bytes_of_bits_bytes. }
  rewrite O. exists c1, c2. splits; try assumption. lia.
Qed.

Lemma Tribus_ok (l : locals cf) m :
  tribus_config_ok = true -> same_platform -> locals_ok l ->
  bytes m -> Z.of_nat (length m) < 2 ^ 70 ->
  Tribus cf l m = Some (of_memory 8 p (TribusSpec.tribus m)) /\
  bytes (TribusSpec.tribus m) /\ length (TribusSpec.tribus m) = 32%nat.
Proof.
  intros Hc Hs Hl Hm Hlen. pose proof (config_platform Hc) as Hp.
  destruct (jh512_stage l m Hc Hl Hm Hlen) as (j1 & j2 & EJ1 & EJ2 & BJ & LJ).
  destruct (keccak512_stage l _ Hp Hs Hl BJ) as (k1 & k2 & EK1 & EK2 & BK & LK).
  destruct (echo512_stage l _ Hp Hs Hl BK) as (e1 & e2 & EE1 & EE2 & BE & LE).
  destruct Hl as (_ & _ & _ & _ & LH & _).
  assert (C : forall (h : list Z) off (src : list Z), length h = (17 * 64)%nat -> length src = 64%nat -> (off <= 1024)%nat ->
    exists h', memcpy_at h off src = Some h' /\ length h' = (17 * 64)%nat /\ slice h' off 64 = src).
  { intros h off src Lh Ls Ho. assert (S : (off + length src <= length h)%nat) by lia.
    pose proof (memcpy_at_Some h off src S) as M. eexists. split; [exact M|].
    split; [now rewrite (memcpy_at_length _ _ _ _ M)|now apply (slice_memcpy h)]. }
  destruct (C _ 0%nat _ LH LJ ltac:(lia)) as (h1 & M1 & L1 & S1).
  destruct (C _ 64%nat _ L1 LK ltac:(lia)) as (h2 & M2 & L2 & S2).
  destruct (C _ 128%nat _ L2 LE ltac:(lia)) as (h3 & M3 & L3 & S3).
  split.
  - unfold Tribus. rewrite EJ1, EJ2, M1, S1, EK1, EK2, M2, S2, EE1, EE2, M3, S3.
    rewrite trim256_of_memory. unfold TribusSpec.tribus. reflexivity.
  - unfold TribusSpec.tribus. split; [now apply Forall_firstn'|]. rewrite length_firstn. lia.
Qed.

(** ** What is made of the hash *)

(** The number a hash stands for. *)
Definition tribus_value (m : list Z) : Z := val (of_memory 8 p (TribusSpec.tribus m)).

Lemma sub_abs a b :
  words_ok 8 a -> words_ok 8 b ->
  let d := if op_greater 8 a b then op_sub 8 a b else op_sub 8 b a in
  words_ok 8 d /\ val d = Z.abs (val a - val b).
Proof.
  intros Ha Hb. destruct (comparisons_ok 8 ltac:(lia) a b Ha Hb) as (_ & _ & G & _). cbv zeta. rewrite G.
  destruct (op_sub_assign_ok 8 ltac:(lia) a b Ha Hb) as [O1 V1].
  destruct (op_sub_assign_ok 8 ltac:(lia) b a Hb Ha) as [O2 V2].
  pose proof (val_word 8 a Ha) as Ra. pose proof (val_word 8 b Hb) as Rb.
  unfold word in Ra, Rb. destruct (Z.ltb_spec (val b) (val a)).
  - split; [exact O1|]. unfold op_sub. rewrite V1, Z.mod_small, Z.abs_eq by lia. reflexivity.
  - split; [exact O2|]. unfold op_sub. rewrite V2, Z.mod_small, Z.abs_neq by lia. lia.
Qed.

Lemma PaymentWinner_ok (l : locals cf) nBlockHeight prevout_hash :
  tribus_config_ok = true -> same_platform -> locals_ok l -> words_ok 8 prevout_hash ->
  exists h, PaymentWinner_GetHash cf l nBlockHeight prevout_hash = Some h /\ words_ok 8 h /\
    val h = Z.abs (val prevout_hash - tribus_value (native_store p 4 nBlockHeight)).
Proof.
  intros Hc Hs Hl Hq.
  destruct (Tribus_ok l (native_store p 4 nBlockHeight) Hc Hs Hl) as (E & B & L);
    [apply bytes_native_store|rewrite length_native_store; lia|].
  unfold PaymentWinner_GetHash. rewrite E.
  assert (O : words_ok 8 (of_memory 8 p (TribusSpec.tribus (native_store p 4 nBlockHeight))))
    by now apply of_memory_ok.
  destruct (sub_abs _ _ Hq O) as [O' V']. eexists. split; [reflexivity|]. split; [exact O'|exact V'].
Qed.

Lemma CalculateScore_ok (l : locals cf) blockHash prevout_hash :
  tribus_config_ok = true -> same_platform -> locals_ok l ->
  words_ok 8 blockHash -> words_ok 8 prevout_hash ->
  CalculateScore cf l blockHash prevout_hash =
    Some (Z.abs (tribus_value (memory p prevout_hash) - tribus_value (memory p blockHash)) mod 2 ^ 64).
Proof.
  intros Hc Hs Hl Hb Hq.
  assert (T : forall a, words_ok 8 a -> Tribus cf l (memory p a) = Some (of_memory 8 p (TribusSpec.tribus (memory p a))) /\
      words_ok 8 (of_memory 8 p (TribusSpec.tribus (memory p a)))).
  { intros a Ha. pose proof (config_platform Hc) as Hp.
    destruct (Tribus_ok l (memory p a) Hc Hs Hl) as (E & B & L);
      [apply memory_bytes|rewrite (memory_length 8) by apply Ha; lia|].
    split; [exact E|]. now apply of_memory_ok. }
  destruct (T _ Hb) as [E1 O1]. destruct (T _ Hq) as [E2 O2].
  unfold CalculateScore. rewrite E1, E2. destruct (sub_abs _ _ O2 O1) as [O V].
  cbv zeta in O, V |- *. f_equal. rewrite (Get64_ok 8) by (exact O || lia). rewrite V.
  change (2 ^ (64 * Z.of_nat 0)) with 1. now rewrite Z.div_1_r.
Qed.
End Proofs.

(** ** The theorems *)

(** A build for the examples, and its local variables. *)
Definition example_config : tribus_config :=
  TribusConfig (JhConfig little_endian true true Unrolled)
    (KeccakConfig little_endian true false Unroll_8 false) (EchoConfig little_endian true false).
Definition example_locals : locals example_config :=
  Locals example_config (JhContext (cnt := Z) (repeat 0 64) 0 [] 0) (KeccakContext (repeat 0 144) 0 0 (repeat 0 25))
    (EchoContext (repeat 0 128) 0 [] (0, 0, 0, 0)) (repeat 0 1088) (repeat 0 128) 0 (repeat 0 73) (repeat 0 64).

Lemma example_locals_ok : locals_ok example_config example_locals.
Proof. unfold locals_ok. splits; reflexivity. Qed.

(** C27: in every configuration of the three files, whatever the uninitialised locals hold,
    [Tribus] makes no access outside of a buffer and returns the first 256 bits of the ECHO-512
    digest of the Keccak-512 digest of the JH-512 digest of its bytes. *)
Theorem Tribus_computes_tribus (cf : tribus_config) (l : locals cf) (pdata : list Z) :
  tribus_config_ok cf = true -> same_platform cf -> locals_ok cf l ->
  bytes pdata -> Z.of_nat (length pdata) < 2 ^ 70 ->
  Tribus cf l pdata = Some (of_memory 8 (tribus_platform cf) (TribusSpec.tribus pdata)) /\
  bytes (TribusSpec.tribus pdata) /\ length (TribusSpec.tribus pdata) = 32%nat.
Proof. apply Tribus_ok. Qed.

Lemma Tribus_computes_tribus_witness :
  Tribus example_config example_locals [] = Some (of_memory 8 little_endian (TribusSpec.tribus [])).
Proof.
  apply (Tribus_computes_tribus example_config example_locals []).
  - reflexivity.
  - split; reflexivity.
  - exact example_locals_ok.
  - apply Forall_nil.
  - reflexivity.
Defined.

(** The hash of a block is the Tribus hash of the 80 bytes of its header, its entropy bit is
    the lowest bit of that number; neither fails. *)
Theorem block_hash_of_header (cf : tribus_config) (l : locals cf) (b : block_header) :
  tribus_config_ok cf = true -> same_platform cf -> locals_ok cf l ->
  words_ok 8 (hashPrevBlock b) -> words_ok 8 (hashMerkleRoot b) ->
  let p := tribus_platform cf in
  length (header_bytes cf b) = 80%nat /\
  GetPoWHash cf l b = Some (of_memory 8 p (TribusSpec.tribus (header_bytes cf b))) /\
  GetHash cf l b = GetPoWHash cf l b /\
  GetStakeEntropyBit cf l b = Some (tribus_value cf (header_bytes cf b) mod 2).
Proof.
  intros Hc Hs Hl H1 H2 p.
  assert (L : length (header_bytes cf b) = 80%nat).
  { unfold header_bytes. fold p. rewrite !length_app, !(memory_length 8) by (apply H1 || apply H2).
    now rewrite !length_native_store. }
  assert (B : bytes (header_bytes cf b)).
  { unfold header_bytes. fold p.
    repeat (apply Forall_app; split); apply memory_bytes || apply bytes_native_store. }
  destruct (Tribus_ok cf l _ Hc Hs Hl B ltac:(rewrite L; lia)) as (E & B' & L').
  split; [exact L|]. split; [exact E|]. split; [reflexivity|].
  unfold GetStakeEntropyBit, GetHash, GetPoWHash. rewrite E. f_equal.
  rewrite (Get64_ok 8) by (try lia; now apply of_memory_ok).
  rewrite (Z.land_ones _ 1) by lia. change (2 ^ (64 * Z.of_nat 0)) with 1. rewrite Z.div_1_r. change (2 ^ 1) with 2.
  fold (tribus_value cf (header_bytes cf b)). symmetry. change (2 ^ 64) with (2 * 2 ^ 63).
  rewrite Z.rem_mul_r, Z.mul_comm, Z_mod_plus_full, Z.mod_mod by lia. reflexivity.
Qed.

Definition example_header : block_header :=
  BlockHeader 1 (repeat 0 8) (repeat 7 8) 1497476511 504365055 0.

Lemma block_hash_of_header_witness :
  length (header_bytes example_config example_header) = 80%nat /\
  GetStakeEntropyBit example_config example_locals example_header =
    Some (tribus_value example_config (header_bytes example_config example_header) mod 2).
Proof.
  destruct (block_hash_of_header example_config example_locals example_header) as (L & _ & _ & E).
  - reflexivity.
  - split; reflexivity.
  - exact example_locals_ok.
  - split; [reflexivity|]. apply Forall_repeat'. now compute.
  - split; [reflexivity|]. apply Forall_repeat'. now compute.
  - split; [exact L|exact E].
Defined.

(** The score of a masternode is the distance between the hash of the hash of its payment
    and the hash of the block hash, modulo 2^64; the hash of a payment winner is the distance
    between the hash of its payment and that of the four bytes of the height. *)
Theorem scores_are_distances (cf : tribus_config) (l : locals cf) (blockHash prevout_hash : list Z)
    (nBlockHeight : Z) :
  tribus_config_ok cf = true -> same_platform cf -> locals_ok cf l ->
  words_ok 8 blockHash -> words_ok 8 prevout_hash ->
  let p := tribus_platform cf in
  CalculateScore cf l blockHash prevout_hash =
    Some (Z.abs (tribus_value cf (memory p prevout_hash) - tribus_value cf (memory p blockHash)) mod 2 ^ 64) /\
  exists h, PaymentWinner_GetHash cf l nBlockHeight prevout_hash = Some h /\ words_ok 8 h /\
    val h = Z.abs (val prevout_hash - tribus_value cf (native_store p 4 nBlockHeight)).
Proof. intros Hc Hs Hl H1 H2 p. split; [now apply CalculateScore_ok|now apply PaymentWinner_ok]. Qed.

Lemma scores_are_distances_witness :
  CalculateScore example_config example_locals (repeat 1 8) (repeat 2 8) =
    Some (Z.abs (tribus_value example_config (memory little_endian (repeat 2 8)) -
                 tribus_value example_config (memory little_endian (repeat 1 8))) mod 2 ^ 64).
Proof.
  apply (scores_are_distances example_config example_locals (repeat 1 8) (repeat 2 8) 0).
  - reflexivity.
  - split; reflexivity.
  - exact example_locals_ok.
  - split; [reflexivity|]. apply Forall_repeat'. now compute.
  - split; [reflexivity|]. apply Forall_repeat'. now compute.
Defined.
