(* ===== verification/Serialize.v ===== *)
(** * serialize.h: streams and the serialization templates

    The class [CDataStream] of src/src/serialize.h and the function templates
    that write objects to a stream and read them back.  A type that can be
    serialized is an instance of [Serializable], which has the three overloads
    the templates resolve: [GetSerializeSize], [Serialize] and [Unserialize].
    Reading is a computation in the monad [reader]: the state is the stream, a
    result can be an exception, or undefined behaviour when the code would
    leave the buffer. *)

From Stdlib Require Import ZArith List Lia Bool.
From S2P Require Import Prelude SphTypes Uint256.
Import ListNotations.

(** ** CDataStream *)

(** The messages of the exceptions [std::ios_base::failure]. *)
Inductive failure := end_of_data | non_canonical | size_too_large.

Inductive result (A : Type) :=
| Ok (a : A)
| Throw (e : failure)
| Undefined.
Arguments Ok {A}.
Arguments Throw {A}.
Arguments Undefined {A}.

(** [nReadPos] is an [unsigned int]; [state] and [exceptmask] are left out: the mask is never
    changed from [badbit | failbit], so [setstate] throws. *)
Record CDataStream := DataStream { vch : list Z; nReadPos : Z }.

Definition reader (A : Type) : Type := CDataStream -> result (A * CDataStream).
Definition ret {A} (a : A) : reader A := fun s => Ok (a, s).
Definition throw {A} (e : failure) : reader A := fun _ => Throw e.
Definition bind {A B} (m : reader A) (k : A -> reader B) : reader B :=
  fun s => match m s with Ok (a, s') => k a s' | Throw e => Throw e | Undefined => Undefined end.

Declare Scope reader_scope.
Notation "'do' x <- m ; k" := (bind m (fun x => k))
  (at level 10, x name, m at level 100, k at level 200) : reader_scope.
Open Scope reader_scope.

Definition vch_size (s : CDataStream) : Z := Z.of_nat (length (vch s)).

(** [memcpy (pch, &vch[nReadPos], nSize)] *)
Definition copy_out (s : CDataStream) (nSize : Z) (s' : CDataStream) : result (list Z * CDataStream) :=
  if nReadPos s + nSize <=? vch_size s
  then Ok (slice (vch s) (Z.to_nat (nReadPos s)) (Z.to_nat nSize), s')
  else Undefined.

Definition read (nSize : Z) : reader (list Z) := fun s =>
  let nReadPosNext := trunc 32 (nReadPos s + nSize) in
  if vch_size s <=? nReadPosNext then
    if vch_size s <? nReadPosNext then Throw end_of_data
    else copy_out s nSize (DataStream [] 0)
  else copy_out s nSize (DataStream (vch s) nReadPosNext).

Definition write (s : CDataStream) (pch : list Z) : CDataStream :=
  DataStream (vch s ++ pch) (nReadPos s).

(** ** Types that can be serialized

    [Serialize v] is what the template passes to [write], in order; [sizeof]
    the size of an object in memory. *)
Class Serializable (T : Type) := {
  sizeof : Z;
  GetSerializeSize : T -> Z;
  Serialize : T -> list Z;
  Unserialize : reader T
}.

Definition op_lshift {T} `{Serializable T} (s : CDataStream) (obj : T) : CDataStream :=
  write s (Serialize obj).
Definition op_rshift {T} `{Serializable T} : reader T := Unserialize.

(** ** Basic types *)

Section Basic.
  Variable p : platform.

(** [WRITEDATA] and [READDATA] of an unsigned type of [n] bytes, and of a signed one. *)
Definition WRITEDATA (n : nat) (a : Z) : list Z := native_store p n a.
Definition READDATA (n : nat) : reader Z :=
  do b <- read (Z.of_nat n); ret (native_load p n b).

Definition signed (n : nat) (a : Z) : Z :=
  if a <? 2 ^ (8 * Z.of_nat n - 1) then a else a - 2 ^ (8 * Z.of_nat n).
Definition READDATA_signed (n : nat) : reader Z :=
  do a <- READDATA n; ret (signed n a).

(** ** Compact sizes *)

Definition GetSizeOfCompactSize (nSize : Z) : Z :=
  if nSize <? 253 then 1
  else if nSize <=? 0xFFFF then 1 + 2
  else if nSize <=? 0xFFFFFFFF then 1 + 4
  else 1 + 8.

Definition WriteCompactSize (nSize : Z) : list Z :=
  if nSize <? 253 then WRITEDATA 1 nSize
  else if nSize <=? 0xFFFF then WRITEDATA 1 253 ++ WRITEDATA 2 nSize
  else if nSize <=? 0xFFFFFFFF then WRITEDATA 1 254 ++ WRITEDATA 4 nSize
  else WRITEDATA 1 255 ++ WRITEDATA 8 nSize.

Definition MAX_SIZE : Z := 0x02000000.

(** The three long forms: [n] bytes, and the least size that needs them. *)
Definition read_xSize (n : nat) (least : Z) : reader Z :=
  do xSize <- READDATA n;
  if xSize <? least then throw non_canonical else ret xSize.

Definition ReadCompactSize : reader Z :=
  do chSize <- READDATA 1;
  do nSizeRet <-
    (if chSize <? 253 then ret chSize
     else if chSize =? 253 then read_xSize 2 253
     else if chSize =? 254 then read_xSize 4 0x10000
     else read_xSize 8 0x100000000);
  if MAX_SIZE <? nSizeRet then throw size_too_large else ret nSizeRet.

(** ** Variable-length integers

    [I] is an unsigned type of [n] bytes. *)

(** The loop stops because the number decreases; [fuel] is the size of [tmp]. *)
Fixpoint varint_digits (fuel : nat) (n : Z) (first : bool) : option (list Z) :=
  match fuel with
  | O => None
  | S fuel' =>
      let b := trunc 8 ((n .& 0x7F) .| (if first then 0 else 0x80)) in
      if n <=? 0x7F then Some [b]
      else let* t := varint_digits fuel' ((n >> 7) - 1) false in Some (b :: t)
  end.
Definition tmp_size (n : nat) : nat := (n * 8 + 6) / 7.

(** [None]: the loop would write past the end of [tmp]. *)
Definition WriteVarInt (I : nat) (n : Z) : option (list Z) :=
  let* tmp := varint_digits (tmp_size I) n true in Some (rev tmp).

Fixpoint sizeof_varint (fuel : nat) (n : Z) : option Z :=
  match fuel with
  | O => None
  | S fuel' => if n <=? 0x7F then Some 1
               else let* r := sizeof_varint fuel' ((n >> 7) - 1) in Some (r + 1)
  end.
Definition GetSizeOfVarInt (I : nat) (n : Z) : option Z := sizeof_varint (tmp_size I) n.

(** Every turn reads a byte, so [fuel] is the number of bytes in the stream, plus one. *)
Fixpoint read_varint (I : nat) (fuel : nat) (n : Z) : reader Z :=
  match fuel with
  | O => fun _ => Undefined
  | S fuel' =>
      do chData <- READDATA 1;
      let n := trunc (8 * Z.of_nat I) (n << 7) .| (chData .& 0x7F) in
      if chData .& 0x80 =? 0 then ret n
      else read_varint I fuel' (trunc (8 * Z.of_nat I) (n + 1))
  end.
Definition ReadVarInt (I : nat) : reader Z :=
  fun s => read_varint I (S (length (vch s))) 0 s.

(** ** Vectors *)

(** Fundamental types: [std::vector<unsigned char>]. *)
Definition Serialize_bytes (v : list Z) : list Z := WriteCompactSize (Z.of_nat (length v)) ++ v.
Definition GetSerializeSize_bytes (v : list Z) : Z :=
  trunc 32 (GetSizeOfCompactSize (Z.of_nat (length v)) + Z.of_nat (length v)).

(** [while (i < nSize)], with blocks of at most five million bytes. *)
Fixpoint read_blocks (fuel : nat) (nSize i : Z) : reader (list Z) :=
  match fuel with
  | O => if i <? nSize then fun _ => Undefined else ret []
  | S fuel' =>
      if i <? nSize then
        let blk := Z.min (trunc 32 (nSize - i)) (1 + 4999999 / 1) in
        do b <- read (blk * 1);
        do t <- read_blocks fuel' nSize (trunc 32 (i + blk));
        ret (b ++ t)
      else ret []
  end.
Definition Unserialize_bytes : reader (list Z) :=
  do nSize <- ReadCompactSize;
  read_blocks (Z.to_nat nSize) (trunc 32 nSize) 0.

(** Other types. *)
Section VectorOf.
  Context {T : Type} `{Serializable T}.

Definition Serialize_vector (v : list T) : list Z :=
  WriteCompactSize (Z.of_nat (length v)) ++ flat_map Serialize v.
Definition GetSerializeSize_vector (v : list T) : Z :=
  fold_left (fun nSize a => trunc 32 (nSize + GetSerializeSize a)) v
    (GetSizeOfCompactSize (Z.of_nat (length v))).

(** [for (; i < nMid; i++)], [n] times. *)
Fixpoint read_elements (n : nat) : reader (list T) :=
  match n with
  | O => ret []
  | S n' => do a <- Unserialize; do t <- read_elements n'; ret (a :: t)
  end.

(** [while (nMid < nSize)]; before each turn [i] is [nMid]. *)
Fixpoint read_chunks (fuel : nat) (nSize nMid : Z) : reader (list T) :=
  match fuel with
  | O => if nMid <? nSize then fun _ => Undefined else ret []
  | S fuel' =>
      if nMid <? nSize then
        let i := nMid in
        let nMid := trunc 32 (nMid + 5000000 / sizeof) in
        let nMid := if nSize <? nMid then nSize else nMid in
        do v <- read_elements (Z.to_nat (nMid - i));
        do t <- read_chunks fuel' nSize nMid;
        ret (v ++ t)
      else ret []
  end.
Definition Unserialize_vector : reader (list T) :=
  do nSize <- ReadCompactSize;
  read_chunks (Z.to_nat nSize) (trunc 32 nSize) 0.
End VectorOf.

(** [FLATDATA] of an object whose bytes are those of its members. *)
Definition read_uint (WIDTH : nat) : reader (list Z) :=
  do b <- read (Z.of_nat (4 * WIDTH)); ret (of_memory WIDTH p b).
End Basic.
