(* ===== verification/SerializeProof.v ===== *)
(** * What reading and writing objects guarantees

    The contract of a type that can be serialized, [codec]: reading is safe on
    every stream, what was read is the encoding of the object that was read,
    and reading an encoding gives the object back.  The contract is proved of
    the basic types, of compact sizes and of vectors; [codec_seq] builds that
    of a class from those of its members. *)

From Stdlib Require Import ZArith List Lia Bool.
From S2P Require Import Prelude SphTypes Uint256 Uint256Proof Uint256Hex Serialize.
Import ListNotations.

(** The bytes still to be read. *)
Definition remaining (s : CDataStream) : list Z := skipn (Z.to_nat (nReadPos s)) (vch s).

(** A stream whose read position cannot wrap: less than 4 GiB, by the largest read. *)
Definition stream_ok (s : CDataStream) : Prop :=
  0 <= nReadPos s <= vch_size s /\ vch_size s + 5000000 < 2 ^ 32 /\ bytes (vch s).

Definition codec {T} (U : reader T) (S : T -> list Z) (V : T -> Prop) : Prop :=
  (forall s v r, stream_ok s -> V v -> remaining s = S v ++ r ->
     exists s', U s = Ok (v, s') /\ stream_ok s' /\ remaining s' = r) /\
  (forall s, stream_ok s ->
     match U s with
     | Ok (v, s') => V v /\ stream_ok s' /\ remaining s = S v ++ remaining s'
     | Throw _ => True
     | Undefined => False
     end) /\
  (forall v, V v -> bytes (S v)).

Lemma remaining_bytes s : stream_ok s -> bytes (remaining s).
Proof. intros H. apply Forall_skipn', H. Qed.

Lemma remaining_length s : stream_ok s -> Z.of_nat (length (remaining s)) = vch_size s - nReadPos s.
Proof. intros H. unfold remaining, vch_size. rewrite length_skipn. destruct H as (H & _). unfold vch_size in H. lia. Qed.

(** ** Reading bytes *)

Lemma copy_out_ok s n s' :
  stream_ok s -> 0 <= n -> nReadPos s + n <= vch_size s ->
  copy_out s n s' = Ok (firstn (Z.to_nat n) (remaining s), s').
Proof. intros H Hn Hl. unfold copy_out. now rewrite (proj2 (Z.leb_le _ _) Hl). Qed.

Lemma read_ok s n :
  stream_ok s -> 0 <= n <= 5000000 ->
  if n <=? Z.of_nat (length (remaining s))
  then exists s', read n s = Ok (firstn (Z.to_nat n) (remaining s), s') /\ stream_ok s' /\
         remaining s' = skipn (Z.to_nat n) (remaining s)
  else read n s = Throw end_of_data.
Proof.
  intros H Hn. pose proof (remaining_length s H) as L. destruct H as (Hp & Hs & Hb) eqn:E.
  unfold read. rewrite trunc_id by (unfold word; lia).
  destruct (Z.leb_spec n (Z.of_nat (length (remaining s)))).
  - destruct (Z.leb_spec (vch_size s) (nReadPos s + n)).
    + rewrite (proj2 (Z.ltb_ge _ _)) by lia. rewrite copy_out_ok by (assumption || lia).
      eexists. split; [reflexivity|]. split.
      * split; [unfold vch_size; cbn; lia|]. split; [unfold vch_size; cbn; lia|apply Forall_nil].
      * symmetry. cbn. apply skipn_all2. lia.
    + rewrite copy_out_ok by (assumption || lia). eexists. split; [reflexivity|]. split.
      * split; [unfold vch_size in *; cbn; lia|]. split; assumption.
      * unfold remaining. cbn [nReadPos vch]. rewrite skipn_skipn. f_equal. lia.
  - rewrite (proj2 (Z.leb_le _ _)) by lia. now rewrite (proj2 (Z.ltb_lt _ _)) by lia.
Qed.

Lemma read_codec n :
  0 <= n <= 5000000 -> codec (read n) (fun b => b) (fun b => length b = Z.to_nat n /\ bytes b).
Proof.
  intros Hn. split; [|split].
  - intros s v r H [L B] E. pose proof (read_ok s n H Hn) as R. rewrite E, length_app in R.
    rewrite (proj2 (Z.leb_le _ _)) in R by lia. destruct R as (s' & R1 & R2 & R3).
    exists s'. rewrite R1, R3. rewrite firstn_app, skipn_app, L, Nat.sub_diag, firstn_O, app_nil_r.
    rewrite firstn_all2, skipn_all2 by lia. auto.
  - intros s H. pose proof (read_ok s n H Hn) as R.
    destruct (Z.leb_spec n (Z.of_nat (length (remaining s)))); [|now rewrite R].
    destruct R as (s' & -> & R2 & R3). split; [split|split; [assumption|]].
    + rewrite length_firstn. lia.
    + now apply Forall_firstn', remaining_bytes.
    + rewrite R3. symmetry. apply firstn_skipn.
  - now intros v [_ B].
Qed.

(** ** Composition *)

Lemma ret_codec {T} (v : T) : codec (ret v) (fun _ => []) (fun w => w = v).
Proof.
  split; [|split].
  - intros s w r H -> E. exists s. auto.
  - intros s H. cbn. auto.
  - intros w _. apply Forall_nil.
Qed.

Lemma codec_ext {T} (U U' : reader T) S S' (V V' : T -> Prop) :
  codec U S V -> (forall s, U s = U' s) -> (forall v, V v <-> V' v) ->
  (forall v, V v -> S v = S' v) -> codec U' S' V'.
Proof.
  intros (C1 & C2 & C3) EU EV ES. split; [|split].
  - intros s v r H Hv E. apply EV in Hv. rewrite <- EU. rewrite <- ES in E by assumption. now apply C1.
  - intros s H. rewrite <- EU. specialize (C2 s H). destruct (U s) as [[v s']|e|]; [|exact I|exact C2].
    destruct C2 as (Hv & Hs & Hr). split; [now apply EV|]. split; [assumption|]. now rewrite <- ES.
  - intros v Hv. apply EV in Hv. rewrite <- ES by assumption. now apply C3.
Qed.

(** The goal, with a contract that is the same on the valid values. *)
Ltac codec_as := cbv beta; match goal with |- codec ?U _ _ => eapply (codec_ext U) end.

(** A member [g] of the object, then the rest. *)
Lemma codec_seq {A T} (U : reader A) (K : A -> reader T) S1 S2 (V1 : A -> Prop) (V : T -> Prop) (g : T -> A) :
  codec U S1 V1 -> (forall v, V v -> V1 (g v)) ->
  (forall a, V1 a -> codec (K a) S2 (fun v => V v /\ g v = a)) ->
  codec (bind U K) (fun v => S1 (g v) ++ S2 v) V.
Proof.
  intros (C1 & C2 & C3) HV HK. split; [|split].
  - intros s v r H Hv E. rewrite <- app_assoc in E.
    destruct (C1 s (g v) _ H (HV v Hv) E) as (s1 & E1 & H1 & R1).
    destruct (proj1 (HK (g v) (HV v Hv)) s1 v r H1 (conj Hv eq_refl) R1) as (s2 & E2 & H2 & R2).
    exists s2. unfold bind. now rewrite E1.
  - intros s H. unfold bind. specialize (C2 s H). destruct (U s) as [[a s1]|e|]; [|exact I|exact C2].
    destruct C2 as (Ha & H1 & R1). pose proof (proj1 (proj2 (HK a Ha)) s1 H1) as D.
    destruct (K a s1) as [[v s2]|e|]; [|exact I|exact D].
    destruct D as ([Hv <-] & H2 & R2). split; [assumption|]. split; [assumption|].
    now rewrite <- app_assoc, <- R2.
  - intros v Hv. apply Forall_app. split; [now apply C3, HV|]. now apply (HK (g v) (HV v Hv)).
Qed.

(** The image of a codec by a bijection. *)
Lemma codec_map {A T} (U : reader A) S (V : A -> Prop) (f : A -> T) (g : T -> A) (V' : T -> Prop) :
  codec U S V -> (forall v, V' v -> V (g v) /\ f (g v) = v) -> (forall a, V a -> V' (f a) /\ g (f a) = a) ->
  codec (do a <- U; ret (f a)) (fun v => S (g v)) V'.
Proof.
  intros C Hg Hf. eapply (codec_ext _ _ (fun v => S (g v) ++ [])).
  - apply (codec_seq U (fun a => ret (f a)) S (fun _ => []) V V' g C).
    + intros v Hv. now apply Hg.
    + intros a Ha. eapply codec_ext; [apply (ret_codec (f a))|reflexivity| |reflexivity].
      intros v. cbn. split.
      * intros ->. now apply Hf.
      * intros [Hv <-]. symmetry. now apply Hg.
  - reflexivity.
  - reflexivity.
  - intros v _. apply app_nil_r.
Qed.

(** A reader that fails on some of the values. *)
Lemma codec_guard {T} (U : reader T) S (V : T -> Prop) (b : T -> bool) e :
  codec U S V ->
  codec (do a <- U; if b a then throw e else ret a) S (fun v => V v /\ b v = false).
Proof.
  intros (C1 & C2 & C3). split; [|split].
  - intros s v r H [Hv Hb] E. destruct (C1 s v r H Hv E) as (s' & E' & H' & R').
    exists s'. unfold bind. now rewrite E', Hb.
  - intros s H. unfold bind. specialize (C2 s H). destruct (U s) as [[v s']|e'|]; [|exact I|exact C2].
    destruct (b v) eqn:Eb; cbn; [exact I|]. tauto.
  - intros v [Hv _]. now apply C3.
Qed.

(** ** Basic types *)

Section Basic.
  Variable p : platform.

Lemma READDATA_codec n :
  (n <= 8)%nat -> codec (READDATA p n) (WRITEDATA p n) (word (8 * Z.of_nat n)).
Proof.
  intros Hn. unfold READDATA, WRITEDATA.
  apply (codec_map (read (Z.of_nat n)) (fun b => b) (fun b => length b = n /\ bytes b)
    (native_load p n) (native_store p n)).
  - eapply codec_ext; [apply (read_codec (Z.of_nat n)); lia|reflexivity| |reflexivity].
    intros v. now rewrite Nat2Z.id.
  - intros v Hv. split; [split; [apply length_native_store|apply bytes_native_store]|].
    rewrite <- (app_nil_r (native_store p n v)). now apply native_load_store.
  - intros b [L B]. split; [now apply native_load_word|now apply native_store_load].
Qed.

Definition signed_range (n : nat) (v : Z) : Prop :=
  - 2 ^ (8 * Z.of_nat n - 1) <= v < 2 ^ (8 * Z.of_nat n - 1).

Lemma READDATA_signed_codec n :
  (0 < n <= 8)%nat -> codec (READDATA_signed p n) (WRITEDATA p n) (signed_range n).
Proof.
  intros Hn. unfold READDATA_signed. unfold signed_range.
  assert (E : 2 ^ (8 * Z.of_nat n) = 2 * 2 ^ (8 * Z.of_nat n - 1)).
  { rewrite <- Z.pow_succ_r by lia. f_equal. lia. }
  assert (P : 0 < 2 ^ (8 * Z.of_nat n - 1)) by (apply Z.pow_pos_nonneg; lia).
  eapply codec_ext;
    [apply (codec_map (READDATA p n) (WRITEDATA p n) (word (8 * Z.of_nat n)) (signed n)
       (fun v => v mod 2 ^ (8 * Z.of_nat n)) (signed_range n))|reflexivity|reflexivity|].
  - apply READDATA_codec. lia.
  - unfold signed_range, word, signed. intros v Hv. split; [apply Z.mod_pos_bound; lia|].
    rewrite E. destruct (Z.le_gt_cases 0 v).
    + rewrite Z.mod_small by lia. now rewrite (proj2 (Z.ltb_lt _ _)) by lia.
    + replace (v mod _) with (v + 2 * 2 ^ (8 * Z.of_nat n - 1)).
      * rewrite (proj2 (Z.ltb_ge _ _)) by lia. lia.
      * apply Z.mod_unique with (-1); lia.
  - unfold signed_range, word, signed. intros a Ha. rewrite E in *.
    destruct (Z.ltb_spec a (2 ^ (8 * Z.of_nat n - 1))).
    + split; [lia|]. apply Z.mod_small. lia.
    + split; [lia|]. symmetry. apply Z.mod_unique with (-1); lia.
  - intros v _. unfold WRITEDATA. apply native_store_mod.
Qed.

(** The lengths of what is written. *)
Lemma length_WRITEDATA n v : length (WRITEDATA p n v) = n.
Proof. apply length_native_store. Qed.

(** ** Compact sizes *)

Lemma length_WriteCompactSize v :
  Z.of_nat (length (WriteCompactSize p v)) = GetSizeOfCompactSize v.
Proof.
  unfold WriteCompactSize, GetSizeOfCompactSize.
  repeat match goal with |- context [if ?b then _ else _] => destruct b end;
    rewrite ?length_app, ?length_WRITEDATA; reflexivity.
Qed.

Lemma read_xSize_codec n least :
  (n <= 8)%nat ->
  codec (read_xSize p n least) (WRITEDATA p n) (fun v => word (8 * Z.of_nat n) v /\ least <= v).
Proof.
  intros Hn. unfold read_xSize. eapply codec_ext;
    [apply (codec_guard _ _ _ (fun x => x <? least) non_canonical (READDATA_codec n Hn))|reflexivity| |reflexivity].
  intros v. cbn. now rewrite Z.ltb_ge.
Qed.

(** The first byte, and the rest. *)
Definition size_mark (v : Z) : Z :=
  if v <? 253 then v else if v <=? 0xFFFF then 253 else if v <=? 0xFFFFFFFF then 254 else 255.
Definition size_rest (v : Z) : list Z :=
  if v <? 253 then [] else if v <=? 0xFFFF then WRITEDATA p 2 v
  else if v <=? 0xFFFFFFFF then WRITEDATA p 4 v else WRITEDATA p 8 v.

Lemma ReadCompactSize_codec :
  codec (ReadCompactSize p) (WriteCompactSize p) (fun v => 0 <= v <= MAX_SIZE).
Proof.
  codec_as;
    [apply (codec_seq (READDATA p 1) _ (WRITEDATA p 1) size_rest (word 8) (fun v => 0 <= v <= MAX_SIZE) size_mark)
    |reflexivity|reflexivity|].
  - apply (READDATA_codec 1). lia.
  - intros v Hv. unfold MAX_SIZE, size_mark, word in *.
    destruct (Z.ltb_spec v 253); [lia|]. now destruct (v <=? 65535), (v <=? 4294967295).
  - intros a Ha. codec_as;
      [apply (codec_guard _ size_rest (fun v => 0 <= v < 2 ^ 64 /\ size_mark v = a) (fun n => MAX_SIZE <? n) size_too_large)
      |reflexivity| |reflexivity].
    2:{ intros v. unfold MAX_SIZE. cbn. rewrite Z.ltb_ge. lia. }
    unfold size_mark, size_rest, word in *.
    destruct (Z.ltb_spec a 253); [|destruct (Z.eqb_spec a 253); [|destruct (Z.eqb_spec a 254)]].
    + eapply codec_ext; [apply (ret_codec a)|reflexivity| |].
      * intros v. cbn. destruct (Z.ltb_spec v 253); [lia|].
        split; [lia|]. intros [_ <-]. exfalso. destruct (v <=? 65535), (v <=? 4294967295); lia.
      * intros v ->. now rewrite (proj2 (Z.ltb_lt _ _)) by lia.
    + eapply codec_ext; [apply (read_xSize_codec 2 253); lia|reflexivity| |]; unfold word; cbn; intros v.
      * destruct (Z.ltb_spec v 253); [lia|]. destruct (Z.leb_spec v 65535); [lia|].
        split; [lia|]. intros [_ E]. exfalso. destruct (v <=? 4294967295); lia.
      * intros Hv. rewrite (proj2 (Z.ltb_ge _ _)) by lia. now rewrite (proj2 (Z.leb_le _ _)) by lia.
    + eapply codec_ext; [apply (read_xSize_codec 4 0x10000); lia|reflexivity| |]; unfold word; cbn; intros v.
      * destruct (Z.ltb_spec v 253); [lia|]. destruct (Z.leb_spec v 65535); [lia|].
        destruct (Z.leb_spec v 4294967295); lia.
      * intros Hv. rewrite (proj2 (Z.ltb_ge _ _)), (proj2 (Z.leb_gt _ _)) by lia.
        now rewrite (proj2 (Z.leb_le _ _)) by lia.
    + eapply codec_ext; [apply (read_xSize_codec 8 0x100000000); lia|reflexivity| |]; unfold word; cbn; intros v.
      * destruct (Z.ltb_spec v 253); [lia|]. destruct (Z.leb_spec v 65535); [lia|].
        destruct (Z.leb_spec v 4294967295); lia.
      * intros Hv. rewrite (proj2 (Z.ltb_ge _ _)), !(proj2 (Z.leb_gt _ _)) by lia. reflexivity.
  - intros v Hv. unfold size_mark, size_rest, WriteCompactSize.
    destruct (v <? 253); [now rewrite app_nil_r|]. now destruct (v <=? 65535), (v <=? 4294967295).
Qed.
End Basic.

(** ** What the vector templates need of the type of the elements *)

Class SerializableLaws (T : Type) {ser : Serializable T} := {
  valid : T -> Prop;
  serial_codec : codec Unserialize Serialize valid;
  serial_size : forall v, valid v -> GetSerializeSize v = trunc 32 (Z.of_nat (length (Serialize v)));
  serial_sizeof : 0 < sizeof <= 5000000
}.

(** A list read in two parts. *)
Lemma codec_append {T} (E K : reader (list T)) (S : list T -> list Z) (V : T -> Prop) (k n : nat) :
  (forall a b, S (a ++ b) = S a ++ S b) -> (k <= n)%nat ->
  codec E S (fun v => length v = k /\ Forall V v) ->
  codec K S (fun v => length v = (n - k)%nat /\ Forall V v) ->
  codec (do b <- E; do t <- K; ret (b ++ t)) S (fun v => length v = n /\ Forall V v).
Proof.
  intros HS Hk CE CK. codec_as;
    [apply (codec_seq E _ S (fun v => S (skipn k v)) (fun v => length v = k /\ Forall V v)
      (fun v => length v = n /\ Forall V v) (firstn k) CE)|reflexivity|reflexivity|].
  - intros v [L F]. split; [rewrite length_firstn; lia|now apply Forall_firstn'].
  - intros a [La Fa]. apply (codec_map K S _ (app a) (skipn k) _ CK).
    + intros v [[L F] <-]. split; [split; [rewrite length_skipn; lia|now apply Forall_skipn']|].
      apply firstn_skipn.
    + intros t [L F]. rewrite length_app, skipn_app, firstn_app, skipn_all2, La, Nat.sub_diag by lia.
      rewrite firstn_O, app_nil_r, firstn_all2 by lia.
      splits; (lia || reflexivity || now apply Forall_app).
  - intros v _. cbv beta. now rewrite <- HS, firstn_skipn.
Qed.

Lemma nil_codec {T} (S : list T -> list Z) (V : T -> Prop) :
  S [] = [] -> codec (ret []) S (fun v => length v = 0%nat /\ Forall V v).
Proof.
  intros HS. codec_as; [apply (ret_codec [])|reflexivity| |].
  - intros v. split; [intros ->; auto|]. intros [L _]. now destruct v.
  - intros v ->. now rewrite HS.
Qed.

Lemma nil_codec' {T} (S : list T -> list Z) (V : T -> Prop) n :
  S [] = [] -> n = 0%nat -> codec (ret []) S (fun v => length v = n /\ Forall V v).
Proof. intros HS ->. now apply nil_codec. Qed.

Lemma read_blocks_codec fuel nSize i :
  0 <= i <= nSize -> nSize <= MAX_SIZE -> nSize - i <= Z.of_nat fuel ->
  codec (read_blocks fuel nSize i) (fun b => b) (fun v => length v = Z.to_nat (nSize - i) /\ bytes v).
Proof.
  unfold MAX_SIZE. revert i. induction fuel as [|fuel IH]; intros i Hi Hn Hf; cbn [read_blocks];
    (destruct (Z.ltb_spec i nSize); [|apply nil_codec'; [reflexivity|lia]]); [lia|].
  cbv zeta. rewrite (trunc_id 32 (nSize - i)) by (unfold word; lia).
  change (1 + 4999999 / 1) with 5000000. set (blk := Z.min (nSize - i) 5000000).
  rewrite trunc_id by (unfold word; lia). rewrite Z.mul_1_r.
  apply (codec_append _ _ (fun b => b) (word 8) (Z.to_nat blk)); [reflexivity|lia| |].
  - apply read_codec. lia.
  - replace (Z.to_nat (nSize - i) - Z.to_nat blk)%nat with (Z.to_nat (nSize - (i + blk))) by lia.
    apply IH; lia.
Qed.

Section Vectors.
  Variable p : platform.

(** A size, then that many elements. *)
Lemma sized_codec {T} (V : T -> Prop) (S : list T -> list Z) (K : Z -> reader (list T)) :
  (forall n, 0 <= n <= MAX_SIZE -> codec (K n) S (fun v => length v = Z.to_nat n /\ Forall V v)) ->
  codec (do nSize <- ReadCompactSize p; K nSize)
    (fun v => WriteCompactSize p (Z.of_nat (length v)) ++ S v)
    (fun v => Z.of_nat (length v) <= MAX_SIZE /\ Forall V v).
Proof.
  intros H. apply (codec_seq (ReadCompactSize p) K (WriteCompactSize p) S (fun v => 0 <= v <= MAX_SIZE) _
    (fun v => Z.of_nat (length v)) (ReadCompactSize_codec p)); [intros v [L _]; lia|].
  intros n Hn. codec_as; [apply (H n Hn)|reflexivity| |reflexivity]. intros v. cbv beta.
  split; [intros [L F]|intros [[L F] E]]; splits; try assumption; lia.
Qed.

Lemma Unserialize_bytes_codec :
  codec (Unserialize_bytes p) (Serialize_bytes p) (fun v => Z.of_nat (length v) <= MAX_SIZE /\ bytes v).
Proof.
  apply (sized_codec (word 8) (fun b => b)). intros n Hn. unfold MAX_SIZE in *.
  rewrite trunc_id by (unfold word; lia).
  pose proof (read_blocks_codec (Z.to_nat n) n 0) as C. unfold MAX_SIZE in C.
  rewrite Z.sub_0_r in C. apply C; lia.
Qed.

Lemma GetSizeOfCompactSize_range n : 0 <= n -> 1 <= GetSizeOfCompactSize n <= 9.
Proof.
  intros Hn. unfold GetSizeOfCompactSize.
  repeat match goal with |- context [if ?b then _ else _] => destruct b end; lia.
Qed.

Lemma Serialize_bytes_size v :
  GetSerializeSize_bytes v = trunc 32 (Z.of_nat (length (Serialize_bytes p v))).
Proof.
  unfold GetSerializeSize_bytes, Serialize_bytes.
  now rewrite length_app, Nat2Z.inj_add, length_WriteCompactSize.
Qed.

Section VectorOf.
  Context {T : Type} {ser : Serializable T} {laws : SerializableLaws T}.

Lemma one_element_codec :
  codec (do a <- Unserialize; ret [a]) (flat_map Serialize) (fun v => length v = 1%nat /\ Forall valid v).
Proof.
  destruct serial_codec as (C1 & C2 & C3). split; [|split].
  - intros s v r H [L F] E. destruct v as [|a [|b v]]; try discriminate. cbn [flat_map] in E.
    inversion F as [|? ? Fa _]; subst. rewrite app_nil_r in E. destruct (C1 s a r H Fa E) as (s' & E' & H' & R').
    exists s'. unfold bind. now rewrite E'.
  - intros s H. unfold bind. specialize (C2 s H). destruct (Unserialize s) as [[a s']|e|]; [|exact I|exact C2].
    destruct C2 as (Va & H' & R'). cbn. rewrite app_nil_r. auto.
  - intros v [_ F]. unfold bytes. rewrite flat_map_concat_map. apply Forall_concat, Forall_map.
    eapply Forall_impl; [|exact F]. apply C3.
Qed.

Lemma read_elements_codec n :
  codec (read_elements n) (flat_map Serialize) (fun v => length v = n /\ Forall valid v).
Proof.
  induction n as [|n IH]; [now apply nil_codec|].
  eapply (codec_ext (do b <- do a <- Unserialize; ret [a]; do t <- read_elements n; ret (b ++ t))).
  - apply (codec_append (do a <- Unserialize; ret [a]) (read_elements n) (flat_map Serialize) valid 1 (S n));
      [apply flat_map_app|lia|apply one_element_codec|].
    now replace (S n - 1)%nat with n by lia.
  - intros s. cbn [read_elements]. unfold bind, ret. now destruct (Unserialize s) as [[a s']|e|].
  - reflexivity.
  - reflexivity.
Qed.

Lemma read_chunks_codec fuel nSize nMid :
  0 <= nMid <= nSize -> nSize <= MAX_SIZE -> nSize - nMid <= Z.of_nat fuel ->
  codec (read_chunks fuel nSize nMid) (flat_map Serialize)
    (fun v => length v = Z.to_nat (nSize - nMid) /\ Forall valid v).
Proof.
  unfold MAX_SIZE. revert nMid. induction fuel as [|fuel IH]; intros nMid Hi Hn Hf; cbn [read_chunks];
    (destruct (Z.ltb_spec nMid nSize); [|apply nil_codec'; [reflexivity|lia]]); [lia|].
  cbv zeta. pose proof serial_sizeof as Hs.
  assert (Q : 1 <= 5000000 / sizeof <= 5000000) by (split; [apply Z.div_le_lower_bound|apply Z.div_le_upper_bound]; lia).
  rewrite trunc_id by (unfold word; lia).
  set (m := if nSize <? nMid + 5000000 / sizeof then nSize else nMid + 5000000 / sizeof).
  assert (Hm : nMid < m <= nSize) by (subst m; destruct (Z.ltb_spec nSize (nMid + 5000000 / sizeof)); lia).
  apply (codec_append _ _ (flat_map Serialize) valid (Z.to_nat (m - nMid)));
    [apply flat_map_app|lia|apply read_elements_codec|].
  replace (Z.to_nat (nSize - nMid) - Z.to_nat (m - nMid))%nat with (Z.to_nat (nSize - m)) by lia.
  apply IH; lia.
Qed.

Lemma Unserialize_vector_codec :
  codec (Unserialize_vector p) (Serialize_vector p)
    (fun v => Z.of_nat (length v) <= MAX_SIZE /\ Forall valid v).
Proof.
  apply (sized_codec valid (flat_map Serialize)). intros n Hn. unfold MAX_SIZE in *.
  rewrite trunc_id by (unfold word; lia).
  pose proof (read_chunks_codec (Z.to_nat n) n 0) as C. unfold MAX_SIZE in C.
  rewrite Z.sub_0_r in C. apply C; lia.
Qed.

Lemma Serialize_vector_size v :
  Forall valid v ->
  trunc 32 (GetSerializeSize_vector v) = trunc 32 (Z.of_nat (length (Serialize_vector p v))).
Proof.
  intros F. unfold GetSerializeSize_vector, Serialize_vector.
  rewrite length_app, Nat2Z.inj_add, length_WriteCompactSize.
  generalize (GetSizeOfCompactSize (Z.of_nat (length v))). intros n. revert n.
  induction F as [|a v Ha F IH]; intros n; cbn [fold_left flat_map].
  - now rewrite Z.add_0_r.
  - rewrite IH, length_app, Nat2Z.inj_add, serial_size by assumption.
    rewrite !trunc_mod by lia. rewrite Zplus_mod_idemp_l, <- Z.add_assoc, Z.add_comm, <- Z.add_assoc.
    rewrite Zplus_mod_idemp_l. f_equal. lia.
Qed.
End VectorOf.

Lemma read_uint_codec WIDTH :
  (WIDTH <= 16)%nat -> codec (read_uint p WIDTH) (memory p) (words_ok WIDTH).
Proof.
  intros Hw. unfold read_uint.
  apply (codec_map (read (Z.of_nat (4 * WIDTH))) (fun b => b) (fun b => length b = (4 * WIDTH)%nat /\ bytes b)
    (of_memory WIDTH p) (memory p)).
  - codec_as; [apply (read_codec (Z.of_nat (4 * WIDTH))); lia|reflexivity| |reflexivity].
    intros v. now rewrite Nat2Z.id.
  - intros v Hv. split; [split; [now apply memory_length, Hv|apply memory_bytes]|now apply of_memory_memory].
  - intros b [L B]. split; [now apply of_memory_ok|]. now apply memory_of_memory.
Qed.
End Vectors.

(** ** Variable-length integers

    [WriteVarInt] never leaves its array, and [ReadVarInt] reads back what it
    wrote. *)

Lemma next_digit n : 0x7F < n -> 0 <= (n >> 7) - 1 < n /\ n / 128 = n >> 7.
Proof. intros H. rewrite Z.shiftr_div_pow2 by lia. change (2 ^ 7) with 128. split; [dlia|reflexivity]. Qed.

Lemma digits_enough fuel n first :
  (0 < fuel)%nat -> 0 <= n < 2 ^ (7 * Z.of_nat fuel) ->
  exists t, varint_digits fuel n first = Some t /\ (0 < length t <= fuel)%nat /\
    bytes t /\ sizeof_varint fuel n = Some (Z.of_nat (length t)).
Proof.
  revert n first. induction fuel as [|fuel IH]; intros n first Hf Hn; [lia|]. cbn [varint_digits sizeof_varint].
  destruct (Z.leb_spec n 0x7F).
  - eexists. split; [reflexivity|]. split; [cbn; lia|]. split; [|reflexivity].
    constructor; [now apply trunc_word|apply Forall_nil].
  - destruct (next_digit n ltac:(lia)) as [Hd E].
    assert (B : (n >> 7) - 1 < 2 ^ (7 * Z.of_nat fuel)).
    { rewrite <- E. rewrite Nat2Z.inj_succ, Z.mul_succ_r, Z.pow_add_r in Hn by lia.
      change (2 ^ 7) with 128 in Hn. pose proof (Z.div_lt_upper_bound n 128 (2 ^ (7 * Z.of_nat fuel))). lia. }
    destruct fuel as [|fuel]; [change (2 ^ (7 * Z.of_nat 1)) with 128 in Hn; lia|].
    destruct (IH ((n >> 7) - 1) false ltac:(lia) ltac:(lia)) as (t & E1 & L & F & E2).
    rewrite E1, E2. eexists. split; [reflexivity|]. split; [cbn [length]; lia|]. split.
    + constructor; [now apply trunc_word|assumption].
    + f_equal. cbn [length]. lia.
Qed.

(** One byte of the encoding. *)
Definition varint_byte (n : Z) (first : bool) : Z :=
  trunc 8 ((n .& 0x7F) .| (if first then 0 else 0x80)).

Lemma varint_byte_bits n first k :
  0 <= k -> Z.testbit (varint_byte n first) k = (k <? 7) && Z.testbit n k || (k =? 7) && negb first.
Proof.
  intros Hk. unfold varint_byte. destruct (Z.ltb_spec k 8).
  - change 8 with (Z.of_nat 8) in H. assert (Hk' : 0 <= k < Z.of_nat 8) by lia. clear Hk H.
    each_bit 8%nat k Hk'; destruct first; bit_compute; rewrite ?orb_false_r; reflexivity.
  - rewrite trunc_testbit, (proj2 (Z.ltb_ge k 8)), (proj2 (Z.ltb_ge k 7)), (proj2 (Z.eqb_neq k 7)) by lia.
    reflexivity.
Qed.

Lemma varint_byte_flag n first : varint_byte n first .& 0x80 = if first then 0 else 0x80.
Proof.
  change 0x80 with (2 ^ 7). bitwise k Hk. rewrite varint_byte_bits, Z.pow2_bits_eqb, Z.eqb_sym by lia.
  destruct (Z.eqb_spec 7 k) as [<-|N]; destruct first; cbn [negb];
    rewrite ?andb_false_r, ?orb_false_r, ?andb_true_r, ?Z.testbit_0_l, ?Z.pow2_bits_true by lia; try reflexivity.
  symmetry. now apply Z.pow2_bits_false.
Qed.

Lemma varint_byte_digit w n first :
  7 <= w -> 0 <= n < 2 ^ w -> trunc w ((n >> 7) << 7) .| (varint_byte n first .& 0x7F) = n.
Proof.
  intros Hw Hn. change 0x7F with (Z.ones 7). bitwise k Hk. rewrite varint_byte_bits by lia.
  destruct (Z.ltb_spec k 7) as [L|L].
  - rewrite (proj2 (Z.leb_gt 7 k)), (proj2 (Z.eqb_neq k 7)) by lia. cbn.
    now rewrite andb_false_r, orb_false_r, andb_true_r.
  - rewrite (proj2 (Z.leb_le 7 k)) by lia. rewrite andb_false_r, orb_false_r.
    rewrite Z.shiftr_spec by lia. replace (k - 7 + 7) with k by lia. destruct (Z.ltb_spec k w); [reflexivity|].
    symmetry. apply (word_testbit_high w n); [lia|split; lia|lia].
Qed.

Section Read.
  Variable p : platform.
  Variable I : nat.
  Hypothesis HI : (0 < I)%nat.
  Abbreviation w := (8 * Z.of_nat I).

Lemma read_byte b r s :
  word 8 b -> stream_ok s -> remaining s = b :: r ->
  exists s', READDATA p 1 s = Ok (b, s') /\ stream_ok s' /\ remaining s' = r.
Proof.
  intros Hb Hs E. destruct (READDATA_codec p 1 ltac:(lia)) as (C & _).
  apply (C s b r Hs Hb). rewrite E. unfold WRITEDATA, native_store, be_store. cbn [le_store rev app].
  rewrite trunc_id by (lia || assumption). now destruct (order p).
Qed.

(** Reading the bytes of the higher digits leaves the number that the next digit completes. *)
Lemma read_digits fuel n t :
  varint_digits fuel n false = Some t -> 0 <= n < 2 ^ w - 1 ->
  forall fuel' r s, stream_ok s -> remaining s = rev t ++ r ->
  exists s', stream_ok s' /\ remaining s' = r /\
    read_varint p I (length t + fuel') 0 s = read_varint p I fuel' (n + 1) s'.
Proof.
  assert (W8 : 8 <= w) by lia.
  revert n t. induction fuel as [|fuel IH]; intros n t E Hn fuel' r s Hs R; [discriminate|].
  cbn [varint_digits] in E. fold (varint_byte n false) in E.
  assert (Last : forall s1 fuel1 acc, stream_ok s1 -> remaining s1 = varint_byte n false :: r ->
    trunc w (acc << 7) .| (varint_byte n false .& 0x7F) = n ->
    exists s', stream_ok s' /\ remaining s' = r /\
      read_varint p I (S fuel1) acc s1 = read_varint p I fuel1 (n + 1) s').
  { intros s1 fuel1 acc H1 R1 V. destruct (read_byte _ _ _ ltac:(now apply trunc_word) H1 R1) as (s2 & E2 & H2 & R2).
    exists s2. split; [exact H2|]. split; [exact R2|]. cbn [read_varint]. unfold bind. rewrite E2. cbv beta zeta.
    change (trunc 8 (n .& 0x7F .| 0x80)) with (varint_byte n false). rewrite V, varint_byte_flag. change (0x80 =? 0) with false. cbv iota.
    rewrite trunc_id by (unfold word; lia). reflexivity. }
  destruct (Z.leb_spec n 0x7F).
  - injection E as <-. apply (Last s fuel' 0 Hs R).
    replace 0 with (n >> 7) at 1; [apply varint_byte_digit; lia|].
    rewrite Z.shiftr_div_pow2 by lia. apply Z.div_small. lia.
  - destruct (next_digit n ltac:(lia)) as [Hd _].
    destruct (varint_digits fuel ((n >> 7) - 1) false) as [t'|] eqn:E'; [|discriminate]. injection E as <-.
    cbn [rev] in R. rewrite <- app_assoc in R.
    destruct (IH _ _ E' ltac:(lia) (S fuel') _ s Hs R) as (s1 & H1 & R1 & E1).
    replace ((n >> 7) - 1 + 1) with (n >> 7) in E1 by lia.
    destruct (Last s1 fuel' (n >> 7) H1 R1) as (s2 & H2 & R2 & E2); [apply varint_byte_digit; lia|].
    exists s2. split; [exact H2|]. split; [exact R2|]. cbn [length]. 
    replace (S (length t') + fuel')%nat with (length t' + S fuel')%nat by lia. now rewrite E1.
Qed.

Lemma VarInt_roundtrip n :
  word w n ->
  exists b, WriteVarInt I n = Some b /\ bytes b /\
    GetSizeOfVarInt I n = Some (Z.of_nat (length b)) /\ (length b <= tmp_size I)%nat /\
    forall s r, stream_ok s -> remaining s = b ++ r ->
    exists s', ReadVarInt p I s = Ok (n, s') /\ stream_ok s' /\ remaining s' = r.
Proof.
  intros Hn. unfold word in Hn. unfold WriteVarInt, GetSizeOfVarInt, tmp_size.
  assert (F : (8 * I <= 7 * ((I * 8 + 6) / 7))%nat) by dlia.
  assert (Fp : (0 < (I * 8 + 6) / 7)%nat) by lia.
  revert F Fp. generalize ((I * 8 + 6) / 7)%nat as fuel. intros fuel F Fp.
  assert (B : n < 2 ^ (7 * Z.of_nat fuel)).
  { apply Z.lt_le_trans with (2 ^ w); [lia|]. apply Z.pow_le_mono_r; lia. }
  destruct (digits_enough fuel n true Fp ltac:(lia)) as (t & E & L & Bt & E2).
  rewrite E. exists (rev t). split; [reflexivity|]. split; [now apply Forall_rev|].
  rewrite length_rev. split; [exact E2|]. split; [lia|].
  intros s r Hs R. unfold ReadVarInt.
  assert (Lr : (length (remaining s) <= length (vch s))%nat) by (unfold remaining; rewrite length_skipn; lia).
  rewrite R, length_app, length_rev in Lr.
  assert (Final : forall s1 fuel1 acc, stream_ok s1 -> remaining s1 = varint_byte n true :: r ->
    trunc w (acc << 7) .| (varint_byte n true .& 0x7F) = n ->
    exists s', read_varint p I (S fuel1) acc s1 = Ok (n, s') /\ stream_ok s' /\ remaining s' = r).
  { intros s1 fuel1 acc H1 R1 V. destruct (read_byte _ _ _ ltac:(now apply trunc_word) H1 R1) as (s2 & E3 & H2 & R2).
    exists s2. split; [|now split]. cbn [read_varint]. unfold bind. rewrite E3. cbv beta zeta.
    change (trunc 8 (n .& 0x7F .| 0)) with (varint_byte n true). now rewrite V, varint_byte_flag. }
  destruct fuel as [|fuel]; [lia|]. cbn [varint_digits] in E. fold (varint_byte n true) in E.
  destruct (Z.leb_spec n 0x7F).
  - injection E as <-. cbn [rev app] in R. apply (Final s _ 0 Hs R).
    replace 0 with (n >> 7) at 1; [apply varint_byte_digit; lia|].
    rewrite Z.shiftr_div_pow2 by lia. apply Z.div_small. lia.
  - destruct (next_digit n ltac:(lia)) as [Hd _].
    destruct (varint_digits fuel ((n >> 7) - 1) false) as [t'|] eqn:E'; [|discriminate]. injection E as <-.
    cbn [rev length] in *. rewrite <- app_assoc in R.
    replace (S (length (vch s))) with (length t' + S (length (vch s) - length t'))%nat by lia.
    destruct (read_digits _ _ _ E' ltac:(lia) (S (length (vch s) - length t')) _ s Hs R) as (s1 & H1 & R1 & E1).
    replace ((n >> 7) - 1 + 1) with (n >> 7) in E1 by lia.
    destruct (Final s1 (length (vch s) - length t')%nat (n >> 7) H1 R1) as (s2 & E3 & H2 & R2);
      [apply varint_byte_digit; lia|].
    exists s2. rewrite E1. auto.
Qed.
End Read.
