(* ===== verification/Transaction.v ===== *)
(** * Transactions and blocks

    The classes of src/src/core.h and src/src/main.h that make up a block: how
    each is written to a stream and read back ([IMPLEMENT_SERIALIZE]), their
    predicates, their hashes, and the checks of a transaction that need no
    context ([CheckTransaction]).  SHA-256 is OpenSSL's: a parameter. *)

From Stdlib Require Import ZArith List Lia Bool.
From S2P Require Import Prelude SphTypes Uint256 Serialize.
Import ListNotations.

(** [COutPoint], [CTxIn], [CTxOut]; scripts are lists of bytes. *)
Record COutPoint := OutPoint { hash : list Z; n : Z }.
Record CTxIn := TxIn { prevout : COutPoint; scriptSig : list Z; prevPubKey : list Z; nSequence : Z }.
Record CTxOut := TxOut { nValue : Z; scriptPubKey : list Z }.

(** [CTransaction] without [nDoS], which only [CheckTransaction] changes. *)
Record CTransaction := Transaction {
  nVersion : Z; nTime : Z; vin : list CTxIn; vout : list CTxOut; nLockTime : Z
}.

(** [CBlock] without [nDoS] and the memory-only [vMerkleTree]. *)
Record CBlock := Block {
  b_nVersion : Z; hashPrevBlock : list Z; hashMerkleRoot : list Z; b_nTime : Z; nBits : Z;
  nNonce : Z; vtx : list CTransaction; vchBlockSig : list Z
}.

(** ** Serialization *)

Definition SER_GETHASH : Z := 1 << 2.
Definition SER_BLOCKHEADERONLY : Z := 1 << 17.

Section Serialization.
  Variable p : platform.
(** The sizes the compiler gives to the classes, which the vector templates read in blocks of
    five million bytes. *)
  Variables sizeof_COutPoint sizeof_CTxIn sizeof_CTxOut sizeof_CTransaction sizeof_CBlock : Z.

(** [FLATDATA] of the object: the 36 bytes of the two members. *)
#[local] Instance COutPoint_serializable : Serializable COutPoint := {|
  sizeof := sizeof_COutPoint;
  GetSerializeSize _ := 36;
  Serialize a := memory p (hash a) ++ WRITEDATA p 4 (n a);
  Unserialize :=
    do b <- read 36;
    ret (OutPoint (of_memory 8 p (slice b 0 32)) (native_load p 4 (slice b 32 4)))
|}.

(** [nSerSize] is an [unsigned int]. *)
Definition add_size (a b : Z) : Z := trunc 32 (a + b).

#[local] Instance CTxIn_serializable : Serializable CTxIn := {|
  sizeof := sizeof_CTxIn;
  GetSerializeSize a :=
    add_size (add_size (GetSerializeSize (prevout a)) (GetSerializeSize_bytes (scriptSig a))) 4;
  Serialize a := Serialize (prevout a) ++ Serialize_bytes p (scriptSig a) ++ WRITEDATA p 4 (nSequence a);
  Unserialize :=
    do prevout <- Unserialize; do scriptSig <- Unserialize_bytes p; do nSequence <- READDATA p 4;
    ret (TxIn prevout scriptSig [] nSequence)
|}.

#[local] Instance CTxOut_serializable : Serializable CTxOut := {|
  sizeof := sizeof_CTxOut;
  GetSerializeSize a := add_size 8 (GetSerializeSize_bytes (scriptPubKey a));
  Serialize a := WRITEDATA p 8 (nValue a) ++ Serialize_bytes p (scriptPubKey a);
  Unserialize :=
    do nValue <- READDATA_signed p 8; do scriptPubKey <- Unserialize_bytes p;
    ret (TxOut nValue scriptPubKey)
|}.

#[local] Instance CTransaction_serializable : Serializable CTransaction := {|
  sizeof := sizeof_CTransaction;
  GetSerializeSize a :=
    add_size (add_size (add_size (4 + 4) (GetSerializeSize_vector (vin a)))
      (GetSerializeSize_vector (vout a))) 4;
  Serialize a :=
    WRITEDATA p 4 (nVersion a) ++ WRITEDATA p 4 (nTime a) ++ Serialize_vector p (vin a) ++
    Serialize_vector p (vout a) ++ WRITEDATA p 4 (nLockTime a);
  Unserialize :=
    do nVersion <- READDATA_signed p 4; do nTime <- READDATA p 4; do vin <- Unserialize_vector p;
    do vout <- Unserialize_vector p; do nLockTime <- READDATA p 4;
    ret (Transaction nVersion nTime vin vout nLockTime)
|}.

(** The header, and the rest of the block unless [nType] asks for the header only. *)
Definition header_only (nType : Z) : bool :=
  negb (nType .& (SER_GETHASH .| SER_BLOCKHEADERONLY) =? 0).

Definition Serialize_header (a : CBlock) : list Z :=
  WRITEDATA p 4 (b_nVersion a) ++ memory p (hashPrevBlock a) ++ memory p (hashMerkleRoot a) ++
  WRITEDATA p 4 (b_nTime a) ++ WRITEDATA p 4 (nBits a) ++ WRITEDATA p 4 (nNonce a).

#[local] Instance CBlock_serializable (nType : Z) : Serializable CBlock := {|
  sizeof := sizeof_CBlock;
  GetSerializeSize a :=
    if header_only nType then 80
    else add_size (add_size 80 (GetSerializeSize_vector (vtx a))) (GetSerializeSize_bytes (vchBlockSig a));
  Serialize a :=
    Serialize_header a ++
    (if header_only nType then [] else Serialize_vector p (vtx a) ++ Serialize_bytes p (vchBlockSig a));
  Unserialize :=
    do nVersion <- READDATA_signed p 4; do hashPrevBlock <- read_uint p 8;
    do hashMerkleRoot <- read_uint p 8; do nTime <- READDATA p 4; do nBits <- READDATA p 4;
    do nNonce <- READDATA p 4;
    if header_only nType then
      ret (Block nVersion hashPrevBlock hashMerkleRoot nTime nBits nNonce [] [])
    else
      do vtx <- Unserialize_vector p; do vchBlockSig <- Unserialize_bytes p;
      ret (Block nVersion hashPrevBlock hashMerkleRoot nTime nBits nNonce vtx vchBlockSig)
|}.

(** ** Hashes (util.h) *)

(** [SHA256 (d, n, md)] of OpenSSL; the incremental interface gives the digest of what was
    written. *)
  Variable SHA256 : list Z -> list Z.

Definition Hash (b : list Z) : list Z := of_memory 8 p (SHA256 (SHA256 b)).
Definition Hash2 (b1 b2 : list Z) : list Z := of_memory 8 p (SHA256 (SHA256 (b1 ++ b2))).
Definition SerializeHash {T} `{Serializable T} (obj : T) : list Z := Hash (Serialize obj).
Definition CTxOut_GetHash (a : CTxOut) : list Z := SerializeHash a.
Definition CTransaction_GetHash (a : CTransaction) : list Z := SerializeHash a.
End Serialization.

(** ** Outpoints, inputs, outputs *)

Definition max_unsigned : Z := 0xFFFFFFFF.

Definition COutPoint_IsNull (a : COutPoint) : bool :=
  op_equal64 8 (hash a) 0 && (n a =? max_unsigned).
Definition COutPoint_less (a b : COutPoint) : bool :=
  op_less 8 (hash a) (hash b) || (op_equal 8 (hash a) (hash b) && (n a <? n b)).
Definition COutPoint_equal (a b : COutPoint) : bool :=
  op_equal 8 (hash a) (hash b) && (n a =? n b).

Definition OP_RETURN : Z := 0x6a.
Definition OP_ANON_MARKER : Z := 0xb9.
Definition MIN_ANON_OUT_SIZE : Z := 1 + 1 + 1 + 33 + 1 + 33.
Definition ANON_TXN_VERSION : Z := 1000.

Definition script_size (s : list Z) : Z := Z.of_nat (length s).
Definition script_at (s : list Z) (i : nat) : Z := nth i s 0.

Definition CTxIn_IsFinal (a : CTxIn) : bool := nSequence a =? max_unsigned.
Definition IsAnonInput (a : CTxIn) : bool :=
  (2 + (33 + 32 + 32) <=? script_size (scriptSig a)) &&
  (script_at (scriptSig a) 0 =? OP_RETURN) && (script_at (scriptSig a) 1 =? OP_ANON_MARKER).
Definition ExtractRingSize (a : CTxIn) : Z := (n (prevout a) >> 16) .& 0xFFFF.

Definition CTxOut_IsEmpty (a : CTxOut) : bool :=
  (nValue a =? 0) && match scriptPubKey a with [] => true | _ => false end.
Definition IsAnonOutput (a : CTxOut) : bool :=
  (MIN_ANON_OUT_SIZE <=? script_size (scriptPubKey a)) &&
  (script_at (scriptPubKey a) 0 =? OP_RETURN) && (script_at (scriptPubKey a) 1 =? OP_ANON_MARKER).
Definition IsUnspendable (a : CTxOut) : bool :=
  CTxOut_IsEmpty a ||
  ((0 <? script_size (scriptPubKey a)) && (script_at (scriptPubKey a) 0 =? OP_RETURN)).

(** ** Transactions *)

Definition IsCoinBase (tx : CTransaction) : bool :=
  match vin tx with
  | [i] => COutPoint_IsNull (prevout i) && (1 <=? Z.of_nat (length (vout tx)))
  | _ => false
  end.

Definition IsCoinStake (tx : CTransaction) : bool :=
  match vin tx with
  | i :: _ =>
      negb (COutPoint_IsNull (prevout i)) && (2 <=? Z.of_nat (length (vout tx))) &&
      match vout tx with o :: _ => CTxOut_IsEmpty o | [] => false end
  | [] => false
  end.

Definition LOCKTIME_THRESHOLD : Z := 500000000.

(** [nBestHeight] and [GetAdjustedTime()] are what the defaults 0 stand for. *)
Definition CTransaction_IsFinal (nBestHeight AdjustedTime : Z) (tx : CTransaction)
    (nBlockHeight nBlockTime : Z) : bool :=
  if nLockTime tx =? 0 then true
  else
    let nBlockHeight := if nBlockHeight =? 0 then nBestHeight else nBlockHeight in
    let nBlockTime := if nBlockTime =? 0 then AdjustedTime else nBlockTime in
    if nLockTime tx <? (if nLockTime tx <? LOCKTIME_THRESHOLD then nBlockHeight else nBlockTime)
    then true
    else forallb CTxIn_IsFinal (vin tx).

(** The loop of [IsNewerThan] on the sequence numbers: [fNewer] and [nLowest]. *)
Fixpoint newer_loop (ins olds : list CTxIn) (fNewer : bool) (nLowest : Z) : bool :=
  match ins, olds with
  | i :: ins, o :: olds =>
      if negb (nSequence i =? nSequence o) then
        let '(fNewer, nLowest) :=
          if nSequence i <=? nLowest then (false, nSequence i) else (fNewer, nLowest) in
        let '(fNewer, nLowest) :=
          if nSequence o <? nLowest then (true, nSequence o) else (fNewer, nLowest) in
        newer_loop ins olds fNewer nLowest
      else newer_loop ins olds fNewer nLowest
  | _, _ => fNewer
  end.
Definition IsNewerThan (tx old : CTransaction) : bool :=
  if negb (length (vin tx) =? length (vin old))%nat then false
  else if existsb (fun io => negb (COutPoint_equal (prevout (fst io)) (prevout (snd io))))
            (combine (vin tx) (vin old)) then false
  else newer_loop (vin tx) (vin old) false max_unsigned.

(** ** Amounts *)

Definition COIN : Z := 100000000.
Definition MAX_MONEY : Z := 10000000 * COIN.
Definition MoneyRange (v : Z) : bool := (0 <=? v) && (v <=? MAX_MONEY).

(** Addition of two [int64_t], which is undefined when it overflows. *)
Definition add_int64 (a b : Z) : option Z :=
  let s := a + b in if (- 2 ^ 63 <=? s) && (s <? 2 ^ 63) then Some s else None.

(** What a function that throws [std::runtime_error] does. *)
Inductive outcome (A : Type) :=
| Returns (a : A)
| Throws
| Overflows.
Arguments Returns {A}.
Arguments Throws {A}.
Arguments Overflows {A}.

Fixpoint value_out_loop (vout : list CTxOut) (nValueOut : Z) : outcome Z :=
  match vout with
  | [] => Returns nValueOut
  | txout :: vout =>
      match add_int64 nValueOut (nValue txout) with
      | None => Overflows
      | Some nValueOut =>
          if negb (MoneyRange (nValue txout)) || negb (MoneyRange nValueOut) then Throws
          else value_out_loop vout nValueOut
      end
  end.
Definition GetValueOut (tx : CTransaction) : outcome Z := value_out_loop (vout tx) 0.

(** ** CPubKey (key.h), as far as [CheckTransaction] uses it *)

Definition GetLen (chHeader : Z) : nat :=
  if (chHeader =? 2) || (chHeader =? 3) then 33%nat
  else if (chHeader =? 4) || (chHeader =? 6) || (chHeader =? 7) then 65%nat
  else 0%nat.

(** [memcmp (a, b, n) < 0] *)
Fixpoint memcmp_less (k : nat) (a b : list Z) : bool :=
  match k, a, b with
  | S k, x :: a, y :: b => if x <? y then true else if y <? x then false else memcmp_less k a b
  | _, _, _ => false
  end.

(** [CPubKey (p, 33)]: the other 32 bytes of the array stay as they were. *)
Definition CPubKey33 (bytes33 uninitialised : list Z) : list Z := bytes33 ++ uninitialised.
Definition pubkey_size (vch : list Z) : nat := GetLen (nth 0 vch 0).
Definition CPubKey_less (a b : list Z) : bool :=
  (nth 0 a 0 <? nth 0 b 0) || ((nth 0 a 0 =? nth 0 b 0) && memcmp_less (pubkey_size a) a b).

(** ** CheckTransaction (main.cpp)

    The result, and what [DoS] adds to [nDoS]. *)

Definition MAX_BLOCK_SIZE : Z := 1000000.

(** [std::set::count], by the order of the set. *)
Definition set_count {A} (less : A -> A -> bool) (a : A) (s : list A) : bool :=
  existsb (fun b => negb (less a b) && negb (less b a)) s.

Fixpoint check_outputs (empty_allowed : bool) (vout : list CTxOut) (nValueOut : Z) :
    outcome (option Z) :=
  match vout with
  | [] => Returns None
  | txout :: vout =>
      if CTxOut_IsEmpty txout && negb empty_allowed then Returns (Some 100)
      else if nValue txout <? 0 then Returns (Some 100)
      else if MAX_MONEY <? nValue txout then Returns (Some 100)
      else
        match add_int64 nValueOut (nValue txout) with
        | None => Overflows
        | Some nValueOut =>
            if negb (MoneyRange nValueOut) then Returns (Some 100)
            else check_outputs empty_allowed vout nValueOut
        end
  end.

(** [opTest.n &= 0xFF] for the inputs of a ring signature. *)
Definition input_key (anon : bool) (txin : CTxIn) : COutPoint :=
  if anon && IsAnonInput txin
  then OutPoint (hash (prevout txin)) (n (prevout txin) .& 0xFF)
  else prevout txin.

Fixpoint check_inputs (anon : bool) (vin : list CTxIn) (vInOutPoints : list COutPoint) : bool :=
  match vin with
  | [] => true
  | txin :: vin =>
      let key := input_key anon txin in
      if set_count COutPoint_less key vInOutPoints then false
      else check_inputs anon vin (key :: vInOutPoints)
  end.

(** [uninitialised i]: the rest of the key object built for the output of rank [i]. *)
Fixpoint check_anon_outputs (uninitialised : nat -> list Z) (i : nat) (vout : list CTxOut)
    (vAnonOutPubkeys : list (list Z)) : bool :=
  match vout with
  | [] => true
  | txout :: vout =>
      if negb (IsAnonOutput txout) then check_anon_outputs uninitialised (S i) vout vAnonOutPubkeys
      else
        let pkTest := CPubKey33 (slice (scriptPubKey txout) 3 33) (uninitialised i) in
        if set_count CPubKey_less pkTest vAnonOutPubkeys then false
        else check_anon_outputs uninitialised (S i) vout (pkTest :: vAnonOutPubkeys)
  end.

Section Check.
  Context {tx_serializable : Serializable CTransaction}.

Definition CheckTransaction (uninitialised : nat -> list Z) (tx : CTransaction) : outcome (bool * Z) :=
  match vin tx, vout tx with
  | [], _ => Returns (false, 10)
  | _, [] => Returns (false, 10)
  | txin0 :: _, _ =>
      if MAX_BLOCK_SIZE <? GetSerializeSize tx then Returns (false, 100)
      else
        match check_outputs (IsCoinBase tx || IsCoinStake tx) (vout tx) 0 with
        | Throws => Throws
        | Overflows => Overflows
        | Returns (Some nDoS) => Returns (false, nDoS)
        | Returns None =>
            let anon := nVersion tx =? ANON_TXN_VERSION in
            if negb (check_inputs anon (vin tx) []) then Returns (false, 0)
            else if anon && negb (check_anon_outputs uninitialised 0 (vout tx) []) then Returns (false, 0)
            else if IsCoinBase tx then
              if (script_size (scriptSig txin0) <? 2) || (100 <? script_size (scriptSig txin0))
              then Returns (false, 100)
              else Returns (true, 0)
            else if existsb (fun txin => COutPoint_IsNull (prevout txin)) (vin tx)
            then Returns (false, 10)
            else Returns (true, 0)
        end
  end.
End Check.

(** ** GetMinFee (main.cpp) *)

Inductive GetMinFee_mode := GMF_BLOCK | GMF_RELAY | GMF_SEND | GMF_ANON.
Definition CENT : Z := 1000000.
Definition MIN_TX_FEE : Z := 1000.
Definition MIN_TX_FEE_ANON : Z := 10000.
Definition MIN_RELAY_TX_FEE : Z := MIN_TX_FEE.
Definition MAX_BLOCK_SIZE_GEN : Z := MAX_BLOCK_SIZE / 2.

(** [nBlockSize] and [nBytes] are [unsigned int]. *)
Definition GetMinFee (tx : CTransaction) (nBlockSize : Z) (mode : GetMinFee_mode) (nBytes : Z) : Z :=
  let mode := if nVersion tx =? ANON_TXN_VERSION then GMF_ANON else mode in
  let nBaseFee := match mode with
                  | GMF_RELAY => MIN_RELAY_TX_FEE | GMF_ANON => MIN_TX_FEE_ANON | _ => MIN_TX_FEE end in
  let nNewBlockSize := trunc 32 (nBlockSize + nBytes) in
  let nMinFee := (1 + nBytes / 1000) * nBaseFee in
  let nMinFee :=
    if nMinFee <? nBaseFee then
      fold_left (fun f txout => if nValue txout <? CENT then nBaseFee else f) (vout tx) nMinFee
    else nMinFee in
  let not_anon := match mode with GMF_ANON => false | _ => true end in
  if not_anon && negb (nBlockSize =? 1) && (MAX_BLOCK_SIZE_GEN / 2 <=? nNewBlockSize) then
    if MAX_BLOCK_SIZE_GEN <=? nNewBlockSize then MAX_MONEY
    else
      let nMinFee := nMinFee * (MAX_BLOCK_SIZE_GEN / (MAX_BLOCK_SIZE_GEN - nNewBlockSize)) in
      if negb (MoneyRange nMinFee) then MAX_MONEY else nMinFee
  else if negb (MoneyRange nMinFee) then MAX_MONEY else nMinFee.
