(* ===== verification/TransactionProof.v ===== *)
(** * Reading and writing transactions and blocks

    The contract of [SerializeProof.codec] and the sizes, for every class of
    [Transaction]. *)

From Stdlib Require Import ZArith List Lia Bool.
From S2P Require Import Prelude SphTypes Uint256 Uint256Proof Uint256Hex Serialize SerializeProof Transaction.
Import ListNotations.

(** ** Well-formed objects *)

Definition script_ok (s : list Z) : Prop := Z.of_nat (length s) <= MAX_SIZE /\ bytes s.
Definition outpoint_ok (a : COutPoint) : Prop := words_ok 8 (hash a) /\ word 32 (n a).
(** [prevPubKey] is not written. *)
Definition txin_ok (a : CTxIn) : Prop :=
  outpoint_ok (prevout a) /\ script_ok (scriptSig a) /\ prevPubKey a = [] /\ word 32 (nSequence a).
Definition txout_ok (a : CTxOut) : Prop := signed_range 8 (nValue a) /\ script_ok (scriptPubKey a).
Definition vector_ok {T} (ok : T -> Prop) (v : list T) : Prop :=
  Z.of_nat (length v) <= MAX_SIZE /\ Forall ok v.
Definition tx_ok (a : CTransaction) : Prop :=
  signed_range 4 (nVersion a) /\ word 32 (nTime a) /\ vector_ok txin_ok (vin a) /\
  vector_ok txout_ok (vout a) /\ word 32 (nLockTime a).
Definition header_ok (a : CBlock) : Prop :=
  signed_range 4 (b_nVersion a) /\ words_ok 8 (hashPrevBlock a) /\ words_ok 8 (hashMerkleRoot a) /\
  word 32 (b_nTime a) /\ word 32 (nBits a) /\ word 32 (nNonce a).
Definition block_ok (nType : Z) (a : CBlock) : Prop :=
  header_ok a /\
  if header_only nType then vtx a = [] /\ vchBlockSig a = []
  else vector_ok tx_ok (vtx a) /\ script_ok (vchBlockSig a).

(** One member after the other: [C] is the contract of the member, [g] reads it. *)
Ltac codec_member C g :=
  cbv beta;
  match goal with |- codec ?U ?S ?V =>
    eapply (codec_ext U U _ S V V);
    [eapply (codec_seq _ _ _ _ _ V g C)|reflexivity|reflexivity|]
  end.

Ltac codec_last :=
  codec_as; [apply ret_codec|reflexivity| |reflexivity].

Section Codecs.
  Variable p : platform.
  Variables s_out s_in s_txout s_tx s_block : Z.
  Hypothesis Hs_in : 0 < s_in <= 5000000.
  Hypothesis Hs_txout : 0 < s_txout <= 5000000.
  Hypothesis Hs_tx : 0 < s_tx <= 5000000.

#[local] Instance out_ser : Serializable COutPoint := COutPoint_serializable p s_out.
#[local] Instance in_ser : Serializable CTxIn := CTxIn_serializable p s_out s_in.
#[local] Instance txout_ser : Serializable CTxOut := CTxOut_serializable p s_txout.
#[local] Instance tx_ser : Serializable CTransaction := CTransaction_serializable p s_out s_in s_txout s_tx.

Lemma outpoint_codec : codec (T := COutPoint) Unserialize Serialize outpoint_ok.
Proof.
  cbn [Unserialize Serialize out_ser COutPoint_serializable].
  apply (codec_map (read 36) (fun b => b) (fun b => length b = 36%nat /\ bytes b)
    (fun b => OutPoint (of_memory 8 p (slice b 0 32)) (native_load p 4 (slice b 32 4)))
    (fun a => memory p (hash a) ++ WRITEDATA p 4 (n a))).
  - apply (read_codec 36). lia.
  - intros [h k] [Hh Hk]. cbn [hash n] in *.
    pose proof (memory_length 8 p h (proj1 Hh)) as L. split.
    + split; [rewrite length_app, length_WRITEDATA; lia|].
      apply Forall_app. split; [apply memory_bytes|apply bytes_native_store].
    + assert (E1 : slice (memory p h ++ WRITEDATA p 4 k) 0 32 = memory p h)
        by (unfold slice; cbn [skipn]; now rewrite firstn_app, L, Nat.sub_diag, firstn_O, app_nil_r, firstn_all2 by lia).
      assert (E2 : slice (memory p h ++ WRITEDATA p 4 k) 32 4 = WRITEDATA p 4 k).
      { unfold slice. rewrite skipn_app, skipn_all2, L by lia. cbn [skipn Nat.sub app].
        apply firstn_all2. rewrite length_WRITEDATA. lia. }
      rewrite E1, E2. f_equal; [now apply of_memory_memory|].
      rewrite <- (app_nil_r (WRITEDATA p 4 k)). now apply native_load_store.
  - intros b [L B]. cbn [hash n].
    assert (L1 : length (slice b 0 32) = 32%nat) by (apply length_slice; lia).
    assert (L2 : length (slice b 32 4) = 4%nat) by (apply length_slice; lia).
    split; [split|].
    + apply of_memory_ok; [lia|now apply Forall_slice].
    + apply (native_load_word p 4). now apply Forall_slice.
    + rewrite memory_of_memory by (lia || now apply Forall_slice). unfold WRITEDATA.
      rewrite native_store_load by (lia || now apply Forall_slice).
      unfold slice. cbn [skipn]. rewrite <- (firstn_skipn 32 b) at 3. f_equal. apply firstn_all2.
      rewrite length_skipn. lia.
Qed.

Lemma script_codec : codec (Unserialize_bytes p) (Serialize_bytes p) script_ok.
Proof. apply Unserialize_bytes_codec. Qed.

Lemma txin_codec : codec (T := CTxIn) Unserialize Serialize txin_ok.
Proof.
  cbn [Unserialize Serialize in_ser CTxIn_serializable].
  codec_member outpoint_codec prevout; [intros v Hv; apply Hv|intros a1 H1|reflexivity].
  codec_member script_codec scriptSig; [intros v Hv; apply Hv|intros a2 H2|reflexivity].
  codec_member (READDATA_codec p 4 ltac:(lia)) nSequence; [intros v Hv; apply Hv|intros a3 H3|].
  - codec_last. intros [v1 v2 v3 v4]. unfold txin_ok. cbn. split.
    + intros [= -> -> -> ->]. auto 10.
    + intros [[[(_ & _ & -> & _) <-] <-] <-]. reflexivity.
  - intros v _. cbv beta. rewrite app_nil_r. reflexivity.
Qed.

Lemma txout_codec : codec (T := CTxOut) Unserialize Serialize txout_ok.
Proof.
  cbn [Unserialize Serialize txout_ser CTxOut_serializable].
  codec_member (READDATA_signed_codec p 8 ltac:(lia)) nValue; [intros v Hv; apply Hv|intros a1 H1|reflexivity].
  codec_member script_codec scriptPubKey; [intros v Hv; apply Hv|intros a2 H2|].
  - codec_last. intros [v1 v2]. unfold txout_ok. cbn. split.
    + intros [= -> ->]. auto.
    + intros [[_ <-] <-]. reflexivity.
  - intros v _. cbv beta. rewrite app_nil_r. reflexivity.
Qed.

Lemma add_size_ok a b x y :
  a = trunc 32 x -> b = trunc 32 y -> add_size a b = trunc 32 (x + y).
Proof. intros -> ->. unfold add_size. rewrite !trunc_mod by lia. symmetry. apply Zplus_mod. Qed.

Lemma Serialize_bytes_size' v : GetSerializeSize_bytes v = trunc 32 (Z.of_nat (length (Serialize_bytes p v))).
Proof. apply Serialize_bytes_size. Qed.

Lemma outpoint_size v : outpoint_ok v -> Z.of_nat (length (Serialize v)) = 36.
Proof.
  intros [H _]. cbn [Serialize out_ser COutPoint_serializable].
  rewrite length_app, length_WRITEDATA, (memory_length 8) by apply H. reflexivity.
Qed.

Lemma txin_size v : txin_ok v -> GetSerializeSize v = trunc 32 (Z.of_nat (length (Serialize v))).
Proof.
  intros (H & _). cbn [GetSerializeSize Serialize in_ser CTxIn_serializable].
  rewrite !length_app, length_WRITEDATA, !Nat2Z.inj_add, outpoint_size by assumption.
  rewrite Z.add_assoc. apply add_size_ok; [|reflexivity].
  apply add_size_ok; [reflexivity|apply Serialize_bytes_size].
Qed.

Lemma txout_size v : GetSerializeSize v = trunc 32 (Z.of_nat (length (Serialize (T := CTxOut) v))).
Proof.
  cbn [GetSerializeSize Serialize txout_ser CTxOut_serializable].
  rewrite length_app, length_WRITEDATA, Nat2Z.inj_add.
  apply add_size_ok; [reflexivity|apply Serialize_bytes_size].
Qed.

#[local] Instance txin_laws : SerializableLaws CTxIn := {|
  valid := txin_ok; serial_codec := txin_codec; serial_size := txin_size; serial_sizeof := Hs_in |}.
#[local] Instance txout_laws : SerializableLaws CTxOut := {|
  valid := txout_ok; serial_codec := txout_codec; serial_size v _ := txout_size v;
  serial_sizeof := Hs_txout |}.

Lemma tx_codec : codec (T := CTransaction) Unserialize Serialize tx_ok.
Proof.
  cbn [Unserialize Serialize tx_ser CTransaction_serializable].
  codec_member (READDATA_signed_codec p 4 ltac:(lia)) nVersion; [intros v Hv; apply Hv|intros a1 H1|reflexivity].
  codec_member (READDATA_codec p 4 ltac:(lia)) nTime; [intros v Hv; apply Hv|intros a2 H2|reflexivity].
  codec_member (@Unserialize_vector_codec p _ _ txin_laws) vin; [intros v Hv; apply Hv|intros a3 H3|reflexivity].
  codec_member (@Unserialize_vector_codec p _ _ txout_laws) vout; [intros v Hv; apply Hv|intros a4 H4|reflexivity].
  codec_member (READDATA_codec p 4 ltac:(lia)) nLockTime; [intros v Hv; apply Hv|intros a5 H5|].
  - codec_last. intros [v1 v2 v3 v4 v5]. unfold tx_ok. cbn. split.
    + intros [= -> -> -> -> ->]. splits; try assumption; auto.
    + intros [[[[[_ <-] <-] <-] <-] <-]. reflexivity.
  - intros v _. cbv beta. rewrite app_nil_r. reflexivity.
Qed.

(** [nSerSize] also adds sizes of vectors that are already the sum of wrapped sizes. *)
Lemma add_size_trunc a b x y :
  trunc 32 a = trunc 32 x -> trunc 32 b = trunc 32 y -> add_size a b = trunc 32 (x + y).
Proof.
  unfold add_size. rewrite !trunc_mod by lia. intros E1 E2.
  now rewrite Zplus_mod, E1, E2, <- Zplus_mod.
Qed.

Lemma trunc32_trunc x : trunc 32 (trunc 32 x) = trunc 32 x.
Proof. apply trunc_id; [lia|now apply trunc_word]. Qed.

Lemma tx_size v : tx_ok v -> GetSerializeSize v = trunc 32 (Z.of_nat (length (Serialize v))).
Proof.
  intros (_ & _ & [_ Hi] & [_ Ho] & _). cbn [GetSerializeSize Serialize tx_ser CTransaction_serializable].
  rewrite !length_app, !length_WRITEDATA, !Nat2Z.inj_add, !Z.add_assoc.
  apply add_size_trunc; [|reflexivity].
  rewrite (add_size_trunc _ _ (Z.of_nat 4 + Z.of_nat 4 + Z.of_nat (length (Serialize_vector p (vin v))))
    (Z.of_nat (length (Serialize_vector p (vout v))))); [apply trunc32_trunc| |].
  - rewrite (add_size_trunc _ _ (Z.of_nat 4 + Z.of_nat 4) (Z.of_nat (length (Serialize_vector p (vin v)))));
      [apply trunc32_trunc|reflexivity|now apply (@Serialize_vector_size p _ _ txin_laws)].
  - now apply (@Serialize_vector_size p _ _ txout_laws).
Qed.

#[local] Instance tx_laws : SerializableLaws CTransaction := {|
  valid := tx_ok; serial_codec := tx_codec; serial_size := tx_size; serial_sizeof := Hs_tx |}.

(** ** Blocks *)

Section Block.
  Variable nType : Z.
#[local] Instance block_ser : Serializable CBlock :=
    CBlock_serializable p s_out s_in s_txout s_tx s_block nType.

Lemma block_codec : codec (T := CBlock) Unserialize Serialize (block_ok nType).
Proof.
  cbn [Unserialize Serialize block_ser CBlock_serializable].
  eapply (codec_ext _ _ (fun a => WRITEDATA p 4 (b_nVersion a) ++ memory p (hashPrevBlock a) ++
    memory p (hashMerkleRoot a) ++ WRITEDATA p 4 (b_nTime a) ++ WRITEDATA p 4 (nBits a) ++
    WRITEDATA p 4 (nNonce a) ++
    (if header_only nType then [] else Serialize_vector p (vtx a) ++ Serialize_bytes p (vchBlockSig a))));
    [|reflexivity|reflexivity|intros v _; unfold Serialize_header; now rewrite <- !app_assoc].
  codec_member (READDATA_signed_codec p 4 ltac:(lia)) b_nVersion; [intros v Hv; apply Hv|intros a1 H1|reflexivity].
  codec_member (read_uint_codec p 8 ltac:(lia)) hashPrevBlock; [intros v Hv; apply Hv|intros a2 H2|reflexivity].
  codec_member (read_uint_codec p 8 ltac:(lia)) hashMerkleRoot; [intros v Hv; apply Hv|intros a3 H3|reflexivity].
  codec_member (READDATA_codec p 4 ltac:(lia)) b_nTime; [intros v Hv; apply Hv|intros a4 H4|reflexivity].
  codec_member (READDATA_codec p 4 ltac:(lia)) nBits; [intros v Hv; apply Hv|intros a5 H5|reflexivity].
  codec_member (READDATA_codec p 4 ltac:(lia)) nNonce; [intros v Hv; apply Hv|intros a6 H6|reflexivity].
  unfold block_ok, header_ok. destruct (header_only nType).
  - codec_last. intros [v1 v2 v3 v4 v5 v6 v7 v8]. cbn. split.
    + intros [= -> -> -> -> -> -> -> ->]. splits; try assumption; auto.
    + intros [[[[[[[_ [-> ->]] <-] <-] <-] <-] <-] <-]. reflexivity.
  - codec_member (@Unserialize_vector_codec p _ _ tx_laws) vtx;
      [intros v Hv; apply Hv|intros a7 H7|reflexivity].
    codec_member script_codec vchBlockSig; [intros v Hv; apply Hv|intros a8 H8|].
    + codec_last. intros [v1 v2 v3 v4 v5 v6 v7 v8]. cbn. split.
      * intros [= -> -> -> -> -> -> -> ->]. splits; try assumption; auto.
      * intros [[[[[[[[_ <-] <-] <-] <-] <-] <-] <-] <-]. reflexivity.
    + intros v _. cbv beta. rewrite app_nil_r. reflexivity.
Qed.

Lemma header_size v : header_ok v -> length (Serialize_header p v) = 80%nat.
Proof.
  intros (_ & H1 & H2 & _). unfold Serialize_header.
  rewrite !length_app, !length_WRITEDATA, !(memory_length 8) by (apply H1 || apply H2). reflexivity.
Qed.

Lemma block_size v : block_ok nType v -> GetSerializeSize v = trunc 32 (Z.of_nat (length (Serialize v))).
Proof.
  intros [Hh H]. cbn [GetSerializeSize Serialize block_ser CBlock_serializable].
  destruct (header_only nType).
  - rewrite app_nil_r, header_size by assumption. reflexivity.
  - rewrite !length_app, !Nat2Z.inj_add, header_size, Z.add_assoc by assumption.
    apply add_size_trunc; [|rewrite (Serialize_bytes_size p); apply trunc32_trunc].
    rewrite (add_size_trunc _ _ (Z.of_nat 80) (Z.of_nat (length (Serialize_vector p (vtx v)))));
      [apply trunc32_trunc|reflexivity|].
    apply (@Serialize_vector_size p _ _ tx_laws). apply H.
Qed.
End Block.
End Codecs.

(** ** What CheckTransaction guarantees

    The context-free checks of a transaction, against the properties they are
    meant to establish. *)

(** ** The order of outpoints *)

Lemma outpoint_equivalent a b :
  outpoint_ok a -> outpoint_ok b ->
  negb (COutPoint_less a b) && negb (COutPoint_less b a) = true <-> a = b.
Proof.
  intros [Ha Na] [Hb Nb]. unfold COutPoint_less.
  destruct (comparisons_ok 8 ltac:(lia) _ _ Ha Hb) as (E1 & _).
  destruct (comparisons_ok 8 ltac:(lia) _ _ Hb Ha) as (E2 & _).
  rewrite E1, E2, !(op_equal_ok 8 ltac:(lia)) by assumption.
  rewrite andb_true_iff, !negb_true_iff, !orb_false_iff, !andb_false_iff, !Z.ltb_ge, !Z.eqb_neq.
  split.
  - intros [[L1 D1] [L2 D2]]. assert (V : val (hash a) = val (hash b)) by lia.
    destruct D1 as [|D1], D2 as [|D2]; try congruence.
    destruct a as [h k], b as [h' k']. cbn in *. f_equal; [now apply (val_inj 8)|lia].
  - intros ->. split; (split; [lia|right; apply Z.le_refl]).
Qed.

Lemma set_count_outpoint k s :
  outpoint_ok k -> Forall outpoint_ok s -> set_count COutPoint_less k s = true <-> In k s.
Proof.
  intros Hk Hs. unfold set_count. rewrite existsb_exists. rewrite Forall_forall in Hs. split.
  - intros (x & Hx & E). apply outpoint_equivalent in E; [now subst|assumption|now apply Hs].
  - intros Hi. exists k. split; [assumption|]. now apply outpoint_equivalent.
Qed.

Lemma input_key_ok anon i : outpoint_ok (prevout i) -> outpoint_ok (input_key anon i).
Proof.
  intros [H1 H2]. unfold input_key. destruct (anon && IsAnonInput i); [|now split].
  split; [assumption|]. cbn. now apply land_word.
Qed.

(** ** The inputs *)

Lemma check_inputs_ok anon vin s :
  Forall (fun i => outpoint_ok (prevout i)) vin -> Forall outpoint_ok s -> NoDup s ->
  check_inputs anon vin s = true <-> NoDup (map (input_key anon) vin ++ s).
Proof.
  intros Hv. revert s. induction Hv as [|i vin Hi Hv IH]; intros s Hs Ns; cbn [check_inputs map app];
    [tauto|].
  pose proof (input_key_ok anon i Hi) as Hk. cbv zeta.
  pose proof (set_count_outpoint _ s Hk Hs) as C.
  destruct (set_count COutPoint_less (input_key anon i) s).
  - split; [discriminate|]. rewrite NoDup_cons_iff, in_app_iff. tauto.
  - rewrite IH.
    + pose proof (NoDup_Add (Add_app (input_key anon i) (map (input_key anon) vin) s)) as A.
      rewrite A, NoDup_cons_iff. tauto.
    + now constructor.
    + constructor; [|assumption]. rewrite <- C. discriminate.
Qed.

(** ** The outputs *)

Definition total (l : list CTxOut) : Z := fold_right (fun o t => nValue o + t) 0 l.

Definition output_ok (empty_allowed : bool) (o : CTxOut) : Prop :=
  (CTxOut_IsEmpty o = true -> empty_allowed = true) /\ 0 <= nValue o <= MAX_MONEY.

Lemma MoneyRange_iff v : MoneyRange v = true <-> 0 <= v <= MAX_MONEY.
Proof. unfold MoneyRange. rewrite andb_true_iff, !Z.leb_le. tauto. Qed.

Lemma add_int64_small a b :
  0 <= a <= MAX_MONEY -> 0 <= b <= MAX_MONEY -> add_int64 a b = Some (a + b).
Proof.
  unfold add_int64, MAX_MONEY, COIN. cbv zeta. intros Ha Hb.
  rewrite (proj2 (Z.leb_le _ _)), (proj2 (Z.ltb_lt _ _)) by lia. reflexivity.
Qed.

Lemma total_nonneg e l : Forall (output_ok e) l -> 0 <= total l.
Proof. induction 1 as [|o l [_ Ho] _ IH]; cbn [total fold_right]; [lia|]. unfold total in IH. lia. Qed.

Lemma check_outputs_ok e l t :
  0 <= t <= MAX_MONEY ->
  exists r, check_outputs e l t = Returns r /\ (r = None \/ r = Some 100) /\
    (r = None <-> Forall (output_ok e) l /\ t + total l <= MAX_MONEY).
Proof.
  revert t. induction l as [|o l IH]; intros t Ht; cbn [check_outputs].
  - exists None. split; [reflexivity|]. split; [auto|]. cbn [total fold_right]. split; [split; [apply Forall_nil|lia]|reflexivity].
  - destruct (CTxOut_IsEmpty o && negb e) eqn:E.
    { exists (Some 100). split; [reflexivity|]. split; [auto|]. split; [discriminate|].
      intros [F _]. inversion F as [|? ? [H _] _]; subst. rewrite andb_true_iff in E. destruct E as [E1 E2].
      rewrite H in E2 by assumption. discriminate. }
    destruct (Z.ltb_spec (nValue o) 0).
    { exists (Some 100). split; [reflexivity|]. split; [auto|]. split; [discriminate|].
      intros [F _]. inversion F as [|? ? [_ H'] _]; subst. lia. }
    destruct (Z.ltb_spec MAX_MONEY (nValue o)).
    { exists (Some 100). split; [reflexivity|]. split; [auto|]. split; [discriminate|].
      intros [F _]. inversion F as [|? ? [_ H'] _]; subst. lia. }
    rewrite add_int64_small by lia. destruct (MoneyRange (t + nValue o)) eqn:M; cbn [negb].
    + apply MoneyRange_iff in M. destruct (IH _ M) as (r & E1 & E2 & E3).
      exists r. split; [exact E1|]. split; [exact E2|]. rewrite E3. cbn [total fold_right].
      fold (total l). split.
      * intros [F T]. split; [constructor; [|assumption]|lia]. split; [|lia].
        intros Em. rewrite Em in E. now destruct e.
      * intros [F T]. inversion F; subst. split; [assumption|lia].
    + exists (Some 100). split; [reflexivity|]. split; [auto|]. split; [discriminate|].
      intros [F T]. inversion F; subst. cbn [total fold_right] in T. fold (total l) in T.
      pose proof (total_nonneg e l ltac:(assumption)).
      assert (MoneyRange (t + nValue o) = true) by (apply MoneyRange_iff; lia). congruence.
Qed.

(** What [GetValueOut] computes when the outputs are in range. *)
Lemma value_out_loop_ok e l t :
  0 <= t -> Forall (output_ok e) l -> t + total l <= MAX_MONEY ->
  value_out_loop l t = Returns (t + total l).
Proof.
  intros Ht F. revert t Ht. induction F as [|o l [_ Ho] F IH]; intros t Ht T; cbn [value_out_loop].
  - cbn. f_equal. lia.
  - cbn [total fold_right] in T |- *. fold (total l) in T |- *. pose proof (total_nonneg e l F).
    rewrite add_int64_small by lia.
    rewrite (proj2 (MoneyRange_iff (nValue o))), (proj2 (MoneyRange_iff (t + nValue o))) by lia.
    cbn [negb orb]. rewrite IH by lia. f_equal. lia.
Qed.

(** ** The whole check *)

Section Whole.
  Context {tx_ser : Serializable CTransaction}.
  Variable uninitialised : nat -> list Z.

(** What is accepted: the rules, without the duplicate keys of ring signatures. *)
Definition tx_acceptable (tx : CTransaction) : Prop :=
  vin tx <> [] /\ vout tx <> [] /\ GetSerializeSize tx <= MAX_BLOCK_SIZE /\
  Forall (output_ok (IsCoinBase tx || IsCoinStake tx)) (vout tx) /\ total (vout tx) <= MAX_MONEY /\
  NoDup (map (input_key (nVersion tx =? ANON_TXN_VERSION)) (vin tx)) /\
  (if IsCoinBase tx then exists i l, vin tx = i :: l /\ 2 <= script_size (scriptSig i) <= 100
   else Forall (fun i => COutPoint_IsNull (prevout i) = false) (vin tx)).

Lemma existsb_false {A} (f : A -> bool) l : existsb f l = false <-> Forall (fun x => f x = false) l.
Proof.
  induction l as [|x l IH]; cbn; [split; [constructor|reflexivity]|].
  rewrite orb_false_iff, IH. split; [intros []; now constructor|inversion 1; auto].
Qed.

Lemma CheckTransaction_iff tx :
  Forall (fun i => outpoint_ok (prevout i)) (vin tx) ->
  exists ok nDoS, CheckTransaction uninitialised tx = Returns (ok, nDoS) /\
    (ok = true -> nDoS = 0) /\
    (ok = true <-> tx_acceptable tx /\
       (nVersion tx = ANON_TXN_VERSION -> check_anon_outputs uninitialised 0 (vout tx) [] = true)).
Proof.
  intros Hv. unfold CheckTransaction, tx_acceptable.
  destruct (vin tx) as [|i l] eqn:Ei.
  { exists false, 10. split; [reflexivity|]. split; [discriminate|]. split; [discriminate|tauto]. }
  destruct (vout tx) as [|o lo] eqn:Eo.
  { exists false, 10. split; [reflexivity|]. split; [discriminate|]. split; [discriminate|tauto]. }
  destruct (Z.ltb_spec MAX_BLOCK_SIZE (GetSerializeSize tx)).
  { exists false, 100. split; [reflexivity|]. split; [discriminate|]. split; [discriminate|].
    intros [(_ & _ & S & _) _]. lia. }
  destruct (check_outputs_ok (IsCoinBase tx || IsCoinStake tx) (o :: lo) 0) as (r & -> & Hr & Hi);
    [unfold MAX_MONEY, COIN; lia|].
  destruct r as [d|].
  { exists false, d. split; [reflexivity|]. split; [discriminate|]. split; [discriminate|].
    intros [(_ & _ & _ & F & T & _) _]. assert (Some d = None) by (apply Hi; split; [exact F|lia]). discriminate. }
  destruct (proj1 Hi eq_refl) as [F T].
  pose proof (check_inputs_ok (nVersion tx =? ANON_TXN_VERSION) (i :: l) [] Hv ltac:(apply Forall_nil) ltac:(apply NoDup_nil)) as CI.
  rewrite app_nil_r in CI. cbv zeta.
  destruct (check_inputs _ (i :: l) []); cbn [negb].
  2:{ exists false, 0. split; [reflexivity|]. split; [discriminate|]. split; [discriminate|].
      intros [(_ & _ & _ & _ & _ & D & _) _]. apply CI in D. discriminate. }
  pose proof (proj1 CI eq_refl) as ND.
  assert (A : (nVersion tx =? ANON_TXN_VERSION) && negb (check_anon_outputs uninitialised 0 (o :: lo) []) = false <->
    (nVersion tx = ANON_TXN_VERSION -> check_anon_outputs uninitialised 0 (o :: lo) [] = true)).
  { rewrite andb_false_iff, negb_false_iff, Z.eqb_neq. split; [tauto|].
    intros A. destruct (Z.eq_dec (nVersion tx) ANON_TXN_VERSION); auto. }
  destruct ((nVersion tx =? ANON_TXN_VERSION) && _).
  { exists false, 0. split; [reflexivity|]. split; [discriminate|]. split; [discriminate|].
    intros [_ G]. apply A in G. discriminate. }
  pose proof (proj1 A eq_refl) as G. clear A.
  assert (C : forall ok : Prop, (ok <-> if IsCoinBase tx then exists i0 l0, i :: l = i0 :: l0 /\ 2 <= script_size (scriptSig i0) <= 100
      else Forall (fun i0 => COutPoint_IsNull (prevout i0) = false) (i :: l)) ->
    (ok <-> (i :: l <> [] /\ o :: lo <> [] /\ GetSerializeSize tx <= MAX_BLOCK_SIZE /\
       Forall (output_ok (IsCoinBase tx || IsCoinStake tx)) (o :: lo) /\ total (o :: lo) <= MAX_MONEY /\
       NoDup (map (input_key (nVersion tx =? ANON_TXN_VERSION)) (i :: l)) /\
       (if IsCoinBase tx then exists i0 l0, i :: l = i0 :: l0 /\ 2 <= script_size (scriptSig i0) <= 100
        else Forall (fun i0 => COutPoint_IsNull (prevout i0) = false) (i :: l))) /\
      (nVersion tx = ANON_TXN_VERSION -> check_anon_outputs uninitialised 0 (o :: lo) [] = true))).
  { intros ok ->. split; [intros X; splits; try assumption; (discriminate || lia)|tauto]. }
  destruct (IsCoinBase tx).
  - destruct ((script_size (scriptSig i) <? 2) || (100 <? script_size (scriptSig i))) eqn:E; [exists false, 100|exists true, 0];
      (split; [reflexivity|]; split; [discriminate || reflexivity|]); apply C.
    + split; [discriminate|]. intros (i0 & l0 & [= <- <-] & R). rewrite orb_true_iff, !Z.ltb_lt in E. lia.
    + rewrite orb_false_iff, !Z.ltb_ge in E. split; [intros _; exists i, l; auto|reflexivity].
  - destruct (existsb (fun txin => COutPoint_IsNull (prevout txin)) (i :: l)) eqn:E; [exists false, 10|exists true, 0];
      (split; [reflexivity|]; split; [discriminate || reflexivity|]); apply C.
    + split; [discriminate|]. intros X. apply (existsb_false (fun i0 => COutPoint_IsNull (prevout i0))) in X. congruence.
    + apply existsb_false in E. split; [intros _; exact E|reflexivity].
Qed.
End Whole.
