(* ===== verification/SerializeTheorems.v ===== *)
(** * Theorems on serialize.h

    Compact sizes and variable-length integers: what is read from any stream,
    the errors included, and that what is written is read back. *)

From Stdlib Require Import ZArith List Lia Bool.
From S2P Require Import Prelude SphTypes Uint256 Uint256Proof Uint256Hex Serialize SerializeProof.
Import ListNotations.

(** A result of a reader, with the bytes left instead of the stream. *)
Definition agrees {T} (r : result (T * CDataStream)) (spec : result (T * list Z)) : Prop :=
  match r, spec with
  | Ok (v, s), Ok (w, rest) => v = w /\ stream_ok s /\ remaining s = rest
  | Throw e, Throw e' => e = e'
  | _, _ => False
  end.

(** The decoder of compact sizes on the bytes themselves. *)
Section Spec.
  Variable p : platform.

Definition long_size (n : nat) (least : Z) (b : list Z) : result (Z * list Z) :=
  if (length b <? n)%nat then Throw end_of_data
  else
    let v := native_load p n (firstn n b) in
    if v <? least then Throw non_canonical
    else if MAX_SIZE <? v then Throw size_too_large
    else Ok (v, skipn n b).

Definition compact_size (b : list Z) : result (Z * list Z) :=
  match b with
  | [] => Throw end_of_data
  | c :: b =>
      if c <? 253 then Ok (c, b)
      else if c =? 253 then long_size 2 253 b
      else if c =? 254 then long_size 4 0x10000 b
      else long_size 8 0x100000000 b
  end.

Lemma READDATA_agrees n s :
  (n <= 8)%nat -> stream_ok s ->
  agrees (READDATA p n s)
    (if (length (remaining s) <? n)%nat then Throw end_of_data
     else Ok (native_load p n (firstn n (remaining s)), skipn n (remaining s))).
Proof.
  intros Hn Hs. unfold READDATA, bind, ret. pose proof (read_ok s (Z.of_nat n) Hs ltac:(lia)) as R.
  destruct (Nat.ltb_spec (length (remaining s)) n).
  - rewrite (proj2 (Z.leb_gt _ _)) in R by lia. now rewrite R.
  - rewrite (proj2 (Z.leb_le _ _)) in R by lia. destruct R as (s' & -> & H' & R').
    rewrite Nat2Z.id in *. now split.
Qed.

Lemma read_xSize_agrees n least s :
  (n <= 8)%nat -> stream_ok s ->
  agrees ((do v <- read_xSize p n least; if MAX_SIZE <? v then throw size_too_large else ret v) s)
    (long_size n least (remaining s)).
Proof.
  intros Hn Hs. pose proof (READDATA_agrees n s Hn Hs) as R. unfold read_xSize, long_size, bind.
  destruct (length (remaining s) <? n)%nat, (READDATA p n s) as [[v s']|e|]; cbn in R |- *; try easy.
  destruct R as (-> & H' & R'). destruct (_ <? least); [reflexivity|]. cbn.
  destruct (MAX_SIZE <? _); [reflexivity|]. now split.
Qed.

Lemma head_byte b : word 8 b -> native_load p 1 [b] = b.
Proof.
  intros Hb.
  transitivity (native_load p 1 (native_store p 1 b ++ [])); [|now apply native_load_store].
  rewrite app_nil_r. f_equal. unfold native_store, be_store. cbn [le_store rev app].
  rewrite trunc_id by (lia || assumption). now destruct (order p).
Qed.
End Spec.

(** C34: on any stream, [ReadCompactSize] is the decoder of the bytes that are left: it throws on a
    stream that ends too early, on a size that has a shorter form and on one above [MAX_SIZE], in
    this order, and else leaves the stream after the size; it never reads past the buffer. *)
Theorem ReadCompactSize_errors (p : platform) (s : CDataStream) :
  stream_ok s -> agrees (ReadCompactSize p s) (compact_size p (remaining s)).
Proof.
  intros Hs. pose proof (READDATA_agrees p 1 s ltac:(lia) Hs) as R. pose proof (remaining_bytes s Hs) as B.
  unfold ReadCompactSize. unfold bind at 1.
  destruct (remaining s) as [|c b]; cbn [length Nat.ltb Nat.leb] in R.
  { destruct (READDATA p 1 s) as [[? ?]|e|]; cbn in R |- *; easy. }
  inversion B as [|? ? Hc _]; subst. cbn [firstn skipn] in R. rewrite head_byte in R by assumption.
  destruct (READDATA p 1 s) as [[v s']|e|]; cbn [agrees] in R; try easy. destruct R as (-> & H' & R').
  unfold compact_size. rewrite <- R'. unfold word in Hc. destruct (Z.ltb_spec c 253).
  - unfold bind, ret, throw. rewrite (proj2 (Z.ltb_ge _ _)) by (unfold MAX_SIZE; lia). now split.
  - destruct (c =? 253); [|destruct (c =? 254)]; apply read_xSize_agrees; (lia || assumption).
Qed.

Lemma ReadCompactSize_errors_witness :
  let s b := DataStream b 0 in let p := Platform SPH_LITTLE_ENDIAN true true in
  agrees (ReadCompactSize p (s [0xFD; 0xFC; 0; 7])) (compact_size p (remaining (s [0xFD; 0xFC; 0; 7]))) /\
  ReadCompactSize p (s [0xFD; 0xFC; 0]) = Throw non_canonical /\
  ReadCompactSize p (s [0xFE; 1; 0; 0]) = Throw end_of_data /\
  ReadCompactSize p (s [0xFE; 1; 0; 0; 2]) = Throw size_too_large /\
  ReadCompactSize p (s [0xFD; 0xFD; 0; 7]) = Ok (253, DataStream [0xFD; 0xFD; 0; 7] 3).
Proof.
  intros s p. split; [|repeat split].
  apply (ReadCompactSize_errors p (s [0xFD; 0xFC; 0; 7])).
  split; [cbn; lia|]. split; [cbn; lia|]. apply wordb_Forall. reflexivity.
Defined.

(** A variable-length integer of [I] bytes is written in at most as many bytes as the local
    array of [WriteVarInt] has, in exactly [GetSizeOfVarInt] bytes, and read back with the rest of
    the stream untouched. *)
Theorem VarInt_write_read (p : platform) (I : nat) (n : Z) :
  (0 < I)%nat -> word (8 * Z.of_nat I) n ->
  exists b, WriteVarInt I n = Some b /\ bytes b /\
    GetSizeOfVarInt I n = Some (Z.of_nat (length b)) /\ (length b <= tmp_size I)%nat /\
    forall s r, stream_ok s -> remaining s = b ++ r ->
    exists s', ReadVarInt p I s = Ok (n, s') /\ stream_ok s' /\ remaining s' = r.
Proof. intros HI Hn. now apply VarInt_roundtrip. Qed.

Lemma VarInt_write_read_witness :
  exists b, WriteVarInt 8 (2 ^ 64 - 1) = Some b /\ GetSizeOfVarInt 8 (2 ^ 64 - 1) = Some (Z.of_nat (length b)) /\
    length b = 10%nat.
Proof.
  destruct (VarInt_write_read (Platform SPH_LITTLE_ENDIAN true true) 8 (2 ^ 64 - 1) ltac:(lia) ltac:(unfold word; lia))
    as (b & H1 & _ & H2 & _ & _).
  exists b. split; [exact H1|]. split; [exact H2|]. unfold WriteVarInt in H1. cbn in H1. now injection H1 as <-.
Defined.

(** The comment above [WriteVarInt] says that every integer has exactly one encoding; reading does
    not check it: the five bytes of 2^32 are read as a 32-bit 0. *)
Lemma VarInt_not_unique (p : platform) :
  ReadVarInt p 4 (DataStream [0x8E; 0xFE; 0xFE; 0xFF; 0x00] 0) =
  Ok (0, DataStream [] 0) /\
  ReadVarInt p 4 (DataStream [0x00] 0) = Ok (0, DataStream [] 0).
Proof. destruct p as [[| |] b c]; split; reflexivity. Qed.
