(* ===== verification/TransactionTheorems.v ===== *)
(** * Theorems on transactions and blocks

    Reading and writing, identifiers, and the checks that need no context. *)

From Stdlib Require Import ZArith List Lia Bool.
From S2P Require Import Prelude SphTypes Uint256 Uint256Proof Uint256Hex Serialize SerializeProof Transaction TransactionProof.
Import ListNotations.

(** A valid object is determined by its encoding. *)
Lemma codec_injective {T} (U : reader T) S V a b :
  codec U S V -> V a -> V b -> Z.of_nat (length (S a)) + 5000000 < 2 ^ 32 -> S a = S b -> a = b.
Proof.
  intros (C1 & _ & C3) Va Vb L E.
  assert (Ok_s : stream_ok (DataStream (S a) 0)) by (split; [unfold vch_size; cbn; lia|split; [exact L|now apply C3]]).
  destruct (C1 (DataStream (S a) 0) a [] Ok_s Va) as (s1 & E1 & _); [now rewrite app_nil_r|].
  destruct (C1 (DataStream (S a) 0) b [] Ok_s Vb) as (s2 & E2 & _); [now rewrite app_nil_r|].
  rewrite E1 in E2. now injection E2.
Qed.

(** A small transaction: one input, one output. *)
Module Sample.
Definition p : platform := Platform SPH_LITTLE_ENDIAN true true.
Definition tx : CTransaction :=
  Transaction (-1) 1507000000 [TxIn (OutPoint (repeat 7 8) 1) [0x51] [] max_unsigned]
    [TxOut 5 [0x6a; 1]; TxOut (- 3) []] 0.
Definition block : CBlock := Block 7 (repeat 1 8) (repeat 2 8) 3 0x1d00ffff 5 [tx; tx] [0x30; 0x45].

Lemma tx_valid : tx_ok tx.
Proof.
  assert (B : forall l, forallb (fun x => (0 <=? x) && (x <? 2 ^ 8)) l = true -> bytes l) by (intros l; apply wordb_Forall).
  unfold tx_ok, vector_ok, txin_ok, txout_ok, outpoint_ok, script_ok, signed_range, word, MAX_SIZE, tx, words_ok, max_unsigned.
  cbn [nVersion nTime vin vout nLockTime length]. splits; try lia; repeat constructor; cbn; try lia;
    try (apply B; reflexivity).
Qed.

Lemma block_valid : block_ok 0 block.
Proof.
  unfold block_ok, header_ok, vector_ok, script_ok, signed_range, word, MAX_SIZE, block, words_ok. cbn [header_only].
  splits; try (cbn; lia); try (apply wordb_Forall; reflexivity). repeat constructor; apply tx_valid.
Qed.
End Sample.

Section Wire.
  Variable p : platform.
  Variables s_out s_in s_txout s_tx s_block : Z.

(** The instances of the classes of [Transaction]. *)
#[local] Instance tx_ser : Serializable CTransaction := CTransaction_serializable p s_out s_in s_txout s_tx.
#[local] Instance block_ser (nType : Z) : Serializable CBlock :=
  CBlock_serializable p s_out s_in s_txout s_tx s_block nType.

(** The sizes of the classes in memory, which the vector templates divide by. *)
Definition sizes_ok : Prop := 0 < s_in <= 5000000 /\ 0 < s_txout <= 5000000 /\ 0 < s_tx <= 5000000.

Definition reads_back {T} (U : reader T) (S : T -> list Z) (size : T -> Z) (v : T) : Prop :=
  bytes (S v) /\ size v = trunc 32 (Z.of_nat (length (S v))) /\
  forall s r, stream_ok s -> remaining s = S v ++ r ->
  exists s', U s = Ok (v, s') /\ stream_ok s' /\ remaining s' = r.

(** C28: a transaction, and a block for any [nType], is read back from what it was written as,
    whatever follows it in the stream, and [GetSerializeSize] announces the number of bytes
    written (as an [unsigned int]). *)
Theorem block_write_read (nType : Z) (tx : CTransaction) (b : CBlock) :
  sizes_ok -> tx_ok tx -> block_ok nType b ->
  reads_back (@op_rshift _ tx_ser) (@Serialize _ tx_ser) (@GetSerializeSize _ tx_ser) tx /\
  reads_back (@op_rshift _ (block_ser nType)) (@Serialize _ (block_ser nType))
    (@GetSerializeSize _ (block_ser nType)) b.
Proof.
  intros (Hi & Ho & Ht) Htx Hb.
  destruct (tx_codec p s_out s_in s_txout s_tx Hi Ho) as (C1 & _ & C3).
  destruct (block_codec p s_out s_in s_txout s_tx s_block Hi Ho Ht nType) as (D1 & _ & D3).
  split; (split; [auto|split]); auto.
  - now apply (tx_size p s_out s_in s_txout s_tx Hi Ho).
  - now apply (block_size p s_out s_in s_txout s_tx s_block Hi Ho Ht).
Qed.

Definition safe_and_canonical {T} (U : reader T) (S : T -> list Z) (V : T -> Prop) (s : CDataStream) : Prop :=
  match U s with
  | Ok (v, s') => V v /\ stream_ok s' /\ remaining s = S v ++ remaining s'
  | Throw _ => True
  | Undefined => False
  end.

(** C23: reading a transaction or a block from any stream, as the network delivers it, stays inside
    the buffer; either it throws, or it gives a valid object, and the bytes it consumed are the
    encoding of that object: no two byte strings are read as the same transaction. *)
Theorem parse_safe_canonical (nType : Z) (s : CDataStream) :
  sizes_ok -> stream_ok s ->
  safe_and_canonical (@op_rshift _ tx_ser) (@Serialize _ tx_ser) tx_ok s /\
  safe_and_canonical (@op_rshift _ (block_ser nType)) (@Serialize _ (block_ser nType)) (block_ok nType) s.
Proof.
  intros (Hi & Ho & Ht) Hs. split.
  - now apply (tx_codec p s_out s_in s_txout s_tx Hi Ho).
  - now apply (block_codec p s_out s_in s_txout s_tx s_block Hi Ho Ht nType).
Qed.

(** Two different transactions with the same identifier ([GetHash]) give a collision of
    SHA-256: their encodings differ and have the same digest, or their first digests do. *)
Theorem txid_collision (SHA256 : list Z -> list Z) (a b : CTransaction) :
  sizes_ok -> (forall m, length (SHA256 m) = 32%nat /\ bytes (SHA256 m)) ->
  tx_ok a -> tx_ok b -> Z.of_nat (length (@Serialize _ tx_ser a)) + 5000000 < 2 ^ 32 ->
  CTransaction_GetHash p s_out s_in s_txout s_tx SHA256 a =
  CTransaction_GetHash p s_out s_in s_txout s_tx SHA256 b -> a <> b ->
  let x := @Serialize _ tx_ser a in let y := @Serialize _ tx_ser b in
  x <> y /\ (SHA256 x = SHA256 y \/ SHA256 x <> SHA256 y /\ SHA256 (SHA256 x) = SHA256 (SHA256 y)).
Proof.
  intros (Hi & Ho & Ht) HS Ha Hb L E N x y. split.
  - intros X. apply N. now apply (codec_injective _ _ _ a b (tx_codec p s_out s_in s_txout s_tx Hi Ho)).
  - unfold CTransaction_GetHash, SerializeHash, Hash in E. change (Serialize a) with x in E. change (Serialize b) with y in E.
    apply (f_equal (memory p)) in E. rewrite !memory_of_memory in E by apply HS.
    destruct (list_eq_dec Z.eq_dec (SHA256 x) (SHA256 y)); [now left|now right].
Qed.
End Wire.

Lemma block_write_read_witness :
  reads_back (@op_rshift _ (block_ser Sample.p 40 80 40 96 200 0)) (@Serialize _ (block_ser Sample.p 40 80 40 96 200 0))
    (@GetSerializeSize _ (block_ser Sample.p 40 80 40 96 200 0)) Sample.block /\
  length (@Serialize _ (block_ser Sample.p 40 80 40 96 200 0) Sample.block) = 236%nat.
Proof.
  split; [|reflexivity].
  destruct (block_write_read Sample.p 40 80 40 96 200 0 Sample.tx Sample.block) as [_ G];
    [unfold sizes_ok; lia|exact Sample.tx_valid|exact Sample.block_valid|exact G].
Defined.

Lemma parse_safe_canonical_witness :
  safe_and_canonical (@op_rshift _ (tx_ser Sample.p 40 80 40 96)) (@Serialize _ (tx_ser Sample.p 40 80 40 96)) tx_ok
    (DataStream (repeat 255 40) 3) /\
  @op_rshift _ (tx_ser Sample.p 40 80 40 96) (DataStream (repeat 255 40) 3) = Throw size_too_large /\
  @op_rshift _ (tx_ser Sample.p 40 80 40 96) (DataStream (repeat 0 10) 3) = Throw end_of_data.
Proof.
  split; [|split; reflexivity].
  destruct (parse_safe_canonical Sample.p 40 80 40 96 200 0 (DataStream (repeat 255 40) 3)) as [G _];
    [unfold sizes_ok; lia| |exact G].
  split; [cbn; lia|]. split; [cbn; lia|]. apply wordb_Forall. reflexivity.
Defined.

Lemma txid_collision_witness :
  let SHA256 (_ : list Z) := repeat 0 32 in
  let tx' := Transaction 1 0 [] [] 0 in
  let x := @Serialize _ (tx_ser Sample.p 40 80 40 96) Sample.tx in
  let y := @Serialize _ (tx_ser Sample.p 40 80 40 96) tx' in
  x <> y /\ (SHA256 x = SHA256 y \/ SHA256 x <> SHA256 y /\ SHA256 (SHA256 x) = SHA256 (SHA256 y)).
Proof.
  intros SHA256 tx' x y.
  apply (txid_collision Sample.p 40 80 40 96 SHA256 Sample.tx tx').
  - unfold sizes_ok; lia.
  - intros m. split; [reflexivity|]. apply wordb_Forall. reflexivity.
  - exact Sample.tx_valid.
  - unfold tx_ok, vector_ok, signed_range, word, MAX_SIZE. cbn. splits; try lia; constructor.
  - cbn. lia.
  - reflexivity.
  - discriminate.
Defined.

(** ** The keys of anonymous outputs *)

(** The keys [CheckTransaction] compares, and whether all are compressed keys. *)
Definition anon_keys (vout : list CTxOut) : list (list Z) :=
  map (fun o => slice (scriptPubKey o) 3 33) (filter IsAnonOutput vout).
Definition compressed (k : list Z) : bool := (nth 0 k 0 =? 2) || (nth 0 k 0 =? 3).

Lemma memcmp_less_equiv k a b :
  (k <= length a)%nat -> (k <= length b)%nat ->
  memcmp_less k a b = false /\ memcmp_less k b a = false <-> firstn k a = firstn k b.
Proof.
  revert a b. induction k as [|k IH]; intros a b Ha Hb; [cbn; tauto|].
  destruct a as [|x a], b as [|y b]; cbn [length] in *; try lia. cbn [memcmp_less firstn].
  destruct (Z.ltb_spec x y), (Z.ltb_spec y x); try lia.
  - split; [intros []; discriminate|intros [= -> _]; lia].
  - split; [intros []; discriminate|intros [= -> _]; lia].
  - rewrite IH by lia. replace y with x by lia. split; [intros ->; reflexivity|intros [= ->]; reflexivity].
Qed.

Lemma CPubKey_equiv a b u w :
  length a = 33%nat -> length b = 33%nat -> compressed a = true -> compressed b = true ->
  negb (CPubKey_less (CPubKey33 a u) (CPubKey33 b w)) && negb (CPubKey_less (CPubKey33 b w) (CPubKey33 a u)) = true
  <-> a = b.
Proof.
  intros La Lb Ca Cb.
  assert (S : forall k v, compressed k = true -> length k = 33%nat ->
    nth 0 (k ++ v) 0 = nth 0 k 0 /\ pubkey_size (k ++ v) = 33%nat).
  { intros k v Ck Lk. assert (nth 0 (k ++ v) 0 = nth 0 k 0) as E by (apply app_nth1; lia). split; [exact E|].
    unfold pubkey_size, GetLen. rewrite E. unfold compressed in Ck. now rewrite Ck. }
  unfold CPubKey33, CPubKey_less. destruct (S a u Ca La) as [-> ->], (S b w Cb Lb) as [-> ->].
  pose proof (memcmp_less_equiv 33 (a ++ u) (b ++ w) ltac:(rewrite length_app; lia) ltac:(rewrite length_app; lia)) as M.
  rewrite !firstn_app, La, Lb, Nat.sub_diag, !firstn_O, !app_nil_r, !firstn_all2 in M by lia. rewrite <- M.
  rewrite andb_true_iff, !negb_true_iff, !orb_false_iff, !andb_false_iff, !Z.ltb_ge, !Z.eqb_neq.
  split.
  - intros [[? [?|?]] [? [?|?]]]; (lia || auto).
  - intros H. assert (a = b) as -> by now apply M. destruct H. split; (split; [lia|now right]).
Qed.

Lemma check_anon_outputs_ok u i vout seen :
  forallb compressed (anon_keys vout) = true ->
  Forall (fun kj : list Z * list Z => length (fst kj) = 33%nat /\ compressed (fst kj) = true) seen ->
  NoDup (map fst seen) ->
  check_anon_outputs u i vout (map (fun kj => CPubKey33 (fst kj) (snd kj)) seen) = true <->
  NoDup (anon_keys vout ++ map fst seen).
Proof.
  revert i seen. induction vout as [|o vout IH]; intros i seen Hc Hs Ns; [cbn; tauto|].
  cbn [check_anon_outputs]. unfold anon_keys in *. cbn [filter] in *.
  destruct (IsAnonOutput o) eqn:A; cbn [negb]; [|now apply IH].
  cbn [map forallb] in *. apply andb_true_iff in Hc as [Co Hc]. set (k := slice (scriptPubKey o) 3 33) in *.
  assert (Lk : length k = 33%nat).
  { unfold IsAnonOutput, MIN_ANON_OUT_SIZE, script_size in A. apply length_slice.
    destruct (Z.leb_spec (1 + 1 + 1 + 33 + 1 + 33) (Z.of_nat (length (scriptPubKey o)))); [lia|discriminate]. }
  assert (C : set_count CPubKey_less (CPubKey33 k (u i)) (map (fun kj => CPubKey33 (fst kj) (snd kj)) seen) = true <->
    In k (map fst seen)).
  { unfold set_count. rewrite existsb_exists, in_map_iff. split.
    - intros (x & Hx & E). apply in_map_iff in Hx as (kj & <- & Hkj). exists kj. split; [|assumption].
      destruct (proj1 (Forall_forall _ _) Hs kj Hkj) as [L Cj]. symmetry. now apply CPubKey_equiv in E.
    - intros (kj & E & Hkj). exists (CPubKey33 (fst kj) (snd kj)). split; [now apply (in_map (fun kj => CPubKey33 (fst kj) (snd kj)))|].
      destruct (proj1 (Forall_forall _ _) Hs kj Hkj) as [L Cj]. now apply CPubKey_equiv. }
  cbv zeta. cbn [app]. destruct (set_count _ _ _).
  - split; [discriminate|]. intros N. exfalso. inversion N as [|? ? N1 _]. apply N1, in_or_app. right. now apply C.
  - assert (Nk : ~ In k (map fst seen)) by (intros I; apply C in I; discriminate).
    specialize (IH (S i) ((k, u i) :: seen) Hc (Forall_cons (k, u i) (conj Lk Co) Hs) (NoDup_cons k Nk Ns)).
    cbn [map fst snd] in IH. rewrite IH.
    rewrite (NoDup_Add (Add_app k _ _)), NoDup_cons_iff. tauto.
Qed.

(** ** CheckTransaction *)

(** The keys of anonymous outputs are all compressed, as those the wallet makes; of an ordinary transaction nothing is asked. *)
Definition keys_compressed (tx : CTransaction) : Prop :=
  nVersion tx = ANON_TXN_VERSION -> forallb compressed (anon_keys (vout tx)) = true.

(** With compressed keys the comparison of the code is the one of the keys. *)
Lemma CheckTransaction_keys (size : Serializable CTransaction) (uninitialised : nat -> list Z) (tx : CTransaction) :
  keys_compressed tx ->
  (nVersion tx = ANON_TXN_VERSION -> check_anon_outputs uninitialised 0 (vout tx) [] = true) <->
  (nVersion tx = ANON_TXN_VERSION -> NoDup (anon_keys (vout tx))).
Proof.
  intros Hk. split; intros A V; specialize (A V); specialize (Hk V);
    pose proof (check_anon_outputs_ok uninitialised 0 (vout tx) [] Hk (Forall_nil _) (NoDup_nil _)) as C;
    cbn [map] in C; rewrite app_nil_r in C; now apply C.
Qed.

(** C12: [CheckTransaction] always returns, whatever the bytes of the temporary keys that no one has set. What it accepts has
    inputs, outputs, a size within a block, output values and their sum in the money range, no input and no ring-signature
    key used twice, and a proper coinbase or no null input; no addition of amounts overflows on the way, such a transaction
    costs the peer no ban score and its [GetValueOut] is the sum of its outputs. If the keys of its anonymous outputs are
    compressed (in an ordinary transaction there are none), the transaction is accepted exactly when it satisfies
    these rules and no anonymous key is used twice; with an uncompressed key the comparison reads unset bytes
    ([uninitialised_keys] below), and it is only known that what is accepted satisfies the rules. *)
Theorem CheckTransaction_decides (size : Serializable CTransaction) (uninitialised : nat -> list Z) (tx : CTransaction) :
  Forall (fun i => outpoint_ok (prevout i)) (vin tx) ->
  exists ok nDoS, CheckTransaction uninitialised tx = Returns (ok, nDoS) /\
    (ok = true -> nDoS = 0 /\ GetValueOut tx = Returns (total (vout tx)) /\ tx_acceptable tx) /\
    (keys_compressed tx -> (ok = true <-> tx_acceptable tx /\ (nVersion tx = ANON_TXN_VERSION -> NoDup (anon_keys (vout tx))))).
Proof.
  intros Hv. destruct (CheckTransaction_iff uninitialised tx Hv) as (ok & d & E & Hd & Hok).
  exists ok, d. split; [exact E|]. split.
  - intros Ho. split; [now apply Hd|]. apply Hok in Ho as [A _]. split; [|exact A]. destruct A as (_ & _ & _ & F & T & _).
    unfold GetValueOut. rewrite (value_out_loop_ok (IsCoinBase tx || IsCoinStake tx)); [reflexivity|lia|exact F|exact T].
  - intros Hk. rewrite Hok. now apply and_iff_compat_l, CheckTransaction_keys.
Qed.

Definition payment (amount : Z) : CTransaction :=
  Transaction 1 0 [TxIn (OutPoint (repeat 7 8) 1) [] [] 0] [TxOut amount [0x51]; TxOut MAX_MONEY [0x51]] 0.

Lemma CheckTransaction_decides_witness :
  let size := tx_ser Sample.p 40 80 40 96 in
  (exists ok nDoS, CheckTransaction (fun _ => []) (payment 1) = Returns (ok, nDoS) /\
    (ok = true -> nDoS = 0 /\ GetValueOut (payment 1) = Returns (total (vout (payment 1))) /\ tx_acceptable (payment 1))) /\
  CheckTransaction (fun _ => []) (payment 1) = Returns (false, 100) /\
  CheckTransaction (fun _ => []) (payment 0) = Returns (true, 0).
Proof.
  intros size. split; [|split; reflexivity].
  destruct (CheckTransaction_decides size (fun _ => []) (payment 1)) as (ok & d & H1 & H2 & _).
  - repeat constructor; cbn; try lia; apply wordb_Forall; reflexivity.
  - exists ok, d. split; [exact H1|exact H2].
Defined.

(** With an uncompressed key in the output the comparison reads 65 bytes of an array of which the
    constructor has set 33: the result depends on what the other bytes were. *)
Lemma uninitialised_keys :
  let o := TxOut 0 ([0x6a; 0xb9; 33; 4] ++ repeat 1 100) in
  check_anon_outputs (fun _ => repeat 0 32) 0 [o; o] [] = false /\
  check_anon_outputs (fun i => repeat (Z.of_nat i) 32) 0 [o; o] [] = true.
Proof. split; reflexivity. Qed.

(** [GetValueOut] adds before it checks: an output value near 2^63 overflows. *)
Lemma GetValueOut_overflows :
  GetValueOut (Transaction 1 0 [] [TxOut 1 []; TxOut (2 ^ 63 - 1) []] 0) = Overflows.
Proof. reflexivity. Qed.

(** ** Fees *)

Lemma fee_factor a : 0 <= a < MAX_BLOCK_SIZE_GEN -> 1 <= MAX_BLOCK_SIZE_GEN / (MAX_BLOCK_SIZE_GEN - a) <= 500000.
Proof.
  unfold MAX_BLOCK_SIZE_GEN, MAX_BLOCK_SIZE. change (1000000 / 2) with 500000. intros Ha.
  split; [apply Z.div_le_lower_bound|apply Z.div_le_upper_bound]; lia.
Qed.

(** The minimum fee is between the base fee of the mode per 1000 bytes and [MAX_MONEY], for any
    sizes; it does not depend on the outputs, because the dust rule below it is never reached. *)
Theorem GetMinFee_bounds (tx : CTransaction) (nBlockSize : Z) (mode : GetMinFee_mode) (nBytes : Z) (outputs : list CTxOut) :
  word 32 nBytes ->
  let base := if nVersion tx =? ANON_TXN_VERSION then MIN_TX_FEE_ANON
              else match mode with GMF_ANON => MIN_TX_FEE_ANON | _ => MIN_TX_FEE end in
  (1 + nBytes / 1000) * base <= GetMinFee tx nBlockSize mode nBytes <= MAX_MONEY /\
  GetMinFee (Transaction (nVersion tx) (nTime tx) (vin tx) outputs (nLockTime tx)) nBlockSize mode nBytes =
  GetMinFee tx nBlockSize mode nBytes.
Proof.
  intros Hb base. unfold word in Hb.
  assert (B : base = MIN_TX_FEE \/ base = MIN_TX_FEE_ANON)
    by (unfold base; destruct (nVersion tx =? _), mode; auto).
  assert (Q : 0 <= nBytes / 1000 <= 4294968) by (split; [apply Z.div_pos; lia|apply Z.div_le_upper_bound; lia]).
  assert (F : base <= (1 + nBytes / 1000) * base /\ 0 <= (1 + nBytes / 1000) * base <= MAX_MONEY)
    by (unfold MAX_MONEY, COIN, MIN_TX_FEE, MIN_TX_FEE_ANON in *; nia).
  unfold GetMinFee. cbn [nVersion vout].
  set (mode' := if nVersion tx =? ANON_TXN_VERSION then GMF_ANON else mode).
  replace (match mode' with GMF_RELAY => MIN_RELAY_TX_FEE | GMF_ANON => MIN_TX_FEE_ANON | _ => MIN_TX_FEE end) with base
    by (unfold base, mode', MIN_RELAY_TX_FEE; now destruct (nVersion tx =? _), mode).
  cbv zeta. clearbody base mode'. set (f := (1 + nBytes / 1000) * base) in *. clearbody f.
  rewrite (proj2 (Z.ltb_ge f base)) by lia. split; [|reflexivity].
  assert (C : forall v, f <= v -> f <= (if negb (MoneyRange v) then MAX_MONEY else v) <= MAX_MONEY).
  { intros v Hv. pose proof (MoneyRange_iff v). destruct (MoneyRange v); cbn [negb]; [|lia].
    assert (0 <= v <= MAX_MONEY) by tauto. lia. }
  destruct (_ && _ && _); [|now apply C].
  destruct (Z.leb_spec MAX_BLOCK_SIZE_GEN (trunc 32 (nBlockSize + nBytes))); [lia|].
  apply C. pose proof (trunc_word 32 (nBlockSize + nBytes) ltac:(lia)) as W. unfold word in W. clear C Q Hb B.
  pose proof (fee_factor (trunc 32 (nBlockSize + nBytes)) ltac:(lia)). nia.
Qed.

Lemma GetMinFee_bounds_witness :
  (1 + 250 / 1000) * MIN_TX_FEE <= GetMinFee (payment 0) 0 GMF_SEND 250 <= MAX_MONEY /\
  GetMinFee (payment 0) 499000 GMF_BLOCK 900 = 5000 * 1000.
Proof. split; [apply (GetMinFee_bounds (payment 0) 0 GMF_SEND 250 []); unfold word; lia|reflexivity]. Defined.
