(* ===== verification/Merkle.v ===== *)
(** * Merkle trees

    [CBlock::BuildMerkleTree], [GetMerkleBranch] and [CheckMerkleBranch] of
    src/src/main.h.  The tree is the flat vector [vMerkleTree] of the code, one
    row after the other; an access outside of it is [None].  The specification
    is the list of the rows. *)

From Stdlib Require Import ZArith List Lia Bool.
From S2P Require Import Prelude SphTypes Uint256 Uint256Proof Uint256Hex Transaction.
Import ListNotations.

(** ** The code *)

(** [Hash(BEGIN(a), END(a), BEGIN(b), END(b))] *)
Definition node_hash (p : platform) (SHA256 : list Z -> list Z) (a b : list Z) : list Z :=
  Hash2 p SHA256 (memory p a) (memory p b).

Section Code.
(** The hash of two nodes. *)
  Variable H : list Z -> list Z -> list Z.

(** [vMerkleTree[i]]; indices are [int]. *)
Definition tree_at (tree : list (list Z)) (i : Z) : option (list Z) :=
  if i <? 0 then None else nth_error tree (Z.to_nat i).

(** [for (int i = 0; i < nSize; i += 2)] *)
Fixpoint build_row (fuel : nat) (j nSize i : Z) (tree : list (list Z)) : option (list (list Z)) :=
  if i <? nSize then
    match fuel with
    | O => None
    | S fuel' =>
        let i2 := Z.min (i + 1) (nSize - 1) in
        let* a := tree_at tree (j + i) in
        let* b := tree_at tree (j + i2) in
        build_row fuel' j nSize (i + 2) (tree ++ [H a b])
    end
  else Some tree.

(** [for (int nSize = vtx.size(); nSize > 1; nSize = (nSize + 1) / 2)] *)
Fixpoint build_rows (fuel : nat) (j nSize : Z) (tree : list (list Z)) : option (list (list Z)) :=
  if 1 <? nSize then
    match fuel with
    | O => None
    | S fuel' =>
        let* tree := build_row (Z.to_nat nSize) j nSize 0 tree in
        build_rows fuel' (j + nSize) ((nSize + 1) / 2) tree
    end
  else Some tree.

(** The number 0. *)
Definition uint256_0 : list Z := zeros 8.

(** The new [vMerkleTree] and the result; [hashes] are the hashes of [vtx]. *)
Definition BuildMerkleTree (hashes : list (list Z)) : option (list (list Z) * list Z) :=
  let* tree := build_rows (length hashes) 0 (Z.of_nat (length hashes)) hashes in
  Some (tree, match tree with [] => uint256_0 | _ => last tree uint256_0 end).

Fixpoint branch_loop (fuel : nat) (tree : list (list Z)) (j nSize nIndex : Z) : option (list (list Z)) :=
  if 1 <? nSize then
    match fuel with
    | O => None
    | S fuel' =>
        let i := Z.min (nIndex .^ 1) (nSize - 1) in
        let* a := tree_at tree (j + i) in
        let* t := branch_loop fuel' tree (j + nSize) ((nSize + 1) / 2) (nIndex >> 1) in
        Some (a :: t)
    end
  else Some [].

(** [vMerkleTree] is only built when it is empty. *)
Definition GetMerkleBranch (hashes vMerkleTree : list (list Z)) (nIndex : Z) :
    option (list (list Z) * list (list Z)) :=
  let* tree := match vMerkleTree with
               | [] => let* (tree, _) := BuildMerkleTree hashes in Some tree
               | _ => Some vMerkleTree
               end in
  let* branch := branch_loop (length hashes) tree 0 (Z.of_nat (length hashes)) nIndex in
  Some (tree, branch).

Fixpoint check_loop (hash : list Z) (vMerkleBranch : list (list Z)) (nIndex : Z) : list Z :=
  match vMerkleBranch with
  | [] => hash
  | otherside :: vMerkleBranch =>
      let hash := if nIndex .& 1 =? 0 then H hash otherside else H otherside hash in
      check_loop hash vMerkleBranch (nIndex >> 1)
  end.
Definition CheckMerkleBranch (hash : list Z) (vMerkleBranch : list (list Z)) (nIndex : Z) : list Z :=
  if nIndex =? -1 then uint256_0 else check_loop hash vMerkleBranch nIndex.

(** ** Specification: the rows of the tree *)

Fixpoint pair_up (l : list (list Z)) : list (list Z) :=
  match l with
  | a :: b :: t => H a b :: pair_up t
  | [a] => [H a a]
  | [] => []
  end.

(** The rows above [l], for at most [fuel] of them, and the root. *)
Fixpoint rows (fuel : nat) (l : list (list Z)) : list (list (list Z)) :=
  match fuel with
  | O => []
  | S fuel' => match l with _ :: _ :: _ => pair_up l :: rows fuel' (pair_up l) | _ => [] end
  end.
Fixpoint root (fuel : nat) (l : list (list Z)) : list Z :=
  match l with
  | [] => uint256_0
  | [a] => a
  | _ => match fuel with O => uint256_0 | S fuel' => root fuel' (pair_up l) end
  end.
Definition merkle_root (l : list (list Z)) : list Z := root (length l) l.
Fixpoint depth (fuel : nat) (l : list (list Z)) : nat :=
  match l with
  | _ :: _ :: _ => match fuel with O => 0%nat | S fuel' => S (depth fuel' (pair_up l)) end
  | _ => 0%nat
  end.
Definition merkle_depth (l : list (list Z)) : nat := depth (length l) l.
End Code.

(** ** Proofs *)

Section Proofs.
  Variable H : list Z -> list Z -> list Z.

Lemma list_pair_ind {A} (P : list A -> Prop) :
  P [] -> (forall a, P [a]) -> (forall a b t, P t -> P (a :: b :: t)) -> forall l, P l.
Proof.
  intros H0 H1 H2. assert (G : forall l, P l /\ forall a, P (a :: l)).
  { induction l as [|x l [IH1 IH2]]; split; auto. }
  intros l. apply G.
Qed.

Lemma length_pair_up l : length (pair_up H l) = ((length l + 1) / 2)%nat.
Proof.
  induction l as [|a|a b t IH] using list_pair_ind; [reflexivity..|]. cbn [pair_up length]. rewrite IH.
  replace (S (S (length t)) + 1)%nat with (length t + 1 + 1 * 2)%nat by lia. rewrite Nat.div_add by lia. lia.
Qed.

Lemma pair_up_shrinks l : (2 <= length l)%nat -> (0 < length (pair_up H l) < length l)%nat.
Proof. intros Hl. rewrite length_pair_up. dlia. Qed.

Lemma nth_pair_up l i d :
  (2 * i < length l)%nat ->
  nth i (pair_up H l) d = H (nth (2 * i) l d) (nth (Nat.min (2 * i + 1) (length l - 1)) l d).
Proof.
  revert i. induction l as [|a|a b t IH] using list_pair_ind; intros i Hi; cbn [length] in Hi.
  - lia.
  - replace i with 0%nat by lia. reflexivity.
  - cbn [pair_up]. destruct i as [|i].
    + reflexivity.
    + cbn [nth length]. rewrite IH by lia. replace (2 * S i)%nat with (S (S (2 * i))) by lia. cbn [nth]. f_equal.
      replace (Nat.min (S (S (2 * i)) + 1) (S (S (length t)) - 1))%nat
        with (S (S (Nat.min (2 * i + 1) (length t - 1)))) by lia. reflexivity.
Qed.

Lemma tree_at_row (pre l : list (list Z)) (j i : Z) d :
  j = Z.of_nat (length pre) -> 0 <= i < Z.of_nat (length l) ->
  tree_at (pre ++ l) (j + i) = Some (nth (Z.to_nat i) l d).
Proof.
  intros -> Hi. unfold tree_at. rewrite (proj2 (Z.ltb_ge _ _)) by lia.
  rewrite nth_error_app2 by lia. replace (Z.to_nat (Z.of_nat (length pre) + i) - length pre)%nat with (Z.to_nat i) by lia.
  apply nth_error_nth'. lia.
Qed.

Lemma build_row_ok pre l fuel k :
  let nSize := Z.of_nat (length l) in
  (k <= length (pair_up H l))%nat -> (length (pair_up H l) <= fuel + k)%nat ->
  build_row H fuel (Z.of_nat (length pre)) nSize (2 * Z.of_nat k) (pre ++ l ++ firstn k (pair_up H l)) =
  Some (pre ++ l ++ pair_up H l).
Proof.
  intros nSize. pose proof (length_pair_up l) as L. assert (L2 : (length l <= 2 * length (pair_up H l) <= length l + 1)%nat) by dlia.
  revert k. induction fuel as [|fuel IH]; intros k Hk Hf; cbn [build_row]; destruct (Z.ltb_spec (2 * Z.of_nat k) nSize) as [C|C];
    try lia; try (now rewrite firstn_all2 by lia).
  rewrite !(tree_at_row pre (l ++ _) _ _ []) by (rewrite ?length_app; lia).
  rewrite !app_nth1 by lia.
  rewrite <- !app_assoc.
  assert (E : firstn k (pair_up H l) ++ [H (nth (Z.to_nat (2 * Z.of_nat k)) l []) (nth (Z.to_nat (Z.min (2 * Z.of_nat k + 1) (nSize - 1))) l [])] =
    firstn (S k) (pair_up H l)).
  { rewrite <- (firstn_skipn k (pair_up H l)) at 2. rewrite firstn_app, firstn_firstn.
    rewrite Nat.min_r, length_firstn, Nat.min_l by lia.
    replace (S k - k)%nat with 1%nat by lia. f_equal.
    destruct (skipn k (pair_up H l)) as [|y t] eqn:E; [apply (f_equal (@length _)) in E; rewrite length_skipn in E; cbn in E; lia|].
    cbn [firstn app]. f_equal. pose proof (nth_skipn' (pair_up H l) k 0 []) as N. rewrite E in N. cbn [nth] in N. rewrite N, Nat.add_0_r.
    rewrite nth_pair_up by lia. subst nSize. f_equal; f_equal; lia. }
  rewrite E. replace (2 * Z.of_nat k + 2) with (2 * Z.of_nat (S k)) by lia. apply IH; lia.
Qed.

Lemma build_rows_ok fuel pre l :
  (length l <= fuel)%nat ->
  build_rows H fuel (Z.of_nat (length pre)) (Z.of_nat (length l)) (pre ++ l) =
  Some (pre ++ l ++ concat (rows H fuel l)).
Proof.
  revert pre l. induction fuel as [|fuel IH]; intros pre l Hf.
  - destruct l; [|cbn in Hf; lia]. cbn. now rewrite !app_nil_r.
  - cbn [build_rows]. destruct (Z.ltb_spec 1 (Z.of_nat (length l))).
    + pose proof (length_pair_up l) as L. pose proof (pair_up_shrinks l ltac:(lia)).
      pose proof (build_row_ok pre l (Z.to_nat (Z.of_nat (length l))) 0 ltac:(lia) ltac:(lia)) as R.
      cbn [firstn] in R. rewrite app_nil_r in R. change (2 * Z.of_nat 0) with 0 in R. rewrite R.
      rewrite app_assoc. replace (Z.of_nat (length pre) + Z.of_nat (length l)) with (Z.of_nat (length (pre ++ l))) by (rewrite length_app; lia).
      replace ((Z.of_nat (length l) + 1) / 2) with (Z.of_nat (length (pair_up H l))) by dlia.
      rewrite IH by lia. destruct l as [|a [|b t]]; [cbn in *; lia..|].
      cbn [rows concat]. now rewrite <- !app_assoc.
    + destruct l as [|a [|b t]]; cbn [rows concat]; rewrite ?app_nil_r; try reflexivity. cbn [length] in *. lia.
Qed.

Lemma root_last fuel l d :
  (length l <= fuel)%nat -> l <> [] -> last (l ++ concat (rows H fuel l)) d = root H fuel l.
Proof.
  revert l. induction fuel as [|fuel IH]; intros l Hf Hl; [destruct l; [easy|cbn in Hf; lia]|].
  destruct l as [|a [|b t]]; [easy|reflexivity|].
  pose proof (pair_up_shrinks (a :: b :: t) ltac:(cbn; lia)) as P. cbn [rows concat root].
  rewrite <- (IH (pair_up H (a :: b :: t))) by (lia || (intros E; rewrite E in P; cbn in P; lia)).
  set (m := pair_up H (a :: b :: t) ++ concat (rows H fuel (pair_up H (a :: b :: t)))).
  assert (M : m <> []) by (subst m; destruct (pair_up H (a :: b :: t)); [cbn in P; lia|discriminate]).
  clearbody m. generalize (a :: b :: t). intros l. induction l as [|x l IHl]; [reflexivity|].
  cbn [app]. rewrite <- IHl. cbn [last]. destruct (l ++ m) eqn:E; [|reflexivity].
  apply app_eq_nil in E. now destruct E.
Qed.

Lemma BuildMerkleTree_ok l :
  BuildMerkleTree H l = Some (l ++ concat (rows H (length l) l), merkle_root H l).
Proof.
  unfold BuildMerkleTree. pose proof (build_rows_ok (length l) [] l (Nat.le_refl _)) as B.
  cbn [app length Z.of_nat] in B. rewrite B. do 2 f_equal. unfold merkle_root.
  destruct l as [|a t] eqn:E; [reflexivity|]. rewrite <- E.
  rewrite (root_last (length l) l uint256_0) by (lia || now rewrite E).
  now rewrite E.
Qed.

(** ** Branches *)

(** The siblings on the way from leaf [i] to the root. *)
Fixpoint branch (fuel : nat) (l : list (list Z)) (i : nat) : list (list Z) :=
  match l with
  | _ :: _ :: _ =>
      match fuel with
      | O => []
      | S fuel' =>
          nth (Nat.min (if Nat.even i then i + 1 else i - 1) (length l - 1)) l [] ::
          branch fuel' (pair_up H l) (i / 2)
      end
  | _ => []
  end.

Lemma lxor_1_even k : 0 <= k -> (2 * k) .^ 1 = 2 * k + 1.
Proof. destruct k; [reflexivity..|lia]. Qed.

Lemma lxor_1_odd k : 0 <= k -> (2 * k + 1) .^ 1 = 2 * k.
Proof. destruct k; [reflexivity..|lia]. Qed.

Lemma lxor_1 i : Z.of_nat i .^ 1 = Z.of_nat (if Nat.even i then i + 1 else i - 1).
Proof.
  pose proof (Nat.even_spec i) as Hs. pose proof (Nat.odd_spec i) as Ho.
  rewrite <- Nat.negb_even in Ho. destruct (Nat.even i).
  - destruct (proj1 Hs eq_refl) as (k & ->).
    replace (Z.of_nat (2 * k)) with (2 * Z.of_nat k) by lia. replace (Z.of_nat (2 * k + 1)) with (2 * Z.of_nat k + 1) by lia.
    apply (lxor_1_even (Z.of_nat k)); lia.
  - destruct (proj1 Ho eq_refl) as (k & ->).
    replace (Z.of_nat (2 * k + 1)) with (2 * Z.of_nat k + 1) by lia. replace (Z.of_nat (2 * k + 1 - 1)) with (2 * Z.of_nat k) by lia.
    apply (lxor_1_odd (Z.of_nat k)); lia.
Qed.

Lemma shiftr_1 i : Z.of_nat i >> 1 = Z.of_nat (i / 2).
Proof. rewrite Z.shiftr_div_pow2 by lia. change (2 ^ 1) with 2. dlia. Qed.

Lemma land_1 i : (Z.of_nat i .& 1 =? 0) = Nat.even i.
Proof.
  rewrite (Z.land_ones _ 1) by lia. change (2 ^ 1) with 2.
  pose proof (Nat.even_spec i) as Hs. pose proof (Nat.odd_spec i) as Ho.
  rewrite <- Nat.negb_even in Ho. destruct (Nat.even i).
  - destruct (proj1 Hs eq_refl) as (k & ->). apply Z.eqb_eq. dlia.
  - destruct (proj1 Ho eq_refl) as (k & ->). apply Z.eqb_neq. dlia.
Qed.

Lemma branch_loop_ok fuel pre l post i :
  (length l <= fuel)%nat -> (i < length l)%nat ->
  branch_loop fuel (pre ++ l ++ concat (rows H fuel l) ++ post) (Z.of_nat (length pre))
    (Z.of_nat (length l)) (Z.of_nat i) = Some (branch fuel l i).
Proof.
  revert pre l i. induction fuel as [|fuel IH]; intros pre l i Hf Hi; [lia|].
  destruct l as [|a [|b t]]; [cbn in Hi; lia|reflexivity|].
  set (l := a :: b :: t) in *. assert (L2 : (2 <= length l)%nat) by (cbn; lia).
  cbn [branch_loop]. rewrite (proj2 (Z.ltb_lt _ _)) by lia. rewrite lxor_1, shiftr_1.
  set (k := if Nat.even i then (i + 1)%nat else (i - 1)%nat).
  rewrite (tree_at_row pre (l ++ _) _ _ []) by (rewrite ?length_app; lia).
  rewrite app_nth1 by lia. change (rows H (S fuel) l) with (pair_up H l :: rows H fuel (pair_up H l)).
  change (branch (S fuel) l i) with (nth (Nat.min k (length l - 1)) l [] :: branch fuel (pair_up H l) (i / 2)).
  pose proof (pair_up_shrinks l L2) as P. pose proof (length_pair_up l) as LP.
  cbn [concat]. rewrite <- app_assoc, app_assoc.
  replace (Z.of_nat (length pre) + Z.of_nat (length l)) with (Z.of_nat (length (pre ++ l))) by (rewrite length_app; lia).
  replace ((Z.of_nat (length l) + 1) / 2) with (Z.of_nat (length (pair_up H l))) by dlia.
  rewrite IH by dlia. do 3 f_equal. lia.
Qed.

Lemma check_branch fuel l i :
  (length l <= fuel)%nat -> (i < length l)%nat ->
  check_loop H (nth i l []) (branch fuel l i) (Z.of_nat i) = root H fuel l.
Proof.
  revert l i. induction fuel as [|fuel IH]; intros l i Hf Hi; [lia|].
  destruct l as [|a [|b t]]; [cbn in Hi; lia|cbn in Hi; now replace i with 0%nat by lia|].
  set (l := a :: b :: t) in *. assert (L2 : (2 <= length l)%nat) by (cbn; lia).
  change (root H (S fuel) l) with (root H fuel (pair_up H l)).
  change (branch (S fuel) l i) with
    (nth (Nat.min (if Nat.even i then i + 1 else i - 1) (length l - 1)) l [] :: branch fuel (pair_up H l) (i / 2)).
  cbn [check_loop]. rewrite land_1, shiftr_1.
  pose proof (pair_up_shrinks l L2). pose proof (length_pair_up l).
  rewrite <- (IH (pair_up H l) (i / 2)%nat) by dlia. f_equal. rewrite nth_pair_up by dlia.
  pose proof (Nat.even_spec i) as Hs. pose proof (Nat.odd_spec i) as Ho.
  rewrite <- Nat.negb_even in Ho. destruct (Nat.even i).
  - destruct (proj1 Hs eq_refl) as (k & ->). f_equal; f_equal; dlia.
  - destruct (proj1 Ho eq_refl) as (k & ->). f_equal; f_equal; dlia.
Qed.

Lemma length_branch fuel l i : (length l <= fuel)%nat -> length (branch fuel l i) = depth H fuel l.
Proof.
  revert l i. induction fuel as [|fuel IH]; intros l i Hf; [destruct l; [reflexivity|cbn in Hf; lia]|].
  destruct l as [|a [|b t]]; [reflexivity..|].
  pose proof (pair_up_shrinks (a :: b :: t) ltac:(cbn; lia)). cbn [branch depth length]. rewrite IH by lia. reflexivity.
Qed.

Lemma GetMerkleBranch_ok l i :
  (i < length l)%nat ->
  exists tree, GetMerkleBranch H l [] (Z.of_nat i) = Some (tree, branch (length l) l i) /\
    GetMerkleBranch H l tree (Z.of_nat i) = Some (tree, branch (length l) l i).
Proof.
  intros Hi. unfold GetMerkleBranch. rewrite BuildMerkleTree_ok.
  pose proof (branch_loop_ok (length l) [] l [] i (Nat.le_refl _) Hi) as B.
  cbn [app length Z.of_nat] in B. rewrite app_nil_r in B. rewrite B.
  eexists. split; [reflexivity|]. destruct (l ++ concat (rows H (length l) l)) eqn:E.
  - destruct l; [cbn in Hi; lia|discriminate].
  - now rewrite B.
Qed.

(** ** Binding: another leaf with the same root needs a collision *)

Definition node_eq_dec : forall a b : list Z, {a = b} + {a <> b} := list_eq_dec Z.eq_dec.

(** The two arguments of [H] for the parent of leaf [i]: the verifier's, and the
    tree's. *)
Definition claimed (h sibling : list Z) (i : nat) : list Z * list Z :=
  if Nat.even i then (h, sibling) else (sibling, h).
Definition actual (l : list (list Z)) (i : nat) : list Z * list Z :=
  (nth (2 * (i / 2)) l [], nth (Nat.min (2 * (i / 2) + 1) (length l - 1)) l []).

(** The first level at which the two parents agree although their children do not. *)
Fixpoint find_collision (l : list (list Z)) (i : nat) (h : list Z) (br : list (list Z)) :
    option ((list Z * list Z) * (list Z * list Z)) :=
  match br with
  | [] => None
  | sibling :: br' =>
      let c := claimed h sibling i in
      let a := actual l i in
      if node_eq_dec (uncurry H c) (uncurry H a)
      then Some (c, a)
      else find_collision (pair_up H l) (i / 2) (uncurry H c) br'
  end.

Lemma claimed_actual l i h sibling :
  (i < length l)%nat -> claimed h sibling i = actual l i -> h = nth i l [].
Proof.
  intros Hi. unfold claimed, actual. pose proof (Nat.even_spec i) as Hs. pose proof (Nat.odd_spec i) as Ho.
  rewrite <- Nat.negb_even in Ho. destruct (Nat.even i); intros [E1 E2]%pair_equal_spec.
  - rewrite E1. destruct (proj1 Hs eq_refl) as (k & ->). replace (2 * (2 * k / 2))%nat with (2 * k)%nat by dlia. reflexivity.
  - rewrite E2. destruct (proj1 Ho eq_refl) as (k & ->).
    replace (Nat.min (2 * ((2 * k + 1) / 2) + 1) (length l - 1)) with (2 * k + 1)%nat by dlia. reflexivity.
Qed.

Lemma check_binding fuel l i h br :
  (length l <= fuel)%nat -> (i < length l)%nat -> length br = depth H fuel l ->
  check_loop H h br (Z.of_nat i) = root H fuel l -> h <> nth i l [] ->
  exists c a, find_collision l i h br = Some (c, a) /\ uncurry H c = uncurry H a /\ c <> a.
Proof.
  revert l i h br. induction fuel as [|fuel IH]; intros l i h br Hf Hi Hb Hc Hn; [lia|].
  destruct l as [|a [|b t]]; [cbn in Hi; lia| |].
  { cbn in Hi, Hb. destruct br; [|discriminate]. replace i with 0%nat in * by lia. now cbn in Hc, Hn. }
  set (l := a :: b :: t) in *. assert (L2 : (2 <= length l)%nat) by (cbn; lia).
  change (root H (S fuel) l) with (root H fuel (pair_up H l)) in Hc.
  change (depth H (S fuel) l) with (S (depth H fuel (pair_up H l))) in Hb.
  destruct br as [|sibling br]; [discriminate|]. injection Hb as Hb.
  pose proof (pair_up_shrinks l L2). pose proof (length_pair_up l) as LP.
  cbn [check_loop] in Hc. rewrite land_1, shiftr_1 in Hc. cbn [find_collision].
  destruct (node_eq_dec _ _) as [E|E].
  - do 2 eexists. split; [reflexivity|]. split; [exact E|]. intros X. now apply claimed_actual in X.
  - apply IH; [dlia|dlia|exact Hb| |].
    + rewrite <- Hc. unfold claimed. now destruct (Nat.even i).
    + intros X. apply E. rewrite X, nth_pair_up by dlia. reflexivity.
Qed.

(** The nodes of a collision have every property that the hashes of the tree, those of the branch and the hashes of two such
    nodes have. *)
Section Nodes.
  Variable P : list Z -> Prop.
  Hypothesis P_hash : forall a b, P a -> P b -> P (H a b).

Lemma pair_up_nodes l : Forall P l -> Forall P (pair_up H l).
Proof.
  induction l as [|a|a b t IH] using list_pair_ind; intros F; cbn [pair_up]; [constructor| |].
  - inversion F; subst. repeat constructor. now apply P_hash.
  - inversion F as [|? ? Pa F']; subst. inversion F' as [|? ? Pb F'']; subst. constructor; [now apply P_hash|now apply IH].
Qed.
Lemma find_collision_nodes br l i h c a :
  (i < length l)%nat -> Forall P l -> P h -> Forall P br -> find_collision l i h br = Some (c, a) ->
  (P (fst c) /\ P (snd c)) /\ P (fst a) /\ P (snd a).
Proof.
  revert l i h. induction br as [|sibling br IH]; intros l i h Hi Hl Hh Hb F; [discriminate|]. cbn [find_collision] in F.
  inversion Hb as [|? ? Ps Hb']; subst. assert (C : P (fst (claimed h sibling i)) /\ P (snd (claimed h sibling i)))
    by (unfold claimed; destruct (Nat.even i); now split).
  assert (N : forall k, (k < length l)%nat -> P (nth k l [])) by (intros k Hk; apply (proj1 (Forall_forall P l) Hl), nth_In; exact Hk).
  destruct (node_eq_dec _ _) as [E|E].
  - injection F as <- <-. split; [exact C|]. unfold actual. cbn [fst snd]. split; apply N; dlia.
  - apply (IH (pair_up H l) (i / 2)%nat (uncurry H (claimed h sibling i)));
      [rewrite length_pair_up; dlia|now apply pair_up_nodes| |exact Hb'|exact F].
    destruct (claimed h sibling i). now apply P_hash.
Qed.
End Nodes.

(** ** Duplicated transactions (CVE-2012-2459) *)

(** Repeating the last leaf of a row of odd length does not change the row above. *)
Lemma pair_up_repeat l a :
  Nat.even (length l) = true -> pair_up H (l ++ [a; a]) = pair_up H (l ++ [a]).
Proof.
  induction l as [|x|x y t IH] using list_pair_ind; [reflexivity|discriminate|].
  intros E. cbn [app pair_up]. now rewrite IH.
Qed.

Lemma root_fuel fuel1 fuel2 l :
  (length l <= fuel1)%nat -> (length l <= fuel2)%nat -> root H fuel1 l = root H fuel2 l.
Proof.
  revert fuel2 l. induction fuel1 as [|f1 IH]; intros f2 l H1 H2.
  - destruct l; [now destruct f2|cbn in H1; lia].
  - destruct l as [|a [|b t]]; [now destruct f2..|]. destruct f2 as [|f2]; [cbn in H2; lia|].
    pose proof (pair_up_shrinks (a :: b :: t) ltac:(cbn; lia)). cbn [root]. apply IH; lia.
Qed.

Lemma merkle_root_repeat l a :
  l <> [] -> Nat.even (length l) = true -> merkle_root H (l ++ [a; a]) = merkle_root H (l ++ [a]).
Proof.
  intros Hl He. unfold merkle_root. destruct l as [|x [|y t]]; [easy|discriminate|].
  rewrite (root_fuel _ (S (length ((x :: y :: t) ++ [a; a]))) ((x :: y :: t) ++ [a; a])) by lia.
  rewrite (root_fuel _ (S (length ((x :: y :: t) ++ [a; a]))) ((x :: y :: t) ++ [a])) by (rewrite !length_app; cbn; lia).
  pose proof (pair_up_repeat (x :: y :: t) a He) as P. cbn [app] in P. cbn [app root]. now rewrite P.
Qed.
End Proofs.
