(* ===== verification/MerkleTheorems.v ===== *)
(** * Theorems on Merkle trees *)

From Stdlib Require Import ZArith List Lia Bool.
From S2P Require Import Prelude SphTypes Uint256 Uint256Proof Uint256Hex Transaction Merkle.
Import ListNotations.

(** For any number of transactions, [BuildMerkleTree] stays inside the vector it extends,
    leaves in it the hashes followed by the rows of the tree, each the pairwise hash of the row
    below with the last hash doubled when the row is odd, and returns the root. *)
Theorem BuildMerkleTree_rows (H : list Z -> list Z -> list Z) (hashes : list (list Z)) :
  BuildMerkleTree H hashes =
  Some (hashes ++ concat (rows H (length hashes) hashes), merkle_root H hashes).
Proof. apply BuildMerkleTree_ok. Qed.

(** C31: the branch of any transaction of the block, from a fresh tree or from the one kept by an
    earlier call, has the depth of the tree, and [CheckMerkleBranch] computes the root from it. *)
Theorem GetMerkleBranch_verifies (H : list Z -> list Z -> list Z) (hashes : list (list Z)) (i : nat) :
  (i < length hashes)%nat ->
  exists tree branch,
    GetMerkleBranch H hashes [] (Z.of_nat i) = Some (tree, branch) /\
    GetMerkleBranch H hashes tree (Z.of_nat i) = Some (tree, branch) /\
    length branch = merkle_depth H hashes /\
    CheckMerkleBranch H (nth i hashes []) branch (Z.of_nat i) = merkle_root H hashes.
Proof.
  intros Hi. destruct (GetMerkleBranch_ok H hashes i Hi) as (tree & G1 & G2).
  exists tree, (branch H (length hashes) hashes i). split; [exact G1|]. split; [exact G2|].
  split; [apply length_branch; lia|]. unfold CheckMerkleBranch. rewrite (proj2 (Z.eqb_neq _ _)) by lia.
  now apply check_branch.
Qed.

Lemma GetMerkleBranch_verifies_witness :
  let H a b := [7; hd 0 a + 2 * hd 0 b] in let hashes := [[1]; [2]; [3]] in
  exists tree branch,
    GetMerkleBranch H hashes [] 2 = Some (tree, branch) /\ branch = [[3]; [7; 5]] /\
    CheckMerkleBranch H [3] branch 2 = merkle_root H hashes.
Proof.
  intros H hashes. destruct (GetMerkleBranch_verifies H hashes 2 ltac:(cbn; lia)) as (tree & br & G & _ & _ & C).
  exists tree, br. split; [exact G|]. split; [|exact C]. cbn in G. now injection G as _ <-.
Defined.

Lemma app_split {A} (a b c d : list A) : length a = length c -> a ++ b = c ++ d -> a = c /\ b = d.
Proof.
  revert c. induction a as [|x a IH]; intros [|y c] L E; cbn in *; try discriminate; [now split|].
  injection L as L. injection E as -> E. destruct (IH c L E) as [-> ->]. now split.
Qed.
(** Different pairs of hashes are hashed from different messages. *)
Lemma node_message p a b a' b' :
  words_ok 8 a -> words_ok 8 b -> words_ok 8 a' -> words_ok 8 b' -> memory p a ++ memory p b = memory p a' ++ memory p b' -> (a, b) = (a', b').
Proof.
  intros Wa Wb Wa' Wb' E. apply app_split in E as [E1 E2].
  - rewrite <- (of_memory_memory 8 p a), <- (of_memory_memory 8 p b), E1, E2 by assumption. now rewrite !of_memory_memory.
  - now rewrite (memory_length 8 p a), (memory_length 8 p a') by (apply Wa || apply Wa').
Qed.

(** C26: a branch of the right length that leads another hash than the one of transaction [i] to the Merkle root contains a
    collision of SHA-256, where the hashes are 256-bit numbers: [find_collision] walks up the two paths and returns two
    pairs of nodes with the same hash whose messages, of 64 bytes, are different; so either these two messages have the
    same digest, or their two digests, which are different messages of 32 bytes, have. *)
Theorem merkle_branch_binding (p : platform) (SHA256 : list Z -> list Z) (hashes : list (list Z)) (i : nat)
    (h : list Z) (branch : list (list Z)) :
  (forall m, length (SHA256 m) = 32%nat /\ bytes (SHA256 m)) ->
  let H := node_hash p SHA256 in
  Forall (words_ok 8) hashes -> words_ok 8 h -> Forall (words_ok 8) branch ->
  (i < length hashes)%nat -> length branch = merkle_depth H hashes -> h <> nth i hashes [] ->
  CheckMerkleBranch H h branch (Z.of_nat i) = merkle_root H hashes ->
  exists a b a' b', find_collision H hashes i h branch = Some ((a, b), (a', b')) /\
    let x := memory p a ++ memory p b in let y := memory p a' ++ memory p b' in
    length x = 64%nat /\ length y = 64%nat /\ x <> y /\
    (SHA256 x = SHA256 y \/ SHA256 x <> SHA256 y /\ SHA256 (SHA256 x) = SHA256 (SHA256 y)).
Proof.
  intros HS H Wl Wh Wb Hi Hl Hn Hc. unfold CheckMerkleBranch in Hc. rewrite (proj2 (Z.eqb_neq _ _)) in Hc by lia.
  destruct (check_binding H (length hashes) hashes i h branch (Nat.le_refl _) Hi Hl Hc Hn)
    as ([a b] & [a' b'] & F & E & N).
  assert (K : forall u v, words_ok 8 u -> words_ok 8 v -> words_ok 8 (H u v)) by (intros u v _ _; apply of_memory_ok; apply HS).
  destruct (find_collision_nodes H (words_ok 8) K branch hashes i h _ _ Hi Wl Wh Wb F) as [[Wa Wb'] [Wc Wd]]. cbn [fst snd] in *.
  exists a, b, a', b'. split; [exact F|]. set (x := memory p a ++ memory p b). set (y := memory p a' ++ memory p b').
  assert (L : forall u v, words_ok 8 u -> words_ok 8 v -> length (memory p u ++ memory p v) = 64%nat)
    by (intros u v [Lu _] [Lv _]; now rewrite length_app, !(memory_length 8) by assumption).
  splits; [now apply L|now apply L| |].
  - intros X. apply N. now apply (node_message p).
  - unfold uncurry, H, node_hash, Hash2 in E. change (memory p a ++ memory p b) with x in E.
    change (memory p a' ++ memory p b') with y in E. apply (f_equal (memory p)) in E.
    rewrite !memory_of_memory in E by apply HS.
    destruct (list_eq_dec Z.eq_dec (SHA256 x) (SHA256 y)); [now left|now right].
Qed.

Lemma merkle_branch_binding_witness :
  let p := Platform SPH_LITTLE_ENDIAN true true in let SHA256 (_ : list Z) := repeat 0 32 in
  let H := node_hash p SHA256 in
  exists a b a' b', find_collision H [repeat 1 8; repeat 2 8] 1 (repeat 9 8) [repeat 1 8] = Some ((a, b), (a', b')) /\
    b = repeat 9 8 /\ memory p a ++ memory p b <> memory p a' ++ memory p b'.
Proof.
  intros p SHA256 H. assert (K : forall v, word 32 v -> words_ok 8 (repeat v 8)) by (intros v V; split; [reflexivity|cbn; repeat (apply Forall_cons; [exact V|]); apply Forall_nil]).
  destruct (merkle_branch_binding p SHA256 [repeat 1 8; repeat 2 8] 1 (repeat 9 8) [repeat 1 8])
    as (a & b & a' & b' & F & _ & _ & N & _).
  - intros m. split; [reflexivity|]. apply wordb_Forall. reflexivity.
  - repeat apply Forall_cons; [| |apply Forall_nil]; apply K; unfold word; lia.
  - apply K; unfold word; lia.
  - repeat apply Forall_cons; [|apply Forall_nil]; apply K; unfold word; lia.
  - cbn. lia.
  - reflexivity.
  - discriminate.
  - reflexivity.
  - exists a, b, a', b'. split; [exact F|]. split; [|exact N]. cbn in F. now injection F as _ <- _ _.
Defined.

(** The root does not determine the transactions (CVE-2012-2459): repeating the last hash of a
    list of odd length does not change it, which is why [CheckBlock] rejects a block in which a
    transaction occurs twice. *)
Theorem merkle_root_duplicate (H : list Z -> list Z -> list Z) (l : list (list Z)) (a : list Z) :
  l <> [] -> Nat.even (length l) = true ->
  exists t t' root, BuildMerkleTree H (l ++ [a]) = Some (t, root) /\
    BuildMerkleTree H (l ++ [a; a]) = Some (t', root) /\ ~ NoDup (l ++ [a; a]).
Proof.
  intros Hl He. do 3 eexists. split; [apply BuildMerkleTree_ok|]. split.
  - rewrite <- (merkle_root_repeat H l a Hl He). apply BuildMerkleTree_ok.
  - intros N. change [a; a] with ([a] ++ [a]) in N. rewrite app_assoc in N. apply NoDup_remove_2 in N.
    apply N. rewrite app_nil_r. apply in_or_app. right. now left.
Qed.

Lemma merkle_root_duplicate_witness :
  let H a b := [7; hd 0 a + 2 * hd 0 b] in
  exists t t' root, BuildMerkleTree H [[1]; [2]; [3]] = Some (t, root) /\
    BuildMerkleTree H [[1]; [2]; [3]; [3]] = Some (t', root) /\ ~ NoDup [[1]; [2]; [3]; [3]].
Proof. intros H. apply (merkle_root_duplicate H [[1]; [2]] [3]); [discriminate|reflexivity]. Defined.
