(* ===== verification/NetBase.v ===== *)
(** * netbase.cpp: network addresses

    The classes [CNetAddr], [CService] and [CSubNet] of src/src/netbase.h: the
    ranges of addresses, the group of an address and subnets.  An address is
    the array [ip] of 16 bytes, in network byte order. *)

From Stdlib Require Import ZArith List Lia Bool.
From S2P Require Import Prelude SphTypes Uint256 Serialize Transaction.
Import ListNotations.

Definition pchIPv4 : list Z := [0; 0; 0; 0; 0; 0; 0; 0; 0; 0; 0xff; 0xff].
Definition pchOnionCat : list Z := [0xFD; 0x87; 0xD8; 0x7E; 0xEB; 0x43].
Definition pchGarliCat : list Z := [0xFD; 0x60; 0xDB; 0x4D; 0xDD; 0xB5].

(** [memcmp (ip + from, pch, sizeof(pch)) == 0] *)
Definition same_bytes (ip : list Z) (from : nat) (pch : list Z) : bool :=
  if list_eq_dec Z.eq_dec (slice ip from (length pch)) pch then true else false.

(** ** CNetAddr *)

Definition CNetAddr_Init : list Z := repeat 0 16.
Definition CNetAddr_of_in_addr (ipv4Addr : list Z) : list Z := pchIPv4 ++ ipv4Addr.

Definition GetByte (ip : list Z) (n : nat) : Z := nth (15 - n) ip 0.

Section Ranges.
  Variable ip : list Z.
Local Abbreviation Byte n := (GetByte ip n).

Definition IsIPv4 : bool := same_bytes ip 0 pchIPv4.
Definition IsTor : bool := same_bytes ip 0 pchOnionCat.
Definition IsI2P : bool := same_bytes ip 0 pchGarliCat.
Definition IsIPv6 : bool := negb IsIPv4 && negb IsTor && negb IsI2P.
Definition IsRFC1918 : bool :=
  IsIPv4 && ((Byte 3 =? 10) || ((Byte 3 =? 192) && (Byte 2 =? 168)) ||
             ((Byte 3 =? 172) && ((16 <=? Byte 2) && (Byte 2 <=? 31)))).
Definition IsRFC3927 : bool := IsIPv4 && ((Byte 3 =? 169) && (Byte 2 =? 254)).
Definition IsRFC3849 : bool :=
  (Byte 15 =? 0x20) && (Byte 14 =? 0x01) && (Byte 13 =? 0x0D) && (Byte 12 =? 0xB8).
Definition IsRFC3964 : bool := (Byte 15 =? 0x20) && (Byte 14 =? 0x02).
Definition pchRFC6052 : list Z := [0; 0x64; 0xFF; 0x9B; 0; 0; 0; 0; 0; 0; 0; 0].
Definition IsRFC6052 : bool := same_bytes ip 0 pchRFC6052.
Definition IsRFC4380 : bool :=
  (Byte 15 =? 0x20) && (Byte 14 =? 0x01) && (Byte 13 =? 0) && (Byte 12 =? 0).
Definition pchRFC4862 : list Z := [0xFE; 0x80; 0; 0; 0; 0; 0; 0].
Definition IsRFC4862 : bool := same_bytes ip 0 pchRFC4862.
Definition IsRFC4193 : bool := Byte 15 .& 0xFE =? 0xFC.
Definition pchRFC6145 : list Z := [0; 0; 0; 0; 0; 0; 0; 0; 0xFF; 0xFF; 0; 0].
Definition IsRFC6145 : bool := same_bytes ip 0 pchRFC6145.
Definition IsRFC4843 : bool :=
  (Byte 15 =? 0x20) && (Byte 14 =? 0x01) && (Byte 13 =? 0x00) && (Byte 12 .& 0xF0 =? 0x10).
Definition pchLocal : list Z := repeat 0 15 ++ [1].
Definition IsLocal : bool :=
  (IsIPv4 && ((Byte 3 =? 127) || (Byte 3 =? 0))) || same_bytes ip 0 pchLocal.
Definition IsMulticast : bool := (IsIPv4 && (Byte 3 .& 0xF0 =? 0xE0)) || (Byte 15 =? 0xFF).

(** [INADDR_NONE] has four bytes 0xff. *)
Definition IsValid : bool :=
  if same_bytes ip 0 (skipn 3 pchIPv4) then false
  else if same_bytes ip 0 (repeat 0 16) then false
  else if IsRFC3849 then false
  else if IsIPv4 then
    if same_bytes ip 12 (repeat 0xff 4) then false
    else if same_bytes ip 12 (repeat 0 4) then false
    else true
  else true.

Definition IsRoutable : bool :=
  IsValid && negb (IsRFC1918 || IsRFC3927 || IsRFC4862 ||
                   (IsRFC4193 && negb IsTor && negb IsI2P) || IsRFC4843 || IsLocal).
End Ranges.

Inductive Network := NET_UNROUTABLE | NET_IPV4 | NET_IPV6 | NET_TOR | NET_I2P | NET_MAX.
Definition Network_int (n : Network) : Z :=
  match n with
  | NET_UNROUTABLE => 0 | NET_IPV4 => 1 | NET_IPV6 => 2 | NET_TOR => 3 | NET_I2P => 4 | NET_MAX => 5
  end.

Definition GetNetwork (ip : list Z) : Network :=
  if negb (IsRoutable ip) then NET_UNROUTABLE
  else if IsIPv4 ip then NET_IPV4
  else if IsTor ip then NET_TOR
  else if IsI2P ip then NET_I2P
  else NET_IPV6.

(** [operator==] and [operator<] compare the arrays. *)
Definition CNetAddr_equal (a b : list Z) : bool := if list_eq_dec Z.eq_dec a b then true else false.
Definition CNetAddr_less (a b : list Z) : bool := memcmp_less 16 a b.

Definition GetInAddr (ip : list Z) : option (list Z) :=
  if negb (IsIPv4 ip) then None else Some (slice ip 12 4).

(** [while (nBits >= 8)], and the byte of the other bits. *)
Fixpoint group_bytes (fuel : nat) (ip : list Z) (nStartByte nBits : nat) : list Z :=
  match fuel with
  | O => []
  | S fuel' =>
      if (8 <=? nBits)%nat
      then GetByte ip (15 - nStartByte) :: group_bytes fuel' ip (S nStartByte) (nBits - 8)
      else if (0 <? nBits)%nat
      then [GetByte ip (15 - nStartByte) .| ((1 << Z.of_nat nBits) - 1)]
      else []
  end.

Definition GetGroup (ip : list Z) : list Z :=
  let nClass := Network_int NET_IPV6 in
  let nStartByte := 0%nat in
  let nBits := 16%nat in
  let '(nClass, nBits) := if IsLocal ip then (255, 0%nat) else (nClass, nBits) in
  let push nClass nStartByte nBits := nClass :: group_bytes (S nBits) ip nStartByte nBits in
  if negb (IsRoutable ip) then push (Network_int NET_UNROUTABLE) nStartByte 0%nat
  else if IsIPv4 ip || IsRFC6145 ip || IsRFC6052 ip then push (Network_int NET_IPV4) 12%nat nBits
  else if IsRFC3964 ip then push (Network_int NET_IPV4) 2%nat nBits
  else if IsRFC4380 ip then
    [Network_int NET_IPV4; GetByte ip 3 .^ 0xFF; GetByte ip 2 .^ 0xFF]
  else if IsTor ip then push (Network_int NET_TOR) 6%nat 4%nat
  else if IsI2P ip then push (Network_int NET_I2P) 6%nat 4%nat
  else if (GetByte ip 15 =? 0x20) && (GetByte ip 14 =? 0x11) && (GetByte ip 13 =? 0x04) &&
          (GetByte ip 12 =? 0x70)
  then push nClass nStartByte 36%nat
  else push nClass nStartByte 32%nat.

(** ** Reachability *)

Definition NET_UNKNOWN : Z := Network_int NET_MAX + 0.
Definition NET_TEREDO : Z := Network_int NET_MAX + 1.
Definition GetExtNetwork (addr : option (list Z)) : Z :=
  match addr with
  | None => NET_UNKNOWN
  | Some ip => if IsRFC4380 ip then NET_TEREDO else Network_int (GetNetwork ip)
  end.

Inductive Reachability :=
| REACH_UNREACHABLE | REACH_DEFAULT | REACH_TEREDO | REACH_IPV6_WEAK | REACH_IPV4 | REACH_IPV6_STRONG
| REACH_PRIVATE.

Definition GetReachabilityFrom (ip : list Z) (paddrPartner : option (list Z)) : Reachability :=
  if negb (IsRoutable ip) then REACH_UNREACHABLE
  else
    let ourNet := GetExtNetwork (Some ip) in
    let theirNet := GetExtNetwork paddrPartner in
    let fTunnel := IsRFC3964 ip || IsRFC6052 ip || IsRFC6145 ip in
    let eqn n net := Network_int net =? n in
    if eqn theirNet NET_IPV4 then
      if eqn ourNet NET_IPV4 then REACH_IPV4 else REACH_DEFAULT
    else if eqn theirNet NET_IPV6 then
      if ourNet =? NET_TEREDO then REACH_TEREDO
      else if eqn ourNet NET_IPV4 then REACH_IPV4
      else if eqn ourNet NET_IPV6 then (if fTunnel then REACH_IPV6_WEAK else REACH_IPV6_STRONG)
      else REACH_DEFAULT
    else if eqn theirNet NET_TOR then
      if eqn ourNet NET_IPV4 then REACH_IPV4
      else if eqn ourNet NET_TOR then REACH_PRIVATE
      else REACH_DEFAULT
    else if eqn theirNet NET_I2P then
      if eqn ourNet NET_I2P then REACH_PRIVATE else REACH_DEFAULT
    else if theirNet =? NET_TEREDO then
      if ourNet =? NET_TEREDO then REACH_TEREDO
      else if eqn ourNet NET_IPV6 then REACH_IPV6_WEAK
      else if eqn ourNet NET_IPV4 then REACH_IPV4
      else REACH_DEFAULT
    else
      if ourNet =? NET_TEREDO then REACH_TEREDO
      else if eqn ourNet NET_IPV6 then REACH_IPV6_WEAK
      else if eqn ourNet NET_IPV4 then REACH_IPV4
      else if eqn ourNet NET_I2P then REACH_PRIVATE
      else if eqn ourNet NET_TOR then REACH_PRIVATE
      else REACH_DEFAULT.

(** ** CService and CAddress *)

Record CService := Service { ip : list Z; port : Z }.

Definition CService_equal (a b : CService) : bool :=
  CNetAddr_equal (ip a) (ip b) && (port a =? port b).
Definition CService_less (a b : CService) : bool :=
  CNetAddr_less (ip a) (ip b) || (CNetAddr_equal (ip a) (ip b) && (port a <? port b)).

Definition GetKey (a : CService) : list Z := ip a ++ [port a / 0x100; port a .& 0x0FF].

Record CAddress := Address { service : CService; nServices : Z; nTime : Z; nLastTry : Z }.

(** ** CSubNet *)

Record CSubNet := SubNet { network : list Z; netmask : list Z; valid_ : bool }.

(** [for (; n < 128; ++n) netmask[n >> 3] &= ~(1 << (7 - (n & 7)))] *)
Fixpoint clear_bits (fuel : nat) (n : Z) (netmask : list Z) : list Z :=
  match fuel with
  | O => netmask
  | S fuel' =>
      if n <? 128 then
        let i := Z.to_nat (n >> 3) in
        clear_bits fuel' (n + 1) (upd netmask i (Z.ldiff (nth i netmask 0) (1 << (7 - (n .& 7)))))
      else netmask
  end.

(** What follows the slash: nothing, a number [ParseInt32] accepts, the address another text
    stands for, or another text. *)
Inductive mask_text :=
| no_mask | prefix_length (n : Z) | full_mask (ip : list Z) | bad_mask.

(** [CSubNet(strSubnet)] from the result of looking up the address. *)
Definition CSubNet_of (lookup : option (list Z)) (mask : mask_text) : CSubNet :=
  let ones := repeat 255 16 in
  let '(network, netmask, valid) :=
    match lookup with
    | None => (CNetAddr_Init, ones, false)
    | Some network =>
        let astartofs := if IsIPv4 network then 12%nat else 0%nat in
        match mask with
        | no_mask => (network, ones, true)
        | prefix_length n =>
            if (0 <=? n) && (n <=? 128 - Z.of_nat astartofs * 8)
            then (network, clear_bits 128 (n + Z.of_nat astartofs * 8) ones, true)
            else (network, ones, false)
        | full_mask ip => (network, firstn astartofs ones ++ skipn astartofs ip, true)
        | bad_mask => (network, ones, false)
        end
    end in
  SubNet (map (fun x => fst x .& snd x) (combine network netmask)) netmask valid.

Definition CSubNet_of_addr (addr : list Z) : CSubNet := SubNet addr (repeat 255 16) (IsValid addr).

Definition Match (s : CSubNet) (addr : list Z) : bool :=
  if negb (valid_ s) || negb (IsValid addr) then false
  else forallb (fun x => Z.land (nth x addr 0) (nth x (netmask s) 0) =? nth x (network s) 0) (seq 0 16).
