(* ===== verification/NetBaseProof.v ===== *)
(** * Addresses as 128-bit numbers

    The bytes an address is tested and grouped by are bits of the number it
    stands for. *)

From Stdlib Require Import ZArith List Lia Bool.
From S2P Require Import Prelude SphTypes Uint256 Uint256Proof Serialize Transaction NetBase.
Import ListNotations.

Definition netaddr_ok (ip : list Z) : Prop := length ip = 16%nat /\ bytes ip.

(** The number, and the [n] bits of it that follow the [from] most significant ones. *)
Definition address (ip : list Z) : Z := be_load 16 ip.
Definition address_bits (ip : list Z) (from n : Z) : Z := (address ip >> (128 - from - n)) mod 2 ^ n.

Lemma address_bits_testbit ip from n k :
  netaddr_ok ip -> 0 <= from -> 0 <= n -> from + n <= 128 -> 0 <= k ->
  Z.testbit (address_bits ip from n) k =
  (k <? n) && Z.testbit (nth (Z.to_nat ((from + n - 1 - k) / 8)) ip 0) ((128 - from - n + k) mod 8).
Proof.
  intros [L B] Hf Hn Hs Hk. unfold address_bits. rewrite <- Z.land_ones by lia.
  rewrite Z.land_spec, ones_testbit, Z.shiftr_spec, andb_comm by lia. destruct (Z.ltb_spec k n); [|reflexivity].
  cbn [andb]. unfold address. rewrite be_load_testbit by (assumption || lia).
  replace (k + (128 - from - n)) with (128 - from - n + k) by lia.
  do 2 f_equal. apply Nat2Z.inj. dlia.
Qed.

Lemma bits_slice ip (o k : nat) :
  netaddr_ok ip -> (o + k <= 16)%nat ->
  address_bits ip (8 * Z.of_nat o) (8 * Z.of_nat k) = be_load k (slice ip o k).
Proof.
  intros H Hk. assert (S : length (slice ip o k) = k) by (apply length_slice; destruct H; lia).
  assert (B : bytes (slice ip o k)) by (apply Forall_slice, H).
  apply Z.bits_inj'. intros i Hi. rewrite address_bits_testbit by (assumption || lia).
  destruct (Z.ltb_spec i (8 * Z.of_nat k)).
  - rewrite be_load_testbit by (assumption || lia).
    rewrite nth_slice by dlia. cbn [andb]. f_equal; [f_equal|]; dlia.
  - rewrite (word_testbit_high (8 * Z.of_nat k) (be_load _ _)) by (lia || now apply be_load_word). reflexivity.
Qed.

Lemma bits_nibble ip (o : nat) :
  netaddr_ok ip -> (o < 16)%nat -> address_bits ip (8 * Z.of_nat o) 4 = nth o ip 0 >> 4.
Proof.
  intros H Ho. apply Z.bits_inj'. intros i Hi. rewrite address_bits_testbit, Z.shiftr_spec by (assumption || lia).
  destruct (Z.ltb_spec i 4).
  - cbn [andb]. f_equal; [f_equal|]; dlia.
  - symmetry. apply (word_testbit_high 8); [lia|apply Forall_nth'; [apply H|apply word_0; lia]|lia].
Qed.

(** Numbers of the same bytes, and nibbles padded with ones. *)
Lemma be_load_inj k a b :
  bytes a -> bytes b -> length a = k -> length b = k -> be_load k a = be_load k b -> a = b.
Proof.
  intros Ba Bb La Lb E. unfold be_load in E. rewrite !firstn_all2 in E by lia.
  apply (f_equal (le_store k)) in E. rewrite !le_store_load in E by (rewrite ?length_rev; assumption || now apply Forall_rev).
  rewrite <- (rev_involutive a), <- (rev_involutive b). now f_equal.
Qed.

Lemma nibble_inj x y : x .| 15 = y .| 15 <-> x >> 4 = y >> 4.
Proof.
  split; intros E; apply Z.bits_inj'; intros i Hi.
  - apply (f_equal (fun z => Z.testbit z (i + 4))) in E. rewrite !Z.lor_spec in E. rewrite !Z.shiftr_spec by lia.
    change 15 with (Z.ones 4) in E. rewrite ones_testbit, (proj2 (Z.ltb_ge _ _)), !orb_false_r in E by lia. exact E.
  - change 15 with (Z.ones 4). rewrite !Z.lor_spec, ones_testbit by lia. destruct (Z.ltb_spec i 4).
    + now rewrite !orb_true_r.
    + rewrite !orb_false_r. apply (f_equal (fun z => Z.testbit z (i - 4))) in E.
      rewrite !Z.shiftr_spec in E by lia. now replace (i - 4 + 4) with i in E by lia.
Qed.

(** ** Groups *)

(** The network of a routable address, and the range of bits that its group is. *)
Inductive group_kind := ipv4_mapped | ipv4_6to4 | ipv4_teredo | onion | garlic | he_net | ipv6_other.

Definition kind (ip : list Z) : group_kind :=
  if IsIPv4 ip || IsRFC6145 ip || IsRFC6052 ip then ipv4_mapped
  else if IsRFC3964 ip then ipv4_6to4
  else if IsRFC4380 ip then ipv4_teredo
  else if IsTor ip then onion
  else if IsI2P ip then garlic
  else if address_bits ip 0 32 =? 0x20110470 then he_net
  else ipv6_other.

(** The class and the number of bits of a group, and its bits: the 16 leading bits of the IPv4
    address embedded in an address, 4 bits of a hidden service, 36 or 32 bits of the others. *)
Definition group_key (ip : list Z) : Z * Z * Z :=
  match kind ip with
  | ipv4_mapped => (1, 16, address_bits ip 96 16)
  | ipv4_6to4 => (1, 16, address_bits ip 16 16)
  | ipv4_teredo => (1, 16, 0xFFFF - address_bits ip 96 16)
  | onion => (3, 4, address_bits ip 48 4)
  | garlic => (4, 4, address_bits ip 48 4)
  | he_net => (2, 36, address_bits ip 0 36)
  | ipv6_other => (2, 32, address_bits ip 0 32)
  end.

(** The bytes of a group, from its key. *)
Definition group_of_key (k : Z * Z * Z) : list Z :=
  let '(c, n, v) := k in
  if n =? 4 then [c; (v << 4) .| 15]
  else if n =? 36 then c :: be_store 4 (v >> 4) ++ [trunc 8 (v << 4) .| 15]
  else c :: be_store (Z.to_nat (n / 8)) v.

Lemma pad_nibble b : word 8 b -> ((b >> 4) << 4) .| 15 = b .| 15.
Proof.
  intros Hb. apply nibble_inj. rewrite Z.shiftr_shiftl_l by lia. change (4 - 4) with 0. apply Z.shiftl_0_r.
Qed.

Lemma be_store_bits ip o k :
  netaddr_ok ip -> (o + k <= 16)%nat ->
  be_store k (address_bits ip (8 * Z.of_nat o) (8 * Z.of_nat k)) = slice ip o k.
Proof.
  intros H Hk. assert (S : length (slice ip o k) = k) by (apply length_slice; destruct H; lia).
  assert (B : bytes (slice ip o k)) by (apply Forall_slice, H).
  rewrite bits_slice by assumption. unfold be_store, be_load.
  rewrite firstn_all2, le_store_load by (rewrite ?length_rev; lia || now apply Forall_rev). apply rev_involutive.
Qed.

Lemma group_bytes_slice ip o k fuel :
  (length ip = 16)%nat -> (o + k <= 16)%nat -> (k < fuel)%nat -> group_bytes fuel ip o (8 * k) = slice ip o k.
Proof.
  intros L. revert o fuel. induction k as [|k IH]; intros o fuel Hk Hf; (destruct fuel as [|fuel]; [lia|]); cbn [group_bytes].
  - reflexivity.
  - rewrite (proj2 (Nat.leb_le _ _)) by lia. replace (8 * S k - 8)%nat with (8 * k)%nat by lia. rewrite IH by lia.
    unfold slice, GetByte. replace (15 - (15 - o))%nat with o by lia.
    destruct (skipn o ip) as [|x t] eqn:E; [apply (f_equal (@length _)) in E; rewrite length_skipn in E; cbn in E; lia|].
    cbn [firstn]. pose proof (nth_skipn' ip o 0 0) as N. rewrite E, Nat.add_0_r in N. cbn [nth] in N. rewrite N.
    f_equal. replace (skipn (S o) ip) with t; [reflexivity|].
    replace (S o) with (1 + o)%nat by lia. rewrite <- skipn_skipn, E. reflexivity.
Qed.

Lemma load2 a b : word 8 a -> word 8 b -> be_load 2 [a; b] = a * 256 + b.
Proof.
  intros Ha Hb. unfold be_load. cbn [firstn rev app le_load]. change (Z.shiftl 0 8) with 0. rewrite Z.lor_0_r.
  assert (E : Z.land b (Z.shiftl a 8) = 0).
  { apply Z.bits_inj'. intros i Hi. rewrite Z.land_spec, shiftl_testbit, Z.testbit_0_l by lia.
    destruct (Z.leb_spec 8 i); [rewrite (word_testbit_high 8 b) by (assumption || lia); reflexivity|apply andb_false_r]. }
  pose proof (Z.add_lor_land b (Z.shiftl a 8)) as P. rewrite E, Z.shiftl_mul_pow2 in P by lia.
  rewrite Z.shiftl_mul_pow2 by lia. change (2 ^ 8) with 256 in *. lia.
Qed.

Lemma be_store_load_id k l : bytes l -> length l = k -> be_store k (be_load k l) = l.
Proof.
  intros B L. unfold be_store, be_load.
  rewrite firstn_all2, le_store_load by (rewrite ?length_rev; lia || now apply Forall_rev). apply rev_involutive.
Qed.

Lemma byte_nth ip n : netaddr_ok ip -> word 8 (nth n ip 0).
Proof. intros H. apply Forall_nth'; [apply H|apply word_0; lia]. Qed.

Lemma xor_ff b : word 8 b -> word 8 (b .^ 0xFF) /\ b .^ 0xFF = 0xFF - b.
Proof.
  intros Hb. change (b .^ 0xFF) with (wnot 8 b). split; [apply wnot_word; [lia|assumption]|].
  rewrite wnot_value by (lia || assumption). reflexivity.
Qed.

Lemma he_net_bits ip :
  netaddr_ok ip ->
  (GetByte ip 15 =? 0x20) && (GetByte ip 14 =? 0x11) && (GetByte ip 13 =? 0x04) && (GetByte ip 12 =? 0x70) =
  (address_bits ip 0 32 =? 0x20110470).
Proof.
  intros H. change 0x20110470 with (be_load 4 [0x20; 0x11; 0x04; 0x70]).
  pose proof (bits_slice ip 0 4 H ltac:(lia)) as E. change (8 * Z.of_nat 0) with 0 in E.
  change (8 * Z.of_nat 4) with 32 in E. rewrite E. clear E.
  destruct H as [L B]. expose_list ip 16. cbn [slice skipn firstn GetByte Nat.sub nth].
  inversion_clear B as [|? ? B1 B']. inversion_clear B' as [|? ? B2 B]. inversion_clear B as [|? ? B3 B'].
  inversion_clear B' as [|? ? B4 B]. clear B L.
  apply eq_true_iff_eq. rewrite !andb_true_iff, !Z.eqb_eq. split.
  - intros (((-> & ->) & ->) & ->). reflexivity.
  - intros E. apply be_load_inj in E; [now injection E|repeat (apply Forall_cons; [assumption|]); apply Forall_nil| |reflexivity..].
    apply wordb_Forall. reflexivity.
Qed.

(** [GetGroup] is the key, written in bytes. *)
Lemma GetGroup_key ip :
  netaddr_ok ip -> IsRoutable ip = true -> GetGroup ip = group_of_key (group_key ip).
Proof.
  intros H R. pose proof (proj1 H) as L. unfold GetGroup, group_key, kind. rewrite R, he_net_bits by assumption. cbn [negb].
  destruct (IsLocal ip) eqn:Lo.
  { unfold IsRoutable in R. now rewrite Lo, orb_true_r, andb_false_r in R. }
  assert (S2 : forall o c, (o + 2 <= 16)%nat -> c :: group_bytes 17 ip o 16 = group_of_key (c, 16, address_bits ip (8 * Z.of_nat o) 16)).
  { intros o c Ho. rewrite (group_bytes_slice ip o 2) by (assumption || lia).
    unfold group_of_key. cbn [Z.eqb Pos.eqb]. f_equal. symmetry. now apply (be_store_bits ip o 2). }
  assert (S4 : forall c, c :: group_bytes 5 ip 6 4 = group_of_key (c, 4, address_bits ip 48 4)).
  { intros c. unfold group_of_key. cbn [Z.eqb Pos.eqb]. pose proof (bits_nibble ip 6 H ltac:(lia)) as N.
    change (8 * Z.of_nat 6) with 48 in N. rewrite N.
    rewrite pad_nibble by now apply byte_nth. reflexivity. }
  destruct (IsIPv4 ip || IsRFC6145 ip || IsRFC6052 ip); [apply (S2 12%nat); lia|].
  destruct (IsRFC3964 ip); [apply (S2 2%nat); lia|].
  destruct (IsRFC4380 ip).
  { unfold group_of_key. cbn [Z.eqb Pos.eqb]. change (Z.to_nat (16 / 8)) with 2%nat. f_equal.
    pose proof (bits_slice ip 12 2 H ltac:(lia)) as S. change (8 * Z.of_nat 12) with 96 in S.
    change (8 * Z.of_nat 2) with 16 in S. rewrite S.
    assert (E : slice ip 12 2 = [GetByte ip 3; GetByte ip 2]) by (expose_list ip 16; reflexivity).
    destruct (xor_ff (GetByte ip 3) (byte_nth ip _ H)) as [W3 E3], (xor_ff (GetByte ip 2) (byte_nth ip _ H)) as [W2 E2].
    rewrite E, load2 by (now apply byte_nth).
    rewrite <- (be_store_load_id 2 [_; _]) by (reflexivity || (apply Forall_cons; [exact W3|apply Forall_cons; [exact W2|apply Forall_nil]])).
    rewrite load2 by assumption. f_equal. rewrite E3, E2. ring. }
  destruct (IsTor ip); [apply S4|]. destruct (IsI2P ip); [apply S4|].
  destruct (address_bits ip 0 32 =? 0x20110470); unfold group_of_key; cbn [Z.eqb Pos.eqb].
  - assert (E : address_bits ip 0 36 >> 4 = address_bits ip 0 32).
    { apply Z.bits_inj'. intros i Hi. rewrite Z.shiftr_spec, !address_bits_testbit by (assumption || lia).
      replace (i + 4 <? 36) with (i <? 32) by (destruct (Z.ltb_spec i 32), (Z.ltb_spec (i + 4) 36); lia).
      destruct (i <? 32); [|reflexivity]. cbn [andb]. repeat first [lia | f_equal]. }
    rewrite E. pose proof (be_store_bits ip 0 4 H ltac:(lia)) as S. change (8 * Z.of_nat 0) with 0 in S.
    change (8 * Z.of_nat 4) with 32 in S. rewrite S.
    assert (T : trunc 8 (address_bits ip 0 36 << 4) .| 15 = nth 4 ip 0 .| 15).
    { apply nibble_inj. pose proof (bits_nibble ip 4 H ltac:(lia)) as N. change (8 * Z.of_nat 4) with 32 in N. rewrite <- N.
      apply Z.bits_inj'. intros i Hi. rewrite Z.shiftr_spec, trunc_testbit, shiftl_testbit, !address_bits_testbit by (assumption || lia).
      replace (i + 4 - 4) with i by lia. rewrite (proj2 (Z.leb_le 4 (i + 4))) by lia.
      replace (i + 4 <? 8) with (i <? 4) by (destruct (Z.ltb_spec i 4), (Z.ltb_spec (i + 4) 8); lia).
      destruct (Z.ltb_spec i 4); [|reflexivity]. rewrite (proj2 (Z.ltb_lt i 36)) by lia. cbn [andb]. repeat first [lia | f_equal]. }
    rewrite T. expose_list ip 16. reflexivity.
  - pose proof (be_store_bits ip 0 4 H ltac:(lia)) as S. change (8 * Z.of_nat 0) with 0 in S.
    change (8 * Z.of_nat 4) with 32 in S. change (Z.to_nat (32 / 8)) with 4%nat. rewrite S.
    expose_list ip 16. reflexivity.
Qed.

Definition key_ok (k : Z * Z * Z) : Prop :=
  let '(c, n, v) := k in
  In (c, n) [(1, 16); (3, 4); (4, 4); (2, 36); (2, 32)] /\ 0 <= v < 2 ^ n.

Lemma address_bits_range ip from n : 0 <= n -> 0 <= address_bits ip from n < 2 ^ n.
Proof. intros Hn. apply Z.mod_pos_bound. now apply Z.pow_pos_nonneg. Qed.

Lemma group_key_ok ip : key_ok (group_key ip).
Proof.
  assert (B : forall f n, 0 <= n -> 0 <= address_bits ip f n < 2 ^ n) by (intros; now apply address_bits_range).
  unfold group_key. destruct (kind ip); (split; [cbn; tauto|try (apply B; lia)]).
  pose proof (B 96 16 ltac:(lia)). change (2 ^ 16) with 65536 in *. lia.
Qed.

Lemma be_store_inj k v w :
  word (8 * Z.of_nat k) v -> word (8 * Z.of_nat k) w -> be_store k v = be_store k w -> v = w.
Proof. intros Hv Hw E. now rewrite <- (be_load_store k v), <- (be_load_store k w), E. Qed.

Lemma group_of_key_inj k k' : key_ok k -> key_ok k' -> group_of_key k = group_of_key k' -> k = k'.
Proof.
  assert (N : forall v w, (v << 4) .| 15 = (w << 4) .| 15 -> v = w).
  { intros v w E. apply nibble_inj in E. rewrite !Z.shiftr_shiftl_l in E by lia. change (4 - 4) with 0 in E.
    now rewrite !Z.shiftl_0_r in E. }
  assert (S : forall k v, length (be_store k v) = k) by apply length_be_store.
  destruct k as [[c n] v], k' as [[c' n'] v']. intros [K V] [K' V'] E.
  assert (L : forall c n v, In (c, n) [(1, 16); (3, 4); (4, 4); (2, 36); (2, 32)] ->
    hd 0 (group_of_key (c, n, v)) = c /\ Z.of_nat (length (group_of_key (c, n, v))) = 1 + (n + 7) / 8).
  { intros c0 n0 v0 K0. unfold group_of_key. cbn [In] in K0.
    repeat (destruct K0 as [[= <- <-]|K0]; [cbn [Z.eqb Pos.eqb hd length]; rewrite ?length_app, ?S; now split|]). contradiction. }
  destruct (L c n v K) as [H1 L1], (L c' n' v' K') as [H2 L2]. rewrite E in H1, L1.
  assert (c = c') as -> by congruence. assert (n = n') as ->.
  { clear - K K' L1 L2. rewrite L1 in L2. cbn [In] in K, K'.
    repeat (destruct K as [[= <- <-]|K]); try contradiction;
      repeat (destruct K' as [[= <-]|K']); try contradiction; try reflexivity; cbn in L2; lia. }
  f_equal. clear K' L1 L2 H1 H2 L. unfold group_of_key in E. cbn [In] in K.
  repeat (destruct K as [[= <- <-]|K]); try contradiction; cbn [Z.eqb Pos.eqb] in E; apply (f_equal (@tl Z)) in E; cbn [tl] in E;
    revert E; repeat (change (Z.to_nat (16 / 8)) with 2%nat || change (Z.to_nat (32 / 8)) with 4%nat).
  - intros E1. now apply (be_store_inj 2).
  - intros E1. apply N. congruence.
  - intros E1. apply N. congruence.
  - intros E1. apply app_inj_tail in E1 as [E1 E2].
    apply (be_store_inj 4) in E1; [|unfold word; rewrite Z.shiftr_div_pow2 by lia; change (8 * Z.of_nat 4) with 32;
      change (2 ^ 4) with 16; change (2 ^ 36) with (16 * 2 ^ 32) in *; split; [apply Z.div_pos|apply Z.div_lt_upper_bound]; lia..].
    apply Z.bits_inj'. intros i Hi. destruct (Z.ltb_spec i 4).
    + apply nibble_inj in E2. apply (f_equal (fun z => Z.testbit z i)) in E2.
      rewrite !Z.shiftr_spec, !trunc_testbit, !shiftl_testbit in E2 by lia.
      rewrite (proj2 (Z.leb_le 4 (i + 4))), (proj2 (Z.ltb_lt (i + 4) 8)) in E2 by lia. cbn [andb] in E2.
      rewrite ?andb_true_r in E2. now replace (i + 4 - 4) with i in E2 by lia.
    + apply (f_equal (fun z => Z.testbit z (i - 4))) in E1. rewrite !Z.shiftr_spec in E1 by lia.
      now replace (i - 4 + 4) with i in E1 by lia.
  - intros E1. now apply (be_store_inj 4).
Qed.

(** ** Subnets *)

Lemma clear_bits_ok fuel n m :
  0 <= n -> 128 - n <= Z.of_nat fuel -> length m = 16%nat ->
  length (clear_bits fuel n m) = 16%nat /\
  forall x k, (x < 16)%nat -> 0 <= k < 8 ->
  Z.testbit (nth x (clear_bits fuel n m) 0) k =
  Z.testbit (nth x m 0) k && (8 * Z.of_nat x + (7 - k) <? n).
Proof.
  revert n m. induction fuel as [|fuel IH]; intros n m Hn Hf L.
  - split; [assumption|]. intros x k Hx Hk. cbn [clear_bits]. now rewrite (proj2 (Z.ltb_lt _ _)), andb_true_r by lia.
  - cbn [clear_bits]. destruct (Z.ltb_spec n 128).
    + cbv zeta. rewrite Z.shiftr_div_pow2 by lia. change (2 ^ 3) with 8.
      replace (n .& 7) with (n mod 8) by (symmetry; apply (Z.land_ones n 3); lia).
      match goal with |- context [clear_bits fuel (n + 1) ?m'] => set (m1 := m') end.
      destruct (IH (n + 1) m1 ltac:(lia) ltac:(lia) ltac:(subst m1; now rewrite length_upd)) as [L' B].
      split; [exact L'|]. intros x k Hx Hk. rewrite B by assumption. subst m1. rewrite nth_upd by dlia.
      destruct (Nat.eqb_spec x (Z.to_nat (n / 8))) as [->|Ne].
      * rewrite Z.ldiff_spec, Z.shiftl_1_l, Z.pow2_bits_eqb by dlia.
        destruct (Z.eqb_spec (7 - n mod 8) k).
        -- rewrite (proj2 (Z.ltb_ge _ n)) by dlia. now rewrite !andb_false_r.
        -- rewrite andb_true_r. f_equal. destruct (Z.ltb_spec (8 * Z.of_nat (Z.to_nat (n / 8)) + (7 - k)) n),
             (Z.ltb_spec (8 * Z.of_nat (Z.to_nat (n / 8)) + (7 - k)) (n + 1)); dlia.
      * f_equal. destruct (Z.ltb_spec (8 * Z.of_nat x + (7 - k)) n), (Z.ltb_spec (8 * Z.of_nat x + (7 - k)) (n + 1)); dlia.
    + split; [assumption|]. intros x k Hx Hk. now rewrite (proj2 (Z.ltb_lt _ n)), andb_true_r by lia.
Qed.

(** The address agrees with the network under a mask: on the bits the mask has. *)
Lemma masked_equal (a b m : list Z) (N : Z) :
  netaddr_ok a -> netaddr_ok b -> length m = 16%nat -> 0 <= N <= 128 ->
  (forall x k, (x < 16)%nat -> 0 <= k < 8 -> Z.testbit (nth x m 0) k = (8 * Z.of_nat x + (7 - k) <? N)) ->
  (forall x, (x < 16)%nat -> Z.land (nth x a 0) (nth x m 0) = Z.land (nth x b 0) (nth x m 0)) <->
  address_bits a 0 N = address_bits b 0 N.
Proof.
  intros Ha Hb Lm HN Hm. split; intros E.
  - apply Z.bits_inj'. intros i Hi. rewrite !address_bits_testbit by (assumption || lia).
    destruct (Z.ltb_spec i N); [|reflexivity]. cbn [andb]. rewrite Z.add_0_l.
    set (x := Z.to_nat ((N - 1 - i) / 8)). set (k := (128 - 0 - N + i) mod 8).
    assert (Hx : (x < 16)%nat) by (subst x; dlia). assert (Hk : 0 <= k < 8) by (subst k; dlia).
    specialize (E x Hx). apply (f_equal (fun z => Z.testbit z k)) in E. rewrite !Z.land_spec, Hm in E by assumption.
    rewrite (proj2 (Z.ltb_lt _ N)), !andb_true_r in E by (subst x k; dlia). exact E.
  - intros x Hx. apply Z.bits_inj'. intros k Hk. rewrite !Z.land_spec.
    destruct (Z.ltb_spec k 8) as [K|K].
    2:{ rewrite (word_testbit_high 8 (nth x a 0)), (word_testbit_high 8 (nth x b 0)) by (lia || now apply byte_nth). reflexivity. }
    rewrite Hm by lia. destruct (Z.ltb_spec (8 * Z.of_nat x + (7 - k)) N) as [C|C]; [|now rewrite !andb_false_r].
    rewrite !andb_true_r. apply (f_equal (fun z => Z.testbit z (N - 1 - (8 * Z.of_nat x + (7 - k))))) in E.
    rewrite !address_bits_testbit in E by (assumption || lia). rewrite (proj2 (Z.ltb_lt _ N)) in E by lia. cbn [andb] in E.
    replace (Z.to_nat ((0 + N - 1 - (N - 1 - (8 * Z.of_nat x + (7 - k)))) / 8)) with x in E by dlia.
    now replace ((128 - 0 - N + (N - 1 - (8 * Z.of_nat x + (7 - k)))) mod 8) with k in E by dlia.
Qed.

Lemma nth_masked (a m : list Z) x :
  length a = 16%nat -> length m = 16%nat -> (x < 16)%nat ->
  nth x (map (fun y => Z.land (fst y) (snd y)) (combine a m)) 0 = Z.land (nth x a 0) (nth x m 0).
Proof.
  intros La Lm Hx. change 0 with ((fun y => Z.land (fst y) (snd y)) (0, 0)) at 1.
  rewrite map_nth, combine_nth by lia. reflexivity.
Qed.

Lemma Match_ok network mask addr N valid :
  netaddr_ok network -> netaddr_ok addr -> length mask = 16%nat -> 0 <= N <= 128 ->
  (forall x k, (x < 16)%nat -> 0 <= k < 8 -> Z.testbit (nth x mask 0) k = (8 * Z.of_nat x + (7 - k) <? N)) ->
  Match (SubNet (map (fun x => Z.land (fst x) (snd x)) (combine network mask)) mask valid) addr = true <->
  valid = true /\ IsValid addr = true /\ address_bits addr 0 N = address_bits network 0 N.
Proof.
  intros Hn Ha Lm HN Hm. unfold Match. cbn [NetBase.valid_ NetBase.netmask NetBase.network].
  rewrite <- (masked_equal addr network mask N Ha Hn Lm HN Hm).
  destruct valid, (IsValid addr); cbn [negb orb]; [|split; [discriminate|intros (? & ? & _); discriminate]..].
  rewrite forallb_forall. split.
  - intros F. split; [reflexivity|]. split; [reflexivity|]. intros x Hx. specialize (F x ltac:(apply in_seq; lia)).
    rewrite nth_masked in F by (assumption || apply Hn). now apply Z.eqb_eq.
  - intros (_ & _ & F) x Hx%in_seq. rewrite nth_masked by (lia || apply Hn). apply Z.eqb_eq, F. lia.
Qed.
