(* ===== verification/NetBaseTheorems.v ===== *)
(** * Theorems on network addresses *)

From Stdlib Require Import ZArith List Lia Bool.
From S2P Require Import Prelude SphTypes Uint256 Serialize Transaction NetBase NetBaseProof.
Import ListNotations.

(** C35: two routable addresses are in the same group exactly when they are of the same network and
    agree on the bits that its groups keep: 16 bits of the IPv4 address that is mapped, translated,
    tunnelled (6to4) or, inverted, behind Teredo; 4 bits of a hidden service; 36 bits in the
    he.net range and 32 in the rest of IPv6.  All addresses that are not routable, the local ones
    among them, are one group, apart from the others. *)
Theorem groups_are_prefixes (a b : list Z) :
  netaddr_ok a -> netaddr_ok b ->
  (IsRoutable a = true -> IsRoutable b = true ->
   (GetGroup a = GetGroup b <-> group_key a = group_key b) /\ GetGroup a <> [0]) /\
  (IsRoutable a = false -> GetGroup a = [0]).
Proof.
  intros Ha Hb. split.
  - intros Ra Rb. rewrite !GetGroup_key by assumption. split.
    + split; [|now intros ->]. apply group_of_key_inj; apply group_key_ok.
    + intros E. unfold group_key in E. destruct (kind a); unfold group_of_key in E; cbn [Z.eqb Pos.eqb] in E;
        now apply (f_equal (hd 0)) in E.
  - intros R. unfold GetGroup. rewrite R. destruct (IsLocal a); reflexivity.
Qed.

Definition v4 (a b c d : Z) : list Z := CNetAddr_of_in_addr [a; b; c; d].

Lemma v4_ok a b c d : word 8 a -> word 8 b -> word 8 c -> word 8 d -> netaddr_ok (v4 a b c d).
Proof.
  intros. split; [reflexivity|]. unfold v4, CNetAddr_of_in_addr, pchIPv4. apply Forall_app. split.
  - apply wordb_Forall. reflexivity.
  - repeat (apply Forall_cons; [assumption|]). apply Forall_nil.
Qed.

Lemma groups_are_prefixes_witness :
  (GetGroup (v4 8 8 4 4) = GetGroup (v4 8 8 200 1) <-> group_key (v4 8 8 4 4) = group_key (v4 8 8 200 1)) /\
  GetGroup (v4 8 8 4 4) = [1; 8; 8] /\ GetGroup (v4 10 8 4 4) = [0].
Proof.
  assert (W : forall x, wordb 8 x = true -> word 8 x) by (intros x; apply wordb_word).
  destruct (groups_are_prefixes (v4 8 8 4 4) (v4 8 8 200 1)) as [G _]; [apply v4_ok; apply W; reflexivity..|].
  destruct (groups_are_prefixes (v4 10 8 4 4) (v4 8 8 200 1)) as [_ U]; [apply v4_ok; apply W; reflexivity..|].
  split; [exact (proj1 (G eq_refl eq_refl))|]. split; [reflexivity|exact (U eq_refl)].
Defined.

(** The subnet of an address with a prefix length [n] contains exactly the valid addresses that
    agree with it on the first [n] bits, counted from the IPv4 part in an IPv4 network; the
    parts of the address after the prefix do not matter.  A length out of range gives an invalid
    subnet, which contains nothing; one without a length contains the address alone. *)
Theorem subnet_matches_prefix (network addr : list Z) (n : Z) :
  netaddr_ok network -> netaddr_ok addr ->
  let offset := if IsIPv4 network then 96 else 0 in
  (0 <= n <= 128 - offset ->
   (Match (CSubNet_of (Some network) (prefix_length n)) addr = true <->
    IsValid addr = true /\ address_bits addr 0 (offset + n) = address_bits network 0 (offset + n))) /\
  (~ 0 <= n <= 128 - offset -> Match (CSubNet_of (Some network) (prefix_length n)) addr = false) /\
  (Match (CSubNet_of (Some network) no_mask) addr = true <-> IsValid addr = true /\ addr = network).
Proof.
  intros Hn Ha offset.
  assert (O : Z.of_nat (if IsIPv4 network then 12%nat else 0%nat) * 8 = offset) by (unfold offset; now destruct (IsIPv4 network)).
  assert (B : 0 <= offset <= 96) by (unfold offset; destruct (IsIPv4 network); lia).
  unfold CSubNet_of. rewrite O. splits.
  - intros R. rewrite (proj2 (Z.leb_le 0 n)), (proj2 (Z.leb_le n _)) by lia. cbn [andb].
    destruct (clear_bits_ok 128 (n + offset) (repeat 255 16) ltac:(lia) ltac:(lia) ltac:(reflexivity)) as [L M].
    rewrite (Match_ok network _ addr (n + offset)); [|assumption|assumption|exact L|lia|].
    + rewrite (Z.add_comm offset n). tauto.
    + intros x k Hx Hk. rewrite M by assumption. rewrite nth_repeat_lt by assumption.
      change 255 with (Z.ones 8). rewrite ones_testbit, (proj2 (Z.ltb_lt k 8)) by lia. reflexivity.
  - intros R. assert (E : (0 <=? n) && (n <=? 128 - offset) = false)
      by (apply andb_false_iff; rewrite !Z.leb_gt; lia).
    rewrite E. reflexivity.
  - rewrite (Match_ok network _ addr 128); [|assumption|assumption|reflexivity|lia|].
    + assert (W : forall l, netaddr_ok l -> address_bits l 0 128 = be_load 16 l).
      { intros l Hl. pose proof (bits_slice l 0 16 Hl ltac:(lia)) as S. change (8 * Z.of_nat 0) with 0 in S.
        change (8 * Z.of_nat 16) with 128 in S. rewrite S. unfold slice. cbn [skipn].
        rewrite firstn_all2 by (destruct Hl; lia). reflexivity. }
      rewrite !W by assumption. destruct Hn as [Ln Bn], Ha as [La Ba]. split.
      * intros (_ & V & E). split; [exact V|]. now apply (be_load_inj 16) in E.
      * intros (V & ->). auto.
    + intros x k Hx Hk. rewrite nth_repeat_lt by assumption.
      change 255 with (Z.ones 8). rewrite ones_testbit, (proj2 (Z.ltb_lt k 8)), (proj2 (Z.ltb_lt _ 128)) by lia. reflexivity.
Qed.

Lemma subnet_matches_prefix_witness :
  let s := CSubNet_of (Some (v4 192 168 1 77)) (prefix_length 20) in
  (Match s (v4 192 168 15 255) = true <->
   IsValid (v4 192 168 15 255) = true /\
   address_bits (v4 192 168 15 255) 0 (96 + 20) = address_bits (v4 192 168 1 77) 0 (96 + 20)) /\
  Match s (v4 192 168 15 255) = true /\ Match s (v4 192 168 16 0) = false /\
  network s = v4 192 168 0 0.
Proof.
  intros s. assert (W : forall x, wordb 8 x = true -> word 8 x) by (intros x; apply wordb_word).
  destruct (subnet_matches_prefix (v4 192 168 1 77) (v4 192 168 15 255) 20) as [G _]; [apply v4_ok; apply W; reflexivity..|].
  split; [apply G; cbn; lia|]. splits; reflexivity.
Defined.
