(* ===== verification/AddrMan.v ===== *)
(** * addrman.cpp: the table of peer addresses

    The class [CAddrMan] of src/src/addrman.h.  An operation is a computation
    in a state monad: the state is the object, [environment] counts the random
    words and the clock readings used so far, and a computation fails where the
    code would violate an assertion, leave an array or overflow an [int].
    [RAND_bytes] and the clock are parameters. *)

From stdpp Require Import gmap list sorting.
From Stdlib Require Import ZArith Lia.
From S2P Require Import Prelude SphTypes Uint256 Serialize Transaction NetBase.
Local Open Scope Z_scope.

(** ** CAddrInfo *)

Record CAddrInfo := AddrInfo {
  address_ : CAddress; source : list Z; nLastSuccess : Z; nAttempts : Z; nRefCount : Z;
  fInTried : bool; nRandomPos : Z
}.

(** The array [ip] of the address. *)
Definition info_ip (info : CAddrInfo) : list Z := ip (service (address_ info)).

Definition NODE_NETWORK : Z := 1 << 0.
Definition CAddress_default : CAddress := Address (Service CNetAddr_Init 0) NODE_NETWORK 100000000 0.

Definition CAddrInfo_new (addrIn : CAddress) (addrSource : list Z) : CAddrInfo :=
  AddrInfo (Address (service addrIn) (nServices addrIn) (nTime addrIn) 0) addrSource 0 0 0 false (-1).
Definition CAddrInfo_default : CAddrInfo := CAddrInfo_new CAddress_default CNetAddr_Init.

(** Assignments to a member. *)
Definition set_nTime (t : Z) (i : CAddrInfo) : CAddrInfo :=
  let a := address_ i in
  AddrInfo (Address (service a) (nServices a) t (nLastTry a)) (source i) (nLastSuccess i) (nAttempts i)
    (nRefCount i) (fInTried i) (nRandomPos i).
Definition set_nServices (v : Z) (i : CAddrInfo) : CAddrInfo :=
  let a := address_ i in
  AddrInfo (Address (service a) v (nTime a) (nLastTry a)) (source i) (nLastSuccess i) (nAttempts i)
    (nRefCount i) (fInTried i) (nRandomPos i).
Definition set_nLastTry (t : Z) (i : CAddrInfo) : CAddrInfo :=
  let a := address_ i in
  AddrInfo (Address (service a) (nServices a) (nTime a) t) (source i) (nLastSuccess i) (nAttempts i)
    (nRefCount i) (fInTried i) (nRandomPos i).
Definition set_nLastSuccess (t : Z) (i : CAddrInfo) : CAddrInfo :=
  AddrInfo (address_ i) (source i) t (nAttempts i) (nRefCount i) (fInTried i) (nRandomPos i).
Definition set_nAttempts (v : Z) (i : CAddrInfo) : CAddrInfo :=
  AddrInfo (address_ i) (source i) (nLastSuccess i) v (nRefCount i) (fInTried i) (nRandomPos i).
Definition set_nRefCount (v : Z) (i : CAddrInfo) : CAddrInfo :=
  AddrInfo (address_ i) (source i) (nLastSuccess i) (nAttempts i) v (fInTried i) (nRandomPos i).
Definition set_fInTried (v : bool) (i : CAddrInfo) : CAddrInfo :=
  AddrInfo (address_ i) (source i) (nLastSuccess i) (nAttempts i) (nRefCount i) v (nRandomPos i).
Definition set_nRandomPos (v : Z) (i : CAddrInfo) : CAddrInfo :=
  AddrInfo (address_ i) (source i) (nLastSuccess i) (nAttempts i) (nRefCount i) (fInTried i) v.

Definition ADDRMAN_TRIED_BUCKET_COUNT : Z := 64.
Definition ADDRMAN_TRIED_BUCKET_SIZE : Z := 64.
Definition ADDRMAN_NEW_BUCKET_COUNT : Z := 256.
Definition ADDRMAN_NEW_BUCKET_SIZE : Z := 64.
Definition ADDRMAN_TRIED_BUCKETS_PER_GROUP : Z := 4.
Definition ADDRMAN_NEW_BUCKETS_PER_SOURCE_GROUP : Z := 32.
Definition ADDRMAN_NEW_BUCKETS_PER_ADDRESS : Z := 4.
Definition ADDRMAN_TRIED_ENTRIES_INSPECT_ON_EVICT : Z := 4.
Definition ADDRMAN_HORIZON_DAYS : Z := 30.
Definition ADDRMAN_RETRIES : Z := 3.
Definition ADDRMAN_MAX_FAILURES : Z := 10.
Definition ADDRMAN_MIN_FAIL_DAYS : Z := 7.
Definition ADDRMAN_GETADDR_MAX_PCT : Z := 23.
Definition ADDRMAN_GETADDR_MAX : Z := 2500.

Section Buckets.
  Variable p : platform.
  Variable SHA256 : list Z -> list Z.

Definition GetTriedBucket (info : CAddrInfo) (nKey : list Z) : Z :=
  let vchKey := GetKey (service (address_ info)) in
  let hash1 := Get64 (Hash p SHA256 (Serialize_bytes p nKey ++ Serialize_bytes p vchKey)) 0 in
  let vchGroupKey := GetGroup (info_ip info) in
  let hash2 := Get64 (Hash p SHA256 (Serialize_bytes p nKey ++ Serialize_bytes p vchGroupKey ++
                        WRITEDATA p 8 (hash1 mod ADDRMAN_TRIED_BUCKETS_PER_GROUP))) 0 in
  hash2 mod ADDRMAN_TRIED_BUCKET_COUNT.

Definition GetNewBucket (info : CAddrInfo) (nKey : list Z) (src : list Z) : Z :=
  let vchGroupKey := GetGroup (info_ip info) in
  let vchSourceGroupKey := GetGroup src in
  let hash1 := Get64 (Hash p SHA256 (Serialize_bytes p nKey ++ Serialize_bytes p vchGroupKey ++
                        Serialize_bytes p vchSourceGroupKey)) 0 in
  let hash2 := Get64 (Hash p SHA256 (Serialize_bytes p nKey ++ Serialize_bytes p vchSourceGroupKey ++
                        WRITEDATA p 8 (hash1 mod ADDRMAN_NEW_BUCKETS_PER_SOURCE_GROUP))) 0 in
  hash2 mod ADDRMAN_NEW_BUCKET_COUNT.
End Buckets.

Definition IsTerrible (info : CAddrInfo) (nNow : Z) : bool :=
  let nLastTry := nLastTry (address_ info) in
  let nTime := nTime (address_ info) in
  if negb (nLastTry =? 0) && (nNow - 60 <=? nLastTry) then false
  else if nNow + 10 * 60 <? nTime then true
  else if (nTime =? 0) || (ADDRMAN_HORIZON_DAYS * 86400 <? nNow - nTime) then true
  else if (nLastSuccess info =? 0) && (ADDRMAN_RETRIES <=? nAttempts info) then true
  else if (ADDRMAN_MIN_FAIL_DAYS * 86400 <? nNow - nLastSuccess info) &&
          (ADDRMAN_MAX_FAILURES <=? nAttempts info) then true
  else false.

(** ** The object *)

(** [std::map] and [std::set] of [int]; a loop over them is in ascending order. *)
Record CAddrMan := AddrMan {
  nKey : list Z; nIdCount : Z; mapInfo : gmap Z CAddrInfo; mapAddr : gmap (list Z) Z;
  vRandom : list Z; nTried : Z; vvTried : list (list Z); nNew : Z; vvNew : list (gset Z)
}.

Definition ascending (X : gset Z) : list Z := merge_sort Z.le (elements X).

Definition CAddrMan_new (nKey : list Z) : CAddrMan :=
  AddrMan nKey 0 ∅ ∅ [] 0 (repeat [] (Z.to_nat ADDRMAN_TRIED_BUCKET_COUNT)) 0
    (repeat ∅ (Z.to_nat ADDRMAN_NEW_BUCKET_COUNT)).

Definition with_nIdCount v s := AddrMan (nKey s) v (mapInfo s) (mapAddr s) (vRandom s) (nTried s) (vvTried s) (nNew s) (vvNew s).
Definition with_mapInfo v s := AddrMan (nKey s) (nIdCount s) v (mapAddr s) (vRandom s) (nTried s) (vvTried s) (nNew s) (vvNew s).
Definition with_mapAddr v s := AddrMan (nKey s) (nIdCount s) (mapInfo s) v (vRandom s) (nTried s) (vvTried s) (nNew s) (vvNew s).
Definition with_vRandom v s := AddrMan (nKey s) (nIdCount s) (mapInfo s) (mapAddr s) v (nTried s) (vvTried s) (nNew s) (vvNew s).
Definition with_nTried v s := AddrMan (nKey s) (nIdCount s) (mapInfo s) (mapAddr s) (vRandom s) v (vvTried s) (nNew s) (vvNew s).
Definition with_vvTried v s := AddrMan (nKey s) (nIdCount s) (mapInfo s) (mapAddr s) (vRandom s) (nTried s) v (nNew s) (vvNew s).
Definition with_nNew v s := AddrMan (nKey s) (nIdCount s) (mapInfo s) (mapAddr s) (vRandom s) (nTried s) (vvTried s) v (vvNew s).
Definition with_vvNew v s := AddrMan (nKey s) (nIdCount s) (mapInfo s) (mapAddr s) (vRandom s) (nTried s) (vvTried s) (nNew s) v.

(** ** Computations *)

(** [Starved]: the random source gave only unusable words. *)
Inductive step (A : Type) := Done (a : A) (s : CAddrMan) (environment : nat) | Fails | Starved.
Arguments Done {A}.
Arguments Fails {A}.
Arguments Starved {A}.

Definition M (A : Type) : Type := CAddrMan -> nat -> step A.

#[export] Instance M_ret : MRet M := fun A a s k => Done a s k.
#[export] Instance M_bind : MBind M := fun A B f m s k =>
  match m s k with Done a s' k' => f a s' k' | Fails => Fails | Starved => Starved end.

Definition return_ {A} (a : A) : M A := mret a.
Definition get {A} (f : CAddrMan -> A) : M A := fun s k => Done (f s) s k.
Definition modify (f : CAddrMan -> CAddrMan) : M unit := fun s k => Done tt (f s) k.
Definition fails {A} : M A := fun _ _ => Fails.
Definition assert (b : bool) : M unit := if b then return_ tt else fails.
Definition of_option {A} (o : option A) : M A := match o with Some a => return_ a | None => fails end.
(** The result of an operation on [int]. *)
Definition int_of (v : Z) : M Z := if (- 2 ^ 31 <=? v) && (v <? 2 ^ 31) then return_ v else fails.

(** [v[i]] and [v[i] = x] of a vector. *)
Definition at_ {A} (v : list A) (i : Z) : M A :=
  if i <? 0 then fails else of_option (v !! Z.to_nat i).
Definition set_at {A} (v : list A) (i : Z) (x : A) : M (list A) :=
  if (0 <=? i) && (i <? Z.of_nat (length v)) then return_ (<[Z.to_nat i := x]> v) else fails.

(** [mapInfo[id]], which creates a missing entry. *)
Definition info_at (id : Z) : M CAddrInfo :=
  o ← get (fun s => mapInfo s !! id);
  match o with
  | Some info => return_ info
  | None => modify (fun s => with_mapInfo (<[id := CAddrInfo_default]> (mapInfo s)) s);; return_ CAddrInfo_default
  end.
(** An assignment to members of the entry [id]. *)
Definition update_info (id : Z) (f : CAddrInfo -> CAddrInfo) : M unit :=
  info ← info_at id;
  modify (fun s => with_mapInfo (<[id := f info]> (mapInfo s)) s).

Definition has_info (s : CAddrMan) (id : Z) : bool :=
  match mapInfo s !! id with Some _ => true | None => false end.

Section Operations.
  Variable p : platform.
  Variable SHA256 : list Z -> list Z.
(** The words [RAND_bytes] writes, and the clock. *)
  Variable RAND_bytes : nat -> Z.
  Variable GetAdjustedTime : nat -> Z.
(** How many words the loop of [GetRand] may reject. *)
  Variable tries : nat.

(** ** GetRand (util.cpp) *)

Fixpoint rand_loop (fuel : nat) (nRange : Z) : M Z := fun s k =>
  match fuel with
  | O => Starved
  | S fuel' =>
      let nRand := RAND_bytes k in
      if nRange <=? nRand then rand_loop fuel' nRange s (S k) else Done nRand s (S k)
  end.
Definition GetRand (nMax : Z) : M Z :=
  if nMax =? 0 then return_ 0
  else
    nRand ← rand_loop tries ((2 ^ 64 - 1) / nMax * nMax);
    return_ (nRand mod nMax).
(** The argument is converted to [uint64_t] and the result to [int]. *)
Definition GetRandInt (nMax : Z) : M Z :=
  r ← GetRand (trunc 64 nMax); return_ (signed 4 (trunc 32 r)).

Definition time : M Z := fun s k => Done (GetAdjustedTime k) s (S k).

(** ** Entries *)

Definition Find (addr : list Z) : M (option Z) :=
  o ← get (fun s => mapAddr s !! addr);
  match o with
  | None => return_ None
  | Some id => b ← get (fun s => has_info s id); return_ (if (b : bool) then Some id else None)
  end.

Definition Create (addr : CAddress) (addrSource : list Z) : M Z :=
  nId ← get nIdCount;
  n ← int_of (nId + 1);
  modify (with_nIdCount n);;
  modify (fun s => with_mapInfo (<[nId := CAddrInfo_new addr addrSource]> (mapInfo s)) s);;
  modify (fun s => with_mapAddr (<[ip (service addr) := nId]> (mapAddr s)) s);;
  size ← get (fun s => Z.of_nat (length (vRandom s)));
  update_info nId (set_nRandomPos (signed 4 (trunc 32 size)));;
  modify (fun s => with_vRandom (vRandom s ++ [nId]) s);;
  return_ nId.

Definition SwapRandom (nRndPos1 nRndPos2 : Z) : M unit :=
  if nRndPos1 =? nRndPos2 then return_ tt
  else
    v ← get vRandom;
    assert ((nRndPos1 <? Z.of_nat (length v)) && (nRndPos2 <? Z.of_nat (length v)));;
    nId1 ← at_ v nRndPos1;
    nId2 ← at_ v nRndPos2;
    b1 ← get (fun s => has_info s nId1);
    assert b1;;
    b2 ← get (fun s => has_info s nId2);
    assert b2;;
    update_info nId1 (set_nRandomPos (signed 4 nRndPos2));;
    update_info nId2 (set_nRandomPos (signed 4 nRndPos1));;
    v ← set_at v nRndPos1 nId2;
    v ← set_at v nRndPos2 nId1;
    modify (with_vRandom v).

(** [for (unsigned int i = 0; i < ..INSPECT_ON_EVICT && i < vTried.size(); i++)] *)
Fixpoint select_loop (fuel : nat) (nKBucket i nOldest nOldestPos : Z) : M Z :=
  match fuel with
  | O => return_ nOldestPos
  | S fuel' =>
      vv ← get vvTried;
      vTried ← at_ vv nKBucket;
      if i <? Z.of_nat (length vTried) then
        r ← GetRandInt (Z.of_nat (length vTried) - i);
        nPos ← int_of (r + i);
        nTemp ← at_ vTried nPos;
        x ← at_ vTried i;
        vTried ← set_at vTried nPos x;
        vTried ← set_at vTried i nTemp;
        vv ← set_at vv nKBucket vTried;
        modify (with_vvTried vv);;
        b ← get (fun s => (nOldest =? -1) || has_info s nTemp);
        assert b;;
        older ← (if nOldest =? -1 then return_ true
                 else a ← info_at nTemp; b ← info_at nOldest; return_ (nLastSuccess a <? nLastSuccess b));
        if (older : bool) then select_loop fuel' nKBucket (i + 1) nTemp nPos
        else select_loop fuel' nKBucket (i + 1) nOldest nOldestPos
      else return_ nOldestPos
  end.
Definition SelectTried (nKBucket : Z) : M Z :=
  select_loop (Z.to_nat ADDRMAN_TRIED_ENTRIES_INSPECT_ON_EVICT) nKBucket 0 (-1) (-1).

(** ** ShrinkNew *)

(** [if (--info.nRefCount == 0)] and its body. *)
Definition drop_reference (id : Z) : M unit :=
  info ← info_at id;
  n ← int_of (nRefCount info - 1);
  update_info id (set_nRefCount n);;
  if n =? 0 then
    size ← get (fun s => Z.of_nat (length (vRandom s)));
    SwapRandom (trunc 32 (nRandomPos info)) (trunc 32 (size - 1));;
    v ← get vRandom;
    assert (0 <? Z.of_nat (length v));;
    modify (with_vRandom (removelast v));;
    modify (fun s => with_mapAddr (delete (info_ip info) (mapAddr s)) s);;
    modify (fun s => with_mapInfo (delete id (mapInfo s)) s);;
    m ← get nNew;
    m ← int_of (m - 1);
    modify (with_nNew m)
  else return_ tt.

Definition erase_new (nUBucket id : Z) : M unit :=
  vv ← get vvNew;
  vNew ← at_ vv nUBucket;
  vv ← set_at vv nUBucket (vNew ∖ {[id]});
  modify (with_vvNew vv).

(** The first loop: whether a terrible entry was removed. *)
Fixpoint shrink_terrible (l : list Z) (nUBucket : Z) : M bool :=
  match l with
  | [] => return_ false
  | id :: l =>
      b ← get (fun s => has_info s id);
      assert b;;
      info ← info_at id;
      nNow ← time;
      if IsTerrible info nNow then
        drop_reference id;;
        erase_new nUBucket id;;
        return_ true
      else shrink_terrible l nUBucket
  end.

(** The second loop: the oldest of the entries at the four positions [n]. *)
Fixpoint shrink_oldest (l : list Z) (n : list Z) (nI nOldest : Z) : M Z :=
  match l with
  | [] => return_ nOldest
  | id :: l =>
      if existsb (Z.eqb nI) n then
        b ← get (fun s => (nOldest =? -1) || has_info s id);
        assert b;;
        older ← (if nOldest =? -1 then return_ true
                 else a ← info_at id; b ← info_at nOldest;
                      return_ (nTime (address_ a) <? nTime (address_ b)));
        shrink_oldest l n (nI + 1) (if (older : bool) then id else nOldest)
      else shrink_oldest l n (nI + 1) nOldest
  end.

Definition ShrinkNew (nUBucket : Z) : M Z :=
  vv ← get vvNew;
  assert ((0 <=? nUBucket) && (nUBucket <? Z.of_nat (length vv)));;
  vNew ← at_ vv nUBucket;
  found ← shrink_terrible (ascending vNew) nUBucket;
  if (found : bool) then return_ 0
  else
    let size := Z.of_nat (size vNew) in
    n0 ← GetRandInt size; n1 ← GetRandInt size; n2 ← GetRandInt size; n3 ← GetRandInt size;
    nOldest ← shrink_oldest (ascending vNew) [n0; n1; n2; n3] 0 (-1);
    b ← get (fun s => has_info s nOldest);
    assert b;;
    drop_reference nOldest;;
    erase_new nUBucket nOldest;;
    return_ 1.

(** ** MakeTried *)

(** The loop over [vvNew]; [i] is the rank of the iterator. *)
Fixpoint erase_from_all (fuel : nat) (i : nat) (nId : Z) : M unit :=
  match fuel with
  | O => return_ tt
  | S fuel' =>
      vv ← get vvNew;
      match vv !! i with
      | None => return_ tt
      | Some vNew =>
          (if bool_decide (nId ∈ vNew) then
             modify (with_vvNew (<[i := vNew ∖ {[nId]}]> vv));;
             info ← info_at nId;
             n ← int_of (nRefCount info - 1);
             update_info nId (set_nRefCount n)
           else return_ tt);;
          erase_from_all fuel' (S i) nId
      end
  end.

Definition insert_new (nUBucket id : Z) : M unit :=
  vv ← get vvNew;
  vNew ← at_ vv nUBucket;
  vv ← set_at vv nUBucket ({[id]} ∪ vNew);
  modify (with_vvNew vv).

Definition change_nNew (d : Z) : M unit :=
  n ← get nNew; n ← int_of (n + d); modify (with_nNew n).
Definition change_nTried (d : Z) : M unit :=
  n ← get nTried; n ← int_of (n + d); modify (with_nTried n).

(** [info] is the entry [nId]. *)
Definition MakeTried (nId nOrigin : Z) : M unit :=
  vv ← get vvNew;
  vNew ← at_ vv nOrigin;
  assert (bool_decide (nId ∈ vNew));;
  erase_from_all (length vv) 0 nId;;
  change_nNew (-1);;
  info ← info_at nId;
  assert (nRefCount info =? 0);;
  key ← get nKey;
  let nKBucket := GetTriedBucket p SHA256 info key in
  vvT ← get vvTried;
  vTried ← at_ vvT nKBucket;
  if Z.of_nat (length vTried) <? ADDRMAN_TRIED_BUCKET_SIZE then
    vvT ← set_at vvT nKBucket (vTried ++ [nId]);
    modify (with_vvTried vvT);;
    change_nTried 1;;
    update_info nId (set_fInTried true)
  else
    nPos ← SelectTried nKBucket;
    vvT ← get vvTried;
    vTried ← at_ vvT nKBucket;
    old ← at_ vTried nPos;
    b ← get (fun s => has_info s old);
    assert b;;
    infoOld ← info_at old;
    let nUBucket := GetNewBucket p SHA256 infoOld key (source infoOld) in
    vv ← get vvNew;
    vNew ← at_ vv nUBucket;
    update_info old (set_fInTried false);;
    update_info old (set_nRefCount 1);;
    (if Z.of_nat (size vNew) <? ADDRMAN_NEW_BUCKET_SIZE
     then insert_new nUBucket old
     else insert_new nOrigin old);;
    change_nNew 1;;
    vTried ← set_at vTried nPos nId;
    vvT ← set_at vvT nKBucket vTried;
    modify (with_vvTried vvT);;
    update_info nId (set_fInTried true).

(** ** The public operations *)

(** [for (unsigned int n = 0; n < vvNew.size(); n++)] of [Good_]. *)
Fixpoint find_bucket (fuel : nat) (n nRnd nId : Z) : M Z :=
  match fuel with
  | O => return_ (-1)
  | S fuel' =>
      vv ← get vvNew;
      if n <? Z.of_nat (length vv) then
        let nB := (n + nRnd) mod Z.of_nat (length vv) in
        vNew ← at_ vv nB;
        if bool_decide (nId ∈ vNew) then return_ nB else find_bucket fuel' (n + 1) nRnd nId
      else return_ (-1)
  end.

Definition Good_ (addr : CService) (time_ : Z) : M unit :=
  found ← Find (ip addr);
  match found with
  | None => return_ tt
  | Some nId =>
      info ← info_at nId;
      if negb (CService_equal (service (address_ info)) addr) then return_ tt
      else
        update_info nId (set_nLastSuccess time_);;
        update_info nId (set_nLastTry time_);;
        update_info nId (set_nTime (trunc 32 time_));;
        update_info nId (set_nAttempts 0);;
        if fInTried info then return_ tt
        else
          vv ← get vvNew;
          nRnd ← GetRandInt (Z.of_nat (length vv));
          nUBucket ← find_bucket (length vv) 0 nRnd nId;
          if nUBucket =? -1 then return_ tt else MakeTried nId nUBucket
  end.

(** The branch of [Add_] for a known address: whether to go on with the entry. *)
Definition refresh (nId : Z) (addr : CAddress) (nTimePenalty : Z) : M bool :=
  now ← time;
  let fCurrentlyOnline := now - nTime addr <? 24 * 60 * 60 in
  let nUpdateInterval := if fCurrentlyOnline then 60 * 60 else 24 * 60 * 60 in
  info ← info_at nId;
  (if negb (nTime addr =? 0) &&
      ((nTime (address_ info) =? 0) ||
       (nTime (address_ info) <? nTime addr - nUpdateInterval - nTimePenalty))
   then update_info nId (set_nTime (trunc 32 (Z.max 0 (nTime addr - nTimePenalty))))
   else return_ tt);;
  info ← info_at nId;
  update_info nId (set_nServices (nServices (address_ info) .| nServices addr));;
  if (nTime addr =? 0) ||
     (negb (nTime (address_ info) =? 0) && (nTime addr <=? nTime (address_ info)))
  then return_ false
  else if fInTried info then return_ false
  else if nRefCount info =? ADDRMAN_NEW_BUCKETS_PER_ADDRESS then return_ false
  else
    nFactor ← Nat.iter (Z.to_nat (nRefCount info)) (fun m => f ← m; int_of (f * 2)) (return_ 1);
    if 1 <? nFactor then
      r ← GetRandInt nFactor;
      return_ (r =? 0)
    else return_ true.

Definition Add_ (addr : CAddress) (src : list Z) (nTimePenalty : Z) : M bool :=
  if negb (IsRoutable (ip (service addr))) then return_ false
  else
    found ← Find (ip (service addr));
    res ← (match found with
           | Some nId => go_on ← refresh nId addr nTimePenalty; return_ (nId, false, go_on)
           | None =>
               nId ← Create addr src;
               info ← info_at nId;
               update_info nId (set_nTime (trunc 32 (Z.max 0 (nTime (address_ info) - nTimePenalty))));;
               change_nNew 1;;
               return_ (nId, true, true)
           end);
    let '(nId, fNew, go_on) := res in
    if negb (go_on : bool) then return_ false
    else
      info ← info_at nId;
      key ← get nKey;
      let nUBucket := GetNewBucket p SHA256 info key src in
      vv ← get vvNew;
      vNew ← at_ vv nUBucket;
      if bool_decide (nId ∈ vNew) then return_ fNew
      else
        n ← int_of (nRefCount info + 1);
        update_info nId (set_nRefCount n);;
        (if Z.of_nat (size vNew) =? ADDRMAN_NEW_BUCKET_SIZE
         then ShrinkNew nUBucket;; return_ tt else return_ tt);;
        insert_new nUBucket nId;;
        return_ fNew.

Definition Attempt_ (addr : CService) (time_ : Z) : M unit :=
  found ← Find (ip addr);
  match found with
  | None => return_ tt
  | Some nId =>
      info ← info_at nId;
      if negb (CService_equal (service (address_ info)) addr) then return_ tt
      else
        update_info nId (set_nLastTry time_);;
        n ← int_of (nAttempts info + 1);
        update_info nId (set_nAttempts n)
  end.

Definition Connected_ (addr : CService) (time_ : Z) : M unit :=
  found ← Find (ip addr);
  match found with
  | None => return_ tt
  | Some nId =>
      info ← info_at nId;
      if negb (CService_equal (service (address_ info)) addr) then return_ tt
      else if 20 * 60 <? time_ - nTime (address_ info)
      then update_info nId (set_nTime (trunc 32 time_))
      else return_ tt
  end.

(** The shuffle of [GetAddr_]: the turns [n], ..., [n + fuel - 1]. *)
Fixpoint getaddr_loop (fuel : nat) (n : Z) (vAddr : list CAddress) : M (list CAddress) :=
  match fuel with
  | O => return_ vAddr
  | S fuel' =>
      v ← get vRandom;
      r ← GetRandInt (Z.of_nat (length v) - n);
      nRndPos ← int_of (r + n);
      SwapRandom (trunc 32 n) (trunc 32 nRndPos);;
      v ← get vRandom;
      id ← at_ v n;
      b ← get (fun s => has_info s id);
      assert b;;
      info ← info_at id;
      getaddr_loop fuel' (n + 1) (vAddr ++ [address_ info])
  end.
Definition GetAddr_ : M (list CAddress) :=
  v ← get vRandom;
  let nNodes := ADDRMAN_GETADDR_MAX_PCT * Z.of_nat (length v) / 100 in
  let nNodes := if ADDRMAN_GETADDR_MAX <? nNodes then ADDRMAN_GETADDR_MAX else nNodes in
  getaddr_loop (Z.to_nat nNodes) 0 [].
End Operations.

(** ** Check_

    The loops over the entries, over [vvTried] and over [vvNew]; a result that
    is not 0 is the error code. *)

Fixpoint check_entries (ids : list Z) (s : CAddrMan) (setTried : gset Z) (mapNew : gmap Z Z) :
    Z + gset Z * gmap Z Z * CAddrMan :=
  match ids with
  | [] => inr (setTried, mapNew, s)
  | n :: ids =>
      match mapInfo s !! n with
      | None => check_entries ids s setTried mapNew
      | Some info =>
          let first :=
            if fInTried info then
              if nLastSuccess info =? 0 then inl (-1)
              else if negb (nRefCount info =? 0) then inl (-2)
              else inr ({[n]} ∪ setTried, mapNew)
            else
              if (nRefCount info <? 0) || (ADDRMAN_NEW_BUCKETS_PER_ADDRESS <? nRefCount info) then inl (-3)
              else if nRefCount info =? 0 then inl (-4)
              else inr (setTried, <[n := nRefCount info]> mapNew) in
          match first with
          | inl err => inl err
          | inr (setTried, mapNew) =>
              (* [mapAddr[info]] creates a missing entry *)
              let s' := match mapAddr s !! info_ip info with
                        | Some _ => s
                        | None => with_mapAddr (<[info_ip info := 0]> (mapAddr s)) s
                        end in
              if negb (default 0 (mapAddr s' !! info_ip info) =? n) then inl (-5)
              else if (nRandomPos info <? 0) || (Z.of_nat (length (vRandom s)) <=? nRandomPos info) ||
                      negb (bool_decide (vRandom s !! Z.to_nat (nRandomPos info) = Some n))
              then inl (-14)
              else if nLastTry (address_ info) <? 0 then inl (-6)
              else if nLastSuccess info <? 0 then inl (-8)
              else check_entries ids s' setTried mapNew
          end
      end
  end.

Fixpoint check_tried (l : list Z) (setTried : gset Z) : option (gset Z) :=
  match l with
  | [] => Some setTried
  | id :: l => if bool_decide (id ∈ setTried) then check_tried l (setTried ∖ {[id]}) else None
  end.

Fixpoint check_new (l : list Z) (mapNew : gmap Z Z) : option (gmap Z Z) :=
  match l with
  | [] => Some mapNew
  | id :: l =>
      match mapNew !! id with
      | None => None
      | Some c => check_new l (if c - 1 =? 0 then delete id mapNew else <[id := c - 1]> mapNew)
      end
  end.

Definition Check_ (s : CAddrMan) : Z * CAddrMan :=
  if negb (Z.of_nat (length (vRandom s)) =? nTried s + nNew s) then (-7, s)
  else
    match check_entries (ascending (dom (mapInfo s))) s ∅ ∅ with
    | inl err => (err, s)
    | inr (setTried, mapNew, s) =>
        if negb (Z.of_nat (size setTried) =? nTried s) then (-9, s)
        else if negb (Z.of_nat (size mapNew) =? nNew s) then (-10, s)
        else
          match check_tried (concat (vvTried s)) setTried with
          | None => (-11, s)
          | Some setTried =>
              match check_new (concat (map ascending (vvNew s))) mapNew with
              | None => (-12, s)
              | Some mapNew =>
                  if negb (Z.of_nat (size setTried) =? 0) then (-13, s)
                  else if negb (Z.of_nat (size mapNew) =? 0) then (-15, s)
                  else (0, s)
              end
          end
    end.
