(* ===== verification/AddrManProof.v ===== *)
(** * The invariant of the table of addresses

    [consistent] says what [CAddrMan::Check_] tests, and more; every operation
    runs to its end from a consistent object and leaves it consistent.  The
    operations are stepped through with the rules of [wp]. *)

From stdpp Require Import gmap list sorting.
From Stdlib Require Import ZArith Lia.
From S2P Require Import Prelude SphTypes Uint256 Serialize Transaction NetBase AddrMan.
Local Open Scope Z_scope.

(** ** Weakest preconditions

    The computation runs to its end, and [Q] holds of the result and of the
    object it leaves, whatever part of the environment it starts from. *)
Definition wp {A} (m : M A) (Q : A -> CAddrMan -> Prop) (s : CAddrMan) : Prop :=
  forall k, match m s k with Done a s' _ => Q a s' | _ => False end.

Section Rules.
  Context {A : Type}.
  Implicit Types (Q : A -> CAddrMan -> Prop) (s : CAddrMan).

Lemma wp_return a Q s : Q a s -> wp (return_ a) Q s.
Proof. intros H k. exact H. Qed.

Lemma wp_bind {B} (m : M B) (f : B -> M A) Q s :
  wp m (fun b s' => wp (f b) Q s') s -> wp (m ≫= f) Q s.
Proof.
  intros H k. specialize (H k). unfold mbind, M_bind. destruct (m s k); [apply H|contradiction..].
Qed.

Lemma wp_mono (m : M A) Q Q' s : wp m Q s -> (forall a s', Q a s' -> Q' a s') -> wp m Q' s.
Proof. intros H HQ k. specialize (H k). destruct (m s k); auto. Qed.

Lemma wp_get (f : CAddrMan -> A) Q s : Q (f s) s -> wp (get f) Q s.
Proof. intros H k. exact H. Qed.

Lemma wp_of_option (o : option A) a Q s : o = Some a -> Q a s -> wp (of_option o) Q s.
Proof. intros -> H k. exact H. Qed.

Lemma wp_at (v : list A) i a Q s : 0 <= i -> v !! Z.to_nat i = Some a -> Q a s -> wp (at_ v i) Q s.
Proof. intros Hi E H. unfold at_. rewrite (proj2 (Z.ltb_ge i 0)) by lia. now apply wp_of_option with a. Qed.
End Rules.

Lemma wp_modify f Q s : Q tt (f s) -> wp (modify f) Q s.
Proof. intros H k. exact H. Qed.

Lemma wp_assert (b : bool) Q s : b = true -> Q tt s -> wp (assert b) Q s.
Proof. intros -> H k. exact H. Qed.

Lemma wp_int_of v Q s : - 2 ^ 31 <= v < 2 ^ 31 -> Q v s -> wp (int_of v) Q s.
Proof.
  intros Hv H k. unfold int_of. rewrite (proj2 (Z.leb_le _ _)), (proj2 (Z.ltb_lt _ _)) by lia. exact H.
Qed.

Lemma wp_set_at {A} (v : list A) i a Q s :
  0 <= i < Z.of_nat (length v) -> Q (<[Z.to_nat i := a]> v) s -> wp (set_at v i a) Q s.
Proof.
  intros Hi H k. unfold set_at. rewrite (proj2 (Z.leb_le _ _)), (proj2 (Z.ltb_lt _ _)) by lia. exact H.
Qed.

Lemma wp_info_at id info Q s : mapInfo s !! id = Some info -> Q info s -> wp (info_at id) Q s.
Proof. intros E H k. unfold info_at, mbind, M_bind, get. rewrite E. exact H. Qed.

Lemma wp_update_info id info f Q s :
  mapInfo s !! id = Some info -> Q tt (with_mapInfo (<[id := f info]> (mapInfo s)) s) ->
  wp (update_info id f) Q s.
Proof. intros E H. apply wp_bind, (wp_info_at id info); [assumption|]. now apply wp_modify. Qed.

Lemma wp_time GetAdjustedTime Q s : (forall t, Q t s) -> wp (time GetAdjustedTime) Q s.
Proof. intros H k. apply H. Qed.

Ltac wp_simpl :=
  cbn [nKey nIdCount mapInfo mapAddr vRandom nTried vvTried nNew vvNew with_nIdCount with_mapInfo
       with_mapAddr with_vRandom with_nTried with_vvTried with_nNew with_vvNew].

(** One step of a computation; what is left are its conditions. *)
Ltac wp_step :=
  lazymatch goal with
  | |- wp (mbind _ _) _ _ => apply wp_bind
  | |- wp (return_ _) _ _ => apply wp_return
  | |- wp (get _) _ _ => apply wp_get; wp_simpl
  | |- wp (modify _) _ _ => apply wp_modify; wp_simpl
  | |- wp (time _) _ _ => apply wp_time; intros ?
  | |- wp (assert _) _ _ => apply wp_assert
  | |- wp (int_of _) _ _ => apply wp_int_of
  | |- wp (let _ := _ in _) _ _ => cbv zeta
  end.
Ltac wp_steps := repeat wp_step.

(** ** The random source

    The hypothesis on [RAND_bytes]: its words have 64 bits, and among any
    [tries] of them one is in the lower half of their range. *)
Class RandomSource (RAND_bytes : nat -> Z) (tries : nat) : Prop := {
  rand_word : forall k, word 64 (RAND_bytes k);
  rand_lucky : forall k, exists j, (j < tries)%nat /\ RAND_bytes (k + j)%nat < 2 ^ 63
}.

Section Random.
  Context (RAND_bytes : nat -> Z) (tries : nat) {source : RandomSource RAND_bytes tries}.

Lemma rand_loop_ok fuel nRange s k :
  2 ^ 63 <= nRange -> (exists j, (j < fuel)%nat /\ RAND_bytes (k + j)%nat < 2 ^ 63) ->
  exists r k', rand_loop RAND_bytes fuel nRange s k = Done r s k' /\ 0 <= r < nRange.
Proof.
  intros Hr. revert k. induction fuel as [|fuel IH]; intros k (j & Hj & Hl); [lia|].
  cbn [rand_loop]. pose proof (rand_word k) as W. unfold word in W. destruct (Z.leb_spec nRange (RAND_bytes k)).
  - apply IH. destruct j as [|j]; [rewrite Nat.add_0_r in Hl; lia|].
    exists j. split; [lia|]. now replace (S k + j)%nat with (k + S j)%nat by lia.
  - exists (RAND_bytes k), (S k). split; [reflexivity|lia].
Qed.

Lemma wp_GetRandInt n Q s :
  0 < n < 2 ^ 31 -> (forall r, 0 <= r < n -> Q r s) -> wp (GetRandInt RAND_bytes tries n) Q s.
Proof.
  intros Hn H k. unfold GetRandInt, GetRand. rewrite trunc_id by (unfold word; lia).
  rewrite (proj2 (Z.eqb_neq n 0)) by lia.
  assert (R : 2 ^ 63 <= (2 ^ 64 - 1) / n * n) by (pose proof (Z.mul_succ_div_gt (2 ^ 64 - 1) n); nia).
  destruct (rand_loop_ok tries ((2 ^ 64 - 1) / n * n) s k R (rand_lucky k)) as (r & k' & E & Hr).
  unfold mbind, M_bind. rewrite E. unfold return_, mret, M_ret.
  assert (B : 0 <= r mod n < n) by (apply Z.mod_pos_bound; lia).
  rewrite trunc_id by (unfold word; lia). unfold signed. change (2 ^ (8 * Z.of_nat 4 - 1)) with (2 ^ 31).
  rewrite (proj2 (Z.ltb_lt _ _)) by lia. now apply H.
Qed.
End Random.

(** ** The invariant *)

(** What the parts of the invariant read of the entries. *)
Definition proj {A} (f : CAddrInfo -> A) (m : gmap Z CAddrInfo) (id : Z) : option A := f <$> m !! id.
Abbreviation pos := (proj nRandomPos).
Abbreviation ips := (proj info_ip).
Abbreviation tried := (proj fInTried).
Abbreviation rc := (proj nRefCount).

Lemma proj_insert {A} (f : CAddrInfo -> A) m id info x :
  proj f (<[id := info]> m) x = if decide (id = x) then Some (f info) else proj f m x.
Proof. unfold proj. rewrite lookup_insert. now case_decide. Qed.

Lemma proj_delete {A} (f : CAddrInfo -> A) m id x :
  proj f (delete id m) x = if decide (id = x) then None else proj f m x.
Proof. unfold proj. rewrite lookup_delete. now case_decide. Qed.

Lemma proj_Some {A} (f : CAddrInfo -> A) m id info : m !! id = Some info -> proj f m id = Some (f info).
Proof. intros E. unfold proj. now rewrite E. Qed.

(** In how many of the buckets an entry is. *)
Definition refs (id : Z) (vv : list (gset Z)) : Z := Z.of_nat (length (filter (fun b => id ∈ b) vv)).

Record random_ok (m : gmap Z CAddrInfo) (v : list Z) : Prop := {
  rnd_pos : forall id q, pos m id = Some q -> 0 <= q /\ v !! Z.to_nat q = Some id;
  rnd_id : forall i id, v !! i = Some id -> pos m id = Some (Z.of_nat i)
}.
Definition addr_ok (m : gmap Z CAddrInfo) (a : gmap (list Z) Z) : Prop :=
  forall x id, a !! x = Some id <-> ips m id = Some x.
Record tried_ok (m : gmap Z CAddrInfo) (vv : list (list Z)) : Prop := {
  tr_length : length vv = 64%nat;
  tr_sizes : Forall (fun b => length b <= 64)%nat vv;
  tr_nodup : NoDup (concat vv);
  tr_iff : forall id, id ∈ concat vv <-> tried m id = Some true
}.
(** [pending]: the entry has one reference more than buckets it is in. *)
Record new_ok (pending : option Z) (m : gmap Z CAddrInfo) (vv : list (gset Z)) : Prop := {
  nw_length : length vv = 256%nat;
  nw_sizes : Forall (fun b => size b <= 64)%nat vv;
  nw_in : forall b id, b ∈ vv -> id ∈ b -> tried m id = Some false;
  nw_pending : forall id, pending = Some id -> tried m id = Some false;
  nw_count : forall id c, tried m id = Some false -> rc m id = Some c ->
    c = refs id vv + (if decide (pending = Some id) then 1 else 0) /\ 1 <= c <= 4;
  nw_tried : forall id, tried m id = Some true -> rc m id = Some 0
}.
Definition entry_ok (id limit : Z) (i : CAddrInfo) : Prop :=
  0 <= id < limit /\ 0 <= nLastTry (address_ i) /\ 0 <= nLastSuccess i /\
  (fInTried i = true -> nLastSuccess i <> 0).

Record inv (pending : option Z) (s : CAddrMan) : Prop := {
  inv_random : random_ok (mapInfo s) (vRandom s);
  inv_addr : addr_ok (mapInfo s) (mapAddr s);
  inv_tried : tried_ok (mapInfo s) (vvTried s);
  inv_new : new_ok pending (mapInfo s) (vvNew s);
  inv_nTried : nTried s = Z.of_nat (length (concat (vvTried s)));
  inv_total : nTried s + nNew s = Z.of_nat (length (vRandom s));
  inv_entries : forall id info, mapInfo s !! id = Some info -> entry_ok id (nIdCount s) info;
  inv_limit : 0 <= nIdCount s < 2 ^ 31
}.
Definition consistent (s : CAddrMan) : Prop := inv None s.

(** *** Parts that do not change *)

Lemma random_ext m m' v : (forall id, pos m' id = pos m id) -> random_ok m v -> random_ok m' v.
Proof.
  intros E [H1 H2]. split.
  - intros id q. rewrite E. apply H1.
  - intros i id. rewrite E. apply H2.
Qed.

Lemma addr_ext m m' a : (forall id, ips m' id = ips m id) -> addr_ok m a -> addr_ok m' a.
Proof. intros E H x id. rewrite E. apply H. Qed.

Lemma tried_ext m m' vv : (forall id, tried m' id = tried m id) -> tried_ok m vv -> tried_ok m' vv.
Proof. intros E []. split; try assumption. intros id. rewrite E. auto. Qed.

Lemma new_ext pending m m' vv :
  (forall id, tried m' id = tried m id) -> (forall id, rc m' id = rc m id) ->
  new_ok pending m vv -> new_ok pending m' vv.
Proof.
  intros E R []. split; try assumption; intros *; rewrite ?E, ?R; eauto.
Qed.

Lemma proj_same {A} (f : CAddrInfo -> A) m id info info' x :
  m !! id = Some info -> f info' = f info -> proj f (<[id := info']> m) x = proj f m x.
Proof.
  intros E F. rewrite proj_insert. case_decide; [subst|reflexivity]. now rewrite F, (proj_Some f m x info).
Qed.

(** An assignment that only changes times, services and attempts. *)
Lemma inv_update pending s id info info' :
  inv pending s -> mapInfo s !! id = Some info ->
  nRandomPos info' = nRandomPos info -> info_ip info' = info_ip info -> fInTried info' = fInTried info ->
  nRefCount info' = nRefCount info -> entry_ok id (nIdCount s) info' ->
  inv pending (with_mapInfo (<[id := info']> (mapInfo s)) s).
Proof.
  intros [] E E1 E2 E3 E4 Ok. split; wp_simpl; try assumption.
  - eapply random_ext; [|eassumption]. intros x. now apply (proj_same _ _ _ info).
  - eapply addr_ext; [|eassumption]. intros x. now apply (proj_same _ _ _ info).
  - eapply tried_ext; [|eassumption]. intros x. now apply (proj_same _ _ _ info).
  - eapply new_ext; [..|eassumption]; intros x; now apply (proj_same _ _ _ info).
  - intros x i. rewrite lookup_insert. case_decide; [|auto]. intros [= <-]. now subst.
Qed.

(** ** How large the object can get *)

Lemma elem_of_concat {A} (x : A) (ls : list (list A)) : x ∈ concat ls <-> exists l, x ∈ l /\ l ∈ ls.
Proof.
  rewrite list_elem_of_In, in_concat. split; intros (l & ? & ?); exists l; rewrite !list_elem_of_In in *; auto.
Qed.

Lemma refs_pos id vv : 1 <= refs id vv -> exists b, b ∈ vv /\ id ∈ b.
Proof.
  intros H. unfold refs in H. destruct (filter _ vv) as [|b t] eqn:E; [cbn in H; lia|].
  exists b. assert (b ∈ filter (fun b => id ∈ b) vv) as X by (rewrite E; left).
  apply list_elem_of_filter in X as [? ?]. auto.
Qed.

Lemma random_nodup m v : random_ok m v -> NoDup v.
Proof.
  intros [H1 H2]. apply NoDup_alt. intros i j x Hi Hj. apply H2 in Hi. apply H2 in Hj.
  rewrite Hi in Hj. injection Hj. lia.
Qed.

Lemma concat_length {A} (f : A -> list Z) (vv : list A) k :
  Forall (fun b => length (f b) <= k)%nat vv -> (length (concat (f <$> vv)) <= length vv * k)%nat.
Proof. induction 1 as [|b vv Hb _ IH]; cbn; [lia|]. rewrite length_app. lia. Qed.

(** One more than the buckets hold when an entry is on its way into one. *)
Lemma inv_capacity pending s :
  inv pending s -> Z.of_nat (length (vRandom s)) <= 20480 + Z.of_nat (length (option_list pending)).
Proof.
  intros [R _ [T1 T2 _ T4] [N1 N2 N3 _ N5 _] _ _ _ _].
  set (all := concat (vvTried s) ++ concat (elements <$> vvNew s) ++ option_list pending).
  assert (S : vRandom s ⊆ all).
  { intros id Hid. apply list_elem_of_lookup in Hid as (i & Hi). pose proof (rnd_id _ _ R i id Hi) as P.
    unfold proj in P. destruct (mapInfo s !! id) as [info|] eqn:E; [|discriminate].
    subst all. rewrite !elem_of_app. destruct (fInTried info) eqn:F.
    - left. apply T4. now rewrite (proj_Some _ _ _ info E), F.
    - right. destruct (N5 id (nRefCount info)) as [C B]; [now rewrite (proj_Some _ _ _ info E), F|now apply proj_Some|].
      case_decide as D.
      + right. rewrite D. cbn. left.
      + left. destruct (refs_pos id (vvNew s)) as (b & Hb & Hib); [lia|].
        apply elem_of_concat. exists (elements b). split; [now apply elem_of_elements|]. now apply list_elem_of_fmap_2. }
  apply NoDup_submseteq in S; [|now apply random_nodup in R]. apply submseteq_length in S.
  subst all. rewrite !length_app in S.
  pose proof (concat_length id (vvTried s) 64 T2) as L1. rewrite list_fmap_id in L1.
  pose proof (concat_length elements (vvNew s) 64 N2) as L2.
  rewrite T1 in L1. rewrite N1 in L2. lia.
Qed.

Lemma inv_bound pending s : inv pending s -> Z.of_nat (length (vRandom s)) <= 20481.
Proof. intros I. pose proof (inv_capacity _ _ I). destruct pending; cbn in *; lia. Qed.

(** The counters are far from the limits of [int]. *)
Lemma inv_counters pending s :
  inv pending s -> 0 <= nTried s <= 4096 /\ -4096 <= nNew s <= 20481.
Proof.
  intros I. pose proof (inv_bound _ _ I). pose proof (inv_nTried _ _ I). pose proof (inv_total _ _ I).
  destruct (inv_tried _ _ I) as [T1 T2 _ _].
  pose proof (concat_length id (vvTried s) 64 T2) as L1. rewrite list_fmap_id, T1 in L1. lia.
Qed.

(** ** SwapRandom *)

Lemma swap_lookup (v : list Z) i j a b x :
  (i < length v)%nat -> (j < length v)%nat -> i <> j -> v !! i = Some a -> v !! j = Some b ->
  <[j := a]> (<[i := b]> v) !! x = if decide (x = j) then Some a else if decide (x = i) then Some b else v !! x.
Proof.
  intros Hi Hj N Ei Ej. case_decide; [subst; apply list_lookup_insert_eq; rewrite length_insert; lia|].
  rewrite list_lookup_insert_ne by lia. case_decide; [subst; now apply list_lookup_insert_eq|].
  now apply list_lookup_insert_ne.
Qed.

Definition no_pos : CAddrInfo -> CAddrInfo := set_nRandomPos 0.

Lemma wp_SwapRandom i j (Q : unit -> CAddrMan -> Prop) s :
  random_ok (mapInfo s) (vRandom s) -> Z.of_nat (length (vRandom s)) < 2 ^ 31 ->
  0 <= i < Z.of_nat (length (vRandom s)) -> 0 <= j < Z.of_nat (length (vRandom s)) ->
  (forall m' v', random_ok m' v' -> (forall id, proj no_pos m' id = proj no_pos (mapInfo s) id) ->
     length v' = length (vRandom s) -> v' !! Z.to_nat j = vRandom s !! Z.to_nat i ->
     Q tt (with_vRandom v' (with_mapInfo m' s))) ->
  wp (SwapRandom i j) Q s.
Proof.
  intros R L Hi Hj HQ. unfold SwapRandom. destruct (Z.eqb_spec i j) as [<-|N].
  { apply wp_return. specialize (HQ (mapInfo s) (vRandom s) R (fun _ => eq_refl) eq_refl eq_refl). now destruct s. }
  destruct (lookup_lt_is_Some_2 (vRandom s) (Z.to_nat i)) as [id1 E1]; [lia|].
  destruct (lookup_lt_is_Some_2 (vRandom s) (Z.to_nat j)) as [id2 E2]; [lia|].
  pose proof (rnd_id _ _ R _ _ E1) as P1. pose proof (rnd_id _ _ R _ _ E2) as P2.
  unfold proj in P1, P2. destruct (mapInfo s !! id1) as [info1|] eqn:I1; [|discriminate].
  destruct (mapInfo s !! id2) as [info2|] eqn:I2; [|discriminate]. injection P1 as P1. injection P2 as P2.
  assert (D : id1 <> id2) by (intros ->; rewrite I1 in I2; injection I2 as ->; lia).
  wp_steps. { apply andb_true_iff. rewrite !Z.ltb_lt. lia. }
  apply (wp_at _ _ id1); [lia|assumption|]. wp_steps. apply (wp_at _ _ id2); [lia|assumption|].
  wp_steps. { unfold has_info. now rewrite I1. } wp_steps. { unfold has_info. now rewrite I2. } wp_steps.
  apply (wp_update_info _ info1); [assumption|]. wp_steps.
  apply (wp_update_info _ info2); [wp_simpl; now rewrite lookup_insert_ne|]. wp_steps.
  apply wp_set_at; [lia|]. wp_steps. apply wp_set_at; [rewrite length_insert; lia|]. wp_steps.
  assert (SG : forall x, 0 <= x < Z.of_nat (length (vRandom s)) -> signed 4 x = x)
    by (intros x Hx; unfold signed; change (2 ^ (8 * Z.of_nat 4 - 1)) with (2 ^ 31); now rewrite (proj2 (Z.ltb_lt _ _)) by lia).
  rewrite !SG by lia.
  apply (HQ (<[id2 := set_nRandomPos i info2]> (<[id1 := set_nRandomPos j info1]> (mapInfo s)))
            (<[Z.to_nat j := id1]> (<[Z.to_nat i := id2]> (vRandom s)))).
  - assert (V : forall x, <[Z.to_nat j := id1]> (<[Z.to_nat i := id2]> (vRandom s)) !! x =
      if decide (x = Z.to_nat j) then Some id1 else if decide (x = Z.to_nat i) then Some id2 else vRandom s !! x)
      by (intros x; apply swap_lookup; (assumption || lia)).
    split; intros *.
    + rewrite !proj_insert, V. cbn [nRandomPos set_nRandomPos].
      case_decide as C2; [intros [= <-]; subst; split; [lia|]; rewrite decide_False by lia; now rewrite decide_True|].
      case_decide as C1; [intros [= <-]; subst; split; [lia|]; now rewrite decide_True|].
      intros Hp. apply (rnd_pos _ _ R) in Hp as [Hq Hp]. split; [assumption|].
      rewrite decide_False by (intros X; rewrite X in Hp; congruence).
      rewrite decide_False by (intros X; rewrite X in Hp; congruence). assumption.
    + rewrite V, !proj_insert. cbn [nRandomPos set_nRandomPos].
      case_decide as Cj; [intros [= <-]; rewrite decide_False by auto; rewrite decide_True by auto; f_equal; lia|].
      case_decide as Ci; [intros [= <-]; rewrite decide_True by auto; f_equal; lia|].
      intros Hv. pose proof (rnd_id _ _ R _ _ Hv) as P. rewrite !decide_False; [assumption| |].
      * intros X. rewrite <- X, (proj_Some _ _ _ info1 I1) in P. injection P. lia.
      * intros X. rewrite <- X, (proj_Some _ _ _ info2 I2) in P. injection P. lia.
  - intros x. rewrite !proj_insert. case_decide as C; [subst; now rewrite (proj_Some _ _ _ info2 I2)|].
    case_decide; [subst; now rewrite (proj_Some _ _ _ info1 I1)|reflexivity].
  - now rewrite !length_insert.
  - rewrite list_lookup_insert_eq by (rewrite length_insert; lia). now rewrite E1.
Qed.

(** ** References *)

Definition occurs (x : Z) (b : gset Z) : Z := if decide (x ∈ b) then 1 else 0.

Lemma refs_cons x b vv : refs x (b :: vv) = occurs x b + refs x vv.
Proof. unfold refs, occurs. rewrite filter_cons. case_decide; cbn [length]; lia. Qed.

Lemma refs_insert x vv i b b' :
  vv !! i = Some b -> refs x (<[i := b']> vv) = refs x vv - occurs x b + occurs x b'.
Proof.
  revert i. induction vv as [|c vv IH]; intros i E; [discriminate|]. destruct i as [|i].
  - injection E as ->. change (<[0%nat := b']> (b :: vv)) with (b' :: vv). rewrite !refs_cons. lia.
  - change (<[S i := b']> (c :: vv)) with (c :: <[i := b']> vv). change (vv !! i = Some b) in E. rewrite !refs_cons, (IH i E). lia.
Qed.

Lemma refs_nonneg x vv : 0 <= refs x vv.
Proof. unfold refs. lia. Qed.

Lemma refs_in x vv b : b ∈ vv -> x ∈ b -> 1 <= refs x vv.
Proof.
  intros Hb Hx. apply list_elem_of_lookup in Hb as (i & Hi).
  revert i Hi. induction vv as [|c vv IH]; intros i Hi; [discriminate|].
  rewrite refs_cons. pose proof (refs_nonneg x vv). destruct i as [|i].
  - injection Hi as ->. unfold occurs. rewrite decide_True by assumption. lia.
  - specialize (IH i Hi). unfold occurs. case_decide; lia.
Qed.

Lemma occurs_erase x id (b : gset Z) : occurs x (b ∖ {[id]}) = if decide (x = id) then 0 else occurs x b.
Proof.
  unfold occurs. repeat case_decide; try reflexivity; exfalso;
    rewrite ?elem_of_difference, ?elem_of_union, ?elem_of_singleton in *; tauto.
Qed.

Lemma occurs_insert x id (b : gset Z) : occurs x ({[id]} ∪ b) = if decide (x = id) then 1 else occurs x b.
Proof.
  unfold occurs. repeat case_decide; try reflexivity; exfalso;
    rewrite ?elem_of_difference, ?elem_of_union, ?elem_of_singleton in *; tauto.
Qed.

Lemma proj_no_pos {A} (f : CAddrInfo -> A) (m m' : gmap Z CAddrInfo) x :
  (forall i, f (no_pos i) = f i) -> proj no_pos m' x = proj no_pos m x -> proj f m' x = proj f m x.
Proof.
  intros Hf. unfold proj. intros E. destruct (m' !! x) as [a|], (m !! x) as [b|]; try discriminate; [|reflexivity].
  cbn in E. apply (inj Some) in E. cbn. now rewrite <- (Hf a), <- (Hf b), E.
Qed.

Lemma entries_no_pos m m' limit :
  (forall x, proj no_pos m' x = proj no_pos m x) ->
  (forall id info, m !! id = Some info -> entry_ok id limit info) ->
  (forall id info, m' !! id = Some info -> entry_ok id limit info).
Proof.
  intros E H id info E'. pose proof (E id) as X. rewrite (proj_Some _ _ _ _ E') in X. unfold proj in X.
  destruct (m !! id) as [i|] eqn:Ei; [|discriminate]. cbn in X. apply (inj Some) in X. specialize (H id i Ei).
  pose proof (f_equal address_ X) as X1. pose proof (f_equal nLastSuccess X) as X2. pose proof (f_equal fInTried X) as X3.
  cbn in X1, X2, X3. unfold entry_ok in *. now rewrite X1, X2, X3.
Qed.

(** Erasing an entry from a bucket: what becomes of the references. *)
Lemma new_erase pending m vv i b id :
  new_ok pending m vv -> vv !! i = Some b -> id ∈ b -> pending <> Some id ->
  forall m', (forall x, x <> id -> proj no_pos m' x = proj no_pos m x) ->
  (rc m id = Some 1 -> m' !! id = None) ->
  (forall c, rc m id = Some c -> c <> 1 -> tried m' id = Some false /\ rc m' id = Some (c - 1)) ->
  new_ok pending m' (<[i := b ∖ {[id]}]> vv).
Proof.
  intros [N1 N2 N3 N4 N5 N6] E Hid Hp m' Eq H1 H2.
  assert (Hb : b ∈ vv) by (apply list_elem_of_lookup; eauto). pose proof (N3 b id Hb Hid) as Tid.
  pose proof (fun x Hx => proj_no_pos fInTried m m' x (fun _ => eq_refl) (Eq x Hx)) as ET.
  pose proof (fun x Hx => proj_no_pos nRefCount m m' x (fun _ => eq_refl) (Eq x Hx)) as ER.
  assert (RC : exists c, rc m id = Some c) by (unfold proj in *; destruct (m !! id); [eexists; reflexivity|discriminate]).
  destruct RC as [c RC]. destruct (N5 id c Tid RC) as [C1 C2]. rewrite decide_False in C1 by assumption.
  assert (R : forall x, refs x (<[i := b ∖ {[id]}]> vv) = if decide (x = id) then c - 1 else refs x vv).
  { intros x. rewrite (refs_insert x vv i b) by assumption. rewrite occurs_erase. case_decide; [|lia].
    subst x. unfold occurs. rewrite decide_True by assumption. lia. }
  assert (Gone : c = 1 -> tried m' id = None) by (intros ->; unfold proj; now rewrite (H1 RC)).
  split.
  - now rewrite length_insert.
  - apply Forall_insert; [assumption|]. rewrite Forall_forall in N2. specialize (N2 b Hb).
    assert (size (b ∖ {[id]}) <= size b)%nat by (apply subseteq_size; intros y; rewrite elem_of_difference; tauto). lia.
  - intros b' x Hb' Hx. apply list_elem_of_lookup in Hb' as (j & Hj).
    destruct (decide (x = id)) as [->|Nx].
    + assert (1 <= refs id (<[i := b ∖ {[id]}]> vv)) as L by (eapply refs_in; [apply list_elem_of_lookup; eauto|assumption]).
      rewrite R, decide_True in L by reflexivity. apply (H2 c RC). lia.
    + rewrite ET by assumption. apply list_lookup_insert_Some in Hj as [(-> & <- & _)|(_ & Hj)].
      * apply (N3 b); [assumption|]. now apply elem_of_difference in Hx.
      * apply (N3 b'); [apply list_elem_of_lookup; eauto|assumption].
  - intros x Hx. rewrite ET by congruence. auto.
  - intros x d Tx Rx. rewrite R. case_decide as D.
    + subst x. destruct (decide (c = 1)) as [->|Nc]; [rewrite Gone in Tx; easy|].
      destruct (H2 c RC Nc) as [_ R']. rewrite R' in Rx. injection Rx as <-. rewrite decide_False by assumption. lia.
    + rewrite ET in Tx by assumption. rewrite ER in Rx by assumption. auto.
  - intros x Tx. destruct (decide (x = id)) as [->|Nx].
    + destruct (decide (c = 1)) as [->|Nc]; [rewrite Gone in Tx; easy|].
      destruct (H2 c RC Nc) as [T' _]. rewrite T' in Tx. discriminate.
    + rewrite ET in Tx by assumption. rewrite ER by assumption. auto.
Qed.

(** ** Removing a reference *)

Lemma removelast_lookup (v : list Z) i :
  removelast v !! i = if decide (S i < length v)%nat then v !! i else None.
Proof.
  rewrite removelast_firstn_len. destruct (decide (S i < length v)%nat).
  - apply lookup_take_lt. lia.
  - apply lookup_take_ge. lia.
Qed.

Lemma random_pop m v id :
  random_ok m v -> v !! (length v - 1)%nat = Some id ->
  random_ok (delete id m) (removelast v).
Proof.
  intros R E. pose proof (rnd_id _ _ R _ _ E) as P. split; intros *.
  - rewrite proj_delete. case_decide as D; [discriminate|]. intros H. apply (rnd_pos _ _ R) in H as [Hq H].
    split; [assumption|]. rewrite removelast_lookup. pose proof (lookup_lt_Some _ _ _ H).
    rewrite decide_True; [assumption|].
    assert (Z.to_nat q <> length v - 1)%nat; [|lia]. intros X. rewrite X in H. congruence.
  - rewrite removelast_lookup. case_decide as L; [|discriminate]. intros H.
    pose proof (rnd_id _ _ R _ _ H) as P'. rewrite proj_delete, decide_False; [assumption|].
    intros ->. rewrite P in P'. injection P'. lia.
Qed.

Lemma addr_delete m a id x : addr_ok m a -> ips m id = Some x -> addr_ok (delete id m) (delete x a).
Proof.
  intros A E y j. rewrite lookup_delete, proj_delete. split.
  - case_decide as D; [discriminate|]. intros H. apply A in H. rewrite decide_False; [assumption|].
    intros ->. rewrite E in H. congruence.
  - case_decide as D; [discriminate|]. intros H. pose proof (proj2 (A y j) H) as H'.
    rewrite decide_False; [assumption|]. intros ->. apply A in E. congruence.
Qed.

Lemma no_pos_pos m m' x : proj no_pos m' x = proj no_pos m x -> m' !! x = None <-> m !! x = None.
Proof. unfold proj. destruct (m' !! x), (m !! x); cbn; split; congruence. Qed.

Lemma wp_drop_reference pending s i b id (Q : unit -> CAddrMan -> Prop) :
  inv pending s -> vvNew s !! i = Some b -> id ∈ b -> pending <> Some id ->
  (forall s', inv pending (with_vvNew (<[i := b ∖ {[id]}]> (vvNew s)) s') -> vvNew s' = vvNew s ->
     nKey s' = nKey s -> (forall x, x <> id -> proj no_pos (mapInfo s') x = proj no_pos (mapInfo s) x) ->
     Q tt s') ->
  wp (drop_reference id) Q s.
Proof.
  intros I E Hid Hp HQ. pose proof (inv_bound _ _ I) as B. pose proof (inv_counters _ _ I) as Nn. destruct I as [R A T N C1 C2 En L].
  assert (Hb : b ∈ vvNew s) by (apply list_elem_of_lookup; eauto).
  pose proof (nw_in _ _ _ N b id Hb Hid) as Tid. unfold proj in Tid.
  destruct (mapInfo s !! id) as [info|] eqn:Ei; [|discriminate]. injection Tid as Tid.
  destruct (nw_count _ _ _ N id (nRefCount info)) as [_ Rc]; [now rewrite (proj_Some _ _ _ _ Ei), Tid|now apply proj_Some|].
  unfold drop_reference. wp_step. apply (wp_info_at _ info); [assumption|]. wp_steps; [lia|]. wp_steps.
  apply (wp_update_info _ info); [assumption|].
  set (info' := set_nRefCount (nRefCount info - 1) info). set (m1 := <[id := info']> (mapInfo s)).
  assert (R1 : random_ok m1 (vRandom s))
    by (eapply random_ext; [|exact R]; intros x; apply (proj_same _ _ _ info); [assumption|reflexivity]).
  assert (En1 : forall x j, m1 !! x = Some j -> entry_ok x (nIdCount s) j).
  { intros x j. subst m1. rewrite lookup_insert. case_decide; [|apply En]. intros [= <-]. subst x. exact (En id info Ei). }
  destruct (Z.eqb_spec (nRefCount info - 1) 0) as [Z0|Nz].
  - (* the last reference *)
    destruct (rnd_pos _ _ R id (nRandomPos info) (proj_Some _ _ _ _ Ei)) as [P1 P2].
    pose proof (lookup_lt_Some _ _ _ P2) as Lv. wp_steps. wp_simpl.
    rewrite !trunc_id by (unfold word; lia).
    apply wp_SwapRandom; wp_simpl; [assumption|lia..|]. intros m' v' R' Eq Lv' Ev.
    wp_steps; [apply Z.ltb_lt; lia|lia|].
    assert (Last : v' !! (length v' - 1)%nat = Some id).
    { rewrite <- P2, <- Ev. f_equal. lia. }
    assert (Eq2 : forall x, proj no_pos m' x = proj no_pos m1 x) by exact Eq.
    assert (Hne : forall x, x <> id -> proj no_pos (delete id m') x = proj no_pos (mapInfo s) x).
    { intros x Hx. rewrite proj_delete, decide_False by auto. rewrite Eq2. subst m1. now rewrite proj_insert, decide_False by auto. }
    assert (Tt : forall x, tried m' x = tried (mapInfo s) x).
    { intros x. rewrite (proj_no_pos fInTried m1 m' x) by auto. now apply (proj_same _ _ _ info). }
    assert (Ii : forall x, ips m' x = ips (mapInfo s) x).
    { intros x. rewrite (proj_no_pos info_ip m1 m' x) by auto. now apply (proj_same _ _ _ info). }
    apply HQ; wp_simpl; [|reflexivity..|exact Hne].
    split; wp_simpl.
    + apply random_pop; assumption.
    + apply (addr_delete m' (mapAddr s)); [now apply (addr_ext (mapInfo s))|]. rewrite Ii. now apply proj_Some.
    + destruct T as [T1 T2 T3 T4]. split; try assumption. intros x. rewrite T4, proj_delete, Tt. case_decide as D; [|reflexivity].
      subst x. rewrite (proj_Some _ _ _ _ Ei), Tid. split; discriminate.
    + apply (new_erase pending (mapInfo s) (vvNew s) i b id); try assumption.
      * intros _. apply lookup_delete_eq.
      * intros c Hc. rewrite (proj_Some _ _ _ _ Ei) in Hc. injection Hc as <-. lia.
    + assumption.
    + rewrite removelast_firstn_len, length_take. lia.
    + intros x j. rewrite lookup_delete. case_decide; [discriminate|].
      now apply (entries_no_pos m1 m').
    + assumption.
  - wp_steps. apply HQ; wp_simpl; [|reflexivity..|].
    + split; wp_simpl; try assumption.
      * eapply addr_ext; [|exact A]. intros x. now apply (proj_same _ _ _ info).
      * eapply tried_ext; [|exact T]. intros x. now apply (proj_same _ _ _ info).
      * apply (new_erase pending (mapInfo s) (vvNew s) i b id); try assumption.
        -- intros x Hx. subst m1. now rewrite proj_insert, decide_False by auto.
        -- intros Hc. rewrite (proj_Some _ _ _ _ Ei) in Hc. injection Hc as Hc. lia.
        -- intros c Hc _. rewrite (proj_Some _ _ _ _ Ei) in Hc. injection Hc as <-.
           subst m1. rewrite !proj_insert, !decide_True by reflexivity. now rewrite <- Tid.
    + intros x Hx. subst m1. now rewrite proj_insert, decide_False by auto.
Qed.

(** ** ShrinkNew *)

Lemma elem_of_ascending x (X : gset Z) : x ∈ ascending X <-> x ∈ X.
Proof. unfold ascending. rewrite (merge_sort_Permutation Z.le (elements X)). apply elem_of_elements. Qed.

Lemma length_ascending (X : gset Z) : length (ascending X) = size X.
Proof. unfold ascending. now rewrite (merge_sort_Permutation Z.le (elements X)). Qed.

Lemma NoDup_ascending (X : gset Z) : NoDup (ascending X).
Proof. unfold ascending. rewrite (merge_sort_Permutation Z.le (elements X)). apply NoDup_elements. Qed.

Lemma wp_erase_new nU id b (Q : unit -> CAddrMan -> Prop) s :
  0 <= nU -> vvNew s !! Z.to_nat nU = Some b ->
  Q tt (with_vvNew (<[Z.to_nat nU := b ∖ {[id]}]> (vvNew s)) s) -> wp (erase_new nU id) Q s.
Proof.
  intros Hn E H. pose proof (lookup_lt_Some _ _ _ E). unfold erase_new. wp_steps.
  apply (wp_at _ _ b); [assumption..|]. wp_steps. apply wp_set_at; [lia|]. wp_steps. exact H.
Qed.

(** The bucket lost one entry, which may be gone; the others are what they were. *)
Definition shrunk pending nU (b : gset Z) (s s' : CAddrMan) : Prop :=
  inv pending s' /\ nKey s' = nKey s /\
  exists id, id ∈ b /\ vvNew s' = <[Z.to_nat nU := b ∖ {[id]}]> (vvNew s) /\
    forall x, x <> id -> proj no_pos (mapInfo s') x = proj no_pos (mapInfo s) x.

Lemma wp_forget {A} (a : A) pending s nU b id (Q : A -> CAddrMan -> Prop) :
  inv pending s -> 0 <= nU -> vvNew s !! Z.to_nat nU = Some b -> id ∈ b -> pending <> Some id ->
  (forall s', shrunk pending nU b s s' -> Q a s') ->
  wp (drop_reference id;; erase_new nU id;; return_ a) Q s.
Proof.
  intros I Hn E Hid Hp HQ. wp_steps. apply (wp_drop_reference pending s (Z.to_nat nU) b id); try assumption.
  intros s' I' EV EK Eq. wp_steps. apply (wp_erase_new nU id b); [assumption|now rewrite EV|]. wp_steps.
  apply HQ. rewrite EV. split; [exact I'|]. split; [exact EK|]. exists id. split; [exact Hid|]. split; [reflexivity|exact Eq].
Qed.

Lemma in_new_has_info pending s i b id :
  inv pending s -> vvNew s !! i = Some b -> id ∈ b ->
  exists info, mapInfo s !! id = Some info /\ has_info s id = true /\ 0 <= id.
Proof.
  intros I E Hid. assert (Hb : b ∈ vvNew s) by (apply list_elem_of_lookup; eauto).
  pose proof (nw_in _ _ _ (inv_new _ _ I) b id Hb Hid) as T. unfold proj in T.
  destruct (mapInfo s !! id) as [info|] eqn:Ei; [|discriminate].
  exists info. split; [reflexivity|]. split; [unfold has_info; now rewrite Ei|]. apply (inv_entries _ _ I id info Ei).
Qed.

Section Shrink.
  Context (RAND_bytes : nat -> Z) (tries : nat) {source_ : RandomSource RAND_bytes tries}.
  Variable GetAdjustedTime : nat -> Z.

Lemma wp_shrink_terrible pending nU b l s (Q : bool -> CAddrMan -> Prop) :
  inv pending s -> 0 <= nU -> vvNew s !! Z.to_nat nU = Some b -> (forall x, x ∈ l -> x ∈ b /\ pending <> Some x) ->
  Q false s -> (forall s', shrunk pending nU b s s' -> Q true s') ->
  wp (shrink_terrible GetAdjustedTime l nU) Q s.
Proof.
  intros I Hn E. induction l as [|id l IH]; intros Hl HF HT; cbn [shrink_terrible]; [now apply wp_return|].
  destruct (Hl id) as [Hid Hp]; [left|]. destruct (in_new_has_info pending s (Z.to_nat nU) b id I E Hid) as (info & Ei & Hi & _).
  wp_steps; [assumption|]. apply (wp_info_at _ info); [assumption|]. wp_steps. destruct (IsTerrible info _).
  - now apply (wp_forget true pending s nU b id).
  - apply IH; [|assumption..]. intros x Hx. apply Hl. now right.
Qed.

Lemma wp_shrink_oldest pending nU b n l s nI o (Q : Z -> CAddrMan -> Prop) :
  inv pending s -> vvNew s !! Z.to_nat nU = Some b -> (forall x, x ∈ l -> x ∈ b) ->
  (o = -1 \/ exists info, mapInfo s !! o = Some info) ->
  (forall r, (r = o \/ r ∈ l) -> (o = -1 -> (exists q, q ∈ n /\ nI <= q < nI + Z.of_nat (length l)) -> r ∈ l) -> Q r s) ->
  wp (shrink_oldest l n nI o) Q s.
Proof.
  intros I E. revert nI o Q. induction l as [|id l IH]; intros nI o Q Hl Ho HQ; cbn [shrink_oldest].
  { apply wp_return, HQ; [now left|]. intros _ (q & _ & Hq). cbn in Hq. lia. }
  destruct (in_new_has_info pending s (Z.to_nat nU) b id I E) as (info & Ei & Hi & Hpos); [apply Hl; left|].
  assert (Hl' : forall x, x ∈ l -> x ∈ b) by (intros x Hx; apply Hl; now right).
  assert (Next : forall o', (o' = id \/ o' = o) -> (o = -1 -> o' = id) ->
    wp (shrink_oldest l n (nI + 1) o') Q s).
  { intros o' Ho' Hid. apply IH; [assumption| |].
    - destruct Ho' as [->| ->]; [right; eauto|assumption].
    - intros r Hr _. apply HQ.
      + destruct Hr as [->|Hr]; [destruct Ho' as [->| ->]; [right; left|now left]|right; now right].
      + intros Ho1 _. rewrite (Hid Ho1) in Hr. destruct Hr as [->|Hr]; [left|now right]. }
  destruct (existsb (Z.eqb nI) n) eqn:X.
  - wp_steps; [rewrite Hi; apply orb_true_r|].
    destruct (Z.eqb_spec o (-1)) as [->|No].
    + wp_steps. apply Next; auto.
    + destruct Ho as [|(info' & Ei')]; [contradiction|]. wp_steps.
      apply (wp_info_at _ info); [assumption|]. wp_steps. apply (wp_info_at _ info'); [assumption|]. wp_steps.
      destruct (_ <? _); apply Next; auto; contradiction.
  - apply IH; [assumption..|]. intros r Hr Hq. apply HQ.
    + destruct Hr as [->|Hr]; [now left|right; now right].
    + intros Ho1 (q & Hqn & Hr1). right. apply Hq; [assumption|]. exists q. split; [assumption|].
      cbn [length] in Hr1. assert (q <> nI); [|lia]. intros ->.
      rewrite <- not_true_iff_false, existsb_exists in X. apply X. exists nI.
      split; [now apply list_elem_of_In|apply Z.eqb_refl].
Qed.

Lemma wp_ShrinkNew pending s nU b (Q : Z -> CAddrMan -> Prop) :
  inv pending s -> 0 <= nU < 256 -> vvNew s !! Z.to_nat nU = Some b -> b <> ∅ ->
  (forall x, pending = Some x -> x ∉ b) ->
  (forall r s', shrunk pending nU b s s' -> Q r s') ->
  wp (ShrinkNew RAND_bytes GetAdjustedTime tries nU) Q s.
Proof.
  intros I Hn E Hb Hp HQ. pose proof (nw_length _ _ _ (inv_new _ _ I)) as L.
  pose proof (nw_sizes _ _ _ (inv_new _ _ I)) as S. rewrite Forall_forall in S.
  specialize (S b ltac:(apply list_elem_of_lookup; eauto)).
  assert (Pb : forall x, x ∈ b -> pending <> Some x) by (intros x Hx P; now apply (Hp x P)).
  assert (Sz : (0 < size b)%nat).
  { destruct (size b) eqn:Es; [|lia]. apply size_empty_inv in Es. apply leibniz_equiv in Es. contradiction. }
  unfold ShrinkNew. wp_steps; [rewrite L; apply andb_true_iff; rewrite Z.leb_le, Z.ltb_lt; lia|].
  apply (wp_at _ _ b); [lia|assumption|]. wp_steps.
  apply (wp_shrink_terrible pending nU b); [assumption|lia|assumption| | |].
  - intros x Hx%elem_of_ascending. split; [assumption|now apply Pb].
  - cbv zeta. wp_steps. apply wp_GetRandInt; [assumption|lia|]. intros n0 H0. wp_steps.
    apply wp_GetRandInt; [assumption|lia|]. intros n1 H1. wp_steps.
    apply wp_GetRandInt; [assumption|lia|]. intros n2 H2. wp_steps.
    apply wp_GetRandInt; [assumption|lia|]. intros n3 H3. wp_steps.
    apply (wp_shrink_oldest pending nU b); [assumption..| |now left|].
    + intros x Hx. now apply elem_of_ascending.
    + intros r _ Hr. assert (Hrb : r ∈ b).
      { apply elem_of_ascending, Hr; [reflexivity|]. exists n0. split; [left|]. rewrite length_ascending. lia. }
      destruct (in_new_has_info pending s (Z.to_nat nU) b r I E Hrb) as (info & Ei & Hi & _).
      do 3 wp_step. wp_step; [assumption|]. apply (wp_forget 1 pending s nU b r); auto. lia.
  - intros s' H. wp_steps. now apply HQ.
Qed.
End Shrink.

(** ** Adding *)

Lemma wp_insert_new nU id b (Q : unit -> CAddrMan -> Prop) s :
  0 <= nU -> vvNew s !! Z.to_nat nU = Some b ->
  Q tt (with_vvNew (<[Z.to_nat nU := {[id]} ∪ b]> (vvNew s)) s) -> wp (insert_new nU id) Q s.
Proof.
  intros Hn E H. pose proof (lookup_lt_Some _ _ _ E). unfold insert_new. wp_steps.
  apply (wp_at _ _ b); [assumption..|]. wp_steps. apply wp_set_at; [lia|]. wp_steps. exact H.
Qed.

(** The references after an insertion, in terms of the entries [m'] and the pending entry. *)
Lemma new_insert_ok pending pending' m m' vv i b id :
  new_ok pending m vv -> vv !! i = Some b -> id ∉ b -> (size b < 64)%nat ->
  (forall x, x <> id -> tried m' x = tried m x /\ rc m' x = rc m x) ->
  tried m' id = Some false ->
  (forall c, rc m' id = Some c ->
     c = refs id vv + 1 + (if decide (pending' = Some id) then 1 else 0) /\ 1 <= c <= 4) ->
  (forall x, x <> id -> pending' = Some x <-> pending = Some x) ->
  new_ok pending' m' (<[i := {[id]} ∪ b]> vv).
Proof.
  intros [N1 N2 N3 N4 N5 N6] E Hid Sz Eq Tid Rid Pe.
  assert (Hb : b ∈ vv) by (apply list_elem_of_lookup; eauto).
  assert (R : forall x, refs x (<[i := {[id]} ∪ b]> vv) = if decide (x = id) then refs id vv + 1 else refs x vv).
  { intros x. rewrite (refs_insert x vv i b) by assumption. rewrite occurs_insert. destruct (decide (x = id)); [|lia].
    subst x. unfold occurs. rewrite decide_False by assumption. lia. }
  split.
  - now rewrite length_insert.
  - apply Forall_insert; [assumption|]. rewrite size_union by (rewrite disjoint_singleton_l; assumption).
    rewrite size_singleton. lia.
  - intros b' x Hb' Hx. destruct (decide (x = id)) as [->|Nx]; [assumption|]. rewrite (proj1 (Eq x Nx)).
    apply list_elem_of_lookup in Hb' as (j & Hj). apply list_lookup_insert_Some in Hj as [(-> & <- & _)|(_ & Hj)].
    + apply (N3 b); [assumption|]. apply elem_of_union in Hx as [Hx|Hx]; [|assumption].
      apply elem_of_singleton in Hx. contradiction.
    + apply (N3 b'); [apply list_elem_of_lookup; eauto|assumption].
  - intros x Hx. destruct (decide (x = id)) as [->|Nx]; [assumption|]. rewrite (proj1 (Eq x Nx)). apply N4, Pe; assumption.
  - intros x c Tx Rx. rewrite R. destruct (decide (x = id)) as [->|Nx]; [now apply Rid|].
    rewrite (proj1 (Eq x Nx)) in Tx. rewrite (proj2 (Eq x Nx)) in Rx. destruct (N5 x c Tx Rx) as [C1 C2]. split; [|assumption].
    rewrite C1. f_equal. specialize (Pe x Nx).
    destruct (decide (pending = Some x)), (decide (pending' = Some x)); try reflexivity; exfalso; tauto.
  - intros x Tx. destruct (decide (x = id)) as [->|Nx]; [rewrite Tid in Tx; discriminate|].
    rewrite (proj1 (Eq x Nx)) in Tx. rewrite (proj2 (Eq x Nx)). auto.
Qed.

Lemma inv_insert s i b id :
  inv (Some id) s -> vvNew s !! i = Some b -> id ∉ b -> (size b < 64)%nat ->
  consistent (with_vvNew (<[i := {[id]} ∪ b]> (vvNew s)) s).
Proof.
  intros [R A T N C1 C2 En L] E Hid Sz. split; wp_simpl; try assumption.
  apply (new_insert_ok (Some id) None (mapInfo s) (mapInfo s) (vvNew s) i b id); try assumption.
  - auto.
  - now apply (nw_pending _ _ _ N).
  - intros c Hc. destruct (nw_count _ _ _ N id c) as [H1 H2]; [now apply (nw_pending _ _ _ N)|assumption|].
    rewrite decide_True in H1 by reflexivity. rewrite decide_False by discriminate. lia.
  - intros x Hx. split; [discriminate|]. intros [= ->]. contradiction.
Qed.

(** One more reference to a known entry. *)
Lemma inv_pend s id info :
  consistent s -> mapInfo s !! id = Some info -> fInTried info = false -> nRefCount info <= 3 ->
  inv (Some id) (with_mapInfo (<[id := set_nRefCount (nRefCount info + 1) info]> (mapInfo s)) s).
Proof.
  intros [R A T [N1 N2 N3 N4 N5 N6] C1 C2 En L] E Ft Rc. set (m' := <[id := _]> (mapInfo s)).
  assert (Tt : forall x, tried m' x = tried (mapInfo s) x) by (intros x; now apply (proj_same _ _ _ info)).
  split; wp_simpl; try assumption.
  - eapply random_ext; [|exact R]. intros x. now apply (proj_same _ _ _ info).
  - eapply addr_ext; [|exact A]. intros x. now apply (proj_same _ _ _ info).
  - now apply (tried_ext (mapInfo s)).
  - split; try assumption.
    + intros b x Hb Hx. rewrite Tt. eauto.
    + intros x [= <-]. rewrite Tt, (proj_Some _ _ _ _ E), Ft. reflexivity.
    + intros x c Tx. rewrite Tt in Tx. subst m'. rewrite proj_insert. case_decide as D.
      * subst x. intros [= <-]. cbn [nRefCount set_nRefCount].
        destruct (N5 id (nRefCount info) Tx (proj_Some _ _ _ _ E)) as [H1 H2].
        rewrite decide_False in H1 by discriminate. rewrite decide_True by reflexivity. lia.
      * intros Rx. destruct (N5 x c Tx Rx) as [H1 H2]. rewrite decide_False in H1 by discriminate.
        rewrite decide_False by congruence. auto.
    + intros x Tx. rewrite Tt in Tx. subst m'. rewrite proj_insert. case_decide as D; [|auto].
      subst x. rewrite (proj_Some _ _ _ _ E), Ft in Tx. discriminate.
  - intros x j. subst m'. rewrite lookup_insert. case_decide; [|apply En]. intros [= <-]. subst x. exact (En id info E).
Qed.

Lemma fresh_id s : consistent s -> mapInfo s !! nIdCount s = None.
Proof.
  intros I. destruct (mapInfo s !! nIdCount s) as [info|] eqn:E; [|reflexivity].
  destruct (inv_entries _ _ I _ _ E) as (? & _). lia.
Qed.

(** A new entry with its first reference pending. *)
Lemma inv_create s info :
  consistent s -> mapAddr s !! info_ip info = None -> nIdCount s + 1 < 2 ^ 31 ->
  nRandomPos info = Z.of_nat (length (vRandom s)) -> fInTried info = false -> nRefCount info = 1 ->
  0 <= nLastTry (address_ info) -> 0 <= nLastSuccess info ->
  inv (Some (nIdCount s))
    (AddrMan (nKey s) (nIdCount s + 1) (<[nIdCount s := info]> (mapInfo s))
       (<[info_ip info := nIdCount s]> (mapAddr s)) (vRandom s ++ [nIdCount s]) (nTried s) (vvTried s)
       (nNew s + 1) (vvNew s)).
Proof.
  intros I Ha Hl Hp Ft Rc Lt Ls. pose proof (fresh_id s I) as F. destruct I as [R A T [N1 N2 N3 N4 N5 N6] C1 C2 En L].
  set (id := nIdCount s) in *.
  assert (P : forall {A} (f : CAddrInfo -> A) x, x <> id -> proj f (<[id := info]> (mapInfo s)) x = proj f (mapInfo s) x)
    by (intros; now rewrite proj_insert, decide_False by auto).
  assert (Q : forall {A} (f : CAddrInfo -> A), proj f (<[id := info]> (mapInfo s)) id = Some (f info))
    by (intros; now rewrite proj_insert, decide_True by auto).
  assert (Z : forall {A} (f : CAddrInfo -> A), proj f (mapInfo s) id = None) by (intros; unfold proj; now rewrite F).
  split; wp_simpl; try assumption.
  - split; intros *.
    + rewrite proj_insert. case_decide as D.
      * subst. intros [= <-]. split; [lia|]. rewrite lookup_app_r by lia.
        replace (_ - _)%nat with 0%nat by lia. reflexivity.
      * intros H. apply (rnd_pos _ _ R) in H as [Hq H]. split; [assumption|]. now apply lookup_app_l_Some.
    + intros H. destruct (decide (i < length (vRandom s))%nat).
      * rewrite lookup_app_l in H by assumption. apply (rnd_id _ _ R) in H. rewrite P; [assumption|].
        intros ->. rewrite Z in H. discriminate.
      * rewrite lookup_app_r in H by lia. destruct (i - length (vRandom s))%nat as [|k] eqn:Ei; [|discriminate].
        injection H as <-. rewrite Q, Hp. f_equal. lia.
  - intros x j. rewrite lookup_insert, proj_insert. case_decide as D; case_decide as D'.
    + subst. split; reflexivity.
    + split; [intros [= <-]; contradiction|]. intros H. apply A in H. rewrite <- D in H. congruence.
    + subst j. split; [|intros [= <-]; contradiction]. intros H. apply A in H. rewrite Z in H. discriminate.
    + apply A.
  - destruct T as [T1 T2 T3 T4]. split; try assumption. intros x. rewrite T4.
    destruct (decide (x = id)) as [->|Nx]; [rewrite Z, Q, Ft; split; discriminate|now rewrite P].
  - assert (NB : refs id (vvNew s) = 0).
    { pose proof (refs_nonneg id (vvNew s)). destruct (decide (refs id (vvNew s) = 0)); [assumption|].
      destruct (refs_pos id (vvNew s)) as (b & Hb & Hx); [lia|]. specialize (N3 b id Hb Hx). rewrite Z in N3. discriminate. }
    split; try assumption.
    + intros b x Hb Hx. rewrite P; [eauto|]. intros ->. specialize (N3 b id Hb Hx). rewrite Z in N3. discriminate.
    + intros x [= <-]. now rewrite Q, Ft.
    + intros x c. destruct (decide (x = id)) as [->|Nx].
      * rewrite !Q. intros _ [= <-]. rewrite NB, decide_True by reflexivity. lia.
      * rewrite !P by assumption. intros Tx Rx. destruct (N5 x c Tx Rx) as [H1 H2].
        rewrite decide_False in H1 by discriminate. rewrite decide_False by congruence. auto.
    + intros x. destruct (decide (x = id)) as [->|Nx]; [rewrite Q, Ft; discriminate|]. rewrite !P by assumption. auto.
  - rewrite length_app. cbn [length]. lia.
  - intros x j. rewrite lookup_insert. case_decide as D.
    + intros [= <-]. subst x. unfold entry_ok. rewrite Ft. repeat split; (lia || discriminate).
    + intros H. destruct (En x j H) as (? & ?). split; [lia|assumption].
  - lia.
Qed.
