(* ===== verification/AddrManOps.v ===== *)
(** * The operations keep the table of addresses consistent

    [Add_], [Attempt_], [Connected_], [GetAddr_], [MakeTried] and [Good_] run to
    their end from a consistent object and leave it consistent. *)

From stdpp Require Import gmap list sorting.
From Stdlib Require Import ZArith Lia.
From S2P Require Import Prelude SphTypes Uint256 Serialize Transaction NetBase AddrMan AddrManProof.
Local Open Scope Z_scope.

Lemma wp_Find addr s (Q : option Z -> CAddrMan -> Prop) :
  consistent s -> (mapAddr s !! addr = None -> Q None s) ->
  (forall id info, mapAddr s !! addr = Some id -> mapInfo s !! id = Some info -> info_ip info = addr ->
     Q (Some id) s) ->
  wp (Find addr) Q s.
Proof.
  intros I HN HS. unfold Find. wp_steps. destruct (mapAddr s !! addr) as [id|] eqn:E; [|now apply wp_return, HN].
  wp_steps. pose proof (proj1 (inv_addr _ _ I addr id) E) as P. unfold proj in P.
  destruct (mapInfo s !! id) as [info|] eqn:Ei; [|discriminate]. injection P as P.
  unfold has_info. rewrite Ei. now apply HS with info.
Qed.

(** The address is in the table. *)
Definition known (s : CAddrMan) (addr : list Z) : Prop := is_Some (mapAddr s !! addr).

Lemma known_ips s addr : addr_ok (mapInfo s) (mapAddr s) -> known s addr <-> exists id, ips (mapInfo s) id = Some addr.
Proof. intros A. split; [intros [id E]|intros [id E]]; exists id; now apply A. Qed.

Lemma wp_change_nNew d Q s :
  - 2 ^ 31 <= nNew s + d < 2 ^ 31 -> Q tt (with_nNew (nNew s + d) s) -> wp (change_nNew d) Q s.
Proof. intros H HQ. unfold change_nNew. wp_steps; assumption. Qed.

Section Operations.
  Variable p : platform.
  Variable SHA256 : list Z -> list Z.
  Context (RAND_bytes : nat -> Z) (tries : nat) {source_ : RandomSource RAND_bytes tries}.
  Variable GetAdjustedTime : nat -> Z.

Lemma GetNewBucket_range info key src : 0 <= GetNewBucket p SHA256 info key src < 256.
Proof. apply Z.mod_pos_bound. reflexivity. Qed.

Lemma GetTriedBucket_range info key : 0 <= GetTriedBucket p SHA256 info key < 64.
Proof. apply Z.mod_pos_bound. reflexivity. Qed.

(** ** Add_ *)

(** The end of [Add_]: room in the bucket, and the new reference. *)
Lemma wp_place nU b nId (fNew : bool) s (Q : bool -> CAddrMan -> Prop) :
  inv (Some nId) s -> 0 <= nU < 256 -> vvNew s !! Z.to_nat nU = Some b -> nId ∉ b ->
  (forall s', consistent s' -> ips (mapInfo s') nId = ips (mapInfo s) nId -> Q fNew s') ->
  wp ((if Z.of_nat (size b) =? ADDRMAN_NEW_BUCKET_SIZE
       then ShrinkNew RAND_bytes GetAdjustedTime tries nU;; return_ tt else return_ tt);;
      insert_new nU nId;; return_ fNew) Q s.
Proof.
  intros I Hn E Hid HQ. pose proof (nw_sizes _ _ _ (inv_new _ _ I)) as S. rewrite Forall_forall in S.
  specialize (S b ltac:(apply list_elem_of_lookup; eauto)). apply wp_bind.
  unfold ADDRMAN_NEW_BUCKET_SIZE. destruct (Z.eqb_spec (Z.of_nat (size b)) 64) as [Z1|Z1].
  - wp_steps. apply (wp_ShrinkNew RAND_bytes tries GetAdjustedTime (Some nId) s nU b); try assumption.
    + intros ->. discriminate Z1.
    + now intros x [= <-].
    + intros _ s' (I' & _ & id & Hb & EV & Eq). wp_steps.
      assert (E' : vvNew s' !! Z.to_nat nU = Some (b ∖ {[id]})).
      { rewrite EV. apply list_lookup_insert_eq. now apply lookup_lt_Some in E. }
      apply (wp_insert_new nU nId (b ∖ {[id]})); [lia|assumption|]. wp_steps. apply HQ.
      * apply inv_insert; [assumption..| |].
        -- rewrite elem_of_difference. tauto.
        -- rewrite size_difference by (intros x Hx%elem_of_singleton; now subst). rewrite size_singleton. lia.
      * wp_simpl. apply (proj_no_pos info_ip); [reflexivity|]. apply Eq. intros ->. contradiction.
  - wp_steps. apply (wp_insert_new nU nId b); [lia|assumption|]. wp_steps. apply HQ; [|reflexivity].
    apply inv_insert; [assumption..|lia].
Qed.

Lemma trunc32_signed n : 0 <= n < 2 ^ 31 -> signed 4 (trunc 32 n) = n.
Proof.
  intros Hn. rewrite trunc_id by (unfold word; lia). unfold signed.
  change (2 ^ (8 * Z.of_nat 4 - 1)) with (2 ^ 31). now rewrite (proj2 (Z.ltb_lt _ _)) by lia.
Qed.

Lemma wp_refresh id info addr penalty s (Q : bool -> CAddrMan -> Prop) :
  consistent s -> mapInfo s !! id = Some info ->
  (forall (go : bool) s' info', consistent s' -> nKey s' = nKey s -> mapInfo s' !! id = Some info' ->
     vvNew s' = vvNew s -> info_ip info' = info_ip info ->
     (go = true -> fInTried info' = false /\ nRefCount info' <= 3) -> Q go s') ->
  wp (refresh RAND_bytes GetAdjustedTime tries id addr penalty) Q s.
Proof.
  intros I E HQ. destruct (inv_entries _ _ I id info E) as (En1 & En2 & En3 & En4).
  unfold refresh. wp_steps. apply (wp_info_at _ info); [assumption|]. wp_steps.
  (* the update of nTime, or none *)
  assert (Go : forall s1 info1, consistent s1 -> nKey s1 = nKey s -> mapInfo s1 !! id = Some info1 -> vvNew s1 = vvNew s ->
    info_ip info1 = info_ip info ->
    wp (info ← info_at id;
        update_info id (set_nServices (nServices (address_ info) .| nServices addr));;
        (if (nTime addr =? 0) || (negb (nTime (address_ info) =? 0) && (nTime addr <=? nTime (address_ info)))
         then return_ false
         else if fInTried info then return_ false
         else if nRefCount info =? ADDRMAN_NEW_BUCKETS_PER_ADDRESS then return_ false
         else nFactor ← Nat.iter (Z.to_nat (nRefCount info)) (fun m => f ← m; int_of (f * 2)) (return_ 1);
              if 1 <? nFactor then r ← GetRandInt RAND_bytes tries nFactor; return_ (r =? 0) else return_ true)) Q s1).
  { intros s1 info1 I1 EK1 E1 EV1 Ip1. destruct (inv_entries _ _ I1 id info1 E1) as (F1 & F2 & F3 & F4).
    wp_steps. apply (wp_info_at _ info1); [assumption|]. wp_steps. apply (wp_update_info _ info1); [assumption|].
    set (info2 := set_nServices _ info1).
    assert (I2 : consistent (with_mapInfo (<[id := info2]> (mapInfo s1)) s1))
      by (apply (inv_update None s1 id info1 info2); (assumption || reflexivity || (repeat split; assumption || lia))).
    assert (E2 : mapInfo (with_mapInfo (<[id := info2]> (mapInfo s1)) s1) !! id = Some info2) by apply lookup_insert_eq.
    set (s2 := with_mapInfo _ s1) in *.
    assert (HQ2 : forall go : bool, (go = true -> fInTried info1 = false /\ nRefCount info1 <= 3) -> Q go s2).
    { intros go Hgo. apply (HQ go s2 info2); try assumption; subst s2; wp_simpl; assumption. }
    destruct (_ || _); [apply wp_return, HQ2; discriminate|].
    destruct (fInTried info1) eqn:Ft; [apply wp_return, HQ2; discriminate|].
    unfold ADDRMAN_NEW_BUCKETS_PER_ADDRESS. destruct (Z.eqb_spec (nRefCount info1) 4) as [R4|R4]; [apply wp_return, HQ2; discriminate|].
    destruct (nw_count _ _ _ (inv_new _ _ I1) id (nRefCount info1)) as [_ Rc];
      [now rewrite (proj_Some _ _ _ _ E1), Ft|now apply proj_Some|].
    apply wp_bind.
    assert (C : nRefCount info1 = 1 \/ nRefCount info1 = 2 \/ nRefCount info1 = 3) by lia.
    assert (W : forall n, (n <= 3)%nat -> wp (Nat.iter n (fun m => f ← m; int_of (f * 2)) (return_ 1))
      (fun f s' => s' = s2 /\ 1 <= f <= 2 ^ Z.of_nat n) s2).
    { induction n as [|n IHn]; intros Hn3; [now apply wp_return|]. cbn [Nat.iter nat_rect].
      apply wp_bind. eapply wp_mono; [apply IHn; lia|]. intros f s' [-> Hf].
      assert (2 ^ Z.of_nat n <= 4) by (change 4 with (2 ^ 2); apply Z.pow_le_mono_r; lia).
      apply wp_int_of; [lia|]. split; [reflexivity|]. rewrite Nat2Z.inj_succ, Z.pow_succ_r by lia. lia. }
    eapply wp_mono; [apply W; lia|]. intros f s' [-> Hf].
    assert (2 ^ Z.of_nat (Z.to_nat (nRefCount info1)) <= 8) by (change 8 with (2 ^ 3); apply Z.pow_le_mono_r; lia).
    assert (OkT : fInTried info1 = false /\ nRefCount info1 <= 3) by (split; [assumption|lia]).
    destruct (1 <? f).
    - wp_steps. apply wp_GetRandInt; [assumption|lia|]. intros r Hr. wp_steps. apply HQ2. intros _. exact (conj eq_refl (proj2 OkT)).
    - apply wp_return, HQ2. intros _. exact (conj eq_refl (proj2 OkT)). }
  destruct (_ && _).
  - apply (wp_update_info _ info); [assumption|].
    eapply Go; [| |wp_simpl; apply lookup_insert_eq| |]; try reflexivity.
    apply (inv_update None s id info); (assumption || reflexivity || (repeat split; assumption || lia)).
  - apply wp_return. now apply (Go s info).
Qed.

Lemma CAddrInfo_new_ip addr src : info_ip (CAddrInfo_new addr src) = ip (service addr).
Proof. reflexivity. Qed.

Lemma wp_Add addr src penalty s :
  consistent s -> nIdCount s + 1 < 2 ^ 31 ->
  wp (Add_ p SHA256 RAND_bytes GetAdjustedTime tries addr src penalty)
    (fun added s' => consistent s' /\
       (added = true -> IsRoutable (ip (service addr)) = true /\ ~ known s (ip (service addr))) /\
       (IsRoutable (ip (service addr)) = true -> known s' (ip (service addr)) /\
          (~ known s (ip (service addr)) -> added = true))) s.
Proof.
  intros I Hl. unfold Add_. destruct (IsRoutable (ip (service addr))) eqn:Ro; cbn [negb].
  2:{ apply wp_return. split; [assumption|]. split; discriminate. }
  wp_step. apply wp_Find; [assumption| |].
  - (* a new entry *)
    intros HN. pose proof (inv_bound _ _ I) as B. pose proof (inv_limit _ _ I) as Lm.
    pose proof (inv_counters _ _ I) as Tn.
    pose proof (inv_total _ _ I) as Tot.
    do 2 wp_step. unfold Create. wp_steps; [lia|]. wp_steps.
    apply (wp_update_info _ (CAddrInfo_new addr src)); [wp_simpl; apply lookup_insert_eq|]. wp_steps.
    rewrite trunc32_signed by lia. rewrite insert_insert_eq.
    set (info1 := set_nRandomPos _ _).
    apply (wp_info_at _ info1); [wp_simpl; apply lookup_insert_eq|]. wp_steps.
    apply (wp_update_info _ info1); [wp_simpl; apply lookup_insert_eq|]. wp_steps.
    set (info2 := set_nTime _ info1). wp_simpl. rewrite insert_insert_eq. apply wp_change_nNew; wp_simpl; [lia|]. wp_steps. cbn [negb]. wp_steps.
    apply (wp_info_at _ info2); [wp_simpl; apply lookup_insert_eq|]. wp_steps.
    set (nU := GetNewBucket _ _ _ _ _). assert (HU : 0 <= nU < 256) by apply GetNewBucket_range.
    destruct (lookup_lt_is_Some_2 (vvNew s) (Z.to_nat nU)) as [b E]; [rewrite (nw_length _ _ _ (inv_new _ _ I)); lia|].
    apply (wp_at _ _ b); [lia|assumption|]. wp_steps.
    assert (Hb : nIdCount s ∉ b).
    { intros Hb. pose proof (nw_in _ _ _ (inv_new _ _ I) b _ ltac:(apply list_elem_of_lookup; eauto) Hb) as T.
      unfold proj in T. now rewrite (fresh_id s I) in T. }
    rewrite bool_decide_eq_false_2 by assumption. wp_step. apply wp_int_of; [cbn; lia|]. wp_steps.
    apply (wp_update_info _ info2); [wp_simpl; apply lookup_insert_eq|]. wp_simpl. rewrite insert_insert_eq.
    set (info3 := set_nRefCount _ info2).
    match goal with |- wp _ _ ?st => set (s1 := st) end.
    assert (I1 : inv (Some (nIdCount s)) s1)
      by (apply (inv_create s info3); (assumption || reflexivity || (cbn; lia))).
    apply (wp_place nU b (nIdCount s) true s1); try assumption.
    intros s' I' Ip. split; [assumption|]. split.
    + intros _. split; [reflexivity|]. intros [j Hj]. congruence.
    + intros _. split; [|reflexivity]. apply (known_ips s' _ (inv_addr _ _ I')). exists (nIdCount s). rewrite Ip.
      subst s1. wp_simpl. rewrite proj_insert, decide_True by reflexivity. reflexivity.
  - (* a known entry *)
    intros id info Ea Ei Eip. do 2 wp_step. apply (wp_refresh id info); [assumption..|].
    intros go s1 info1 I1 EK1 E1 EV1 Ip1 Hgo. wp_steps.
    assert (K : forall s', consistent s' -> ips (mapInfo s') id = Some (ip (service addr)) ->
      forall added : bool, added = false ->
      consistent s' /\ (added = true -> true = true /\ ~ known s (ip (service addr))) /\
      (true = true -> known s' (ip (service addr)) /\ (~ known s (ip (service addr)) -> added = true))).
    { intros s' I' Ip added ->. split; [assumption|]. split; [discriminate|]. intros _. split.
      - apply (known_ips s' _ (inv_addr _ _ I')). eauto.
      - intros Nk. exfalso. apply Nk. exists id. assumption. }
    assert (Ip1' : ips (mapInfo s1) id = Some (ip (service addr))) by (rewrite (proj_Some _ _ _ _ E1), Ip1, Eip; reflexivity).
    destruct go; cbn [negb]; [|apply wp_return; now apply K]. destruct (Hgo eq_refl) as [Ft Rc].
    wp_steps. apply (wp_info_at _ info1); [assumption|]. wp_steps.
    set (nU := GetNewBucket _ _ _ _ _). assert (HU : 0 <= nU < 256) by apply GetNewBucket_range.
    destruct (lookup_lt_is_Some_2 (vvNew s1) (Z.to_nat nU)) as [b E]; [rewrite (nw_length _ _ _ (inv_new _ _ I1)); lia|].
    apply (wp_at _ _ b); [lia|assumption|]. case_bool_decide as Hb; [apply wp_return; now apply K|].
    destruct (nw_count _ _ _ (inv_new _ _ I1) id (nRefCount info1)) as [_ Rc'];
      [now rewrite (proj_Some _ _ _ _ E1), Ft|now apply proj_Some|].
    wp_step. apply wp_int_of; [lia|]. wp_steps. apply (wp_update_info _ info1); [assumption|].
    apply (wp_place nU b id false _); try assumption; [now apply inv_pend|].
    intros s' I' Ip. apply K; [assumption| |reflexivity]. rewrite Ip. wp_simpl.
    rewrite (proj_same info_ip (mapInfo s1) id info1) by (assumption || reflexivity). assumption.
Qed.

(** ** Attempt_ and Connected_ *)

Lemma wp_Attempt addr t s :
  consistent s -> 0 <= t ->
  (forall id info, mapInfo s !! id = Some info -> nAttempts info + 1 < 2 ^ 31 /\ - 2 ^ 31 <= nAttempts info) ->
  wp (Attempt_ addr t) (fun _ s' => consistent s') s.
Proof.
  intros I Ht Ha. unfold Attempt_. wp_step. apply wp_Find; [assumption|intros _; now apply wp_return|].
  intros id info _ E _. wp_steps. apply (wp_info_at _ info); [assumption|].
  destruct (negb _); [now apply wp_return|]. wp_steps. apply (wp_update_info _ info); [assumption|].
  destruct (inv_entries _ _ I id info E) as (F1 & F2 & F3 & F4). specialize (Ha id info E).
  wp_steps; [lia|]. apply (wp_update_info _ (set_nLastTry t info)); [wp_simpl; apply lookup_insert_eq|].
  wp_simpl. rewrite insert_insert_eq.
  apply (inv_update None s id info); (assumption || reflexivity || (repeat split; assumption || lia)).
Qed.

Lemma wp_Connected addr t s :
  consistent s -> wp (Connected_ addr t) (fun _ s' => consistent s') s.
Proof.
  intros I. unfold Connected_. wp_step. apply wp_Find; [assumption|intros _; now apply wp_return|].
  intros id info _ E _. wp_steps. apply (wp_info_at _ info); [assumption|].
  destruct (negb _); [now apply wp_return|]. destruct (_ <? _); [|now apply wp_return].
  destruct (inv_entries _ _ I id info E) as (F1 & F2 & F3 & F4).
  apply (wp_update_info _ info); [assumption|].
  apply (inv_update None s id info); (assumption || reflexivity || (repeat split; assumption || lia)).
Qed.

(** ** GetAddr_ *)

(** Swapping two positions keeps the whole object consistent. *)
Lemma inv_swapped pending s m' v' :
  inv pending s -> random_ok m' v' -> (forall id, proj no_pos m' id = proj no_pos (mapInfo s) id) ->
  length v' = length (vRandom s) -> inv pending (with_vRandom v' (with_mapInfo m' s)).
Proof.
  intros [R A T N C1 C2 En L] R' Eq Lv. split; wp_simpl; try assumption.
  - apply (addr_ext (mapInfo s)); [|assumption]. intros x. now apply (proj_no_pos info_ip).
  - apply (tried_ext (mapInfo s)); [|assumption]. intros x. now apply (proj_no_pos fInTried).
  - apply (new_ext _ (mapInfo s)); [..|assumption]; intros x; [now apply (proj_no_pos fInTried)|now apply (proj_no_pos nRefCount)].
  - lia.
  - now apply (entries_no_pos (mapInfo s)).
Qed.

(** The addresses given away are in the table, and there are as many as asked for. *)
Lemma wp_getaddr_loop fuel n vAddr s :
  consistent s -> 0 <= n -> n + Z.of_nat fuel <= Z.of_nat (length (vRandom s)) ->
  Forall (fun a => known s (ip (service a))) vAddr ->
  wp (getaddr_loop RAND_bytes tries fuel n vAddr)
    (fun r s' => consistent s' /\ length (vRandom s') = length (vRandom s) /\ mapAddr s' = mapAddr s /\
       length r = (length vAddr + fuel)%nat /\ Forall (fun a => known s' (ip (service a))) r) s.
Proof.
  revert n vAddr s. induction fuel as [|fuel IH]; intros n vAddr s I Hn Hl Hv; cbn [getaddr_loop].
  { apply wp_return. rewrite Nat.add_0_r. auto. }
  pose proof (inv_bound _ _ I) as B. wp_steps. apply wp_GetRandInt; [assumption|lia|]. intros r Hr. wp_steps; [lia|]. wp_steps.
  rewrite !trunc_id by (unfold word; lia). apply wp_SwapRandom; [apply I|lia..|].
  intros m' v' R' Eq Lv Ev. set (s1 := with_vRandom v' (with_mapInfo m' s)).
  assert (I1 : consistent s1) by now apply inv_swapped.
  destruct (lookup_lt_is_Some_2 v' (Z.to_nat n)) as [id Eid]; [lia|].
  pose proof (rnd_id _ _ R' _ _ Eid) as P. unfold proj in P.
  destruct (m' !! id) as [info|] eqn:Ei; [|discriminate].
  wp_steps. apply (wp_at _ _ id); [lia|assumption|]. wp_steps; [unfold has_info; change (mapInfo s1) with m'; now rewrite Ei|].
  wp_steps. apply (wp_info_at _ info); [assumption|].
  eapply wp_mono; [apply (IH (n + 1) (vAddr ++ [address_ info]) s1 I1); [lia|subst s1; wp_simpl; lia|]|].
  - apply Forall_app. split; [exact Hv|]. apply Forall_cons. split; [|constructor].
    apply (known_ips s1 _ (inv_addr _ _ I1)). exists id. apply (proj_Some info_ip m' id info Ei).
  - intros a s' (H1 & H2 & H3 & H4 & H5). rewrite length_app in H4. cbn [length] in H4.
    split; [exact H1|]. split; [rewrite H2; exact Lv|]. split; [exact H3|]. split; [lia|exact H5].
Qed.

Lemma wp_GetAddr s :
  consistent s ->
  wp (GetAddr_ RAND_bytes tries)
    (fun r s' => consistent s' /\ Z.of_nat (length r) = Z.min 2500 (23 * Z.of_nat (length (vRandom s)) / 100) /\
       Forall (fun a => known s (ip (service a))) r) s.
Proof.
  intros I. unfold GetAddr_. wp_steps. unfold ADDRMAN_GETADDR_MAX_PCT, ADDRMAN_GETADDR_MAX.
  assert (D : 0 <= 23 * Z.of_nat (length (vRandom s)) / 100 <= Z.of_nat (length (vRandom s)))
    by (split; [apply Z.div_pos; lia|apply Z.div_le_upper_bound; lia]).
  set (k := if _ <? _ then _ else _). assert (K : k = Z.min 2500 (23 * Z.of_nat (length (vRandom s)) / 100))
    by (subst k; destruct (Z.ltb_spec 2500 (23 * Z.of_nat (length (vRandom s)) / 100)); lia).
  eapply wp_mono; [apply wp_getaddr_loop; [assumption|lia|lia|constructor]|].
  intros r s' (H1 & _ & H3 & H4 & H5). split; [assumption|]. split; [cbn in H4; lia|].
  unfold known in *. now rewrite H3 in H5.
Qed.

(** ** MakeTried *)

Lemma set_nRefCount_twice a b i : set_nRefCount a (set_nRefCount b i) = set_nRefCount a i.
Proof. reflexivity. Qed.

Lemma set_nRefCount_same i : set_nRefCount (nRefCount i) i = i.
Proof. now destruct i. Qed.

Lemma refs_drop id vv i b : vv !! i = Some b -> refs id (drop i vv) = occurs id b + refs id (drop (S i) vv).
Proof. intros E. rewrite (drop_S vv b i E). apply refs_cons. Qed.

Lemma erase_idem id (vv : list (gset Z)) i b :
  vv !! i = Some b ->
  (fun c => c ∖ {[id]}) <$> <[i := b ∖ {[id]}]> vv = (fun c => c ∖ {[id]}) <$> vv.
Proof.
  intros E. rewrite list_fmap_insert. apply list_insert_id. rewrite list_lookup_fmap, E. cbn. f_equal.
  apply set_eq. intros x. rewrite !elem_of_difference. tauto.
Qed.

Lemma erase_nothing id (vv : list (gset Z)) : (forall b, b ∈ vv -> id ∉ b) -> (fun c => c ∖ {[id]}) <$> vv = vv.
Proof.
  intros H. rewrite <- (list_fmap_id vv) at 2. apply list_fmap_ext. intros i b E. cbn. apply set_eq. intros x.
  rewrite elem_of_difference, elem_of_singleton. specialize (H b ltac:(apply list_elem_of_lookup; eauto)).
  split; [tauto|]. intros Hx. split; [assumption|]. intros ->. contradiction.
Qed.

Lemma wp_erase_from_all fuel i nId info s (Q : unit -> CAddrMan -> Prop) :
  mapInfo s !! nId = Some info -> (length (vvNew s) <= i + fuel)%nat -> (length (vvNew s) <= 256)%nat ->
  nRefCount info = refs nId (drop i (vvNew s)) ->
  (forall j b, (j < i)%nat -> vvNew s !! j = Some b -> nId ∉ b) ->
  Q tt (with_mapInfo (<[nId := set_nRefCount 0 info]> (mapInfo s))
          (with_vvNew ((fun c => c ∖ {[nId]}) <$> vvNew s) s)) ->
  wp (erase_from_all fuel i nId) Q s.
Proof.
  revert i info s. induction fuel as [|fuel IH]; intros i info s E Hf Hl Rc Hj HQ; cbn [erase_from_all].
  - assert (X : (fun c => c ∖ {[nId]}) <$> vvNew s = vvNew s).
    { apply erase_nothing. intros b Hb. apply list_elem_of_lookup in Hb as (j & Hb). apply (Hj j b); [|assumption].
      apply lookup_lt_Some in Hb. lia. }
    rewrite X in HQ. rewrite drop_ge in Rc by lia. change (refs nId []) with 0 in Rc. rewrite <- Rc, set_nRefCount_same, insert_id in HQ by assumption.
    apply wp_return. now destruct s.
  - wp_steps. destruct (vvNew s !! i) as [b|] eqn:Eb.
    + rewrite (refs_drop nId _ i b Eb) in Rc. unfold occurs in Rc. pose proof (refs_nonneg nId (drop (S i) (vvNew s))).
      assert (refs nId (drop (S i) (vvNew s)) <= 256).
      { unfold refs. pose proof (length_filter (fun b => nId ∈ b) (drop (S i) (vvNew s))). rewrite length_drop in *. lia. }
      case_bool_decide as D.
      * rewrite decide_True in Rc by assumption. wp_steps. apply (wp_info_at _ info); [assumption|]. wp_steps; [lia|].
        apply (wp_update_info _ info); [assumption|]. wp_simpl.
        apply (IH (S i) (set_nRefCount (nRefCount info - 1) info)); wp_simpl.
        -- apply lookup_insert_eq.
        -- rewrite length_insert. lia.
        -- now rewrite length_insert.
        -- rewrite drop_insert_lt by lia. cbn [nRefCount set_nRefCount]. lia.
        -- intros j c Hji Hc. destruct (decide (j = i)) as [->|Nj].
           ++ rewrite list_lookup_insert_eq in Hc by (now apply lookup_lt_Some in Eb). injection Hc as <-.
              rewrite elem_of_difference, elem_of_singleton. tauto.
           ++ rewrite list_lookup_insert_ne in Hc by auto. apply (Hj j); [lia|assumption].
        -- rewrite insert_insert_eq, erase_idem by assumption. rewrite set_nRefCount_twice. exact HQ.
      * rewrite decide_False in Rc by assumption. wp_steps. apply (IH (S i) info); try assumption; [lia|].
        intros j c Hji Hc. destruct (decide (j = i)) as [->|Nj]; [rewrite Eb in Hc; now injection Hc as <-|].
        apply (Hj j); [lia|assumption].
    + apply lookup_ge_None in Eb.
      assert (X : (fun c => c ∖ {[nId]}) <$> vvNew s = vvNew s).
      { apply erase_nothing. intros b Hb. apply list_elem_of_lookup in Hb as (j & Hb). apply (Hj j b); [|assumption].
        apply lookup_lt_Some in Hb. lia. }
      rewrite X in HQ. rewrite drop_ge in Rc by lia. change (refs nId []) with 0 in Rc. rewrite <- Rc, set_nRefCount_same, insert_id in HQ by assumption.
      apply wp_return. now destruct s.
Qed.

(** What becomes of the parts of the invariant when an entry moves. *)
Lemma new_moved m m' vv id :
  new_ok None m vv -> (forall x, x <> id -> tried m' x = tried m x /\ rc m' x = rc m x) ->
  tried m' id = Some true -> rc m' id = Some 0 ->
  new_ok None m' ((fun c => c ∖ {[id]}) <$> vv).
Proof.
  intros [N1 N2 N3 N4 N5 N6] Eq Tid Rid.
  assert (R : forall x, x <> id -> refs x ((fun c => c ∖ {[id]}) <$> vv) = refs x vv).
  { intros x Hx. clear - Hx. induction vv as [|b vv IH]; [reflexivity|]. rewrite fmap_cons, !refs_cons, IH.
    rewrite occurs_erase, decide_False by assumption. reflexivity. }
  split.
  - now rewrite length_fmap.
  - apply Forall_fmap. refine (Forall_impl _ _ _ N2 _). intros b Hb. cbn.
    assert (size (b ∖ {[id]}) <= size b)%nat by (apply subseteq_size; intros y; rewrite elem_of_difference; tauto). lia.
  - intros b x Hb Hx. apply list_elem_of_fmap in Hb as (c & -> & Hc).
    apply elem_of_difference in Hx as [Hx Nx]. rewrite elem_of_singleton in Nx. rewrite (proj1 (Eq x Nx)). eauto.
  - discriminate.
  - intros x c Tx Rx. destruct (decide (x = id)) as [->|Nx]; [rewrite Tid in Tx; discriminate|].
    rewrite (proj1 (Eq x Nx)) in Tx. rewrite (proj2 (Eq x Nx)) in Rx. rewrite R by assumption. auto.
  - intros x Tx. destruct (decide (x = id)) as [->|Nx]; [assumption|].
    rewrite (proj1 (Eq x Nx)) in Tx. rewrite (proj2 (Eq x Nx)). auto.
Qed.

Lemma concat_insert {A} (vv : list (list A)) i b :
  vv !! i = Some b -> exists rest, concat vv ≡ₚ b ++ rest /\ forall b', concat (<[i := b']> vv) ≡ₚ b' ++ rest.
Proof.
  revert i. induction vv as [|c vv IH]; intros i E; [discriminate|]. destruct i as [|i].
  - injection E as ->. exists (concat vv). split; [reflexivity|]. intros b'. reflexivity.
  - destruct (IH i E) as (rest & H1 & H2). exists (c ++ rest). split.
    + cbn [concat]. rewrite H1. apply Permutation_app_swap_app.
    + intros b'. change (concat (<[S i := b']> (c :: vv))) with (c ++ concat (<[i := b']> vv)).
      rewrite H2. apply Permutation_app_swap_app.
Qed.

(** A bucket gets other contents: the tried entries are those of [m']. *)
Lemma tried_insert m m' vv i b b' :
  tried_ok m vv -> vv !! i = Some b -> (length b' <= 64)%nat ->
  (forall rest, NoDup (b ++ rest) -> (forall id, id ∈ b ++ rest <-> tried m id = Some true) ->
     NoDup (b' ++ rest) /\ forall id, id ∈ b' ++ rest <-> tried m' id = Some true) ->
  tried_ok m' (<[i := b']> vv).
Proof.
  intros [T1 T2 T3 T4] E L H. destruct (concat_insert vv i b E) as (rest & H1 & H2).
  rewrite H1 in T3. destruct (H rest T3) as [ND IN]; [intros x; rewrite <- H1; apply T4|]. split.
  - now rewrite length_insert.
  - now apply Forall_insert.
  - now rewrite H2.
  - intros id. rewrite H2. apply IN.
Qed.

(** [SelectTried] shuffles its bucket and returns a position in it. *)
Lemma swap_permutation (b : list Z) i j x y :
  b !! i = Some x -> b !! j = Some y -> <[i := y]> (<[j := x]> b) ≡ₚ b.
Proof.
  intros Ei Ej. apply Permutation_sym. destruct (decide (i = j)) as [->|N].
  - rewrite list_insert_insert_eq. rewrite Ei in Ej. injection Ej as ->. now rewrite list_insert_id.
  - apply Permutation_inj. split; [now rewrite !length_insert|].
    exists (fun k => if decide (k = i) then j else if decide (k = j) then i else k). split.
    + intros a c. repeat case_decide; congruence.
    + intros k. pose proof (lookup_lt_Some _ _ _ Ei). pose proof (lookup_lt_Some _ _ _ Ej).
      repeat case_decide; subst.
      * rewrite list_lookup_insert_ne, list_lookup_insert_eq by (auto; lia). assumption.
      * rewrite list_lookup_insert_eq by (rewrite length_insert; lia). assumption.
      * now rewrite !list_lookup_insert_ne by auto.
Qed.

Lemma insert_permutation (b : list Z) i x y :
  b !! i = Some x -> exists u, b ≡ₚ x :: u /\ <[i := y]> b ≡ₚ y :: u.
Proof.
  intros E. exists (take i b ++ drop (S i) b). pose proof (lookup_lt_Some _ _ _ E). split.
  - rewrite <- (take_drop_middle b i x E) at 1. symmetry. apply Permutation_middle.
  - rewrite insert_take_drop by assumption. symmetry. apply Permutation_middle.
Qed.

Lemma wp_select_loop fuel kb i o op b s (Q : Z -> CAddrMan -> Prop) :
  0 <= kb -> vvTried s !! Z.to_nat kb = Some b -> 0 <= i -> (length b <= 64)%nat ->
  (forall x, x ∈ b -> has_info s x = true) -> (o = -1 \/ has_info s o = true) ->
  (0 <= op < Z.of_nat (length b) \/ (i < Z.of_nat (length b) /\ o = -1 /\ (0 < fuel)%nat)) ->
  (forall b' r, b' ≡ₚ b -> 0 <= r < Z.of_nat (length b) ->
     Q r (with_vvTried (<[Z.to_nat kb := b']> (vvTried s)) s)) ->
  wp (select_loop RAND_bytes tries fuel kb i o op) Q s.
Proof.
  intros Hk E Hi Hl Hh Ho Hop HQ. revert i o op b s Hi E Hl Hh Ho Hop HQ.
  induction fuel as [|fuel IH]; intros i o op b s Hi E Hl Hh Ho Hop HQ; cbn [select_loop].
  { apply wp_return. destruct Hop as [Hop|(_ & _ & ?)]; [|lia].
    specialize (HQ b op (Permutation_refl b) Hop). rewrite list_insert_id in HQ by assumption. now destruct s. }
  wp_steps. apply (wp_at _ _ b); [assumption..|].
  destruct (Z.ltb_spec i (Z.of_nat (length b))) as [Li|Li].
  2:{ apply wp_return. destruct Hop as [Hop|(? & _)]; [|lia].
      specialize (HQ b op (Permutation_refl b) Hop). rewrite list_insert_id in HQ by assumption. now destruct s. }
  wp_steps. apply wp_GetRandInt; [assumption|lia|]. intros r Hr. wp_steps; [lia|]. wp_steps.
  destruct (lookup_lt_is_Some_2 b (Z.to_nat (r + i))) as [y Ey]; [lia|].
  destruct (lookup_lt_is_Some_2 b (Z.to_nat i)) as [x Ex]; [lia|].
  apply (wp_at _ _ y); [lia|assumption|]. wp_steps. apply (wp_at _ _ x); [lia|assumption|]. wp_steps.
  apply wp_set_at; [lia|]. wp_steps. apply wp_set_at; [rewrite length_insert; lia|]. wp_steps.
  apply wp_set_at; [split; [assumption|]; apply lookup_lt_Some in E; lia|].
  set (b1 := <[Z.to_nat i := y]> (<[Z.to_nat (r + i) := x]> b)).
  assert (P : b1 ≡ₚ b) by now apply swap_permutation.
  assert (Lb : length b1 = length b) by now apply Permutation_length.
  assert (Hy : has_info s y = true) by (apply Hh, list_elem_of_lookup; eauto).
  do 2 wp_step. set (s1 := with_vvTried _ s).
  assert (Next : forall o' op', (o' = -1 \/ has_info s o' = true) -> 0 <= op' < Z.of_nat (length b) ->
    wp (select_loop RAND_bytes tries fuel kb (i + 1) o' op') Q s1).
  { intros o' op' Ho' Hop'. apply (IH _ o' op' b1); subst s1; wp_simpl; try assumption.
    - lia.
    - apply list_lookup_insert_eq. now apply lookup_lt_Some in E.
    - lia.
    - intros z Hz. apply Hh. now rewrite <- P.
    - left. lia.
    - intros b' q Hb' Hq. rewrite list_insert_insert_eq. apply HQ; [now rewrite Hb'|lia]. }
  wp_steps; [change (has_info s1 y) with (has_info s y); rewrite Hy; apply orb_true_r|].
  destruct (Z.eqb_spec o (-1)) as [->|No].
  - wp_steps. apply Next; [now right|lia].
  - destruct Ho as [|Ho]; [contradiction|]. unfold has_info in Hy, Ho.
    destruct (mapInfo s !! y) as [iy|] eqn:Eiy; [|discriminate]. destruct (mapInfo s !! o) as [io|] eqn:Eio; [|discriminate].
    wp_steps. apply (wp_info_at _ iy); [assumption|]. wp_steps. apply (wp_info_at _ io); [assumption|]. wp_steps.
    destruct Hop as [Hop|(_ & ? & _)]; [|contradiction].
    destruct (_ <? _); apply Next; try lia; right; unfold has_info; [now rewrite Eiy|now rewrite Eio].
Qed.

(** The entry [nId] goes to the end of a bucket of [vvTried]. *)
Lemma inv_append s nId info kb t vv1 :
  consistent s -> mapInfo s !! nId = Some info -> fInTried info = false -> nLastSuccess info <> 0 ->
  new_ok None (<[nId := set_fInTried true (set_nRefCount 0 info)]> (mapInfo s)) vv1 ->
  vvTried s !! kb = Some t -> (length t < 64)%nat ->
  consistent (AddrMan (nKey s) (nIdCount s)
    (<[nId := set_fInTried true (set_nRefCount 0 info)]> (mapInfo s))
    (mapAddr s) (vRandom s) (nTried s + 1) (<[kb := t ++ [nId]]> (vvTried s)) (nNew s + -1) vv1).
Proof.
  intros [R A T N C1 C2 En L] E Ft Ls NA Et Lt.
  assert (NT : tried (mapInfo s) nId = Some false) by now rewrite (proj_Some _ _ _ _ E), Ft.
  split; wp_simpl; try assumption; try lia.
  - apply (random_ext (mapInfo s)); [|assumption]. intros x. now apply (proj_same _ _ _ info).
  - apply (addr_ext (mapInfo s)); [|assumption]. intros x. now apply (proj_same _ _ _ info).
  - apply (tried_insert (mapInfo s) _ (vvTried s) kb t); try assumption.
    + rewrite length_app. cbn [length]. lia.
    + intros rest ND IN. assert (Hn : nId ∉ t ++ rest) by (rewrite IN, NT; discriminate).
      rewrite <- app_assoc. cbn [app]. split.
      * rewrite <- Permutation_middle. now apply NoDup_cons.
      * intros x. rewrite <- Permutation_middle, elem_of_cons, IN, proj_insert. case_decide as D.
        -- subst x. split; auto.
        -- split; [intros [->|]; [contradiction|assumption]|auto].
  - destruct (concat_insert (vvTried s) kb t Et) as (rest & H1 & H2).
    rewrite (Permutation_length (H2 _)). rewrite C1, (Permutation_length H1), !length_app. cbn [length]. lia.
  - intros x j. rewrite lookup_insert. case_decide; [|apply En]. intros [= <-]. subst x.
    destruct (En nId info E) as (F1 & F2 & F3 & F4). split; [assumption|]. split; [assumption|]. split; [assumption|]. intros _. exact Ls.
Qed.

(** The entry [nId] takes the place of [old], which goes back to a bucket of [vvNew]. *)
Lemma inv_evict s nId info old infoO kb t t' nPos vv1 k d :
  consistent s -> mapInfo s !! nId = Some info -> fInTried info = false -> nLastSuccess info <> 0 ->
  mapInfo s !! old = Some infoO -> fInTried infoO = true ->
  new_ok None (<[nId := set_fInTried true (set_nRefCount 0 info)]> (mapInfo s)) vv1 ->
  vvTried s !! kb = Some t -> t' ≡ₚ t -> t' !! nPos = Some old ->
  vv1 !! k = Some d -> (size d < 64)%nat ->
  consistent (AddrMan (nKey s) (nIdCount s)
    (<[old := set_nRefCount 1 (set_fInTried false infoO)]>
       (<[nId := set_fInTried true (set_nRefCount 0 info)]> (mapInfo s)))
    (mapAddr s) (vRandom s) (nTried s) (<[kb := <[nPos := nId]> t']> (vvTried s)) (nNew s)
    (<[k := {[old]} ∪ d]> vv1)).
Proof.
  intros [R A T N C1 C2 En L] E Ft Ls Eo Fo NA Et Pt Ep Ed Sd.
  assert (No : nId <> old) by (intros ->; congruence).
  set (infoT := set_fInTried true _) in *. set (infoN := set_nRefCount 1 _).
  set (mA := <[nId := infoT]> (mapInfo s)) in *. set (m2 := <[old := infoN]> mA).
  assert (EA : mA !! old = Some infoO) by (subst mA; now rewrite lookup_insert_ne).
  assert (PA : forall {X} (f : CAddrInfo -> X) x, x <> nId -> proj f mA x = proj f (mapInfo s) x)
    by (intros; subst mA; now rewrite proj_insert, decide_False by auto).
  assert (P2 : forall {X} (f : CAddrInfo -> X) x, x <> old -> proj f m2 x = proj f mA x)
    by (intros; subst m2; now rewrite proj_insert, decide_False by auto).
  assert (NT : tried (mapInfo s) nId = Some false) by now rewrite (proj_Some _ _ _ _ E), Ft.
  assert (OT : tried (mapInfo s) old = Some true) by now rewrite (proj_Some _ _ _ _ Eo), Fo.
  assert (Same : forall {X} (f : CAddrInfo -> X), f infoT = f info -> f infoN = f infoO ->
    forall x, proj f m2 x = proj f (mapInfo s) x)
    by (intros X f F1 F2 x; subst m2; rewrite (proj_same f mA old infoO) by assumption; now apply (proj_same f _ _ info)).
  split; wp_simpl; try assumption.
  - apply (random_ext (mapInfo s)); [|assumption]. now apply Same.
  - apply (addr_ext (mapInfo s)); [|assumption]. now apply Same.
  - pose proof (tr_sizes _ _ T) as Sz. rewrite Forall_forall in Sz. specialize (Sz t ltac:(apply list_elem_of_lookup; eauto)).
    apply (tried_insert (mapInfo s) m2 (vvTried s) kb t); try assumption; [now rewrite length_insert, (Permutation_length Pt)|].
    intros rest ND IN. destruct (insert_permutation t' nPos old nId Ep) as (u & U1 & U2).
    rewrite <- Pt in ND. rewrite U1 in ND. assert (IN' : forall x, x ∈ old :: u ++ rest <-> tried (mapInfo s) x = Some true)
      by (intros x; rewrite <- IN, <- Pt, U1; reflexivity).
    cbn [app] in ND. apply NoDup_cons in ND as [O1 ND]. split.
    + rewrite U2. cbn [app]. apply NoDup_cons. split; [|assumption]. intros X.
      assert (tried (mapInfo s) nId = Some true) by (apply IN'; now right). congruence.
    + intros x. rewrite U2. cbn [app]. rewrite elem_of_cons. destruct (decide (x = old)) as [->|N1].
      * subst m2. rewrite proj_insert, decide_True by reflexivity. cbn. split; [|discriminate].
        intros [->|X]; contradiction.
      * rewrite P2 by assumption. destruct (decide (x = nId)) as [->|N2].
        -- subst mA. rewrite proj_insert, decide_True by reflexivity. split; auto.
        -- rewrite PA by assumption. rewrite <- IN', elem_of_cons. tauto.
  - assert (OB : forall b, b ∈ vv1 -> old ∉ b).
    { intros b Hb X. pose proof (nw_in _ _ _ NA b old Hb X) as Y. rewrite PA, OT in Y by auto. discriminate. }
    apply (new_insert_ok None None mA m2 vv1 k d old); try assumption.
    + apply OB, list_elem_of_lookup. eauto.
    + intros x Hx. now rewrite !P2.
    + subst m2. now rewrite proj_insert, decide_True.
    + intros c. subst m2. rewrite proj_insert, decide_True by reflexivity. intros [= <-]. cbn.
      rewrite decide_False by discriminate. pose proof (refs_nonneg old vv1).
      destruct (decide (refs old vv1 = 0)) as [->|]; [lia|].
      destruct (refs_pos old vv1) as (b & Hb & X); [lia|]. now apply OB in X.
    + intros x _. split; discriminate.
  - destruct (concat_insert (vvTried s) kb t Et) as (rest & H1 & H2).
    rewrite (Permutation_length (H2 _)). rewrite C1, (Permutation_length H1), !length_app, length_insert. now rewrite (Permutation_length Pt).
  - intros x j. subst m2 mA. rewrite lookup_insert. case_decide.
    { intros [= <-]. subst x. destruct (En old infoO Eo) as (F1 & F2 & F3 & F4). repeat split; (assumption || lia || discriminate). }
    rewrite lookup_insert. case_decide; [|apply En]. intros [= <-]. subst x.
    destruct (En nId info E) as (F1 & F2 & F3 & F4). split; [assumption|]. split; [assumption|]. split; [assumption|]. intros _. exact Ls.
Qed.

Lemma size_erase id (b : gset Z) : id ∈ b -> (size (b ∖ {[id]}) < size b)%nat.
Proof.
  intros H. rewrite size_difference by (intros x Hx%elem_of_singleton; now subst). rewrite size_singleton.
  destruct (size b) eqn:E; [|lia]. apply size_empty_inv in E. apply (E id) in H. now apply elem_of_empty in H.
Qed.

(** The end of an eviction, with [old] put in the bucket [k]. *)
Lemma wp_replace s nId info old infoO kb t t' nPos vv1 k d st :
  consistent s -> mapInfo s !! nId = Some info -> fInTried info = false -> nLastSuccess info <> 0 ->
  mapInfo s !! old = Some infoO -> fInTried infoO = true -> nId <> old ->
  new_ok None (<[nId := set_fInTried true (set_nRefCount 0 info)]> (mapInfo s)) vv1 ->
  0 <= kb < 64 -> vvTried s !! Z.to_nat kb = Some t -> t' ≡ₚ t ->
  0 <= nPos < Z.of_nat (length t) -> t' !! Z.to_nat nPos = Some old ->
  0 <= k < 256 -> vv1 !! Z.to_nat k = Some d -> (size d < 64)%nat ->
  st = AddrMan (nKey s) (nIdCount s)
         (<[old := set_nRefCount 1 (set_fInTried false infoO)]> (<[nId := set_nRefCount 0 info]> (mapInfo s)))
         (mapAddr s) (vRandom s) (nTried s) (<[Z.to_nat kb := t']> (vvTried s)) (nNew s + -1) vv1 ->
  wp (insert_new k old) (fun _ st' => wp
    (change_nNew 1;;
     (vTried ← set_at t' nPos nId; vvT ← set_at (<[Z.to_nat kb := t']> (vvTried s)) kb vTried;
      modify (with_vvTried vvT);; update_info nId (set_fInTried true)))
    (fun _ s' => consistent s' /\ tried (mapInfo s') nId = Some true) st') st.
Proof.
  intros I E Ft Ls Ei Fo No NA Hk Et Pt Hpos Eo Hk' Ed Sd ->. pose proof (inv_counters _ _ I) as Cn.
  pose proof (tr_length _ _ (inv_tried _ _ I)) as TL. pose proof (Permutation_length Pt) as Lt.
  apply (wp_insert_new k old d); [lia|assumption|]. wp_steps. apply wp_change_nNew; wp_simpl; [lia|]. wp_steps.
  apply wp_set_at; [lia|]. wp_steps. apply wp_set_at; [rewrite length_insert; lia|]. wp_steps.
  eapply wp_update_info; [wp_simpl; rewrite lookup_insert_ne by auto; apply lookup_insert_eq|].
  wp_simpl. rewrite list_insert_insert_eq.
  rewrite (insert_insert_ne _ nId old) by assumption. rewrite insert_insert_eq.
  split; [|wp_simpl; rewrite proj_insert, decide_False by auto; now rewrite proj_insert, decide_True].
  replace (nNew s + -1 + 1) with (nNew s) by lia.
  apply (inv_evict s nId info old infoO (Z.to_nat kb) t t' (Z.to_nat nPos) vv1 (Z.to_nat k) d); assumption.
Qed.

Lemma wp_MakeTried nId info nOrigin b s :
  consistent s -> mapInfo s !! nId = Some info -> fInTried info = false -> nLastSuccess info <> 0 ->
  0 <= nOrigin < 256 -> vvNew s !! Z.to_nat nOrigin = Some b -> nId ∈ b ->
  wp (MakeTried p SHA256 RAND_bytes tries nId nOrigin)
    (fun _ s' => consistent s' /\ tried (mapInfo s') nId = Some true) s.
Proof.
  intros I E Ft Ls Ho Eb Hb. pose proof (inv_counters _ _ I) as Cn. pose proof I as [R A T N C1 C2 En L].
  destruct (nw_count _ _ _ N nId (nRefCount info)) as [Rc _];
    [now rewrite (proj_Some _ _ _ _ E), Ft|now apply proj_Some|]. rewrite decide_False, Z.add_0_r in Rc by discriminate.
  unfold MakeTried. wp_steps. apply (wp_at _ _ b); [lia|assumption|].
  wp_steps; [now apply bool_decide_eq_true_2|].
  apply (wp_erase_from_all _ 0 nId info); [assumption|lia|rewrite (nw_length _ _ _ N); lia|assumption|intros; lia|].
  set (info0 := set_nRefCount 0 info). set (vv1 := _ <$> vvNew s).
  wp_steps. apply wp_change_nNew; wp_simpl; [lia|]. wp_steps. apply (wp_info_at _ info0); [wp_simpl; apply lookup_insert_eq|].
  wp_steps; [reflexivity|]. wp_steps. set (kb := GetTriedBucket _ _ _ _). assert (Hk : 0 <= kb < 64) by apply GetTriedBucket_range.
  destruct (lookup_lt_is_Some_2 (vvTried s) (Z.to_nat kb)) as [t Et]; [rewrite (tr_length _ _ T); lia|].
  apply (wp_at _ _ t); [lia|assumption|].
  set (infoT := set_fInTried true info0). set (mA := <[nId := infoT]> (mapInfo s)).
  assert (PA : forall {X} (f : CAddrInfo -> X) x, x <> nId -> proj f mA x = proj f (mapInfo s) x)
    by (intros; subst mA; now rewrite proj_insert, decide_False by auto).
  assert (NA : new_ok None mA vv1).
  { apply (new_moved (mapInfo s)); [assumption|intros x Hx; now rewrite !PA| |]; subst mA; now rewrite proj_insert, decide_True. }
  assert (NT : tried (mapInfo s) nId = Some false) by now rewrite (proj_Some _ _ _ _ E), Ft.
  pose proof (tr_sizes _ _ T) as Sz. rewrite Forall_forall in Sz. specialize (Sz t ltac:(apply list_elem_of_lookup; eauto)).
  unfold ADDRMAN_TRIED_BUCKET_SIZE. destruct (Z.ltb_spec (Z.of_nat (length t)) 64) as [Lt|Lt].
  - (* room in the bucket *)
    wp_steps. apply wp_set_at; [rewrite (tr_length _ _ T); lia|]. unfold change_nTried. wp_steps; [lia|]. wp_steps.
    apply (wp_update_info _ info0); [wp_simpl; apply lookup_insert_eq|]. wp_simpl. rewrite insert_insert_eq.
    split; [|wp_simpl; now rewrite proj_insert, decide_True].
    apply (inv_append s nId info (Z.to_nat kb) t vv1); (assumption || lia).
  - (* eviction *)
    assert (Hi : forall x, x ∈ t -> exists i, mapInfo s !! x = Some i /\ fInTried i = true).
    { intros x Hx. assert (X : tried (mapInfo s) x = Some true)
        by (apply (tr_iff _ _ T), elem_of_concat; exists t; split; [assumption|apply list_elem_of_lookup; eauto]).
      unfold proj in X. destruct (mapInfo s !! x) as [i|]; [|discriminate]. injection X as X. eauto. }
    wp_steps. unfold SelectTried.
    apply (wp_select_loop _ kb 0 (-1) (-1) t); wp_simpl; [lia|assumption|lia|assumption| |now left| |].
    { intros x Hx. unfold has_info. wp_simpl. rewrite lookup_insert. case_decide; [reflexivity|].
      destruct (Hi x Hx) as (i & -> & _). reflexivity. }
    { right. split; [lia|]. split; [reflexivity|]. apply Nat.lt_0_succ. }
    intros t' nPos Pt Hpos. pose proof (Permutation_length Pt) as Lt'.
    destruct (lookup_lt_is_Some_2 t' (Z.to_nat nPos)) as [old Eo]; [lia|].
    assert (Hold : old ∈ t) by (rewrite <- Pt; apply list_elem_of_lookup; eauto).
    destruct (Hi old Hold) as (infoO & Ei & Fo).
    assert (No : nId <> old) by (intros ->; rewrite (proj_Some _ _ _ _ Ei), Fo in NT; discriminate).
    destruct (concat_insert (vvTried s) (Z.to_nat kb) t Et) as (rest & H1 & H2).
    wp_steps. apply (wp_at _ _ t'); [lia|apply list_lookup_insert_eq; rewrite (tr_length _ _ T); lia|].
    wp_steps. apply (wp_at _ _ old); [lia|assumption|].
    wp_steps; [unfold has_info; wp_simpl; now rewrite lookup_insert_ne, Ei|].
    wp_steps. apply (wp_info_at _ infoO); [wp_simpl; now rewrite lookup_insert_ne|]. wp_steps.
    set (kU := GetNewBucket _ _ _ _ _). assert (HU : 0 <= kU < 256) by apply GetNewBucket_range.
    assert (Lv : length vv1 = 256%nat) by apply (nw_length _ _ _ NA).
    destruct (lookup_lt_is_Some_2 vv1 (Z.to_nat kU)) as [c Ec]; [lia|].
    apply (wp_at _ _ c); [lia|assumption|]. wp_steps.
    apply (wp_update_info _ infoO); [wp_simpl; now rewrite lookup_insert_ne|]. wp_steps.
    apply (wp_update_info _ (set_fInTried false infoO)); [wp_simpl; apply lookup_insert_eq|]. wp_simpl.
    rewrite insert_insert_eq. set (infoN := set_nRefCount 1 _).
    apply wp_bind. unfold ADDRMAN_NEW_BUCKET_SIZE. destruct (Z.ltb_spec (Z.of_nat (size c)) 64) as [Sc|Sc].
    + apply (wp_replace s nId info old infoO kb t t' nPos vv1 kU c); (assumption || reflexivity || lia).
    + apply (wp_replace s nId info old infoO kb t t' nPos vv1 nOrigin (b ∖ {[nId]})); try (assumption || reflexivity || lia).
      * subst vv1. now rewrite list_lookup_fmap, Eb.
      * pose proof (nw_sizes _ _ _ N) as Sn. rewrite Forall_forall in Sn.
        specialize (Sn b ltac:(apply list_elem_of_lookup; eauto)). pose proof (size_erase nId b Hb). lia.
Qed.

(** ** Good_ *)

Lemma wp_find_bucket fuel n nRnd nId s (Q : Z -> CAddrMan -> Prop) :
  length (vvNew s) = 256%nat -> 0 <= n -> 0 <= nRnd -> n + Z.of_nat fuel = 256 ->
  (exists n' b, n <= n' < 256 /\ vvNew s !! Z.to_nat ((n' + nRnd) mod 256) = Some b /\ nId ∈ b) ->
  (forall nB b, 0 <= nB < 256 -> vvNew s !! Z.to_nat nB = Some b -> nId ∈ b -> Q nB s) ->
  wp (find_bucket fuel n nRnd nId) Q s.
Proof.
  intros L Hn Hr. revert n Hn. induction fuel as [|fuel IH]; intros n Hn Hf (n' & b' & Hn' & E' & Hb') HQ; cbn [find_bucket]; [lia|].
  wp_steps. rewrite L. change (Z.of_nat 256) with 256. rewrite (proj2 (Z.ltb_lt n 256)) by lia.
  pose proof (Z.mod_pos_bound (n + nRnd) 256 eq_refl) as B.
  destruct (lookup_lt_is_Some_2 (vvNew s) (Z.to_nat ((n + nRnd) mod 256))) as [b E]; [lia|].
  wp_steps. apply (wp_at _ _ b); [lia|assumption|]. case_bool_decide as D; [apply wp_return; now apply (HQ _ b)|].
  apply IH; [lia|lia| |assumption]. exists n', b'. split; [|auto]. destruct (decide (n' = n)) as [->|]; [|lia].
  rewrite E in E'. injection E' as ->. contradiction.
Qed.

Lemma wp_Good addr t s :
  consistent s -> 0 < t ->
  wp (Good_ p SHA256 RAND_bytes tries addr t)
    (fun _ s' => consistent s' /\
       (forall id info, mapAddr s !! ip addr = Some id -> mapInfo s !! id = Some info ->
          CService_equal (service (address_ info)) addr = true -> tried (mapInfo s') id = Some true)) s.
Proof.
  intros I Ht. unfold Good_. wp_step. apply wp_Find; [assumption| |].
  { intros E. apply wp_return. split; [assumption|]. intros id info E'. congruence. }
  intros id info Ea E _. wp_step. apply (wp_info_at _ info); [assumption|].
  assert (Same : forall s', consistent s' ->
    (CService_equal (service (address_ info)) addr = true -> tried (mapInfo s') id = Some true) ->
    consistent s' /\ (forall id0 info0, mapAddr s !! ip addr = Some id0 -> mapInfo s !! id0 = Some info0 ->
       CService_equal (service (address_ info0)) addr = true -> tried (mapInfo s') id0 = Some true)).
  { intros s' I' H. split; [assumption|]. intros id' info' E1 E2. rewrite Ea in E1. injection E1 as <-.
    rewrite E in E2. injection E2 as <-. assumption. }
  destruct (CService_equal _ _); cbn [negb]; [|apply wp_return, Same; [assumption|discriminate]].
  wp_steps. apply (wp_update_info _ info); [assumption|].
  wp_steps. apply (wp_update_info _ (set_nLastSuccess t info)); [wp_simpl; apply lookup_insert_eq|]. wp_simpl. rewrite insert_insert_eq.
  wp_steps. apply (wp_update_info _ (set_nLastTry t (set_nLastSuccess t info))); [wp_simpl; apply lookup_insert_eq|]. wp_simpl. rewrite insert_insert_eq.
  wp_steps. eapply wp_update_info; [wp_simpl; apply lookup_insert_eq|]. wp_simpl. rewrite insert_insert_eq.
  set (infoG := set_nAttempts 0 _). destruct (inv_entries _ _ I id info E) as (F1 & F2 & F3 & F4).
  assert (I1 : consistent (with_mapInfo (<[id := infoG]> (mapInfo s)) s))
    by (apply (inv_update None s id info); (assumption || reflexivity || (repeat split; cbn; lia))).
  match goal with |- wp _ _ ?st => change st with (with_mapInfo (<[id := infoG]> (mapInfo s)) s) end.
  set (s1 := with_mapInfo _ s) in *. assert (E1 : mapInfo s1 !! id = Some infoG) by apply lookup_insert_eq.
  destruct (fInTried info) eqn:Ft.
  { apply wp_return, Same; [assumption|]. intros _. rewrite (proj_Some _ _ _ _ E1). cbn. now rewrite Ft. }
  pose proof (inv_new _ _ I1) as N1. pose proof (nw_length _ _ _ N1) as L1.
  destruct (nw_count _ _ _ N1 id (nRefCount info)) as [Rc Rp];
    [rewrite (proj_Some _ _ _ _ E1); cbn; now rewrite Ft|now rewrite (proj_Some _ _ _ _ E1)|].
  rewrite decide_False in Rc by discriminate. destruct (refs_pos id (vvNew s1)) as (b & Hb & Hid); [lia|].
  apply list_elem_of_lookup in Hb as (j & Ej). pose proof (lookup_lt_Some _ _ _ Ej) as Lj.
  wp_steps. change (vvNew s) with (vvNew s1). rewrite L1. apply wp_GetRandInt; [assumption|cbn; lia|]. intros r Hr.
  wp_steps. apply wp_find_bucket; [assumption|lia|lia|reflexivity| |].
  { exists ((Z.of_nat j - r) mod 256), b. split; [apply Z.mod_pos_bound; reflexivity|].
    split; [|assumption]. rewrite Zplus_mod_idemp_l. replace (Z.of_nat j - r + r) with (Z.of_nat j) by lia.
    rewrite Z.mod_small by lia. now rewrite Nat2Z.id. }
  intros nB c HB Ec Hc. rewrite (proj2 (Z.eqb_neq nB (-1))) by lia.
  eapply wp_mono; [apply (wp_MakeTried id infoG nB c); try assumption; cbn; lia|].
  cbv beta. intros _ s' [I' T']. apply Same; auto.
Qed.

End Operations.

(** ** The self-test of the table of addresses

    [Check_] finds nothing wrong with a consistent object. *)

(** ** The loop over the entries *)

(** What the loop collects from the entries [ids]: the tried ones, and the references of the others. *)
Record collected (m : gmap Z CAddrInfo) (ids : list Z) (setTried : gset Z) (mapNew : gmap Z Z) : Prop := {
  col_tried : forall id, id ∈ setTried <-> id ∈ ids /\ tried m id = Some true;
  col_new : forall id c, mapNew !! id = Some c <-> id ∈ ids /\ tried m id = Some false /\ rc m id = Some c
}.

Lemma check_entries_ok s ids : consistent s -> forall seen setTried mapNew,
  NoDup (seen ++ ids) -> (forall x, x ∈ ids -> is_Some (mapInfo s !! x)) ->
  collected (mapInfo s) seen setTried mapNew ->
  exists T N, check_entries ids s setTried mapNew = inr (T, N, s) /\ collected (mapInfo s) (seen ++ ids) T N.
Proof.
  intros I. induction ids as [|n ids IH]; intros seen setTried mapNew ND Hs Col; cbn [check_entries].
  { exists setTried, mapNew. rewrite app_nil_r. auto. }
  destruct (Hs n) as [info E]; [left|]. rewrite E. destruct (inv_entries _ _ I n info E) as (F1 & F2 & F3 & F4).
  pose proof (proj_Some fInTried _ _ _ E) as PT. pose proof (proj_Some nRefCount _ _ _ E) as PR.
  assert (A : mapAddr s !! info_ip info = Some n) by (apply (inv_addr _ _ I); now rewrite (proj_Some _ _ _ _ E)).
  destruct (rnd_pos _ _ (inv_random _ _ I) n (nRandomPos info)) as [P1 P2]; [now apply proj_Some|].
  pose proof (lookup_lt_Some _ _ _ P2) as P3.
  assert (Fresh : n ∉ seen) by (intros X; apply NoDup_app in ND as (_ & ND & _); apply (ND n X); left).
  assert (Tail : forall T' N', collected (mapInfo s) (seen ++ [n]) T' N' ->
    exists T N, (if negb (default 0 (mapAddr s !! info_ip info) =? n) then inl (-5)
       else if (nRandomPos info <? 0) || (Z.of_nat (length (vRandom s)) <=? nRandomPos info) ||
               negb (bool_decide (vRandom s !! Z.to_nat (nRandomPos info) = Some n)) then inl (-14)
       else if nLastTry (address_ info) <? 0 then inl (-6)
       else if nLastSuccess info <? 0 then inl (-8) else check_entries ids s T' N') = inr (T, N, s) /\
      collected (mapInfo s) (seen ++ n :: ids) T N).
  { intros T' N' Col'. rewrite A. cbn [default from_option id]. rewrite Z.eqb_refl. cbn [negb].
    rewrite bool_decide_eq_true_2 by assumption. cbn [negb].
    rewrite !(proj2 (Z.ltb_ge _ 0)) by lia. rewrite (proj2 (Z.leb_gt _ _)) by lia. cbn [orb].
    replace (seen ++ n :: ids) with ((seen ++ [n]) ++ ids) in * by now rewrite <- app_assoc.
    apply IH; [assumption| |assumption]. intros x Hx. apply Hs. now right. }
  destruct Col as [ColT ColN]. rewrite A. destruct (fInTried info) eqn:Ft.
  - pose proof (nw_tried _ _ _ (inv_new _ _ I) n PT) as R0. rewrite PR in R0. injection R0 as ->.
    rewrite (proj2 (Z.eqb_neq _ _)) by auto. cbn [Z.eqb negb]. apply Tail. split.
    + intros x. rewrite elem_of_union, elem_of_singleton, ColT, elem_of_app, list_elem_of_singleton.
      split; [intros [->|]; tauto|]. intros [[?|?] ?]; [right; tauto|now left].
    + intros x c. rewrite ColN, elem_of_app, list_elem_of_singleton. split; [tauto|].
      intros ([?| ->] & X & ?); [tauto|]. rewrite PT in X. discriminate.
  - destruct (nw_count _ _ _ (inv_new _ _ I) n _ PT PR) as [_ B]. unfold ADDRMAN_NEW_BUCKETS_PER_ADDRESS.
    rewrite (proj2 (Z.ltb_ge _ _)), (proj2 (Z.ltb_ge _ _)) by lia. cbn [orb].
    rewrite (proj2 (Z.eqb_neq _ _)) by lia. apply Tail. split.
    + intros x. rewrite ColT, elem_of_app, list_elem_of_singleton. split; [tauto|].
      intros ([?| ->] & X); [tauto|]. rewrite PT in X. discriminate.
    + intros x c. rewrite lookup_insert, elem_of_app, list_elem_of_singleton. destruct (decide (n = x)) as [<-|D].
      * rewrite PT, PR. split; [intros [= <-]; auto|]. intros (_ & _ & X). exact X.
      * rewrite ColN. split; [tauto|]. intros ([?| ->] & ?); [tauto|contradiction].
Qed.

(** ** The loops over the buckets *)

Lemma check_tried_ok l X : NoDup l -> (forall id, id ∈ X <-> id ∈ l) -> check_tried l X = Some ∅.
Proof.
  intros ND. revert X. induction ND as [|id l Hid ND IH]; intros X H; cbn [check_tried].
  - f_equal. apply set_eq. intros x. rewrite H, elem_of_empty. split; [apply not_elem_of_nil|contradiction].
  - rewrite bool_decide_eq_true_2 by (apply H; left). apply IH. intros x.
    rewrite elem_of_difference, elem_of_singleton, H, elem_of_cons. split; [tauto|].
    intros Hx. split; [now right|]. intros ->. contradiction.
Qed.

Definition count (x : Z) (l : list Z) : Z := Z.of_nat (length (filter (eq x) l)).

Lemma count_cons x y l : count x (y :: l) = (if decide (x = y) then 1 else 0) + count x l.
Proof. unfold count. rewrite filter_cons. case_decide; cbn [length]; lia. Qed.

Lemma count_app x l l' : count x (l ++ l') = count x l + count x l'.
Proof. unfold count. rewrite filter_app, length_app. lia. Qed.

Lemma count_nonneg x l : 0 <= count x l.
Proof. unfold count. lia. Qed.

Lemma count_zero x l : x ∉ l -> count x l = 0.
Proof.
  induction l as [|y l IH]; intros H; [reflexivity|]. apply not_elem_of_cons in H as [H1 H2].
  rewrite count_cons, decide_False, IH by assumption. reflexivity.
Qed.

Lemma count_once x l : NoDup l -> x ∈ l -> count x l = 1.
Proof.
  induction 1 as [|y l Hy ND IH]; intros H; [now apply elem_of_nil in H|]. rewrite count_cons. case_decide as D.
  - subst y. now rewrite (count_zero x l).
  - rewrite elem_of_cons in H. destruct H as [|H]; [contradiction|]. now rewrite IH.
Qed.

Lemma count_buckets x vv : count x (concat (map ascending vv)) = refs x vv.
Proof.
  induction vv as [|b vv IH]; [reflexivity|]. cbn [map concat]. rewrite count_app, refs_cons, IH. f_equal.
  unfold occurs. case_decide as D.
  - apply count_once; [apply NoDup_ascending|now apply elem_of_ascending].
  - apply count_zero. now rewrite elem_of_ascending.
Qed.

Lemma check_new_ok l N :
  (forall id c, N !! id = Some c -> c = count id l /\ 1 <= c) ->
  (forall id, id ∈ l -> is_Some (N !! id)) -> check_new l N = Some ∅.
Proof.
  revert N. induction l as [|id l IH]; intros N H1 H2; cbn [check_new].
  - f_equal. apply map_empty. intros id. destruct (N !! id) as [c|] eqn:E; [|reflexivity].
    apply H1 in E. change (count id []) with 0 in E. lia.
  - destruct (H2 id) as [c E]; [left|]. rewrite E. destruct (H1 id c E) as [C1 C2].
    rewrite count_cons, decide_True in C1 by reflexivity.
    assert (Other : forall x c', x <> id -> N !! x = Some c' -> c' = count x l /\ 1 <= c').
    { intros x c' Hx Ex. apply H1 in Ex as [E1 E2]. rewrite count_cons, decide_False in E1 by assumption. split; [lia|assumption]. }
    assert (Rest : forall x, x <> id -> x ∈ l -> is_Some (N !! x)) by (intros x Hx Hl; apply H2; now right).
    destruct (Z.eqb_spec (c - 1) 0) as [Z0|Z0]; apply IH; intros x.
    + intros c'. rewrite lookup_delete. destruct (decide (id = x)); [discriminate|]. apply Other. auto.
    + intros Hx. rewrite lookup_delete. destruct (decide (id = x)) as [<-|D]; [|apply Rest; auto]. exfalso.
      assert (1 <= count id l); [|lia]. clear - Hx. induction l as [|y l IH]; [now apply elem_of_nil in Hx|].
      rewrite count_cons. pose proof (count_nonneg id l). case_decide; [lia|].
      apply elem_of_cons in Hx as [|Hx]; [contradiction|]. specialize (IH Hx). lia.
    + intros c'. rewrite lookup_insert. destruct (decide (id = x)) as [<-|D]; [|apply Other; auto]. intros [= <-]. lia.
    + intros Hx. rewrite lookup_insert. destruct (decide (id = x)); [eauto|]. apply Rest; auto.
Qed.

(** ** How many entries there are *)

Lemma random_dom s : consistent s -> list_to_set (vRandom s) = dom (mapInfo s).
Proof.
  intros I. apply set_eq. intros id. rewrite elem_of_list_to_set, elem_of_dom. split.
  - intros (i & Hi)%list_elem_of_lookup. pose proof (rnd_id _ _ (inv_random _ _ I) _ _ Hi) as P.
    unfold proj in P. destruct (mapInfo s !! id); [eauto|discriminate].
  - intros [info E]. destruct (rnd_pos _ _ (inv_random _ _ I) id (nRandomPos info)) as [_ P]; [now apply proj_Some|].
    apply list_elem_of_lookup. eauto.
Qed.

Lemma size_random s : consistent s -> size (dom (mapInfo s)) = length (vRandom s).
Proof.
  intros I. rewrite <- (random_dom s I). apply size_list_to_set. exact (random_nodup _ _ (inv_random _ _ I)).
Qed.

Lemma consistent_check s : consistent s -> Check_ s = (0, s).
Proof.
  intros I. unfold Check_. rewrite (inv_total _ _ I), Z.eqb_refl. cbn [negb].
  destruct (check_entries_ok s (ascending (dom (mapInfo s))) I [] ∅ ∅) as (T & N & E & [CT CN]).
  - apply NoDup_ascending.
  - intros x Hx%elem_of_ascending. now apply elem_of_dom.
  - split; [|intros id c]; intros *.
    + rewrite elem_of_empty. split; [contradiction|]. intros [X _]. now apply elem_of_nil in X.
    + rewrite lookup_empty. split; [discriminate|]. intros [X _]. now apply elem_of_nil in X.
  - rewrite E. cbn [app] in CT, CN.
    assert (D : forall A (f : CAddrInfo -> A) id v, proj f (mapInfo s) id = Some v -> id ∈ ascending (dom (mapInfo s))).
    { intros A f id v. unfold proj. destruct (mapInfo s !! id) eqn:Ei; [|discriminate]. intros _.
      apply elem_of_ascending, elem_of_dom. eauto. }
    assert (CT' : forall id, id ∈ T <-> id ∈ concat (vvTried s)).
    { intros id. rewrite CT, (tr_iff _ _ (inv_tried _ _ I)). split; [tauto|]. intros H. split; [eapply D, H|exact H]. }
    assert (ST : size T = length (concat (vvTried s))).
    { rewrite <- (size_list_to_set (C := gset Z) (concat (vvTried s))) by exact (tr_nodup _ _ (inv_tried _ _ I)).
      f_equal. apply set_eq. intros id. now rewrite elem_of_list_to_set, CT'. }
    assert (SN : (size N + size T = length (vRandom s))%nat).
    { rewrite <- (size_random s I), <- (size_dom (D := gset Z) N). rewrite <- size_union.
      - f_equal. apply set_eq. intros id. rewrite elem_of_union, !elem_of_dom, CT. split.
        + intros [[c Hc]|[Hc _]]; [apply CN in Hc as [Hc _]|]; now apply elem_of_ascending, elem_of_dom in Hc.
        + intros [info Hi]. assert (Hd : id ∈ ascending (dom (mapInfo s))) by (apply elem_of_ascending, elem_of_dom; eauto).
          pose proof (proj_Some fInTried _ _ _ Hi) as P1. pose proof (proj_Some nRefCount _ _ _ Hi) as P2.
          destruct (fInTried info); [now right|]. left. eexists. apply CN. eauto.
      - intros id Hn Ht. apply elem_of_dom in Hn as [c Hc]. apply CN in Hc as (_ & X & _). apply CT in Ht as [_ Y]. congruence. }
    rewrite ST, <- (inv_nTried _ _ I), Z.eqb_refl. cbn [negb].
    pose proof (inv_total _ _ I) as Tot. pose proof (inv_nTried _ _ I) as Tn.
    rewrite (proj2 (Z.eqb_eq _ _)) by lia. cbn [negb].
    rewrite check_tried_ok by (apply (tr_nodup _ _ (inv_tried _ _ I)) || exact CT').
    rewrite check_new_ok; [reflexivity| |].
    + intros id c Hc. rewrite count_buckets. apply CN in Hc as (_ & H1 & H2).
      destruct (nw_count _ _ _ (inv_new _ _ I) id c H1 H2) as [H3 H4]. rewrite decide_False in H3 by discriminate. lia.
    + intros id Hid. apply elem_of_concat in Hid as (l & Hl & Hv). apply list_elem_of_In, in_map_iff in Hv as (b & <- & Hb).
      apply elem_of_ascending in Hl. apply list_elem_of_In in Hb. pose proof (nw_in _ _ _ (inv_new _ _ I) b id Hb Hl) as P.
      unfold proj in P. destruct (mapInfo s !! id) as [info|] eqn:Ei; [|discriminate]. apply (inj Some) in P.
      exists (nRefCount info). apply CN. unfold proj. rewrite Ei. cbn. rewrite P. split; [|auto].
      apply elem_of_ascending, elem_of_dom. eauto.
Qed.

(** ** The bound on the entries, and the empty object *)

Lemma consistent_capacity s : consistent s -> Z.of_nat (size (mapInfo s)) <= 20480.
Proof.
  intros I. rewrite <- (size_dom (D := gset Z)), (size_random s I). exact (inv_capacity None s I).
Qed.

Lemma concat_repeat_nil {A} n : concat (repeat (@nil A) n) = [].
Proof. induction n; [reflexivity|assumption]. Qed.

Lemma consistent_new key : consistent (CAddrMan_new key).
Proof.
  split; cbn [nKey nIdCount mapInfo mapAddr vRandom nTried vvTried nNew vvNew CAddrMan_new].
  - split; intros *; [unfold proj; rewrite lookup_empty; discriminate|rewrite lookup_nil; discriminate].
  - intros x id. unfold proj. rewrite !lookup_empty. split; discriminate.
  - split.
    + apply repeat_length.
    + apply Forall_forall. intros b Hb. apply list_elem_of_In, repeat_spec in Hb as ->. cbn. lia.
    + rewrite concat_repeat_nil. constructor.
    + intros id. rewrite concat_repeat_nil. unfold proj. rewrite lookup_empty. split; [intros X; now apply elem_of_nil in X|discriminate].
  - split.
    + apply repeat_length.
    + apply Forall_forall. intros b Hb. apply list_elem_of_In, repeat_spec in Hb as ->. rewrite size_empty. lia.
    + intros b id Hb Hid. apply list_elem_of_In, repeat_spec in Hb as ->. now apply elem_of_empty in Hid.
    + discriminate.
    + intros *. unfold proj. rewrite lookup_empty. discriminate.
    + intros *. unfold proj. rewrite lookup_empty. discriminate.
  - now rewrite concat_repeat_nil.
  - reflexivity.
  - intros *. rewrite lookup_empty. discriminate.
  - lia.
Qed.
