(* ===== verification/AddrManTheorems.v ===== *)
(** * What the table of peer addresses promises

    An object is reachable when the public operations make it from the
    empty one, with any random words and any clock.  Every reachable object
    passes the self-test, holds a bounded number of entries, and every operation
    on it runs to its end: no assertion fails, no index leaves its
    array, no counter overflows. *)

From stdpp Require Import gmap list sorting.
From Stdlib Require Import ZArith Lia.
From S2P Require Import Prelude SphTypes Uint256 Serialize Transaction NetBase NetBaseProof AddrMan AddrManProof AddrManOps.
Local Open Scope Z_scope.

Inductive operation :=
  | OpAdd (addr : CAddress) (src : list Z) (nTimePenalty : Z)
  | OpGood (addr : CService) (time_ : Z)
  | OpAttempt (addr : CService) (time_ : Z)
  | OpConnected (addr : CService) (time_ : Z)
  | OpGetAddr.

(** The conditions on the callers: the clock is not before 1970, and neither the identifiers nor the
    attempts reach the limit of [int]. *)
Definition admissible (o : operation) (s : CAddrMan) : Prop :=
  match o with
  | OpAdd _ _ _ => nIdCount s + 1 < 2 ^ 31
  | OpGood _ t => 0 < t
  | OpAttempt _ t => 0 <= t /\ forall id info, mapInfo s !! id = Some info ->
      - 2 ^ 31 <= nAttempts info /\ nAttempts info + 1 < 2 ^ 31
  | OpConnected _ _ | OpGetAddr => True
  end.

Section Behaviour.
  Variable p : platform.
  Variable SHA256 : list Z -> list Z.
  Variable RAND_bytes : nat -> Z.
  Variable GetAdjustedTime : nat -> Z.
  Variable tries : nat.

Definition run (o : operation) : M unit :=
  match o with
  | OpAdd addr src pen => Add_ p SHA256 RAND_bytes GetAdjustedTime tries addr src pen;; return_ tt
  | OpGood addr t => Good_ p SHA256 RAND_bytes tries addr t
  | OpAttempt addr t => Attempt_ addr t
  | OpConnected addr t => Connected_ addr t
  | OpGetAddr => GetAddr_ RAND_bytes tries;; return_ tt
  end.

Inductive reachable : CAddrMan -> Prop :=
  | reach_new key : reachable (CAddrMan_new key)
  | reach_step s o k s' k' : reachable s -> admissible o s -> run o s k = Done tt s' k' -> reachable s'.

Context {source_ : RandomSource RAND_bytes tries}.

Lemma wp_run o s : consistent s -> admissible o s -> wp (run o) (fun _ s' => consistent s') s.
Proof.
  intros I A. destruct o; cbn [run]; cbn [admissible] in A.
  - wp_step. eapply wp_mono; [apply wp_Add; assumption|]. cbv beta. intros a s' [I' _]. now apply wp_return.
  - eapply wp_mono; [apply wp_Good; assumption|]. cbv beta. tauto.
  - destruct A as [A1 A2]. apply wp_Attempt; [assumption..|]. intros id info E. destruct (A2 id info E). auto.
  - now apply wp_Connected.
  - wp_step. eapply wp_mono; [now apply wp_GetAddr|]. cbv beta. intros a s' [I' _]. now apply wp_return.
Qed.

Lemma wp_done {A} (m : M A) Q s k : wp m Q s -> exists a s' k', m s k = Done a s' k' /\ Q a s'.
Proof. intros H. specialize (H k). destruct (m s k) as [a s' k'| |]; [eauto|contradiction..]. Qed.

Lemma reachable_consistent s : reachable s -> consistent s.
Proof.
  induction 1 as [key|s o k s' k' _ IH A E]; [apply consistent_new|].
  destruct (wp_done _ _ s k (wp_run o s IH A)) as (a & s1 & k1 & E1 & I1). rewrite E in E1. destruct a. injection E1 as -> ->. assumption.
Qed.

(** C22: every object the operations make from the empty one passes the self-test, which leaves it
    alone, and holds at most 64 * 64 + 256 * 64 addresses; and every admissible operation on it runs
    to its end, whatever the random words and the clock. *)
Theorem addrman_safe (s : CAddrMan) :
  reachable s ->
  Check_ s = (0, s) /\ Z.of_nat (size (mapInfo s)) <= 20480 /\
  forall o k, admissible o s -> exists s' k', run o s k = Done tt s' k' /\ reachable s'.
Proof.
  intros R. pose proof (reachable_consistent s R) as I.
  split; [now apply consistent_check|]. split; [now apply consistent_capacity|]. intros o k A.
  destruct (wp_done _ _ s k (wp_run o s I A)) as ([] & s' & k' & E & _).
  exists s', k'. split; [assumption|]. exact (reach_step s o k s' k' R A E).
Qed.

(** C32: [Add_] refuses an address that is not routable and leaves the object alone; any other is in
    the table afterwards, and the result says whether it was not there before. *)
Theorem Add_adds (s : CAddrMan) (addr : CAddress) (src : list Z) (nTimePenalty : Z) (k : nat) :
  reachable s -> nIdCount s + 1 < 2 ^ 31 ->
  if IsRoutable (ip (service addr)) then
    exists s' k', Add_ p SHA256 RAND_bytes GetAdjustedTime tries addr src nTimePenalty s k =
      Done (negb (bool_decide (is_Some (mapAddr s !! ip (service addr))))) s' k' /\
      is_Some (mapAddr s' !! ip (service addr))
  else Add_ p SHA256 RAND_bytes GetAdjustedTime tries addr src nTimePenalty s k = Done false s k.
Proof.
  intros R L. pose proof (reachable_consistent s R) as I.
  destruct (wp_done _ _ s k (wp_Add p SHA256 RAND_bytes tries GetAdjustedTime addr src nTimePenalty s I L))
    as (added & s' & k' & E & _ & H1 & H2).
  destruct (IsRoutable (ip (service addr))) eqn:Ro.
  - destruct (H2 eq_refl) as [K N]. exists s', k'. split; [|exact K]. rewrite E. f_equal.
    case_bool_decide as D; cbn [negb].
    + destruct added; [|reflexivity]. destruct (H1 eq_refl) as [_ H]. contradiction.
    + now apply N.
  - unfold Add_. rewrite Ro. reflexivity.
Qed.

(** C33: [Good_] moves the entry of a known address, when its port is the same, to the tried entries. *)
Theorem Good_tries (s : CAddrMan) (addr : CService) (time_ id : Z) (info : CAddrInfo) (k : nat) :
  reachable s -> 0 < time_ -> mapAddr s !! ip addr = Some id -> mapInfo s !! id = Some info ->
  CService_equal (service (address_ info)) addr = true ->
  exists s' k' info', Good_ p SHA256 RAND_bytes tries addr time_ s k = Done tt s' k' /\
    mapInfo s' !! id = Some info' /\ fInTried info' = true /\ id ∈ concat (vvTried s') /\
    (forall b, b ∈ vvNew s' -> id ∉ b).
Proof.
  intros R Ht Ea Ei Es. pose proof (reachable_consistent s R) as I.
  destruct (wp_done _ _ s k (wp_Good p SHA256 RAND_bytes tries GetAdjustedTime addr time_ s I Ht)) as ([] & s' & k' & E & I' & H).
  specialize (H id info Ea Ei Es). pose proof H as T. unfold proj in H.
  destruct (mapInfo s' !! id) as [info'|] eqn:Ei'; [|discriminate]. apply (inj Some) in H.
  exists s', k', info'. split; [assumption|]. split; [exact Ei'|]. split; [exact H|].
  split; [now apply (tr_iff _ _ (inv_tried _ _ I'))|].
  intros b Hb Hid. pose proof (nw_in _ _ _ (inv_new _ _ I') b id Hb Hid) as X. rewrite T in X. discriminate.
Qed.

(** [GetAddr_] gives 23 percent of the addresses, at most 2500, all of them from the table. *)
Theorem GetAddr_selects (s : CAddrMan) (k : nat) :
  reachable s ->
  exists vAddr s' k', GetAddr_ RAND_bytes tries s k = Done vAddr s' k' /\
    Z.of_nat (length vAddr) = Z.min 2500 (23 * Z.of_nat (size (mapInfo s)) / 100) /\
    Forall (fun a => is_Some (mapAddr s !! ip (service a))) vAddr.
Proof.
  intros R. pose proof (reachable_consistent s R) as I.
  destruct (wp_done _ _ s k (wp_GetAddr SHA256 RAND_bytes tries GetAdjustedTime s I)) as (r & s' & k' & E & _ & L & F).
  exists r, s', k'. split; [assumption|]. split; [|exact F].
  now rewrite <- (size_dom (D := gset Z)), (size_random s I).
Qed.
End Behaviour.

(** ** A concrete table *)

Module Example.
Definition p : platform := Platform SPH_LITTLE_ENDIAN true true.
Definition SHA256 (l : list Z) : list Z := repeat (Z.of_nat (length l) mod 256) 32.
Definition RAND_bytes (k : nat) : Z := 2.
Definition clock (k : nat) : Z := 1500000000.
Definition tries : nat := 1.

#[global] Instance source_ok : RandomSource RAND_bytes tries.
Proof. split; intros k; [unfold word, RAND_bytes; lia|]. exists 0%nat. unfold RAND_bytes, tries. split; lia. Qed.

Definition peer (a b c d : Z) : list Z := pchIPv4 ++ [a; b; c; d].
Definition addr1 : CAddress := Address (Service (peer 8 8 8 8) 9999) NODE_NETWORK 1499999000 0.
Definition addr2 : CAddress := Address (Service (peer 10 0 0 1) 9999) NODE_NETWORK 1499999000 0.
Definition s0 : CAddrMan := CAddrMan_new (repeat 7 32).
Definition after {A} (m : M A) (s : CAddrMan) : CAddrMan := match m s 0%nat with Done _ s' _ => s' | _ => s end.
Definition s1 : CAddrMan := after (run p SHA256 RAND_bytes clock tries (OpAdd addr1 (peer 9 9 9 9) 0)) s0.
Abbreviation reachable := (reachable p SHA256 RAND_bytes clock tries).

Lemma reach0 : reachable s0.
Proof. constructor. Qed.

Lemma reach1 : reachable s1.
Proof.
  apply (reach_step p SHA256 RAND_bytes clock tries s0 (OpAdd addr1 (peer 9 9 9 9) 0) 0%nat s1 0%nat); [apply reach0| |vm_compute; reflexivity].
  reflexivity.
Qed.

(** Eight tried entries in the bucket 0; the entry 2 has been silent for longest. *)
Definition tried_entry (id t : Z) : CAddrInfo :=
  set_fInTried true (set_nLastSuccess t (CAddrInfo_new (Address (Service (peer 8 8 8 id) 9999) NODE_NETWORK 0 0) (peer 9 9 9 9))).
Definition s8 : CAddrMan :=
  AddrMan (repeat 7 32) 8
    (list_to_map (map (fun id => (id, tried_entry id (if id =? 2 then 1 else 1000))) [0; 1; 2; 3; 4; 5; 6; 7]))
    ∅ [] 8 ([0; 1; 2; 3; 4; 5; 6; 7] :: repeat [] 63) 0 (repeat ∅ 256).
End Example.

(** [SelectTried] inspects the entry 2, the one to evict, but it moves it to the front of the bucket
    and then returns the position it had: that of the entry 4, which was heard of later. *)
Lemma SelectTried_evicts_another :
  match SelectTried Example.RAND_bytes Example.tries 0 Example.s8 0%nat with
  | Done nPos s' _ => nPos = 2 /\ vvTried s' !! 0%nat = Some [2; 3; 4; 5; 0; 1; 6; 7]
  | _ => False
  end.
Proof. vm_compute. split; reflexivity. Qed.

Lemma addrman_safe_witness :
  let op := OpGood (service Example.addr1) 1500000100 in
  Check_ Example.s1 = (0, Example.s1) /\ size (mapInfo Example.s1) = 1%nat /\
  exists s' k', run Example.p Example.SHA256 Example.RAND_bytes Example.clock Example.tries op Example.s1 0%nat = Done tt s' k' /\
    nTried s' = 1 /\ nNew s' = 0.
Proof.
  destruct (addrman_safe Example.p Example.SHA256 Example.RAND_bytes Example.clock Example.tries Example.s1 Example.reach1) as (C & _ & S).
  destruct (S (OpGood (service Example.addr1) 1500000100) 0%nat eq_refl) as (s' & k' & E & _).
  split; [exact C|]. split; [vm_compute; reflexivity|]. exists s', k'. split; [exact E|].
  vm_compute in E. injection E as <- _. split; reflexivity.
Defined.

Lemma Add_adds_witness :
  let add := Add_ Example.p Example.SHA256 Example.RAND_bytes Example.clock Example.tries in
  (exists s' k', add Example.addr1 (Example.peer 9 9 9 9) 0 Example.s0 0%nat = Done true s' k' /\
    is_Some (mapAddr s' !! Example.peer 8 8 8 8)) /\
  add Example.addr2 (Example.peer 9 9 9 9) 0 Example.s0 0%nat = Done false Example.s0 0%nat.
Proof.
  split.
  - exact (Add_adds Example.p Example.SHA256 Example.RAND_bytes Example.clock Example.tries Example.s0 Example.addr1
      (Example.peer 9 9 9 9) 0 0%nat Example.reach0 eq_refl).
  - exact (Add_adds Example.p Example.SHA256 Example.RAND_bytes Example.clock Example.tries Example.s0 Example.addr2
      (Example.peer 9 9 9 9) 0 0%nat Example.reach0 eq_refl).
Defined.

Lemma Good_tries_witness :
  exists s' k' info', Good_ Example.p Example.SHA256 Example.RAND_bytes Example.tries
      (Service (Example.peer 8 8 8 8) 9999) 1500000100 Example.s1 0%nat = Done tt s' k' /\
    mapInfo s' !! 0 = Some info' /\ fInTried info' = true /\ 0 ∈ concat (vvTried s') /\
    (forall b, b ∈ vvNew s' -> 0 ∉ b).
Proof.
  destruct (mapInfo Example.s1 !! 0) as [info|] eqn:E; [|vm_compute in E; discriminate].
  apply (Good_tries Example.p Example.SHA256 Example.RAND_bytes Example.clock Example.tries Example.s1
    (Service (Example.peer 8 8 8 8) 9999) 1500000100 0 info 0%nat Example.reach1 eq_refl); [reflexivity|exact E|].
  vm_compute in E. injection E as <-. reflexivity.
Defined.

Lemma GetAddr_selects_witness :
  exists vAddr s' k', GetAddr_ Example.RAND_bytes Example.tries Example.s1 0%nat = Done vAddr s' k' /\
    Z.of_nat (length vAddr) = 0 /\ Forall (fun a => is_Some (mapAddr Example.s1 !! ip (service a))) vAddr.
Proof.
  exact (GetAddr_selects Example.p Example.SHA256 Example.RAND_bytes Example.clock Example.tries Example.s1 0%nat Example.reach1).
Defined.
