(* ===== verification/BigNum.v ===== *)
(** * bignum.h: the class CBigNum

    [CBigNum] wraps a [BIGNUM] of OpenSSL.  The functions of OpenSSL are the class
    [BN_ops], what its manual says of them the class [BN_spec]; the code of
    the wrapper is written against the first, its proofs against the second.
    [None] as a result is the exception [bignum_error]; [unsigned long] has
    64 bits. *)

From Stdlib Require Import ZArith List Lia Bool.
From S2P Require Import Prelude SphTypes Uint256 Uint256Hex Serialize.
Import ListNotations.
Local Open Scope Z_scope.

(** ** OpenSSL *)

Class BN_ops (BIGNUM : Type) := {
  BN_new : BIGNUM;
  BN_set_word : Z -> BIGNUM;
  BN_get_word : BIGNUM -> Z;
  BN_mpi2bn : list Z -> option BIGNUM;
  BN_bn2mpi : BIGNUM -> list Z;
  BN_is_negative : BIGNUM -> bool;
  BN_set_negative : BIGNUM -> bool -> BIGNUM;
  BN_is_zero : BIGNUM -> bool;
  BN_add : BIGNUM -> BIGNUM -> option BIGNUM;
  BN_sub : BIGNUM -> BIGNUM -> option BIGNUM;
  BN_mul : BIGNUM -> BIGNUM -> option BIGNUM;
  BN_div : BIGNUM -> BIGNUM -> option (BIGNUM * BIGNUM);
  BN_nnmod : BIGNUM -> BIGNUM -> option BIGNUM;
  BN_lshift : BIGNUM -> Z -> option BIGNUM;
  BN_rshift : BIGNUM -> Z -> option BIGNUM;
  BN_cmp : BIGNUM -> BIGNUM -> Z
}.

(** The format MPI after its length: big-endian, the first bit is the sign. *)
Definition mpi_value (d : list Z) : Z :=
  let w := base_val 256 (rev d) in
  let sign := 2 ^ (8 * Z.of_nat (length d) - 1) in
  match d with [] => 0 | _ => if w <? sign then w else - (w - sign) end.
(** The shortest form of a number. *)
Definition mpi_size (v : Z) : nat :=
  if v =? 0 then 0%nat else S (Z.to_nat ((Z.log2 (Z.abs v) + 1) / 8)).
Definition mpi_bytes (v : Z) : list Z :=
  let n := mpi_size v in
  be_store n (Z.abs v + if v <? 0 then 2 ^ (8 * Z.of_nat n - 1) else 0).

(** The numbers the manual says that the operations compute; memory does not run out. *)
Class BN_spec {BIGNUM : Type} (ops : BN_ops BIGNUM) := {
  bn : BIGNUM -> Z;
  new_spec : bn BN_new = 0;
  set_word_spec n : word 64 n -> bn (BN_set_word n) = n;
  get_word_spec b : BN_get_word b = Z.min (Z.abs (bn b)) (2 ^ 64 - 1);
  mpi2bn_spec d : bytes d -> Z.of_nat (length d) < 2 ^ 31 ->
    exists b, BN_mpi2bn (be_store 4 (Z.of_nat (length d)) ++ d) = Some b /\ bn b = mpi_value d;
  bn2mpi_spec b : BN_bn2mpi b = be_store 4 (Z.of_nat (mpi_size (bn b))) ++ mpi_bytes (bn b);
  is_negative_spec b : BN_is_negative b = (bn b <? 0);
  set_negative_spec b n : bn (BN_set_negative b n) = if (n : bool) then - Z.abs (bn b) else Z.abs (bn b);
  is_zero_spec b : BN_is_zero b = (bn b =? 0);
  add_spec a b : exists r, BN_add a b = Some r /\ bn r = bn a + bn b;
  sub_spec a b : exists r, BN_sub a b = Some r /\ bn r = bn a - bn b;
  mul_spec a b : exists r, BN_mul a b = Some r /\ bn r = bn a * bn b;
  div_spec a b : bn b <> 0 ->
    exists q r, BN_div a b = Some (q, r) /\ bn q = Z.quot (bn a) (bn b) /\ bn r = Z.rem (bn a) (bn b);
  nnmod_spec a b : 0 < bn b -> exists r, BN_nnmod a b = Some r /\ bn r = bn a mod bn b;
  lshift_spec a n : 0 <= n -> exists r, BN_lshift a n = Some r /\ bn r = bn a * 2 ^ n;
  rshift_spec a n : 0 <= n -> exists r, BN_rshift a n = Some r /\ bn r = Z.quot (bn a) (2 ^ n);
  cmp_spec a b : BN_cmp a b = match bn a ?= bn b with Lt => -1 | Eq => 0 | Gt => 1 end
}.

(** ** The wrapper *)

Section CBigNum.
  Context {BIGNUM : Type} {ops : BN_ops BIGNUM}.
  Variable p : platform.
  Implicit Types a b : BIGNUM.

(** A call of [BN_mpi2bn] whose result is not tested leaves the object as it was on an error. *)
Definition mpi2bn (pch : list Z) (self : BIGNUM) : BIGNUM :=
  match BN_mpi2bn pch with Some b => b | None => self end.

(** [pch[0]] to [pch[3]] *)
Definition pch_size (nSize : Z) : list Z :=
  [(nSize >> 24) .& 0xff; (nSize >> 16) .& 0xff; (nSize >> 8) .& 0xff; nSize .& 0xff].

(** [for (int i = 0; i < 8; i++)]; [turns] is 8 - [i], the result what goes to [*p++]. *)
Fixpoint set_loop (turns : nat) (n : Z) (fNegative fLeadingZeroes : bool) : list Z :=
  match turns with
  | O => []
  | S turns =>
      let c := (n >> 56) .& 0xff in
      let n := trunc 64 (n << 8) in
      if fLeadingZeroes then
        if c =? 0 then set_loop turns n fNegative true
        else if negb (c .& 0x80 =? 0)
        then (if fNegative then 0x80 else 0) :: c :: set_loop turns n fNegative false
        else (if fNegative then c .| 0x80 else c) :: set_loop turns n fNegative false
      else c :: set_loop turns n fNegative false
  end.
Definition setint64 (sn : Z) : BIGNUM :=
  let '(n, fNegative) := if sn <? 0 then (trunc 64 (- (sn + 1) + 1), true) else (sn, false) in
  let d := set_loop 8 n fNegative true in
  mpi2bn (pch_size (Z.of_nat (length d)) ++ d) BN_new.
Definition setuint64 (n : Z) : BIGNUM :=
  let d := set_loop 8 n false true in
  mpi2bn (pch_size (Z.of_nat (length d)) ++ d) BN_new.

(** The constructors from [int] and [long], and from the unsigned types. *)
Definition of_long (n : Z) : BIGNUM := if 0 <=? n then BN_set_word n else setint64 n.
Definition of_ulong (n : Z) : BIGNUM := BN_set_word n.

(** [while (psrc != pbegin)], from the last byte of [n]. *)
Fixpoint set256_loop (src : list Z) (fLeadingZeroes : bool) : list Z :=
  match src with
  | [] => []
  | c :: src =>
      if fLeadingZeroes then
        if c =? 0 then set256_loop src true
        else if negb (c .& 0x80 =? 0) then 0 :: c :: set256_loop src false
        else c :: set256_loop src false
      else c :: set256_loop src false
  end.
Definition setuint256 (n : list Z) : BIGNUM :=
  let d := set256_loop (rev (memory p n)) true in
  mpi2bn (pch_size (Z.of_nat (length d)) ++ d) BN_new.

Definition getint b : Z :=
  let n := BN_get_word b in
  if negb (BN_is_negative b) then (if 2 ^ 31 - 1 <? n then 2 ^ 31 - 1 else n)
  else if 2 ^ 31 - 1 <? n then - 2 ^ 31 else - n.
Definition getuint b : Z := trunc 32 (BN_get_word b).

(** [vch[4] &= 0x7f] and the first [size] bytes of [n], from [vch.size()-1] down to 4. *)
Definition get_bytes (size : nat) b : list Z :=
  let vch := BN_bn2mpi b in
  let vch := if (4 <? length vch)%nat then upd vch 4 (nth 4 vch 0 .& 0x7f) else vch in
  let low := firstn size (rev (skipn 4 vch)) in
  low ++ repeat 0 (size - length low).
Definition getuint64 b : Z :=
  if (length (BN_bn2mpi b) <? 4)%nat then 0 else native_load p 8 (get_bytes 8 b).
Definition getuint256 b : list Z :=
  if (length (BN_bn2mpi b) <? 4)%nat then zeros 8 else of_memory 8 p (get_bytes 32 b).

Definition setvch (vch : list Z) : BIGNUM :=
  mpi2bn (pch_size (trunc 32 (Z.of_nat (length vch))) ++ rev vch) BN_new.
Definition getvch b : list Z :=
  let vch := BN_bn2mpi b in
  if (length vch <=? 4)%nat then [] else rev (skipn 4 vch).

(** A vector of [4 + nSize] bytes with up to three of them set. *)
Definition SetCompact (nCompact : Z) : BIGNUM :=
  let nSize := nCompact >> 24 in
  let vch := upd (repeat 0 (4 + Z.to_nat nSize)) 3 (trunc 8 nSize) in
  let vch := if 1 <=? nSize then upd vch 4 ((nCompact >> 16) .& 0xff) else vch in
  let vch := if 2 <=? nSize then upd vch 5 ((nCompact >> 8) .& 0xff) else vch in
  let vch := if 3 <=? nSize then upd vch 6 (nCompact .& 0xff) else vch in
  mpi2bn vch BN_new.
Definition GetCompact b : Z :=
  let vch := BN_bn2mpi b in
  let nSize := Z.of_nat (length vch) - 4 in
  let nCompact := trunc 32 (nSize << 24) in
  let nCompact := if 1 <=? nSize then nCompact .| (nth 4 vch 0 << 16) else nCompact in
  let nCompact := if 2 <=? nSize then nCompact .| (nth 5 vch 0 << 8) else nCompact in
  if 3 <=? nSize then nCompact .| nth 6 vch 0 else nCompact.

(** *** Operators *)

Definition op_plus a b : option BIGNUM := BN_add a b.
Definition op_minus a b : option BIGNUM := BN_sub a b.
Definition op_neg a : BIGNUM := BN_set_negative a (negb (BN_is_negative a)).
Definition op_times a b : option BIGNUM := BN_mul a b.
Definition op_div a b : option BIGNUM := let* (q, _) := BN_div a b in Some q.
Definition op_mod a b : option BIGNUM := BN_nnmod a b.
Definition op_shl a (shift : Z) : option BIGNUM := BN_lshift a shift.
Definition op_shr a (shift : Z) : option BIGNUM :=
  let* x := op_shl (of_long 1) shift in
  if 0 <? BN_cmp x a then Some (of_long 0) else BN_rshift a shift.
Definition op_eq a b : bool := BN_cmp a b =? 0.
Definition op_ne a b : bool := negb (BN_cmp a b =? 0).
Definition op_le a b : bool := BN_cmp a b <=? 0.
Definition op_ge a b : bool := 0 <=? BN_cmp a b.
Definition op_lt a b : bool := BN_cmp a b <? 0.
Definition op_gt a b : bool := 0 <? BN_cmp a b.
End CBigNum.
