(* ===== verification/BigNumProof.v ===== *)
(** * The conversions of CBigNum

    The numbers that the conversions of bignum.h read and write, from what
    OpenSSL promises of the format MPI. *)

From Stdlib Require Import ZArith List Lia Bool.
From S2P Require Import Prelude SphTypes Uint256 Uint256Proof Uint256Hex Serialize BigNum.
Import ListNotations.
Local Open Scope Z_scope.

(** ** Big-endian numbers *)

Definition be_val (d : list Z) : Z := base_val 256 (rev d).

Lemma be_val_cons h d : be_val (h :: d) = h * 256 ^ Z.of_nat (length d) + be_val d.
Proof.
  unfold be_val. cbn [rev]. rewrite base_val_app, length_rev. cbn [base_val]. ring.
Qed.

Lemma be_val_range d : bytes d -> 0 <= be_val d < 256 ^ Z.of_nat (length d).
Proof.
  intros H. unfold be_val. rewrite <- (length_rev d). apply base_val_range; [lia|].
  apply bytes_digits. now apply Forall_rev.
Qed.

Lemma be_val_app a b : be_val (a ++ b) = be_val a * 256 ^ Z.of_nat (length b) + be_val b.
Proof. unfold be_val. rewrite rev_app_distr, base_val_app, length_rev. ring. Qed.

Lemma be_val_zeros n : be_val (repeat 0 n) = 0.
Proof. unfold be_val. rewrite rev_repeat. apply base_val_zeros. Qed.

Lemma be_val_store n v : word (8 * Z.of_nat n) v -> be_val (be_store n v) = v.
Proof. intros H. unfold be_val, be_store. rewrite rev_involutive. now apply base_val_store. Qed.

Lemma pow_256 n : 256 ^ Z.of_nat n = 2 ^ (8 * Z.of_nat n).
Proof. change 256 with (2 ^ 8). rewrite <- Z.pow_mul_r by lia. reflexivity. Qed.

Lemma bytes_cons h d : bytes (h :: d) <-> 0 <= h < 256 /\ bytes d.
Proof. unfold bytes, word. rewrite Forall_cons_iff. reflexivity. Qed.

Lemma mpi_value_cons h d :
  bytes (h :: d) ->
  mpi_value (h :: d) = if h <? 128 then be_val (h :: d) else - be_val (h - 128 :: d).
Proof.
  intros B. pose proof B as [Hh Hd]%bytes_cons. pose proof (be_val_range d Hd) as R.
  unfold mpi_value. fold (be_val (h :: d)). rewrite !be_val_cons. cbn [length].
  replace (8 * Z.of_nat (S (length d)) - 1) with (8 * Z.of_nat (length d) + 7) by lia.
  rewrite Z.pow_add_r by lia. rewrite <- pow_256. change (2 ^ 7) with 128.
  set (P := 256 ^ Z.of_nat (length d)) in *. destruct (Z.ltb_spec h 128).
  - rewrite (proj2 (Z.ltb_lt _ _)) by nia. reflexivity.
  - rewrite (proj2 (Z.ltb_ge _ _)) by nia. nia.
Qed.

Lemma mpi_value_nonneg h d : bytes (h :: d) -> h < 128 -> mpi_value (h :: d) = be_val (h :: d).
Proof. intros B H. rewrite mpi_value_cons by assumption. now rewrite (proj2 (Z.ltb_lt _ _)). Qed.

(** ** The shortest form *)

Lemma mpi_size_bounds v :
  v <> 0 -> let k := Z.of_nat (mpi_size v) in
  1 <= k /\ Z.abs v < 2 ^ (8 * k - 1) /\ 2 ^ (8 * (k - 1) - 1) <= Z.abs v.
Proof.
  intros H k.
  pose proof (Z.log2_nonneg (Z.abs v)) as L0. destruct (Z.log2_spec (Z.abs v)) as [L1 L2]; [lia|].
  set (l := Z.log2 (Z.abs v)) in *.
  assert (K : k = (l + 1) / 8 + 1) by (subst k; unfold mpi_size; rewrite (proj2 (Z.eqb_neq v 0) H); fold l; rewrite Nat2Z.inj_succ, Z2Nat.id; [lia|apply Z.div_pos; lia]).
  pose proof (Z.div_mod (l + 1) 8 ltac:(lia)) as D. pose proof (Z.mod_pos_bound (l + 1) 8 ltac:(lia)) as M.
  split; [pose proof (Z.div_pos (l + 1) 8 ltac:(lia) ltac:(lia)); lia|]. split.
  - eapply Z.lt_le_trans; [exact L2|]. apply Z.pow_le_mono_r; lia.
  - destruct (Z.eq_dec k 1) as [->|].
    + change (2 ^ (8 * (1 - 1) - 1)) with 0. lia.
    + eapply Z.le_trans; [|exact L1]. apply Z.pow_le_mono_r; lia.
Qed.

(** The number the shortest form spells out, and its unsigned value. *)
Definition mpi_word (v : Z) : Z := Z.abs v + if v <? 0 then 2 ^ (8 * Z.of_nat (mpi_size v) - 1) else 0.

Lemma mpi_word_range v : v <> 0 ->
  word (8 * Z.of_nat (mpi_size v)) (mpi_word v) /\
  2 ^ (8 * Z.of_nat (mpi_size v)) = 2 * 2 ^ (8 * Z.of_nat (mpi_size v) - 1).
Proof.
  intros H. destruct (mpi_size_bounds v H) as (K & U & _).
  assert (E : 2 ^ (8 * Z.of_nat (mpi_size v)) = 2 * 2 ^ (8 * Z.of_nat (mpi_size v) - 1))
    by (rewrite <- Z.pow_succ_r by lia; f_equal; lia).
  split; [|exact E]. unfold word, mpi_word. rewrite E. destruct (v <? 0); lia.
Qed.

Lemma length_mpi_bytes v : length (mpi_bytes v) = mpi_size v.
Proof. apply length_be_store. Qed.

Lemma bytes_mpi_bytes v : bytes (mpi_bytes v).
Proof. apply bytes_be_store. Qed.

Lemma be_val_mpi_bytes v : be_val (mpi_bytes v) = mpi_word v.
Proof.
  destruct (Z.eq_dec v 0) as [->|H]; [reflexivity|]. apply be_val_store. now apply mpi_word_range.
Qed.

Lemma mpi_value_bytes v : mpi_value (mpi_bytes v) = v.
Proof.
  destruct (Z.eq_dec v 0) as [->|H]; [reflexivity|]. destruct (mpi_size_bounds v H) as (K & U & _).
  unfold mpi_value. fold (be_val (mpi_bytes v)). rewrite be_val_mpi_bytes, length_mpi_bytes. unfold mpi_word.
  destruct (mpi_bytes v) as [|h d] eqn:E; [pose proof (length_mpi_bytes v) as L; rewrite E in L; cbn in L; lia|].
  destruct (Z.ltb_spec v 0).
  - rewrite (proj2 (Z.ltb_ge _ _)) by lia. lia.
  - rewrite (proj2 (Z.ltb_lt _ _)) by lia. lia.
Qed.

(** The first byte of the shortest form holds the sign and the top of the number. *)
Lemma mpi_size_unique v k :
  1 <= k -> Z.abs v < 2 ^ (8 * k - 1) -> 2 ^ (8 * (k - 1) - 1) <= Z.abs v -> v <> 0 -> Z.of_nat (mpi_size v) = k.
Proof.
  intros K U L H. destruct (mpi_size_bounds v H) as (K' & U' & L'). set (k' := Z.of_nat (mpi_size v)) in *.
  destruct (Z.lt_trichotomy k k') as [C|[C|C]]; [exfalso|lia|exfalso].
  - assert (2 ^ (8 * k - 1) <= 2 ^ (8 * (k' - 1) - 1)) by (apply Z.pow_le_mono_r; lia). lia.
  - assert (2 ^ (8 * k' - 1) <= 2 ^ (8 * (k - 1) - 1)) by (apply Z.pow_le_mono_r; lia). lia.
Qed.

(** The sign bit of a byte. *)
Lemma byte_cases (P : Z -> bool) : forallb P (map Z.of_nat (seq 0 256)) = true -> forall c, 0 <= c < 256 -> P c = true.
Proof.
  intros K c Hc. rewrite forallb_forall in K. apply K, in_map_iff. exists (Z.to_nat c). split; [lia|]. apply in_seq. lia.
Qed.

Lemma sign_bit c : 0 <= c < 256 ->
  (c .& 0x80 =? 0) = (c <? 128) /\ c .& 0x7f = (if c <? 128 then c else c - 128) /\
  (c < 128 -> c .| 0x80 = c + 128).
Proof.
  intros Hc. pose proof (byte_cases (fun c => Bool.eqb (c .& 0x80 =? 0) (c <? 128) &&
    (c .& 0x7f =? if c <? 128 then c else c - 128) && ((c .| 0x80 =? c + 128) || negb (c <? 128))) eq_refl c Hc) as K.
  rewrite !andb_true_iff, orb_true_iff, negb_true_iff in K. destruct K as [[K1 K2] K3].
  split; [now apply eqb_prop|]. split; [lia|]. intros H. rewrite (proj2 (Z.ltb_lt c 128) H) in K3. destruct K3; [lia|discriminate].
Qed.

(** ** Writing 64-bit integers *)

Lemma be_store_S n v : be_store (S n) v = trunc 8 (v >> (8 * Z.of_nat n)) :: be_store n v.
Proof.
  apply (nth_ext' _ _ 0); [cbn [length]; now rewrite !length_be_store|]. rewrite length_be_store. intros i Hi.
  rewrite nth_be_store by assumption. destruct i as [|i]; cbn [nth].
  - do 2 f_equal. lia.
  - rewrite nth_be_store by lia. do 2 f_equal. lia.
Qed.

(** The top byte of the number that the last [i + 1] turns have left, and what the shift leaves. *)
Lemma top_byte i r :
  (i <= 7)%nat -> 0 <= r < 2 ^ (8 * Z.of_nat (S i)) ->
  let n := r * 2 ^ (64 - 8 * Z.of_nat (S i)) in
  (n >> 56) .& 0xff = r / 2 ^ (8 * Z.of_nat i) /\
  trunc 64 (n << 8) = (r mod 2 ^ (8 * Z.of_nat i)) * 2 ^ (64 - 8 * Z.of_nat i) /\
  0 <= r / 2 ^ (8 * Z.of_nat i) < 256.
Proof.
  intros Hi Hr. cbv zeta. set (k := 8 * Z.of_nat i) in *. assert (E : 8 * Z.of_nat (S i) = k + 8) by lia.
  rewrite E in *. set (n := r * 2 ^ (64 - (k + 8))). rewrite Z.pow_add_r in Hr by lia. change (2 ^ 8) with 256 in Hr.
  assert (P : 0 < 2 ^ k) by (apply Z.pow_pos_nonneg; lia).
  assert (C : 0 <= r / 2 ^ k < 256) by (split; [apply Z.div_pos; lia|apply Z.div_lt_upper_bound; lia]).
  assert (S : n >> 56 = r / 2 ^ k).
  { rewrite Z.shiftr_div_pow2 by lia. subst n. replace (2 ^ 56) with (2 ^ k * 2 ^ (64 - (k + 8)))
      by (rewrite <- Z.pow_add_r by lia; f_equal; lia).
    apply Z.div_mul_cancel_r; [lia|]. assert (0 < 2 ^ (64 - (k + 8))) by (apply Z.pow_pos_nonneg; lia). lia. }
  splits; try lia.
  - rewrite S. change 0xff with (Z.ones 8). fold (trunc 8 (r / 2 ^ k)). apply trunc_id; [lia|]. unfold word. lia.
  - rewrite trunc_mod, Z.shiftl_mul_pow2 by lia. subst n. rewrite <- Z.mul_assoc, <- Z.pow_add_r by lia.
    replace (64 - (k + 8) + 8) with (64 - k) by lia. replace (2 ^ 64) with (2 ^ k * 2 ^ (64 - k))
      by (rewrite <- Z.pow_add_r by lia; f_equal; lia).
    apply Z.mul_mod_distr_r; [lia|]. assert (0 < 2 ^ (64 - k)) by (apply Z.pow_pos_nonneg; lia). lia.
Qed.

Lemma set_loop_rest i r neg :
  (i <= 8)%nat -> 0 <= r < 2 ^ (8 * Z.of_nat i) ->
  set_loop i (r * 2 ^ (64 - 8 * Z.of_nat i)) neg false = be_store i r.
Proof.
  revert r. induction i as [|i IH]; intros r Hi Hr; [reflexivity|]. cbn [set_loop].
  destruct (top_byte i r ltac:(lia) Hr) as (T1 & T2 & T3). rewrite T1, T2, be_store_S.
  assert (P : 0 < 2 ^ (8 * Z.of_nat i)) by (apply Z.pow_pos_nonneg; lia).
  rewrite IH by (try lia; apply Z.mod_pos_bound; exact P). f_equal.
  - rewrite trunc_id; [now rewrite Z.shiftr_div_pow2 by lia|lia|]. rewrite Z.shiftr_div_pow2 by lia. unfold word. lia.
  - unfold be_store. f_equal. apply le_store_mod.
Qed.

(** The loop gives at most nine bytes, one more than the number has. *)
Lemma set_loop_lead i r (neg : bool) :
  (i <= 8)%nat -> 0 <= r < 2 ^ (8 * Z.of_nat i) ->
  let d := set_loop i (r * 2 ^ (64 - 8 * Z.of_nat i)) neg true in
  bytes d /\ (length d <= S i)%nat /\ mpi_value d = if neg then - r else r.
Proof.
  revert r. induction i as [|i IH]; intros r Hi Hr; cbv zeta; cbn [set_loop].
  { assert (r = 0) as -> by (change (2 ^ (8 * Z.of_nat 0)) with 1 in Hr; lia).
    splits; [apply Forall_nil|cbn; lia|now destruct neg]. }
  destruct (top_byte i r ltac:(lia) Hr) as (T1 & T2 & T3). rewrite T1, T2.
  set (k := 8 * Z.of_nat i) in *. set (c := r / 2 ^ k) in *. assert (P : 0 < 2 ^ k) by (apply Z.pow_pos_nonneg; lia).
  pose proof (Z.mod_pos_bound r (2 ^ k) P) as M. pose proof (Z.div_mod r (2 ^ k) ltac:(lia)) as D. fold c in D.
  rewrite set_loop_rest by (try lia; exact M). set (t := be_store i (r mod 2 ^ k)).
  assert (Bt : bytes t) by apply bytes_be_store. assert (Lt : length t = i) by apply length_be_store.
  assert (Vt : be_val t = r mod 2 ^ k) by (apply be_val_store; exact M).
  assert (V : forall h, be_val (h :: t) = h * 2 ^ k + r mod 2 ^ k)
    by (intros h; rewrite be_val_cons, Vt, Lt, pow_256; reflexivity).
  destruct (Z.eqb_spec c 0) as [C0|C0].
  { destruct (IH (r mod 2 ^ k) ltac:(lia) M) as (I1 & I2 & I3). splits; [exact I1|lia|]. rewrite I3.
    rewrite C0 in D. replace (r mod 2 ^ k) with r by lia. reflexivity. }
  destruct (sign_bit c T3) as (Hbit & _ & Hor0).
  rewrite Hbit. destruct (Z.ltb_spec c 128) as [C1|C1]; cbn [negb].
  - pose proof (Hor0 C1) as Hor.
    destruct neg; rewrite ?Hor.
    + splits; [apply bytes_cons; split; [lia|exact Bt]|cbn [length]; lia|].
      rewrite mpi_value_cons by (apply bytes_cons; split; [lia|exact Bt]). rewrite (proj2 (Z.ltb_ge _ _)) by lia.
      rewrite V. lia.
    + splits; [apply bytes_cons; split; [lia|exact Bt]|cbn [length]; lia|].
      rewrite mpi_value_nonneg by ((apply bytes_cons; split; [lia|exact Bt]) || assumption). rewrite V. lia.
  - assert (Bc : bytes (c :: t)) by (apply bytes_cons; split; [lia|exact Bt]).
    destruct neg; (splits; [apply bytes_cons; split; [lia|exact Bc]|cbn [length]; lia|]).
    + rewrite mpi_value_cons by (apply bytes_cons; split; [lia|exact Bc]). change (128 <? 128) with false. cbv iota.
      rewrite be_val_cons, V. lia.
    + rewrite mpi_value_nonneg by ((apply bytes_cons; split; [lia|exact Bc]) || lia).
      rewrite be_val_cons, V. lia.
Qed.

Lemma pch_size_be n : pch_size n = be_store 4 n.
Proof. rewrite !be_store_S. reflexivity. Qed.

(** ** The conversions *)

Section Conversions.
  Context {BIGNUM : Type} {ops : BN_ops BIGNUM} {spec : BN_spec ops}.
  Variable p : platform.

Lemma mpi2bn_ok d self :
  bytes d -> Z.of_nat (length d) < 2 ^ 31 -> bn (mpi2bn (pch_size (Z.of_nat (length d)) ++ d) self) = mpi_value d.
Proof.
  intros B L. unfold mpi2bn. rewrite pch_size_be. destruct (mpi2bn_spec d B L) as (b & -> & E). exact E.
Qed.

Lemma setuint64_ok n : word 64 n -> bn (setuint64 n) = n.
Proof.
  intros Hn. unfold setuint64. destruct (set_loop_lead 8 n false) as (B & L & V); [lia|exact Hn|].
  change (64 - 8 * Z.of_nat 8) with 0 in *. change (2 ^ 0) with 1 in *. rewrite Z.mul_1_r in *.
  cbv zeta. rewrite mpi2bn_ok by (assumption || lia). exact V.
Qed.

Lemma setint64_ok n : - 2 ^ 63 <= n < 2 ^ 63 -> bn (setint64 n) = n.
Proof.
  intros Hn. unfold setint64.
  assert (G : forall m neg, word 64 m -> bn (mpi2bn (pch_size (Z.of_nat (length (set_loop 8 m neg true))) ++ set_loop 8 m neg true) BN_new)
    = if neg : bool then - m else m).
  { intros m neg Hm. destruct (set_loop_lead 8 m neg) as (B & L & V); [lia|exact Hm|].
    change (64 - 8 * Z.of_nat 8) with 0 in *. change (2 ^ 0) with 1 in *. rewrite Z.mul_1_r in *.
    rewrite mpi2bn_ok by (assumption || lia). exact V. }
  destruct (Z.ltb_spec n 0).
  - rewrite trunc_id by (unfold word; lia). rewrite G by (unfold word; lia). lia.
  - rewrite G by (unfold word; lia). reflexivity.
Qed.

Lemma of_long_ok n : - 2 ^ 63 <= n < 2 ^ 63 -> bn (of_long n) = n.
Proof.
  intros Hn. unfold of_long. destruct (Z.leb_spec 0 n); [apply set_word_spec; unfold word; lia|now apply setint64_ok].
Qed.

Lemma set256_loop_ok src lead :
  bytes src -> let d := set256_loop src lead in
  bytes d /\ (length d <= S (length src))%nat /\
  if lead : bool then mpi_value d = be_val src else d = src.
Proof.
  revert lead. induction src as [|c src IH]; intros lead B; cbn [set256_loop].
  { splits; [apply Forall_nil|cbn; lia|]. destruct lead; reflexivity. }
  apply bytes_cons in B as [Hc B]. destruct (IH false B) as (F1 & F2 & F3). rewrite F3 in *.
  destruct lead; [|splits; [apply bytes_cons; now split|cbn [length]; lia|reflexivity]].
  destruct (IH true B) as (T1 & T2 & T3). destruct (Z.eqb_spec c 0) as [->|C0].
  { splits; [exact T1|cbn [length] in *; lia|]. rewrite T3, be_val_cons. lia. }
  assert (Bc : bytes (c :: src)) by (apply bytes_cons; now split).
  destruct (sign_bit c Hc) as (Hbit & _).
  rewrite Hbit. destruct (Z.ltb_spec c 128); cbn [negb].
  - splits; [exact Bc|cbn [length]; lia|]. now apply mpi_value_nonneg.
  - splits; [apply bytes_cons; split; [lia|exact Bc]|cbn [length] in *; lia|].
    rewrite mpi_value_nonneg by ((apply bytes_cons; split; [lia|exact Bc]) || lia). rewrite be_val_cons. lia.
Qed.

Lemma setuint256_ok n : order p <> SPH_BIG_ENDIAN -> words_ok 8 n -> bn (setuint256 p n) = val n.
Proof.
  intros Hp [L F]. unfold setuint256. set (src := rev (memory p n)).
  assert (Lm : length (memory p n) = 32%nat) by now apply (memory_length 8 p n).
  assert (Bm : bytes (memory p n)) by apply memory_bytes.
  destruct (set256_loop_ok src true) as (B & Ld & V); [now apply Forall_rev|].
  cbv zeta. rewrite mpi2bn_ok by (assumption || (subst src; rewrite length_rev, Lm in Ld; lia)).
  rewrite V. unfold be_val, src. rewrite rev_involutive. rewrite <- (val_of_memory 8 p) by assumption.
  f_equal. now apply of_memory_memory.
Qed.

(** What is read is the shortest form. *)
Lemma mpi_length b : length (BN_bn2mpi b) = (4 + mpi_size (bn b))%nat.
Proof. rewrite bn2mpi_spec, length_app, length_be_store, length_mpi_bytes. reflexivity. Qed.

Lemma mpi_payload b : skipn 4 (BN_bn2mpi b) = mpi_bytes (bn b).
Proof. rewrite bn2mpi_spec, skipn_app, length_be_store. rewrite skipn_all2 by (rewrite length_be_store; lia). reflexivity. Qed.

Lemma getvch_ok b : getvch b = rev (mpi_bytes (bn b)).
Proof.
  unfold getvch. rewrite mpi_payload, mpi_length. destruct (Nat.leb_spec (4 + mpi_size (bn b)) 4); [|reflexivity].
  pose proof (length_mpi_bytes (bn b)) as L. destruct (mpi_bytes (bn b)); [reflexivity|cbn in L; lia].
Qed.

Lemma setvch_ok vch :
  bytes vch -> Z.of_nat (length vch) < 2 ^ 31 -> bn (setvch vch) = mpi_value (rev vch).
Proof.
  intros B L. unfold setvch. rewrite trunc_id by (unfold word; lia). rewrite <- (length_rev vch).
  apply mpi2bn_ok; [now apply Forall_rev|now rewrite length_rev].
Qed.

Lemma setvch_getvch b : Z.of_nat (mpi_size (bn b)) < 2 ^ 31 -> bn (setvch (getvch b)) = bn b.
Proof.
  intros L. rewrite getvch_ok, setvch_ok.
  - rewrite rev_involutive. apply mpi_value_bytes.
  - apply Forall_rev, bytes_mpi_bytes.
  - now rewrite length_rev, length_mpi_bytes.
Qed.

Lemma getint_ok b : getint b = Z.max (- 2 ^ 31) (Z.min (2 ^ 31 - 1) (bn b)).
Proof.
  unfold getint. rewrite get_word_spec, is_negative_spec. destruct (Z.ltb_spec (bn b) 0); cbn [negb];
    match goal with |- (if ?c then _ else _) = _ => destruct c eqn:E end; lia.
Qed.

(** [get_bytes] gives the low bytes of the magnitude. *)
Lemma get_bytes_ok size b :
  length (get_bytes size b) = size /\ bytes (get_bytes size b) /\
  base_val 256 (get_bytes size b) = Z.abs (bn b) mod 256 ^ Z.of_nat size.
Proof.
  unfold get_bytes. rewrite mpi_length. set (v := bn b).
  set (vch := if (4 <? 4 + mpi_size v)%nat then _ else _).
  assert (M : exists d, skipn 4 vch = d /\ bytes d /\ be_val d = Z.abs v).
  { destruct (Z.eq_dec v 0) as [V0|V0].
    - exists []. subst vch. rewrite V0. change (4 <? 4 + mpi_size 0)%nat with false. cbv iota.
      fold v. rewrite mpi_payload. fold v. rewrite V0. splits; [reflexivity|apply Forall_nil|reflexivity].
    - destruct (mpi_size_bounds v V0) as (K & _ & _). destruct (mpi_word_range v V0) as [W E2].
      subst vch. rewrite (proj2 (Nat.ltb_lt _ _)) by lia. rewrite bn2mpi_spec. fold v.
      destruct (mpi_bytes v) as [|h d] eqn:E; [pose proof (length_mpi_bytes v) as L; rewrite E in L; cbn in L; lia|].
      exists (h .& 0x7f :: d). pose proof (bytes_mpi_bytes v) as B. rewrite E in B. pose proof B as [Hh Hd]%bytes_cons.
      assert (S4 : forall (a : list Z) x, length a = 4%nat -> upd (a ++ h :: d) 4 x = a ++ x :: d).
      { intros a x La. rewrite <- La. apply upd_middle. }
      rewrite S4 by apply length_be_store.
      assert (N4 : nth 4 (be_store 4 (Z.of_nat (mpi_size v)) ++ h :: d) 0 = h)
        by (rewrite app_nth2 by (rewrite length_be_store; lia); now rewrite length_be_store).
      rewrite N4. split; [rewrite skipn_app, length_be_store, skipn_all2 by (rewrite length_be_store; lia); reflexivity|].
      destruct (sign_bit h Hh) as (_ & Hm & _). rewrite Hm.
      split; [apply bytes_cons; split; [destruct (h <? 128) eqn:T; lia|assumption]|].
      pose proof (mpi_value_bytes v) as V. rewrite E, mpi_value_cons in V by exact B.
      rewrite !be_val_cons in *. pose proof (be_val_range d Hd). destruct (Z.ltb_spec h 128).
      + rewrite <- V. rewrite Z.abs_eq; [reflexivity|nia].
      + rewrite <- V, Z.abs_opp, Z.abs_eq; [reflexivity|nia]. }
  destruct M as (d & -> & B & V). assert (Br : bytes (rev d)) by now apply Forall_rev.
  assert (Ln : (length (firstn size (rev d)) <= size)%nat) by (rewrite length_firstn; lia).
  splits.
  - rewrite length_app, repeat_length. lia.
  - apply Forall_app. split; [now apply Forall_firstn'|]. apply Forall_repeat'. unfold word. lia.
  - rewrite base_val_app, base_val_zeros, Z.mul_0_r, Z.add_0_r, <- V. unfold be_val.
    assert (F : base_val 256 (firstn size (rev d)) = base_val 256 (rev d) mod 256 ^ Z.of_nat size); [|exact F].
    rewrite <- (firstn_skipn size (rev d)) at 2. rewrite base_val_app.
    destruct (Nat.le_gt_cases (length (rev d)) size).
    + rewrite skipn_all2 by assumption. cbn [base_val]. rewrite Z.mul_0_r, Z.add_0_r, firstn_all2 by assumption.
      symmetry. apply Z.mod_small. pose proof (base_val_range 256 (rev d) ltac:(lia) Br).
      assert (256 ^ Z.of_nat (length (rev d)) <= 256 ^ Z.of_nat size) by (apply Z.pow_le_mono_r; lia). lia.
    + rewrite length_firstn, Nat.min_l by lia. rewrite Z.mul_comm, Z_mod_plus_full. symmetry. apply Z.mod_small.
      pose proof (base_val_range 256 (firstn size (rev d)) ltac:(lia) (Forall_firstn' _ _ _ Br)) as R.
      rewrite length_firstn, Nat.min_l in R by lia. exact R.
Qed.

Lemma getuint256_ok b :
  words_ok 8 (getuint256 p b) /\
  (order p <> SPH_BIG_ENDIAN -> val (getuint256 p b) = Z.abs (bn b) mod 2 ^ 256).
Proof.
  destruct (get_bytes_ok 32 b) as (L & B & V). unfold getuint256. rewrite mpi_length.
  rewrite (proj2 (Nat.ltb_ge _ _)) by lia. split; [now apply of_memory_ok|]. intros Hp.
  rewrite val_of_memory by assumption. rewrite V. reflexivity.
Qed.

End Conversions.

(** ** Compact numbers *)

Lemma lor_shifted a b n : 0 <= n -> word n b -> (a << n) .| b = a * 2 ^ n + b.
Proof.
  intros Hn Hb. rewrite <- Z.shiftl_mul_pow2 by assumption.
  assert (D : (a << n) .& b = 0).
  { bitwise k Hk. destruct (Z.leb_spec n k); [|reflexivity].
    rewrite (word_testbit_high n b k) by assumption. apply andb_false_r. }
  rewrite Z.add_nocarry_lxor by exact D.
  symmetry. now apply Z.lxor_lor.
Qed.

(** The number that [nCompact] stands for: three bytes of a number of [nCompact >> 24] bytes, with a
    sign. *)
Definition compact_shift (m size : Z) : Z := if 3 <=? size then m * 256 ^ (size - 3) else m / 256 ^ (3 - size).
Definition compact_value (c : Z) : Z :=
  let m := compact_shift (c mod 2 ^ 23) (c / 2 ^ 24) in
  if c mod 2 ^ 24 <? 2 ^ 23 then m else - m.

(** The same, from its parts: the size, and the three bytes. *)
Lemma compact_value_parts s w1 w2 w3 :
  0 <= w1 < 256 -> 0 <= w2 < 256 -> 0 <= w3 < 256 ->
  compact_value (s * 2 ^ 24 + (w1 * 65536 + w2 * 256 + w3)) =
  let m := compact_shift ((w1 mod 128) * 65536 + w2 * 256 + w3) s in if w1 <? 128 then m else - m.
Proof.
  intros H1 H2 H3. unfold compact_value. set (w := w1 * 65536 + w2 * 256 + w3).
  assert (E1 : (s * 2 ^ 24 + w) / 2 ^ 24 = s) by (subst w; dlia).
  assert (E2 : (s * 2 ^ 24 + w) mod 2 ^ 24 = w) by (subst w; dlia).
  assert (E3 : (s * 2 ^ 24 + w) mod 2 ^ 23 = (w1 mod 128) * 65536 + w2 * 256 + w3) by (subst w; dlia).
  rewrite E1, E2, E3. cbv zeta. destruct (Z.ltb_spec w1 128).
  - rewrite (proj2 (Z.ltb_lt _ _)) by (subst w; lia). reflexivity.
  - rewrite (proj2 (Z.ltb_ge _ _)) by (subst w; lia). reflexivity.
Qed.

Lemma byte_mod_128 w : 0 <= w < 256 -> w mod 128 = if w <? 128 then w else w - 128.
Proof. intros H. destruct (Z.ltb_spec w 128); dlia. Qed.

(** The bytes [SetCompact] gives to OpenSSL. *)
Lemma compact_payload s w1 w2 w3 :
  0 <= w1 < 256 -> 0 <= w2 < 256 -> 0 <= w3 < 256 ->
  let d := firstn s [w1; w2; w3] ++ repeat 0 (s - 3) in
  bytes d /\ length d = s /\
  mpi_value d = let m := compact_shift ((w1 mod 128) * 65536 + w2 * 256 + w3) (Z.of_nat s) in
                if w1 <? 128 then m else - m.
Proof.
  intros H1 H2 H3 d.
  assert (Bz : forall n, bytes (repeat 0 n)) by (intros n; apply Forall_repeat'; unfold word; lia).
  assert (C : forall x t, bytes (x :: t) <-> 0 <= x < 256 /\ bytes t) by apply bytes_cons.
  pose proof (byte_mod_128 w1 H1) as E.
  destruct s as [|[|[|s]]]; subst d; cbn [firstn app repeat Nat.sub length].
  - splits; [apply Forall_nil|reflexivity|]. unfold compact_shift. change (3 <=? Z.of_nat 0) with false. cbv iota zeta.
    change (256 ^ (3 - Z.of_nat 0)) with 16777216. rewrite Z.div_small; [now destruct (w1 <? 128)|]. destruct (w1 <? 128); lia.
  - assert (B : bytes [w1]) by (apply C; split; [assumption|apply Forall_nil]). splits; [exact B|reflexivity|].
    rewrite mpi_value_cons by exact B. rewrite !be_val_cons. unfold compact_shift.
    change (3 <=? Z.of_nat 1) with false. cbv iota zeta. change (256 ^ (3 - Z.of_nat 1)) with 65536.
    change (be_val []) with 0. change (256 ^ Z.of_nat (length (@nil Z))) with 1. destruct (w1 <? 128); dlia.
  - assert (B : bytes [w1; w2]) by (apply C; split; [assumption|]; apply C; split; [assumption|apply Forall_nil]).
    splits; [exact B|reflexivity|].
    rewrite mpi_value_cons by exact B. rewrite !be_val_cons. unfold compact_shift.
    change (3 <=? Z.of_nat 2) with false. cbv iota zeta. change (256 ^ (3 - Z.of_nat 2)) with 256.
    change (be_val []) with 0. change (256 ^ Z.of_nat (length (@nil Z))) with 1. change (256 ^ Z.of_nat (length [w2])) with 256.
    destruct (w1 <? 128); dlia.
  - rewrite firstn_nil, Nat.sub_0_r. cbn [app].
    assert (B : bytes (w1 :: w2 :: w3 :: repeat 0 s)) by (repeat (apply C; split; [assumption|]); apply Bz).
    splits; [exact B|now rewrite repeat_length|].
    rewrite mpi_value_cons by exact B. rewrite !be_val_cons, be_val_zeros. cbn [length]. rewrite !repeat_length. unfold compact_shift.
    rewrite (proj2 (Z.leb_le 3 _)) by lia. replace (Z.of_nat (S (S (S s))) - 3) with (Z.of_nat s) by lia.
    rewrite !Nat2Z.inj_succ, !Z.pow_succ_r by lia. rewrite E. cbv zeta. destruct (w1 <? 128); ring.
Qed.

(** A compact number as its size and bytes. *)
Lemma compact_parts c :
  word 32 c ->
  let w i := (c >> i) .& 0xff in
  c = (c >> 24) * 2 ^ 24 + (w 16 * 65536 + w 8 * 256 + (c .& 0xff)) /\
  0 <= c >> 24 < 256 /\ (forall i, 0 <= w i < 256) /\ 0 <= c .& 0xff < 256.
Proof.
  intros Hc w. assert (M : forall x, x .& 0xff = x mod 256) by (intros x; change 0xff with (Z.ones 8); now rewrite Z.land_ones).
  subst w. cbv beta. rewrite !M, !Z.shiftr_div_pow2 by lia. unfold word in Hc.
  splits; [|apply Z.div_pos; lia|apply Z.div_lt_upper_bound; lia| |apply Z.mod_pos_bound; lia..].
  - change (2 ^ 24) with 16777216. change (2 ^ 16) with 65536. change (2 ^ 8) with 256.
    replace (c / 65536) with (c / 256 / 256) by (rewrite Z.div_div by lia; reflexivity).
    replace (c / 16777216) with (c / 256 / 256 / 256) by (rewrite !Z.div_div by lia; reflexivity). Z.div_mod_to_equations. lia.
  - intros i. rewrite M. apply Z.mod_pos_bound. reflexivity.
Qed.

Section Compact.
  Context {BIGNUM : Type} {ops : BN_ops BIGNUM} {spec : BN_spec ops}.

Lemma SetCompact_ok c : word 32 c -> bn (SetCompact c) = compact_value c.
Proof.
  intros Hc. destruct (compact_parts c Hc) as (E & Hs & Hw & H3). unfold SetCompact.
  pose proof (Hw 16) as H1. pose proof (Hw 8) as H2. set (w1 := (c >> 16) .& 0xff) in *. set (w2 := (c >> 8) .& 0xff) in *.
  set (w3 := c .& 0xff) in *. destruct (Z_of_nat_complete (c >> 24)) as [s Es]; [lia|]. rewrite Es in *.
  rewrite (f_equal compact_value E). rewrite compact_value_parts by assumption.
  destruct (compact_payload s w1 w2 w3 H1 H2 H3) as (B & L & V). rewrite <- V.
  rewrite <- mpi2bn_ok with (self := BN_new) by (assumption || lia). f_equal. f_equal. rewrite L.
  assert (T : trunc 8 (Z.of_nat s) = Z.of_nat s) by (apply trunc_id; [lia|unfold word; lia]). rewrite T, Nat2Z.id.
  assert (P : pch_size (Z.of_nat s) = [0; 0; 0; Z.of_nat s]).
  { unfold pch_size. change 0xff with (Z.ones 8). rewrite !Z.land_ones, !Z.shiftr_div_pow2 by lia.
    rewrite !Z.div_small by lia. rewrite (Z.mod_small (Z.of_nat s)) by lia. reflexivity. }
  rewrite P. destruct s as [|[|[|s]]]; [reflexivity..|].
  cbv zeta. rewrite !(proj2 (Z.leb_le _ _)) by lia. cbn [Nat.add repeat upd app firstn].
  rewrite firstn_nil. do 7 f_equal. cbn [app]. f_equal. lia.
Qed.
(** What is left of a number in three bytes. *)
Definition compact_word (v : Z) : Z :=
  let k := Z.of_nat (mpi_size v) in
  if 3 <=? k then mpi_word v / 256 ^ (k - 3) else mpi_word v * 256 ^ (3 - k).

Lemma three_bytes d :
  bytes d ->
  nth 0 d 0 * 65536 + nth 1 d 0 * 256 + nth 2 d 0 =
    if 3 <=? Z.of_nat (length d) then be_val d / 256 ^ (Z.of_nat (length d) - 3)
    else be_val d * 256 ^ (3 - Z.of_nat (length d)).
Proof.
  intros B. destruct d as [|b0 [|b1 [|b2 d]]]; [reflexivity| | |].
  { rewrite be_val_cons. change (be_val []) with 0. cbn [nth length]. change (3 <=? Z.of_nat 1) with false.
    change (256 ^ (3 - Z.of_nat 1)) with 65536. change (256 ^ Z.of_nat 0) with 1. cbv iota. lia. }
  { rewrite !be_val_cons. change (be_val []) with 0. cbn [nth length]. change (3 <=? Z.of_nat 2) with false.
    change (256 ^ (3 - Z.of_nat 2)) with 256. change (256 ^ Z.of_nat 1) with 256. change (256 ^ Z.of_nat 0) with 1. cbv iota. lia. }
  rewrite (proj2 (Z.leb_le 3 _)) by (cbn [length]; lia). cbn [nth]. rewrite !be_val_cons. cbn [length].
  replace (Z.of_nat (S (S (S (length d)))) - 3) with (Z.of_nat (length d)) by lia.
  do 3 (apply bytes_cons in B as [? B]). pose proof (be_val_range d B) as R.
  rewrite !Nat2Z.inj_succ, !Z.pow_succ_r by lia. set (P := 256 ^ Z.of_nat (length d)) in *.
  apply Z.div_unique_pos with (be_val d); [exact R|ring].
Qed.

Lemma GetCompact_ok b :
  (mpi_size (bn b) < 256)%nat ->
  GetCompact b = Z.of_nat (mpi_size (bn b)) * 2 ^ 24 + compact_word (bn b) /\ 0 <= compact_word (bn b) < 2 ^ 24.
Proof.
  intros K. set (v := bn b) in *. pose proof (three_bytes (mpi_bytes v) (bytes_mpi_bytes v)) as T.
  rewrite length_mpi_bytes, be_val_mpi_bytes in T. fold (compact_word v) in T.
  assert (N : forall i, nth (4 + i) (BN_bn2mpi b) 0 = nth i (mpi_bytes v) 0).
  { intros i. rewrite <- (nth_skipn' _ 4). now rewrite mpi_payload. }
  assert (W : forall i, 0 <= nth i (mpi_bytes v) 0 < 256).
  { intros i. apply (Forall_nth' (word 8)); [apply bytes_mpi_bytes|unfold word; lia]. }
  pose proof (N 0%nat) as N0. pose proof (N 1%nat) as N1. pose proof (N 2%nat) as N2. cbn [Nat.add] in N0, N1, N2.
  unfold GetCompact. rewrite N0, N1, N2. rewrite mpi_length. fold v.
  replace (Z.of_nat (4 + mpi_size v) - 4) with (Z.of_nat (mpi_size v)) by lia.
  rewrite trunc_id by (try lia; rewrite Z.shiftl_mul_pow2 by lia; unfold word; lia).
  set (k := mpi_size v) in *.
  assert (Z0 : forall i, (k <= i)%nat -> nth i (mpi_bytes v) 0 = 0)
    by (intros i Hi; apply nth_overflow; now rewrite length_mpi_bytes).
  pose proof (W 0%nat) as W0. pose proof (W 1%nat) as W1. pose proof (W 2%nat) as W2.
  set (b0 := nth 0 (mpi_bytes v) 0) in *. set (b1 := nth 1 (mpi_bytes v) 0) in *. set (b2 := nth 2 (mpi_bytes v) 0) in *.
  assert (G : forall x y z, 0 <= x < 256 -> 0 <= y < 256 -> 0 <= z < 256 ->
    (Z.of_nat k << 24) .| (x << 16) .| (y << 8) .| z = Z.of_nat k * 2 ^ 24 + (x * 65536 + y * 256 + z)).
  { intros x y z Hx Hy Hz. rewrite <- !Z.lor_assoc.
    rewrite (lor_shifted y z 8) by (lia || (unfold word; lia)).
    rewrite (lor_shifted x _ 16) by (lia || (unfold word; change (2 ^ 8) with 256; change (2 ^ 16) with 65536; lia)).
    rewrite (lor_shifted _ _ 24) by (lia || (unfold word; change (2 ^ 8) with 256; change (2 ^ 16) with 65536; lia)).
    change (2 ^ 8) with 256; change (2 ^ 16) with 65536. ring. }
  split; [|lia]. rewrite <- T, <- G by assumption.
  unfold b0, b1, b2 in *. clearbody k. clear - Z0. destruct k as [|[|[|k]]].
  - rewrite !Z0 by lia. reflexivity.
  - rewrite (Z0 1%nat), (Z0 2%nat) by lia. change (1 <=? Z.of_nat 1) with true. change (2 <=? Z.of_nat 1) with false.
    change (3 <=? Z.of_nat 1) with false. cbv iota. now rewrite Z.shiftl_0_l, !Z.lor_0_r.
  - rewrite (Z0 2%nat) by lia. change (1 <=? Z.of_nat 2) with true. change (2 <=? Z.of_nat 2) with true.
    change (3 <=? Z.of_nat 2) with false. cbv iota. now rewrite Z.lor_0_r.
  - rewrite !(proj2 (Z.leb_le _ _)) by lia. reflexivity.
Qed.

(** The unit of the last place of a compact number. *)
Definition compact_unit (v : Z) : Z := 256 ^ Z.max 0 (Z.of_nat (mpi_size v) - 3).

Lemma compact_word_parts v :
  v <> 0 ->
  compact_word v mod 2 ^ 23 = (if 3 <=? Z.of_nat (mpi_size v) then Z.abs v / 256 ^ (Z.of_nat (mpi_size v) - 3)
                               else Z.abs v * 256 ^ (3 - Z.of_nat (mpi_size v))) /\
  (compact_word v <? 2 ^ 23) = (0 <? v).
Proof.
  intros V. destruct (mpi_size_bounds v V) as (K1 & K2 & _). unfold compact_word, mpi_word.
  set (k := Z.of_nat (mpi_size v)) in *. set (s := if v <? 0 then 2 ^ (8 * k - 1) else 0).
  set (M := if 3 <=? k then Z.abs v / 256 ^ (k - 3) else Z.abs v * 256 ^ (3 - k)).
  assert (H : (if 3 <=? k then (Z.abs v + s) / 256 ^ (k - 3) else (Z.abs v + s) * 256 ^ (3 - k)) =
              M + (if v <? 0 then 1 else 0) * 2 ^ 23 /\ 0 <= M < 2 ^ 23).
  { subst M s. destruct (Z.leb_spec 3 k).
    - assert (P : 2 ^ (8 * k - 1) = 2 ^ 23 * 256 ^ (k - 3))
        by (change 256 with (2 ^ 8); rewrite <- Z.pow_mul_r, <- Z.pow_add_r by lia; f_equal; lia).
      assert (Q : 0 < 256 ^ (k - 3)) by (apply Z.pow_pos_nonneg; lia). rewrite P in *. split.
      + destruct (v <? 0); [|now rewrite Z.add_0_r, Z.mul_0_l, Z.add_0_r]. rewrite Z.div_add by lia. lia.
      + split; [apply Z.div_pos; lia|]. apply Z.div_lt_upper_bound; [exact Q|]. lia.
    - assert (C : k = 1 \/ k = 2) by lia. destruct C as [C|C]; rewrite C in *.
      + change (2 ^ (8 * 1 - 1)) with 128 in *. change (256 ^ (3 - 1)) with 65536. change (2 ^ 23) with 8388608.
        destruct (v <? 0); lia.
      + change (2 ^ (8 * 2 - 1)) with 32768 in *. change (256 ^ (3 - 2)) with 256. change (2 ^ 23) with 8388608.
        destruct (v <? 0); lia. }
  destruct H as [-> HM]. split.
  - rewrite Z_mod_plus_full. now apply Z.mod_small.
  - destruct (Z.ltb_spec v 0); [rewrite (proj2 (Z.ltb_ge _ _)), (proj2 (Z.ltb_ge 0 v)) by lia|
      rewrite (proj2 (Z.ltb_lt _ _)), (proj2 (Z.ltb_lt 0 v)) by lia]; reflexivity.
Qed.

Lemma compact_value_word v :
  (mpi_size v < 256)%nat ->
  compact_value (Z.of_nat (mpi_size v) * 2 ^ 24 + compact_word v) = Z.quot v (compact_unit v) * compact_unit v.
Proof.
  intros K. destruct (Z.eq_dec v 0) as [->|V]; [reflexivity|]. destruct (mpi_size_bounds v V) as (K1 & _ & _).
  destruct (compact_word_parts v V) as [W1 W2].
  assert (R : 0 <= compact_word v < 2 ^ 24).
  { unfold compact_word. destruct (mpi_word_range v V) as [[U1 U2] _]. set (k := Z.of_nat (mpi_size v)) in *.
    destruct (Z.leb_spec 3 k).
    - split; [apply Z.div_pos; [lia|apply Z.pow_pos_nonneg; lia]|]. apply Z.div_lt_upper_bound; [apply Z.pow_pos_nonneg; lia|].
      eapply Z.lt_le_trans; [exact U2|]. change 256 with (2 ^ 8). rewrite <- Z.pow_mul_r, <- Z.pow_add_r by lia.
      apply Z.pow_le_mono_r; lia.
    - assert (C : k = 1 \/ k = 2) by lia. destruct C as [C|C]; rewrite C in *; cbn in U2 |- *; lia. }
  unfold compact_value. set (k := Z.of_nat (mpi_size v)) in *. set (w := compact_word v) in *.
  assert (E1 : (k * 2 ^ 24 + w) / 2 ^ 24 = k) by (rewrite Z.div_add_l by lia; rewrite Z.div_small by lia; lia).
  assert (E2 : (k * 2 ^ 24 + w) mod 2 ^ 24 = w) by (rewrite Z.add_comm, Z_mod_plus_full; apply Z.mod_small; exact R).
  assert (E3 : (k * 2 ^ 24 + w) mod 2 ^ 23 = w mod 2 ^ 23).
  { replace (k * 2 ^ 24 + w) with (w + (2 * k) * 2 ^ 23) by (change (2 ^ 24) with (2 * 2 ^ 23); ring). apply Z_mod_plus_full. }
  rewrite E1, E2, E3, W1, W2. unfold compact_shift, compact_unit. fold k.
  assert (HP : 0 < 256 ^ Z.max 0 (k - 3)) by (apply Z.pow_pos_nonneg; lia).
  clear E1 E2 E3 W1 W2. assert (M : (if 3 <=? k then (if 3 <=? k then Z.abs v / 256 ^ (k - 3) else Z.abs v * 256 ^ (3 - k)) * 256 ^ (k - 3)
               else (if 3 <=? k then Z.abs v / 256 ^ (k - 3) else Z.abs v * 256 ^ (3 - k)) / 256 ^ (3 - k)) =
              Z.abs v / 256 ^ Z.max 0 (k - 3) * 256 ^ Z.max 0 (k - 3)).
  { destruct (Z.leb_spec 3 k).
    - now rewrite Z.max_r by lia.
    - rewrite Z.div_mul by (apply Z.pow_nonzero; lia). rewrite Z.max_l by lia. change (256 ^ 0) with 1.
      now rewrite Z.div_1_r, Z.mul_1_r. }
  rewrite M. clear M. set (P := 256 ^ Z.max 0 (k - 3)) in *.
  destruct (Z.ltb_spec 0 v).
  - rewrite Z.abs_eq, Z.quot_div_nonneg by lia. reflexivity.
  - rewrite Z.abs_neq by lia. rewrite <- (Z.opp_involutive v) at 2. rewrite Z.quot_opp_l, Z.quot_div_nonneg by lia. ring.
Qed.
End Compact.

(** Rounding to three bytes keeps the size and the three bytes. *)
Lemma compact_round v :
  let v' := Z.quot v (compact_unit v) * compact_unit v in
  Z.abs (v - v') * 2 ^ 15 <= Z.abs v /\ 0 <= v * v' /\ Z.abs v' <= Z.abs v /\
  mpi_size v' = mpi_size v /\ compact_word v' = compact_word v.
Proof.
  cbv zeta. destruct (Z.eq_dec v 0) as [->|V]; [splits; try reflexivity; discriminate|].
  destruct (mpi_size_bounds v V) as (K1 & K2 & K3). unfold compact_unit. set (k := Z.of_nat (mpi_size v)) in *.
  destruct (Z.leb_spec k 3) as [C|C].
  { rewrite Z.max_l by lia. change (256 ^ 0) with 1. rewrite Z.quot_1_r, Z.mul_1_r. splits; try reflexivity; try lia; nia. }
  rewrite Z.max_r by lia. set (P := 256 ^ (k - 3)). assert (HP : 0 < P) by (apply Z.pow_pos_nonneg; lia).
  assert (EP : P = 2 ^ (8 * k - 24)) by (unfold P; change 256 with (2 ^ 8); rewrite <- Z.pow_mul_r by lia; f_equal; lia).
  set (a := Z.abs v) in *. set (q := a / P).
  assert (E : Z.quot v P * P = Z.sgn v * (q * P)).
  { unfold q, a. destruct (Z.lt_ge_cases v 0).
    - rewrite Z.abs_neq, Z.sgn_neg by lia. rewrite <- (Z.opp_involutive v) at 1.
      rewrite Z.quot_opp_l, Z.quot_div_nonneg by lia. ring.
    - rewrite Z.abs_eq, Z.sgn_pos, Z.quot_div_nonneg by lia. ring. }
  pose proof (Z.div_mod a P ltac:(lia)) as D. pose proof (Z.mod_pos_bound a P HP) as M. fold q in D.
  assert (Q15 : 2 ^ 15 <= q).
  { unfold q. apply Z.div_le_lower_bound; [exact HP|]. rewrite EP, <- Z.pow_add_r by lia.
    replace (8 * k - 24 + 15) with (8 * (k - 1) - 1) by lia. exact K3. }
  assert (Ev : v = Z.sgn v * a) by (unfold a; rewrite Z.mul_comm; symmetry; apply Z.abs_sgn).
  assert (Sg : Z.sgn v = 1 \/ Z.sgn v = -1) by (destruct (Z.sgn_spec v) as [[? ->]|[[? ->]|[? ->]]]; lia).
  set (v' := Z.quot v P * P) in *.
  assert (A' : Z.abs v' = q * P) by (rewrite E; destruct Sg as [->| ->]; nia).
  assert (S' : (v' <? 0) = (v <? 0)).
  { rewrite E. destruct Sg as [Sg|Sg]; rewrite Sg; [apply Z.sgn_pos_iff in Sg|apply Z.sgn_neg_iff in Sg];
      [rewrite !(proj2 (Z.ltb_ge _ _)) by nia|rewrite !(proj2 (Z.ltb_lt _ _)) by nia]; reflexivity. }
  assert (Ak : 2 ^ (8 * (k - 1) - 1) <= q * P).
  { replace (8 * (k - 1) - 1) with (15 + (8 * k - 24)) by lia. rewrite Z.pow_add_r, <- EP by lia. nia. }
  assert (N' : v' <> 0) by (intros X; rewrite X in A'; cbn [Z.abs] in A'; nia).
  assert (Sz : Z.of_nat (mpi_size v') = k) by (apply mpi_size_unique; rewrite ?A'; (assumption || nia)).
  splits.
  - replace (Z.abs (v - v')) with (a mod P); [nia|]. rewrite E. rewrite Ev at 1. destruct Sg as [->| ->]; lia.
  - rewrite E. rewrite Ev at 1. destruct Sg as [->| ->]; nia.
  - nia.
  - apply Nat2Z.inj. exact Sz.
  - unfold compact_word, mpi_word. rewrite Sz, S', A'. fold k a. rewrite (proj2 (Z.leb_le 3 k)) by lia. fold P.
    destruct (v <? 0); [|rewrite !Z.add_0_r; unfold q; now rewrite Z.div_mul by lia].
    assert (T : 2 ^ (8 * k - 1) = 2 ^ 23 * P) by (rewrite EP, <- Z.pow_add_r by lia; f_equal; lia).
    rewrite T, !Z.div_add by lia. rewrite Z.div_mul by lia. reflexivity.
Qed.
