(* ===== verification/BigNumTheorems.v ===== *)
(** * What the conversions of CBigNum promise

    Every conversion keeps the number it converts, or reduces it the way its
    type requires; the compact form keeps the top bytes of a number. *)

From Stdlib Require Import ZArith List Lia Bool.
From S2P Require Import Prelude SphTypes Uint256 Uint256Proof Uint256Hex Serialize BigNum BigNumProof.
Import ListNotations.
Local Open Scope Z_scope.

(** ** The integers as big numbers *)

Module Model.
#[global] Instance ops : BN_ops Z := {
  BN_new := 0;
  BN_set_word n := n;
  BN_get_word b := Z.min (Z.abs b) (2 ^ 64 - 1);
  BN_mpi2bn s :=
    if be_load 4 s =? Z.of_nat (length (skipn 4 s)) then Some (mpi_value (skipn 4 s)) else None;
  BN_bn2mpi b := be_store 4 (Z.of_nat (mpi_size b)) ++ mpi_bytes b;
  BN_is_negative b := b <? 0;
  BN_set_negative b n := if (n : bool) then - Z.abs b else Z.abs b;
  BN_is_zero b := b =? 0;
  BN_add a b := Some (a + b);
  BN_sub a b := Some (a - b);
  BN_mul a b := Some (a * b);
  BN_div a b := if b =? 0 then None else Some (Z.quot a b, Z.rem a b);
  BN_nnmod a b := if b =? 0 then None else Some (a mod Z.abs b);
  BN_lshift a n := Some (a * 2 ^ n);
  BN_rshift a n := Some (Z.quot a (2 ^ n));
  BN_cmp a b := match a ?= b with Lt => -1 | Eq => 0 | Gt => 1 end
}.

#[global] Instance spec : BN_spec ops.
Proof.
  unshelve refine {| bn := fun z => z |}; cbn -[be_store be_load skipn mpi_bytes];
    try reflexivity; try (intros; eexists; split; reflexivity).
  - intros d B L. rewrite skipn_app, length_be_store, skipn_all2 by (rewrite length_be_store; lia). cbn [app Nat.sub skipn].
    unfold be_load. rewrite firstn_app, length_be_store, firstn_all2 by (rewrite length_be_store; lia).
    cbn [Nat.sub firstn]. rewrite app_nil_r. unfold be_store. rewrite rev_involutive.
    rewrite le_load_store by (unfold word; lia). rewrite Z.eqb_refl. eauto.
  - intros a b Hb. rewrite (proj2 (Z.eqb_neq b 0) Hb). eauto.
  - intros a b Hb. rewrite (proj2 (Z.eqb_neq b 0)) by lia. rewrite Z.abs_eq by lia. eauto.
Defined.
End Model.

Section Theorems.
  Context {BIGNUM : Type} {ops : BN_ops BIGNUM} {spec : BN_spec ops}.
  Variable p : platform.

(** The constructors from machine integers and from a uint256, the minimum of int64_t included,
    give the number; [getuint256] gives its magnitude modulo 2^256, [getint] the nearest int; and
    [setvch] reads back what [getvch] wrote. *)
Theorem bignum_conversions (n u : Z) (w : list Z) (b : BIGNUM) :
  - 2 ^ 63 <= n < 2 ^ 63 -> word 64 u -> words_ok 8 w -> order p <> SPH_BIG_ENDIAN ->
  Z.of_nat (mpi_size (bn b)) < 2 ^ 31 ->
  bn (of_long n) = n /\ bn (setint64 n) = n /\ bn (setuint64 u) = u /\
  bn (setuint256 p w) = val w /\ val (getuint256 p b) = Z.abs (bn b) mod 2 ^ 256 /\
  getuint256 p (setuint256 p w) = w /\
  getint b = Z.max (- 2 ^ 31) (Z.min (2 ^ 31 - 1) (bn b)) /\
  bn (setvch (getvch b)) = bn b.
Proof.
  intros Hn Hu Hw Hp Hb. splits.
  - now apply of_long_ok.
  - now apply setint64_ok.
  - now apply setuint64_ok.
  - now apply setuint256_ok.
  - now apply getuint256_ok.
  - apply (val_inj 8); [apply getuint256_ok|assumption|].
    destruct (getuint256_ok p (setuint256 p w)) as [_ ->]; [|assumption]. rewrite setuint256_ok by assumption.
    pose proof (val_word 8 w Hw) as V. unfold word in V. change (32 * Z.of_nat 8) with 256 in V.
    rewrite Z.abs_eq by lia. now apply Z.mod_small.
  - apply getint_ok.
  - now apply setvch_getvch.
Qed.

(** The compact form of a number of less than 256 bytes, read back, is the number rounded
    towards zero to its first three bytes; it loses less than one part in 2^15, and a
    number read from a compact form so obtained has that form again. *)
Theorem compact_truncates (b : BIGNUM) :
  (mpi_size (bn b) < 256)%nat ->
  let v' := bn (SetCompact (GetCompact b)) in
  v' = Z.quot (bn b) (compact_unit (bn b)) * compact_unit (bn b) /\
  Z.abs (bn b - v') * 2 ^ 15 <= Z.abs (bn b) /\ 0 <= bn b * v' /\ Z.abs v' <= Z.abs (bn b) /\
  GetCompact (SetCompact (GetCompact b) : BIGNUM) = GetCompact b.
Proof.
  intros K. destruct (GetCompact_ok b K) as [G R].
  assert (W : word 32 (GetCompact b)) by (rewrite G; unfold word; lia). cbv zeta.
  assert (E : bn (SetCompact (GetCompact b) : BIGNUM) = Z.quot (bn b) (compact_unit (bn b)) * compact_unit (bn b))
    by (rewrite SetCompact_ok by exact W; rewrite G; now apply compact_value_word).
  destruct (compact_round (bn b)) as (L1 & L2 & L3 & L4 & L5). rewrite E. splits; try assumption; [reflexivity|].
  destruct (GetCompact_ok (SetCompact (GetCompact b))) as [G' _]; [rewrite E, L4; exact K|].
  rewrite G', E, L4, L5. now rewrite G.
Qed.
End Theorems.

Lemma bignum_conversions_witness :
  let p := Platform SPH_LITTLE_ENDIAN true true in let w := [1; 0; 0; 0; 0; 0; 0; 2 ^ 31] in
  let b := 2 ^ 260 + 5 in
  bn (of_long (- 2 ^ 63)) = - 2 ^ 63 /\ bn (setint64 (- 2 ^ 63)) = - 2 ^ 63 /\ bn (setuint64 (2 ^ 64 - 1)) = 2 ^ 64 - 1 /\
  bn (setuint256 p w) = val w /\ val (getuint256 p b) = Z.abs (bn b) mod 2 ^ 256 /\
  getuint256 p (setuint256 p w) = w /\
  getint b = Z.max (- 2 ^ 31) (Z.min (2 ^ 31 - 1) (bn b)) /\
  bn (setvch (getvch b)) = bn b.
Proof.
  apply (bignum_conversions (Platform SPH_LITTLE_ENDIAN true true) (- 2 ^ 63) (2 ^ 64 - 1)
           [1; 0; 0; 0; 0; 0; 0; 2 ^ 31] (2 ^ 260 + 5));
    [vm_compute; split; congruence | vm_compute; split; congruence | split; [reflexivity|repeat constructor; discriminate]
    | discriminate | reflexivity].
Defined.

Lemma compact_truncates_witness :
  let b := 2 ^ 236 - 1 in let v' := bn (SetCompact (GetCompact b)) in
  v' = Z.quot (bn b) (compact_unit (bn b)) * compact_unit (bn b) /\
  Z.abs (bn b - v') * 2 ^ 15 <= Z.abs (bn b) /\ 0 <= bn b * v' /\ Z.abs v' <= Z.abs (bn b) /\
  GetCompact (SetCompact (GetCompact b)) = GetCompact b.
Proof. apply (compact_truncates (2 ^ 236 - 1)). apply Nat.ltb_lt. reflexivity. Defined.
