(* ===== verification/Chain.v ===== *)
(** * main.h: the block index and the walks over it

    The objects [CBlockIndex] in memory, linked by the pointers [pprev] and
    [pnext], and the functions of main.h and main.cpp that walk from a block to
    its ancestors.  The memory is a finite map from addresses to objects; a
    pointer is an optional address.  [None] as a result is a run that does not
    return: a null or dangling pointer dereferenced, an assertion that fails,
    an exception nobody catches; or a walk whose fuel was not enough,
    which the proofs exclude. *)

From stdpp Require Import gmap list sorting.
From Stdlib Require Import ZArith Lia.
From S2P Require Import Prelude SphTypes Uint256 Transaction.
Local Open Scope Z_scope.

(** ** Keys of maps and sets *)

#[export] Instance COutPoint_eq_dec : EqDecision COutPoint.
Proof. solve_decision. Defined.

#[export] Instance COutPoint_countable : Countable COutPoint.
Proof.
  apply (inj_countable' (fun o => (hash o, n o)) (fun '(h, i) => OutPoint h i)). now intros [].
Defined.

(** ** The object *)

Abbreviation pointer := (option positive).

Record CBlockIndex := BlockIndex {
  phashBlock : list Z; pprev : pointer; pnext : pointer; nFile : Z; nBlockPos : Z;
  nChainTrust : list Z; nHeight : Z; nMint : Z; nMoneySupply : Z;
  nFlags : Z; nStakeModifier : Z; nStakeModifierChecksum : Z;
  prevoutStake : COutPoint; nStakeTime : Z; hashProof : list Z;
  i_nVersion : Z; i_hashMerkleRoot : list Z; i_nTime : Z; i_nBits : Z; i_nNonce : Z
}.

(** The objects that were allocated. *)
Abbreviation heap := (gmap positive CBlockIndex).

Definition BLOCK_PROOF_OF_STAKE : Z := 1 << 0.
Definition BLOCK_STAKE_ENTROPY : Z := 1 << 1.
Definition BLOCK_STAKE_MODIFIER : Z := 1 << 2.

Definition GetBlockTime (b : CBlockIndex) : Z := i_nTime b.
Definition IsProofOfWork (b : CBlockIndex) : bool := nFlags b .& BLOCK_PROOF_OF_STAKE =? 0.
Definition IsProofOfStake (b : CBlockIndex) : bool := negb (nFlags b .& BLOCK_PROOF_OF_STAKE =? 0).
Definition GetStakeEntropyBit (b : CBlockIndex) : Z := (nFlags b .& BLOCK_STAKE_ENTROPY) >> 1.
Definition GeneratedStakeModifier (b : CBlockIndex) : bool := negb (nFlags b .& BLOCK_STAKE_MODIFIER =? 0).

(** Assignments to a member. *)
Definition with_phashBlock v b := BlockIndex v (pprev b) (pnext b) (nFile b) (nBlockPos b) (nChainTrust b) (nHeight b) (nMint b) (nMoneySupply b) (nFlags b) (nStakeModifier b) (nStakeModifierChecksum b) (prevoutStake b) (nStakeTime b) (hashProof b) (i_nVersion b) (i_hashMerkleRoot b) (i_nTime b) (i_nBits b) (i_nNonce b).
Definition with_pprev v b := BlockIndex (phashBlock b) v (pnext b) (nFile b) (nBlockPos b) (nChainTrust b) (nHeight b) (nMint b) (nMoneySupply b) (nFlags b) (nStakeModifier b) (nStakeModifierChecksum b) (prevoutStake b) (nStakeTime b) (hashProof b) (i_nVersion b) (i_hashMerkleRoot b) (i_nTime b) (i_nBits b) (i_nNonce b).
Definition with_pnext v b := BlockIndex (phashBlock b) (pprev b) v (nFile b) (nBlockPos b) (nChainTrust b) (nHeight b) (nMint b) (nMoneySupply b) (nFlags b) (nStakeModifier b) (nStakeModifierChecksum b) (prevoutStake b) (nStakeTime b) (hashProof b) (i_nVersion b) (i_hashMerkleRoot b) (i_nTime b) (i_nBits b) (i_nNonce b).
Definition with_nChainTrust v b := BlockIndex (phashBlock b) (pprev b) (pnext b) (nFile b) (nBlockPos b) v (nHeight b) (nMint b) (nMoneySupply b) (nFlags b) (nStakeModifier b) (nStakeModifierChecksum b) (prevoutStake b) (nStakeTime b) (hashProof b) (i_nVersion b) (i_hashMerkleRoot b) (i_nTime b) (i_nBits b) (i_nNonce b).
Definition with_nHeight v b := BlockIndex (phashBlock b) (pprev b) (pnext b) (nFile b) (nBlockPos b) (nChainTrust b) v (nMint b) (nMoneySupply b) (nFlags b) (nStakeModifier b) (nStakeModifierChecksum b) (prevoutStake b) (nStakeTime b) (hashProof b) (i_nVersion b) (i_hashMerkleRoot b) (i_nTime b) (i_nBits b) (i_nNonce b).
Definition with_money mint supply b := BlockIndex (phashBlock b) (pprev b) (pnext b) (nFile b) (nBlockPos b) (nChainTrust b) (nHeight b) mint supply (nFlags b) (nStakeModifier b) (nStakeModifierChecksum b) (prevoutStake b) (nStakeTime b) (hashProof b) (i_nVersion b) (i_hashMerkleRoot b) (i_nTime b) (i_nBits b) (i_nNonce b).
Definition with_nFlags v b := BlockIndex (phashBlock b) (pprev b) (pnext b) (nFile b) (nBlockPos b) (nChainTrust b) (nHeight b) (nMint b) (nMoneySupply b) v (nStakeModifier b) (nStakeModifierChecksum b) (prevoutStake b) (nStakeTime b) (hashProof b) (i_nVersion b) (i_hashMerkleRoot b) (i_nTime b) (i_nBits b) (i_nNonce b).
Definition with_nStakeModifier v b := BlockIndex (phashBlock b) (pprev b) (pnext b) (nFile b) (nBlockPos b) (nChainTrust b) (nHeight b) (nMint b) (nMoneySupply b) (nFlags b) v (nStakeModifierChecksum b) (prevoutStake b) (nStakeTime b) (hashProof b) (i_nVersion b) (i_hashMerkleRoot b) (i_nTime b) (i_nBits b) (i_nNonce b).
Definition with_nStakeModifierChecksum v b := BlockIndex (phashBlock b) (pprev b) (pnext b) (nFile b) (nBlockPos b) (nChainTrust b) (nHeight b) (nMint b) (nMoneySupply b) (nFlags b) (nStakeModifier b) v (prevoutStake b) (nStakeTime b) (hashProof b) (i_nVersion b) (i_hashMerkleRoot b) (i_nTime b) (i_nBits b) (i_nNonce b).
Definition with_stake prevout time b := BlockIndex (phashBlock b) (pprev b) (pnext b) (nFile b) (nBlockPos b) (nChainTrust b) (nHeight b) (nMint b) (nMoneySupply b) (nFlags b) (nStakeModifier b) (nStakeModifierChecksum b) prevout time (hashProof b) (i_nVersion b) (i_hashMerkleRoot b) (i_nTime b) (i_nBits b) (i_nNonce b).
Definition with_hashProof v b := BlockIndex (phashBlock b) (pprev b) (pnext b) (nFile b) (nBlockPos b) (nChainTrust b) (nHeight b) (nMint b) (nMoneySupply b) (nFlags b) (nStakeModifier b) (nStakeModifierChecksum b) (prevoutStake b) (nStakeTime b) v (i_nVersion b) (i_hashMerkleRoot b) (i_nTime b) (i_nBits b) (i_nNonce b).

Definition SetProofOfStake (b : CBlockIndex) : CBlockIndex := with_nFlags (nFlags b .| BLOCK_PROOF_OF_STAKE) b.
(** The boolean result and the object afterwards. *)
Definition SetStakeEntropyBit (nEntropyBit : Z) (b : CBlockIndex) : bool * CBlockIndex :=
  if 1 <? nEntropyBit then (false, b)
  else (true, with_nFlags (nFlags b .| (if nEntropyBit =? 0 then 0 else BLOCK_STAKE_ENTROPY)) b).
Definition SetStakeModifier (nModifier : Z) (fGeneratedStakeModifier : bool) (b : CBlockIndex) : CBlockIndex :=
  let b := with_nStakeModifier nModifier b in
  if fGeneratedStakeModifier then with_nFlags (nFlags b .| BLOCK_STAKE_MODIFIER) b else b.

(** [CBlock::IsProofOfStake] *)
Definition CBlock_IsProofOfStake (block : CBlock) : bool :=
  match vtx block with _ :: tx :: _ => IsCoinStake tx | _ => false end.

Definition max_uint : Z := 0xFFFFFFFF.
Definition COutPoint_null : COutPoint := OutPoint (zeros 8) max_uint.

(** The constructor from a block; a coinstake has an input. *)
Definition CBlockIndex_of (nFileIn nBlockPosIn : Z) (block : CBlock) : CBlockIndex :=
  let b := BlockIndex [] None None nFileIn nBlockPosIn (zeros 8) 0 0 0 0 0 0 COutPoint_null 0 (zeros 8)
             (b_nVersion block) (hashMerkleRoot block) (b_nTime block) (nBits block) (nNonce block) in
  if CBlock_IsProofOfStake block then
    match vtx block with
    | _ :: tx :: _ => with_stake (prevout (nth 0 (vin tx) (TxIn COutPoint_null [] [] 0))) (nTime tx) (SetProofOfStake b)
    | _ => b
    end
  else b.

(** ** Walks to the ancestors *)

Section Walks.
  Variable h : heap.

(** [pindex->...] *)
Definition deref (pindex : pointer) : option CBlockIndex := pindex ≫= fun a => h !! a.

(** Enough fuel for a walk from [pindex]: its height and two more. *)
Definition walk_fuel (pindex : pointer) : nat :=
  match deref pindex with Some b => S (S (Z.to_nat (nHeight b))) | None => 1%nat end.

Fixpoint last_block_loop (fuel : nat) (fProofOfStake : bool) (pindex : pointer) : option pointer :=
  match fuel with
  | O => None
  | S fuel =>
      match pindex with
      | None => Some None
      | Some _ =>
          let* b := deref pindex in
          match pprev b with
          | None => Some pindex
          | Some _ =>
              if negb (eqb (IsProofOfStake b) fProofOfStake) then last_block_loop fuel fProofOfStake (pprev b)
              else Some pindex
          end
      end
  end.
Definition GetLastBlockIndex (pindex : pointer) (fProofOfStake : bool) : option pointer :=
  last_block_loop (walk_fuel pindex) fProofOfStake pindex.

Definition nMedianTimeSpan : nat := 11.

(** The part of the array from [pbegin] on; [turns] is [nMedianTimeSpan - i]. *)
Fixpoint median_loop (turns : nat) (pindex : pointer) (a : list Z) : option (list Z) :=
  match turns, pindex with
  | S turns, Some _ => let* b := deref pindex in median_loop turns (pprev b) (GetBlockTime b :: a)
  | _, _ => Some a
  end.
Definition GetMedianTimePast (pindex : pointer) : option Z :=
  let* a := median_loop nMedianTimeSpan pindex [] in
  let a := merge_sort Z.le a in
  a !! (length a / 2)%nat.

(** [turns] is [nToCheck - i]; [nFound] after the loop. *)
Fixpoint majority_loop (turns : nat) (minVersion nRequired : Z) (pstart : pointer) (nFound : Z) : option Z :=
  match turns with
  | O => Some nFound
  | S turns =>
      if nFound <? nRequired then
        match pstart with
        | None => Some nFound
        | Some _ =>
            let* b := deref pstart in
            majority_loop turns minVersion nRequired (pprev b)
              (if minVersion <=? i_nVersion b then nFound + 1 else nFound)
        end
      else Some nFound
  end.
Definition IsSuperMajority (minVersion : Z) (pstart : pointer) (nRequired nToCheck : Z) : option bool :=
  let* nFound := majority_loop (Z.to_nat nToCheck) minVersion nRequired pstart 0 in
  Some (nRequired <=? nFound).
End Walks.
