(* ===== verification/ChainProof.v ===== *)
(** * The ancestors of a block

    [path h p l] says that [l] lists the objects from the pointer [p] back to the
    block without a predecessor; a heap is well-formed when every object has such
    a list, of the length its height announces.  The walks of [Chain]
    are functions of that list. *)

From stdpp Require Import gmap list sorting.
From Stdlib Require Import ZArith Lia.
From S2P Require Import Prelude SphTypes Uint256 Transaction Chain.
Local Open Scope Z_scope.

Inductive path (h : heap) : pointer -> list (positive * CBlockIndex) -> Prop :=
| path_null : path h None []
| path_block a b l : h !! a = Some b -> path h (pprev b) l -> path h (Some a) ((a, b) :: l).

#[export] Hint Constructors path : core.

(** Every object has its ancestors, and its height is their number. *)
Definition heap_ok (h : heap) : Prop :=
  forall a b, h !! a = Some b -> exists l, path h (pprev b) l /\ nHeight b = Z.of_nat (length l).

(** A pointer that is null or to an object. *)
Definition valid (h : heap) (p : pointer) : Prop := forall a, p = Some a -> is_Some (h !! a).

Definition head_pointer (l : list (positive * CBlockIndex)) : pointer :=
  match l with [] => None | (a, _) :: _ => Some a end.

Section Paths.
  Variable h : heap.

Lemma path_det p l1 l2 : path h p l1 -> path h p l2 -> l1 = l2.
Proof.
  intros H. revert l2. induction H as [|a b l Hb H IH]; intros l2 H2; inversion H2; subst; [reflexivity|].
  simplify_eq. f_equal. now apply IH.
Qed.

Lemma path_head p l : path h p l -> p = head_pointer l.
Proof. now intros []. Qed.

Lemma path_drop p l1 l2 : path h p (l1 ++ l2) -> path h (head_pointer l2) l2.
Proof.
  revert p. induction l1 as [|x l1 IH]; intros p H; cbn [app] in H; [now rewrite <- (path_head _ _ H)|].
  inversion H; subst. eauto.
Qed.

Lemma path_lookup p l a b : path h p l -> In (a, b) l -> h !! a = Some b.
Proof. induction 1 as [|a' b' l Hb H IH]; [easy|]. intros [E|I]; [now simplify_eq|auto]. Qed.

Lemma path_suffix p l a b : path h p l -> In (a, b) l -> exists l1 l2, l = l1 ++ (a, b) :: l2 /\ path h (pprev b) l2.
Proof.
  intros H I. apply in_split in I as (l1 & l2 & ->). exists l1, l2. split; [reflexivity|].
  pose proof (path_drop p l1 _ H) as D. now inversion D.
Qed.

Hypothesis ok : heap_ok h.

Lemma path_exists p : valid h p -> exists l, path h p l.
Proof.
  intros V. destruct p as [a|]; [|eauto]. destruct (V a eq_refl) as [b Hb].
  destruct (ok a b Hb) as (l & Hl & _). eauto.
Qed.

Lemma path_height p a b l : path h p ((a, b) :: l) -> nHeight b = Z.of_nat (length l).
Proof.
  intros H. inversion H; subst. destruct (ok a b ltac:(assumption)) as (l' & Hl' & ->).
  f_equal. f_equal. eapply path_det; eassumption.
Qed.

Lemma path_valid p l : path h p l -> valid h p.
Proof. intros H a ->. inversion H; subst. eauto. Qed.

(** The heights decrease, so no block is its own ancestor. *)
Lemma path_nodup p l : path h p l -> NoDup (map fst l).
Proof.
  induction 1 as [|a b l Hb H IH]; cbn [map]; [constructor|]. constructor; [|exact IH].
  rewrite list_elem_of_In. intros I. apply in_map_iff in I as ([a' b'] & E & I). cbn [fst] in E. subst a'.
  pose proof (path_lookup _ _ _ _ H I) as Hb'. simplify_eq.
  destruct (path_suffix _ _ _ _ H I) as (l1 & l2 & -> & P2).
  pose proof (path_det _ _ _ H P2) as E. apply (f_equal (@length _)) in E. rewrite length_app in E. cbn in E. lia.
Qed.

Lemma walk_fuel_ok p l : path h p l -> (length l < walk_fuel h p)%nat.
Proof.
  intros H. unfold walk_fuel, deref. destruct H as [|a b l Hb H]; cbn; [lia|]. rewrite Hb.
  rewrite (path_height (Some a) a b l) by eauto. lia.
Qed.

(** ** What the walks compute *)

(** The first block that satisfies [P], or the last one of the list: the list from there. *)
Fixpoint last_where (P : CBlockIndex -> bool) (l : list (positive * CBlockIndex)) : list (positive * CBlockIndex) :=
  match l with
  | (a, b) :: (_ :: _) as rest => if P b then l else last_where P rest
  | _ => l
  end.

Lemma last_where_suffix P l : exists l1, l = l1 ++ last_where P l.
Proof.
  induction l as [|[a b] [|y l] [l1 IH]]; [now exists []..|].
  cbn [last_where]. destruct (P b); [now exists []|]. exists ((a, b) :: l1). exact (f_equal (cons (a, b)) IH).
Qed.

Lemma last_where_nonempty P l : l <> [] -> last_where P l <> [].
Proof.
  induction l as [|[a b] [|y l] IH]; [easy..|]. intros _. cbn [last_where].
  destruct (P b); [easy|]. now apply IH.
Qed.

(** It satisfies [P], or is without a predecessor, and the blocks skipped do not. *)
Lemma last_where_spec P l a b r :
  last_where P l = (a, b) :: r ->
  (P b = true \/ r = []) /\ exists l1, l = l1 ++ (a, b) :: r /\ Forall (fun x => P x.2 = false) l1.
Proof.
  revert a b r. induction l as [|[a' b'] [|y l] IH]; intros a b r E; [easy| |].
  - cbn in E. injection E as -> -> ->. split; [now right|]. exists []. split; [reflexivity|constructor].
  - cbn [last_where] in E. destruct (P b') eqn:K.
    + injection E as -> -> ->. split; [now left|]. exists []. split; [reflexivity|constructor].
    + destruct (IH a b r E) as [C (l1 & E1 & F)]. split; [exact C|]. exists ((a', b') :: l1).
      split; [exact (f_equal (cons (a', b')) E1)|]. now constructor.
Qed.

Lemma last_where_path P p l : path h p l -> path h (head_pointer (last_where P l)) (last_where P l).
Proof. intros H. destruct (last_where_suffix P l) as [l1 E]. rewrite E in H. eapply path_drop, H. Qed.

(** The first block of a kind. *)
Definition last_of_kind (fProofOfStake : bool) : list (positive * CBlockIndex) -> list (positive * CBlockIndex) :=
  last_where (fun b => eqb (IsProofOfStake b) fProofOfStake).

Lemma last_block_loop_ok f fuel p l :
  path h p l -> (length l < fuel)%nat ->
  last_block_loop h fuel f p = Some (head_pointer (last_of_kind f l)).
Proof.
  intros H. revert fuel. induction H as [|a b l Hb H IH]; intros [|fuel] F; try (cbn in F; lia); [reflexivity|].
  cbn [last_block_loop deref]. cbn. rewrite Hb. destruct H as [|a' b' l Hb' H]; [reflexivity|].
  unfold last_of_kind in *. cbn [last_where]. destruct (eqb _ _); cbn [negb]; [reflexivity|]. apply IH. cbn in F |- *. lia.
Qed.

Lemma GetLastBlockIndex_ok f p l :
  path h p l ->
  GetLastBlockIndex h p f = Some (head_pointer (last_of_kind f l)) /\
  path h (head_pointer (last_of_kind f l)) (last_of_kind f l).
Proof.
  intros H. split; [now apply last_block_loop_ok, walk_fuel_ok|]. eapply last_where_path, H.
Qed.

Lemma median_loop_ok n p l a :
  path h p l -> median_loop h n p a = Some (rev (map (fun x => GetBlockTime x.2) (firstn n l)) ++ a).
Proof.
  intros H. revert n a. induction H as [|x b l Hb H IH]; intros [|n] a; [reflexivity..|].
  cbn [median_loop deref]. cbn. rewrite Hb, IH. now rewrite <- app_assoc.
Qed.

Lemma majority_loop_ok n v req p l k :
  path h p l ->
  exists found, majority_loop h n v req p k = Some found /\
    (req <= found <-> req <= k + Z.of_nat (length (List.filter (fun x => v <=? i_nVersion x.2) (firstn n l)))).
Proof.
  intros H. revert n k. induction H as [|x b l Hb H IH]; intros [|n] k; cbn [majority_loop firstn List.filter].
  1-3: try destruct (k <? req); eexists; (split; [reflexivity|cbn; lia]).
  destruct (Z.ltb_spec k req); [|eexists; split; [reflexivity|lia]].
  cbn [deref]. cbn. rewrite Hb. destruct (IH n (if v <=? i_nVersion b then k + 1 else k)) as (found & -> & E).
  exists found. split; [reflexivity|]. rewrite E. destruct (v <=? i_nVersion b); cbn [length]; lia.
Qed.
End Paths.

#[export] Hint Resolve path_valid walk_fuel_ok : core.

(** ** A new object *)

Lemma path_extend h h' p l : h ⊆ h' -> path h p l -> path h' p l.
Proof.
  intros S. induction 1 as [|a b l Hb H IH]; [constructor|]. constructor; [|exact IH].
  now apply (lookup_weaken h h').
Qed.

Lemma heap_ok_empty : heap_ok ∅.
Proof. intros a b H. exfalso. exact (lookup_empty_Some a b H). Qed.

Lemma heap_ok_insert h a b l :
  heap_ok h -> h !! a = None -> path h (pprev b) l -> nHeight b = Z.of_nat (length l) -> heap_ok (<[a := b]> h).
Proof.
  intros O N P H a' b' L. assert (S : h ⊆ <[a := b]> h) by now apply insert_subseteq.
  apply lookup_insert_Some in L as [[<- <-]|[_ L]].
  - exists l. split; [now apply (path_extend h)|exact H].
  - destruct (O a' b' L) as (l' & P' & H'). exists l'. split; [now apply (path_extend h)|exact H'].
Qed.

(** ** The main chain *)

(** [forward h p l]: [l] lists the objects from [p] on along [pnext]. *)
Inductive forward (h : heap) : pointer -> list (positive * CBlockIndex) -> Prop :=
| forward_end : forward h None []
| forward_block a b l : h !! a = Some b -> forward h (pnext b) l -> forward h (Some a) ((a, b) :: l).
#[export] Hint Constructors forward : core.

(** [pnext] points to a block that points back. *)
Definition links_ok (h : heap) : Prop :=
  forall a b q, h !! a = Some b -> pnext b = Some q -> exists b', h !! q = Some b' /\ pprev b' = Some a.

Lemma height_bound h a b : heap_ok h -> h !! a = Some b -> 0 <= nHeight b < Z.of_nat (size h).
Proof.
  intros O Hb. destruct (O a b Hb) as (l & P & ->). assert (P' : path h (Some a) ((a, b) :: l)) by eauto.
  pose proof (path_nodup h _ _ P') as N. split; [lia|].
  enough (length ((a, b) :: l) <= size h)%nat by (cbn in *; lia).
  pose proof (size_dom (D := gset positive) h) as D. change (size (dom h : gset positive) = size h) in D. rewrite <- D.
  rewrite <- (length_map fst), <- (size_list_to_set (C := gset positive)) by exact N.
  apply subseteq_size. intros c I. apply elem_of_list_to_set, list_elem_of_In, in_map_iff in I as ([c' b'] & <- & I).
  apply elem_of_dom. eexists. eapply path_lookup; eassumption.
Qed.

Lemma next_height h a b q b' : heap_ok h -> links_ok h -> h !! a = Some b -> pnext b = Some q -> h !! q = Some b' ->
  nHeight b' = nHeight b + 1.
Proof.
  intros O L Hb Hq Hb'. destruct (L a b q Hb Hq) as (b'' & E & B). rewrite Hb' in E. injection E as <-.
  destruct (O q b' Hb') as (l & P & ->). rewrite B in P. inversion P; subst. simplify_eq.
  rewrite (path_height h O (Some a) a b l0) by eauto. cbn [length]. lia.
Qed.

Lemma forward_exists h p : heap_ok h -> links_ok h -> valid h p -> exists l, forward h p l.
Proof.
  intros O L V. destruct p as [a|]; [|eauto]. destruct (V a eq_refl) as [b Hb].
  remember (Z.to_nat (Z.of_nat (size h) - nHeight b)) as k eqn:K.
  revert a b V Hb K. induction k as [k IH] using lt_wf_ind. intros a b V Hb K.
  destruct (pnext b) as [q|] eqn:Q; [|exists [(a, b)]; constructor; [exact Hb|rewrite Q; constructor]].
  destruct (L a b q Hb Q) as (b' & Hb' & _). pose proof (next_height h a b q b' O L Hb Q Hb') as H.
  pose proof (height_bound h q b' O Hb') as B.
  destruct (IH (Z.to_nat (Z.of_nat (size h) - nHeight b')) ltac:(lia) q b') as [l F]; [intros ? [= <-]; eauto|exact Hb'|reflexivity|].
  exists ((a, b) :: l). constructor; [exact Hb|now rewrite Q].
Qed.

(** ** The walks of main.h do what their names say *)

(** From any block of a well-formed index, with [l] its ancestors: [GetLastBlockIndex] ends at the
    first of the kind (or at the first block of all); [GetMedianTimePast] is the middle of the sorted
    times of the last eleven; [IsSuperMajority] holds exactly when enough of the last
    [nToCheck] blocks have the version. *)
Theorem walks_to_ancestors (h : heap) (a : positive) (f : bool) (minVersion nRequired nToCheck : Z) :
  heap_ok h -> is_Some (h !! a) ->
  exists l, path h (Some a) l /\
  (exists c b skipped rest, GetLastBlockIndex h (Some a) f = Some (Some c) /\ l = skipped ++ (c, b) :: rest /\
     Forall (fun x => IsProofOfStake x.2 <> f) skipped /\ (IsProofOfStake b = f \/ rest = [])) /\
  (exists m sorted, GetMedianTimePast h (Some a) = Some m /\ Sorted Z.le sorted /\
     sorted ≡ₚ map (fun x => GetBlockTime x.2) (firstn 11 l) /\ sorted !! (length sorted / 2)%nat = Some m) /\
  (exists r, IsSuperMajority h minVersion (Some a) nRequired nToCheck = Some r /\
     (r = true <-> nRequired <= Z.of_nat (length (List.filter (fun x => minVersion <=? i_nVersion x.2) (firstn (Z.to_nat nToCheck) l))))).
Proof.
  intros Hh Ha. destruct (path_exists h Hh (Some a)) as [l P]; [intros ? [= <-]; exact Ha|].
  assert (N : l <> []) by now inversion P. exists l. split; [exact P|]. splits.
  - destruct (GetLastBlockIndex_ok h Hh f _ _ P) as [E _]. pose proof (last_where_nonempty (fun b => eqb (IsProofOfStake b) f) l N) as N'. fold (last_of_kind f l) in N'.
    destruct (last_of_kind f l) as [|[c b] rest] eqn:K; [easy|].
    destruct (last_where_spec _ l c b rest K) as [C (skipped & L & F)].
    exists c, b, skipped, rest. rewrite E. splits; [reflexivity|exact L| |].
    + eapply Forall_impl; [exact F|]. cbn. intros x D K'. now rewrite K', eqb_reflx in D.
    + destruct C as [C|C]; [left; now apply eqb_prop|now right].
  - unfold GetMedianTimePast, nMedianTimeSpan. rewrite (median_loop_ok h 11 _ l []) by exact P. rewrite app_nil_r.
    set (times := rev _). set (s := merge_sort Z.le times).
    assert (Pm : s ≡ₚ map (fun x => GetBlockTime x.2) (firstn 11 l)).
    { unfold s. rewrite merge_sort_Permutation. unfold times. symmetry. apply Permutation_rev. }
    assert (L : (length s / 2 < length s)%nat).
    { apply Nat.div_lt; [|lia]. rewrite Pm, length_map, length_firstn. destruct l; [easy|cbn; lia]. }
    destruct (lookup_lt_is_Some_2 s _ L) as [m M]. exists m, s. rewrite M. splits; try reflexivity; try exact Pm.
    apply Sorted_merge_sort. intros x y. lia.
  - unfold IsSuperMajority. destruct (majority_loop_ok h (Z.to_nat nToCheck) minVersion nRequired _ l 0 P) as (k & -> & K).
    exists (nRequired <=? k). split; [reflexivity|]. rewrite Z.leb_le. exact K.
Qed.

(** ** Examples *)

Module Examples.
Definition p : platform := Platform SPH_LITTLE_ENDIAN true true.

Definition block (height time flags : Z) (prev : pointer) : CBlockIndex :=
  BlockIndex [] prev None 0 0 [] height 0 0 flags 0 0 COutPoint_null 0 [] 1 [] time 0x1c0fffff 0.
Definition b1 := block 0 1000 0 None.
Definition b2 := block 1 1030 0 (Some 1%positive).
Definition b3 := block 2 1050 BLOCK_PROOF_OF_STAKE (Some 2%positive).
Definition b4 := block 3 1100 0 (Some 3%positive).
Definition b5 := block 4 1160 0 (Some 4%positive).
Definition chain : heap := <[5%positive := b5]> (<[4%positive := b4]> (<[3%positive := b3]> (<[2%positive := b2]> (<[1%positive := b1]> ∅)))).

Lemma chain_ok : heap_ok chain.
Proof.
  unfold chain.
  eapply heap_ok_insert; [|reflexivity|repeat (eapply path_block; [reflexivity|cbn [pprev b5 b4 b3 b2 b1 block]]); apply path_null|reflexivity].
  eapply heap_ok_insert; [|reflexivity|repeat (eapply path_block; [reflexivity|cbn [pprev b5 b4 b3 b2 b1 block]]); apply path_null|reflexivity].
  eapply heap_ok_insert; [|reflexivity|repeat (eapply path_block; [reflexivity|cbn [pprev b5 b4 b3 b2 b1 block]]); apply path_null|reflexivity].
  eapply heap_ok_insert; [|reflexivity|repeat (eapply path_block; [reflexivity|cbn [pprev b5 b4 b3 b2 b1 block]]); apply path_null|reflexivity].
  eapply heap_ok_insert; [|reflexivity|apply path_null|reflexivity]. apply heap_ok_empty.
Qed.
End Examples.

Lemma walks_to_ancestors_witness :
  let h := Examples.chain in let a := 5%positive in
  exists l, path h (Some a) l /\
  (exists c b skipped rest, GetLastBlockIndex h (Some a) true = Some (Some c) /\ l = skipped ++ (c, b) :: rest /\
     Forall (fun x => IsProofOfStake x.2 <> true) skipped /\ (IsProofOfStake b = true \/ rest = [])) /\
  (exists m sorted, GetMedianTimePast h (Some a) = Some m /\ Sorted Z.le sorted /\
     sorted ≡ₚ map (fun x => GetBlockTime x.2) (firstn 11 l) /\ sorted !! (length sorted / 2)%nat = Some m) /\
  (exists r, IsSuperMajority h 1 (Some a) 3 4 = Some r /\
     (r = true <-> 3 <= Z.of_nat (length (List.filter (fun x => 1 <=? i_nVersion x.2) (firstn (Z.to_nat 4) l))))).
Proof. apply (walks_to_ancestors Examples.chain 5 true 1 3 4); [apply Examples.chain_ok|now eexists]. Defined.

Example median_value : GetMedianTimePast Examples.chain (Some 5%positive) = Some 1050.
Proof. reflexivity. Qed.
