(* ===== verification/Consensus.v ===== *)
(** * main.cpp: targets, proof of work, trust and rewards

    The functions that say how hard the next block is, what a block is worth
    and what it pays.  Big numbers are those of [BigNum]; an
    exception of the class or a pointer that cannot be dereferenced gives
    [None]. *)

From stdpp Require Import gmap list.
From Stdlib Require Import ZArith Lia.
From S2P Require Import Prelude SphTypes Uint256 Transaction BigNum Chain.
Local Open Scope Z_scope.

Definition nTargetSpacing : Z := 30.
Definition nTargetTimespan : Z := 60.
Definition nStakeMinAge : Z := 8 * 60 * 60.
(** [unsigned int nStakeMaxAge = -1] *)
Definition nStakeMaxAge : Z := trunc 32 (-1).

(** ** Targets *)

Section Targets.
  Context {BIGNUM : Type} {ops : BN_ops BIGNUM}.
  Variable p : platform.
  Variable fTestNet : bool.

(** [~uint256(0) >> n] *)
Definition limit_of (n : Z) : BIGNUM := setuint256 p (Uint256.op_shr 8 (op_complement 8 (zeros 8)) n).
Definition bnProofOfWorkLimitTestNet : BIGNUM := limit_of 16.
(** The initial value, or the one that [LoadBlockIndex] assigns on the test network. *)
Definition bnProofOfWorkLimit : BIGNUM := if fTestNet then bnProofOfWorkLimitTestNet else limit_of 20.
Definition bnProofOfStakeLimit : BIGNUM := limit_of 20.

(** [while (nTime > 0 && bnResult < bnTargetLimit)]; a day is taken off [nTime] in each turn. *)
Fixpoint max_bits_loop (fuel : nat) (bnTargetLimit bnResult : BIGNUM) (nTime : Z) : option BIGNUM :=
  match fuel with
  | O => None
  | S fuel =>
      if (0 <? nTime) && op_lt bnResult bnTargetLimit then
        let* bnResult := BN_mul bnResult (of_long 2) in
        max_bits_loop fuel bnTargetLimit bnResult (nTime - 24 * 60 * 60)
      else Some bnResult
  end.
Definition ComputeMaxBits (bnTargetLimit : BIGNUM) (nBase nTime : Z) : option Z :=
  let bnResult := SetCompact nBase in
  let* bnResult := BN_mul bnResult (of_long 2) in
  let* bnResult := max_bits_loop (S (Z.to_nat (nTime / (24 * 60 * 60) + 1))) bnTargetLimit bnResult nTime in
  let bnResult := if op_gt bnResult bnTargetLimit then bnTargetLimit else bnResult in
  Some (GetCompact bnResult).
Definition ComputeMinWork (nBase nTime : Z) : option Z := ComputeMaxBits bnProofOfWorkLimit nBase nTime.
Definition ComputeMinStake (nBase nTime nBlockTime : Z) : option Z := ComputeMaxBits bnProofOfStakeLimit nBase nTime.

Definition GetNextTargetRequired (h : heap) (pindexLast : pointer) (fProofOfStake : bool) : option Z :=
  let bnTargetLimit := if fProofOfStake then bnProofOfStakeLimit else bnProofOfWorkLimit in
  match pindexLast with
  | None => Some (GetCompact bnTargetLimit)
  | Some _ =>
      let* pindexPrev := GetLastBlockIndex h pindexLast fProofOfStake in
      let* bPrev := deref h pindexPrev in
      match pprev bPrev with
      | None => Some (GetCompact bnTargetLimit)
      | Some _ =>
          let* pindexPrevPrev := GetLastBlockIndex h (pprev bPrev) fProofOfStake in
          let* bPrevPrev := deref h pindexPrevPrev in
          match pprev bPrevPrev with
          | None => Some (GetCompact bnTargetLimit)
          | Some _ =>
              let nActualSpacing := GetBlockTime bPrev - GetBlockTime bPrevPrev in
              let nActualSpacing := if nActualSpacing <? 0 then nTargetSpacing else nActualSpacing in
              let bnNew := SetCompact (i_nBits bPrev) in
              let nInterval := Z.quot nTargetTimespan nTargetSpacing in
              let* bnNew := BN_mul bnNew (of_long ((nInterval - 1) * nTargetSpacing + nActualSpacing + nActualSpacing)) in
              let* bnNew := op_div bnNew (of_long ((nInterval + 1) * nTargetSpacing)) in
              let bnNew := if op_le bnNew (of_long 0) || op_gt bnNew bnTargetLimit then bnTargetLimit else bnNew in
              Some (GetCompact bnNew)
          end
      end
  end.

(** [error] prints and returns false. *)
Definition CheckProofOfWork (hash : list Z) (nBits : Z) : bool :=
  let bnTarget := SetCompact nBits in
  if op_le bnTarget (of_long 0) || op_gt bnTarget bnProofOfWorkLimit then false
  else if op_greater 8 hash (getuint256 p bnTarget) then false
  else true.

(** [CBlockIndex::GetBlockTrust] *)
Definition GetBlockTrust (b : CBlockIndex) : option (list Z) :=
  let bnTarget := SetCompact (i_nBits b) in
  if op_le bnTarget (of_long 0) then Some (zeros 8)
  else
    let* one := op_shl (of_long 1) 256 in
    let* next := op_plus bnTarget (of_long 1) in
    let* q := op_div one next in
    Some (getuint256 p q).

(** ** Coin age *)

(** What [CTransaction::GetCoinAge] reads of an input from the disk: the previous transaction and
    the header of its block, if there is one. *)
Variable read_prev : COutPoint -> option (CTransaction * option CBlock).

(** [None]: the function returns false.  The timestamps are [unsigned int]. *)
Fixpoint coin_age_loop (time : Z) (vin : list CTxIn) (bnCentSecond : BIGNUM) : option (option BIGNUM) :=
  match vin with
  | [] => Some (Some bnCentSecond)
  | txin :: vin =>
      match read_prev (prevout txin) with
      | None => coin_age_loop time vin bnCentSecond
      | Some (txPrev, block) =>
          if time <? nTime txPrev then Some None
          else
            match block with
            | None => Some None
            | Some block =>
                if time <? b_nTime block + nStakeMinAge then coin_age_loop time vin bnCentSecond
                else
                  let* out := vout txPrev !! Z.to_nat (n (prevout txin)) in
                  let nValueIn := nValue out in
                  let* product := op_times (of_long nValueIn) (of_ulong (trunc 32 (time - nTime txPrev))) in
                  let* cents := op_div product (of_long CENT) in
                  let* bnCentSecond := BN_add bnCentSecond cents in
                  coin_age_loop time vin bnCentSecond
            end
      end
  end.
Definition GetCoinAge (tx : CTransaction) : option (option Z) :=
  if IsCoinBase tx then Some (Some 0)
  else
    let* r := coin_age_loop (nTime tx) (vin tx) (of_long 0) in
    match r with
    | None => Some None
    | Some bnCentSecond =>
        let* x := op_times bnCentSecond (of_long CENT) in
        let* x := op_div x (of_long COIN) in
        let* bnCoinDay := op_div x (of_long (24 * 60 * 60)) in
        Some (Some (getuint64 p bnCoinDay))
    end.
End Targets.

(** ** Rewards *)

Definition ZERO_POW_BLOCK : Z := 3000000.
Definition FAIR_LAUNCH_BLOCK : Z := 210.
Definition MAINNET_POSFIX : Z := 640000.
(** [0.06 * COIN], a [double] whose nearest value is the integer. *)
Definition COIN_YEAR_REWARD : Z := 6000000.
Definition YEARLY_BLOCKCOUNT : Z := 1051896.

(** [best] is [pindexBest->nHeight]; the parameter [nHeight] is not read. *)
Definition pow_subsidy (fTestNet : bool) (best : Z) : Z :=
  let nSubsidy := 1 * COIN in
  if fTestNet then
    if best =? 1 then 3000000 * COIN
    else if best <=? FAIR_LAUNCH_BLOCK then 1 * COIN / 2
    else if best <=? 4000 then 3 * COIN
    else if 4000 <? best then 0
    else if 30000 <? best then 10000
    else nSubsidy
  else
    if best =? 1 then 1000000 * COIN
    else if best <=? FAIR_LAUNCH_BLOCK then 1 * COIN / 2
    else if best <=? 1000000 then 3 * COIN
    else if best <=? 2000000 then 4 * COIN
    else if best <=? 3000000 then 3 * COIN
    else if (ZERO_POW_BLOCK <? best) && (best <? 4693333) then 0
    else if 4693333 <=? best then 10000
    else nSubsidy.
Definition GetProofOfWorkReward (fTestNet : bool) (best nHeight nFees : Z) : option Z :=
  add_int64 (pow_subsidy fTestNet best) nFees.

(** [over9000] is what the compiler makes of [YEARLY_BLOCKCOUNT*9000], which overflows [int]. *)
Definition mul_int64 (a b : Z) : option Z :=
  let s := a * b in if (- 2 ^ 63 <=? s) && (s <? 2 ^ 63) then Some s else None.
Definition GetProofOfStakeReward (fTestNet : bool) (over9000 best nCoinAge nFees : Z) : option Z :=
  if over9000 <? best then Some nFees
  else
    let nRewardCoinYear := COIN_YEAR_REWARD in
    let* product := mul_int64 nCoinAge nRewardCoinYear in
    let nSubsidy := Z.quot product 365 in
    let* nSubsidy :=
      if (MAINNET_POSFIX <=? best) || fTestNet
      then let* product := mul_int64 nCoinAge nRewardCoinYear in Some (Z.quot product 365)
      else Some nSubsidy in
    add_int64 nSubsidy nFees.
