(* ===== verification/ConsensusProof.v ===== *)
(** * Lemmas on targets, trust and rewards

    The value of each computation of [Consensus] on big numbers. *)

From stdpp Require Import gmap list.
From Stdlib Require Import ZArith Lia.
From S2P Require Import Prelude SphTypes Uint256 Uint256Proof Uint256Hex Transaction BigNum BigNumProof Chain ChainProof Consensus.
Local Open Scope Z_scope.

(** The compact form of a number. *)
Definition compact_of (v : Z) : Z := Z.of_nat (mpi_size v) * 2 ^ 24 + compact_word v.

(** A target below 2^256 has a short form, which keeps it positive. *)
Lemma mpi_size_256 v : 0 <= v < 2 ^ 256 -> (mpi_size v < 256)%nat.
Proof.
  intros H. destruct (Z.eq_dec v 0) as [->|N]; [apply Nat.ltb_lt; reflexivity|].
  unfold mpi_size. rewrite (proj2 (Z.eqb_neq v 0)) by exact N. rewrite Z.abs_eq by lia.
  assert (Z.log2 v < 256) by (apply Z.log2_lt_pow2; lia). pose proof (Z.log2_nonneg v).
  enough ((Z.log2 v + 1) / 8 < 100) by lia. apply Z.div_lt_upper_bound; lia.
Qed.

Lemma compact_of_bounds v :
  0 <= v < 2 ^ 256 ->
  word 32 (compact_of v) /\ 0 <= compact_value (compact_of v) <= v /\ (0 < v -> 0 < compact_value (compact_of v)).
Proof.
  intros H. pose proof (mpi_size_256 v H) as S. unfold compact_of.
  rewrite compact_value_word by exact S. destruct (compact_round v) as (L & P & A & _).
  set (v' := Z.quot v (compact_unit v) * compact_unit v) in *.
  assert (W : 0 <= compact_word v < 2 ^ 24).
  { destruct (Z.eq_dec v 0) as [->|N]; [vm_compute; split; congruence|].
    unfold compact_word. destruct (mpi_word_range v N) as [R _]. unfold word in R. destruct (mpi_size_bounds v N) as (K1 & K2 & K3).
    set (k := Z.of_nat (mpi_size v)) in *. change 256 with (2 ^ 8).
    destruct (Z.leb_spec 3 k).
    - rewrite <- Z.pow_mul_r by lia. split; [apply Z.div_pos; [lia|apply Z.pow_pos_nonneg; lia]|].
      apply Z.div_lt_upper_bound; [apply Z.pow_pos_nonneg; lia|]. rewrite <- Z.pow_add_r by lia.
      replace (8 * (k - 3) + 24) with (8 * k) by lia. lia.
    - rewrite <- Z.pow_mul_r by lia. replace (2 ^ 24) with (2 ^ (8 * k) * 2 ^ (8 * (3 - k))) by
        (rewrite <- Z.pow_add_r by lia; f_equal; lia).
      assert (0 < 2 ^ (8 * (3 - k))) by (apply Z.pow_pos_nonneg; lia).
      split; [apply Z.mul_nonneg_nonneg; lia|apply Z.mul_lt_mono_pos_r; lia]. }
  split; [unfold word; lia|]. split; [|intros; nia]. nia.
Qed.

Section Numbers.
  Context {BIGNUM : Type} {ops : BN_ops BIGNUM} {spec : BN_spec ops}.
  Implicit Types a b : BIGNUM.

Lemma comparisons_bn a b :
  op_lt a b = (bn a <? bn b) /\ op_gt a b = (bn b <? bn a) /\ op_le a b = (bn a <=? bn b).
Proof.
  unfold op_lt, op_gt, op_le. rewrite !cmp_spec. unfold Z.ltb, Z.leb. rewrite (Z.compare_antisym (bn a) (bn b)).
  now destruct (bn a ?= bn b).
Qed.
Lemma op_lt_ok a b : op_lt a b = (bn a <? bn b).
Proof. apply comparisons_bn. Qed.
Lemma op_gt_ok a b : op_gt a b = (bn b <? bn a).
Proof. apply comparisons_bn. Qed.
Lemma op_le_ok a b : op_le a b = (bn a <=? bn b).
Proof. apply comparisons_bn. Qed.

Lemma GetCompact_of b : 0 <= bn b < 2 ^ 256 -> GetCompact b = compact_of (bn b).
Proof. intros H. now apply GetCompact_ok, mpi_size_256. Qed.

Lemma op_div_ok a b : bn b <> 0 -> exists q, op_div a b = Some q /\ bn q = Z.quot (bn a) (bn b).
Proof. intros H. destruct (div_spec a b H) as (q & r & E & Q & _). unfold op_div. rewrite E. eauto. Qed.

  Variable p : platform.
  Hypothesis little : order p <> SPH_BIG_ENDIAN.

Lemma limit_of_ok n : 0 <= n <= 256 -> bn (limit_of p n : BIGNUM) = 2 ^ (256 - n) - 1.
Proof.
  intros H. destruct (zeros_ok 8) as [Z1 Z2]. destruct (op_complement_ok 8 _ Z1) as [C1 C2].
  destruct (op_shr_ok 8 ltac:(lia) _ n C1 ltac:(lia)) as [S1 S2].
  unfold limit_of, Uint256.op_shr. rewrite setuint256_ok by assumption. rewrite S2, C2, Z2, Z.sub_0_r.
  change (32 * Z.of_nat 8) with 256.
  assert (E : 2 ^ 256 = 2 ^ (256 - n) * 2 ^ n) by (rewrite <- Z.pow_add_r by lia; f_equal; lia).
  rewrite E. assert (0 < 2 ^ n) by (apply Z.pow_pos_nonneg; lia).
  symmetry. apply Z.div_unique_pos with (2 ^ n - 1); lia.
Qed.

(** The limit of each network. *)
Definition pow_limit (fTestNet : bool) : Z := if fTestNet then 2 ^ 240 - 1 else 2 ^ 236 - 1.
Definition target_limit (fTestNet fProofOfStake : bool) : Z :=
  if fProofOfStake then pow_limit false else pow_limit fTestNet.

Lemma target_limit_range t s : 0 < target_limit t s < 2 ^ 240.
Proof. destruct t, s; split; reflexivity. Qed.

Lemma limits_ok t :
  bn (bnProofOfWorkLimit p t : BIGNUM) = pow_limit t /\ bn (bnProofOfStakeLimit p : BIGNUM) = pow_limit false.
Proof.
  unfold bnProofOfWorkLimit, bnProofOfWorkLimitTestNet, bnProofOfStakeLimit, pow_limit.
  split; [destruct t|]; rewrite limit_of_ok by lia; reflexivity.
Qed.

Lemma of_long_small n : - 2 ^ 63 <= n < 2 ^ 63 -> bn (of_long n : BIGNUM) = n.
Proof. apply of_long_ok. Qed.
End Numbers.

(** ** The next target *)

(** A timestamp and a target that fit their fields. *)
Definition block_ok (b : CBlockIndex) : Prop := word 32 (i_nTime b) /\ word 32 (i_nBits b).

(** The previous target times (30 + 2 spacing) / 90, within the limit. *)
Definition next_target (limit target spacing : Z) : Z :=
  let spacing := if spacing <? 0 then nTargetSpacing else spacing in
  let v := Z.quot (target * (nTargetSpacing + 2 * spacing)) (3 * nTargetSpacing) in
  if (v <=? 0) || (limit <? v) then limit else v.

Definition next_bits (limit : Z) (f : bool) (l : list (positive * CBlockIndex)) : Z :=
  compact_of
    match last_of_kind f l with
    | (_, b) :: rest =>
        match last_of_kind f rest with
        | (_, b') :: _ :: _ => next_target limit (compact_value (i_nBits b)) (GetBlockTime b - GetBlockTime b')
        | _ => limit
        end
    | [] => limit
    end.

Lemma next_target_range limit t s : 0 < limit -> 0 < next_target limit t s <= limit.
Proof.
  intros H. unfold next_target. set (v := Z.quot _ _). destruct (Z.leb_spec v 0), (Z.ltb_spec limit v); cbn; lia.
Qed.

Section NextTarget.
  Context {BIGNUM : Type} {ops : BN_ops BIGNUM} {spec : BN_spec ops}.
  Variables (p : platform) (fTestNet : bool) (h : heap).
  Hypothesis little : order p <> SPH_BIG_ENDIAN.
  Hypothesis ok : heap_ok h.
  Hypothesis blocks_ok : forall a b, h !! a = Some b -> block_ok b.

Lemma retarget_ok (limit : BIGNUM) t s :
  0 < bn limit < 2 ^ 256 -> word 32 t -> - 2 ^ 32 < s < 2 ^ 32 ->
  (let s := if s <? 0 then nTargetSpacing else s in
   let* bnNew := BN_mul (SetCompact t) (of_long ((Z.quot nTargetTimespan nTargetSpacing - 1) * nTargetSpacing + s + s)) in
   let* bnNew := op_div bnNew (of_long ((Z.quot nTargetTimespan nTargetSpacing + 1) * nTargetSpacing)) in
   Some (GetCompact (if op_le bnNew (of_long 0) || op_gt bnNew limit then limit else bnNew))) =
  Some (compact_of (next_target (bn limit) (compact_value t) s)).
Proof.
  intros L T S. cbv zeta. set (s' := if s <? 0 then nTargetSpacing else s).
  assert (Hs : 0 <= s' < 2 ^ 32) by (unfold s', nTargetSpacing; destruct (Z.ltb_spec s 0); lia).
  change (Z.quot nTargetTimespan nTargetSpacing) with 2. change nTargetSpacing with 30 in *.
  destruct (mul_spec (SetCompact t) (of_long ((2 - 1) * 30 + s' + s'))) as (m & -> & M).
  assert (L90 : bn (of_long ((2 + 1) * 30) : BIGNUM) = 90) by (apply of_long_small; lia).
  destruct (op_div_ok m (of_long ((2 + 1) * 30))) as (q & -> & Q); [lia|].
  rewrite M, SetCompact_ok, of_long_small, L90 in Q by (assumption || lia).
  rewrite op_le_ok, op_gt_ok, of_long_small by lia.
  pose proof (next_target_range (bn limit) (compact_value t) s ltac:(lia)) as R.
  unfold next_target in *. change nTargetSpacing with 30 in *. change (3 * 30) with 90 in *. fold s' in R |- *.
  replace (compact_value t * (30 + 2 * s')) with (compact_value t * ((2 - 1) * 30 + s' + s')) in R |- * by ring.
  rewrite <- Q in R |- *. f_equal.
  destruct ((bn q <=? 0) || (bn limit <? bn q)); apply GetCompact_of; lia.
Qed.

Lemma GetNextTargetRequired_ok last f l :
  path h last l ->
  GetNextTargetRequired p fTestNet h last f = Some (next_bits (target_limit fTestNet f) f l).
Proof.
  intros Hl. unfold GetNextTargetRequired, next_bits.
  set (lim := if f then bnProofOfStakeLimit p else bnProofOfWorkLimit p fTestNet : BIGNUM).
  assert (L : bn lim = target_limit fTestNet f).
  { unfold lim, target_limit. destruct (limits_ok (BIGNUM := BIGNUM) p little fTestNet). now destruct f. }
  pose proof (target_limit_range fTestNet f) as R. rewrite <- L in *.
  assert (G : GetCompact lim = compact_of (bn lim)) by (apply GetCompact_of; lia).
  destruct Hl as [|a b l Hb Hl]; [cbn; now f_equal|].
  assert (Hl0 : path h (Some a) ((a, b) :: l)) by eauto.
  destruct (GetLastBlockIndex_ok h ok f _ _ Hl0) as [E P]. rewrite E.
  pose proof (last_where_nonempty (fun b => eqb (IsProofOfStake b) f) ((a, b) :: l) ltac:(easy)) as N. fold (last_of_kind f ((a, b) :: l)) in N.
  destruct (last_of_kind f ((a, b) :: l)) as [|[a1 b1] r1]; [easy|]. cbn [head_pointer] in *.
  inversion P as [|? ? ? H1 P1]; subst. cbn [deref]. cbn. rewrite H1.
  destruct (pprev b1) as [a2|] eqn:E1; [|inversion P1; subst; cbn; now f_equal].
  destruct (GetLastBlockIndex_ok h ok f _ _ P1) as [E2 P2]. rewrite E2.
  pose proof (last_where_nonempty (fun b => eqb (IsProofOfStake b) f) r1) as N2. assert (r1 <> []) by (now inversion P1). specialize (N2 ltac:(assumption)). fold (last_of_kind f r1) in N2.
  destruct (last_of_kind f r1) as [|[a3 b3] r3]; [easy|]. cbn [head_pointer] in *.
  inversion P2 as [|? ? ? H3 P3]; subst. cbn. rewrite H3.
  destruct (pprev b3) as [a4|] eqn:E3; [|inversion P3; subst; now f_equal].
  destruct (blocks_ok _ _ H1) as [T1 B1]. destruct (blocks_ok _ _ H3) as [T3 _]. unfold GetBlockTime, word in *.
  etransitivity; [apply (retarget_ok lim (i_nBits b1) (i_nTime b1 - i_nTime b3)); unfold word; lia|]. now inversion P3.
Qed.
End NextTarget.

(** ** Proof of work, trust, and the most the target can move *)

(** What a block adds to the trust of its chain. *)
Definition block_trust (bits : Z) : Z :=
  if compact_value bits <=? 0 then 0 else 2 ^ 256 / (compact_value bits + 1).

Lemma block_trust_range bits : 0 <= block_trust bits < 2 ^ 256.
Proof.
  unfold block_trust. destruct (Z.leb_spec (compact_value bits) 0); [lia|].
  split; [apply Z.div_pos; lia|apply Z.div_lt; lia].
Qed.

(** The days begun in [nTime] seconds. *)
Definition days (nTime : Z) : Z := Z.max 0 (- (- nTime / 86400)).

Lemma days_step nTime : 0 < nTime -> days nTime = 1 + days (nTime - 86400).
Proof. intros H. unfold days. Z.div_mod_to_equations. lia. Qed.

(** The coin age of inputs that were spent at [time], in cent-seconds: the spent coins with their
    times and those of their blocks. *)
Definition cent_seconds (time : Z) (l : list (Z * Z * Z)) : Z :=
  foldr (fun '(value, coin_time, block_time) s =>
    (if time <? block_time + nStakeMinAge then 0 else value * (time - coin_time) / CENT) + s) 0 l.

Section Functions.
  Context {BIGNUM : Type} {ops : BN_ops BIGNUM} {spec : BN_spec ops}.
  Variables (p : platform) (fTestNet : bool).
  Hypothesis little : order p <> SPH_BIG_ENDIAN.

Lemma CheckProofOfWork_ok hash nBits :
  words_ok 8 hash -> word 32 nBits ->
  CheckProofOfWork (ops := ops) p fTestNet hash nBits =
  (0 <? compact_value nBits) && (compact_value nBits <=? pow_limit fTestNet) && (val hash <=? compact_value nBits).
Proof.
  intros H B. unfold CheckProofOfWork. rewrite op_le_ok, op_gt_ok, of_long_small, SetCompact_ok by (assumption || lia).
  destruct (limits_ok (BIGNUM := BIGNUM) p little fTestNet) as [-> _].
  set (t := compact_value nBits). pose proof (target_limit_range fTestNet false) as R. cbn in R.
  destruct (Z.leb_spec t 0); cbn [orb]; [now rewrite (proj2 (Z.ltb_ge 0 t)) by lia|].
  rewrite (proj2 (Z.ltb_lt 0 t)) by lia. cbn [andb].
  destruct (Z.ltb_spec (pow_limit fTestNet) t); [now rewrite (proj2 (Z.leb_gt t _)) by lia|].
  rewrite (proj2 (Z.leb_le t _)) by lia. cbn [andb].
  destruct (getuint256_ok p (SetCompact nBits : BIGNUM)) as [G V].
  destruct (comparisons_ok 8 ltac:(lia) hash _ H G) as (_ & _ & -> & _). rewrite V by assumption. rewrite SetCompact_ok by assumption.
  fold t. rewrite Z.abs_eq, Z.mod_small by lia.
  destruct (Z.ltb_spec t (val hash)); [now rewrite (proj2 (Z.leb_gt _ _)) by lia|now rewrite (proj2 (Z.leb_le _ _)) by lia].
Qed.

Lemma GetBlockTrust_ok b :
  word 32 (i_nBits b) ->
  exists w, GetBlockTrust (ops := ops) p b = Some w /\ words_ok 8 w /\ val w = block_trust (i_nBits b).
Proof.
  intros B. unfold GetBlockTrust. rewrite op_le_ok, of_long_small, SetCompact_ok by (assumption || lia).
  pose proof (block_trust_range (i_nBits b)) as R. unfold block_trust in *. set (t := compact_value (i_nBits b)) in *.
  destruct (Z.leb_spec t 0); [exists (zeros 8); split; [reflexivity|apply zeros_ok]|].
  unfold op_shl, op_plus. destruct (lshift_spec (of_long 1) 256 ltac:(lia)) as (x & -> & X).
  destruct (add_spec (SetCompact (i_nBits b)) (of_long 1)) as (y & -> & Y).
  rewrite of_long_small in X, Y by lia. rewrite SetCompact_ok in Y by assumption. fold t in Y.
  destruct (op_div_ok x y) as (q & -> & Q); [lia|].
  destruct (getuint256_ok p q) as [G V]. eexists. split; [reflexivity|]. split; [exact G|].
  rewrite V by assumption. rewrite Q, X, Y, Z.mul_1_l, Z.quot_div_nonneg by lia. rewrite Z.abs_eq by lia. now apply Z.mod_small.
Qed.

Lemma max_bits_loop_ok (limit r : BIGNUM) nTime fuel :
  0 <= bn r -> days nTime < Z.of_nat fuel ->
  exists r', max_bits_loop fuel limit r nTime = Some r' /\
    Z.min (bn limit) (bn r') = Z.min (bn limit) (bn r * 2 ^ days nTime) /\ 0 <= bn r'.
Proof.
  revert r nTime. induction fuel as [|fuel IH]; intros r nTime Hr F; [unfold days in F; lia|].
  cbn [max_bits_loop]. rewrite op_lt_ok. change (24 * 60 * 60) with 86400.
  assert (D : 0 <= days nTime) by (unfold days; lia). assert (P : 1 <= 2 ^ days nTime) by (apply Z.lt_pred_le, Z.pow_pos_nonneg; lia).
  destruct (Z.ltb_spec 0 nTime) as [T|T]; cbn [andb].
  - destruct (Z.ltb_spec (bn r) (bn limit)) as [L|L].
    + destruct (mul_spec r (of_long 2)) as (m & -> & M). rewrite of_long_small in M by lia.
      rewrite days_step in * by exact T. destruct (IH m (nTime - 86400)) as (r' & E & V & N); [lia..|].
      exists r'. split; [exact E|]. split; [|exact N]. rewrite V, M. f_equal.
      rewrite Z.pow_add_r by (unfold days; lia). change (2 ^ 1) with 2. ring.
    + exists r. split; [reflexivity|]. split; [|exact Hr]. rewrite !Z.min_l by nia. reflexivity.
  - exists r. split; [reflexivity|]. split; [|exact Hr].
    replace (days nTime) with 0; [now rewrite Z.mul_1_r|]. unfold days. Z.div_mod_to_equations. lia.
Qed.

Lemma ComputeMaxBits_ok (limit : BIGNUM) nBase nTime :
  0 < bn limit < 2 ^ 256 -> word 32 nBase -> 0 <= compact_value nBase ->
  ComputeMaxBits limit nBase nTime =
    Some (compact_of (Z.min (bn limit) (compact_value nBase * 2 ^ (1 + days nTime)))).
Proof.
  intros L B N. unfold ComputeMaxBits.
  destruct (mul_spec (SetCompact nBase) (of_long 2)) as (m & -> & M). rewrite of_long_small, SetCompact_ok in M by (assumption || lia).
  destruct (max_bits_loop_ok limit m nTime (S (Z.to_nat (nTime / 86400 + 1)))) as (r & E & V & P); [lia| |].
  { unfold days. Z.div_mod_to_equations. lia. }
  change (24 * 60 * 60) with 86400. rewrite E, op_gt_ok. f_equal.
  rewrite M in V. rewrite Z.pow_add_r by (unfold days; lia). change (2 ^ 1) with 2. rewrite Z.mul_assoc, <- V.
  destruct (Z.ltb_spec (bn limit) (bn r)); rewrite GetCompact_of by lia; [now rewrite Z.min_l by lia|now rewrite Z.min_r by lia].
Qed.

  Variable read_prev : COutPoint -> option (CTransaction * option CBlock).

(** The inputs found on the disk, all with their blocks, not younger than the spending. *)
Definition coin_of (time : Z) (txin : CTxIn) (c : Z * Z * Z) : Prop :=
  exists txPrev block out,
    read_prev (prevout txin) = Some (txPrev, Some block) /\ vout txPrev !! Z.to_nat (n (prevout txin)) = Some out /\
    c = (nValue out, nTime txPrev, b_nTime block) /\ 0 <= nValue out < 2 ^ 63 /\ 0 <= nTime txPrev <= time.

Lemma coin_age_loop_ok time vin l (acc : BIGNUM) :
  word 32 time -> Forall2 (coin_of time) vin l ->
  exists r, coin_age_loop read_prev time vin acc = Some (Some r) /\ bn r = bn acc + cent_seconds time l.
Proof.
  intros T F. revert acc. induction F as [|txin c vin l (tx & block & out & E & O & -> & V & C) F IH]; intros acc.
  { exists acc. split; [reflexivity|cbn; lia]. }
  cbn [coin_age_loop cent_seconds foldr]. rewrite E. rewrite (proj2 (Z.ltb_ge _ _)) by lia.
  destruct (time <? b_nTime block + nStakeMinAge).
  { destruct (IH acc) as (r & -> & R). exists r. split; [reflexivity|]. now rewrite R. }
  rewrite O. unfold op_times, of_ulong. unfold word in T.
  destruct (mul_spec (of_long (nValue out)) (BN_set_word (trunc 32 (time - nTime tx)))) as (m & -> & M).
  rewrite trunc_id in M by (unfold word; lia).
  rewrite set_word_spec, of_long_small in M by (unfold word; lia).
  destruct (op_div_ok m (of_long CENT)) as (q & -> & Q); [rewrite of_long_small; unfold CENT; lia|].
  rewrite of_long_small in Q by (unfold CENT; lia). destruct (add_spec acc q) as (a & -> & A).
  destruct (IH a) as (r & -> & R). exists r. split; [reflexivity|]. rewrite R, A, Q, M.
  rewrite Z.quot_div_nonneg by (unfold CENT; nia). unfold cent_seconds. ring.
Qed.
End Functions.

(** ** Coin age as a number *)

Lemma le_load_base_val n b : bytes b -> length b = n -> le_load n b = base_val 256 b.
Proof.
  intros B L. rewrite <- (le_store_load n b B L) at 2. symmetry. now apply base_val_store, le_load_word.
Qed.

Lemma getuint64_ok {BIGNUM : Type} {ops : BN_ops BIGNUM} {spec : BN_spec ops} (p : platform) (b : BIGNUM) :
  order p <> SPH_BIG_ENDIAN -> getuint64 p b = Z.abs (bn b) mod 2 ^ 64.
Proof.
  intros Hp. unfold getuint64. rewrite mpi_length, (proj2 (Nat.ltb_ge _ _)) by lia.
  destruct (get_bytes_ok 8 b) as (L & B & V). unfold native_load.
  destruct (order p); [|easy|]; rewrite le_load_base_val by assumption; exact V.
Qed.

(** ** The schedule of the proof-of-work rewards *)

(** What the blocks found on best heights 0 to [n] - 1 create. *)
Fixpoint issued (n : nat) : Z :=
  match n with O => 0 | S n => issued n + pow_subsidy false (Z.of_nat n) end.

Definition clamp (v limit : Z) : Z := Z.max 0 (Z.min v limit).
Definition issued_formula (n : Z) : Z :=
  (if 2 <=? n then (1000000 * COIN - COIN / 2) else 0) + COIN / 2 * clamp n 211 +
  3 * COIN * clamp (n - 211) 999790 + 4 * COIN * clamp (n - 1000001) 1000000 +
  3 * COIN * clamp (n - 2000001) 1000000 + 10000 * Z.max 0 (n - 4693333).

Lemma issued_step n : 0 <= n -> issued_formula (n + 1) = issued_formula n + pow_subsidy false n.
Proof.
  intros H. unfold issued_formula, clamp, pow_subsidy, FAIR_LAUNCH_BLOCK, ZERO_POW_BLOCK. change COIN with 100000000.
  change (1 * 100000000 / 2) with 50000000. change (100000000 / 2) with 50000000.
  destruct (Z.eqb_spec n 1) as [->|N1]; [reflexivity|].
  destruct (Z.leb_spec n 210); [|destruct (Z.leb_spec n 1000000); [|destruct (Z.leb_spec n 2000000); [|
    destruct (Z.leb_spec n 3000000); [|destruct (Z.ltb_spec n 4693333)]]]].
  all: rewrite ?(proj2 (Z.ltb_lt 3000000 n)) by lia; cbn [andb]; rewrite ?(proj2 (Z.leb_le 4693333 n)) by lia.
  all: destruct (Z.leb_spec 2 (n + 1)), (Z.leb_spec 2 n); lia.
Qed.

Lemma issued_ok n : issued n = issued_formula (Z.of_nat n).
Proof.
  induction n as [|n IH]; [reflexivity|]. cbn [issued]. rewrite IH, <- issued_step by lia. f_equal. lia.
Qed.
