(* ===== verification/ConsensusTheorems.v ===== *)
(** * What the consensus functions promise

    Targets stay in their range and move as the specification says, proof of work
    accepts exactly the hashes below the target, trust is the
    expected work, coin age and rewards are their formulas. *)

From stdpp Require Import gmap list.
From Stdlib Require Import ZArith Lia.
From S2P Require Import Prelude SphTypes Uint256 Uint256Proof Transaction BigNum BigNumProof BigNumTheorems Chain ChainProof Consensus ConsensusProof.
Local Open Scope Z_scope.

Section Theorems.
  Context {BIGNUM : Type} {ops : BN_ops BIGNUM} {spec : BN_spec ops}.
  Variables (p : platform) (fTestNet : bool).

(** C24: on a well-formed block index, [GetNextTargetRequired] returns, without a bad access, the
    compact form of the previous target of the same kind scaled by the spacing of its last two blocks
    (or the limit, when there are not two or the result leaves the range); the target that
    form stands for is positive and within the limit. *)
Theorem next_target_required (h : heap) (last : pointer) (f : bool) :
  order p <> SPH_BIG_ENDIAN -> heap_ok h -> valid h last -> (forall a b, h !! a = Some b -> block_ok b) ->
  exists l c, path h last l /\ GetNextTargetRequired (ops := ops) p fTestNet h last f = Some c /\
    c = next_bits (target_limit fTestNet f) f l /\
    0 < compact_value c <= target_limit fTestNet f.
Proof.
  intros Hp Hh Hl Hb. destruct (path_exists h Hh last Hl) as [l P]. exists l. eexists.
  split; [exact P|]. split; [apply GetNextTargetRequired_ok; eassumption|]. split; [reflexivity|].
  pose proof (target_limit_range fTestNet f) as R. set (lim := target_limit fTestNet f) in *.
  enough (B : forall v, 0 < v <= lim -> 0 < compact_value (compact_of v) <= lim).
  { unfold next_bits. apply B. destruct (last_of_kind f l) as [|[a b] r]; [lia|].
    destruct (last_of_kind f r) as [|[a' b'] [|? ?]]; [lia..|]. apply next_target_range. lia. }
  intros v V. destruct (compact_of_bounds v) as (_ & U & N); lia.
Qed.

(** C25: [CheckProofOfWork] accepts exactly the hashes that, as numbers, do not exceed a positive
    target within the limit; the trust of a block is the expected number of hashes, 2^256 over the target plus one,
    and never overflows. *)
Theorem proof_of_work_decides (hash : list Z) (b : CBlockIndex) :
  order p <> SPH_BIG_ENDIAN -> words_ok 8 hash -> word 32 (i_nBits b) ->
  let target := compact_value (i_nBits b) in
  (CheckProofOfWork (ops := ops) p fTestNet hash (i_nBits b) = true <->
     0 < target <= pow_limit fTestNet /\ val hash <= target) /\
  exists w, GetBlockTrust (ops := ops) p b = Some w /\ words_ok 8 w /\
    val w = (if target <=? 0 then 0 else 2 ^ 256 / (target + 1)).
Proof.
  intros Hp Hh Hb target. split; [|now apply GetBlockTrust_ok].
  rewrite CheckProofOfWork_ok by assumption. unfold target. rewrite !andb_true_iff, Z.ltb_lt, !Z.leb_le. lia.
Qed.

(** [ComputeMaxBits] ends, and gives the base target doubled once and once more for every day
    begun, up to the limit. *)
Theorem max_bits_doubles (limit : BIGNUM) (nBase nTime : Z) :
  0 < bn limit < 2 ^ 256 -> word 32 nBase -> 0 <= compact_value nBase ->
  exists c, ComputeMaxBits limit nBase nTime = Some c /\
    c = compact_of (Z.min (bn limit) (compact_value nBase * 2 ^ (1 + days nTime))) /\
    compact_value c <= bn limit.
Proof.
  intros L B N. eexists. split; [now apply ComputeMaxBits_ok|]. split; [reflexivity|].
  set (v := Z.min _ _). assert (0 <= v <= bn limit).
  { unfold v. assert (0 <= 2 ^ (1 + days nTime)) by (apply Z.pow_nonneg; lia). nia. }
  destruct (compact_of_bounds v) as (_ & U & _); lia.
Qed.

End Theorems.

(** C40: the proof-of-work rewards up to any height sum to the closed form, which passes [MAX_MONEY]
    and stays below 11.3 million coins; a reward with valid fees does not overflow;
    a stake earns six percent a year of its coin age, and the multiplication overflows exactly above
    2^63. *)
Theorem rewards_schedule (n : nat) (fTestNet : bool) (over9000 best nHeight nCoinAge nFees : Z) :
  Z.of_nat n <= 2 ^ 31 -> MoneyRange nFees = true -> 0 <= nCoinAge ->
  issued n = issued_formula (Z.of_nat n) /\ issued n <= 11300000 * COIN /\
  (4693333 <= Z.of_nat n -> MAX_MONEY < issued n) /\
  GetProofOfWorkReward fTestNet best nHeight nFees = Some (pow_subsidy fTestNet best + nFees) /\
  GetProofOfStakeReward fTestNet over9000 best nCoinAge nFees =
    (if over9000 <? best then Some nFees
     else if nCoinAge * COIN_YEAR_REWARD <? 2 ^ 63 then Some (nCoinAge * COIN_YEAR_REWARD / 365 + nFees) else None).
Proof.
  intros Hn Hf Ha. unfold MoneyRange, MAX_MONEY in Hf. apply andb_prop in Hf as [F1 F2]. apply Z.leb_le in F1, F2.
  assert (S : 0 <= pow_subsidy fTestNet best <= 3000000 * COIN).
  { unfold pow_subsidy. change COIN with 100000000.
    repeat match goal with |- context [if ?c then _ else _] => destruct c end; vm_compute; split; congruence. }
  rewrite issued_ok. splits; [reflexivity| | | |].
  - unfold issued_formula, clamp. change COIN with 100000000. change (100000000 / 2) with 50000000.
    destruct (Z.leb_spec 2 (Z.of_nat n)); lia.
  - intros L. unfold issued_formula, clamp, MAX_MONEY. change COIN with 100000000. change (100000000 / 2) with 50000000.
    destruct (Z.leb_spec 2 (Z.of_nat n)); lia.
  - unfold GetProofOfWorkReward, add_int64. unfold COIN in *.
    rewrite (proj2 (Z.leb_le _ _)), (proj2 (Z.ltb_lt _ _)) by lia. reflexivity.
  - unfold GetProofOfStakeReward, mul_int64. destruct (over9000 <? best); [reflexivity|].
    unfold COIN_YEAR_REWARD. rewrite (proj2 (Z.leb_le _ _)) by lia. cbn [andb].
    destruct (Z.ltb_spec (nCoinAge * 6000000) (2 ^ 63)); [|reflexivity].
    assert (0 <= nCoinAge * 6000000 / 365 < 2 ^ 62) by (split; [apply Z.div_pos; lia|apply Z.div_lt_upper_bound; lia]).
    rewrite !Z.quot_div_nonneg by lia. unfold COIN, add_int64 in *.
    destruct ((MAINNET_POSFIX <=? best) || fTestNet);
      rewrite (proj2 (Z.leb_le _ _)), (proj2 (Z.ltb_lt _ _)) by lia; reflexivity.
Qed.

(** ** Examples *)

Lemma chain_fields a b : Examples.chain !! a = Some b -> block_ok b.
Proof.
  unfold Examples.chain. intros H. repeat (apply lookup_insert_Some in H as [[_ <-]|[_ H]]; [vm_compute; repeat split; congruence|]).
  exfalso. exact (lookup_empty_Some a b H).
Qed.

Lemma next_target_required_witness :
  exists l c, path Examples.chain (Some 5%positive) l /\
    GetNextTargetRequired Examples.p false Examples.chain (Some 5%positive) false = Some c /\
    c = next_bits (target_limit false false) false l /\
    0 < compact_value c <= target_limit false false.
Proof.
  apply (next_target_required Examples.p false Examples.chain (Some 5%positive) false); [discriminate|apply Examples.chain_ok| |apply chain_fields].
  intros a [= <-]. now eexists.
Defined.

(** The last two blocks of this kind are 60 seconds apart: the target grows by two thirds. *)
Example next_target_value :
  GetNextTargetRequired Examples.p false Examples.chain (Some 5%positive) false =
    Some (compact_of (compact_value 0x1c0fffff * 150 / 90)).
Proof. vm_compute. reflexivity. Qed.

Lemma proof_of_work_decides_witness :
  let hash := [1; 0; 0; 0; 0; 0; 0; 0] in let target := compact_value (i_nBits Examples.b1) in
  (CheckProofOfWork Examples.p false hash (i_nBits Examples.b1) = true <->
     0 < target <= pow_limit false /\ val hash <= target) /\
  exists w, GetBlockTrust Examples.p Examples.b1 = Some w /\ words_ok 8 w /\
    val w = (if target <=? 0 then 0 else 2 ^ 256 / (target + 1)).
Proof.
  apply (proof_of_work_decides Examples.p false [1; 0; 0; 0; 0; 0; 0; 0] Examples.b1);
    [discriminate|split; [reflexivity|]|vm_compute; split; congruence].
  repeat constructor; discriminate.
Defined.

Lemma max_bits_doubles_witness :
  exists c, ComputeMaxBits (limit_of Examples.p 20) 0x1c0fffff 200000 = Some c /\
    c = compact_of (Z.min (bn (limit_of Examples.p 20)) (compact_value 0x1c0fffff * 2 ^ (1 + days 200000))) /\
    compact_value c <= bn (limit_of Examples.p 20).
Proof.
  apply (max_bits_doubles (limit_of Examples.p 20) 0x1c0fffff 200000);
    [vm_compute; split; reflexivity|vm_compute; split; congruence|vm_compute; congruence].
Defined.

Module CoinExample.
End CoinExample.


Lemma rewards_schedule_witness :
  issued 300 = issued_formula (Z.of_nat 300) /\ issued 300 <= 11300000 * COIN /\
  (4693333 <= Z.of_nat 300 -> MAX_MONEY < issued 300) /\
  GetProofOfWorkReward false 300 301 1000 = Some (pow_subsidy false 300 + 1000) /\
  GetProofOfStakeReward false (877129408) 700000 40 1000 =
    (if 877129408 <? 700000 then Some 1000
     else if 40 * COIN_YEAR_REWARD <? 2 ^ 63 then Some (40 * COIN_YEAR_REWARD / 365 + 1000) else None).
Proof. apply (rewards_schedule 300 false 877129408 700000 301 40 1000); [lia|reflexivity|lia]. Defined.
