(* ===== verification/Kernel.v ===== *)
(** * kernel.cpp: the stake modifier and the kernel of a coinstake

    The stake modifier of a block collects one bit from each of 64 blocks chosen
    among those of the last hours by hashes; a coinstake has to hash, with
    a modifier about a selection interval younger than its coin, below a target proportional
    to value and age.  The functions return [bool] and set their reference
    arguments: here [Some None] is false, [Some (Some r)] true with the values set,
    and [None] a run that does not return (see [Chain]). *)

From stdpp Require Import gmap list sorting.
From Stdlib Require Import ZArith Lia.
From S2P Require Import Prelude SphTypes Uint256 Serialize Transaction BigNum Chain Consensus.
Local Open Scope Z_scope.

Definition nModifierInterval : Z := 10 * 60.
Definition MODIFIER_INTERVAL_RATIO : Z := 3.

Definition GetWeight (nIntervalBeginning nIntervalEnd : Z) : Z :=
  Z.min (nIntervalEnd - nIntervalBeginning - nStakeMinAge) nStakeMaxAge.

(** ** Intervals *)

(** In [unsigned int]. *)
Definition GetStakeModifierSelectionIntervalSection (nSection : Z) : option Z :=
  if (0 <=? nSection) && (nSection <? 64) then
    Some (trunc 32 (nModifierInterval * 63) / trunc 32 (63 + (63 - nSection) * (MODIFIER_INTERVAL_RATIO - 1)))
  else None.

(** [turns] is 64 - [nSection]. *)
Fixpoint selection_interval_loop (turns : nat) (nSection nSelectionInterval : Z) : option Z :=
  match turns with
  | O => Some nSelectionInterval
  | S turns =>
      let* section := GetStakeModifierSelectionIntervalSection nSection in
      selection_interval_loop turns (nSection + 1) (nSelectionInterval + section)
  end.
Definition GetStakeModifierSelectionInterval : option Z := selection_interval_loop 64 0 0.

(** ** The next modifier *)

(** [operator<] of [pair<int64_t, uint256>], and the order [sort] establishes. *)
Definition candidate_less (x y : Z * list Z) : bool :=
  (x.1 <? y.1) || (negb (y.1 <? x.1) && op_less 8 x.2 y.2).
Definition candidate_le (x y : Z * list Z) : Prop := candidate_less y x = false.
#[export] Instance candidate_le_dec x y : Decision (candidate_le x y).
Proof. unfold candidate_le. apply _. Defined.

Section Kernel.
  Context {BIGNUM : Type} {ops : BN_ops BIGNUM}.
  Variable p : platform.
  Variable SHA256 : list Z -> list Z.
  Variable fTestNet : bool.
  Variable h : heap.
  Variable mapBlockIndex : gmap (list Z) positive.

Fixpoint last_modifier_loop (fuel : nat) (pindex : pointer) : option pointer :=
  match fuel with
  | O => None
  | S fuel =>
      match pindex with
      | None => Some None
      | Some _ =>
          let* b := deref h pindex in
          match pprev b with
          | None => Some pindex
          | Some _ => if negb (GeneratedStakeModifier b) then last_modifier_loop fuel (pprev b) else Some pindex
          end
      end
  end.
Definition GetLastStakeModifier (pindex : pointer) : option (option (Z * Z)) :=
  match pindex with
  | None => Some None
  | Some _ =>
      let* pindex := last_modifier_loop (walk_fuel h pindex) pindex in
      let* b := deref h pindex in
      if negb (GeneratedStakeModifier b) then Some None else Some (Some (nStakeModifier b, GetBlockTime b))
  end.

Definition selection_hash (b : CBlockIndex) (nStakeModifierPrev : Z) : list Z :=
  let hashSelection := Hash p SHA256 (memory p (hashProof b) ++ WRITEDATA p 8 nStakeModifierPrev) in
  if IsProofOfStake b then op_shr_assign 8 hashSelection 32 else hashSelection.

(** [best] is [hashBest] with [*pindexSelected], [None] while [fSelected] is false. *)
Fixpoint select_from (vSortedByTimestamp : list (Z * list Z)) (mapSelectedBlocks : gmap (list Z) positive)
    (nSelectionIntervalStop nStakeModifierPrev : Z) (best : option (list Z * positive)) : option (option positive) :=
  match vSortedByTimestamp with
  | [] => Some (option_map snd best)
  | item :: vSortedByTimestamp =>
      match mapBlockIndex !! item.2 with
      | None => Some None
      | Some pindex =>
          let* b := h !! pindex in
          if match best with Some _ => nSelectionIntervalStop <? GetBlockTime b | None => false end
          then Some (option_map snd best)
          else
            let best :=
              if match mapSelectedBlocks !! phashBlock b with Some _ => true | None => false end then best
              else
                let hashSelection := selection_hash b nStakeModifierPrev in
                match best with
                | Some (hashBest, _) => if op_less 8 hashSelection hashBest then Some (hashSelection, pindex) else best
                | None => Some (hashSelection, pindex)
                end in
            select_from vSortedByTimestamp mapSelectedBlocks nSelectionIntervalStop nStakeModifierPrev best
      end
  end.
Definition SelectBlockFromCandidates (vSortedByTimestamp : list (Z * list Z)) (mapSelectedBlocks : gmap (list Z) positive)
    (nSelectionIntervalStop nStakeModifierPrev : Z) : option (option positive) :=
  select_from vSortedByTimestamp mapSelectedBlocks nSelectionIntervalStop nStakeModifierPrev None.

(** [while (pindex && pindex->GetBlockTime() >= nSelectionIntervalStart)], in the order of [push_back]. *)
Fixpoint candidates_loop (fuel : nat) (nSelectionIntervalStart : Z) (pindex : pointer) : option (list (Z * list Z)) :=
  match fuel with
  | O => None
  | S fuel =>
      match pindex with
      | None => Some []
      | Some _ =>
          let* b := deref h pindex in
          if nSelectionIntervalStart <=? GetBlockTime b then
            let* v := candidates_loop fuel nSelectionIntervalStart (pprev b) in
            Some ((GetBlockTime b, phashBlock b) :: v)
          else Some []
      end
  end.

(** The rounds from [nRound] on; [turns] is their number. *)
Fixpoint rounds_loop (turns : nat) (nRound : Z) (vSortedByTimestamp : list (Z * list Z))
    (mapSelectedBlocks : gmap (list Z) positive) (nSelectionIntervalStop nStakeModifier nStakeModifierNew : Z) :
    option (option Z) :=
  match turns with
  | O => Some (Some nStakeModifierNew)
  | S turns =>
      let* section := GetStakeModifierSelectionIntervalSection nRound in
      let nSelectionIntervalStop := nSelectionIntervalStop + section in
      let* selected := SelectBlockFromCandidates vSortedByTimestamp mapSelectedBlocks nSelectionIntervalStop nStakeModifier in
      match selected with
      | None => Some None
      | Some pindex =>
          let* b := h !! pindex in
          let nStakeModifierNew := nStakeModifierNew .| trunc 64 (GetStakeEntropyBit b << nRound) in
          let mapSelectedBlocks :=
            match mapSelectedBlocks !! phashBlock b with
            | Some _ => mapSelectedBlocks
            | None => <[phashBlock b := pindex]> mapSelectedBlocks
            end in
          rounds_loop turns (nRound + 1) vSortedByTimestamp mapSelectedBlocks nSelectionIntervalStop nStakeModifier nStakeModifierNew
      end
  end.

Definition ComputeNextStakeModifier (pindexPrev : pointer) : option (option (Z * bool)) :=
  match pindexPrev with
  | None => Some (Some (0, true))
  | Some _ =>
      let* last := GetLastStakeModifier pindexPrev in
      match last with
      | None => Some None
      | Some (nStakeModifier, nModifierTime) =>
          let* bPrev := deref h pindexPrev in
          if Z.quot (GetBlockTime bPrev) nModifierInterval <=? Z.quot nModifierTime nModifierInterval
          then Some (Some (nStakeModifier, false))
          else
            let* nSelectionInterval := GetStakeModifierSelectionInterval in
            let nSelectionIntervalStart :=
              Z.quot (GetBlockTime bPrev) nModifierInterval * nModifierInterval - nSelectionInterval in
            let* v := candidates_loop (walk_fuel h pindexPrev) nSelectionIntervalStart pindexPrev in
            let vSortedByTimestamp := merge_sort candidate_le (reverse v) in
            let* r := rounds_loop (Nat.min 64 (length vSortedByTimestamp)) 0 vSortedByTimestamp ∅
                        nSelectionIntervalStart nStakeModifier 0 in
            match r with
            | None => Some None
            | Some nStakeModifierNew => Some (Some (nStakeModifierNew, true))
            end
      end
  end.

(** ** The kernel *)

(** [while (nStakeModifierTime < pindexFrom->GetBlockTime() + nStakeModifierSelectionInterval)] *)
Fixpoint kernel_modifier_loop (fuel : nat) (limit : Z) (pindex : positive) (nStakeModifierHeight nStakeModifierTime : Z) :
    option (option (positive * Z * Z)) :=
  match fuel with
  | O => None
  | S fuel =>
      if nStakeModifierTime <? limit then
        let* b := h !! pindex in
        match pnext b with
        | None => Some None
        | Some pindex =>
            let* b := h !! pindex in
            if GeneratedStakeModifier b then kernel_modifier_loop fuel limit pindex (nHeight b) (GetBlockTime b)
            else kernel_modifier_loop fuel limit pindex nStakeModifierHeight nStakeModifierTime
        end
      else Some (Some (pindex, nStakeModifierHeight, nStakeModifierTime))
  end.
(** The modifier, its height and its time. *)
Definition GetKernelStakeModifier (hashBlockFrom : list Z) : option (option (Z * Z * Z)) :=
  match mapBlockIndex !! hashBlockFrom with
  | None => Some None
  | Some pindexFrom =>
      let* bFrom := h !! pindexFrom in
      let* nStakeModifierSelectionInterval := GetStakeModifierSelectionInterval in
      let* r := kernel_modifier_loop (S (size h)) (GetBlockTime bFrom + nStakeModifierSelectionInterval) pindexFrom
                  (nHeight bFrom) (GetBlockTime bFrom) in
      match r with
      | None => Some None
      | Some (pindex, nStakeModifierHeight, nStakeModifierTime) =>
          let* b := h !! pindex in
          Some (Some (nStakeModifier b, nStakeModifierHeight, nStakeModifierTime))
      end
  end.

(** [hashBlockFrom] is [blockFrom.GetHash()].  The result, with [hashProofOfStake] and
    [targetProofOfStake] as they are left. *)
Definition CheckStakeKernelHash (nBits : Z) (blockFrom : CBlock) (hashBlockFrom : list Z) (nTxPrevOffset : Z) (txPrev : CTransaction)
    (prevout : COutPoint) (nTimeTx : Z) (hashProofOfStake targetProofOfStake : list Z) :
    option (bool * list Z * list Z) :=
  if nTimeTx <? nTime txPrev then Some (false, hashProofOfStake, targetProofOfStake)
  else
    let nTimeBlockFrom := b_nTime blockFrom in
    if nTimeTx <? trunc 32 (nTimeBlockFrom + nStakeMinAge) then Some (false, hashProofOfStake, targetProofOfStake)
    else
      let bnTargetPerCoinDay := SetCompact nBits in
      let* out := vout txPrev !! Z.to_nat (n prevout) in
      let nValueIn := nValue out in
      let* x := op_times (of_long nValueIn) (of_long (GetWeight (nTime txPrev) nTimeTx)) in
      let* x := op_div x (of_long COIN) in
      let* bnCoinDayWeight := op_div x (of_long (24 * 60 * 60)) in
      let* bnTarget := op_times bnCoinDayWeight bnTargetPerCoinDay in
      let targetProofOfStake := getuint256 p bnTarget in
      let* modifier := GetKernelStakeModifier hashBlockFrom in
      match modifier with
      | None => Some (false, hashProofOfStake, targetProofOfStake)
      | Some (nStakeModifier, _, _) =>
          let hashProofOfStake :=
            Hash p SHA256 (WRITEDATA p 8 nStakeModifier ++ WRITEDATA p 4 nTimeBlockFrom ++ WRITEDATA p 4 nTxPrevOffset ++
                           WRITEDATA p 4 (nTime txPrev) ++ WRITEDATA p 4 (n prevout) ++ WRITEDATA p 4 nTimeTx) in
          if op_gt (setuint256 p hashProofOfStake) bnTarget then Some (false, hashProofOfStake, targetProofOfStake)
          else Some (true, hashProofOfStake, targetProofOfStake)
      end.

Definition CheckCoinStakeTimestamp (nTimeBlock nTimeTx : Z) : bool := nTimeBlock =? nTimeTx.

(** ** Checksums *)

  Variables hashGenesisBlock hashGenesisBlockTestNet : list Z.

Definition GetStakeModifierChecksum (b : CBlockIndex) : option Z :=
  if match pprev b with
     | Some _ => true
     | None => op_equal 8 (phashBlock b) (if negb fTestNet then hashGenesisBlock else hashGenesisBlockTestNet)
     end then
    let* prev :=
      match pprev b with
      | Some a => let* bPrev := h !! a in Some (WRITEDATA p 4 (nStakeModifierChecksum bPrev))
      | None => Some []
      end in
    let ss := prev ++ WRITEDATA p 4 (nFlags b) ++ memory p (if IsProofOfStake b then hashProof b else zeros 8) ++
              WRITEDATA p 8 (nStakeModifier b) in
    let hashChecksum := op_shr_assign 8 (Hash p SHA256 ss) (256 - 32) in
    Some (trunc 32 (Get64 hashChecksum 0))
  else None.
End Kernel.

(** The key 9999999999 of the map of the test network, as an [int]. *)
Definition mapStakeModifierCheckpoints : list (Z * Z) :=
  [(500000, 0x993757b7); (1000000, 0x0164bdb4); (1701527, 0xb64daf99); (2487918, 0x518704f3);
   (3692427, 0x20a869c0); (4662797, 0xa7d6f2de)].
Definition mapStakeModifierCheckpointsTestNet : list (Z * Z) := [(9999999999 - 2 * 2 ^ 32, 0x4038ad82)].
Definition CheckStakeModifierCheckpoints (fTestNet : bool) (nHeight nStakeModifierChecksum : Z) : bool :=
  let checkpoints := if fTestNet then mapStakeModifierCheckpointsTestNet else mapStakeModifierCheckpoints in
  match List.find (fun x => x.1 =? nHeight) checkpoints with
  | Some (_, c) => nStakeModifierChecksum =? c
  | None => true
  end.
