(* ===== verification/KernelProof.v ===== *)
(** * Lemmas on the stake modifier

    The selection of one block as a search in a list of blocks, the rounds as a
    list of chosen blocks, the walk along the main chain as a search. *)

From stdpp Require Import gmap list sorting.
From Stdlib Require Import ZArith Lia.
From S2P Require Import Prelude SphTypes Uint256 Uint256Proof Uint256Hex Serialize Transaction BigNum Chain ChainProof Consensus Kernel.
Local Open Scope Z_scope.

Abbreviation block := (positive * CBlockIndex)%type.
Definition time_of (x : block) : Z := GetBlockTime x.2.
Definition hash_of (x : block) : list Z := phashBlock x.2.
Definition item (x : block) : Z * list Z := (time_of x, hash_of x).
Definition by_time (x y : block) : Prop := time_of x <= time_of y.

Lemma less_from_asym n a b : less_from n a b = true -> less_from n b a = false.
Proof.
  induction n as [|n IH]; [easy|]. cbn [less_from].
  destruct (Z.ltb_spec (pn_at a n) (pn_at b n)), (Z.ltb_spec (pn_at b n) (pn_at a n)); (easy || lia || auto).
Qed.

#[export] Instance candidate_le_total : Total candidate_le.
Proof.
  intros x y. unfold candidate_le, candidate_less, op_less.
  destruct (Z.ltb_spec x.1 y.1), (Z.ltb_spec y.1 x.1); cbn [orb andb negb]; try lia; auto.
  destruct (less_from 8 y.2 x.2) eqn:E; [right; now apply less_from_asym|now left].
Qed.

Lemma sorted_by_time l v :
  merge_sort candidate_le v = map item l -> StronglySorted by_time l.
Proof.
  intros E. pose proof (Sorted_merge_sort candidate_le v) as S. rewrite E in S. clear E.
  apply Sorted_StronglySorted; [intros x y z; unfold by_time; lia|].
  induction l as [|x l IH]; [constructor|]. cbn [map] in S. inversion S as [|? ? S' H]; subst.
  constructor; [now apply IH|]. destruct l as [|y l]; [constructor|]. cbn [map] in H. inversion H; subst.
  constructor. unfold by_time, time_of. match goal with H : candidate_le _ _ |- _ => unfold candidate_le, candidate_less in H end.
  cbn [item fst time_of] in *. destruct (Z.ltb_spec (time_of y) (time_of x)); [easy|]. unfold time_of in *. lia.
Qed.

(** ** One selection *)

Section Selection.
  Variable p : platform.
  Variable SHA256 : list Z -> list Z.
  Variable h : heap.
  Variable mapBlockIndex : gmap (list Z) positive.

(** The block is where its hash leads. *)
Definition indexed (x : block) : Prop := mapBlockIndex !! hash_of x = Some x.1 /\ h !! x.1 = Some x.2.

Definition sel_hash (m : Z) (x : block) : list Z := selection_hash p SHA256 x.2 m.
Definition better (m : Z) (x y : block) : bool := op_less 8 (sel_hash m x) (sel_hash m y).
(** The first block of the least selection hash. *)
Definition least (m : Z) (x : block) (l : list block) : block :=
  fold_left (fun best y => if better m y best then y else best) l x.

Definition free (chosen : gmap (list Z) positive) (x : block) : bool :=
  match chosen !! hash_of x with Some _ => false | None => true end.

Lemma free_lookup chosen x : free chosen x = match chosen !! hash_of x with Some _ => false | None => true end.
Proof. reflexivity. Qed.

(** The least of the free blocks up to [stop], or the first free block when there is none. *)
Definition select_spec (l : list block) (chosen : gmap (list Z) positive) (stop m : Z) : option block :=
  match List.filter (fun x => time_of x <=? stop) (List.filter (free chosen) l) with
  | x :: r => Some (least m x r)
  | [] => head (List.filter (free chosen) l)
  end.

Lemma filter_late chosen stop l :
  Forall (fun x => stop < time_of x) l -> List.filter (fun x => time_of x <=? stop) (List.filter (free chosen) l) = [].
Proof.
  induction 1 as [|x l Hx F IH]; [reflexivity|]. cbn [List.filter]. destruct (free chosen x); [|exact IH].
  cbn [List.filter]. now rewrite (proj2 (Z.leb_gt _ _) Hx).
Qed.

Lemma select_from_best l chosen stop m b :
  Forall indexed l -> StronglySorted by_time l ->
  select_from p SHA256 h mapBlockIndex (map item l) chosen stop m (Some (sel_hash m b, b.1)) =
  Some (Some (least m b (List.filter (fun x => time_of x <=? stop) (List.filter (free chosen) l))).1).
Proof.
  intros F S. revert b F. induction S as [|x l S IH T]; intros b F; [reflexivity|].
  inversion F as [|? ? [X1 X2] F']; subst. cbn [map select_from item fst snd]. rewrite X1, X2. cbn [List.filter].
  fold (time_of x). destruct (Z.ltb_spec stop (time_of x)) as [L|L].
  - assert (A : List.filter (fun x => time_of x <=? stop) (List.filter (free chosen) (x :: l)) = []).
    { apply filter_late. constructor; [exact L|]. eapply Forall_impl; [exact T|]. unfold by_time, time_of in *. intros; cbn in *. lia. }
    cbn [List.filter] in A. rewrite A. reflexivity.
  - fold (hash_of x). pose proof (free_lookup chosen x) as Fx. destruct (chosen !! hash_of x); rewrite Fx; [now apply IH|]. cbn [List.filter].
    rewrite (proj2 (Z.leb_le (time_of x) stop)) by exact L. cbn [least fold_left]. fold (sel_hash m x). unfold better at 2.
    destruct (op_less 8 (sel_hash m x) (sel_hash m b)); now apply IH.
Qed.

Lemma SelectBlock_ok l chosen stop m :
  Forall indexed l -> StronglySorted by_time l ->
  SelectBlockFromCandidates p SHA256 h mapBlockIndex (map item l) chosen stop m =
  Some (option_map fst (select_spec l chosen stop m)).
Proof.
  intros F S. unfold SelectBlockFromCandidates, select_spec. revert F. induction S as [|x l S IH T]; intros F; [reflexivity|].
  inversion F as [|? ? [X1 X2] F']; subst. cbn [map select_from item fst snd]. rewrite X1, X2. cbn [List.filter].
  fold (hash_of x). pose proof (free_lookup chosen x) as Fx. destruct (chosen !! hash_of x); rewrite Fx; [now apply IH|]. fold (sel_hash m x).
  rewrite select_from_best by assumption. cbn [List.filter].
  destruct (Z.leb_spec (time_of x) stop); [reflexivity|].
  rewrite filter_late; [reflexivity|]. eapply Forall_impl; [exact T|]. unfold by_time. intros; cbn in *. lia.
Qed.

(** What the specification selects. *)
Lemma least_in m x l : In (least m x l) (x :: l).
Proof.
  revert x. induction l as [|y l IH]; intros x; [now left|]. cbn [least fold_left].
  destruct (better m y x); destruct (IH y), (IH x); cbn [In] in *; unfold least in *; tauto.
Qed.

Lemma select_spec_in l chosen stop m x : select_spec l chosen stop m = Some x -> In x l /\ free chosen x = true.
Proof.
  unfold select_spec. intros E. assert (I : In x (List.filter (free chosen) l)).
  { destruct (List.filter (fun x => time_of x <=? stop) _) as [|y r] eqn:L.
    - destruct (List.filter (free chosen) l); [easy|]. injection E as ->. now left.
    - injection E as <-. pose proof (least_in m y r) as I. rewrite <- L in I. now apply filter_In in I. }
  now apply filter_In in I.
Qed.

Lemma select_spec_total l chosen stop m : (exists x, In x l /\ free chosen x = true) -> is_Some (select_spec l chosen stop m).
Proof.
  intros (x & I & Fx). assert (J : In x (List.filter (free chosen) l)) by now apply filter_In.
  unfold select_spec. destruct (List.filter (fun _ => _) _); [|now eexists].
  destruct (List.filter (free chosen) l); [easy|now eexists].
Qed.

Hypothesis SHA256_ok : forall m, length (SHA256 m) = 32%nat /\ bytes (SHA256 m).

Lemma Hash_words b : words_ok 8 (Hash p SHA256 b).
Proof. apply of_memory_ok; apply SHA256_ok. Qed.

Lemma sel_hash_words m x : words_ok 8 (sel_hash m x).
Proof.
  unfold sel_hash, selection_hash. destruct (IsProofOfStake x.2); [|apply Hash_words].
  now apply op_shr_ok; [lia|apply Hash_words|lia].
Qed.

Lemma least_min m x l y : In y (x :: l) -> val (sel_hash m (least m x l)) <= val (sel_hash m y).
Proof.
  revert x y. induction l as [|z l IH]; intros x y I; [destruct I as [->|[]]; reflexivity|].
  cbn [least fold_left]. unfold better at 2. destruct (comparisons_ok 8 ltac:(lia) _ _ (sel_hash_words m z) (sel_hash_words m x)) as [C _].
  rewrite C. destruct (Z.ltb_spec (val (sel_hash m z)) (val (sel_hash m x))) as [L|L].
  - pose proof (IH z z (or_introl eq_refl)) as B. unfold least in *. destruct I as [<-|I]; [lia|now apply IH].
  - pose proof (IH x x (or_introl eq_refl)) as B. unfold least in *.
    destruct I as [<-|[<-|I]]; [exact B|lia|apply IH; now right].
Qed.
End Selection.

(** ** Sections of the interval *)

Definition section_seconds (i : Z) : Z := 37800 / (63 + 2 * (63 - i)).

Lemma section_ok i : 0 <= i < 64 -> GetStakeModifierSelectionIntervalSection i = Some (section_seconds i).
Proof.
  intros H. unfold GetStakeModifierSelectionIntervalSection, section_seconds.
  rewrite (proj2 (Z.leb_le 0 i)), (proj2 (Z.ltb_lt i 64)) by lia. cbn [andb].
  rewrite (trunc_id 32 (63 + _)) by (unfold word, MODIFIER_INTERVAL_RATIO; lia). do 2 f_equal. unfold MODIFIER_INTERVAL_RATIO. lia.
Qed.

(** Five hours and 52 minutes. *)
Definition selection_interval : Z := 21135.
Lemma selection_interval_ok : GetStakeModifierSelectionInterval = Some selection_interval.
Proof. vm_compute. reflexivity. Qed.

(** The end of the interval in the [n]-th round, counted from 1. *)
Fixpoint stop_after (start : Z) (n : nat) : Z :=
  match n with O => start | S n => stop_after start n + section_seconds (Z.of_nat n) end.

(** ** The rounds *)

Definition insert_chosen (x : block) (m : gmap (list Z) positive) : gmap (list Z) positive :=
  match m !! hash_of x with Some _ => m | None => <[hash_of x := x.1]> m end.
(** The blocks chosen, the last one first. *)
Fixpoint chosen_map (cs : list block) : gmap (list Z) positive :=
  match cs with [] => ∅ | x :: cs => insert_chosen x (chosen_map cs) end.
Fixpoint modifier_of (cs : list block) : Z :=
  match cs with [] => 0 | x :: cs => modifier_of cs .| (GetStakeEntropyBit x.2 << Z.of_nat (length cs)) end.

Lemma free_chosen cs x : free (chosen_map cs) x = true <-> ~ In (hash_of x) (map hash_of cs).
Proof.
  assert (E : forall k, is_Some (chosen_map cs !! k) <-> In k (map hash_of cs)).
  { intros k. induction cs as [|y cs IH]; cbn [chosen_map map In]; [rewrite lookup_empty; split; [intros [? [=]]|easy]|].
    unfold insert_chosen. destruct (chosen_map cs !! hash_of y) eqn:L.
    - rewrite IH. split; [tauto|]. intros [<-|I]; [apply IH; rewrite L; now eexists|exact I].
    - rewrite lookup_insert_is_Some, IH. split; [|intros [<-|I]; [now left|]].
      + intros [<-|[_ I]]; tauto.
      + destruct (decide (hash_of y = k)); [now left|now right]. }
  rewrite free_lookup, <- E. destruct (chosen_map cs !! hash_of x); split; try easy.
  intros N. exfalso. apply N. now eexists.
Qed.

Section Rounds.
  Variable p : platform.
  Variable SHA256 : list Z -> list Z.
  Variables (l : list block) (start m : Z).

(** Each round chooses as [select_spec] says, from the blocks not chosen before. *)
Inductive rounds : list block -> Prop :=
| rounds_none : rounds []
| rounds_next cs x :
    rounds cs -> select_spec p SHA256 l (chosen_map cs) (stop_after start (S (length cs))) m = Some x -> rounds (x :: cs).

Lemma rounds_distinct cs : rounds cs -> incl cs l /\ List.NoDup (map hash_of cs).
Proof.
  induction 1 as [|cs x R [I N] E]; [split; [easy|constructor]|].
  destruct (select_spec_in _ _ _ _ _ _ _ E) as [Ix Fx]. apply free_chosen in Fx.
  split; [now apply incl_cons|]. cbn [map]. now constructor.
Qed.

Lemma rounds_free cs :
  rounds cs -> List.NoDup (map hash_of l) -> (length cs < length l)%nat -> exists x, In x l /\ free (chosen_map cs) x = true.
Proof.
  intros R N L. destruct (existsb (free (chosen_map cs)) l) eqn:E; [now apply existsb_exists in E|]. exfalso.
  enough (length (map hash_of l) <= length (map hash_of cs))%nat by (rewrite !length_map in *; lia).
  apply NoDup_incl_length; [exact N|]. intros k I. apply in_map_iff in I as (x & <- & I).
  destruct (free (chosen_map cs) x) eqn:F.
  - assert (existsb (free (chosen_map cs)) l = true) by (apply existsb_exists; eauto). congruence.
  - destruct (in_dec (fun a b => decide (a = b)) (hash_of x) (map hash_of cs)) as [J|J]; [exact J|].
    apply free_chosen in J. congruence.
Qed.

  Variable h : heap.
  Variable mapBlockIndex : gmap (list Z) positive.
  Hypothesis all_indexed : Forall (indexed h mapBlockIndex) l.
  Hypothesis sorted : StronglySorted by_time l.
  Hypothesis distinct : List.NoDup (map hash_of l).

Lemma entropy_bit b : GetStakeEntropyBit b = Z.b2z (Z.testbit (nFlags b) 1).
Proof.
  unfold GetStakeEntropyBit. change BLOCK_STAKE_ENTROPY with (2 ^ 1). apply Z.bits_inj'. intros n Hn.
  rewrite Z.shiftr_spec, Z.land_spec, Z.pow2_bits_eqb by lia.
  destruct (Z.eqb_spec 1 (n + 1)) as [E|E].
  - replace n with 0 by lia. change (0 + 1) with 1. rewrite andb_true_r. symmetry. apply Z.b2z_bit0.
  - rewrite andb_false_r. destruct (Z.testbit (nFlags b) 1); cbn [Z.b2z]; [|now rewrite Z.bits_0].
    symmetry. apply Z.bits_above_log2; [lia|]. change (Z.log2 1) with 0. lia.
Qed.

Lemma rounds_loop_ok turns cs :
  rounds cs -> (turns + length cs <= 64)%nat -> (turns + length cs <= length l)%nat ->
  exists cs', rounds cs' /\ length cs' = (turns + length cs)%nat /\
    rounds_loop p SHA256 h mapBlockIndex turns (Z.of_nat (length cs)) (map item l) (chosen_map cs)
      (stop_after start (length cs)) m (modifier_of cs) = Some (Some (modifier_of cs')).
Proof.
  revert cs. induction turns as [|turns IH]; intros cs R T L; [now exists cs|].
  cbn [rounds_loop]. rewrite section_ok by lia.
  rewrite SelectBlock_ok by assumption. change (_ + section_seconds _) with (stop_after start (S (length cs))).
  destruct (select_spec_total p SHA256 l (chosen_map cs) (stop_after start (S (length cs))) m) as [x E];
    [apply rounds_free; [assumption..|lia]|].
  rewrite E. cbn [option_map]. destruct (select_spec_in _ _ _ _ _ _ _ E) as [Ix _].
  destruct (proj1 (List.Forall_forall _ _) all_indexed x Ix) as [_ ->].
  destruct (IH (x :: cs)) as (cs' & R' & L' & E'); [now constructor|cbn; lia..|].
  exists cs'. split; [exact R'|]. split; [cbn in L'; lia|]. rewrite <- E'. cbn [length chosen_map modifier_of].
  rewrite Nat2Z.inj_succ. unfold insert_chosen, hash_of, Z.succ. do 2 f_equal. apply trunc_id; [lia|].
  rewrite entropy_bit, Z.shiftl_mul_pow2 by lia. unfold word.
  assert (2 ^ Z.of_nat (length cs) < 2 ^ 64) by (apply Z.pow_lt_mono_r; lia).
  assert (0 < 2 ^ Z.of_nat (length cs)) by (apply Z.pow_pos_nonneg; lia). destruct (Z.testbit _ _); cbn [Z.b2z]; lia.
Qed.
End Rounds.

(** Bit [i] of the modifier is that of the block chosen in round [i]. *)
Lemma modifier_bits cs i :
  0 <= i ->
  Z.testbit (modifier_of cs) i =
    match rev cs !! Z.to_nat i with Some x => Z.testbit (nFlags x.2) 1 | None => false end.
Proof.
  intros Hi. induction cs as [|x cs IH]; [cbn [modifier_of rev]; now rewrite Z.bits_0|].
  cbn [modifier_of rev]. rewrite Z.lor_spec, IH, Z.shiftl_spec, entropy_bit by lia. clear IH.
  destruct (Nat.lt_trichotomy (Z.to_nat i) (length cs)) as [C|[C|C]].
  - rewrite lookup_app_l by (rewrite length_rev; lia). rewrite (Z.testbit_neg_r _ (i - _)) by lia. apply orb_false_r.
  - rewrite lookup_app_r by (rewrite length_rev; lia). rewrite (lookup_ge_None_2 (rev cs)) by (rewrite length_rev; lia).
    rewrite length_rev. replace (Z.to_nat i - length cs)%nat with 0%nat by lia.
    replace (i - Z.of_nat (length cs)) with 0 by lia. apply Z.b2z_bit0.
  - rewrite lookup_app_r by (rewrite length_rev; lia). rewrite (lookup_ge_None_2 (rev cs)) by (rewrite length_rev; lia).
    rewrite length_rev. rewrite (lookup_ge_None_2 [x]) by (cbn; lia).
    destruct (Z.testbit (nFlags x.2) 1); cbn [Z.b2z orb]; [|apply Z.bits_0].
    apply Z.bits_above_log2; [lia|]. change (Z.log2 1) with 0. lia.
Qed.

Lemma modifier_word cs : (length cs <= 64)%nat -> word 64 (modifier_of cs).
Proof.
  induction cs as [|x cs IH]; cbn [modifier_of length]; intros L; [unfold word; lia|].
  apply lor_word; [lia|apply IH; lia|]. rewrite entropy_bit, Z.shiftl_mul_pow2 by lia. unfold word.
  assert (2 ^ Z.of_nat (length cs) < 2 ^ 64) by (apply Z.pow_lt_mono_r; lia).
  assert (0 < 2 ^ Z.of_nat (length cs)) by (apply Z.pow_pos_nonneg; lia). destruct (Z.testbit _ _); cbn [Z.b2z]; lia.
Qed.

(** ** The last modifier and the candidates *)

(** The blocks from the tip back to the first one before [start]. *)
Fixpoint recent (start : Z) (l : list block) : list block :=
  match l with
  | x :: l => if start <=? time_of x then x :: recent start l else []
  | [] => []
  end.

Lemma recent_prefix start l : exists r, l = recent start l ++ r.
Proof.
  induction l as [|x l [r IH]]; [now exists []|]. cbn [recent].
  destruct (_ <=? _); [exists r; exact (f_equal (cons x) IH)|now exists (x :: l)].
Qed.

Section Next.
  Variable p : platform.
  Variable SHA256 : list Z -> list Z.
  Variable h : heap.
  Variable mapBlockIndex : gmap (list Z) positive.
  Hypothesis ok : heap_ok h.

Lemma last_modifier_loop_ok fuel q l :
  path h q l -> (length l < fuel)%nat ->
  last_modifier_loop h fuel q = Some (head_pointer (last_where GeneratedStakeModifier l)).
Proof.
  intros H. revert fuel. induction H as [|a b l Hb H IH]; intros [|fuel] F; try (cbn in F; lia); [reflexivity|].
  cbn [last_modifier_loop deref]. cbn. rewrite Hb. destruct H as [|a' b' l Hb' H]; [reflexivity|].
  cbn [last_where]. destruct (GeneratedStakeModifier b); cbn [negb]; [reflexivity|]. apply IH. cbn in F |- *. lia.
Qed.

Lemma GetLastStakeModifier_ok a l :
  path h (Some a) l -> (forall x, In x l -> pprev x.2 = None -> GeneratedStakeModifier x.2 = true) ->
  exists g r, last_where GeneratedStakeModifier l = g :: r /\ GeneratedStakeModifier g.2 = true /\ In g l /\
    GetLastStakeModifier h (Some a) = Some (Some (nStakeModifier g.2, time_of g)).
Proof.
  intros P G. unfold GetLastStakeModifier.
  rewrite (last_modifier_loop_ok _ _ l P) by now apply walk_fuel_ok.
  pose proof (last_where_nonempty GeneratedStakeModifier l) as N. specialize (N ltac:(now inversion P)).
  pose proof (last_where_path h GeneratedStakeModifier _ _ P) as D.
  destruct (last_where_suffix GeneratedStakeModifier l) as [l1 E].
  destruct (last_where GeneratedStakeModifier l) as [|[c b] r] eqn:L; [easy|]. exists (c, b), r.
  destruct (last_where_spec _ _ _ _ _ L) as [C _]. inversion D as [|? ? ? Hb D']; subst.
  assert (I : In (c, b) (l1 ++ (c, b) :: r)) by (apply in_app_iff; right; now left).
  assert (Gb : GeneratedStakeModifier b = true).
  { destruct C as [C| ->]; [exact C|]. apply (G (c, b) I). now inversion D'. }
  splits; [reflexivity|exact Gb|exact I|]. cbn [head_pointer deref]. cbn. now rewrite Hb, Gb.
Qed.

Lemma candidates_loop_ok fuel start q l :
  path h q l -> (length l < fuel)%nat -> candidates_loop h fuel start q = Some (map item (recent start l)).
Proof.
  intros H. revert fuel. induction H as [|a b l Hb H IH]; intros [|fuel] F; try (cbn in F; lia); [reflexivity|].
  cbn [candidates_loop deref recent time_of snd]. cbn. rewrite Hb. fold (time_of (a, b)).
  unfold time_of. cbn [snd]. destruct (start <=? GetBlockTime b); [|reflexivity]. rewrite IH by (cbn in F; lia). reflexivity.
Qed.

Lemma indexed_distinct l : List.NoDup (map fst l) -> Forall (indexed h mapBlockIndex) l -> List.NoDup (map hash_of l).
Proof.
  intros N F. induction F as [|x l [X _] F IH]; [constructor|]. cbn [map] in *. inversion N as [|? ? N1 N2]; subst.
  constructor; [|now apply IH]. intros I. apply in_map_iff in I as (y & E & I). apply N1. apply in_map_iff. exists y.
  split; [|exact I]. destruct (proj1 (List.Forall_forall _ _) F y I) as [Y _]. rewrite E in Y. congruence.
Qed.

Lemma candidates_sorted l start :
  Forall (indexed h mapBlockIndex) l -> List.NoDup (map fst l) ->
  exists c, merge_sort candidate_le (reverse (map item (recent start l))) = map item c /\
    c ≡ₚ recent start l /\ StronglySorted by_time c /\ Forall (indexed h mapBlockIndex) c /\ List.NoDup (map hash_of c).
Proof.
  intros F N. set (v := reverse _). assert (P : merge_sort candidate_le v ≡ₚ map item (recent start l)).
  { rewrite merge_sort_Permutation. unfold v. now rewrite reverse_Permutation. }
  apply Permutation_map_inv in P as (c & E & P). exists c.
  destruct (recent_prefix start l) as [r R]. rewrite R in F, N. apply Forall_app in F as [F _].
  rewrite map_app in N. apply List.NoDup_app_remove_r in N.
  splits; [exact E|now symmetry|now apply sorted_by_time with v| |].
  - eapply Permutation_Forall; [exact P|exact F].
  - eapply Permutation_NoDup; [apply Permutation_map, P|]. now apply indexed_distinct.
Qed.

Lemma ComputeNext_ok a b l :
  path h (Some a) ((a, b) :: l) -> Forall (indexed h mapBlockIndex) ((a, b) :: l) ->
  (forall x, In x ((a, b) :: l) -> pprev x.2 = None -> GeneratedStakeModifier x.2 = true) ->
  (forall x, In x ((a, b) :: l) -> 0 <= time_of x) ->
  exists g r, last_where GeneratedStakeModifier ((a, b) :: l) = g :: r /\ GeneratedStakeModifier g.2 = true /\
  if GetBlockTime b / 600 <=? time_of g / 600
  then ComputeNextStakeModifier p SHA256 h mapBlockIndex (Some a) = Some (Some (nStakeModifier g.2, false))
  else
    let start := GetBlockTime b / 600 * 600 - selection_interval in
    exists c cs, c ≡ₚ recent start ((a, b) :: l) /\ StronglySorted by_time c /\
      rounds p SHA256 c start (nStakeModifier g.2) cs /\ length cs = Nat.min 64 (length c) /\
      ComputeNextStakeModifier p SHA256 h mapBlockIndex (Some a) = Some (Some (modifier_of cs, true)).
Proof.
  intros P F G T. destruct (GetLastStakeModifier_ok a _ P G) as (g & r & L & Gg & Ig & E). exists g, r.
  split; [exact L|]. split; [exact Gg|]. unfold ComputeNextStakeModifier. rewrite E.
  assert (Hb : h !! a = Some b) by now inversion P. change (deref h (Some a)) with (h !! a). rewrite Hb.
  pose proof (T _ Ig) as Tg. pose proof (T (a, b) (or_introl eq_refl)) as Tb. unfold time_of in Tb. cbn [snd] in Tb.
  change nModifierInterval with 600. rewrite !Z.quot_div_nonneg by lia.
  destruct (_ <=? _); [reflexivity|]. rewrite selection_interval_ok. cbv zeta. set (start := _ - selection_interval).
  rewrite (candidates_loop_ok _ start _ _ P) by (apply walk_fuel_ok; assumption).
  destruct (candidates_sorted ((a, b) :: l) start F ltac:(eapply NoDup_ListNoDup, path_nodup; eassumption)) as (c & S & Pc & Sc & Fc & Nc).
  rewrite S, length_map. exists c.
  destruct (rounds_loop_ok p SHA256 c start (nStakeModifier g.2) h mapBlockIndex Fc Sc Nc (Nat.min 64 (length c)) [])
    as (cs & R & Lc & Ec); [apply rounds_none|cbn [length]; lia..|].
  exists cs. splits; [exact Pc|exact Sc|exact R|cbn [length] in Lc; lia|]. cbn [length chosen_map stop_after modifier_of] in Ec.
  change (Z.of_nat 0) with 0 in Ec. now rewrite Ec.
Qed.
End Next.

(** ** The modifier of a kernel *)

Section KernelModifier.
  Variable h : heap.
  Hypothesis ok : heap_ok h.
  Hypothesis links : links_ok h.

(** The block whose modifier is used: the first one after [pindexFrom] that generated one late enough. *)
Definition late (limit : Z) (x : block) : bool := GeneratedStakeModifier x.2 && (limit <=? time_of x).

Lemma kernel_modifier_loop_ok fuel limit a b l ht t :
  h !! a = Some b -> forward h (pnext b) l -> t < limit -> Z.of_nat (size h) - nHeight b < Z.of_nat fuel ->
  kernel_modifier_loop h fuel limit a ht t =
    Some (option_map (fun x : block => (x.1, nHeight x.2, time_of x)) (List.find (late limit) l)).
Proof.
  revert a b l ht t. induction fuel as [|fuel IH]; intros a b l ht t Hb F T K.
  { pose proof (height_bound h a b ok Hb). lia. }
  cbn [kernel_modifier_loop]. rewrite (proj2 (Z.ltb_lt t limit) T), Hb.
  destruct (pnext b) as [q|] eqn:Q; [|inversion F; subst; reflexivity].
  inversion F as [|? b' l' Hb' F']; subst. rewrite Hb'. pose proof (next_height h a b q b' ok links Hb Q Hb') as H.
  cbn [List.find]. unfold late at 1, time_of. cbn [snd]. destruct (GeneratedStakeModifier b') eqn:G; cbn [andb].
  - destruct (Z.leb_spec limit (GetBlockTime b')) as [C|C]; [|apply (IH q b'); (assumption || lia)].
    destruct fuel as [|fuel]; [pose proof (height_bound h q b' ok Hb'); lia|]. cbn [kernel_modifier_loop].
    now rewrite (proj2 (Z.ltb_ge _ _) C).
  - apply (IH q b'); (assumption || lia).
Qed.

Lemma forward_lookup q l x : forward h q l -> In x l -> h !! x.1 = Some x.2.
Proof. induction 1 as [|a b l Hb F IH]; [easy|]. intros [<-|I]; [exact Hb|auto]. Qed.

Lemma GetKernelStakeModifier_ok (mapBlockIndex : gmap (list Z) positive) hash a b l :
  mapBlockIndex !! hash = Some a -> h !! a = Some b -> forward h (pnext b) l ->
  GetKernelStakeModifier h mapBlockIndex hash =
    Some (option_map (fun x : block => (nStakeModifier x.2, nHeight x.2, time_of x))
            (List.find (late (GetBlockTime b + selection_interval)) l)).
Proof.
  intros M Hb F. unfold GetKernelStakeModifier. rewrite M, Hb, selection_interval_ok.
  rewrite (kernel_modifier_loop_ok _ _ a b l) by (try assumption; unfold selection_interval; pose proof (height_bound h a b ok Hb); lia).
  destruct (List.find _ l) as [x|] eqn:E; cbn [option_map]; [|reflexivity].
  apply List.find_some in E as [I _]. now rewrite (forward_lookup _ _ _ F I).
Qed.
End KernelModifier.

(** ** What the rounds choose *)

Section Choices.
  Variable p : platform.
  Variable SHA256 : list Z -> list Z.
  Hypothesis SHA256_ok : forall m, length (SHA256 m) = 32%nat /\ bytes (SHA256 m).
  Variables (c : list block) (start m : Z).
  Hypothesis sorted : StronglySorted by_time c.
  Hypothesis distinct : List.NoDup (map hash_of c).

(** [x] is, among the candidates for which [out] does not hold: of least hash up to [stop], or the oldest. *)
Definition choice (out : block -> Prop) (stop : Z) (x : block) : Prop :=
  In x c /\ ~ out x /\
  (forall y, In y c -> ~ out y -> time_of y <= stop ->
     time_of x <= stop /\ val (sel_hash p SHA256 m x) <= val (sel_hash p SHA256 m y)) /\
  (stop < time_of x -> forall y, In y c -> ~ out y -> time_of x <= time_of y).

Lemma head_oldest (P : block -> bool) l x :
  StronglySorted by_time l -> head (List.filter P l) = Some x -> forall y, In y l -> P y = true -> time_of x <= time_of y.
Proof.
  induction 1 as [|z l S IH T]; [easy|]. cbn [List.filter]. destruct (P z) eqn:E.
  - intros [= <-] y [<-|I] _; [lia|]. now apply (proj1 (List.Forall_forall _ _) T).
  - intros Hx y [<-|I] Py; [congruence|]. now apply IH.
Qed.

Lemma select_spec_choice chosen stop x :
  select_spec p SHA256 c chosen stop m = Some x -> choice (fun y => free chosen y = false) stop x.
Proof.
  intros E. destruct (select_spec_in _ _ _ _ _ _ _ E) as [I F]. unfold choice.
  split; [exact I|]. split; [congruence|]. unfold select_spec in E.
  destruct (List.filter (fun x => time_of x <=? stop) (List.filter (free chosen) c)) as [|z r] eqn:L.
  - split.
    + intros y Iy Fy Ty. exfalso. apply not_false_is_true in Fy.
      assert (J : In y []) by (rewrite <- L; repeat (apply filter_In; split); try assumption; now apply Z.leb_le). easy.
    + intros _ y Iy Fy. apply not_false_is_true in Fy. now apply (head_oldest (free chosen) c x sorted E).
  - injection E as <-. pose proof (least_in p SHA256 m z r) as Iz. rewrite <- L in Iz.
    apply filter_In in Iz as [_ Tz]. apply Z.leb_le in Tz. split; [|lia].
    intros y Iy Fy Ty. apply not_false_is_true in Fy. split; [exact Tz|]. apply least_min; [exact SHA256_ok|].
    rewrite <- L. repeat (apply filter_In; split); try assumption. now apply Z.leb_le.
Qed.

Lemma hash_inj x y : In x c -> In y c -> hash_of x = hash_of y -> x = y.
Proof.
  revert distinct. generalize c. intros l. induction l as [|z l IH]; [easy|]. cbn [map]. intros N Ix Iy E.
  inversion N as [|? ? N1 N2]; subst. destruct Ix as [->|Ix], Iy as [->|Iy]; auto; exfalso; apply N1.
  - rewrite E. now apply in_map.
  - rewrite <- E. now apply in_map.
Qed.

Lemma rounds_choices cs :
  rounds p SHA256 c start m cs ->
  forall i x, rev cs !! i = Some x -> choice (fun y => In y (firstn i (rev cs))) (stop_after start (S i)) x.
Proof.
  induction 1 as [|cs z R IH E]; intros i x L; [easy|]. cbn [rev] in *.
  destruct (Nat.lt_ge_cases i (length cs)) as [C|C].
  - rewrite lookup_app_l in L by (rewrite length_rev; lia). rewrite firstn_app, length_rev.
    replace (i - length cs)%nat with 0%nat by lia. rewrite firstn_O, app_nil_r. now apply IH.
  - rewrite lookup_app_r in L by (rewrite length_rev; lia). rewrite length_rev in L.
    destruct (i - length cs)%nat as [|k] eqn:K; [|now destruct k]. injection L as <-.
    assert (i = length cs) as -> by lia. rewrite firstn_app, length_rev, Nat.sub_diag, firstn_O, app_nil_r.
    rewrite firstn_all2 by (rewrite length_rev; lia). destruct (rounds_distinct _ _ _ _ _ _ R) as [Inc _].
    assert (Eq : forall y, In y c -> free (chosen_map cs) y = false <-> In y (rev cs)).
    { intros y Iy. rewrite <- in_rev. destruct (free (chosen_map cs) y) eqn:F.
      - split; [easy|]. intros J. apply free_chosen in F. exfalso. apply F. now apply in_map.
      - split; [|easy]. intros _. destruct (in_dec (fun a b => decide (a = b)) (hash_of y) (map hash_of cs)) as [J|J].
        + apply in_map_iff in J as (w & Ew & Iw). now rewrite (hash_inj y w Iy (Inc w Iw) ltac:(congruence)).
        + apply free_chosen in J. congruence. }
    apply select_spec_choice in E as (I & F & A & B). unfold choice. split; [exact I|]. split; [now rewrite <- Eq|]. split.
    + intros y Iy Ny. rewrite <- Eq in Ny by exact Iy. now apply A.
    + intros T y Iy Ny. rewrite <- Eq in Ny by exact Iy. now apply B.
Qed.
End Choices.
