(* ===== verification/KernelTheorems.v ===== *)
(** * What the stake modifier and the kernel check promise *)

From stdpp Require Import gmap list sorting.
From Stdlib Require Import ZArith Lia.
From S2P Require Import Prelude SphTypes Uint256 Uint256Proof Uint256Hex Serialize Transaction BigNum BigNumProof BigNumTheorems Chain ChainProof Consensus ConsensusProof Kernel KernelProof.
Local Open Scope Z_scope.

(** C16: from a block of a well-formed index whose first block generated a modifier,
    [ComputeNextStakeModifier] always succeeds.  In the ten minutes of the last modifier it keeps it; later it
    chooses min(64, n) distinct blocks among the n of the selection interval, in each round the one of
    least hash of those not chosen up to the round's time (or the oldest left), and bit i of
    the new modifier is the entropy bit of the block of round i. *)
Theorem next_stake_modifier (p : platform) (SHA256 : list Z -> list Z) (h : heap) (mapBlockIndex : gmap (list Z) positive)
    (a : positive) (b : CBlockIndex) (l : list block) :
  (forall m, length (SHA256 m) = 32%nat /\ bytes (SHA256 m)) ->
  heap_ok h -> path h (Some a) ((a, b) :: l) -> Forall (indexed h mapBlockIndex) ((a, b) :: l) ->
  (forall x, In x ((a, b) :: l) -> pprev x.2 = None -> GeneratedStakeModifier x.2 = true) ->
  (forall x, In x ((a, b) :: l) -> 0 <= time_of x) ->
  exists g r, last_where GeneratedStakeModifier ((a, b) :: l) = g :: r /\
  if GetBlockTime b / 600 <=? time_of g / 600
  then ComputeNextStakeModifier p SHA256 h mapBlockIndex (Some a) = Some (Some (nStakeModifier g.2, false))
  else
    let start := GetBlockTime b / 600 * 600 - selection_interval in
    exists c chosen v, c ≡ₚ recent start ((a, b) :: l) /\ StronglySorted by_time c /\
      ComputeNextStakeModifier p SHA256 h mapBlockIndex (Some a) = Some (Some (v, true)) /\
      length chosen = Nat.min 64 (length c) /\ List.NoDup chosen /\
      (forall i x, chosen !! i = Some x ->
         choice p SHA256 c (nStakeModifier g.2) (fun y => In y (firstn i chosen)) (stop_after start (S i)) x) /\
      word 64 v /\
      (forall i, 0 <= i -> Z.testbit v i = match chosen !! Z.to_nat i with Some x => Z.testbit (nFlags x.2) 1 | None => false end).
Proof.
  intros HS O P F G T. destruct (ComputeNext_ok p SHA256 h mapBlockIndex O a b l P F G T) as (g & r & L & _ & E).
  exists g, r. split; [exact L|]. destruct (_ <=? _); [exact E|]. cbv zeta in *.
  destruct E as (c & cs & Pc & Sc & R & Lc & E). exists c, (rev cs), (modifier_of cs).
  destruct (rounds_distinct _ _ _ _ _ _ R) as [I N].
  assert (D : List.NoDup (map hash_of c)).
  { destruct (candidates_sorted h mapBlockIndex ((a, b) :: l) (GetBlockTime b / 600 * 600 - selection_interval) F) as (c' & _ & P' & _ & _ & D);
      [eapply NoDup_ListNoDup, path_nodup; eassumption|].
    eapply Permutation_NoDup; [|exact D]. apply Permutation_map. now rewrite P', Pc. }
  splits; [exact Pc|exact Sc|exact E|now rewrite length_rev| | | |].
  - apply NoDup_rev. now apply NoDup_map_inv with (f := hash_of).
  - now apply rounds_choices.
  - apply modifier_word. lia.
  - intros i Hi. now apply modifier_bits.
Qed.

Section Kernel.
  Context {BIGNUM : Type} {ops : BN_ops BIGNUM} {spec : BN_spec ops}.
  Variables (p : platform) (SHA256 : list Z -> list Z).

(** C15: [CheckStakeKernelHash] always returns, and is true exactly when the times are in order, the coin has the minimum
    age (in 32-bit arithmetic), a block after it generated a modifier late enough, and the hash of
    the kernel is at most value times weight, in coin-days, times the target; the comment above the function says less than,
    and the code accepts equality ([kernel_accepts_equality] below). *)
Theorem stake_kernel_decides (h : heap) (mapBlockIndex : gmap (list Z) positive) (nBits : Z) (blockFrom : CBlock)
    (hashBlockFrom : list Z) (nTxPrevOffset : Z) (txPrev : CTransaction) (prevout : COutPoint) (nTimeTx : Z)
    (hashProof target : list Z) (a : positive) (b : CBlockIndex) (out : CTxOut) :
  order p <> SPH_BIG_ENDIAN -> (forall m, length (SHA256 m) = 32%nat /\ bytes (SHA256 m)) ->
  heap_ok h -> links_ok h -> mapBlockIndex !! hashBlockFrom = Some a -> h !! a = Some b ->
  word 32 nBits -> word 32 nTimeTx -> word 32 (nTime txPrev) ->
  vout txPrev !! Z.to_nat (n prevout) = Some out -> - 2 ^ 63 <= nValue out < 2 ^ 63 ->
  exists l r, forward h (pnext b) l /\
  CheckStakeKernelHash (ops := ops) p SHA256 h mapBlockIndex nBits blockFrom hashBlockFrom nTxPrevOffset txPrev prevout nTimeTx
    hashProof target = Some r /\
  (r.1.1 = true <->
     nTime txPrev <= nTimeTx /\ (b_nTime blockFrom + nStakeMinAge) mod 2 ^ 32 <= nTimeTx /\
     exists x, List.find (late (GetBlockTime b + selection_interval)) l = Some x /\
       val (Hash p SHA256 (WRITEDATA p 8 (nStakeModifier x.2) ++ WRITEDATA p 4 (b_nTime blockFrom) ++ WRITEDATA p 4 nTxPrevOffset ++
              WRITEDATA p 4 (nTime txPrev) ++ WRITEDATA p 4 (n prevout) ++ WRITEDATA p 4 nTimeTx)) <=
       Z.quot (Z.quot (nValue out * GetWeight (nTime txPrev) nTimeTx) COIN) 86400 * compact_value nBits).
Proof.
  intros Hp HS O L M Hb B T T' Ho V.
  destruct (forward_exists h (pnext b) O L) as [l F].
  { intros q Hq. destruct (L a b q Hb Hq) as (b' & Hb' & _). exists b'; exact Hb'. }
  exists l. unfold CheckStakeKernelHash. rewrite trunc_mod by lia.
  destruct (Z.ltb_spec nTimeTx (nTime txPrev)) as [C|C].
  { eexists. splits; [exact F|reflexivity|]. cbn. split; [easy|lia]. }
  destruct (Z.ltb_spec nTimeTx ((b_nTime blockFrom + nStakeMinAge) mod 2 ^ 32)) as [C'|C'].
  { eexists. splits; [exact F|reflexivity|]. cbn. split; [easy|lia]. }
  rewrite Ho. unfold op_times.
  assert (W : - 2 ^ 63 <= GetWeight (nTime txPrev) nTimeTx < 2 ^ 63).
  { unfold GetWeight, nStakeMaxAge, nStakeMinAge, word in *. change (trunc 32 (-1)) with 4294967295. lia. }
  destruct (mul_spec (of_long (nValue out)) (of_long (GetWeight (nTime txPrev) nTimeTx))) as (x1 & -> & X1).
  rewrite !of_long_small in X1 by assumption.
  destruct (op_div_ok x1 (of_long COIN)) as (x2 & -> & X2); [rewrite of_long_small; unfold COIN; lia|].
  rewrite of_long_small in X2 by (unfold COIN; lia).
  destruct (op_div_ok x2 (of_long (24 * 60 * 60))) as (x3 & -> & X3); [rewrite of_long_small; lia|].
  rewrite of_long_small in X3 by lia. change (24 * 60 * 60) with 86400 in X3.
  destruct (mul_spec x3 (SetCompact nBits)) as (x4 & -> & X4). rewrite SetCompact_ok in X4 by assumption.
  rewrite (GetKernelStakeModifier_ok h O L mapBlockIndex hashBlockFrom a b l M Hb F).
  destruct (List.find (late (GetBlockTime b + selection_interval)) l) as [x|]; cbn [option_map].
  2: { eexists. splits; [exact F|reflexivity|]. cbn. split; [easy|]. intros (_ & _ & x & [=] & _). }
  rewrite op_gt_ok, setuint256_ok by (try assumption; now apply Hash_words). rewrite X4, X3, X2, X1.
  set (hash := val (Hash p SHA256 _)). set (limit := Z.quot _ 86400 * compact_value nBits).
  destruct (Z.ltb_spec limit hash); eexists; (splits; [exact F|reflexivity|]); cbn.
  - split; [easy|]. intros (_ & _ & y & [= <-] & K). change (hash <= limit) in K. lia.
  - split; [|easy]. intros _. splits; [lia|lia|]. now exists x.
Qed.
End Kernel.

(** ** Examples *)

Module KernelExample.
Definition p : platform := Platform SPH_LITTLE_ENDIAN true true.
Definition SHA256 (m : list Z) : list Z := repeat 7 32.
Lemma SHA256_ok m : length (SHA256 m) = 32%nat /\ bytes (SHA256 m).
Proof. split; [reflexivity|]. repeat constructor; discriminate. Qed.

Definition block_hash (i : Z) : list Z := [i; 0; 0; 0; 0; 0; 0; 0].
Definition new_block (height time flags : Z) (prev next : pointer) : CBlockIndex :=
  BlockIndex (block_hash height) prev next 0 0 [] height 0 0 flags 0 0 COutPoint_null 0 (zeros 8) 1 [] time 0x1c0fffff 0.
Definition b1 := new_block 0 1000 BLOCK_STAKE_MODIFIER None (Some 2%positive).
Definition b2 := new_block 1 1030 (BLOCK_PROOF_OF_STAKE .| BLOCK_STAKE_ENTROPY) (Some 1%positive) (Some 3%positive).
Definition b3 := new_block 2 90000 BLOCK_STAKE_MODIFIER (Some 2%positive) None.
Definition h : heap := <[3%positive := b3]> (<[2%positive := b2]> (<[1%positive := b1]> ∅)).
Definition index : gmap (list Z) positive :=
  <[block_hash 2 := 3%positive]> (<[block_hash 1 := 2%positive]> (<[block_hash 0 := 1%positive]> ∅)).

Lemma path2 : path h (Some 2%positive) [(2%positive, b2); (1%positive, b1)].
Proof. repeat (eapply path_block; [reflexivity|]); apply path_null. Qed.

Lemma h_ok : heap_ok h.
Proof.
  unfold h. eapply heap_ok_insert; [|reflexivity|repeat (eapply path_block; [reflexivity|]); apply path_null|reflexivity].
  eapply heap_ok_insert; [|reflexivity|repeat (eapply path_block; [reflexivity|]); apply path_null|reflexivity].
  eapply heap_ok_insert; [|reflexivity|apply path_null|reflexivity]. apply heap_ok_empty.
Qed.

Lemma h_links : links_ok h.
Proof.
  intros a b q H Q. unfold h in H.
  repeat (apply lookup_insert_Some in H as [[<- <-]|[_ H]]; [try (injection Q as <-; eexists; split; reflexivity); discriminate|]).
  exfalso. exact (lookup_empty_Some a b H).
Qed.

Definition coin : CTransaction := Transaction 1 1000 [] [TxOut (1000 * COIN) []] 0.
Definition from_block : CBlock := Block 1 [] [] 1000 0 0 [] [].
End KernelExample.

Lemma next_stake_modifier_witness :
  let h := KernelExample.h in let a := 2%positive in let b := KernelExample.b2 in let l := [(1%positive, KernelExample.b1)] in
  exists g r, last_where GeneratedStakeModifier ((a, b) :: l) = g :: r /\
  if GetBlockTime b / 600 <=? time_of g / 600
  then ComputeNextStakeModifier KernelExample.p KernelExample.SHA256 h KernelExample.index (Some a) = Some (Some (nStakeModifier g.2, false))
  else
    let start := GetBlockTime b / 600 * 600 - selection_interval in
    exists c chosen v, c ≡ₚ recent start ((a, b) :: l) /\ StronglySorted by_time c /\
      ComputeNextStakeModifier KernelExample.p KernelExample.SHA256 h KernelExample.index (Some a) = Some (Some (v, true)) /\
      length chosen = Nat.min 64 (length c) /\ List.NoDup chosen /\
      (forall i x, chosen !! i = Some x ->
         choice KernelExample.p KernelExample.SHA256 c (nStakeModifier g.2) (fun y => In y (firstn i chosen)) (stop_after start (S i)) x) /\
      word 64 v /\
      (forall i, 0 <= i -> Z.testbit v i = match chosen !! Z.to_nat i with Some x => Z.testbit (nFlags x.2) 1 | None => false end).
Proof.
  apply (next_stake_modifier KernelExample.p KernelExample.SHA256 KernelExample.h KernelExample.index 2 KernelExample.b2 [(1%positive, KernelExample.b1)]).
  - apply KernelExample.SHA256_ok.
  - apply KernelExample.h_ok.
  - apply KernelExample.path2.
  - repeat constructor.
  - intros x [<-|[<-|[]]]; [discriminate|reflexivity].
  - intros x [<-|[<-|[]]]; discriminate.
Defined.

(** Three candidates, younger than the sections of the first rounds: they are taken by age, and the second has the bit. *)
Example stake_modifier_value :
  let b3 := BlockIndex (KernelExample.block_hash 2) (Some 2%positive) None 0 0 [] 2 0 0 0 0 0 COutPoint_null 0 (zeros 8) 1 [] 20000 0 0 in
  ComputeNextStakeModifier KernelExample.p KernelExample.SHA256 (<[3%positive := b3]> KernelExample.h)
    KernelExample.index (Some 3%positive) = Some (Some (2, true)).
Proof. vm_compute. reflexivity. Qed.

Lemma stake_kernel_decides_witness :
  let hash := KernelExample.block_hash 0 in let txPrev := KernelExample.coin in let time := 100000 in
  exists l r, forward KernelExample.h (pnext KernelExample.b1) l /\
  CheckStakeKernelHash KernelExample.p KernelExample.SHA256 KernelExample.h KernelExample.index 0x1c0fffff KernelExample.from_block hash 81 txPrev
    (OutPoint (zeros 8) 0) time (zeros 8) (zeros 8) = Some r /\
  (r.1.1 = true <->
     nTime txPrev <= time /\ (b_nTime KernelExample.from_block + nStakeMinAge) mod 2 ^ 32 <= time /\
     exists x, List.find (late (GetBlockTime KernelExample.b1 + selection_interval)) l = Some x /\
       val (Hash KernelExample.p KernelExample.SHA256
              (WRITEDATA KernelExample.p 8 (nStakeModifier x.2) ++ WRITEDATA KernelExample.p 4 (b_nTime KernelExample.from_block) ++
               WRITEDATA KernelExample.p 4 81 ++ WRITEDATA KernelExample.p 4 (nTime txPrev) ++
               WRITEDATA KernelExample.p 4 0 ++ WRITEDATA KernelExample.p 4 time)) <=
       Z.quot (Z.quot (1000 * COIN * GetWeight (nTime txPrev) time) COIN) 86400 * compact_value 0x1c0fffff).
Proof.
  apply (stake_kernel_decides KernelExample.p KernelExample.SHA256 KernelExample.h KernelExample.index 0x1c0fffff
    KernelExample.from_block (KernelExample.block_hash 0) 81 KernelExample.coin (OutPoint (zeros 8) 0) 100000 (zeros 8) (zeros 8)
    1 KernelExample.b1 (TxOut (1000 * COIN) []));
    [discriminate|apply KernelExample.SHA256_ok|apply KernelExample.h_ok|apply KernelExample.h_links|reflexivity|reflexivity
    |vm_compute; split; congruence|vm_compute; split; congruence|vm_compute; split; congruence|reflexivity|vm_compute; split; congruence].
Defined.

(** The comment above [CheckStakeKernelHash] asks for a hash below target times weight; a hash equal to it is accepted. *)
Lemma kernel_accepts_equality :
  let limit := Z.quot (Z.quot (1000 * COIN * GetWeight 1000 100000) COIN) 86400 * compact_value 0x1c0fffff in
  let SHA256 (m : list Z) := map (fun i => limit / 256 ^ Z.of_nat i mod 256) (seq 0 32) in
  0 < limit < 2 ^ 256 /\ val (Hash KernelExample.p SHA256 []) = limit /\
  exists r, CheckStakeKernelHash KernelExample.p SHA256 KernelExample.h KernelExample.index 0x1c0fffff KernelExample.from_block
    (KernelExample.block_hash 0) 81 KernelExample.coin (OutPoint (zeros 8) 0) 100000 (zeros 8) (zeros 8) = Some r /\ r.1.1 = true.
Proof. intros limit SHA256. split; [split; reflexivity|]. split; [reflexivity|]. eexists. split; vm_compute; reflexivity. Qed.
