(* ===== verification/BlockTree.v ===== *)
(** * main.cpp: the tree of blocks and the best chain

    How a block enters the index ([AddToBlockIndex]) and how the best chain is
    switched ([SetBestChain], [Reorganize]).  An operation is a computation on
    the global variables that ends with a result, or does not return
    (a null pointer dereferenced, an assertion that fails).  The block
    database answers as it likes: every call that reads it, writes it or
    connects a block asks [answer] at its own moment; connecting a block also
    sets the two amounts of its object.  *)

From stdpp Require Import gmap list.
From Stdlib Require Import ZArith Lia.
From S2P Require Import Prelude SphTypes Uint256 Transaction BigNum Chain Consensus Kernel.
Local Open Scope Z_scope.

(** The global variables, the number of questions asked so far, and whether a block behind
    the new best one could not be connected (which the program does not record). *)
Record state := State {
  blocks : heap; mapBlockIndex : gmap (list Z) positive; setStakeSeen : gset (COutPoint * Z);
  pindexGenesisBlock : pointer; pindexBest : pointer; hashBestChain : list Z; nBestHeight : Z;
  nBestChainTrust : list Z; nBestInvalidTrust : list Z; pblockindexFBBHLast : pointer; asked : nat; gap : bool
}.
Definition initial : state := State ∅ ∅ ∅ None None (zeros 8) (-1) (zeros 8) (zeros 8) None 0 false.

Definition with_blocks v s := State v (mapBlockIndex s) (setStakeSeen s) (pindexGenesisBlock s) (pindexBest s) (hashBestChain s) (nBestHeight s) (nBestChainTrust s) (nBestInvalidTrust s) (pblockindexFBBHLast s) (asked s) (gap s).
Definition with_mapBlockIndex v s := State (blocks s) v (setStakeSeen s) (pindexGenesisBlock s) (pindexBest s) (hashBestChain s) (nBestHeight s) (nBestChainTrust s) (nBestInvalidTrust s) (pblockindexFBBHLast s) (asked s) (gap s).
Definition with_setStakeSeen v s := State (blocks s) (mapBlockIndex s) v (pindexGenesisBlock s) (pindexBest s) (hashBestChain s) (nBestHeight s) (nBestChainTrust s) (nBestInvalidTrust s) (pblockindexFBBHLast s) (asked s) (gap s).
Definition with_pindexGenesisBlock v s := State (blocks s) (mapBlockIndex s) (setStakeSeen s) v (pindexBest s) (hashBestChain s) (nBestHeight s) (nBestChainTrust s) (nBestInvalidTrust s) (pblockindexFBBHLast s) (asked s) (gap s).
Definition with_best pindex hash height trust s := State (blocks s) (mapBlockIndex s) (setStakeSeen s) (pindexGenesisBlock s) pindex hash height trust (nBestInvalidTrust s) None (asked s) (gap s).
Definition with_nBestInvalidTrust v s := State (blocks s) (mapBlockIndex s) (setStakeSeen s) (pindexGenesisBlock s) (pindexBest s) (hashBestChain s) (nBestHeight s) (nBestChainTrust s) v (pblockindexFBBHLast s) (asked s) (gap s).
Definition with_pblockindexFBBHLast v s := State (blocks s) (mapBlockIndex s) (setStakeSeen s) (pindexGenesisBlock s) (pindexBest s) (hashBestChain s) (nBestHeight s) (nBestChainTrust s) (nBestInvalidTrust s) v (asked s) (gap s).
Definition with_asked v s := State (blocks s) (mapBlockIndex s) (setStakeSeen s) (pindexGenesisBlock s) (pindexBest s) (hashBestChain s) (nBestHeight s) (nBestChainTrust s) (nBestInvalidTrust s) (pblockindexFBBHLast s) v (gap s).
Definition with_gap v s := State (blocks s) (mapBlockIndex s) (setStakeSeen s) (pindexGenesisBlock s) (pindexBest s) (hashBestChain s) (nBestHeight s) (nBestChainTrust s) (nBestInvalidTrust s) (pblockindexFBBHLast s) (asked s) v.

(** ** Computations *)

Definition M (A : Type) : Type := state -> option (A * state).
#[export] Instance M_ret : MRet M := fun A a s => Some (a, s).
#[export] Instance M_bind : MBind M := fun A B f m s => match m s with Some (a, s) => f a s | None => None end.

Definition return_ {A} (a : A) : M A := mret a.
Definition get {A} (f : state -> A) : M A := fun s => Some (f s, s).
Definition modify (f : state -> state) : M unit := fun s => Some (tt, f s).
Definition of_option {A} (o : option A) : M A := fun s => match o with Some a => Some (a, s) | None => None end.

(** The object a pointer leads to, and an assignment to its members. *)
Definition load (pindex : pointer) : M CBlockIndex := fun s => match deref (blocks s) pindex with Some b => Some (b, s) | None => None end.
Definition store (pindex : positive) (f : CBlockIndex -> CBlockIndex) : M unit :=
  b ← load (Some pindex); modify (fun s => with_blocks (<[pindex := f b]> (blocks s)) s).

Section Operations.
  Context {BIGNUM : Type} {ops : BN_ops BIGNUM}.
  Variable p : platform.
  Variable SHA256 : list Z -> list Z.
  Variable fTestNet : bool.
  Variables hashGenesisBlock hashGenesisBlockTestNet : list Z.
(** What the database answers to its [n]-th question, and the amounts [ConnectBlock] sets before it
    returns, if it does. *)
  Variable answer : nat -> bool.
  Variable amounts : nat -> option (Z * Z).

Definition genesis_hash : list Z := if negb fTestNet then hashGenesisBlock else hashGenesisBlockTestNet.

(** A call of the database that reports success. *)
Definition ask : M bool :=
  n ← get asked; modify (with_asked (S n));; return_ (answer n).

(** [ConnectBlock (txdb, pindex)] *)
Definition ConnectBlock (pindex : positive) : M bool :=
  n ← get asked;
  match amounts n with Some (mint, supply) => store pindex (with_money mint supply) | None => return_ tt end;;
  ask.

(** The assignments that precede the message of [InvalidChainFound], and its pointers. *)
Definition InvalidChainFound (pindexNew : positive) : M unit :=
  bNew ← load (Some pindexNew);
  invalid ← get nBestInvalidTrust;
  (if op_greater 8 (nChainTrust bNew) invalid then modify (with_nBestInvalidTrust (nChainTrust bNew)) else return_ tt);;
  load (pprev bNew);;
  best ← get pindexBest;
  bBest ← load best;
  if negb (nHeight bBest =? 0) then load (pprev bBest);; return_ tt else return_ tt.

Definition SetBestChainInner (pindexNew : positive) : M bool :=
  connected ← ConnectBlock pindexNew;
  written ← (if (connected : bool) then ask else return_ false);
  if negb written then InvalidChainFound pindexNew;; return_ false
  else
    committed ← ask;
    if negb committed then return_ false
    else
      bNew ← load (Some pindexNew);
      prev ← of_option (pprev bNew);
      store prev (with_pnext (Some pindexNew));;
      return_ true.

(** [while (plonger->nHeight > pfork->nHeight)]: the pointer, or an error. *)
Fixpoint lower_loop (fuel : nat) (height : Z) (plonger : positive) : M (option positive) :=
  match fuel with
  | O => of_option None
  | S fuel =>
      b ← load (Some plonger);
      if height <? nHeight b then
        match pprev b with Some plonger => lower_loop fuel height plonger | None => return_ None end
      else return_ (Some plonger)
  end.
(** [while (pfork != plonger)] *)
Fixpoint fork_loop (fuel : nat) (pfork plonger : positive) : M (option positive) :=
  match fuel with
  | O => of_option None
  | S fuel =>
      if decide (pfork = plonger) then return_ (Some pfork)
      else
        bFork ← load (Some pfork);
        bLonger ← load (Some plonger);
        r ← lower_loop (S (Z.to_nat (nHeight bLonger))) (nHeight bFork) plonger;
        match r with
        | None => return_ None
        | Some plonger =>
            if decide (pfork = plonger) then return_ (Some pfork)
            else match pprev bFork with Some pfork => fork_loop fuel pfork plonger | None => return_ None end
        end
  end.

(** [for (pindex = ...; pindex != pfork; pindex = pindex->pprev)] *)
Fixpoint until_fork (fuel : nat) (pfork : positive) (pindex : pointer) : M (list positive) :=
  match fuel with
  | O => of_option None
  | S fuel =>
      if decide (pindex = Some pfork) then return_ []
      else
        a ← of_option pindex;
        b ← load pindex;
        l ← until_fork fuel pfork (pprev b);
        return_ (a :: l)
  end.

(** Reading each block, and disconnecting it or connecting it; false at the first failure. *)
Fixpoint disconnect_loop (vDisconnect : list positive) : M bool :=
  match vDisconnect with
  | [] => return_ true
  | _ :: vDisconnect =>
      read ← ask;
      if negb read then return_ false
      else disconnected ← ask; if negb disconnected then return_ false else disconnect_loop vDisconnect
  end.
Fixpoint connect_loop (vConnect : list positive) : M bool :=
  match vConnect with
  | [] => return_ true
  | pindex :: vConnect =>
      read ← ask;
      if negb read then return_ false
      else connected ← ConnectBlock pindex; if negb connected then return_ false else connect_loop vConnect
  end.

(** [if (pindex->pprev) pindex->pprev->pnext = ...] *)
Fixpoint link_loop (next : positive -> pointer) (v : list positive) : M unit :=
  match v with
  | [] => return_ tt
  | pindex :: v =>
      b ← load (Some pindex);
      match pprev b with Some prev => store prev (with_pnext (next pindex)) | None => return_ tt end;;
      link_loop next v
  end.

Definition Reorganize (pindexNew : positive) : M bool :=
  best ← get pindexBest;
  pindexBest ← of_option best;
  bBest ← load best;
  pfork ← fork_loop (S (Z.to_nat (nHeight bBest))) pindexBest pindexNew;
  match pfork with
  | None => return_ false
  | Some pfork =>
      bNew ← load (Some pindexNew);
      vDisconnect ← until_fork (S (S (Z.to_nat (nHeight bBest)))) pfork best;
      vConnect ← until_fork (S (S (Z.to_nat (nHeight bNew)))) pfork (Some pindexNew);
      let vConnect := reverse vConnect in
      disconnected ← disconnect_loop vDisconnect;
      if negb disconnected then return_ false
      else
        connected ← connect_loop vConnect;
        if negb connected then return_ false
        else
          written ← ask;
          if negb written then return_ false
          else
            committed ← ask;
            if negb committed then return_ false
            else
              link_loop (fun _ => None) vDisconnect;;
              link_loop (fun pindex => Some pindex) vConnect;;
              return_ true
  end.

(** The first block of the new chain with more trust than the best one, and the blocks after it,
    the last one first. *)
Fixpoint intermediate_loop (fuel : nat) (trust : list Z) (pindexIntermediate : positive) : M (positive * list positive) :=
  match fuel with
  | O => of_option None
  | S fuel =>
      b ← load (Some pindexIntermediate);
      match pprev b with
      | None => return_ (pindexIntermediate, [])
      | Some prev =>
          bPrev ← load (Some prev);
          if op_greater 8 (nChainTrust bPrev) trust then
            r ← intermediate_loop fuel trust prev;
            return_ (r.1, pindexIntermediate :: r.2)
          else return_ (pindexIntermediate, [])
      end
  end.

(** Connecting the postponed blocks, which stops without an error at the first failure. *)
Fixpoint postponed_loop (vpindexSecondary : list positive) : M unit :=
  match vpindexSecondary with
  | [] => return_ tt
  | pindex :: rest =>
      read ← ask;
      if negb read then modify (with_gap true)
      else
        begun ← ask;
        if negb begun then modify (with_gap true)
        else
          connected ← SetBestChainInner pindex;
          if negb connected then modify (with_gap true) else postponed_loop rest
  end.

(** The assignments at the end of [SetBestChain], and the pointers of its message. *)
Definition new_best (hash : list Z) (pindexNew : positive) : M unit :=
  b ← load (Some pindexNew);
  modify (with_best (Some pindexNew) hash (nHeight b) (nChainTrust b));;
  if negb (nHeight b =? 0) then load (pprev b);; return_ tt else return_ tt.

Definition SetBestChain (hash hashPrevBlock : list Z) (pindexNew : positive) : M bool :=
  begun ← ask;
  if negb begun then return_ false
  else
    genesis ← get pindexGenesisBlock;
    best_hash ← get hashBestChain;
    if match genesis with None => op_equal 8 hash genesis_hash | Some _ => false end then
      ask;;
      committed ← ask;
      if negb committed then return_ false
      else modify (with_pindexGenesisBlock (Some pindexNew));; new_best hash pindexNew;; return_ true
    else if op_equal 8 hashPrevBlock best_hash then
      connected ← SetBestChainInner pindexNew;
      if negb connected then return_ false else new_best hash pindexNew;; return_ true
    else
      best ← get pindexBest;
      bNew ← load (Some pindexNew);
      r ← match pprev bNew with
          | None => return_ (pindexNew, [])
          | Some _ => bBest ← load best; intermediate_loop (S (Z.to_nat (nHeight bNew))) (nChainTrust bBest) pindexNew
          end;
      switched ← Reorganize r.1;
      if negb switched then InvalidChainFound pindexNew;; return_ false
      else postponed_loop (reverse r.2);; new_best hash pindexNew;; return_ true.

(** The new object, up to the test of the checkpoints; [None] where [AddToBlockIndex] returns false.
    [block] has the hash [hash]. *)
Definition new_index (nFile nBlockPos : Z) (block : CBlock) (hash hashProof : list Z) : M (option CBlockIndex) :=
  map ← get mapBlockIndex;
  h ← get blocks;
  let new := with_phashBlock hash (CBlockIndex_of nFile nBlockPos block) in
  new ← match map !! hashPrevBlock block with
        | Some prev => bPrev ← load (Some prev); return_ (with_nHeight (nHeight bPrev + 1) (with_pprev (Some prev) new))
        | None => return_ new
        end;
  trust ← match pprev new with Some prev => bPrev ← load (Some prev); return_ (nChainTrust bPrev) | None => return_ (zeros 8) end;
  block_trust ← of_option (GetBlockTrust p new);
  let new := with_nChainTrust (op_add 8 trust block_trust) new in
  let '(entropy_set, new) := SetStakeEntropyBit (Get64 hash 0 .& 1) new in
  if negb entropy_set then return_ None
  else
    let new := with_hashProof hashProof new in
    modifier ← of_option (ComputeNextStakeModifier p SHA256 h map (pprev new));
    match modifier with
    | None => return_ None
    | Some (nStakeModifier, fGeneratedStakeModifier) =>
        let new := SetStakeModifier nStakeModifier fGeneratedStakeModifier new in
        checksum ← of_option (GetStakeModifierChecksum p SHA256 fTestNet h hashGenesisBlock hashGenesisBlockTestNet new);
        let new := with_nStakeModifierChecksum checksum new in
        if negb (CheckStakeModifierCheckpoints fTestNet (nHeight new) checksum) then return_ None
        else return_ (Some new)
    end.

(** An object that is not entered in the map is left out of the heap. *)
Definition AddToBlockIndex (nFile nBlockPos : Z) (block : CBlock) (hash hashProof : list Z) : M bool :=
  map ← get mapBlockIndex;
  if match map !! hash with Some _ => true | None => false end then return_ false
  else
    new ← new_index nFile nBlockPos block hash hashProof;
    match new with
    | None => return_ false
    | Some new =>
        h ← get blocks;
        let pindexNew := fresh (dom h) in
        modify (fun s => with_mapBlockIndex (<[hash := pindexNew]> map) (with_blocks (<[pindexNew := new]> h) s));;
        seen ← get setStakeSeen;
        (if IsProofOfStake new then modify (with_setStakeSeen ({[(prevoutStake new, nStakeTime new)]} ∪ seen)) else return_ tt);;
        begun ← ask;
        if negb begun then return_ false
        else
          ask;;
          committed ← ask;
          if negb committed then return_ false
          else
            best_trust ← get nBestChainTrust;
            if op_greater 8 (nChainTrust new) best_trust then SetBestChain hash (hashPrevBlock block) pindexNew
            else return_ true
    end.
End Operations.
