(* ===== verification/BlockTreeProof.v ===== *)
(** * Lemmas on the tree of blocks

    The addresses of a branch ([line]), the heaps that have the same tree, the
    links of the main chain, and the operations by the rules of [wp]: a computation meets a
    postcondition when it returns, in a state that satisfies it. *)

From stdpp Require Import gmap list.
From Stdlib Require Import ZArith Lia.
From S2P Require Import Prelude SphTypes Uint256 Uint256Proof Transaction BigNum Chain ChainProof Consensus Kernel BlockTree.
Local Open Scope Z_scope.

(** ** Branches *)

Inductive line (h : heap) : pointer -> list positive -> Prop :=
| line_null : line h None []
| line_block a b l : h !! a = Some b -> line h (pprev b) l -> line h (Some a) (a :: l).
#[export] Hint Constructors line : core.

Lemma line_path h p l : line h p l <-> exists l', path h p l' /\ l = map fst l'.
Proof.
  split.
  - induction 1 as [|a b l Hb H (l' & P & ->)]; [exists []; eauto|]. exists ((a, b) :: l'). eauto.
  - intros (l' & P & ->). induction P; cbn [map fst]; eauto.
Qed.

Lemma line_det h p l1 l2 : line h p l1 -> line h p l2 -> l1 = l2.
Proof.
  intros H. revert l2. induction H as [|a b l Hb H IH]; intros l2 H2; inversion H2; subst; [reflexivity|].
  simplify_eq. f_equal. now apply IH.
Qed.

Lemma line_exists h p : heap_ok h -> valid h p -> exists l, line h p l.
Proof. intros O V. destruct (path_exists h O p V) as [l P]. exists (map fst l). apply line_path. eauto. Qed.

Lemma line_nodup h p l : line h p l -> List.NoDup l.
Proof. intros H. apply line_path in H as (l' & P & ->). apply NoDup_ListNoDup. now apply (path_nodup h p). Qed.

Lemma line_height h a b l : heap_ok h -> h !! a = Some b -> line h (Some a) (a :: l) -> nHeight b = Z.of_nat (length l).
Proof.
  intros O Hb L. apply line_path in L as (l' & P & E). destruct l' as [|[a' b'] l']; [easy|].
  cbn [map fst] in E. injection E as <- ->. inversion P; subst. simplify_eq.
  rewrite length_map. now apply (path_height h O (Some a) a b).
Qed.

Lemma line_suffix h p l1 a l2 : line h p (l1 ++ a :: l2) -> line h (Some a) (a :: l2).
Proof.
  revert p. induction l1 as [|x l1 IH]; intros p H; cbn [app] in H; [|inversion H; subst; eauto].
  inversion H; subst. eauto.
Qed.

(** ** Heaps with the same tree *)

(** Everything but the links of the main chain and the amounts. *)
Definition tree_part (b : CBlockIndex) : CBlockIndex := with_money 0 0 (with_pnext None b).
Definition same_tree (h h' : heap) : Prop := forall a, tree_part <$> h !! a = tree_part <$> h' !! a.

#[export] Instance same_tree_equivalence : Equivalence same_tree.
Proof.
  split; intros h; [easy|intros h' H a; now rewrite H|].
  intros h' h'' H H' a. now rewrite H, H'.
Qed.

Lemma same_tree_lookup h h' a b : same_tree h h' -> h !! a = Some b -> exists b', h' !! a = Some b' /\ tree_part b' = tree_part b.
Proof.
  intros S H. specialize (S a). rewrite H in S. destruct (h' !! a) as [b'|]; [|easy].
  exists b'. split; [reflexivity|]. apply (inj Some) in S. now symmetry.
Qed.

Lemma tree_part_fields b b' :
  tree_part b' = tree_part b ->
  pprev b' = pprev b /\ nHeight b' = nHeight b /\ phashBlock b' = phashBlock b /\ nChainTrust b' = nChainTrust b /\
  nFlags b' = nFlags b /\ i_nTime b' = i_nTime b /\ i_nBits b' = i_nBits b.
Proof. unfold tree_part. destruct b, b'. cbn. intros [=]. subst. splits; reflexivity. Qed.

Lemma same_tree_store h a b f :
  h !! a = Some b -> tree_part (f b) = tree_part b -> same_tree h (<[a := f b]> h).
Proof.
  intros Hb F c. destruct (decide (a = c)) as [->|N]; [now rewrite lookup_insert_eq, Hb; cbn; rewrite F|now rewrite lookup_insert_ne].
Qed.

#[export] Instance line_proper : Proper (same_tree ==> eq ==> eq ==> iff) line.
Proof.
  assert (A : forall h h' p l, same_tree h h' -> line h p l -> line h' p l).
  { intros h h' p l S. induction 1 as [|a b l Hb H IH]; [constructor|].
    destruct (same_tree_lookup h h' a b S Hb) as (b' & Hb' & E). apply tree_part_fields in E as [E _].
    econstructor; [exact Hb'|now rewrite E]. }
  intros h h' S p p' <- l l' <-. split; apply A; [exact S|now symmetry].
Qed.

(** ** The main chain *)

(** The block before [a] in a branch listed from its tip. *)
Fixpoint next_in (l : list positive) (a : positive) : pointer :=
  match l with
  | x :: (y :: _) as r => if decide (a = y) then Some x else next_in r a
  | _ => None
  end.
(** [pnext] is set along the branch and nowhere else. *)
Definition links (h : heap) (l : list positive) : Prop := forall a b, h !! a = Some b -> pnext b = next_in l a.

Lemma next_in_not l a : ~ In a l -> next_in l a = None.
Proof.
  induction l as [|x [|y l] IH]; [easy..|]. intros N. cbn [next_in]. destruct (decide (a = y)) as [->|D].
  - exfalso. apply N. right. now left.
  - apply IH. intros I. apply N. now right.
Qed.

Lemma next_in_head x l : List.NoDup (x :: l) -> next_in (x :: l) x = None.
Proof.
  intros N. inversion N as [|? ? N1 N2]; subst. destruct l as [|y l]; [reflexivity|]. cbn [next_in].
  destruct (decide (x = y)) as [->|D]; [exfalso; apply N1; now left|].
  now apply (next_in_not (y :: l)).
Qed.

Lemma next_in_some l a x : next_in l a = Some x -> exists l1 l2, l = l1 ++ x :: a :: l2.
Proof.
  induction l as [|y [|z l] IH]; [easy..|]. cbn [next_in]. destruct (decide (a = z)) as [->|D].
  - intros [= ->]. now exists [], l.
  - intros E. destruct (IH E) as (l1 & l2 & E'). exists (y :: l1), l2. exact (f_equal (cons y) E').
Qed.

Lemma next_in_defined l a : In a l -> head l = Some a \/ is_Some (next_in l a).
Proof.
  induction l as [|x [|y l] IH]; [easy|intros [->|[]]; now left|]. intros [->|I]; [now left|]. right. cbn [next_in].
  destruct (decide (a = y)); [eauto|]. destruct (IH I) as [[= ->]|S]; [easy|exact S].
Qed.

(** Taking the tip off, and putting a block on. *)
Lemma links_drop h x y l b :
  List.NoDup (x :: y :: l) -> links h (x :: y :: l) -> h !! y = Some b ->
  links (<[y := with_pnext None b]> h) (y :: l).
Proof.
  intros N L Hb a c H. inversion N as [|? ? N1 N2]; subst.
  apply lookup_insert_Some in H as [[<- <-]|[D H]]; [symmetry; now apply next_in_head|].
  rewrite (L a c H). cbn [next_in]. destruct (decide (a = y)); [congruence|reflexivity].
Qed.

Lemma links_push h x y l b :
  List.NoDup (x :: y :: l) -> links h (y :: l) -> h !! y = Some b ->
  links (<[y := with_pnext (Some x) b]> h) (x :: y :: l).
Proof.
  intros N L Hb a c H. inversion N as [|? ? N1 N2]; subst. cbn [next_in].
  apply lookup_insert_Some in H as [[<- <-]|[D H]]; [now destruct (decide (y = y))|].
  destruct (decide (a = y)); [congruence|]. now apply (L a c).
Qed.

(** The main chain is linked in both directions. *)
Lemma links_links_ok h l t : line h (Some t) l -> links h l -> links_ok h.
Proof.
  intros Hl L a b q Hb Q. rewrite (L a b Hb) in Q. apply next_in_some in Q as (l1 & l2 & ->).
  pose proof (line_suffix h _ l1 q _ Hl) as S. inversion S as [|? b' ? Hb' S']; subst. exists b'. split; [exact Hb'|].
  now inversion S'.
Qed.

(** ** Computations that return *)

Definition wp {A} (m : M A) (Q : A -> state -> Prop) (s : state) : Prop :=
  match m s with Some (a, s') => Q a s' | None => False end.

Lemma wp_ret {A} (a : A) Q s : Q a s -> wp (return_ a) Q s.
Proof. easy. Qed.
Lemma wp_then {A B} (m : M A) (f : A -> M B) Q s : wp m (fun a s' => wp (f a) Q s') s -> wp (m ≫= f) Q s.
Proof. unfold wp, mbind, M_bind. now destruct (m s) as [[a s']|]. Qed.
Lemma wp_read {A} (f : state -> A) Q s : Q (f s) s -> wp (get f) Q s.
Proof. easy. Qed.
Lemma wp_update f Q s : Q tt (f s) -> wp (modify f) Q s.
Proof. easy. Qed.
Lemma wp_some {A} (a : A) Q s : Q a s -> wp (of_option (Some a)) Q s.
Proof. easy. Qed.
Lemma wp_weaken {A} (m : M A) (P Q : A -> state -> Prop) s : wp m P s -> (forall a s', P a s' -> Q a s') -> wp m Q s.
Proof. unfold wp. destruct (m s) as [[a s']|]; auto. Qed.
Lemma wp_load a b Q s : blocks s !! a = Some b -> Q b s -> wp (load (Some a)) Q s.
Proof. unfold wp, load, deref. cbn. now intros ->. Qed.
Lemma wp_store a f b Q s :
  blocks s !! a = Some b -> Q tt (with_blocks (<[a := f b]> (blocks s)) s) -> wp (store a f) Q s.
Proof. intros Hb HQ. unfold store. apply wp_then. now apply (wp_load a b). Qed.

(** A step that leaves the tree, the index and the best chain as they are, and the links. *)
Definition amounts_aside (b : CBlockIndex) : CBlockIndex := with_money 0 0 b.
Record quiet (s s' : state) : Prop := {
  quiet_blocks : forall a, amounts_aside <$> blocks s !! a = amounts_aside <$> blocks s' !! a;
  quiet_index : mapBlockIndex s' = mapBlockIndex s;
  quiet_genesis : pindexGenesisBlock s' = pindexGenesisBlock s;
  quiet_best : pindexBest s' = pindexBest s /\ hashBestChain s' = hashBestChain s /\ nBestHeight s' = nBestHeight s /\
    nBestChainTrust s' = nBestChainTrust s;
  quiet_last : pblockindexFBBHLast s' = pblockindexFBBHLast s;
  quiet_gap : gap s' = gap s
}.
#[export] Instance quiet_preorder : PreOrder quiet.
Proof.
  split; intros s; [split; try split; easy|]. intros s' s'' [A1 A2 A3 A4 A5 A6] [B1 B2 B3 B4 B5 B6].
  split; [intros a; now rewrite A1, B1|congruence..| |congruence|congruence]. intuition congruence.
Qed.

Lemma quiet_lookup s s' a b :
  quiet s s' -> blocks s !! a = Some b -> exists b', blocks s' !! a = Some b' /\ tree_part b' = tree_part b /\ pnext b' = pnext b.
Proof.
  intros Qt H. pose proof (quiet_blocks s s' Qt a) as S. rewrite H in S. destruct (blocks s' !! a) as [b'|]; [|easy].
  exists b'. apply (inj Some) in S. destruct b, b'. unfold amounts_aside in S. cbn in S. injection S. intros. subst. easy.
Qed.
Lemma quiet_tree s s' : quiet s s' -> same_tree (blocks s) (blocks s').
Proof.
  intros Qt a. pose proof (quiet_blocks s s' Qt a) as S.
  destruct (blocks s !! a) as [b|] eqn:E; [|now destruct (blocks s' !! a)].
  destruct (quiet_lookup s s' a b Qt E) as (b' & -> & T & _). cbn. now rewrite T.
Qed.
Lemma quiet_links s s' l : quiet s s' -> links (blocks s) l -> links (blocks s') l.
Proof.
  intros Qt L a b' H. pose proof (quiet_blocks s s' Qt a) as S. destruct (blocks s !! a) as [b|] eqn:E; [|now rewrite H in S].
  destruct (quiet_lookup s s' a b Qt E) as (b'' & E' & _ & N). rewrite H in E'. injection E' as <-. rewrite N. now apply L.
Qed.

(** A step that may also move the links. *)
Record relinked (s s' : state) : Prop := {
  relinked_tree : same_tree (blocks s) (blocks s');
  relinked_index : mapBlockIndex s' = mapBlockIndex s;
  relinked_genesis : pindexGenesisBlock s' = pindexGenesisBlock s;
  relinked_best : pindexBest s' = pindexBest s /\ hashBestChain s' = hashBestChain s /\ nBestHeight s' = nBestHeight s /\
    nBestChainTrust s' = nBestChainTrust s
}.
#[export] Instance relinked_preorder : PreOrder relinked.
Proof.
  split; intros s; [split; easy|]. intros s' s'' [A1 A2 A3 A4] [B1 B2 B3 B4].
  split; [now transitivity (blocks s')|congruence..|]. intuition congruence.
Qed.
Lemma quiet_relinked s s' : quiet s s' -> relinked s s'.
Proof. intros Qt. split; try apply Qt. now apply quiet_tree. Qed.
#[export] Hint Resolve quiet_relinked : core.

Lemma relinked_lookup s s' a b : relinked s s' -> blocks s !! a = Some b ->
  exists b', blocks s' !! a = Some b' /\ tree_part b' = tree_part b.
Proof. intros R. apply same_tree_lookup, R. Qed.

(** ** The operations on the best chain *)

Section Best.
  Variables answer : nat -> bool.
  Variable amounts : nat -> option (Z * Z).
  Abbreviation ask := (ask answer).
  Abbreviation ConnectBlock := (ConnectBlock answer amounts).

Lemma wp_ask s : wp ask (fun _ s' => quiet s s') s.
Proof. apply wp_then, wp_read, wp_then, wp_update, wp_ret. split; try split; easy. Qed.

Lemma wp_ConnectBlock a s : is_Some (blocks s !! a) -> wp (ConnectBlock a) (fun _ s' => quiet s s') s.
Proof.
  intros [b Hb]. unfold BlockTree.ConnectBlock. apply wp_then, wp_read, wp_then.
  apply (wp_weaken _ (fun _ s' => quiet s s')).
  - destruct (amounts (asked s)) as [[mint supply]|]; [|apply wp_ret; reflexivity].
    apply (wp_store a _ b); [exact Hb|]. split; try split; try easy. cbn [blocks with_blocks]. intros c.
    destruct (decide (a = c)) as [->|N]; [now rewrite lookup_insert_eq, Hb|now rewrite lookup_insert_ne].
  - intros ? s' Qt. eapply wp_weaken; [apply wp_ask|]. intros ? s'' Qt'. cbn in *. now transitivity s'.
Qed.

(** The pointers [InvalidChainFound] follows. *)
Definition best_pointers (s : state) : Prop :=
  exists t b, pindexBest s = Some t /\ blocks s !! t = Some b /\ (nHeight b <> 0 -> exists q, pprev b = Some q /\ is_Some (blocks s !! q)).
Definition has_prev (s : state) (a : positive) : Prop :=
  exists b q, blocks s !! a = Some b /\ pprev b = Some q /\ is_Some (blocks s !! q).

Lemma best_pointers_relinked s s' : relinked s s' -> best_pointers s -> best_pointers s'.
Proof.
  intros R (t & b & T & Hb & P). destruct (relinked_lookup s s' t b R Hb) as (b' & Hb' & F).
  apply tree_part_fields in F as (F1 & F2 & _). exists t, b'. destruct R as [R1 R2 R3 (R4 & _)]. rewrite R4. splits; [exact T|exact Hb'|].
  rewrite F1, F2. intros N. destruct (P N) as (q & Q & [c Hc]). exists q. split; [exact Q|].
  destruct (same_tree_lookup _ _ q c R1 Hc) as (c' & Hc' & _). now exists c'.
Qed.
Lemma has_prev_relinked s s' a : relinked s s' -> has_prev s a -> has_prev s' a.
Proof.
  intros R (b & q & Hb & Q & [c Hc]). destruct (relinked_lookup s s' a b R Hb) as (b' & Hb' & F).
  apply tree_part_fields in F as (F1 & _). destruct (relinked_lookup s s' q c R Hc) as (c' & Hc' & _).
  exists b', q. rewrite F1. splits; [exact Hb'|exact Q|now exists c'].
Qed.

Lemma wp_InvalidChainFound a s :
  has_prev s a -> best_pointers s -> wp (InvalidChainFound a) (fun _ s' => quiet s s') s.
Proof.
  intros (b & q & Hb & Q & [c Hc]) (t & d & T & Hd & P). unfold InvalidChainFound.
  apply wp_then, (wp_load a b); [exact Hb|]. apply wp_then, wp_read, wp_then.
  apply (wp_weaken _ (fun _ s' => quiet s s' /\ blocks s' = blocks s)).
  { destruct (op_greater _ _ _); [apply wp_update|apply wp_ret]; (split; [|reflexivity]); split; try split; easy. }
  intros ? s' [Qt B]. rewrite Q. apply wp_then, (wp_load q c); [now rewrite B|]. apply wp_then, wp_read.
  destruct (quiet_best s s' Qt) as [-> _]. rewrite T. apply wp_then, (wp_load t d); [now rewrite B|].
  destruct (Z.eqb_spec (nHeight d) 0) as [E|E]; cbn [negb]; [now apply wp_ret|].
  destruct (P E) as (r & -> & [e He]). apply wp_then, (wp_load r e); [now rewrite B|]. now apply wp_ret.
Qed.

(** A step that appends a block to a linked branch. *)
Definition pushed (a : positive) (s s' : state) : Prop :=
  relinked s s' /\ gap s' = gap s /\
  forall l, line (blocks s) (Some a) (a :: l) -> links (blocks s) l -> links (blocks s') (a :: l).

Lemma store_relinked s a b v : blocks s !! a = Some b -> relinked s (with_blocks (<[a := with_pnext v b]> (blocks s)) s).
Proof. intros Hb. split; try split; try easy. cbn. now apply (same_tree_store (blocks s) a b (with_pnext v)). Qed.

Lemma wp_SetBestChainInner a s :
  has_prev s a -> best_pointers s ->
  wp (SetBestChainInner answer amounts a) (fun r s' => if (r : bool) then pushed a s s' else quiet s s') s.
Proof.
  intros HP BP. unfold SetBestChainInner. apply wp_then.
  assert (Ha : is_Some (blocks s !! a)) by (destruct HP as (b & q & Hb & _); eauto).
  eapply wp_weaken; [now apply wp_ConnectBlock|]. intros connected s1 Q1. cbn in Q1. apply wp_then.
  apply (wp_weaken _ (fun _ s' => quiet s s')).
  { destruct connected; [|now apply wp_ret]. eapply wp_weaken; [apply wp_ask|]. intros ? s2 Q2. cbn in *. now transitivity s1. }
  clear s1 Q1. intros written s1 Q1. destruct written; cbn [negb].
  2: { apply wp_then. eapply wp_weaken; [apply wp_InvalidChainFound|]; [eapply has_prev_relinked; eauto|eapply best_pointers_relinked; eauto|].
       intros ? s2 Q2. apply wp_ret. cbn in *. now transitivity s1. }
  apply wp_then. eapply wp_weaken; [apply wp_ask|]. intros committed s2 Q2. cbn in Q2.
  assert (Q : quiet s s2) by now transitivity s1. clear s1 Q1 Q2.
  destruct committed; cbn [negb]; [|now apply wp_ret].
  destruct (has_prev_relinked s s2 a ltac:(eauto) HP) as (b & q & Hb & Pq & [c Hc]).
  apply wp_then, (wp_load a b); [exact Hb|]. rewrite Pq. apply wp_then, wp_some, wp_then, (wp_store q _ c); [exact Hc|]. apply wp_ret.
  pose proof (store_relinked s2 q c (Some a) Hc) as R. split; [transitivity s2; eauto|]. split; [apply Q|].
  intros l L K. assert (L2 : line (blocks s2) (Some a) (a :: l)) by (rewrite <- (quiet_tree s s2 Q); exact L).
  inversion L2 as [|? ? ? Hb' L3]; subst. rewrite Hb in Hb'. injection Hb' as <-. rewrite Pq in L3.
  inversion L3 as [|? ? l' Hc' L4]; subst. apply links_push; [|now apply (quiet_links s)|exact Hc].
  now apply (line_nodup (blocks s2) (Some a)).
Qed.
End Best.

(** ** Finding the fork *)

Section Fork.
  Variable s : state.
  Hypothesis ok : heap_ok (blocks s).

Lemma wp_lower_loop fuel height a l :
  line (blocks s) (Some a) l -> (length l <= fuel)%nat -> 0 <= height ->
  wp (lower_loop fuel height a)
    (fun r s' => s' = s /\ exists l1 c l2, r = Some c /\ l = l1 ++ c :: l2 /\ Z.of_nat (length l2) <= height) s.
Proof.
  revert a l. induction fuel as [|fuel IH]; intros a l L F H; inversion L as [|? b l' Hb L']; subst; [cbn in F; lia|].
  cbn [lower_loop]. apply wp_then, (wp_load a b); [exact Hb|].
  rewrite (line_height (blocks s) a b l' ok Hb L). destruct (Z.ltb_spec height (Z.of_nat (length l'))) as [C|C].
  - destruct (pprev b) as [q|] eqn:Q; inversion L' as [|? c l'' Hc L'']; subst; [|cbn in C; lia].
    eapply wp_weaken; [apply (IH q (q :: l'')); [exact L'|cbn in F |- *; lia|exact H]|].
    intros r s' (-> & l1 & x & l2 & -> & E & K). split; [reflexivity|]. exists (a :: l1), x, l2. rewrite E. easy.
  - apply wp_ret. split; [reflexivity|]. now exists [], a, l'.
Qed.

  Variable root : positive.
  Hypothesis one_root : forall a b, blocks s !! a = Some b -> pprev b = None -> a = root.

Lemma wp_fork_loop fuel f g lf lg :
  line (blocks s) (Some f) lf -> line (blocks s) (Some g) lg -> (length lf <= fuel)%nat ->
  wp (fork_loop fuel f g)
    (fun r s' => s' = s /\ exists x d c l, r = Some x /\ lf = d ++ x :: l /\ lg = c ++ x :: l) s.
Proof.
  revert f g lf lg. induction fuel as [|fuel IH]; intros f g lf lg Lf Lg F; inversion Lf as [|? bf lf' Hf Lf']; subst; [cbn in F; lia|].
  inversion Lg as [|? bg lg' Hg Lg']; subst.
  assert (Same : forall c l2, line (blocks s) (Some c) (c :: l2) -> f = c -> l2 = lf').
  { intros c l2 Lc ->. pose proof (line_det _ _ _ _ Lf Lc) as E. now injection E. }
  cbn [fork_loop]. destruct (decide (f = g)) as [E|N].
  { apply wp_ret. split; [reflexivity|]. exists f, [], [], lf'. rewrite (Same g lg' Lg E). subst. easy. }
  apply wp_then, (wp_load f bf); [exact Hf|]. apply wp_then, (wp_load g bg); [exact Hg|]. apply wp_then.
  rewrite (line_height _ g bg lg' ok Hg Lg), (line_height _ f bf lf' ok Hf Lf), Nat2Z.id.
  eapply wp_weaken; [apply (wp_lower_loop _ _ g (g :: lg')); [exact Lg|cbn; lia|lia]|].
  intros r s' (-> & l1 & c & l2 & -> & El & K). rewrite El in Lg. pose proof (line_suffix _ _ l1 c l2 Lg) as Lc.
  destruct (decide (f = c)) as [E|N'].
  { apply wp_ret. split; [reflexivity|]. exists f, [], l1, lf'. rewrite El, (Same c l2 Lc E), E. easy. }
  destruct (pprev bf) as [q|] eqn:Q; inversion Lf' as [|? bq lq Hq Lq]; subst.
  - eapply wp_weaken; [apply (IH q c (q :: lq) (c :: l2)); [exact Lf'|exact Lc|cbn in F |- *; lia]|].
    intros r s' (-> & x & d & e & l & -> & E1 & E2). split; [reflexivity|]. exists x, (f :: d), (l1 ++ e), l.
    rewrite E1, El, E2, <- app_assoc. easy.
  - exfalso. apply N'. rewrite (one_root f bf Hf Q). destruct l2; [|cbn in K; lia]. inversion Lc as [|? bc ? Hc Lc']; subst.
    symmetry. apply (one_root c bc Hc). now inversion Lc'.
Qed.

Lemma wp_until_fork fuel x a d l :
  line (blocks s) a (d ++ x :: l) -> ~ In x d -> (length d < fuel)%nat ->
  wp (until_fork fuel x a) (fun r s' => s' = s /\ r = d) s.
Proof.
  revert a d. induction fuel as [|fuel IH]; intros a d L N F; [lia|]. cbn [until_fork].
  destruct d as [|y d]; cbn [app] in L; inversion L as [|? b ? Hb L']; subst.
  - rewrite decide_True by reflexivity. now apply wp_ret.
  - rewrite decide_False by (intros [= ->]; apply N; now left). apply wp_then, wp_some, wp_then, (wp_load y b); [exact Hb|].
    apply wp_then. eapply wp_weaken; [apply (IH (pprev b) d L'); [intros I; apply N; now right|cbn in F; lia]|].
    intros ? s' [-> ->]. now apply wp_ret.
Qed.
End Fork.

(** ** Moving the links *)

Lemma wp_unlink s a d x l :
  line (blocks s) a (d ++ x :: l) ->
  wp (link_loop (fun _ => None) d)
    (fun _ s' => relinked s s' /\ gap s' = gap s /\ (links (blocks s) (d ++ x :: l) -> links (blocks s') (x :: l))) s.
Proof.
  revert s a. induction d as [|y d IH]; intros s a L; [now apply wp_ret|]. cbn [app link_loop] in *.
  inversion L as [|? b ? Hb L']; subst. apply wp_then, (wp_load y b); [exact Hb|]. apply wp_then.
  assert (E : exists z r, d ++ x :: l = z :: r) by (destruct d; cbn; eauto). destruct E as (z & r & E). rewrite E in *.
  inversion L' as [|? c ? Hc L'']; subst. apply (wp_store z _ c); [exact Hc|].
  pose proof (store_relinked s z c None Hc) as R. set (s1 := with_blocks _ s) in *.
  rewrite (relinked_tree _ _ R) in L'. eapply wp_weaken; [apply (IH s1 _ L')|].
  intros ? s' (R' & G & K). split; [now transitivity s1|]. split; [exact G|]. intros Lk. apply K.
  apply (links_drop _ y); [now apply (line_nodup (blocks s) (Some y))|exact Lk|exact Hc].
Qed.

Lemma wp_link s top v x l :
  line (blocks s) top (rev v ++ x :: l) ->
  wp (link_loop (fun pindex => Some pindex) v)
    (fun _ s' => relinked s s' /\ gap s' = gap s /\ (links (blocks s) (x :: l) -> links (blocks s') (rev v ++ x :: l))) s.
Proof.
  revert s x l. induction v as [|y v IH]; intros s x l L; [now apply wp_ret|]. cbn [rev link_loop] in *.
  rewrite <- app_assoc in *. cbn [app] in *. pose proof (line_suffix _ _ _ _ _ L) as Ly.
  inversion Ly as [|? b ? Hb L']; subst. apply wp_then, (wp_load y b); [exact Hb|]. apply wp_then.
  inversion L' as [|? c ? Hc L'']; subst. apply (wp_store x _ c); [exact Hc|].
  pose proof (store_relinked s x c (Some y) Hc) as R. set (s1 := with_blocks _ s) in *.
  rewrite (relinked_tree _ _ R) in L. eapply wp_weaken; [apply (IH s1 y (x :: l) L)|].
  intros ? s' (R' & G & K). split; [now transitivity s1|]. split; [exact G|]. intros Lk. apply K.
  apply (links_push _ y); [now apply (line_nodup (blocks s) (Some y))|exact Lk|exact Hc].
Qed.

Lemma reverse_rev {A} (l : list A) : reverse l = rev l.
Proof. symmetry. apply rev_alt. Qed.

Section Reorganize.
  Variables answer : nat -> bool.
  Variable amounts : nat -> option (Z * Z).

Lemma wp_disconnect_loop v s : wp (disconnect_loop answer v) (fun _ s' => quiet s s') s.
Proof.
  revert s. induction v as [|a v IH]; intros s; [now apply wp_ret|]. cbn [disconnect_loop].
  apply wp_then. eapply wp_weaken; [apply wp_ask|]. intros [] s1 Q1; cbn [negb]; [|now apply wp_ret].
  apply wp_then. eapply wp_weaken; [apply wp_ask|]. intros [] s2 Q2; cbn [negb]; [|apply wp_ret; now transitivity s1].
  eapply wp_weaken; [apply IH|]. intros ? s3 Q3. cbn in *. transitivity s2; [now transitivity s1|exact Q3].
Qed.

Lemma wp_connect_loop v s :
  (forall a, In a v -> is_Some (blocks s !! a)) -> wp (connect_loop answer amounts v) (fun _ s' => quiet s s') s.
Proof.
  revert s. induction v as [|a v IH]; intros s V; [now apply wp_ret|]. cbn [connect_loop].
  apply wp_then. eapply wp_weaken; [apply wp_ask|]. intros [] s1 Q1; cbn [negb]; [|now apply wp_ret].
  assert (V1 : forall s', quiet s s' -> forall c, In c (a :: v) -> is_Some (blocks s' !! c)).
  { intros s' Q c I. destruct (V c I) as [b Hb]. destruct (quiet_lookup s s' c b Q Hb) as (b' & Hb' & _). now exists b'. }
  apply wp_then. eapply wp_weaken; [apply wp_ConnectBlock; apply (V1 s1 Q1); now left|].
  intros [] s2 Q2; cbn [negb]; (assert (Q : quiet s s2) by now transitivity s1); [|now apply wp_ret].
  eapply wp_weaken; [apply IH; intros c I; apply (V1 s2 Q); now right|]. intros ? s3 Q3. cbn in *. now transitivity s2.
Qed.

(** The switch moves the links from the branch of the best block to that of the new one. *)
Lemma wp_Reorganize s root t a lt la :
  heap_ok (blocks s) -> (forall a b, blocks s !! a = Some b -> pprev b = None -> a = root) ->
  pindexBest s = Some t -> line (blocks s) (Some t) lt -> line (blocks s) (Some a) la ->
  wp (Reorganize answer amounts a)
    (fun r s' => if (r : bool) then relinked s s' /\ gap s' = gap s /\ (links (blocks s) lt -> links (blocks s') la) else quiet s s') s.
Proof.
  intros O R T Lt La. unfold Reorganize. apply wp_then, wp_read, wp_then. rewrite T. apply wp_some.
  inversion Lt as [|? bt lt' Ht Lt']; subst. inversion La as [|? ba la' Ha La']; subst.
  apply wp_then, (wp_load t bt); [exact Ht|]. rewrite (line_height _ t bt lt' O Ht Lt), Nat2Z.id. apply wp_then.
  eapply wp_weaken; [apply (wp_fork_loop s O root R _ t a _ _ Lt La); cbn; lia|].
  intros r s0 (-> & x & d & c & l & -> & Et & Ea). apply wp_then, (wp_load a ba); [exact Ha|].
  rewrite (line_height _ a ba la' O Ha La), Nat2Z.id.
  pose proof (line_nodup _ _ _ Lt) as Nt. pose proof (line_nodup _ _ _ La) as Na. rewrite Et in *. rewrite Ea in *.
  assert (D : forall e, List.NoDup (e ++ x :: l) -> ~ In x e).
  { intros e N I. apply NoDup_ListNoDup, NoDup_app in N as (_ & N & _). apply (N x); [now apply list_elem_of_In|left]. }
  assert (Len : (length d <= length lt')%nat /\ (length c <= length la')%nat).
  { apply (f_equal (@length _)) in Et, Ea. rewrite length_app in Et, Ea. cbn in Et, Ea. lia. }
  apply wp_then. eapply wp_weaken; [apply (wp_until_fork s _ x (Some t) d l Lt (D d Nt)); lia|]. intros ? s0 [-> ->].
  apply wp_then. eapply wp_weaken; [apply (wp_until_fork s _ x (Some a) c l La (D c Na)); lia|]. intros ? s0 [-> ->].
  apply wp_then. eapply wp_weaken; [apply wp_disconnect_loop|]. intros [] s1 Q1; cbn [negb]; [|now apply wp_ret].
  apply wp_then. eapply wp_weaken; [apply wp_connect_loop|].
  { intros e I. rewrite reverse_rev in I. apply in_rev, in_split in I as (l1 & l2 & ->). rewrite (relinked_tree s s1) in La by eauto.
    rewrite <- app_assoc in La. pose proof (line_suffix _ _ _ _ _ La) as Le. inversion Le; subst. eauto. }
  intros [] s2 Q2; (assert (Q : quiet s s2) by now transitivity s1); cbn [negb]; [|now apply wp_ret]. clear s1 Q1 Q2.
  apply wp_then. eapply wp_weaken; [apply wp_ask|]. intros [] s3 Q3; (assert (Q' : quiet s s3) by now transitivity s2); cbn [negb]; [|now apply wp_ret].
  clear s2 Q Q3. apply wp_then. eapply wp_weaken; [apply wp_ask|].
  intros [] s2 Q2; (assert (Q : quiet s s2) by now transitivity s3); cbn [negb]; [|now apply wp_ret]. clear s3 Q' Q2.
  rewrite (quiet_tree s s2 Q) in Lt. apply wp_then. eapply wp_weaken; [apply (wp_unlink s2 _ d x l Lt)|]. intros ? s4 (R4 & G4 & K4).
  assert (R04 : relinked s s4) by (transitivity s2; eauto). rewrite (relinked_tree s s4 R04) in La.
  apply wp_then. rewrite <- (rev_involutive c) in La. rewrite reverse_rev.
  eapply wp_weaken; [apply (wp_link s4 _ (rev c) x l La)|]. intros ? s5 (R5 & G5 & K5). apply wp_ret. rewrite rev_involutive in K5.
  split; [now transitivity s4|]. split; [rewrite G5, G4; apply Q|]. intros Lk. apply K5, K4. now apply (quiet_links s).
Qed.
End Reorganize.
