(* ===== verification/BlockTreeInv.v ===== *)
(** * The invariant of the block index

    [tree_ok]: the objects form a tree with one root, the genesis block; every one is where the map
    of hashes says, its height is its depth and its trust that of its branch.
    [best_ok]: the best block is indexed and cached as it is, and, unless a postponed block could not
    be connected, the links [pnext] are those of its branch and the block [FindBlockByHeight] remembers is on
    it.  Every block added preserves both. *)

From stdpp Require Import gmap list.
From Stdlib Require Import ZArith Lia.
From S2P Require Import Prelude SphTypes Uint256 Uint256Proof Uint256Hex Transaction BigNum BigNumProof Chain ChainProof Consensus ConsensusProof Kernel KernelProof BlockTree BlockTreeProof.
Local Open Scope Z_scope.

Definition prev_trust (h : heap) (b : CBlockIndex) : Z :=
  match deref h (pprev b) with Some c => val (nChainTrust c) | None => 0 end.

Record tree_ok (genesis : list Z) (h : heap) (index : gmap (list Z) positive) : Prop := {
  tree_heap : heap_ok h;
  tree_index : forall k a, index !! k = Some a <-> exists b, h !! a = Some b /\ phashBlock b = k;
  tree_root : forall a b, h !! a = Some b -> pprev b = None -> phashBlock b = genesis /\ GeneratedStakeModifier b = true;
  tree_fields : forall a b, h !! a = Some b -> block_ok b /\ words_ok 8 (phashBlock b) /\ words_ok 8 (nChainTrust b);
  tree_trust : forall a b, h !! a = Some b ->
    val (nChainTrust b) = (prev_trust h b + block_trust (i_nBits b)) mod 2 ^ 256
}.

Definition root_of (h : heap) (p : pointer) : Prop := exists g b, p = Some g /\ h !! g = Some b /\ pprev b = None.

Record best_ok (s : state) : Prop := {
  best_block : exists t b, pindexBest s = Some t /\ blocks s !! t = Some b /\ hashBestChain s = phashBlock b /\
    nBestHeight s = nHeight b /\ nBestChainTrust s = nChainTrust b;
  best_genesis : root_of (blocks s) (pindexGenesisBlock s);
  best_links : gap s = false -> exists l, line (blocks s) (pindexBest s) l /\ links (blocks s) l /\
    (forall a, pblockindexFBBHLast s = Some a -> In a l)
}.

Lemma root_of_same h h' p : same_tree h h' -> root_of h p -> root_of h' p.
Proof.
  intros S (g & b & -> & Hb & N). destruct (same_tree_lookup h h' g b S Hb) as (b' & Hb' & F).
  apply tree_part_fields in F as [F _]. exists g, b'. rewrite F. easy.
Qed.

Section Tree.
  Variable genesis : list Z.

Lemma tree_ok_same h h' index : same_tree h h' -> tree_ok genesis h index -> tree_ok genesis h' index.
Proof.
  intros S [O I R F T].
  assert (B : forall a b', h' !! a = Some b' -> exists b, h !! a = Some b /\ tree_part b = tree_part b') by
    (intros a b'; now apply same_tree_lookup).
  split.
  - intros a b' Hb'. destruct (B a b' Hb') as (b & Hb & E). apply tree_part_fields in E as (E1 & E2 & _).
    destruct (O a b Hb) as (l & P & H). assert (L : line h (pprev b) (map fst l)) by (apply line_path; eauto).
    rewrite S in L. apply line_path in L as (l' & P' & E). exists l'. rewrite <- E1, <- E2, H. split; [exact P'|].
    now rewrite <- (length_map fst l), E, length_map.
  - intros k a. rewrite I. split; intros (b & Hb & <-).
    + destruct (same_tree_lookup h h' a b S Hb) as (b' & Hb' & E). apply tree_part_fields in E as (_ & _ & E & _). eauto.
    + destruct (B a b Hb) as (b' & Hb' & E). apply tree_part_fields in E as (_ & _ & E & _). eauto.
  - intros a b' Hb' N. destruct (B a b' Hb') as (b & Hb & E). apply tree_part_fields in E as (E1 & _ & E3 & _ & E5 & _).
    rewrite <- E3. unfold GeneratedStakeModifier. rewrite <- E5. apply (R a b Hb). congruence.
  - intros a b' Hb'. destruct (B a b' Hb') as (b & Hb & E). apply tree_part_fields in E as (_ & _ & E3 & E4 & _ & E6 & E7).
    destruct (F a b Hb) as ([F1 F2] & F3 & F4). unfold block_ok. rewrite <- E3, <- E4, <- E6, <- E7. easy.
  - intros a b' Hb'. destruct (B a b' Hb') as (b & Hb & E). apply tree_part_fields in E as (E1 & _ & _ & E4 & _ & _ & E7).
    rewrite <- E4, <- E7, (T a b Hb). do 2 f_equal. unfold prev_trust. rewrite <- E1. destruct (pprev b) as [q|]; [|reflexivity].
    unfold deref. cbn. destruct (h !! q) as [c|] eqn:Hc.
    + destruct (same_tree_lookup h h' q c S Hc) as (c' & -> & E'). apply tree_part_fields in E' as (_ & _ & _ & E' & _). now rewrite E'.
    + destruct (h' !! q) as [c'|] eqn:Hc'; [|reflexivity]. destruct (B q c' Hc') as (? & ? & _). congruence.
Qed.

Lemma one_root h index : tree_ok genesis h index -> forall r c, h !! r = Some c -> pprev c = None ->
  forall a b, h !! a = Some b -> pprev b = None -> a = r.
Proof.
  intros W r c Hc Nc a b Hb Nb. destruct (tree_root _ _ _ W r c Hc Nc) as [E _]. destruct (tree_root _ _ _ W a b Hb Nb) as [E' _].
  assert (I : index !! genesis = Some r) by (apply (tree_index _ _ _ W); eauto).
  assert (I' : index !! genesis = Some a) by (apply (tree_index _ _ _ W); eauto). congruence.
Qed.

Lemma root_exists h index : tree_ok genesis h index -> h <> ∅ -> exists r c, h !! r = Some c /\ pprev c = None.
Proof.
  intros W N. destruct (map_choose _ N) as (a & b & Hb).
  destruct (line_exists h (Some a) (tree_heap _ _ _ W)) as [l L]; [intros ? [= <-]; eauto|].
  assert (G : forall p l, line h p l -> l <> [] -> exists r c, h !! r = Some c /\ pprev c = None).
  { clear. induction 1 as [|a b l Hb L IH]; [easy|]. intros _. destruct (pprev b) as [q|] eqn:Q; [|eauto].
    apply IH. inversion L. easy. }
  apply (G _ l L). inversion L. easy.
Qed.

(** Everything a new block needs of the object before it. *)
Lemma tree_prev_modifier p SHA256 h index q :
  tree_ok genesis h index -> is_Some (h !! q) ->
  exists m g, ComputeNextStakeModifier p SHA256 h index (Some q) = Some (Some (m, g)).
Proof.
  intros W [b Hb]. destruct (tree_heap _ _ _ W q b Hb) as (l & P & _).
  assert (P' : path h (Some q) ((q, b) :: l)) by eauto.
  assert (L : forall x, In x ((q, b) :: l) -> h !! x.1 = Some x.2) by (intros [a c] I; now apply (path_lookup h _ _ _ _ P')).
  destruct (ComputeNext_ok p SHA256 h index (tree_heap _ _ _ W) q b l P') as (g & r & _ & _ & E).
  - apply List.Forall_forall. intros x I. split; [|now apply L]. apply (tree_index _ _ _ W). exists x.2. split; [now apply L|reflexivity].
  - intros x I. apply (tree_root _ _ _ W x.1 x.2 (L x I)).
  - intros x I. destruct (tree_fields _ _ _ W x.1 x.2 (L x I)) as ([T _] & _). apply T.
  - destruct (_ <=? _); [eauto|]. destruct E as (c & cs & _ & _ & _ & _ & E). eauto.
Qed.

(** A new leaf. *)
Lemma tree_ok_insert h index a b k :
  tree_ok genesis h index -> h !! a = None -> index !! k = None -> phashBlock b = k ->
  words_ok 8 k -> block_ok b -> words_ok 8 (nChainTrust b) ->
  val (nChainTrust b) = (prev_trust h b + block_trust (i_nBits b)) mod 2 ^ 256 ->
  match pprev b with
  | Some q => exists c, h !! q = Some c /\ nHeight b = nHeight c + 1
  | None => h = ∅ /\ k = genesis /\ GeneratedStakeModifier b = true /\ nHeight b = 0
  end ->
  tree_ok genesis (<[a := b]> h) (<[k := a]> index).
Proof.
  intros W Ha Hk Eb Wk Bb Tb Vb Pb. assert (Sub : h ⊆ <[a := b]> h) by now apply insert_subseteq.
  assert (D : forall c d, h !! c = Some d -> deref (<[a := b]> h) (pprev d) = deref h (pprev d)).
  { intros c d Hd. destruct (pprev d) as [q|] eqn:Q; [|reflexivity]. unfold deref. cbn. rewrite lookup_insert_ne; [reflexivity|].
    intros <-. destruct (tree_heap _ _ _ W c d Hd) as (l & P & _). rewrite Q in P. inversion P; congruence. }
  split.
  - destruct (pprev b) as [q|] eqn:Q.
    + destruct Pb as (c & Hc & H). destruct (tree_heap _ _ _ W q c Hc) as (l & P & E).
      apply (heap_ok_insert h a b ((q, c) :: l)); [apply W|exact Ha|rewrite Q; eauto|cbn [length]; lia].
    + destruct Pb as (-> & _ & _ & H). apply (heap_ok_insert ∅ a b []); [apply heap_ok_empty|exact Ha|rewrite Q; constructor|exact H].
  - intros k' a'. split.
    + intros L. apply lookup_insert_Some in L as [[<- <-]|[N L]]; [exists b; now rewrite lookup_insert_eq|].
      apply (tree_index _ _ _ W) in L as (d & Hd & E). exists d. split; [now apply (lookup_weaken h)|exact E].
    + intros (d & L & E). apply lookup_insert_Some in L as [[<- <-]|[N L]]; [rewrite <- E, Eb; apply lookup_insert_eq|].
      assert (L' : index !! k' = Some a') by (apply (tree_index _ _ _ W); eauto). rewrite lookup_insert_ne; [exact L'|congruence].
  - intros a' d L N. apply lookup_insert_Some in L as [[<- <-]|[_ L]]; [|now apply (tree_root _ _ _ W a')].
    rewrite N in Pb. destruct Pb as (_ & E & G & _). split; [congruence|exact G].
  - intros a' d L. apply lookup_insert_Some in L as [[<- <-]|[_ L]]; [rewrite Eb; easy|]. now apply (tree_fields _ _ _ W a').
  - intros a' d L. unfold prev_trust. apply lookup_insert_Some in L as [[<- <-]|[_ L]].
    + rewrite Vb. unfold prev_trust. do 2 f_equal. destruct (pprev b) as [q|]; [|reflexivity]. destruct Pb as (c & Hc & _).
      unfold deref. cbn. rewrite Hc, (lookup_weaken h _ q c Hc Sub). reflexivity.
    + rewrite (D a' d L). now apply (tree_trust _ _ _ W a').
Qed.
End Tree.

(** ** Switching the best chain *)

Lemma wp_intermediate_loop s fuel trust a l :
  line (blocks s) (Some a) l -> (length l <= fuel)%nat ->
  wp (intermediate_loop fuel trust a) (fun r s' => s' = s /\ exists rest, l = r.2 ++ r.1 :: rest) s.
Proof.
  revert a l. induction fuel as [|fuel IH]; intros a l L F; inversion L as [|? b l' Hb L']; subst; [cbn in F; lia|].
  cbn [intermediate_loop]. apply wp_then, (wp_load a b); [exact Hb|].
  destruct (pprev b) as [q|] eqn:Q; inversion L' as [|? c l'' Hc L'']; subst; [|now apply wp_ret; split; [|exists []]].
  apply wp_then, (wp_load q c); [exact Hc|]. destruct (op_greater _ _ _); [|apply wp_ret; split; [reflexivity|now exists (q :: l'')]].
  apply wp_then. eapply wp_weaken; [apply (IH q (q :: l'') L'); cbn in F |- *; lia|].
  intros [i sec] s' (-> & rest & E). apply wp_ret. split; [reflexivity|]. exists rest. cbn [fst snd] in *. now rewrite E.
Qed.

Section Switch.
  Variables answer : nat -> bool.
  Variable amounts : nat -> option (Z * Z).

Lemma has_prev_line s a x l : line (blocks s) (Some a) (a :: x :: l) -> has_prev s a.
Proof.
  intros L. inversion L as [|? b ? Hb L']; subst. inversion L' as [|? c ? Hc _]; subst. exists b, x. eauto.
Qed.

(** A failure is recorded in [gap]; without one the links reach the last block. *)
Lemma wp_postponed_loop v s top x l :
  line (blocks s) top (rev v ++ x :: l) -> best_pointers s ->
  wp (postponed_loop answer amounts v)
    (fun _ s' => relinked s s' /\
       (gap s' = false -> gap s = false /\ (links (blocks s) (x :: l) -> links (blocks s') (rev v ++ x :: l)))) s.
Proof.
  revert s x l. induction v as [|a v IH]; intros s x l L B; [now apply wp_ret|]. cbn [postponed_loop rev] in *.
  rewrite <- app_assoc in *. cbn [app] in *.
  assert (G : forall s', relinked s s' -> wp (modify (with_gap true)) (fun _ s' => relinked s s' /\
    (gap s' = false -> gap s = false /\ (links (blocks s) (x :: l) -> links (blocks s') (rev v ++ a :: x :: l)))) s').
  { intros s' [R1 R2 R3 R4]. apply wp_update. split; [now split|easy]. }
  apply wp_then. eapply wp_weaken; [apply wp_ask|]. intros [] s1 Q1; cbn [negb]; [|apply G; eauto].
  apply wp_then. eapply wp_weaken; [apply wp_ask|]. intros [] s2 Q2; (assert (Q : quiet s s2) by now transitivity s1); cbn [negb]; [|apply G; eauto].
  clear s1 Q1 Q2. assert (R2 : relinked s s2) by eauto.
  assert (La : line (blocks s2) (Some a) (a :: x :: l)) by (rewrite <- (relinked_tree s s2 R2); now apply (line_suffix _ top (rev v))).
  apply wp_then. eapply wp_weaken; [apply wp_SetBestChainInner; [now apply (has_prev_line s2 a x l)|now apply (best_pointers_relinked s s2)]|].
  intros [] s3 P; cbn [negb]; [|apply G; transitivity s2; eauto]. destruct P as (R3 & G3 & K3).
  assert (R13 : relinked s s3) by now transitivity s2. rewrite (relinked_tree s s3 R13) in L.
  eapply wp_weaken; [apply (IH s3 a (x :: l) L); now apply (best_pointers_relinked s s3)|].
  intros ? s4 (R4 & K4). split; [now transitivity s3|]. intros G4. destruct (K4 G4) as [G3' K4'].
  split; [rewrite <- (quiet_gap s s2 Q); congruence|]. intros Lk. apply K4', K3; [exact La|]. now apply (quiet_links s).
Qed.

Variable genesis : list Z.

(** The invariant, and what the last steps of [SetBestChain] need to restore it. *)
Definition inv (s : state) : Prop := tree_ok genesis (blocks s) (mapBlockIndex s) /\ best_ok s.

Lemma inv_quiet s s' : quiet s s' -> inv s -> inv s'.
Proof.
  intros Q [W [(t & b & T & Hb & H1 & H2 & H3) G L]]. split.
  - rewrite (quiet_index s s' Q). apply (tree_ok_same genesis (blocks s)); [now apply quiet_tree|exact W].
  - destruct (quiet_best s s' Q) as (E1 & E2 & E3 & E4). destruct (quiet_lookup s s' t b Q Hb) as (b' & Hb' & F & _).
    apply tree_part_fields in F as (_ & F2 & F3 & F4 & _). split.
    + exists t, b'. rewrite E1, E2, E3, E4, F2, F3, F4. easy.
    + rewrite (quiet_genesis s s' Q). apply (root_of_same (blocks s)); [now apply quiet_tree|exact G].
    + rewrite (quiet_gap s s' Q), E1. intros Hg. destruct (L Hg) as (l & Ll & K & C). exists l. rewrite (quiet_last s s' Q).
      split; [now rewrite <- (quiet_tree s s' Q)|]. split; [now apply (quiet_links s)|exact C].
Qed.

Lemma inv_best_pointers s : inv s -> best_pointers s.
Proof.
  intros [W [(t & b & T & Hb & _) _ _]]. exists t, b. splits; [exact T|exact Hb|]. intros N.
  destruct (tree_heap _ _ _ W t b Hb) as (l & P & H). destruct (pprev b) as [q|] eqn:Q; [|inversion P; subst; cbn in H; lia].
  exists q. split; [reflexivity|]. inversion P; subst. eauto.
Qed.

Lemma wp_new_best s hash a b l :
  tree_ok genesis (blocks s) (mapBlockIndex s) -> root_of (blocks s) (pindexGenesisBlock s) ->
  blocks s !! a = Some b -> phashBlock b = hash -> line (blocks s) (Some a) l -> (gap s = false -> links (blocks s) l) ->
  wp (new_best hash a) (fun _ s' => inv s' /\ pindexBest s' = Some a /\ nBestChainTrust s' = nChainTrust b /\ blocks s' = blocks s /\
    mapBlockIndex s' = mapBlockIndex s /\ gap s' = gap s) s.
Proof.
  intros W G Hb E L K. unfold new_best. apply wp_then, (wp_load a b); [exact Hb|]. apply wp_then, wp_update.
  set (s1 := with_best _ _ _ _ s).
  assert (I : inv s1).
  { split; [exact W|]. split; [now exists a, b|exact G|]. intros Hg. exists l. split; [exact L|]. split; [now apply K|easy]. }
  destruct (Z.eqb_spec (nHeight b) 0) as [H|H]; cbn [negb]; [now apply wp_ret|].
  destruct (inv_best_pointers s1 I) as (t & c & T & Hc & P). cbn in T, Hc. injection T as <-. rewrite Hb in Hc. injection Hc as <-.
  destruct (P H) as (q & -> & [d Hd]). apply wp_then, (wp_load q d); [exact Hd|]. now apply wp_ret.
Qed.
End Switch.

Section SetBest.
  Variable p : platform.
  Variable fTestNet : bool.
  Variables hashGenesisBlock hashGenesisBlockTestNet : list Z.
  Variable answer : nat -> bool.
  Variable amounts : nat -> option (Z * Z).
  Abbreviation genesis := (genesis_hash fTestNet hashGenesisBlock hashGenesisBlockTestNet).
  Abbreviation SetBestChain := (SetBestChain fTestNet hashGenesisBlock hashGenesisBlockTestNet answer amounts).
  Abbreviation inv := (inv genesis).

(** What a step does to the best block, given its result. *)
Definition best_after (r : bool) (a : positive) (b : CBlockIndex) (s s' : state) : Prop :=
  if r then pindexBest s' = Some a /\ nBestChainTrust s' = nChainTrust b
  else pindexBest s' = pindexBest s /\ nBestChainTrust s' = nBestChainTrust s.

Lemma best_after_quiet a b s s' : quiet s s' -> best_after false a b s s'.
Proof. intros Q. destruct (quiet_best s s' Q) as (E1 & _ & _ & E4). easy. Qed.

Lemma wp_finish s0 s hash a b l :
  relinked s0 s -> tree_ok genesis (blocks s0) (mapBlockIndex s0) -> root_of (blocks s0) (pindexGenesisBlock s0) ->
  blocks s0 !! a = Some b -> phashBlock b = hash -> line (blocks s) (Some a) l -> (gap s = false -> links (blocks s) l) ->
  wp (new_best hash a;; return_ true) (fun r s' => inv s' /\ same_tree (blocks s0) (blocks s') /\ mapBlockIndex s' = mapBlockIndex s0 /\ best_after r a b s0 s') s.
Proof.
  intros R W G Hb E L K. destruct (relinked_lookup s0 s a b R Hb) as (b' & Hb' & F). apply tree_part_fields in F as (_ & _ & F3 & F4 & _).
  destruct R as [R1 R2 R3 R4]. apply wp_then. eapply wp_weaken.
  - apply (wp_new_best genesis s hash a b' l); try assumption; [| |congruence].
    + rewrite R2. now apply (tree_ok_same genesis (blocks s0)).
    + rewrite R3. now apply (root_of_same (blocks s0)).
  - intros ? s' (I & B & T & Bl & Mp & _). apply wp_ret. splits; [exact I|now rewrite Bl|now rewrite Mp|split; [exact B|now rewrite T]].
Qed.

Lemma wp_SetBestChain s hash hashPrevBlock a b q c :
  inv s -> blocks s !! a = Some b -> phashBlock b = hash -> pprev b = Some q -> blocks s !! q = Some c -> phashBlock c = hashPrevBlock ->
  wp (SetBestChain hash hashPrevBlock a)
    (fun r s' => inv s' /\ same_tree (blocks s) (blocks s') /\ mapBlockIndex s' = mapBlockIndex s /\ best_after r a b s s') s.
Proof.
  intros I Hb Eh Pq Hc Ep. unfold BlockTree.SetBestChain. apply wp_then. eapply wp_weaken; [apply wp_ask|]. intros [] s1 Q1; cbn [negb].
  2: { apply wp_ret. splits; [now apply (inv_quiet genesis s)|now apply quiet_tree|now apply quiet_index|now apply best_after_quiet]. }
  pose proof (inv_quiet genesis s s1 Q1 I) as I1. pose proof I1 as [W1 [(t & d & T & Hd & Hh & _ & Ht) RG L1]]. pose proof RG as (g & _ & G & _).
  apply wp_then, wp_read, wp_then, wp_read. rewrite G.
  destruct (quiet_lookup s s1 a b Q1 Hb) as (b1 & Hb1 & F & _). apply tree_part_fields in F as (F1 & _ & F3 & F4 & _).
  destruct (quiet_lookup s s1 q c Q1 Hc) as (c1 & Hc1 & F & _). apply tree_part_fields in F as (_ & _ & C3 & _).
  rewrite Pq in F1. rewrite Eh in F3. rewrite Ep in C3.
  destruct (line_exists (blocks s1) (Some q) (tree_heap _ _ _ W1)) as [lq Lq]; [intros ? [= <-]; eauto|].
  assert (La : line (blocks s1) (Some a) (a :: lq)) by (econstructor; [exact Hb1|now rewrite F1]).
  assert (A : forall r s', inv s' -> same_tree (blocks s1) (blocks s') -> mapBlockIndex s' = mapBlockIndex s1 -> best_after r a b1 s1 s' ->
    inv s' /\ same_tree (blocks s) (blocks s') /\ mapBlockIndex s' = mapBlockIndex s /\ best_after r a b s s').
  { intros r s' X1 X2 X3 X4. splits; [exact X1|now rewrite (quiet_tree s s1 Q1)|rewrite X3; apply Q1|].
    destruct (quiet_best s s1 Q1) as (E1 & _ & _ & E4). unfold best_after in *. rewrite E1, E4, F4 in X4. exact X4. }
  destruct (tree_fields _ _ _ W1 t d Hd) as (_ & Wd & _). destruct (tree_fields _ _ _ W1 q c1 Hc1) as (_ & Wc & _). rewrite C3 in Wc.
  rewrite Hh, (op_equal_ok 8 ltac:(lia) _ _ Wc Wd). destruct (Z.eqb_spec (val hashPrevBlock) (val (phashBlock d))) as [E|E].
  - assert (q = t) as ->.
    { apply (val_inj 8) in E; [|assumption..].
      assert (X : mapBlockIndex s1 !! hashPrevBlock = Some q) by (apply (tree_index _ _ _ W1); eauto).
      assert (Y : mapBlockIndex s1 !! hashPrevBlock = Some t) by (apply (tree_index _ _ _ W1); eauto). congruence. }
    apply wp_then. eapply wp_weaken.
    { apply wp_SetBestChainInner; [|now apply (inv_best_pointers genesis)]. exists b1, t. splits; [exact Hb1|exact F1|eauto]. }
    intros [] s2 P; cbn [negb].
    + destruct P as (R & Gp & K). eapply wp_weaken; [apply (wp_finish s1 s2 hash a b1 (a :: lq)); try assumption; [now rewrite <- (relinked_tree s1 s2 R)|]|].
      * intros Hg. apply K; [exact La|]. rewrite Gp in Hg. destruct (L1 Hg) as (l & Ll & Kl & _). rewrite T in Ll. now rewrite (line_det _ _ _ _ Lq Ll).
      * intros r s3 (X1 & X2 & X3 & X4). now apply A.
    + apply wp_ret. apply A; [now apply (inv_quiet genesis s1)|now apply quiet_tree|apply P|now apply best_after_quiet].
  - apply wp_then, wp_read, wp_then, (wp_load a b1); [exact Hb1|]. rewrite F1, T. apply wp_then. apply wp_then, (wp_load t d); [exact Hd|].
    rewrite (line_height _ a b1 lq (tree_heap _ _ _ W1) Hb1 La), Nat2Z.id.
    eapply wp_weaken; [apply (wp_intermediate_loop s1 _ (nChainTrust d) a (a :: lq) La); cbn; lia|].
    intros [i sec] s2 (-> & rest & El). cbn [fst snd] in *. rewrite El in La. pose proof (line_suffix _ _ sec i rest La) as Li.
    destruct (line_exists (blocks s1) (Some t) (tree_heap _ _ _ W1)) as [lt Lt]; [intros ? [= <-]; eauto|].
    destruct (root_exists genesis (blocks s1) _ W1) as (ro & rb & Hr & Nr); [intros X; rewrite X in Hb1; discriminate|].
    apply wp_then. eapply wp_weaken.
    { apply (wp_Reorganize answer amounts s1 ro t i lt (i :: rest) (tree_heap _ _ _ W1)); try assumption. now apply (one_root genesis _ _ W1 ro rb). }
    intros [] s2 P; cbn [negb].
    2: { apply wp_then. eapply wp_weaken; [apply wp_InvalidChainFound|].
         - apply (has_prev_relinked s1 s2); [eauto|]. exists b1, q. splits; [exact Hb1|exact F1|eauto].
         - apply (best_pointers_relinked s1 s2); [eauto|now apply (inv_best_pointers genesis)].
         - intros ? s3 Q3. apply wp_ret. cbn in Q3. assert (Q13 : quiet s1 s3) by now transitivity s2.
           apply A; [now apply (inv_quiet genesis s1)|now apply quiet_tree|apply Q13|now apply best_after_quiet]. }
    destruct P as (R2 & G2 & K2). apply wp_then. rewrite (relinked_tree s1 s2 R2) in La. replace sec with (rev (reverse sec)) in La by (rewrite reverse_rev; apply rev_involutive).
    eapply wp_weaken; [apply (wp_postponed_loop answer amounts (reverse sec) s2 _ i rest La)|].
    { apply (best_pointers_relinked s1 s2 R2). now apply (inv_best_pointers genesis). }
    intros ? s3 (R3 & K3). assert (R13 : relinked s1 s3) by now transitivity s2.
    rewrite (relinked_tree s2 s3 R3) in La. eapply wp_weaken; [apply (wp_finish s1 s3 hash a b1 _ R13 W1 RG Hb1 F3 La)|].
    + intros Hg. destruct (K3 Hg) as [Hg2 K3']. rewrite G2 in Hg2. destruct (L1 Hg2) as (l & Ll & Kl & _). rewrite T in Ll.
      apply K3', K2. now rewrite (line_det _ _ _ _ Lt Ll).
    + intros r s4 (X1 & X2 & X3 & X4). now apply A.
Qed.

(** The first block of all. *)
Lemma wp_SetBestChain_genesis s a b hashPrevBlock :
  tree_ok genesis (blocks s) (mapBlockIndex s) -> pindexGenesisBlock s = None -> blocks s = {[a := b]} -> phashBlock b = genesis ->
  pprev b = None -> pnext b = None ->
  wp (SetBestChain genesis hashPrevBlock a)
    (fun r s' => if (r : bool) then inv s' /\ same_tree (blocks s) (blocks s') /\ mapBlockIndex s' = mapBlockIndex s /\ best_after true a b s s' else True) s.
Proof.
  intros W G Bl Eh Np Nn. unfold BlockTree.SetBestChain. apply wp_then. eapply wp_weaken; [apply wp_ask|]. intros [] s1 Q1; cbn [negb]; [|now apply wp_ret].
  apply wp_then, wp_read, wp_then, wp_read. rewrite (quiet_genesis s s1 Q1), G.
  assert (Hb : blocks s !! a = Some b) by (rewrite Bl; apply lookup_singleton_eq).
  destruct (tree_fields _ _ _ W a b Hb) as (_ & Wb & _). rewrite Eh in Wb. rewrite (op_equal_ok 8 ltac:(lia) _ _ Wb Wb), Z.eqb_refl.
  apply wp_then. eapply wp_weaken; [apply wp_ask|]. intros ? s2 Q2. apply wp_then. eapply wp_weaken; [apply wp_ask|].
  intros [] s3 Q3; cbn [negb]; [|now apply wp_ret]. cbn in *. assert (Q : quiet s s3) by (transitivity s2; [now transitivity s1|exact Q3]).
  apply wp_then, wp_update, wp_then. set (s4 := with_pindexGenesisBlock (Some a) s3).
  destruct (quiet_lookup s s3 a b Q Hb) as (b3 & Hb3 & F & Nx). apply tree_part_fields in F as (F1 & _ & F3 & F4 & _).
  assert (L4 : line (blocks s4) (Some a) [a]) by (econstructor; [exact Hb3|rewrite F1, Np; constructor]).
  eapply wp_weaken; [apply (wp_new_best genesis s4 genesis a b3 [a])|]; try assumption; try congruence; [|exists a, b3; split; [reflexivity|split; [exact Hb3|congruence]]| |].
  - apply (tree_ok_same genesis (blocks s)); [exact (quiet_tree s s3 Q)|]. cbn. now rewrite (quiet_index s s3 Q).
  - intros _ e x He. cbn. pose proof (quiet_blocks s s3 Q e) as X. cbn in He. rewrite He, Bl in X.
    destruct (decide (a = e)) as [<-|N]; [congruence|]. now rewrite lookup_singleton_ne in X.
  - intros ? s5 (I & B & T & Bl5 & Mp & _). apply wp_ret. splits; [exact I|rewrite Bl5; exact (quiet_tree s s3 Q)|rewrite Mp; exact (quiet_index s s3 Q)|exact B|congruence].
Qed.
End SetBest.

(** ** Adding a block *)

Section Add.
  Context {BIGNUM : Type} {ops : BN_ops BIGNUM} {spec : BN_spec ops}.
  Variable p : platform.
  Variable SHA256 : list Z -> list Z.
  Variable fTestNet : bool.
  Variables hashGenesisBlock hashGenesisBlockTestNet : list Z.
  Variable answer : nat -> bool.
  Variable amounts : nat -> option (Z * Z).
  Hypothesis little : order p <> SPH_BIG_ENDIAN.
  Hypothesis SHA256_ok : forall m, length (SHA256 m) = 32%nat /\ bytes (SHA256 m).
  Abbreviation genesis := (genesis_hash fTestNet hashGenesisBlock hashGenesisBlockTestNet).
  Abbreviation new_index := (new_index (ops := ops) p SHA256 fTestNet hashGenesisBlock hashGenesisBlockTestNet).
  Abbreviation AddToBlockIndex := (AddToBlockIndex (ops := ops) p SHA256 fTestNet hashGenesisBlock hashGenesisBlockTestNet answer amounts).
  Abbreviation inv := (inv genesis).

Definition block_typed (block : CBlock) (hash : list Z) : Prop :=
  word 32 (b_nTime block) /\ word 32 (nBits block) /\ words_ok 8 hash.

(** A finished object: the fields the tree depends on. *)
Definition fits (s : state) (hash : list Z) (prev : pointer) (b : CBlockIndex) : Prop :=
  phashBlock b = hash /\ pprev b = prev /\ pnext b = None /\ block_ok b /\ words_ok 8 (nChainTrust b) /\
  val (nChainTrust b) = (prev_trust (blocks s) b + block_trust (i_nBits b)) mod 2 ^ 256 /\
  match prev with
  | Some q => exists c, blocks s !! q = Some c /\ nHeight b = nHeight c + 1
  | None => GeneratedStakeModifier b = true /\ nHeight b = 0
  end.

Lemma CBlockIndex_of_fields nFile nBlockPos block :
  let b := CBlockIndex_of nFile nBlockPos block in
  pprev b = None /\ pnext b = None /\ nHeight b = 0 /\ i_nTime b = b_nTime block /\ i_nBits b = nBits block.
Proof.
  unfold CBlockIndex_of, CBlock_IsProofOfStake. destruct (vtx block) as [|t0 [|t1 l]]; try easy.
  now destruct (IsCoinStake t1).
Qed.

Lemma set_flags_generated f b : f .| BLOCK_STAKE_MODIFIER = nFlags b -> GeneratedStakeModifier b = true.
Proof.
  intros E. unfold GeneratedStakeModifier. rewrite <- E. apply negb_true_iff, Z.eqb_neq. intros X.
  apply (f_equal (fun z => Z.testbit z 2)) in X. rewrite Z.land_spec, Z.lor_spec in X.
  change (Z.testbit BLOCK_STAKE_MODIFIER 2) with true in X. now rewrite orb_true_r in X.
Qed.

Lemma wp_new_index s nFile nBlockPos block hash hashProof :
  tree_ok genesis (blocks s) (mapBlockIndex s) -> block_typed block hash ->
  (mapBlockIndex s !! hashPrevBlock block = None -> hash = genesis) ->
  wp (new_index nFile nBlockPos block hash hashProof)
    (fun r s' => s' = s /\ match r with Some b => fits s hash (mapBlockIndex s !! hashPrevBlock block) b /\ i_nBits b = nBits block | None => True end) s.
Proof.
  intros W (T1 & T2 & T3) G. destruct (CBlockIndex_of_fields nFile nBlockPos block) as (E1 & E2 & E3 & E4 & E5).
  set (b0 := CBlockIndex_of nFile nBlockPos block) in *. unfold BlockTree.new_index. apply wp_then, wp_read, wp_then, wp_read. fold b0.
  set (prev := mapBlockIndex s !! hashPrevBlock block) in *.
  apply wp_then, (wp_weaken _ (fun new s' => s' = s /\ exists height, new = with_nHeight height (with_pprev prev (with_phashBlock hash b0)) /\
    match prev with Some q => exists c, blocks s !! q = Some c /\ height = nHeight c + 1 | None => height = 0 end)).
  { destruct prev as [q|] eqn:Q.
    - destruct (proj1 (tree_index _ _ _ W _ q) Q) as (c & Hc & _). apply wp_then, (wp_load q c); [exact Hc|]. apply wp_ret. eauto 6.
    - apply wp_ret. split; [reflexivity|]. exists 0. split; [|reflexivity].
      clear -E1 E3. destruct b0. cbn in *. now subst. }
  intros ? s' (-> & height & -> & H). cbn [pprev with_nHeight with_pprev].
  apply wp_then, (wp_weaken _ (fun t s' => s' = s /\ words_ok 8 t /\ val t = match deref (blocks s) prev with Some c => val (nChainTrust c) | None => 0 end)).
  { destruct prev as [q|].
    - destruct H as (c & Hc & _). apply wp_then, (wp_load q c); [exact Hc|]. apply wp_ret. unfold deref. cbn. rewrite Hc.
      splits; try reflexivity; apply (tree_fields _ _ _ W q c Hc).
    - apply wp_ret. split; [reflexivity|]. apply zeros_ok. }
  intros trust s' (-> & Wt & Vt). apply wp_then.
  set (b1 := with_nHeight height (with_pprev prev (with_phashBlock hash b0))) in *.
  destruct (GetBlockTrust_ok p little b1) as (w & -> & Ww & Vw); [cbn; now rewrite E5|]. apply wp_some.
  destruct (op_add_assign_ok 8 ltac:(lia) trust w Wt Ww) as [Wn Vn]. fold (op_add 8 trust w) in Wn, Vn. rewrite Vt, Vw in Vn. change (i_nBits b1) with (i_nBits b0) in Vn.
  unfold SetStakeEntropyBit. destruct (1 <? _); [now apply wp_ret|]. cbn [negb]. set (b2 := with_hashProof _ _).
  assert (X : exists m g, ComputeNextStakeModifier p SHA256 (blocks s) (mapBlockIndex s) prev = Some (Some (m, g)) /\ (prev = None -> g = true)).
  { destruct prev as [q|]; [|now exists 0, true]. destruct H as (c & Hc & _).
    destruct (tree_prev_modifier genesis p SHA256 _ _ q W) as (m & g & X); [eauto|]. exists m, g. now split. }
  destruct X as (m & g & Xm & Xg). apply wp_then. change (pprev b2) with prev. rewrite Xm. apply wp_some.
  set (b3 := SetStakeModifier m g b2).
  assert (C : exists checksum, GetStakeModifierChecksum p SHA256 fTestNet (blocks s) hashGenesisBlock hashGenesisBlockTestNet b3 = Some checksum).
  { assert (P3 : pprev b3 = prev) by (unfold b3, SetStakeModifier; now destruct g).
    assert (H3 : phashBlock b3 = hash) by (unfold b3, SetStakeModifier; now destruct g).
    unfold GetStakeModifierChecksum. rewrite P3, H3. destruct prev as [q|].
    - destruct H as (c & Hc & _). rewrite Hc. eauto.
    - specialize (G eq_refl). subst hash. fold genesis. rewrite (op_equal_ok 8 ltac:(lia) _ _ T3 T3), Z.eqb_refl. eauto. }
  destruct C as [checksum C]. apply wp_then. rewrite C. apply wp_some. destruct (negb _); [now apply wp_ret|]. apply wp_ret. split; [reflexivity|].
  set (b4 := with_nStakeModifierChecksum checksum b3).
  assert (F : phashBlock b4 = hash /\ pprev b4 = prev /\ pnext b4 = None /\ i_nTime b4 = i_nTime b0 /\ i_nBits b4 = i_nBits b0 /\
    nChainTrust b4 = op_add 8 trust w /\ nHeight b4 = height).
  { unfold b4, b3, SetStakeModifier. destruct g; cbn; splits; try reflexivity; exact E2. }
  destruct F as (F1 & F2 & F3 & F4 & F5 & F6 & F7). split; [|now rewrite F5, E5]. unfold fits, block_ok, prev_trust. rewrite F1, F2, F3, F4, F5, F6, F7, E4, E5.
  splits; try reflexivity; try assumption; [rewrite <- E5; exact Vn|].
  destruct prev as [q|]; [exact H|]. split; [|exact H]. specialize (Xg eq_refl). subst g. apply (set_flags_generated (nFlags b2)). reflexivity.
Qed.

(** The new object is a leaf, outside the main chain. *)
Lemma best_ok_insert s a b k :
  best_ok s -> blocks s !! a = None -> pnext b = None ->
  best_ok (with_mapBlockIndex (<[k := a]> (mapBlockIndex s)) (with_blocks (<[a := b]> (blocks s)) s)).
Proof.
  intros [(t & d & T & Hd & H) G L] Ha N.
  assert (X : forall c e, blocks s !! c = Some e -> <[a := b]> (blocks s) !! c = Some e) by
    (intros c e He; rewrite lookup_insert_ne; [exact He|congruence]).
  split; [|destruct G as (g & e & E & He & Ne); exists g, e; split; [exact E|split; [now apply X|exact Ne]]|].
  - exists t, d. split; [exact T|]. split; [now apply X|exact H].
  - intros Hg. destruct (L Hg) as (l & Ll & K & C). exists l. cbn. split; [|split; [|exact C]].
    + clear -Ll Ha. induction Ll as [|c e l He Ll IH]; [constructor|]. econstructor; [|exact IH].
      rewrite lookup_insert_ne; [exact He|congruence].
    + intros c e He. apply lookup_insert_Some in He as [[<- <-]|[_ He]]; [|now apply K].
      rewrite N. symmetry. apply next_in_not. intros I. apply in_split in I as (l1 & l2 & ->).
      pose proof (line_suffix _ _ _ _ _ Ll) as Y. inversion Y. congruence.
Qed.

(** What an addition does for a block whose predecessor is indexed. *)
Definition added (hash : list Z) (s : state) (r : bool) (s' : state) : Prop :=
  inv s' /\ val (nBestChainTrust s) <= val (nBestChainTrust s') /\ mapBlockIndex s ⊆ mapBlockIndex s' /\
  (r = true -> exists a b, mapBlockIndex s' !! hash = Some a /\ blocks s' !! a = Some b /\
     val (nChainTrust b) <= val (nBestChainTrust s')).

Lemma added_nothing hash s : inv s -> added hash s false s.
Proof. intros I. split; [exact I|]. split; [lia|]. now split. Qed.

(** Once the object is entered, any step that keeps the tree and does not lower the trust. *)
Lemma added_after hash s s1 a b r s' :
  nBestChainTrust s1 = nBestChainTrust s -> mapBlockIndex s ⊆ mapBlockIndex s1 ->
  mapBlockIndex s1 !! hash = Some a -> blocks s1 !! a = Some b ->
  inv s' -> same_tree (blocks s1) (blocks s') -> mapBlockIndex s' = mapBlockIndex s1 ->
  val (nBestChainTrust s1) <= val (nBestChainTrust s') ->
  (r = true -> val (nChainTrust b) <= val (nBestChainTrust s')) ->
  added hash s r s'.
Proof.
  intros E1 E2 Ma Hb I S M T R. split; [exact I|]. split; [congruence|]. split; [now rewrite M|]. intros Er.
  destruct (same_tree_lookup _ _ a b S Hb) as (b' & Hb' & F). apply tree_part_fields in F as (_ & _ & _ & F & _).
  exists a, b'. rewrite M, F. auto.
Qed.

Lemma wp_AddToBlockIndex s nFile nBlockPos block hash hashProof :
  inv s -> block_typed block hash -> is_Some (mapBlockIndex s !! hashPrevBlock block) ->
  wp (AddToBlockIndex nFile nBlockPos block hash hashProof) (added hash s) s.
Proof.
  intros I Ty [q Hq]. pose proof I as [W B]. unfold BlockTree.AddToBlockIndex. apply wp_then, wp_read.
  destruct (mapBlockIndex s !! hash) eqn:Hh; [apply wp_ret; now apply added_nothing|].
  apply wp_then. eapply wp_weaken; [apply (wp_new_index s nFile nBlockPos block hash hashProof W Ty); congruence|].
  intros [b|] s0 [-> F]; [|apply wp_ret; now apply added_nothing].
  rewrite Hq in F. destruct F as [F _]. destruct F as (F1 & F2 & F3 & F4 & F5 & F6 & c & Hc & F7).
  apply wp_then, wp_read. set (a := fresh (dom (blocks s))).
  assert (Ha : blocks s !! a = None) by (apply (not_elem_of_dom (D := gset positive)), is_fresh).
  apply wp_then, wp_update. set (s1 := with_mapBlockIndex _ (with_blocks _ s)).
  assert (I1 : inv s1).
  { split; [|now apply best_ok_insert]. apply tree_ok_insert; try assumption; [apply Ty|]. rewrite F2. eauto. }
  assert (M1 : mapBlockIndex s1 !! hash = Some a) by apply lookup_insert_eq.
  assert (B1 : blocks s1 !! a = Some b) by apply lookup_insert_eq.
  assert (A : forall r s', inv s' -> same_tree (blocks s1) (blocks s') -> mapBlockIndex s' = mapBlockIndex s1 ->
    val (nBestChainTrust s1) <= val (nBestChainTrust s') -> (r = true -> val (nChainTrust b) <= val (nBestChainTrust s')) ->
    added hash s r s').
  { intros r s'. apply (added_after hash s s1 a b r s'); [reflexivity|now apply insert_subseteq|exact M1|exact B1]. }
  apply wp_then, wp_read, wp_then, (wp_weaken _ (fun _ s' => quiet s1 s')).
  { destruct (IsProofOfStake b); [apply wp_update|apply wp_ret]; split; try split; easy. }
  intros ? s2 Q2. apply wp_then. eapply wp_weaken; [apply wp_ask|]. intros begun s3 Q3.
  assert (Q : quiet s1 s3) by now transitivity s2. clear s2 Q2 Q3.
  assert (AQ : forall s', quiet s1 s' -> added hash s false s').
  { intros s' Q'. apply A; [now apply (inv_quiet genesis s1)|now apply quiet_tree|apply Q'| |easy].
    destruct (quiet_best s1 s' Q') as (_ & _ & _ & ->). lia. }
  destruct begun; cbn [negb]; [|apply wp_ret; now apply AQ].
  apply wp_then. eapply wp_weaken; [apply wp_ask|]. intros ? s2 Q2. apply wp_then. eapply wp_weaken; [apply wp_ask|].
  intros committed s4 Q4. assert (Q' : quiet s1 s4) by (transitivity s3; [exact Q|now transitivity s2]). clear s2 s3 Q Q2 Q4.
  destruct committed; cbn [negb]; [|apply wp_ret; now apply AQ]. apply wp_then, wp_read.
  pose proof (inv_quiet genesis s1 s4 Q' I1) as I4. destruct (quiet_best s1 s4 Q') as (_ & _ & _ & E4).
  assert (Wt : words_ok 8 (nBestChainTrust s4)).
  { destruct I4 as [W4 [(t & d & _ & Hd & _ & _ & ->) _ _]]. apply (tree_fields _ _ _ W4 t d Hd). }
  destruct (comparisons_ok 8 ltac:(lia) _ _ F5 Wt) as (_ & _ & -> & _).
  destruct (Z.ltb_spec (val (nBestChainTrust s4)) (val (nChainTrust b))) as [C|C].
  - destruct (quiet_lookup s1 s4 a b Q' B1) as (b4 & Hb4 & T4 & _). apply tree_part_fields in T4 as (T1 & _ & T3 & T4 & _).
    destruct (proj1 (tree_index _ _ _ (proj1 I4) (hashPrevBlock block) q)) as (c4 & Hc4 & Ec4).
    { rewrite (quiet_index s1 s4 Q'). cbn. rewrite lookup_insert_ne; [exact Hq|congruence]. }
    eapply wp_weaken; [apply (wp_SetBestChain fTestNet hashGenesisBlock hashGenesisBlockTestNet answer amounts s4 hash (hashPrevBlock block) a b4 q c4); congruence|].
    intros r s5 (I5 & S5 & M5 & BA). apply A; [exact I5|now rewrite (quiet_tree s1 s4 Q')|rewrite M5; apply Q'| |].
    + rewrite <- E4. unfold best_after in BA. destruct r; destruct BA as [_ ->]; [rewrite T4|]; lia.
    + intros ->. destruct BA as [_ ->]. rewrite T4. lia.
  - apply wp_ret. apply A; [exact I4|now apply quiet_tree|apply Q'|rewrite E4; lia|intros _; lia].
Qed.

(** The genesis block, entered in an empty index. *)
Lemma tree_ok_empty : tree_ok genesis ∅ ∅.
Proof.
  split; [apply heap_ok_empty| |intros a b; now rewrite lookup_empty..]. intros k a. rewrite lookup_empty. split; [easy|].
  intros (b & Hb & _). now rewrite lookup_empty in Hb.
Qed.

Lemma quiet_singleton s s' a b :
  quiet s s' -> blocks s = {[a := b]} ->
  exists b', blocks s' = {[a := b']} /\ tree_part b' = tree_part b /\ pnext b' = pnext b.
Proof.
  intros Q B. destruct (quiet_lookup s s' a b Q) as (b' & Hb' & F); [rewrite B; apply lookup_singleton_eq|].
  exists b'. split; [|exact F]. apply map_eq. intros c. destruct (decide (a = c)) as [<-|N]; [now rewrite lookup_singleton_eq|].
  pose proof (quiet_blocks s s' Q c) as X. rewrite B in X. rewrite lookup_singleton_ne in X |- * by exact N. now destruct (blocks s' !! c).
Qed.

Lemma wp_AddToBlockIndex_genesis nFile nBlockPos block hashProof :
  block_typed block genesis -> 0 < block_trust (nBits block) ->
  wp (AddToBlockIndex nFile nBlockPos block genesis hashProof) (fun r s => r = true -> inv s /\ is_Some (mapBlockIndex s !! genesis)) initial.
Proof.
  intros Ty Tr. unfold BlockTree.AddToBlockIndex. apply wp_then, wp_read. cbn [initial mapBlockIndex]. rewrite lookup_empty. apply wp_then.
  eapply wp_weaken; [apply (wp_new_index initial nFile nBlockPos block genesis hashProof tree_ok_empty Ty); reflexivity|].
  intros [b|] s0 [-> F]; [|now apply wp_ret]. destruct F as [(F1 & F2 & F3 & F4 & F5 & F6 & F7 & F8) Fb].
  cbn [initial mapBlockIndex blocks] in F2, F6, F7. rewrite lookup_empty in F2.
  apply wp_then, wp_read. set (a := fresh (dom (blocks initial))). apply wp_then, wp_update. set (s1 := with_mapBlockIndex _ (with_blocks _ initial)).
  assert (W1 : tree_ok genesis (blocks s1) (mapBlockIndex s1)).
  { apply tree_ok_insert; try assumption; try apply lookup_empty; [apply tree_ok_empty|apply Ty|]. now rewrite F2. }
  assert (B1 : blocks s1 = {[a := b]}) by reflexivity.
  apply wp_then, wp_read, wp_then, (wp_weaken _ (fun _ s' => quiet s1 s')).
  { destruct (IsProofOfStake b); [apply wp_update|apply wp_ret]; split; try split; easy. }
  intros ? s2 Q2. apply wp_then. eapply wp_weaken; [apply wp_ask|]. intros [] s3 Q3; cbn [negb]; [|now apply wp_ret].
  apply wp_then. eapply wp_weaken; [apply wp_ask|]. intros ? s4 Q4. apply wp_then. eapply wp_weaken; [apply wp_ask|].
  intros [] s5 Q5; cbn [negb]; [|now apply wp_ret].
  assert (Q : quiet s1 s5) by (transitivity s3; [now transitivity s2|now transitivity s4]). clear s2 s3 s4 Q2 Q3 Q4 Q5.
  apply wp_then, wp_read. destruct (quiet_best s1 s5 Q) as (_ & _ & _ & ->).
  destruct (comparisons_ok 8 ltac:(lia) _ _ F5 (proj1 (zeros_ok 8))) as (_ & _ & E & _). change (nBestChainTrust s1) with (zeros 8). rewrite E. clear E.
  pose proof (block_trust_range (nBits block)) as R. rewrite Fb in F6. unfold prev_trust in F6. rewrite F2 in F6. cbn [deref] in F6.
  rewrite Z.add_0_l, Z.mod_small in F6 by exact R. rewrite F6. change (val (zeros 8)) with 0. destruct (Z.ltb_spec 0 (block_trust (nBits block))); [|lia].
  destruct (quiet_singleton s1 s5 a b Q B1) as (b5 & B5 & T5 & N5). apply tree_part_fields in T5 as (T1 & _ & T3 & _).
  eapply wp_weaken.
  { apply (wp_SetBestChain_genesis fTestNet hashGenesisBlock hashGenesisBlockTestNet answer amounts s5 a b5); try congruence.
    - apply (tree_ok_same genesis (blocks s1)); [now apply quiet_tree|]. rewrite (quiet_index s1 s5 Q). exact W1.
    - apply (quiet_genesis s1 s5 Q). }
  intros [] s6 P; [|easy]. intros _. destruct P as (I & _ & M & _). split; [exact I|]. rewrite M, (quiet_index s1 s5 Q). exists a. apply lookup_insert_eq.
Qed.
End Add.
