(* ===== verification/Locator.v ===== *)
(** * main.h, main.cpp: finding blocks of the main chain

    [FindBlockByHeight], which remembers the last block it found, and
    [CBlockLocator], the hashes by which one node tells another where its chain is. *)

From stdpp Require Import gmap list.
From Stdlib Require Import ZArith Lia.
From S2P Require Import Prelude SphTypes Uint256 Transaction BigNum Chain Consensus BlockTree.
Local Open Scope Z_scope.

(** [CBlockIndex::IsInMainChain] *)
Definition IsInMainChain (s : state) (pindex : positive) (b : CBlockIndex) : bool :=
  match pnext b with Some _ => true | None => bool_decide (Some pindex = pindexBest s) end.

(** The two loops of [FindBlockByHeight]. *)
Fixpoint down_loop (fuel : nat) (height : Z) (pblockindex : pointer) : M pointer :=
  match fuel with
  | O => of_option None
  | S fuel => b ← load pblockindex; if height <? nHeight b then down_loop fuel height (pprev b) else return_ pblockindex
  end.
Fixpoint up_loop (fuel : nat) (height : Z) (pblockindex : pointer) : M pointer :=
  match fuel with
  | O => of_option None
  | S fuel => b ← load pblockindex; if nHeight b <? height then up_loop fuel height (pnext b) else return_ pblockindex
  end.

(** Where the search starts: the nearer of one end of the chain and the last block found. *)
Definition search_start (height : Z) : M pointer :=
  best_height ← get nBestHeight;
  pblockindex ← (if height <? Z.quot best_height 2 then get pindexGenesisBlock else get pindexBest);
  last ← get pblockindexFBBHLast;
  match last with
  | Some _ =>
      b ← load pblockindex;
      c ← load last;
      return_ (if Z.abs (height - nHeight c) <? Z.abs (height - nHeight b) then last else pblockindex)
  | None => return_ pblockindex
  end.

Definition FindBlockByHeight (height : Z) : M pointer :=
  pblockindex ← search_start height;
  b ← load pblockindex;
  pblockindex ← down_loop (S (S (Z.to_nat (nHeight b)))) height pblockindex;
  pblockindex ← up_loop (S (S (Z.to_nat height))) height pblockindex;
  modify (with_pblockindexFBBHLast pblockindex);;
  return_ pblockindex.

(** ** CBlockLocator *)

Section Locator.
  Variable s : state.
  Variable genesis : list Z.

(** [for (int i = 0; pindex && i < nStep; i++) pindex = pindex->pprev] *)
Fixpoint step_back (nStep : nat) (pindex : pointer) : option pointer :=
  match nStep, pindex with
  | S nStep, Some _ => let* b := deref (blocks s) pindex in step_back nStep (pprev b)
  | _, _ => Some pindex
  end.

(** The hashes appended to [vHave], of which there are [size] before. *)
Fixpoint set_loop (fuel : nat) (nStep : nat) (size : nat) (pindex : pointer) : option (list (list Z)) :=
  match fuel with
  | O => None
  | S fuel =>
      match pindex with
      | None => Some []
      | Some _ =>
          let* b := deref (blocks s) pindex in
          let* pindex := step_back nStep pindex in
          let nStep := if (10 <? S size)%nat then (nStep * 2)%nat else nStep in
          if (1024 <? nStep)%nat then Some [phashBlock b]
          else let* rest := set_loop fuel nStep (S size) pindex in Some (phashBlock b :: rest)
      end
  end.
Definition Set_ (pindex : pointer) : option (list (list Z)) :=
  let* vHave := set_loop 22 1 0 pindex in Some (vHave ++ [genesis]).

(** The first hash of a block of the main chain, and the block. *)
Fixpoint first_in_main (vHave : list (list Z)) : option (option (list Z * positive)) :=
  match vHave with
  | [] => Some None
  | hash :: vHave =>
      match mapBlockIndex s !! hash with
      | Some pindex =>
          let* b := blocks s !! pindex in
          if IsInMainChain s pindex b then Some (Some (hash, pindex)) else first_in_main vHave
      | None => first_in_main vHave
      end
  end.
Definition GetBlockIndex (vHave : list (list Z)) : option pointer :=
  let* r := first_in_main vHave in
  Some match r with Some (_, pindex) => Some pindex | None => pindexGenesisBlock s end.
Definition GetBlockHash (vHave : list (list Z)) : option (list Z) :=
  let* r := first_in_main vHave in
  Some match r with Some (hash, _) => hash | None => genesis end.
Definition GetHeight (vHave : list (list Z)) : option Z :=
  let* pindex := GetBlockIndex vHave in
  match pindex with None => Some 0 | Some _ => let* b := deref (blocks s) pindex in Some (nHeight b) end.

(** ** The answer to getblocks *)

(** The hashes announced, and [hashContinue] when the limit is reached. *)
Fixpoint getblocks_loop (nLimit : nat) (hashStop : list Z) (pindex : pointer) : option (list (list Z) * option (list Z)) :=
  match nLimit, pindex with
  | S nLimit, Some _ =>
      let* b := deref (blocks s) pindex in
      if op_equal 8 (phashBlock b) hashStop then
        let* best := deref (blocks s) (pindexBest s) in
        Some (if op_not_equal 8 hashStop (hashBestChain s) && (GetBlockTime best <? GetBlockTime b + nStakeMinAge)
              then [hashBestChain s] else [], None)
      else
        match nLimit with
        | O => Some ([phashBlock b], Some (phashBlock b))
        | S _ => let* r := getblocks_loop nLimit hashStop (pnext b) in Some (phashBlock b :: r.1, r.2)
        end
  | _, _ => Some ([], None)
  end.
Definition getblocks (vHave : list (list Z)) (hashStop : list Z) : option (list (list Z) * option (list Z)) :=
  let* pindex := GetBlockIndex vHave in
  let* pindex := match pindex with Some _ => let* b := deref (blocks s) pindex in Some (pnext b) | None => Some None end in
  getblocks_loop 1000 hashStop pindex.

(** ** The answer to getheaders *)

Definition GetBlockHeader (b : CBlockIndex) : option CBlock :=
  let* hashPrev := match pprev b with
                   | Some prev => let* c := blocks s !! prev in Some (phashBlock c)
                   | None => Some (zeros 8)
                   end in
  Some (Block (i_nVersion b) hashPrev (i_hashMerkleRoot b) (i_nTime b) (i_nBits b) (i_nNonce b) [] []).

Fixpoint getheaders_loop (nLimit : nat) (hashStop : list Z) (pindex : pointer) : option (list CBlock) :=
  match nLimit, pindex with
  | S nLimit, Some _ =>
      let* b := deref (blocks s) pindex in
      let* header := GetBlockHeader b in
      if op_equal 8 (phashBlock b) hashStop then Some [header]
      else let* r := getheaders_loop nLimit hashStop (pnext b) in Some (header :: r)
  | _, _ => Some []
  end.
(** The headers sent; [None] inside where no message is sent. *)
Definition getheaders (fInitialBlockDownload : bool) (vHave : list (list Z)) (hashStop : list Z) : option (option (list CBlock)) :=
  if fInitialBlockDownload then Some None
  else
    match vHave with
    | [] =>
        match mapBlockIndex s !! hashStop with
        | None => Some None
        | Some pindex => let* r := getheaders_loop 2000 hashStop (Some pindex) in Some (Some r)
        end
    | _ =>
        let* pindex := GetBlockIndex vHave in
        let* pindex := match pindex with Some _ => let* b := deref (blocks s) pindex in Some (pnext b) | None => Some None end in
        let* r := getheaders_loop 2000 hashStop pindex in Some (Some r)
    end.
End Locator.
