(* ===== verification/BlockTreeTheorems.v ===== *)
(** * What the block index promises

    The states the program reaches from an empty index, by adding blocks and looking blocks up, whatever
    the database answers; and what a node tells another of its chain. *)

From stdpp Require Import gmap list.
From Stdlib Require Import ZArith Lia.
From S2P Require Import Prelude SphTypes Uint256 Uint256Proof Transaction BigNum BigNumTheorems Chain ChainProof Consensus ConsensusProof Kernel KernelProof BlockTree BlockTreeProof BlockTreeInv Locator.
Local Open Scope Z_scope.

(** ** Lemmas on finding blocks of the main chain *)

(** A block of a branch by its depth. *)
Lemma line_at h p l n : line h p l -> (n < length l)%nat -> exists l1 c l2, l = l1 ++ c :: l2 /\ length l2 = n.
Proof.
  intros L H. destruct (nth_error l (length l - 1 - n)) as [c|] eqn:E; [|apply nth_error_None in E; lia].
  apply nth_error_split in E as (l1 & l2 & -> & E). exists l1, c, l2. split; [reflexivity|].
  rewrite length_app in *. cbn [length] in *. lia.
Qed.

Lemma line_same_depth (l : list positive) l1 l2 l1' l2' c c' :
  l = l1 ++ c :: l2 -> l = l1' ++ c' :: l2' -> length l2 = length l2' -> l1 = l1' /\ c = c' /\ l2 = l2'.
Proof.
  intros -> E H. assert (L : length l1 = length l1').
  { apply (f_equal (@length _)) in E. rewrite !length_app in E. cbn [length] in E. lia. }
  apply app_inj_1 in E as [-> E]; [|exact L]. now injection E.
Qed.

Section Main.
  Variable genesis : list Z.
  Variable s : state.
  Hypothesis I : inv genesis s.
  Variable l : list positive.
  Hypothesis Ll : line (blocks s) (pindexBest s) l.
  Hypothesis Kl : links (blocks s) l.

Lemma main_height l1 c l2 : l = l1 ++ c :: l2 ->
  exists b, blocks s !! c = Some b /\ nHeight b = Z.of_nat (length l2) /\ line (blocks s) (pprev b) l2.
Proof.
  clear Kl. intros E. pose proof Ll as L0. rewrite E in L0. pose proof (line_suffix _ _ _ _ _ L0) as L. inversion L as [|? b ? Hb L']; subst; clear L0.
  exists b. splits; [exact Hb| |exact L']. apply (line_height (blocks s) c b l2 (tree_heap _ _ _ (proj1 I)) Hb L).
Qed.

Lemma main_best : exists t l', l = t :: l' /\ pindexBest s = Some t /\ nBestHeight s = Z.of_nat (length l').
Proof.
  destruct I as [_ [(t & b & T & Hb & _ & H & _) _ _]]. pose proof Ll as L0. rewrite T in L0. inversion L0 as [|? b' l' Hb' L E1 E2].
  exists t, l'. splits; [reflexivity|exact T|]. destruct (main_height [] t l') as (b'' & Hb'' & E & _); [cbn; congruence|]. congruence.
Qed.

Lemma IsInMainChain_ok a b : blocks s !! a = Some b -> IsInMainChain s a b = true <-> In a l.
Proof.
  intros Hb. unfold IsInMainChain. rewrite (Kl a b Hb). destruct main_best as (t & l' & El & T & _). split.
  - destruct (next_in l a) as [x|] eqn:N; intros H.
    + apply next_in_some in N as (l1 & l2 & ->). apply in_or_app. right. right. now left.
    + apply bool_decide_eq_true in H. rewrite T in H. injection H as ->. rewrite El. now left.
  - intros H. destruct (next_in_defined l a H) as [E|[x ->]]; [|reflexivity].
    rewrite El in E. injection E as ->. destruct (next_in l a); [reflexivity|]. now apply bool_decide_eq_true.
Qed.

(** ** The block at a height *)

Lemma wp_down_loop fuel height a l2 :
  line (blocks s) (Some a) (a :: l2) -> (length l2 < fuel)%nat -> 0 <= height ->
  wp (down_loop fuel height (Some a))
    (fun r s' => s' = s /\ exists l1 c l3, r = Some c /\ a :: l2 = l1 ++ c :: l3 /\ Z.of_nat (length l3) = Z.min height (Z.of_nat (length l2))) s.
Proof.
  revert a l2. induction fuel as [|fuel IH]; intros a l2 L F H; [lia|]. inversion L as [|? b ? Hb L']; subst.
  cbn [down_loop]. apply wp_then, (wp_load a b); [exact Hb|].
  rewrite (line_height (blocks s) a b l2 (tree_heap _ _ _ (proj1 I)) Hb L).
  destruct (Z.ltb_spec height (Z.of_nat (length l2))) as [C|C].
  - destruct l2 as [|q l2]; [cbn in C; lia|]. inversion L' as [|? c ? Hc L'']; subst.
    eapply wp_weaken; [apply (IH q l2); [congruence|cbn in F |- *; lia|exact H]|].
    intros r s' (-> & l1 & x & l3 & -> & E & K). split; [reflexivity|]. exists (a :: l1), x, l3. splits; [reflexivity|cbn; now rewrite E|].
    rewrite K. cbn [length] in *. lia.
  - apply wp_ret. split; [reflexivity|]. exists [], a, l2. splits; [easy..|lia].
Qed.

Lemma next_of l1 x a l2 : l = l1 ++ x :: a :: l2 -> next_in l a = Some x.
Proof.
  pose proof (line_nodup _ _ _ Ll) as N. intros E. rewrite E in N |- *. clear -N.
  induction l1 as [|y l1 IH]; cbn [app next_in]; [now rewrite decide_True|].
  cbn [app] in N. inversion N as [|? ? N1 N2]; subst.
  destruct (l1 ++ x :: a :: l2) as [|z r] eqn:E; [now destruct l1|]. destruct (decide (a = z)) as [->|D]; [|now apply IH].
  exfalso. destruct l1 as [|w l1]; cbn in E; injection E as <- <-.
  - inversion N2 as [|? ? N3 _]. apply N3. now left.
  - inversion N2 as [|? ? N3 _]. apply N3. apply in_or_app. right. right. now left.
Qed.

Lemma wp_up_loop fuel height l1 a l2 :
  l = l1 ++ a :: l2 -> Z.of_nat (length l2) <= height < Z.of_nat (length l) -> height - Z.of_nat (length l2) < Z.of_nat fuel ->
  wp (up_loop fuel height (Some a))
    (fun r s' => s' = s /\ exists l1 c l3, r = Some c /\ l = l1 ++ c :: l3 /\ Z.of_nat (length l3) = height) s.
Proof.
  revert l1 a l2. induction fuel as [|fuel IH]; intros l1 a l2 E H F; [lia|].
  destruct (main_height l1 a l2 E) as (b & Hb & Eh & _). cbn [up_loop]. apply wp_then, (wp_load a b); [exact Hb|]. rewrite Eh.
  destruct (Z.ltb_spec (Z.of_nat (length l2)) height) as [C|C].
  - destruct l1 as [|y l1] using rev_ind; [rewrite E in H; cbn [app length] in H; lia|]. clear IHl1.
    rewrite <- app_assoc in E. cbn [app] in E. rewrite (Kl a b Hb), (next_of _ _ _ _ E).
    apply (IH l1 y (a :: l2) E); cbn [length]; lia.
  - apply wp_ret. split; [reflexivity|]. exists l1, a, l2. splits; [easy..|lia].
Qed.

Hypothesis Cl : forall a, pblockindexFBBHLast s = Some a -> In a l.

Lemma wp_search_start height : wp (search_start height) (fun p s' => s' = s /\ exists a, p = Some a /\ In a l) s.
Proof.
  unfold search_start. apply wp_then, wp_read.
  destruct main_best as (t & l' & El & T & _). apply wp_then, (wp_weaken _ (fun p s' => s' = s /\ exists a, p = Some a /\ In a l)).
  - destruct (_ <? _); apply wp_read; (split; [reflexivity|]); [|exists t; rewrite El; split; [exact T|now left]].
    destruct I as [W [_ (g & b & -> & Hb & N) _]]. exists g. split; [reflexivity|].
    destruct (exists_last (l := l)) as (l1 & r & E); [now rewrite El|]. destruct (main_height l1 r [] E) as (c & Hc & _ & L).
    rewrite (one_root genesis _ _ W r c Hc) with (a := g) (b := b); [rewrite E; apply in_or_app; right; now left| |exact Hb|exact N].
    now inversion L.
  - intros p s' (-> & a & -> & Ia). apply wp_then, wp_read.
    assert (V : forall x, In x l -> exists b, blocks s !! x = Some b).
    { intros x Hx. apply in_split in Hx as (l1 & l2 & E). destruct (main_height l1 x l2 E) as (b & Hb & _). eauto. }
    destruct (pblockindexFBBHLast s) as [c|] eqn:E; [|apply wp_ret; eauto].
    destruct (V a Ia) as [b Hb]. destruct (V c (Cl c eq_refl)) as [d Hd].
    apply wp_then, (wp_load a b); [exact Hb|]. apply wp_then, (wp_load c d); [exact Hd|]. apply wp_ret. split; [reflexivity|].
    destruct (_ <? _); [|eauto]. exists c. split; [reflexivity|]. now apply Cl.
Qed.

Lemma wp_FindBlockByHeight height :
  0 <= height <= nBestHeight s ->
  wp (FindBlockByHeight height)
    (fun r s' => s' = with_pblockindexFBBHLast r s /\
       exists a b, r = Some a /\ In a l /\ blocks s !! a = Some b /\ nHeight b = height) s.
Proof.
  intros H. destruct main_best as (t & l' & El & T & E). unfold FindBlockByHeight. apply wp_then.
  eapply wp_weaken; [apply wp_search_start|]. intros p s' (-> & a & -> & Ia).
  apply in_split in Ia as (l1 & l2 & Ea). destruct (main_height l1 a l2 Ea) as (b & Hb & Eb & _).
  apply wp_then, (wp_load a b); [exact Hb|]. apply wp_then.
  assert (La : line (blocks s) (Some a) (a :: l2)) by (pose proof Ll as L; rewrite Ea in L; now apply line_suffix in L).
  rewrite Eb, Nat2Z.id. eapply wp_weaken; [apply (wp_down_loop _ height a l2 La); lia|].
  intros r s' (-> & l3 & c & l4 & -> & Ec & K). apply wp_then.
  eapply wp_weaken; [apply (wp_up_loop _ height (l1 ++ l3) c l4)|].
  - now rewrite Ea, Ec, <- app_assoc.
  - rewrite El. cbn [length]. lia.
  - lia.
  - intros r s' (-> & l5 & d & l6 & -> & Ed & Kd). apply wp_then, wp_update, wp_ret. split; [reflexivity|].
    destruct (main_height l5 d l6 Ed) as (e & He & Ee & _). exists d, e. splits; [reflexivity| |exact He|lia].
    rewrite Ed. apply in_or_app. right. now left.
Qed.
End Main.

(** ** The locator of a block *)

(** The depths of the blocks a locator names, and whether the step outgrows the limit within the fuel. *)
Fixpoint depths (fuel step size pos : nat) : list nat :=
  match fuel with
  | O => []
  | S fuel =>
      let step' := if (10 <? S size)%nat then (step * 2)%nat else step in
      pos :: if (1024 <? step')%nat then [] else depths fuel step' (S size) (pos + step)
  end.
Fixpoint stops (fuel step size : nat) : bool :=
  match fuel with
  | O => false
  | S fuel =>
      let step' := if (10 <? S size)%nat then (step * 2)%nat else step in
      if (1024 <? step')%nat then true else stops fuel step' (S size)
  end.
Definition locator_depths : list nat := [0;1;2;3;4;5;6;7;8;9;10;11;13;17;25;41;73;137;265;521;1033]%nat.

Lemma locator_depths_ok : depths 22 1 0 0 = locator_depths /\ stops 22 1 0 = true.
Proof. split; vm_compute; reflexivity. Qed.

Definition hash_at (h : heap) (a : positive) : list Z := match h !! a with Some b => phashBlock b | None => [] end.

Section Names.
  Variable s : state.

Lemma step_back_ok n p l : line (blocks s) p l -> exists q, step_back s n p = Some q /\ line (blocks s) q (drop n l).
Proof.
  revert p l. induction n as [|n IH]; intros p l L; [exists p; now split|].
  inversion L as [|a b l' Hb L']; subst; cbn [step_back drop]; [exists None; split; constructor|].
  unfold deref. cbn. rewrite Hb. cbn. now apply IH.
Qed.

Lemma picks_past (l : list positive) fuel step size pos :
  (length l <= pos)%nat -> omap (fun n => l !! n) (depths fuel step size pos) = [].
Proof.
  revert step size pos. induction fuel as [|fuel IH]; intros step size pos H; [reflexivity|]. cbn [depths omap list_omap].
  rewrite lookup_ge_None_2 by exact H. destruct (_ <? _)%nat; [reflexivity|]. apply IH. lia.
Qed.

Lemma set_loop_ok fuel step size pos p l :
  line (blocks s) p (drop pos l) -> stops fuel step size = true ->
  set_loop s fuel step size p = Some (map (hash_at (blocks s)) (omap (fun n => l !! n) (depths fuel step size pos))).
Proof.
  revert step size pos p. induction fuel as [|fuel IH]; intros step size pos p L St; [easy|]. cbn [set_loop depths stops] in *.
  destruct (drop pos l) as [|a l'] eqn:D; inversion L as [|? b ? Hb L']; subst.
  - pose proof (picks_past l (S fuel) step size pos) as X. cbn [depths] in X. rewrite X; [reflexivity|].
    apply (f_equal (@length _)) in D. rewrite length_drop in D. cbn in D. lia.
  - assert (E : l !! pos = Some a) by (rewrite <- (take_drop pos l), D, lookup_app_r; rewrite length_take;
      [|lia]; replace (pos - _)%nat with 0%nat; [reflexivity|]; apply (f_equal (@length _)) in D; rewrite length_drop in D; cbn in D; lia).
    unfold deref. cbn [mbind option_bind omap list_omap map]. rewrite Hb, E. cbn [map omap].
    destruct (step_back_ok step (Some a) (a :: l') L) as (q & -> & Lq). unfold hash_at at 1. rewrite Hb.
    destruct (1024 <? _)%nat; [reflexivity|]. rewrite <- D, drop_drop in Lq. now rewrite (IH _ _ _ _ Lq St).
Qed.
End Names.

Section Answer.
  Variable genesis : list Z.
  Variable s : state.
  Hypothesis I : inv genesis s.
  Variable l : list positive.
  Hypothesis Ll : line (blocks s) (pindexBest s) l.
  Hypothesis Kl : links (blocks s) l.





Abbreviation hashes v := (map (hash_at (blocks s)) v).






End Answer.


(** ** Reachable states *)

Section Reachable.
  Context {BIGNUM : Type} {ops : BN_ops BIGNUM}.
  Variable p : platform.
  Variable SHA256 : list Z -> list Z.
  Variable fTestNet : bool.
  Variables hashGenesisBlock hashGenesisBlockTestNet : list Z.
  Variable answer : nat -> bool.
  Variable amounts : nat -> option (Z * Z).
  Abbreviation genesis := (genesis_hash fTestNet hashGenesisBlock hashGenesisBlockTestNet).
  Abbreviation AddToBlockIndex := (AddToBlockIndex (ops := ops) p SHA256 fTestNet hashGenesisBlock hashGenesisBlockTestNet answer amounts).

(** The genesis block is accepted first ([LoadBlockIndex] fails otherwise); every other block follows
    an indexed one, which [AcceptBlock] checks. *)
Inductive reachable : state -> Prop :=
| reach_genesis nFile nBlockPos block hashProof s :
    block_typed block genesis -> 0 < block_trust (nBits block) ->
    AddToBlockIndex nFile nBlockPos block genesis hashProof initial = Some (true, s) -> reachable s
| reach_add s nFile nBlockPos block hash hashProof r s' :
    reachable s -> block_typed block hash -> is_Some (mapBlockIndex s !! hashPrevBlock block) ->
    AddToBlockIndex nFile nBlockPos block hash hashProof s = Some (r, s') -> reachable s'
| reach_find s height r s' :
    reachable s -> 0 <= height <= nBestHeight s -> FindBlockByHeight height s = Some (r, s') -> reachable s'.

  Context {spec : BN_spec ops}.
  Hypothesis little : order p <> SPH_BIG_ENDIAN.
  Hypothesis SHA256_ok : forall m, length (SHA256 m) = 32%nat /\ bytes (SHA256 m).

Lemma down_loop_pure fuel height a s r s' : down_loop fuel height a s = Some (r, s') -> s' = s.
Proof.
  revert a. induction fuel as [|fuel IH]; intros a; [easy|]. cbn. unfold mbind, M_bind, load.
  destruct (deref _ _); [|easy]. destruct (_ <? _); [apply IH|now intros [= _ ->]].
Qed.
Lemma up_loop_pure fuel height a s r s' : up_loop fuel height a s = Some (r, s') -> s' = s.
Proof.
  revert a. induction fuel as [|fuel IH]; intros a; [easy|]. cbn. unfold mbind, M_bind, load.
  destruct (deref _ _); [|easy]. destruct (_ <? _); [apply IH|now intros [= _ ->]].
Qed.
Lemma search_start_pure height s r s' : search_start height s = Some (r, s') -> s' = s.
Proof.
  unfold search_start, mbind, M_bind, load, get, return_, mret, M_ret. destruct (height <? _); cbn;
    (destruct (pblockindexFBBHLast s); [|now intros [= _ ->]]); repeat (destruct (deref _ _); [|easy]); now intros [= _ ->].
Qed.

Lemma FindBlockByHeight_state height s r s' : FindBlockByHeight height s = Some (r, s') -> s' = with_pblockindexFBBHLast r s.
Proof.
  unfold FindBlockByHeight, mbind, M_bind. destruct (search_start height s) as [[a s1]|] eqn:E; [|easy].
  apply search_start_pure in E. subst. unfold load. destruct (deref _ _); [|easy].
  destruct (down_loop _ _ _ _) as [[a2 s1]|] eqn:E; [|easy]. apply down_loop_pure in E. subst.
  destruct (up_loop _ _ _ _) as [[a3 s1]|] eqn:E; [|easy]. apply up_loop_pure in E. subst. now intros [= -> <-].
Qed.

Lemma inv_find s height r s' :
  inv genesis s -> 0 <= height <= nBestHeight s -> FindBlockByHeight height s = Some (r, s') -> inv genesis s'.
Proof.
  intros I H E. pose proof (FindBlockByHeight_state _ _ _ _ E) as ->. split; [apply I|]. split; [apply I|apply I|].
  cbn. intros Hg. destruct (best_links s (proj2 I) Hg) as (l & Ll & Kl & Cl). exists l. splits; [exact Ll|exact Kl|].
  pose proof (wp_FindBlockByHeight genesis s I l Ll Kl Cl height H) as P. unfold wp in P. rewrite E in P.
  destruct P as (_ & a & b & -> & Ia & _). intros ? [= <-]. exact Ia.
Qed.

Lemma reachable_inv s : reachable s -> inv genesis s.
Proof.
  induction 1 as [nFile nBlockPos block hashProof s T P E|s nFile nBlockPos block hash hashProof r s' _ IH T P E|s height r s' _ IH H E].
  - pose proof (wp_AddToBlockIndex_genesis p SHA256 fTestNet hashGenesisBlock hashGenesisBlockTestNet answer amounts little nFile nBlockPos block hashProof T P) as W.
    unfold wp in W. rewrite E in W. now apply W.
  - pose proof (wp_AddToBlockIndex p SHA256 fTestNet hashGenesisBlock hashGenesisBlockTestNet answer amounts little s nFile nBlockPos block hash hashProof IH T P) as W.
    unfold wp in W. rewrite E in W. apply W.
  - now apply (inv_find s height r s').
Qed.

(** C1: in every reachable state, whatever the database answered, the index is a tree: one root, the genesis
    block, each block where the map says, its height its depth and its trust that of its
    predecessor plus its own; and the best block, its hash, height and trust agree. *)
Theorem block_index_invariant (s : state) :
  reachable s ->
  tree_ok genesis (blocks s) (mapBlockIndex s) /\
  exists t b l, pindexBest s = Some t /\ blocks s !! t = Some b /\ line (blocks s) (Some t) (t :: l) /\
    mapBlockIndex s !! hashBestChain s = Some t /\ phashBlock b = hashBestChain s /\
    nBestHeight s = Z.of_nat (length l) /\ nBestChainTrust s = nChainTrust b.
Proof.
  intros R. pose proof (reachable_inv s R) as I. split; [apply I|].
  destruct (best_block s (proj2 I)) as (t & b & T & Hb & H1 & H2 & H3).
  destruct (line_exists (blocks s) (Some t) (tree_heap _ _ _ (proj1 I))) as [l L]; [intros ? [= <-]; eauto|].
  inversion L as [|? b' l' Hb' L' E1 E2]; subst. exists t, b, l'. splits; try easy.
  - apply (tree_index _ _ _ (proj1 I)). eauto.
  - rewrite H2. apply (line_height (blocks s) t b l' (tree_heap _ _ _ (proj1 I)) Hb L).
Qed.

(** C2: [AddToBlockIndex] on a reachable state, for a block whose predecessor is indexed, always returns: no null
    pointer is followed and its loops end, whatever the database answers, in a reachable state
    again.  The trust of the best chain never falls, no block leaves the index, and after a success the
    block is indexed and the best chain has at least its trust. *)
Theorem add_block_returns (s : state) (nFile nBlockPos : Z) (block : CBlock) (hash hashProof : list Z) :
  reachable s -> block_typed block hash -> is_Some (mapBlockIndex s !! hashPrevBlock block) ->
  exists r s', AddToBlockIndex nFile nBlockPos block hash hashProof s = Some (r, s') /\ reachable s' /\
    val (nBestChainTrust s) <= val (nBestChainTrust s') /\ mapBlockIndex s ⊆ mapBlockIndex s' /\
    (r = true -> exists a b, mapBlockIndex s' !! hash = Some a /\ blocks s' !! a = Some b /\
       val (nChainTrust b) <= val (nBestChainTrust s')).
Proof.
  intros R T P. pose proof (wp_AddToBlockIndex p SHA256 fTestNet hashGenesisBlock hashGenesisBlockTestNet answer amounts little s nFile nBlockPos block hash hashProof (reachable_inv s R) T P) as W.
  unfold wp in W. destruct (AddToBlockIndex nFile nBlockPos block hash hashProof s) as [[r s']|] eqn:E; [|easy].
  exists r, s'. split; [reflexivity|]. split; [|apply W]. now apply (reach_add s nFile nBlockPos block hash hashProof r s').
Qed.

(** C3: while every postponed block could be connected, the blocks for which [IsInMainChain] holds are exactly the
    best block and its ancestors, and [pnext] leads from each to its successor among them. *)
Theorem main_chain_links (s : state) :
  reachable s -> gap s = false ->
  exists l, line (blocks s) (pindexBest s) l /\
    forall a b, blocks s !! a = Some b ->
      (IsInMainChain s a b = true <-> In a l) /\
      (forall q, pnext b = Some q <-> exists c, In q l /\ blocks s !! q = Some c /\ pprev c = Some a).
Proof.
  intros R G. pose proof (reachable_inv s R) as I. destruct (best_links s (proj2 I) G) as (l & Ll & Kl & _).
  exists l. split; [exact Ll|]. intros a b Hb. split; [now apply (IsInMainChain_ok genesis s I l Ll Kl)|]. intros q.
  rewrite (Kl a b Hb). split.
  - intros N. apply next_in_some in N as (l1 & l2 & E). destruct (main_height genesis s I l Ll l1 q (a :: l2) E) as (c & Hc & _ & L).
    exists c. splits; [rewrite E; apply in_or_app; right; now left|exact Hc|now inversion L].
  - intros (c & Iq & Hc & Pc). apply in_split in Iq as (l1 & l2 & E). destruct (main_height genesis s I l Ll l1 q l2 E) as (c' & Hc' & _ & L).
    rewrite Hc in Hc'. injection Hc' as <-. rewrite Pc in L. inversion L as [|? ? l3 _ _ E1 E2]. subst l2. now apply (next_of s l Ll l1 q a l3).
Qed.

(** C29: while every postponed block could be connected ([gap s = false], as in [main_chain_links]), for a height of the
    main chain [FindBlockByHeight] returns its block at that height, wherever its search starts, and the block it remembers
    is never one of an abandoned branch. *)
Theorem find_by_height (s : state) (height : Z) :
  reachable s -> gap s = false -> 0 <= height <= nBestHeight s ->
  exists a b l, line (blocks s) (pindexBest s) l /\ In a l /\ blocks s !! a = Some b /\ nHeight b = height /\
    FindBlockByHeight height s = Some (Some a, with_pblockindexFBBHLast (Some a) s).
Proof.
  intros R G H. pose proof (reachable_inv s R) as I. destruct (best_links s (proj2 I) G) as (l & Ll & Kl & Cl).
  pose proof (wp_FindBlockByHeight genesis s I l Ll Kl Cl height H) as P. unfold wp in P.
  destruct (FindBlockByHeight height s) as [[r s']|] eqn:E; [|easy]. destruct P as (-> & a & b & -> & Ia & Hb & Eb).
  exists a, b, l. splits; easy.
Qed.
End Reachable.

(** ** Telling another node where the chain is *)

(** The locator of an indexed block names the block and its ancestors at the depths 1 to 11, 13, 17, 25,
    41, and so on doubling to 1033, those that exist, and last the genesis block: at
    most 22 hashes. *)
Theorem locator_of_block {BIGNUM} {ops : BN_ops BIGNUM} {spec : BN_spec ops} (p : platform) (SHA256 : list Z -> list Z) (fTestNet : bool)
    (hashGenesisBlock hashGenesisBlockTestNet : list Z) (answer : nat -> bool) (amounts : nat -> option (Z * Z))
    (s : state) (a : positive) (b : CBlockIndex) :
  order p <> SPH_BIG_ENDIAN ->
  reachable (ops := ops) p SHA256 fTestNet hashGenesisBlock hashGenesisBlockTestNet answer amounts s -> blocks s !! a = Some b ->
  let genesis := genesis_hash fTestNet hashGenesisBlock hashGenesisBlockTestNet in
  exists l v, line (blocks s) (Some a) (a :: l) /\ Set_ s genesis (Some a) = Some v /\
    v = map (hash_at (blocks s)) (omap (fun n => (a :: l) !! n) [0;1;2;3;4;5;6;7;8;9;10;11;13;17;25;41;73;137;265;521;1033]%nat) ++ [genesis] /\
    head v = Some (phashBlock b) /\ (length v <= 22)%nat.
Proof.
  intros Hp R Hb genesis. pose proof (reachable_inv _ _ _ _ _ _ _ Hp s R) as I.
  destruct (line_exists (blocks s) (Some a) (tree_heap _ _ _ (proj1 I))) as [l L]; [intros ? [= <-]; eauto|].
  inversion L as [|? ? l' _ _ E1 E2]; subst. exists l'. destruct locator_depths_ok as [D St].
  unfold Set_. rewrite (set_loop_ok s 22 1 0 0 (Some a) (a :: l') L St), D. cbn [mbind option_bind].
  eexists. splits; [exact L|reflexivity|reflexivity| |].
  - cbn. unfold hash_at. now rewrite Hb.
  - rewrite length_app, length_map. cbn [length]. change 22%nat with (length locator_depths + 1)%nat.
    apply Nat.add_le_mono_r. clear. induction locator_depths as [|n v IH]; [easy|]. cbn. destruct ((a :: l') !! n); cbn; lia.
Qed.


(** ** Concrete runs *)

Module Run.
Definition p : platform := Platform SPH_LITTLE_ENDIAN true true.
Definition SHA256 (_ : list Z) : list Z := repeat 0 32.
Definition hash (n : Z) : list Z := [n; 0; 0; 0; 0; 0; 0; 0].
Definition block (prev : list Z) (time : Z) : CBlock := Block 1 prev (zeros 8) time 0x1e0fffff 0 [] [].
(** The questions the database refuses. *)
Definition answer (refused : list nat) (n : nat) : bool := negb (bool_decide (n ∈ refused)).
Definition amounts (_ : nat) : option (Z * Z) := None.
Definition add (refused : list nat) (b : CBlock) (k : Z) : M bool :=
  AddToBlockIndex (ops := Model.ops) p SHA256 false (hash 1) (hash 2) (answer refused) amounts 1 0 b (hash k) (zeros 8).
Definition genesis_block := block (zeros 8) 1000.
Definition block1 := block (hash 1) 1030.
Definition block2 := block (hash 11) 1060.

Definition state_of {A} (o : option (A * state)) : state := match o with Some (_, s) => s | None => initial end.
Definition after1 refused : state := state_of (add refused genesis_block 1 initial).
Definition after2 refused : state := state_of (add refused block1 11 (after1 refused)).
Definition after3 refused : state := state_of (add refused block2 12 (after2 refused)).
Abbreviation reachable_from refused := (reachable (ops := Model.ops) p SHA256 false (hash 1) (hash 2) (answer refused) amounts).

Lemma typed b k : word 32 (b_nTime b) -> word 32 (nBits b) -> 0 <= k < 2 ^ 32 -> block_typed b (hash k).
Proof. intros H1 H2 H3. split; [exact H1|]. split; [exact H2|]. split; [reflexivity|]. repeat constructor; unfold word; lia. Qed.

Lemma refused_or_not refused :
  match add refused genesis_block 1 initial with Some (true, _) => True | _ => False end -> reachable_from refused (after1 refused).
Proof.
  intros H. unfold after1. destruct (add refused genesis_block 1 initial) as [[[] s]|] eqn:E; [|easy..].
  apply (reach_genesis p SHA256 false (hash 1) (hash 2) (answer refused) amounts 1 0 genesis_block (zeros 8) s); [|vm_compute; reflexivity|exact E].
  apply typed; split; (reflexivity || easy).
Qed.

Lemma then_reachable refused b k s :
  reachable_from refused s -> word 32 (b_nTime b) -> word 32 (nBits b) -> 0 <= k < 2 ^ 32 -> is_Some (mapBlockIndex s !! hashPrevBlock b) ->
  match add refused b k s with Some _ => True | None => False end -> reachable_from refused (state_of (add refused b k s)).
Proof.
  intros R H1 H2 H3 P H. destruct (add refused b k s) as [[r s']|] eqn:E; [|easy].
  apply (reach_add p SHA256 false (hash 1) (hash 2) (answer refused) amounts s 1 0 b (hash k) (zeros 8) r s' R); [now apply typed|exact P|exact E].
Qed.

Definition accepted refused : bool :=
  match add refused genesis_block 1 initial with
  | Some (true, s) => bool_decide (is_Some (mapBlockIndex s !! hash 1)) && bool_decide (is_Some (add refused block1 11 s))
  | _ => false
  end.
Lemma one_block refused : accepted refused = true -> reachable_from refused (after1 refused).
Proof.
  unfold accepted. intros H. apply refused_or_not. now destruct (add refused genesis_block 1 initial) as [[[] s]|].
Qed.
Lemma two_blocks refused : accepted refused = true -> reachable_from refused (after2 refused).
Proof.
  intros H. unfold after2. pose proof (one_block refused H) as R. unfold accepted, after1 in *.
  destruct (add refused genesis_block 1 initial) as [[[] s]|]; [|easy..]. cbn [state_of] in *.
  apply andb_true_iff in H as [H1 H2]. apply bool_decide_eq_true in H1, H2.
  apply then_reachable; [exact R|split; (reflexivity || easy)|split; (reflexivity || easy)|easy|exact H1|].
  now destruct H2 as [x ->].
Qed.

Lemma little : order p <> SPH_BIG_ENDIAN.
Proof. easy. Qed.
Lemma reached2 : reachable_from [] (after2 []).
Proof. apply two_blocks. vm_compute. reflexivity. Qed.
Lemma reached3 : reachable_from [] (after3 []).
Proof.
  assert (A : bool_decide (is_Some (mapBlockIndex (after2 []) !! hash 11)) && bool_decide (is_Some (add [] block2 12 (after2 []))) = true) by
    (vm_compute; reflexivity).
  apply andb_true_iff in A as [H1 H2]. apply bool_decide_eq_true in H1, H2.
  apply then_reachable; [apply reached2|split; (reflexivity || easy)|split; (reflexivity || easy)|easy|exact H1|].
  now destruct H2 as [x ->].
Qed.
End Run.

Abbreviation run_genesis := (genesis_hash false (Run.hash 1) (Run.hash 2)).
Abbreviation run3 := (Run.after3 []).

Lemma block_index_invariant_witness :
  tree_ok run_genesis (blocks run3) (mapBlockIndex run3) /\
  exists t b l, pindexBest run3 = Some t /\ blocks run3 !! t = Some b /\ line (blocks run3) (Some t) (t :: l) /\
    mapBlockIndex run3 !! hashBestChain run3 = Some t /\ phashBlock b = hashBestChain run3 /\
    nBestHeight run3 = Z.of_nat (length l) /\ nBestChainTrust run3 = nChainTrust b.
Proof. exact (block_index_invariant Run.p Run.SHA256 false (Run.hash 1) (Run.hash 2) (Run.answer []) Run.amounts Run.little run3 Run.reached3). Defined.

Lemma add_block_returns_witness :
  exists r s', Run.add [] Run.block2 12 (Run.after2 []) = Some (r, s') /\ Run.reachable_from [] s' /\
    val (nBestChainTrust (Run.after2 [])) <= val (nBestChainTrust s') /\ mapBlockIndex (Run.after2 []) ⊆ mapBlockIndex s' /\
    (r = true -> exists a b, mapBlockIndex s' !! Run.hash 12 = Some a /\ blocks s' !! a = Some b /\
       val (nChainTrust b) <= val (nBestChainTrust s')).
Proof.
  assert (A : bool_decide (is_Some (mapBlockIndex (Run.after2 []) !! Run.hash 11)) = true) by (vm_compute; reflexivity).
  apply bool_decide_eq_true in A.
  apply (add_block_returns (ops := Model.ops) Run.p Run.SHA256 false (Run.hash 1) (Run.hash 2) (Run.answer []) Run.amounts Run.little
    (Run.after2 []) 1 0 Run.block2 (Run.hash 12) (zeros 8) Run.reached2); [|exact A].
  apply Run.typed; [split; (reflexivity || easy)|split; (reflexivity || easy)|easy].
Defined.

Lemma main_chain_links_witness :
  gap run3 = false /\
  exists l, line (blocks run3) (pindexBest run3) l /\
    forall a b, blocks run3 !! a = Some b ->
      (IsInMainChain run3 a b = true <-> In a l) /\
      (forall q, pnext b = Some q <-> exists c, In q l /\ blocks run3 !! q = Some c /\ pprev c = Some a).
Proof.
  assert (G : gap run3 = false) by (vm_compute; reflexivity). split; [exact G|].
  exact (main_chain_links Run.p Run.SHA256 false (Run.hash 1) (Run.hash 2) (Run.answer []) Run.amounts Run.little run3 Run.reached3 G).
Defined.

Lemma find_by_height_witness :
  exists a b l, line (blocks run3) (pindexBest run3) l /\ In a l /\ blocks run3 !! a = Some b /\ nHeight b = 1 /\
    FindBlockByHeight 1 run3 = Some (Some a, with_pblockindexFBBHLast (Some a) run3).
Proof.
  assert (G : gap run3 = false) by (vm_compute; reflexivity). assert (H : nBestHeight run3 = 2) by (vm_compute; reflexivity).
  apply (find_by_height Run.p Run.SHA256 false (Run.hash 1) (Run.hash 2) (Run.answer []) Run.amounts Run.little run3 1 Run.reached3 G).
  rewrite H. lia.
Defined.

Lemma locator_of_block_witness :
  exists b, blocks run3 !! 3%positive = Some b /\
  exists l v, line (blocks run3) (Some 3%positive) (3%positive :: l) /\ Set_ run3 run_genesis (Some 3%positive) = Some v /\
    v = map (hash_at (blocks run3)) (omap (fun n => (3%positive :: l) !! n) [0;1;2;3;4;5;6;7;8;9;10;11;13;17;25;41;73;137;265;521;1033]%nat) ++ [run_genesis] /\
    head v = Some (phashBlock b) /\ (length v <= 22)%nat.
Proof.
  destruct (blocks run3 !! 3%positive) as [b|] eqn:B; [|vm_compute in B; discriminate]. exists b. split; [reflexivity|].
  exact (locator_of_block Run.p Run.SHA256 false (Run.hash 1) (Run.hash 2) (Run.answer []) Run.amounts run3 3 b Run.little Run.reached3 B).
Defined.


(** The block that fails to connect becomes the best one all the same.  A block is entered but its database commit
    fails; its successor is added, its predecessor is connected by [Reorganize], and when [ConnectBlock] then
    refuses the successor itself, [SetBestChain] still makes it the best block and reports success. *)
Theorem unconnected_best_block :
  exists s s' b, Run.reachable_from [8; 19]%nat s /\ Run.add [8; 19]%nat Run.block2 12 s = Some (true, s') /\
    Run.answer [8; 19]%nat 19 = false /\ hashBestChain s' = Run.hash 12 /\
    mapBlockIndex s' !! Run.hash 11 = Some 2%positive /\ blocks s' !! 2%positive = Some b /\
    line (blocks s') (pindexBest s') [3; 2; 1]%positive /\
    IsInMainChain s' 2 b = false /\ gap s' = true.
Proof.
  assert (A : Run.accepted [8; 19]%nat = true) by (vm_compute; reflexivity).
  assert (L : line (blocks (Run.after3 [8; 19]%nat)) (pindexBest (Run.after3 [8; 19]%nat)) [3; 2; 1]%positive).
  { vm_compute. repeat (eapply line_block; [reflexivity|]). apply line_null. }
  destruct (blocks (Run.after3 [8; 19]%nat) !! 2%positive) as [b|] eqn:B; [|vm_compute in B; discriminate].
  exists (Run.after2 [8; 19]%nat), (Run.after3 [8; 19]%nat), b.
  split; [exact (Run.two_blocks _ A)|]. splits; try exact B; try exact L; try (vm_compute; reflexivity).
  vm_compute in B. injection B as <-. vm_compute. reflexivity.
Qed.
