(* ===== verification/Script.v ===== *)
(** * script.h, script.cpp: scripts as sequences of instructions

    A script is a list of bytes.  An iterator is the rest of the script it points at. *)

From stdpp Require Import list.
From Stdlib Require Import ZArith Lia.
From S2P Require Import Prelude SphTypes Serialize BigNum.
Local Open Scope Z_scope.

(** ** Opcodes *)

Abbreviation OP_0 := 0x00 (only parsing).
Abbreviation OP_PUSHDATA1 := 0x4c (only parsing).
Abbreviation OP_PUSHDATA2 := 0x4d (only parsing).
Abbreviation OP_PUSHDATA4 := 0x4e (only parsing).
Abbreviation OP_1NEGATE := 0x4f (only parsing).
Abbreviation OP_1 := 0x51 (only parsing).
Abbreviation OP_16 := 0x60 (only parsing).
Abbreviation OP_NOP := 0x61 (only parsing).
Abbreviation OP_IF := 0x63 (only parsing).
Abbreviation OP_NOTIF := 0x64 (only parsing).
Abbreviation OP_ELSE := 0x67 (only parsing).
Abbreviation OP_ENDIF := 0x68 (only parsing).
Abbreviation OP_VERIFY := 0x69 (only parsing).
Abbreviation OP_RETURN := 0x6a (only parsing).
Abbreviation OP_TOALTSTACK := 0x6b (only parsing).
Abbreviation OP_FROMALTSTACK := 0x6c (only parsing).
Abbreviation OP_2DROP := 0x6d (only parsing).
Abbreviation OP_2DUP := 0x6e (only parsing).
Abbreviation OP_3DUP := 0x6f (only parsing).
Abbreviation OP_2OVER := 0x70 (only parsing).
Abbreviation OP_2ROT := 0x71 (only parsing).
Abbreviation OP_2SWAP := 0x72 (only parsing).
Abbreviation OP_IFDUP := 0x73 (only parsing).
Abbreviation OP_DEPTH := 0x74 (only parsing).
Abbreviation OP_DROP := 0x75 (only parsing).
Abbreviation OP_DUP := 0x76 (only parsing).
Abbreviation OP_NIP := 0x77 (only parsing).
Abbreviation OP_OVER := 0x78 (only parsing).
Abbreviation OP_PICK := 0x79 (only parsing).
Abbreviation OP_ROLL := 0x7a (only parsing).
Abbreviation OP_ROT := 0x7b (only parsing).
Abbreviation OP_SWAP := 0x7c (only parsing).
Abbreviation OP_TUCK := 0x7d (only parsing).
Abbreviation OP_CAT := 0x7e (only parsing).
Abbreviation OP_SUBSTR := 0x7f (only parsing).
Abbreviation OP_LEFT := 0x80 (only parsing).
Abbreviation OP_RIGHT := 0x81 (only parsing).
Abbreviation OP_SIZE := 0x82 (only parsing).
Abbreviation OP_INVERT := 0x83 (only parsing).
Abbreviation OP_AND := 0x84 (only parsing).
Abbreviation OP_OR := 0x85 (only parsing).
Abbreviation OP_XOR := 0x86 (only parsing).
Abbreviation OP_EQUAL := 0x87 (only parsing).
Abbreviation OP_EQUALVERIFY := 0x88 (only parsing).
Abbreviation OP_1ADD := 0x8b (only parsing).
Abbreviation OP_1SUB := 0x8c (only parsing).
Abbreviation OP_2MUL := 0x8d (only parsing).
Abbreviation OP_2DIV := 0x8e (only parsing).
Abbreviation OP_NEGATE := 0x8f (only parsing).
Abbreviation OP_ABS := 0x90 (only parsing).
Abbreviation OP_NOT := 0x91 (only parsing).
Abbreviation OP_0NOTEQUAL := 0x92 (only parsing).
Abbreviation OP_ADD := 0x93 (only parsing).
Abbreviation OP_SUB := 0x94 (only parsing).
Abbreviation OP_MUL := 0x95 (only parsing).
Abbreviation OP_DIV := 0x96 (only parsing).
Abbreviation OP_MOD := 0x97 (only parsing).
Abbreviation OP_LSHIFT := 0x98 (only parsing).
Abbreviation OP_RSHIFT := 0x99 (only parsing).
Abbreviation OP_BOOLAND := 0x9a (only parsing).
Abbreviation OP_BOOLOR := 0x9b (only parsing).
Abbreviation OP_NUMEQUAL := 0x9c (only parsing).
Abbreviation OP_NUMEQUALVERIFY := 0x9d (only parsing).
Abbreviation OP_NUMNOTEQUAL := 0x9e (only parsing).
Abbreviation OP_LESSTHAN := 0x9f (only parsing).
Abbreviation OP_GREATERTHAN := 0xa0 (only parsing).
Abbreviation OP_LESSTHANOREQUAL := 0xa1 (only parsing).
Abbreviation OP_GREATERTHANOREQUAL := 0xa2 (only parsing).
Abbreviation OP_MIN := 0xa3 (only parsing).
Abbreviation OP_MAX := 0xa4 (only parsing).
Abbreviation OP_WITHIN := 0xa5 (only parsing).
Abbreviation OP_RIPEMD160 := 0xa6 (only parsing).
Abbreviation OP_SHA1 := 0xa7 (only parsing).
Abbreviation OP_SHA256 := 0xa8 (only parsing).
Abbreviation OP_HASH160 := 0xa9 (only parsing).
Abbreviation OP_HASH256 := 0xaa (only parsing).
Abbreviation OP_CODESEPARATOR := 0xab (only parsing).
Abbreviation OP_CHECKSIG := 0xac (only parsing).
Abbreviation OP_CHECKSIGVERIFY := 0xad (only parsing).
Abbreviation OP_CHECKMULTISIG := 0xae (only parsing).
Abbreviation OP_CHECKMULTISIGVERIFY := 0xaf (only parsing).
Abbreviation OP_NOP1 := 0xb0 (only parsing).
Abbreviation OP_NOP2 := 0xb1 (only parsing).
Abbreviation OP_NOP3 := 0xb2 (only parsing).
Abbreviation OP_NOP4 := 0xb3 (only parsing).
Abbreviation OP_NOP5 := 0xb4 (only parsing).
Abbreviation OP_NOP6 := 0xb5 (only parsing).
Abbreviation OP_NOP7 := 0xb6 (only parsing).
Abbreviation OP_NOP8 := 0xb7 (only parsing).
Abbreviation OP_NOP9 := 0xb8 (only parsing).
Abbreviation OP_SMALLDATA := 0xf9 (only parsing).
Abbreviation OP_SMALLINTEGER := 0xfa (only parsing).
Abbreviation OP_PUBKEYS := 0xfb (only parsing).
Abbreviation OP_PUBKEYHASH := 0xfd (only parsing).
Abbreviation OP_PUBKEY := 0xfe (only parsing).
Abbreviation OP_INVALIDOPCODE := 0xff (only parsing).

Definition MAX_SCRIPT_ELEMENT_SIZE : Z := 520.
Definition MAX_OP_RETURN_RELAY : Z := 48.

Definition size (v : list Z) : Z := Z.of_nat (length v).

Section CScript.
  Variable p : platform.

(** [CScript::GetOp2]: the opcode, the operand and the rest of the script, or false. *)
Definition GetOp (pc : list Z) : option (Z * list Z * list Z) :=
  match pc with
  | [] => None
  | opcode :: pc =>
      if opcode <=? OP_PUSHDATA4 then
        let* (nSize, pc) :=
          if opcode <? OP_PUSHDATA1 then Some (opcode, pc)
          else if opcode =? OP_PUSHDATA1 then
            match pc with nSize :: pc => Some (nSize, pc) | [] => None end
          else if opcode =? OP_PUSHDATA2 then
            if size pc <? 2 then None else Some (native_load p 4 (firstn 2 pc ++ [0; 0]), skipn 2 pc)
          else
            if size pc <? 4 then None else Some (native_load p 4 (firstn 4 pc), skipn 4 pc) in
        if size pc <? nSize then None
        else Some (opcode, firstn (Z.to_nat nSize) pc, skipn (Z.to_nat nSize) pc)
      else Some (opcode, [], pc)
  end.

(** [operator<<] of an opcode and of a vector: what they append. *)
Definition push_op (opcode : Z) : list Z := [opcode].
Definition push_vector (b : list Z) : list Z :=
  (if size b <? OP_PUSHDATA1 then [size b]
   else if size b <=? 0xff then [OP_PUSHDATA1; size b]
   else if size b <=? 0xffff then OP_PUSHDATA2 :: native_store p 2 (size b)
   else OP_PUSHDATA4 :: native_store p 4 (trunc 32 (size b))) ++ b.
(** [operator<<] of a uint160. *)
Definition push_uint160 (b : list Z) : list Z := 20 :: b.

(** [DecodeOP_N], [EncodeOP_N]; an assertion that fails is [None]. *)
Definition DecodeOP_N (opcode : Z) : option Z :=
  if opcode =? OP_0 then Some 0
  else if (OP_1 <=? opcode) && (opcode <=? OP_16) then Some (opcode - (OP_1 - 1)) else None.
Definition EncodeOP_N (n : Z) : option Z :=
  if (0 <=? n) && (n <=? 16) then Some (if n =? 0 then OP_0 else OP_1 + n - 1) else None.

(** [push_int64] from OpenSSL 1.1.0 on, with [CScriptNum::serialize]. *)
Fixpoint absvalue_loop (fuel : nat) (absvalue : Z) : list Z :=
  match fuel with
  | O => []
  | S fuel => if absvalue =? 0 then [] else (absvalue .& 0xff) :: absvalue_loop fuel (absvalue >> 8)
  end.
Definition CScriptNum_serialize (value : Z) : list Z :=
  if value =? 0 then []
  else
    let neg := value <? 0 in
    let result := absvalue_loop 8 (if neg then trunc 64 (- value) else value) in
    let back := List.last result 0 in
    if negb ((back .& 0x80) =? 0) then result ++ [if neg then 0x80 else 0]
    else if neg then removelast result ++ [back .| 0x80] else result.
Definition push_int64 (n : Z) : list Z :=
  if (n =? -1) || ((1 <=? n) && (n <=? 16)) then [n + (OP_1 - 1)]
  else push_vector (CScriptNum_serialize n).

(** The number a vector of at most [nMaxNumSize] bytes holds, and the constructor of [CScriptNum] from a vector; an
    exception is [None]. *)
Fixpoint set_vch_loop (vch : list Z) (i : Z) : Z :=
  match vch with [] => 0 | b :: vch => (b << (8 * i)) .| set_vch_loop vch (i + 1) end.
Definition set_vch (vch : list Z) : Z :=
  match vch with
  | [] => 0
  | _ =>
      let result := set_vch_loop vch 0 in
      if negb ((List.last vch 0 .& 0x80) =? 0)
      then - (result .& Z.lnot (0x80 << (8 * (size vch - 1)))) else result
  end.
Definition nMaxNumSize : Z := 4.
Definition CScriptNum_of (vch : list Z) (fRequireMinimal : bool) : option Z :=
  if nMaxNumSize <? size vch then None
  else if fRequireMinimal && (0 <? size vch) && ((List.last vch 0 .& 0x7f) =? 0) &&
          ((size vch <=? 1) || ((nth (length vch - 2) vch 0 .& 0x80) =? 0)) then None
  else Some (set_vch vch).

(** ** Searching and counting *)

Definition prefix_of (b pc : list Z) : bool :=
  (size b <=? size pc) && bool_decide (firstn (length b) pc = b).
Fixpoint erase_loop (fuel : nat) (b pc : list Z) : list Z :=
  match fuel with
  | O => pc
  | S fuel => if prefix_of b pc then erase_loop fuel b (skipn (length b) pc) else pc
  end.
(** The script after [FindAndDelete], from the iterator on; the fuel is the length. *)
Fixpoint delete_loop (fuel : nat) (b pc : list Z) : list Z :=
  let pc := erase_loop (length pc) b pc in
  match fuel with
  | O => pc
  | S fuel =>
      match GetOp pc with
      | Some (_, _, rest) => firstn (length pc - length rest) pc ++ delete_loop fuel b rest
      | None => pc
      end
  end.
Definition FindAndDelete (script b : list Z) : list Z :=
  match b with [] => script | _ => delete_loop (length script) b script end.

Fixpoint push_only_loop (fuel : nat) (pc : list Z) : bool :=
  match fuel, pc with
  | _, [] => true
  | O, _ => false
  | S fuel, _ =>
      match GetOp pc with
      | Some (opcode, _, pc) => if OP_16 <? opcode then false else push_only_loop fuel pc
      | None => false
      end
  end.
Definition IsPushOnly (script : list Z) : bool := push_only_loop (length script) script.

Fixpoint canonical_loop (fuel : nat) (pc : list Z) : bool :=
  match fuel, pc with
  | _, [] => true
  | O, _ => false
  | S fuel, _ =>
      match GetOp pc with
      | None => false
      | Some (opcode, data, pc) =>
          if OP_16 <? opcode then canonical_loop fuel pc
          else if (opcode <? OP_PUSHDATA1) && (OP_0 <? opcode) && ((size data =? 1) && (nth 0 data 0 <=? 16)) then false
          else if (opcode =? OP_PUSHDATA1) && (size data <? OP_PUSHDATA1) then false
          else if (opcode =? OP_PUSHDATA2) && (size data <=? 0xFF) then false
          else if (opcode =? OP_PUSHDATA4) && (size data <=? 0xFFFF) then false
          else canonical_loop fuel pc
      end
  end.
Definition HasCanonicalPushes (script : list Z) : bool := canonical_loop (length script) script.

Fixpoint sigop_loop (fuel : nat) (fAccurate : bool) (lastOpcode : Z) (pc : list Z) : option Z :=
  match fuel, pc with
  | S fuel, _ :: _ =>
      match GetOp pc with
      | None => Some 0
      | Some (opcode, _, pc) =>
          let* k :=
            if (opcode =? OP_CHECKSIG) || (opcode =? OP_CHECKSIGVERIFY) then Some 1
            else if (opcode =? OP_CHECKMULTISIG) || (opcode =? OP_CHECKMULTISIGVERIFY) then
              if fAccurate && (OP_1 <=? lastOpcode) && (lastOpcode <=? OP_16) then DecodeOP_N lastOpcode else Some 20
            else Some 0 in
          let* n := sigop_loop fuel fAccurate opcode pc in
          Some (trunc 32 (k + n))
      end
  | _, _ => Some 0
  end.
Definition GetSigOpCount (script : list Z) (fAccurate : bool) : option Z :=
  sigop_loop (length script) fAccurate OP_INVALIDOPCODE script.

Definition IsPayToScriptHash (script : list Z) : bool :=
  (size script =? 23) && (nth 0 script 0 =? OP_HASH160) && (nth 1 script 0 =? 0x14) && (nth 22 script 0 =? OP_EQUAL).

(** The last operand of a script of pushes, or 0 operations. *)
Fixpoint last_data (fuel : nat) (pc data : list Z) : option (list Z) :=
  match fuel, pc with
  | _, [] => Some data
  | O, _ => None
  | S fuel, _ =>
      match GetOp pc with
      | None => None
      | Some (opcode, data, pc) => if OP_16 <? opcode then None else last_data fuel pc data
      end
  end.
Definition GetSigOpCount_p2sh (script scriptSig : list Z) : option Z :=
  if negb (IsPayToScriptHash script) then GetSigOpCount script true
  else match last_data (length scriptSig) scriptSig [] with
       | None => Some 0
       | Some subscript => GetSigOpCount subscript true
       end.

Definition IsUnspendable (script : list Z) : bool := match script with b :: _ => b =? OP_RETURN | [] => false end.

(** ** Building the standard scripts *)

Definition script_for_key (keyID : list Z) : list Z :=
  push_op OP_DUP ++ push_op OP_HASH160 ++ push_uint160 keyID ++ push_op OP_EQUALVERIFY ++ push_op OP_CHECKSIG.
Definition script_for_script (scriptID : list Z) : list Z :=
  push_op OP_HASH160 ++ push_uint160 scriptID ++ push_op OP_EQUAL.
Definition SetMultisigpub (nRequired : Z) (keys : list (list Z)) : option (list Z) :=
  let* m := EncodeOP_N nRequired in
  let* n := EncodeOP_N (Z.of_nat (length keys)) in
  Some (push_op m ++ concat (map push_vector keys) ++ push_op n ++ push_op OP_CHECKMULTISIG).
Definition PushAll (values : list (list Z)) : list Z := concat (map push_vector values).
End CScript.
