(* ===== verification/Interpreter.v ===== *)
(** * script.cpp: signatures, the hash they sign, and the evaluation of scripts

    The stack is a list, its top first.  A computation is done, fails (the
    code returns false or throws an exception that [EvalScript] catches), or is undefined
    (an access outside of a vector).  The disabled opcodes are refused before the
    switch and have no case in it. *)

From stdpp Require Import list.
From Stdlib Require Import ZArith Lia.
From S2P Require Import Prelude SphTypes Uint256 Serialize Transaction BigNum Script.
Local Open Scope Z_scope.

Inductive outcome (A : Type) : Type := Done (a : A) | Fail | Undefined.
Arguments Done {A} _.
Arguments Fail {A}.
Arguments Undefined {A}.

#[export] Instance outcome_ret : MRet outcome := fun A a => Done a.
#[export] Instance outcome_bind : MBind outcome := fun A B f m => match m with Done a => f a | Fail => Fail | Undefined => Undefined end.

(** [if (!b) return false], an exception, and an index into a vector. *)
Definition need {A : Type} (b : bool) (m : outcome A) : outcome A := if b then m else Fail.
Definition caught {A} (o : option A) : outcome A := match o with Some a => Done a | None => Fail end.
Definition at_ (v : list Z) (i : Z) : outcome Z := match v !! Z.to_nat i with Some b => Done b | None => Undefined end.

(** ** The encoding of keys and signatures *)

Definition IsCompressedOrUncompressedPubKey (vchPubKey : list Z) : outcome bool :=
  if size vchPubKey <? 33 then Done false
  else
    header ← at_ vchPubKey 0;
    if header =? 0x04 then Done (size vchPubKey =? 65)
    else if (header =? 0x02) || (header =? 0x03) then Done (size vchPubKey =? 33)
    else Done false.

(** The tests of one integer, [R] or [S], of [nLen] bytes from the position [pos]. *)
Definition der_integer (vchSig : list Z) (pos nLen : Z) : outcome bool :=
  type ← at_ vchSig (pos - 2);
  if negb (type =? 0x02) then Done false
  else if nLen =? 0 then Done false
  else
    b0 ← at_ vchSig pos;
    if negb ((b0 .& 0x80) =? 0) then Done false
    else if (1 <? nLen) && (b0 =? 0) then b1 ← at_ vchSig (pos + 1); Done (negb ((b1 .& 0x80) =? 0))
    else Done true.

Definition IsDERSignature (vchSig : list Z) (haveHashType : bool) : outcome bool :=
  if size vchSig <? 9 then Done false
  else if 73 <? size vchSig then Done false
  else
    type ← at_ vchSig 0;
    if negb (type =? 0x30) then Done false
    else
      len ← at_ vchSig 1;
      if negb (len =? size vchSig - (if haveHashType then 3 else 2)) then Done false
      else
        nLenR ← at_ vchSig 3;
        if size vchSig <=? 5 + nLenR then Done false
        else
          nLenS ← at_ vchSig (5 + nLenR);
          if negb (nLenR + nLenS + (if haveHashType then 7 else 6) =? size vchSig) then Done false
          else
            r ← der_integer vchSig 4 nLenR;
            if negb r then Done false else der_integer vchSig (6 + nLenR) nLenS.

(** key.cpp: the comparison of big-endian numbers of any lengths. *)
Fixpoint compare_bytes (c1 c2 : list Z) : Z :=
  match c1, c2 with
  | b1 :: c1, b2 :: c2 => if b2 <? b1 then 1 else if b1 <? b2 then -1 else compare_bytes c1 c2
  | _, _ => 0
  end.
Fixpoint skip_longer (excess : nat) (c : list Z) (found : Z) (k : list Z -> Z) : Z :=
  match excess, c with
  | S excess, b :: c => if b =? 0 then skip_longer excess c found k else found
  | _, _ => k c
  end.
Definition CompareBigEndian (c1 c2 : list Z) : Z :=
  skip_longer (length c1 - length c2) c1 1 (fun c1 =>
    skip_longer (length c2 - length c1) c2 (-1) (fun c2 => compare_bytes c1 c2)).
Definition vchMaxModHalfOrder : list Z :=
  [0x7F;0xFF;0xFF;0xFF;0xFF;0xFF;0xFF;0xFF; 0xFF;0xFF;0xFF;0xFF;0xFF;0xFF;0xFF;0xFF;
   0x5D;0x57;0x6E;0x73;0x57;0xA4;0x50;0x1D; 0xDF;0xE9;0x2F;0x46;0x68;0x1B;0x20;0xA0].
Definition CheckSignatureElement_half (vch : list Z) : bool :=
  (0 <? CompareBigEndian vch []) && (CompareBigEndian vch vchMaxModHalfOrder <=? 0).

Definition IsLowDERSignature (vchSig : list Z) : outcome bool :=
  der ← IsDERSignature vchSig true;
  if negb der then Done false
  else
    nLenR ← at_ vchSig 3;
    nLenS ← at_ vchSig (5 + nLenR);
    Done (CheckSignatureElement_half (firstn (Z.to_nat nLenS) (skipn (Z.to_nat (6 + nLenR)) vchSig))).

Definition SIGHASH_ALL : Z := 1.
Definition SIGHASH_NONE : Z := 2.
Definition SIGHASH_SINGLE : Z := 3.
Definition SIGHASH_ANYONECANPAY : Z := 0x80.

Definition IsDefinedHashtypeSignature (vchSig : list Z) : outcome bool :=
  if size vchSig =? 0 then Done false
  else
    back ← at_ vchSig (size vchSig - 1);
    let nHashType := back .& trunc 8 (Z.lnot SIGHASH_ANYONECANPAY) in
    Done (negb ((nHashType <? SIGHASH_ALL) || (SIGHASH_SINGLE <? nHashType))).
Definition CheckSignatureEncoding (vchSig : list Z) : outcome bool :=
  low ← IsLowDERSignature vchSig;
  if negb low then Done false else IsDefinedHashtypeSignature vchSig.
Definition CheckPubKeyEncoding (vchPubKey : list Z) : outcome bool := IsCompressedOrUncompressedPubKey vchPubKey.

(** ** The hash that is signed *)

Section Signatures.
  Variable p : platform.
  Variable SHA256 : list Z -> list Z.
(** [CPubKey::Verify], of OpenSSL. *)
  Variable Verify : list Z -> list Z -> list Z -> bool.

Definition with_scriptSig (s : list Z) (i : CTxIn) : CTxIn := TxIn (prevout i) s (prevPubKey i) (nSequence i).
Definition with_nSequence (n : Z) (i : CTxIn) : CTxIn := TxIn (prevout i) (scriptSig i) (prevPubKey i) n.
Definition CTxOut_null : CTxOut := TxOut (-1) [].

(** The copy of the transaction that is hashed. *)
Definition sequences (vin : list CTxIn) (nIn : nat) : list CTxIn :=
  imap (fun i x => if (i =? nIn)%nat then x else with_nSequence 0 x) vin.
Definition SignatureHash_copy (scriptCode : list Z) (txTo : CTransaction) (nIn : nat) (nHashType : Z) : option CTransaction :=
  let scriptCode := FindAndDelete p scriptCode (push_op OP_CODESEPARATOR) in
  let vin1 := imap (fun i x => with_scriptSig (if (i =? nIn)%nat then scriptCode else []) x) (vin txTo) in
  let* (vin2, vout2) :=
    if (nHashType .& 0x1f) =? SIGHASH_NONE then Some (sequences vin1 nIn, [])
    else if (nHashType .& 0x1f) =? SIGHASH_SINGLE then
      if (length (vout txTo) <=? nIn)%nat then None
      else Some (sequences vin1 nIn, imap (fun i x => if (i <? nIn)%nat then CTxOut_null else x) (firstn (S nIn) (vout txTo)))
    else Some (vin1, vout txTo) in
  let vin3 := if negb ((nHashType .& SIGHASH_ANYONECANPAY) =? 0) then firstn 1 (skipn nIn vin2) else vin2 in
  Some (Transaction (nVersion txTo) (nTime txTo) vin3 vout2 (nLockTime txTo)).
(** What [operator<<] writes of a transaction; the sizes of the objects in memory do not matter. *)
Definition tx_bytes (tx : CTransaction) : list Z := Serialize (Serializable := CTransaction_serializable p 0 0 0 0) tx.
Definition SignatureHash (scriptCode : list Z) (txTo : CTransaction) (nIn : nat) (nHashType : Z) : list Z :=
  let one := 1 :: zeros 7 in
  if (length (vin txTo) <=? nIn)%nat then one
  else match SignatureHash_copy scriptCode txTo nIn nHashType with
       | None => one
       | Some txTmp =>
           Hash p SHA256 (tx_bytes txTmp ++ WRITEDATA p 4 (trunc 32 nHashType))
       end.

(** [CPubKey (vch)] and [IsValid]. *)
Definition CPubKey_IsValid (vchPubKey : list Z) : bool :=
  match vchPubKey with
  | [] => false
  | header :: _ => let len := GetLen header in negb (len =? 0)%nat && (len =? length vchPubKey)%nat
  end.

(** [CheckSig], without the cache of the signatures it has accepted before. *)
Definition CheckSig (vchSig vchPubKey scriptCode : list Z) (txTo : CTransaction) (nIn : nat) (nHashType : Z) : bool :=
  if negb (CPubKey_IsValid vchPubKey) then false
  else match vchSig with
       | [] => false
       | _ =>
           let back := List.last vchSig 0 in
           if negb (nHashType =? 0) && negb (nHashType =? back) then false
           else Verify vchPubKey (SignatureHash scriptCode txTo nIn back) (removelast vchSig)
       end.

(** ** Evaluation *)

(** What a script is evaluated for, and the functions of OpenSSL it calls. *)
  Context {BIGNUM : Type} {ops : BN_ops BIGNUM}.
  Variables RIPEMD160 SHA1 : list Z -> list Z.
  Variable txTo : CTransaction.
  Variable nIn : nat.
  Variables flags nHashType : Z.

Definition SCRIPT_VERIFY_STRICTENC : Z := 1 << 1.
Definition SCRIPT_VERIFY_NULLDUMMY : Z := 1 << 4.
Definition SCRIPT_VERIFY_CHECKLOCKTIMEVERIFY : Z := 1 << 6.
Definition SCRIPT_VERIFY_DISCOURAGE_UPGRADABLE_NOPS : Z := 1 << 8.
Definition flag (f : Z) : bool := negb ((flags .& f) =? 0).

Definition vchFalse : list Z := [].
Definition vchTrue : list Z := [1].
Definition of_bool (b : bool) : list Z := if b then vchTrue else vchFalse.

Definition CastToBigNum (vch : list Z) : outcome BIGNUM :=
  if 4 <? size vch then Fail else Done (setvch (getvch (setvch vch))).
Fixpoint CastToBool (vch : list Z) : bool :=
  match vch with
  | [] => false
  | b :: vch => if negb (b =? 0) then (match vch with [] => negb (b =? 0x80) | _ => true end) else CastToBool vch
  end.

(** The memory of the interpreter; [vfExec], like the stacks, with its last element first. *)
Record machine := Machine {
  stack : list (list Z); altstack : list (list Z); vfExec : list bool; nOpCount : Z; codehash : list Z
}.
Definition with_stack v m := Machine v (altstack m) (vfExec m) (nOpCount m) (codehash m).
Definition with_vfExec v m := Machine (stack m) (altstack m) v (nOpCount m) (codehash m).
Definition with_nOpCount v m := Machine (stack m) (altstack m) (vfExec m) v (codehash m).

(** ** The cases of the switch *)

(** [OP_2DROP] to [OP_TUCK]: the new stack. *)
Definition stack_op (opcode : Z) (s : list (list Z)) : outcome (list (list Z)) :=
  match opcode with
  | OP_2DROP => match s with _ :: _ :: s => Done s | _ => Fail end
  | OP_2DUP => match s with x2 :: x1 :: s => Done (x2 :: x1 :: x2 :: x1 :: s) | _ => Fail end
  | OP_3DUP => match s with x3 :: x2 :: x1 :: s => Done (x3 :: x2 :: x1 :: x3 :: x2 :: x1 :: s) | _ => Fail end
  | OP_2OVER => match s with x4 :: x3 :: x2 :: x1 :: s => Done (x2 :: x1 :: x4 :: x3 :: x2 :: x1 :: s) | _ => Fail end
  | OP_2ROT =>
      match s with
      | x6 :: x5 :: x4 :: x3 :: x2 :: x1 :: s => Done (x2 :: x1 :: x6 :: x5 :: x4 :: x3 :: s)
      | _ => Fail
      end
  | OP_2SWAP => match s with x4 :: x3 :: x2 :: x1 :: s => Done (x2 :: x1 :: x4 :: x3 :: s) | _ => Fail end
  | OP_IFDUP => match s with x :: s => Done (if CastToBool x then x :: x :: s else x :: s) | _ => Fail end
  | OP_DEPTH => Done (getvch (of_ulong (Z.of_nat (length s))) :: s)
  | OP_DROP => match s with _ :: s => Done s | _ => Fail end
  | OP_DUP => match s with x :: s => Done (x :: x :: s) | _ => Fail end
  | OP_NIP => match s with x2 :: _ :: s => Done (x2 :: s) | _ => Fail end
  | OP_OVER => match s with x2 :: x1 :: s => Done (x1 :: x2 :: x1 :: s) | _ => Fail end
  | OP_ROT => match s with x3 :: x2 :: x1 :: s => Done (x1 :: x3 :: x2 :: s) | _ => Fail end
  | OP_SWAP => match s with x2 :: x1 :: s => Done (x1 :: x2 :: s) | _ => Fail end
  | OP_TUCK => match s with x2 :: x1 :: s => Done (x2 :: x1 :: x2 :: s) | _ => Fail end
  | OP_SIZE => match s with x :: s => Done (getvch (of_ulong (size x)) :: x :: s) | _ => Fail end
  | _ => Fail
  end.

(** [OP_PICK], [OP_ROLL] *)
Definition pick_op (roll : bool) (s : list (list Z)) : outcome (list (list Z)) :=
  match s with
  | top :: (_ :: _) as s =>
      bn ← CastToBigNum top;
      let n := getint bn in
      need (negb ((n <? 0) || (Z.of_nat (length s) <=? n)))
        (match s !! Z.to_nat n with
         | Some vch => Done (vch :: (if roll then delete (Z.to_nat n) s else s))
         | None => Undefined
         end)
  | _ => Fail
  end.

Definition unary_op (opcode : Z) (bn : BIGNUM) : outcome BIGNUM :=
  match opcode with
  | OP_1ADD => caught (op_plus bn (of_long 1))
  | OP_1SUB => caught (op_minus bn (of_long 1))
  | OP_NEGATE => Done (op_neg bn)
  | OP_ABS => Done (if op_lt bn (of_long 0) then op_neg bn else bn)
  | OP_NOT => Done (of_long (if op_eq bn (of_long 0) then 1 else 0))
  | OP_0NOTEQUAL => Done (of_long (if op_ne bn (of_long 0) then 1 else 0))
  | _ => Fail
  end.

Definition bn_bool (b : bool) : BIGNUM := of_long (if b then 1 else 0).
Definition binary_op (opcode : Z) (bn1 bn2 : BIGNUM) : outcome BIGNUM :=
  match opcode with
  | OP_ADD => caught (op_plus bn1 bn2)
  | OP_SUB => caught (op_minus bn1 bn2)
  | OP_BOOLAND => Done (bn_bool (op_ne bn1 (of_long 0) && op_ne bn2 (of_long 0)))
  | OP_BOOLOR => Done (bn_bool (op_ne bn1 (of_long 0) || op_ne bn2 (of_long 0)))
  | OP_NUMEQUAL | OP_NUMEQUALVERIFY => Done (bn_bool (op_eq bn1 bn2))
  | OP_NUMNOTEQUAL => Done (bn_bool (op_ne bn1 bn2))
  | OP_LESSTHAN => Done (bn_bool (op_lt bn1 bn2))
  | OP_GREATERTHAN => Done (bn_bool (op_gt bn1 bn2))
  | OP_LESSTHANOREQUAL => Done (bn_bool (op_le bn1 bn2))
  | OP_GREATERTHANOREQUAL => Done (bn_bool (op_ge bn1 bn2))
  | OP_MIN => Done (if op_lt bn1 bn2 then bn1 else bn2)
  | OP_MAX => Done (if op_gt bn1 bn2 then bn1 else bn2)
  | _ => Fail
  end.

(** Pop the operands of a numeric case and push its result. *)
Definition numeric_op (opcode : Z) (s : list (list Z)) : outcome (list (list Z)) :=
  match opcode with
  | OP_1ADD | OP_1SUB | OP_NEGATE | OP_ABS | OP_NOT | OP_0NOTEQUAL =>
      match s with
      | x :: s => bn ← CastToBigNum x; bn ← unary_op opcode bn; Done (getvch bn :: s)
      | _ => Fail
      end
  | OP_WITHIN =>
      match s with
      | x3 :: x2 :: x1 :: s =>
          bn1 ← CastToBigNum x1;
          bn2 ← CastToBigNum x2;
          bn3 ← CastToBigNum x3;
          Done (of_bool (op_le bn2 bn1 && op_lt bn1 bn3) :: s)
      | _ => Fail
      end
  | OP_NUMEQUALVERIFY =>
      match s with
      | x2 :: x1 :: s =>
          bn1 ← CastToBigNum x1;
          bn2 ← CastToBigNum x2;
          bn ← binary_op opcode bn1 bn2;
          need (CastToBool (getvch bn)) (Done s)
      | _ => Fail
      end
  | _ =>
      match s with
      | x2 :: x1 :: s =>
          bn1 ← CastToBigNum x1;
          bn2 ← CastToBigNum x2;
          bn ← binary_op opcode bn1 bn2;
          Done (getvch bn :: s)
      | _ => Fail
      end
  end.

(** [OP_RIPEMD160] to [OP_HASH256] *)
Definition hash_op (opcode : Z) (vch : list Z) : outcome (list Z) :=
  match opcode with
  | OP_RIPEMD160 => Done (RIPEMD160 vch)
  | OP_SHA1 => Done (SHA1 vch)
  | OP_SHA256 => Done (SHA256 vch)
  | OP_HASH160 => Done (RIPEMD160 (SHA256 vch))
  | OP_HASH256 => Done (SHA256 (SHA256 vch))
  | _ => Fail
  end.

(** [OP_CHECKLOCKTIMEVERIFY]; the second argument of the constructor of [CScriptNum] is a boolean. *)
Definition check_lock_time (s : list (list Z)) : outcome unit :=
  if negb (flag SCRIPT_VERIFY_CHECKLOCKTIMEVERIFY) then Done tt
  else
    match s with
    | [] => Fail
    | x :: _ =>
        time ← caught (CScriptNum_of x (negb (5 =? 0)));
        need (negb (time <? 0))
       (need (((nLockTime txTo <? LOCKTIME_THRESHOLD) && (time <? LOCKTIME_THRESHOLD)) ||
              ((LOCKTIME_THRESHOLD <=? nLockTime txTo) && (LOCKTIME_THRESHOLD <=? time)))
       (need (negb (nLockTime txTo <? time))
         (match vin txTo !! nIn with
          | Some txin => need (negb (CTxIn_IsFinal txin)) (Done tt)
          | None => Undefined
          end)))
    end.

(** One signature against one key, as both cases of checks do it. *)
Definition check_one (vchSig vchPubKey scriptCode : list Z) : outcome bool :=
  strict ← (if flag SCRIPT_VERIFY_STRICTENC then
              sig_ok ← CheckSignatureEncoding vchSig;
              if negb sig_ok then Done false else CheckPubKeyEncoding vchPubKey
            else Done true);
  need strict
    (sig_ok ← CheckSignatureEncoding vchSig;
     if negb sig_ok then Done false
     else
       key_ok ← CheckPubKeyEncoding vchPubKey;
       if negb key_ok then Done false
       else Done (CheckSig vchSig vchPubKey scriptCode txTo nIn nHashType)).

(** [while (fSuccess && nSigsCount > 0)] *)
Fixpoint multisig_loop (scriptCode : list Z) (sigs keys : list (list Z)) : outcome bool :=
  match sigs, keys with
  | [], _ => Done true
  | _ :: _, [] => Undefined
  | vchSig :: rest, vchPubKey :: keys =>
      fOk ← check_one vchSig vchPubKey scriptCode;
      let sigs := if (fOk : bool) then rest else sigs in
      if (length keys <? length sigs)%nat then Done false else multisig_loop scriptCode sigs keys
  end.

(** [OP_CHECKMULTISIG]: the result, the stack below the arguments, and the count of operations. *)
Definition multisig_op (m : machine) : outcome (bool * list (list Z) * Z) :=
  match stack m with
  | [] => Fail
  | n :: s1 =>
      bn ← CastToBigNum n;
      let nKeysCount := getint bn in
      need (negb ((nKeysCount <? 0) || (20 <? nKeysCount)))
     (let nOpCount := nOpCount m + nKeysCount in
      need (negb (201 <? nOpCount))
     (let keys := firstn (Z.to_nat nKeysCount) s1 in
      match skipn (Z.to_nat nKeysCount) s1 with
      | [] => Fail
      | k :: s2 =>
          bn ← CastToBigNum k;
          let nSigsCount := getint bn in
          need (negb ((nSigsCount <? 0) || (nKeysCount <? nSigsCount)))
         (need (nSigsCount <? Z.of_nat (length s2))
         (let sigs := firstn (Z.to_nat nSigsCount) s2 in
          let scriptCode := fold_left (fun code vchSig => FindAndDelete p code (push_vector p vchSig)) sigs (codehash m) in
          fSuccess ← multisig_loop scriptCode sigs keys;
          match skipn (Z.to_nat nSigsCount) s2 with
          | [] => Fail
          | dummy :: s3 =>
              need (negb (flag SCRIPT_VERIFY_NULLDUMMY && negb (size dummy =? 0))) (Done (fSuccess, s3, nOpCount))
          end))
      end))
  end.

(** ** The loop *)

Definition push (vch : list Z) (m : machine) : machine := with_stack (vch :: stack m) m.
Definition on_stack (m : machine) (r : outcome (list (list Z))) : outcome machine := s ← r; Done (with_stack s m).

(** The switch, at the instruction [opcode] with [pc] after it. *)
Definition exec_op (opcode : Z) (fExec : bool) (pc : list Z) (m : machine) : outcome machine :=
  match opcode with
  | OP_NOP => Done m
  | OP_NOP2 => check_lock_time (stack m);; Done m
  | OP_NOP1 | OP_NOP3 | OP_NOP4 | OP_NOP5 | OP_NOP6 | OP_NOP7 | OP_NOP8 | OP_NOP9 =>
      need (negb (flag SCRIPT_VERIFY_DISCOURAGE_UPGRADABLE_NOPS)) (Done m)
  | OP_IF | OP_NOTIF =>
      if fExec then
        match stack m with
        | x :: s =>
            let fValue := if opcode =? OP_NOTIF then negb (CastToBool x) else CastToBool x in
            Done (with_vfExec (fValue :: vfExec m) (with_stack s m))
        | [] => Fail
        end
      else Done (with_vfExec (false :: vfExec m) m)
  | OP_ELSE => match vfExec m with b :: v => Done (with_vfExec (negb b :: v) m) | [] => Fail end
  | OP_ENDIF => match vfExec m with _ :: v => Done (with_vfExec v m) | [] => Fail end
  | OP_VERIFY => match stack m with x :: s => need (CastToBool x) (Done (with_stack s m)) | [] => Fail end
  | OP_RETURN => Fail
  | OP_TOALTSTACK =>
      match stack m with
      | x :: s => Done (Machine s (x :: altstack m) (vfExec m) (nOpCount m) (codehash m))
      | [] => Fail
      end
  | OP_FROMALTSTACK =>
      match altstack m with
      | x :: a => Done (Machine (x :: stack m) a (vfExec m) (nOpCount m) (codehash m))
      | [] => Fail
      end
  | OP_PICK => on_stack m (pick_op false (stack m))
  | OP_ROLL => on_stack m (pick_op true (stack m))
  | OP_EQUAL => match stack m with x2 :: x1 :: s => Done (with_stack (of_bool (bool_decide (x1 = x2)) :: s) m) | _ => Fail end
  | OP_EQUALVERIFY => match stack m with x2 :: x1 :: s => need (bool_decide (x1 = x2)) (Done (with_stack s m)) | _ => Fail end
  | OP_RIPEMD160 | OP_SHA1 | OP_SHA256 | OP_HASH160 | OP_HASH256 =>
      match stack m with x :: s => h ← hash_op opcode x; Done (with_stack (h :: s) m) | [] => Fail end
  | OP_CODESEPARATOR => Done (Machine (stack m) (altstack m) (vfExec m) (nOpCount m) pc)
  | OP_CHECKSIG | OP_CHECKSIGVERIFY =>
      match stack m with
      | vchPubKey :: vchSig :: s =>
          fSuccess ← check_one vchSig vchPubKey (FindAndDelete p (codehash m) (push_vector p vchSig));
          if opcode =? OP_CHECKSIGVERIFY then need fSuccess (Done (with_stack s m))
          else Done (with_stack (of_bool fSuccess :: s) m)
      | _ => Fail
      end
  | OP_CHECKMULTISIG | OP_CHECKMULTISIGVERIFY =>
      r ← multisig_op m;
      let '(fSuccess, s, nOpCount) := r in
      if opcode =? OP_CHECKMULTISIGVERIFY then need fSuccess (Done (with_nOpCount nOpCount (with_stack s m)))
      else Done (with_nOpCount nOpCount (with_stack (of_bool fSuccess :: s) m))
  | _ =>
      if (opcode =? OP_1NEGATE) || ((OP_1 <=? opcode) && (opcode <=? OP_16)) then
        Done (push (getvch (of_long (opcode - (OP_1 - 1)))) m)
      else if (OP_2DROP <=? opcode) && (opcode <=? OP_SIZE) then on_stack m (stack_op opcode (stack m))
      else if (OP_1ADD <=? opcode) && (opcode <=? OP_WITHIN) then on_stack m (numeric_op opcode (stack m))
      else Fail
  end.

Definition disabled (opcode : Z) : bool :=
  bool_decide (opcode ∈ [OP_CAT; OP_SUBSTR; OP_LEFT; OP_RIGHT; OP_INVERT; OP_AND; OP_OR; OP_XOR; OP_2MUL; OP_2DIV; OP_MUL; OP_DIV; OP_MOD;
                         OP_LSHIFT; OP_RSHIFT]).

Definition within_limit (m : machine) : bool := Z.of_nat (length (stack m) + length (altstack m)) <=? 1000.

(** One turn of the loop: the rest of the script and the memory. *)
Definition step (pc : list Z) (m : machine) : outcome (list Z * machine) :=
  let fExec := forallb (fun b => b) (vfExec m) in
  match GetOp p pc with
  | None => Fail
  | Some (opcode, vchPushValue, pc) =>
      need (negb (MAX_SCRIPT_ELEMENT_SIZE <? size vchPushValue))
     (let nOpCount := if OP_16 <? opcode then nOpCount m + 1 else nOpCount m in
      need (negb ((OP_16 <? opcode) && (201 <? nOpCount)))
     (need (negb (disabled opcode))
     (let m := with_nOpCount nOpCount m in
      m ← (if fExec && (opcode <=? OP_PUSHDATA4) then Done (push vchPushValue m)
           else if fExec || ((OP_IF <=? opcode) && (opcode <=? OP_ENDIF)) then exec_op opcode fExec pc m
           else Done m);
      need (within_limit m) (Done (pc, m)))))
  end.
Fixpoint eval_loop (fuel : nat) (pc : list Z) (m : machine) : outcome machine :=
  match pc, fuel with
  | [], _ => Done m
  | _, O => Undefined
  | _, S fuel => r ← step pc m; eval_loop fuel r.1 r.2
  end.

(** The stack afterwards, if the result is true. *)
Definition EvalScript (s : list (list Z)) (script : list Z) : outcome (list (list Z)) :=
  need (negb (22000 <? size script))
    (m ← eval_loop (length script) script (Machine s [] [] 0 script);
     need (bool_decide (vfExec m = [])) (Done (stack m))).

Definition top_true (s : list (list Z)) : outcome unit :=
  match s with x :: _ => need (CastToBool x) (Done tt) | [] => Fail end.

Definition VerifyScript (scriptSig scriptPubKey : list Z) : outcome unit :=
  stackCopy ← EvalScript [] scriptSig;
  s ← EvalScript stackCopy scriptPubKey;
  top_true s;;
  if IsPayToScriptHash scriptPubKey then
    need (IsPushOnly p scriptSig)
      (match stackCopy with
       | pubKey2 :: stackCopy => s ← EvalScript stackCopy pubKey2; top_true s
       | [] => Undefined
       end)
  else Done tt.
End Signatures.
