(* ===== verification/ScriptProof.v ===== *)
(** * Lemmas on scripts and their evaluation

    [safe m Q]: the computation is not undefined, and [Q] holds of its result if it has one. *)

From stdpp Require Import list.
From Stdlib Require Import ZArith Lia.
From S2P Require Import Prelude SphTypes Uint256 Serialize Transaction BigNum BigNumProof ConsensusProof Script Interpreter.
Local Open Scope Z_scope.

Definition safe {A} (m : outcome A) (Q : A -> Prop) : Prop :=
  match m with Done a => Q a | Fail => True | Undefined => False end.

Lemma safe_done {A} (a : A) Q : Q a -> safe (Done a) Q.
Proof. easy. Qed.
Lemma safe_fail {A} (Q : A -> Prop) : safe Fail Q.
Proof. easy. Qed.
Lemma safe_then {A B} (m : outcome A) (f : A -> outcome B) Q : safe m (fun a => safe (f a) Q) -> safe (m ≫= f) Q.
Proof. unfold mbind, outcome_bind. now destruct m. Qed.
Lemma safe_need {A} b (m : outcome A) Q : (b = true -> safe m Q) -> safe (need b m) Q.
Proof. destruct b; cbn; auto. Qed.
Lemma safe_caught {A} (o : option A) Q : (forall a, o = Some a -> Q a) -> safe (caught o) Q.
Proof. destruct o; cbn; auto. Qed.
Lemma safe_weaken {A} (m : outcome A) (P Q : A -> Prop) : safe m P -> (forall a, P a -> Q a) -> safe m Q.
Proof. destruct m; cbn; auto. Qed.
Lemma safe_at v i Q : 0 <= i < size v -> (forall b, v !! Z.to_nat i = Some b -> Q b) -> safe (at_ v i) Q.
Proof.
  unfold at_, size. intros Hi HQ. destruct (v !! Z.to_nat i) as [b|] eqn:E; [now apply HQ|].
  apply lookup_ge_None in E. lia.
Qed.
#[export] Hint Resolve safe_done safe_fail : core.

Lemma size_nonneg v : 0 <= size v.
Proof. unfold size. lia. Qed.
Lemma byte_at v i b : bytes v -> v !! i = Some b -> word 8 b.
Proof. intros B E. now apply (Forall_lookup_1 _ _ _ _ B E). Qed.

(** ** Instructions *)

Section Instructions.
  Variable p : platform.

Lemma GetOp_ok pc opcode data rest :
  bytes pc -> GetOp p pc = Some (opcode, data, rest) ->
  word 8 opcode /\ bytes data /\ bytes rest /\ (length rest < length pc)%nat /\ (OP_PUSHDATA4 < opcode -> data = []) /\
  exists prefix, pc = prefix ++ rest.
Proof.
  unfold GetOp. intros B. destruct pc as [|opc pc]; [easy|]. apply Forall_cons in B as [Ho B].
  assert (Cut : forall nSize pc', bytes pc' -> (length pc' <= length pc)%nat -> (exists prefix, pc = prefix ++ pc') -> opc <= OP_PUSHDATA4 ->
    (if size pc' <? nSize then None else Some (opc, firstn (Z.to_nat nSize) pc', skipn (Z.to_nat nSize) pc')) = Some (opcode, data, rest) ->
    word 8 opcode /\ bytes data /\ bytes rest /\ (length rest < length (opc :: pc))%nat /\ (OP_PUSHDATA4 < opcode -> data = []) /\
    exists prefix, opc :: pc = prefix ++ rest).
  { intros nSize pc' B' L [pre E] O. destruct (_ <? _); [easy|]. intros [= <- <- <-]. split; [exact Ho|].
    split; [now apply Forall_firstn'|]. split; [now apply Forall_skipn'|]. split; [rewrite length_skipn; cbn [length]; lia|].
    split; [lia|]. exists (opc :: pre ++ firstn (Z.to_nat nSize) pc'). cbn. rewrite <- app_assoc, firstn_skipn. now rewrite E. }
  destruct (Z.leb_spec opc OP_PUSHDATA4) as [C|C].
  - destruct (_ <? _); [cbn [mbind option_bind]; apply Cut; [exact B|lia|now exists []|exact C]|].
    destruct (_ =? _); [destruct pc as [|nSize pc]; [easy|]; apply Forall_cons in B as [_ B]; apply Cut; [exact B|cbn; lia|now exists [nSize]|exact C]|].
    destruct (_ =? _); (destruct (size pc <? _); [easy|]; apply Cut;
      [now apply Forall_skipn'|rewrite length_skipn; lia|eexists; symmetry; apply firstn_skipn|exact C]).
  - intros [= <- <- <-]. splits; [exact Ho|constructor|exact B|cbn; lia|easy|now exists [opc]].
Qed.

Lemma GetOp_shorter pc opcode data rest : bytes pc -> GetOp p pc = Some (opcode, data, rest) -> (length rest < length pc)%nat.
Proof. intros B E. now destruct (GetOp_ok pc opcode data rest B E) as (_ & _ & _ & L & _). Qed.

Hypothesis little : order p <> SPH_BIG_ENDIAN.

Lemma native_little n src : native_load p n src = le_load n src.
Proof. unfold native_load. now destruct (order p). Qed.
Lemma native_store_little n v : native_store p n v = le_store n v.
Proof. unfold native_store. now destruct (order p). Qed.

(** A vector that is pushed is the operand that is read. *)
Lemma GetOp_push b rest :
  size b < 2 ^ 32 -> exists opcode, GetOp p (push_vector p b ++ rest) = Some (opcode, b, rest) /\ opcode <= OP_PUSHDATA4.
Proof.
  intros L. pose proof (size_nonneg b) as N. unfold push_vector.
  assert (Cut : forall nSize, nSize = size b -> forall opc : Z,
    (if size (b ++ rest) <? nSize then None else Some (opc, firstn (Z.to_nat nSize) (b ++ rest), skipn (Z.to_nat nSize) (b ++ rest))) = Some (opc, b, rest)).
  { intros nSize -> opc. unfold size. rewrite length_app, Nat2Z.inj_add, Nat2Z.id, firstn_app, skipn_app, firstn_all, skipn_all, Nat.sub_diag.
    destruct (Z.ltb_spec (Z.of_nat (length b) + Z.of_nat (length rest)) (Z.of_nat (length b))); [lia|]. cbn. now rewrite app_nil_r. }
  destruct (Z.ltb_spec (size b) OP_PUSHDATA1) as [C1|C1].
  { exists (size b). split; [|lia]. cbn [app GetOp]. rewrite (proj2 (Z.leb_le _ _)) by lia. rewrite (proj2 (Z.ltb_lt _ _)) by lia. now apply Cut. }
  destruct (Z.leb_spec (size b) 0xff) as [C2|C2].
  { exists OP_PUSHDATA1. split; [|lia]. cbn [app GetOp]. now apply Cut. }
  destruct (Z.leb_spec (size b) 0xffff) as [C3|C3].
  - exists OP_PUSHDATA2. split; [|lia]. rewrite native_store_little, <- !app_assoc. cbn [app GetOp]. change (OP_PUSHDATA2 <=? OP_PUSHDATA4) with true.
    change (OP_PUSHDATA2 <? OP_PUSHDATA1) with false. change (OP_PUSHDATA2 =? OP_PUSHDATA1) with false. change (OP_PUSHDATA2 =? OP_PUSHDATA2) with true. cbv iota.
    assert (Ls : length (le_store 2 (size b)) = 2%nat) by apply length_le_store.
    destruct (Z.ltb_spec (size (le_store 2 (size b) ++ b ++ rest)) 2) as [K|_]; [unfold size in K; rewrite length_app, length_le_store in K; lia|].
    rewrite skipn_app, skipn_all2, Ls by lia. cbn [app Nat.sub skipn]. rewrite firstn_app, firstn_all2, Ls by lia. cbn [Nat.sub firstn]. rewrite app_nil_r.
    apply Cut. rewrite native_little. destruct (le_store 2 (size b)) as [|b0 [|b1 [|? ?]]] eqn:E; try (cbn in Ls; lia).
    assert (V : le_load 2 [b0; b1] = size b) by (rewrite <- E; apply le_load_store; unfold word; lia).
    cbn [le_load app] in *. rewrite !Z.shiftl_0_l, Z.lor_0_r in *. exact V.
  - exists OP_PUSHDATA4. split; [|lia]. rewrite native_store_little, <- !app_assoc. cbn [app GetOp]. change (OP_PUSHDATA4 <=? OP_PUSHDATA4) with true.
    change (OP_PUSHDATA4 <? OP_PUSHDATA1) with false. change (OP_PUSHDATA4 =? OP_PUSHDATA1) with false. change (OP_PUSHDATA4 =? OP_PUSHDATA2) with false. cbv iota.
    rewrite trunc_id by (unfold word; lia). assert (Ls : length (le_store 4 (size b)) = 4%nat) by apply length_le_store.
    destruct (Z.ltb_spec (size (le_store 4 (size b) ++ b ++ rest)) 4) as [K|_]; [unfold size in K; rewrite length_app, length_le_store in K; lia|].
    rewrite skipn_app, skipn_all2, Ls by lia. cbn [app Nat.sub skipn]. rewrite firstn_app, firstn_all2, Ls by lia. cbn [Nat.sub firstn]. rewrite app_nil_r.
    apply Cut. rewrite native_little. apply le_load_store. unfold word. lia.
Qed.

Lemma push_vector_bytes b : bytes b -> size b < 2 ^ 32 -> bytes (push_vector p b).
Proof.
  intros B L. pose proof (size_nonneg b) as N. unfold push_vector. apply Forall_app. split; [|exact B]. rewrite !native_store_little.
  destruct (Z.ltb_spec (size b) OP_PUSHDATA1); [repeat constructor; lia|]. destruct (Z.leb_spec (size b) 0xff); [repeat constructor; lia|].
  destruct (_ <=? _); (constructor; [split; lia|apply bytes_le_store]).
Qed.

Lemma push_vector_length b : (0 < length (push_vector p b))%nat.
Proof. unfold push_vector. rewrite length_app. destruct (_ <? _); [cbn; lia|]. destruct (_ <=? _); [cbn; lia|]. destruct (_ <=? _); cbn [length]; lia. Qed.
End Instructions.

(** ** Searching *)

Section Delete.
  Variable p : platform.

Lemma erase_loop_suffix fuel b pc : exists k, erase_loop fuel b pc = skipn k pc.
Proof.
  revert pc. induction fuel as [|fuel IH]; intros pc; [now exists 0%nat|]. cbn [erase_loop]. destruct (prefix_of b pc); [|now exists 0%nat].
  destruct (IH (skipn (length b) pc)) as [k ->]. exists (length b + k)%nat. now rewrite drop_drop.
Qed.

Lemma delete_loop_bytes fuel b pc : bytes pc -> bytes (delete_loop p fuel b pc).
Proof.
  revert pc. induction fuel as [|fuel IH]; intros pc B; cbn [delete_loop]; destruct (erase_loop_suffix (length pc) b pc) as [k ->].
  { now apply Forall_skipn'. }
  assert (B' : bytes (skipn k pc)) by now apply Forall_skipn'.
  destruct (GetOp p (skipn k pc)) as [[[opcode data] rest]|] eqn:E; [|exact B'].
  destruct (GetOp_ok p _ _ _ _ B' E) as (_ & _ & R & _). apply Forall_app. split; [now apply Forall_firstn'|now apply IH].
Qed.
Lemma FindAndDelete_bytes script b : bytes script -> bytes (FindAndDelete p script b).
Proof. unfold FindAndDelete. destruct b; [easy|]. apply delete_loop_bytes. Qed.
End Delete.

(** ** The encoding of signatures and keys *)

Lemma key_encoding_safe v : safe (IsCompressedOrUncompressedPubKey v) (fun _ => True).
Proof.
  unfold IsCompressedOrUncompressedPubKey. destruct (Z.ltb_spec (size v) 33); [easy|].
  apply safe_then, safe_at; [lia|]. intros b _. destruct (_ =? _); [easy|]. now destruct (_ || _).
Qed.

Lemma der_integer_safe v pos nLen : 2 <= pos -> 0 <= nLen -> pos + nLen < size v -> safe (der_integer v pos nLen) (fun _ => True).
Proof.
  intros P N L. unfold der_integer. apply safe_then, safe_at; [lia|]. intros t _. destruct (negb _); [easy|].
  destruct (Z.eqb_spec nLen 0); [easy|]. apply safe_then, safe_at; [lia|]. intros b _. destruct (negb _); [easy|].
  destruct (Z.ltb_spec 1 nLen); [|easy]. destruct (_ =? _); [|easy]. cbn [andb]. apply safe_then, safe_at; [lia|]. easy.
Qed.

(** The lengths it has read when a signature is well encoded. *)
Lemma IsDER_safe v : bytes v -> safe (IsDERSignature v true) (fun b => b = true ->
  exists nLenR nLenS, v !! 3%nat = Some nLenR /\ v !! Z.to_nat (5 + nLenR) = Some nLenS /\ 0 <= nLenR /\ 0 <= nLenS /\ nLenR + nLenS + 7 = size v).
Proof.
  intros B. unfold IsDERSignature. destruct (Z.ltb_spec (size v) 9); [easy|]. destruct (_ <? _); [easy|].
  apply safe_then, safe_at; [lia|]. intros t _. destruct (negb _); [easy|].
  apply safe_then, safe_at; [lia|]. intros len _. destruct (negb _); [easy|].
  apply safe_then, safe_at; [lia|]. intros nLenR HR. pose proof (byte_at _ _ _ B HR) as WR. unfold word in WR.
  destruct (Z.leb_spec (size v) (5 + nLenR)); [easy|].
  apply safe_then, safe_at; [lia|]. intros nLenS HS. pose proof (byte_at _ _ _ B HS) as WS. unfold word in WS.
  destruct (Z.eqb_spec (nLenR + nLenS + 7) (size v)) as [E|E]; cbn [negb]; [|easy].
  apply safe_then. eapply safe_weaken; [apply der_integer_safe; lia|]. intros r _. destruct (negb r); [easy|].
  eapply safe_weaken; [apply der_integer_safe; lia|]. intros r' _ _. exists nLenR, nLenS. splits; try easy; lia.
Qed.

Lemma low_DER_safe v : bytes v -> safe (IsLowDERSignature v) (fun _ => True).
Proof.
  intros B. unfold IsLowDERSignature. apply safe_then. eapply safe_weaken; [now apply IsDER_safe|]. intros [] H; cbn [negb]; [|easy].
  destruct (H eq_refl) as (nLenR & nLenS & HR & HS & R & S & E). apply safe_then.
  apply safe_at; [lia|]. intros b Eb. change (Z.to_nat 3) with 3%nat in Eb. rewrite HR in Eb. injection Eb as <-.
  apply safe_then, safe_at; [lia|]. easy.
Qed.

Lemma signature_encoding_safe v : bytes v -> safe (CheckSignatureEncoding v) (fun _ => True).
Proof.
  intros B. unfold CheckSignatureEncoding. apply safe_then. eapply safe_weaken; [now apply low_DER_safe|]. intros r _. destruct (negb r); [easy|].
  unfold IsDefinedHashtypeSignature. destruct (Z.eqb_spec (size v) 0); [easy|]. pose proof (size_nonneg v). apply safe_then, safe_at; [lia|]. easy.
Qed.

(** ** Numbers *)

Section Numbers.
  Context {BIGNUM : Type} {ops : BN_ops BIGNUM} {spec : BN_spec ops}.

(** The number a vector stands for. *)
Definition number (vch : list Z) : Z := mpi_value (rev vch).

Lemma number_range vch : bytes vch -> size vch <= 4 -> - 2 ^ 31 < number vch < 2 ^ 31.
Proof.
  intros B L. unfold number. destruct (rev vch) as [|h d] eqn:E; [easy|]. assert (B' : bytes (h :: d)) by (rewrite <- E; now apply Forall_rev).
  assert (Ld : (length d <= 3)%nat) by (apply (f_equal (@length _)) in E; rewrite length_rev in E; unfold size in L; cbn in E; lia).
  rewrite mpi_value_cons by exact B'. apply bytes_cons in B' as [Hh Hd]. unfold word in Hh.
  pose proof (be_val_range d Hd) as R. assert (P : 256 ^ Z.of_nat (length d) <= 2 ^ 24) by (change (2 ^ 24) with (256 ^ 3); apply Z.pow_le_mono_r; lia).
  rewrite !be_val_cons. assert (0 < 256 ^ Z.of_nat (length d)) by (apply Z.pow_pos_nonneg; lia).
  destruct (Z.ltb_spec h 128); nia.
Qed.

Lemma CastToBigNum_ok vch : bytes vch -> size vch <= 4 -> exists b : BIGNUM, CastToBigNum vch = Done b /\ bn b = number vch.
Proof.
  intros B L. unfold CastToBigNum. destruct (Z.ltb_spec 4 (size vch)); [lia|]. eexists. split; [reflexivity|].
  assert (V : bn (setvch vch : BIGNUM) = number vch) by (apply setvch_ok; [exact B|unfold size in L; lia]). rewrite <- V. apply setvch_getvch.
  rewrite V. pose proof (number_range vch B L) as R. destruct (Z.eq_dec (number vch) 0) as [->|N]; [easy|].
  destruct (mpi_size_bounds (number vch) N) as (K1 & K2 & K3). set (k := Z.of_nat (mpi_size (number vch))) in *.
  destruct (Z.le_gt_cases k 5); [lia|]. assert (2 ^ 32 <= 2 ^ (8 * (k - 1) - 1)) by (apply Z.pow_le_mono_r; lia). lia.
Qed.

Lemma CastToBigNum_safe vch (Q : BIGNUM -> Prop) :
  bytes vch -> (forall b, size vch <= 4 -> bn b = number vch -> - 2 ^ 31 < bn b < 2 ^ 31 -> Q b) -> safe (CastToBigNum vch) Q.
Proof.
  intros B H. destruct (Z.le_gt_cases (size vch) 4) as [L|L].
  - destruct (CastToBigNum_ok vch B L) as (b & -> & E). apply H; [exact L|exact E|]. rewrite E. now apply number_range.
  - unfold CastToBigNum. destruct (Z.ltb_spec 4 (size vch)); [easy|lia].
Qed.

(** An element a script may have. *)
Definition item (v : list Z) : Prop := bytes v /\ size v <= MAX_SCRIPT_ELEMENT_SIZE.

Lemma getvch_number (b : BIGNUM) : number (getvch b) = bn b.
Proof. unfold number. rewrite getvch_ok, rev_involutive. apply mpi_value_bytes. Qed.

Lemma getvch_item (b : BIGNUM) : - 2 ^ 39 < bn b < 2 ^ 39 -> item (getvch b).
Proof.
  intros R. rewrite getvch_ok. split; [apply Forall_rev, bytes_mpi_bytes|]. unfold size. rewrite length_rev, length_mpi_bytes.
  destruct (Z.eq_dec (bn b) 0) as [->|N]; [easy|]. destruct (mpi_size_bounds (bn b) N) as (K1 & K2 & K3).
  set (k := Z.of_nat (mpi_size (bn b))) in *. unfold MAX_SCRIPT_ELEMENT_SIZE.
  destruct (Z.le_gt_cases k 5); [lia|]. assert (2 ^ 39 <= 2 ^ (8 * (k - 1) - 1)) by (apply Z.pow_le_mono_r; lia). lia.
Qed.
Lemma of_bool_item b : item (of_bool b).
Proof. destruct b; split; try (repeat constructor; easy); easy. Qed.

Lemma op_neg_ok (b : BIGNUM) : bn (op_neg b) = - bn b.
Proof. unfold op_neg. rewrite set_negative_spec, is_negative_spec. destruct (Z.ltb_spec (bn b) 0); cbn [negb]; lia. Qed.
Lemma op_ne_ok (a b : BIGNUM) : op_ne a b = negb (bn a =? bn b).
Proof. unfold op_ne. rewrite cmp_spec. destruct (Z.compare_spec (bn a) (bn b)); destruct (Z.eqb_spec (bn a) (bn b)); try easy; lia. Qed.
Lemma op_eq_ok (a b : BIGNUM) : op_eq a b = (bn a =? bn b).
Proof. unfold op_eq. rewrite cmp_spec. destruct (Z.compare_spec (bn a) (bn b)); destruct (Z.eqb_spec (bn a) (bn b)); try easy; lia. Qed.
Lemma op_ge_ok (a b : BIGNUM) : op_ge a b = (bn b <=? bn a).
Proof. unfold op_ge. rewrite cmp_spec. destruct (Z.compare_spec (bn a) (bn b)); destruct (Z.leb_spec (bn b) (bn a)); try easy; lia. Qed.
Lemma bn_bool_ok b : bn (bn_bool b : BIGNUM) = if b then 1 else 0.
Proof. unfold bn_bool. rewrite of_long_ok; destruct b; lia. Qed.

Lemma unary_op_range opcode (b : BIGNUM) : - 2 ^ 31 < bn b < 2 ^ 31 -> safe (unary_op opcode b) (fun r => - 2 ^ 32 < bn r < 2 ^ 32).
Proof.
  intros R. unfold unary_op.
  repeat match goal with
  | |- safe (match ?x with Z0 => _ | Zpos _ => _ | Zneg _ => _ end) _ => destruct x; try easy
  | |- safe (match ?x with xI _ => _ | xO _ => _ | xH => _ end) _ => destruct x; try easy
  end; try (apply safe_caught; intros r E; unfold op_plus, op_minus in E).
  all: try (destruct (add_spec b (of_long 1)) as (r' & E' & V); rewrite of_long_ok in V by lia; replace r with r' by congruence; lia).
  all: try (destruct (sub_spec b (of_long 1)) as (r' & E' & V); rewrite of_long_ok in V by lia; replace r with r' by congruence; lia).
  all: repeat match goal with |- context [if ?c then _ else _] => destruct c end; cbn [safe]; rewrite ?op_neg_ok, ?of_long_ok; lia.
Qed.

Lemma binary_op_range opcode (a b : BIGNUM) :
  - 2 ^ 31 < bn a < 2 ^ 31 -> - 2 ^ 31 < bn b < 2 ^ 31 -> safe (binary_op opcode a b) (fun r => - 2 ^ 32 < bn r < 2 ^ 32).
Proof.
  intros Ra Rb. assert (T : forall c, - 2 ^ 32 < bn (bn_bool c : BIGNUM) < 2 ^ 32) by (intros []; rewrite bn_bool_ok; lia).
  unfold binary_op.
  repeat match goal with
  | |- safe (match ?x with Z0 => _ | Zpos _ => _ | Zneg _ => _ end) _ => destruct x; try easy
  | |- safe (match ?x with xI _ => _ | xO _ => _ | xH => _ end) _ => destruct x; try easy
  end; try apply T; try (apply safe_caught; intros r E; unfold op_plus, op_minus in E).
  all: try (match goal with |- safe (Done (if ?c then _ else _)) _ => destruct c; cbn [safe]; lia end).
  all: try (destruct (add_spec a b) as (r' & E' & V); replace r with r' by congruence; lia).
  all: destruct (sub_spec a b) as (r' & E' & V); replace r with r' by congruence; lia.
Qed.
End Numbers.

(** ** Every step keeps the limits *)

Section Evaluation.
  Variable p : platform.
  Variable SHA256 : list Z -> list Z.
  Variable Verify : list Z -> list Z -> list Z -> bool.
  Context {BIGNUM : Type} {ops : BN_ops BIGNUM} {spec : BN_spec ops}.
  Variables RIPEMD160 SHA1 : list Z -> list Z.
  Variable txTo : CTransaction.
  Variable nIn : nat.
  Variables flags nHashType : Z.
  Hypothesis little : order p <> SPH_BIG_ENDIAN.
  Hypothesis SHA256_ok : forall m, bytes m -> length (SHA256 m) = 32%nat /\ bytes (SHA256 m).
  Hypothesis RIPEMD160_ok : forall m, bytes m -> length (RIPEMD160 m) = 20%nat /\ bytes (RIPEMD160 m).
  Hypothesis SHA1_ok : forall m, bytes m -> length (SHA1 m) = 20%nat /\ bytes (SHA1 m).
  Hypothesis input : (nIn < length (vin txTo))%nat.
  Abbreviation exec_op := (exec_op (ops := ops) p SHA256 Verify RIPEMD160 SHA1 txTo nIn flags nHashType).
  Abbreviation check_one := (check_one p SHA256 Verify txTo nIn flags nHashType).
  Abbreviation step := (step (ops := ops) p SHA256 Verify RIPEMD160 SHA1 txTo nIn flags nHashType).

(** The memory between two instructions, but for the number of elements. *)
Record items (m : machine) : Prop := {
  items_stack : Forall item (stack m);
  items_altstack : Forall item (altstack m);
  items_count : 0 <= nOpCount m <= 201;
  items_code : bytes (codehash m)
}.
Definition machine_ok (m : machine) : Prop := items m /\ (length (stack m) + length (altstack m) <= 1000)%nat.

Lemma items_with_stack s m : items m -> Forall item s -> items (with_stack s m).
Proof. intros [A B C D] H. now split. Qed.
Lemma items_with_vfExec v m : items m -> items (with_vfExec v m).
Proof. intros [A B C D]. now split. Qed.
Hint Resolve items_with_stack items_with_vfExec : core.

Lemma check_one_safe vchSig vchPubKey code : bytes vchSig -> safe (check_one vchSig vchPubKey code) (fun _ => True).
Proof.
  intros B. unfold Interpreter.check_one. apply safe_then, (safe_weaken _ (fun _ => True)).
  - destruct (flag _ _); [|easy]. apply safe_then. eapply safe_weaken; [now apply signature_encoding_safe|]. intros r _.
    destruct (negb r); [easy|]. apply key_encoding_safe.
  - intros strict _. apply safe_need. intros _. apply safe_then. eapply safe_weaken; [now apply signature_encoding_safe|]. intros r _.
    destruct (negb r); [easy|]. apply safe_then. eapply safe_weaken; [apply key_encoding_safe|]. intros r' _. now destruct (negb r').
Qed.

Ltac cut_stack H := repeat match type of H with Forall _ (_ :: _) => let X := fresh "I" in apply Forall_cons in H as [X H] end.
Ltac stack_cases :=
  repeat match goal with
  | |- safe (match ?s with [] => _ | _ :: _ => _ end) _ => destruct s; [easy|]
  end.

Lemma stack_op_safe opcode s : Forall item s -> (length s <= 1000)%nat -> safe (stack_op (ops := ops) opcode s) (Forall item).
Proof.
  intros F L. assert (D : item (getvch (of_ulong (Z.of_nat (length s)) : BIGNUM))).
  { apply getvch_item. unfold of_ulong. rewrite set_word_spec; unfold word; lia. }
  unfold stack_op.
  repeat match goal with
  | |- safe (match ?x with Z0 => _ | Zpos _ => _ | Zneg _ => _ end) _ => destruct x; try easy
  | |- safe (match ?x with xI _ => _ | xO _ => _ | xH => _ end) _ => destruct x; try easy
  end; stack_cases; cut_stack F; cbn [safe];
    try (destruct (CastToBool _)); repeat (apply Forall_cons; split; try assumption); try assumption.
  apply getvch_item. destruct I as [_ I]. unfold MAX_SCRIPT_ELEMENT_SIZE in I. unfold of_ulong. pose proof (size_nonneg l).
  rewrite set_word_spec; unfold word; lia.
Qed.

Lemma pick_op_safe roll s : Forall item s -> safe (pick_op (ops := ops) roll s) (Forall item).
Proof.
  intros F. destruct s as [|top s]; [easy|]. cut_stack F. cbn [pick_op]. destruct s as [|x s0] eqn:E; [easy|]. rewrite <- E in *. clear E.
  apply safe_then, CastToBigNum_safe; [apply I|]. intros b _ _ _. apply safe_need. intros C.
  apply negb_true_iff, orb_false_iff in C as [C1 C2]. apply Z.ltb_ge in C1. apply Z.leb_gt in C2.
  destruct (s !! Z.to_nat (getint b)) as [v|] eqn:Hv; [|apply lookup_ge_None in Hv; lia].
  apply Forall_cons. split; [now apply (Forall_lookup_1 _ _ _ _ F Hv)|]. destruct roll; [now apply Forall_delete|exact F].
Qed.

Lemma numeric_op_safe opcode s : Forall item s -> safe (numeric_op (ops := ops) opcode s) (Forall item).
Proof.
  intros F. assert (G : forall b : BIGNUM, - 2 ^ 32 < bn b < 2 ^ 32 -> item (getvch b)) by (intros b R; apply getvch_item; lia).
  assert (One : forall x s0, item x -> Forall item s0 -> safe (bn ← CastToBigNum x; bn ← unary_op opcode bn; Done (getvch (bn : BIGNUM) :: s0)) (Forall item)).
  { intros x s0 Ix F0. apply safe_then, CastToBigNum_safe; [apply Ix|]. intros b _ _ R. apply safe_then.
    eapply safe_weaken; [now apply unary_op_range|]. intros r Rr. apply Forall_cons. auto. }
  assert (Two : forall x1 x2 s0 k, item x1 -> item x2 -> Forall item s0 ->
    (forall b : BIGNUM, - 2 ^ 32 < bn b < 2 ^ 32 -> safe (k b) (Forall item)) ->
    safe (bn1 ← CastToBigNum x1; bn2 ← CastToBigNum x2; bn ← binary_op opcode bn1 bn2; k (bn : BIGNUM)) (Forall item)).
  { intros x1 x2 s0 k I1 I2 F0 K. apply safe_then, CastToBigNum_safe; [apply I1|]. intros b1 _ _ R1.
    apply safe_then, CastToBigNum_safe; [apply I2|]. intros b2 _ _ R2. apply safe_then.
    eapply safe_weaken; [now apply binary_op_range|]. exact K. }
  unfold numeric_op.
  repeat match goal with
  | |- safe (match ?x with Z0 => _ | Zpos _ => _ | Zneg _ => _ end) _ => destruct x
  | |- safe (match ?x with xI _ => _ | xO _ => _ | xH => _ end) _ => destruct x
  end; stack_cases; cut_stack F; try (apply One; assumption);
    try (eapply Two; try eassumption; intros b R; apply Forall_cons; auto; fail);
    try (eapply Two; try eassumption; intros b R; apply safe_need; auto; fail).
  apply safe_then, CastToBigNum_safe; [apply I1|]. intros b1 _ _ _. apply safe_then, CastToBigNum_safe; [apply I0|]. intros b2 _ _ _.
  apply safe_then, CastToBigNum_safe; [apply I|]. intros b3 _ _ _. apply Forall_cons. split; [apply of_bool_item|exact F].
Qed.

Lemma hash_op_safe opcode v : bytes v -> safe (hash_op SHA256 RIPEMD160 SHA1 opcode v) item.
Proof.
  intros B. assert (I : forall h n, (length h = n /\ bytes h)%nat -> (n <= 32)%nat -> item h).
  { intros h n [L Bh] N. split; [exact Bh|]. unfold size, MAX_SCRIPT_ELEMENT_SIZE. lia. }
  unfold hash_op.
  repeat match goal with
  | |- safe (match ?x with Z0 => _ | Zpos _ => _ | Zneg _ => _ end) _ => destruct x; try easy
  | |- safe (match ?x with xI _ => _ | xO _ => _ | xH => _ end) _ => destruct x; try easy
  end; cbn [safe]; pose proof (proj2 (SHA256_ok v B)) as B'.
  all: first [apply (I _ 20%nat); [solve [auto]|lia]|apply (I _ 32%nat); [solve [auto]|lia]].
Qed.

Lemma check_lock_time_safe s : safe (check_lock_time txTo nIn flags s) (fun _ => True).
Proof.
  unfold check_lock_time. destruct (negb _); [easy|]. destruct s; [easy|]. apply safe_then, safe_caught. intros time _.
  do 3 (apply safe_need; intros _). destruct (vin txTo !! nIn) eqn:E; [now apply safe_need|]. apply lookup_ge_None in E. lia.
Qed.

Lemma multisig_loop_safe code sigs keys :
  (length sigs <= length keys)%nat -> Forall item sigs -> safe (multisig_loop p SHA256 Verify txTo nIn flags nHashType code sigs keys) (fun _ => True).
Proof.
  revert sigs. induction keys as [|key keys IH]; intros [|vchSig rest] L F; [easy|cbn in L; lia|easy|]. cbn [multisig_loop].
  pose proof F as F'. apply Forall_cons in F' as [[B _] F']. apply safe_then. eapply safe_weaken; [now apply check_one_safe|].
  intros fOk _. cbv zeta. destruct (Nat.ltb_spec (length keys) (length (if (fOk : bool) then rest else vchSig :: rest))); [easy|].
  apply IH; [exact H|]. now destruct fOk.
Qed.

Lemma multisig_op_safe m : items m ->
  safe (multisig_op (ops := ops) p SHA256 Verify txTo nIn flags nHashType m) (fun r => Forall item r.1.2 /\ 0 <= r.2 <= 201).
Proof.
  intros [F _ C B]. unfold multisig_op. destruct (stack m) as [|n s1]; [easy|]. apply Forall_cons in F as [In F].
  apply safe_then, CastToBigNum_safe; [apply In|]. intros bk _ _ _. apply safe_need. intros K. apply negb_true_iff, orb_false_iff in K as [K1 K2].
  apply Z.ltb_ge in K1, K2. apply safe_need. intros O. apply negb_true_iff, Z.ltb_ge in O. cbv zeta.
  set (nk := Z.to_nat (getint bk)) in *. destruct (skipn nk s1) as [|k s2] eqn:E; [easy|].
  assert (F2 : Forall item (k :: s2)) by (rewrite <- E; now apply Forall_skipn').
  assert (L1 : (nk < length s1)%nat) by (apply (f_equal (@length _)) in E; rewrite length_skipn in E; cbn in E; lia).
  apply Forall_cons in F2 as [Ik F2]. apply safe_then, CastToBigNum_safe; [apply Ik|]. intros bs _ _ _. apply safe_need. intros S.
  apply negb_true_iff, orb_false_iff in S as [S1 S2]. apply Z.ltb_ge in S1, S2. apply safe_need. intros L2. apply Z.ltb_lt in L2.
  set (ns := Z.to_nat (getint bs)) in *. apply safe_then. eapply safe_weaken.
  { apply multisig_loop_safe; [rewrite !length_firstn; lia|now apply Forall_firstn']. }
  intros fSuccess _. destruct (skipn ns s2) as [|dummy s3] eqn:E2; [easy|].
  assert (F3 : Forall item (dummy :: s3)) by (rewrite <- E2; now apply Forall_skipn'). apply Forall_cons in F3 as [_ F3].
  apply safe_need. intros _. cbn [safe fst snd]. split; [exact F3|lia].
Qed.

Lemma on_stack_safe m r : items m -> safe r (Forall item) -> safe (on_stack m r) items.
Proof. intros I S. apply safe_then. eapply safe_weaken; [exact S|]. intros s F. now apply items_with_stack. Qed.

Lemma exec_op_safe opcode fExec pc m :
  items m -> (length (stack m) <= 1000)%nat -> bytes pc -> safe (exec_op opcode fExec pc m) items.
Proof.
  intros I L Bp. pose proof I as [F A C B].
  assert (Def : safe (if (opcode =? OP_1NEGATE) || ((OP_1 <=? opcode) && (opcode <=? OP_16)) then
        Done (push (getvch (of_long (opcode - (OP_1 - 1)) : BIGNUM)) m)
      else if (OP_2DROP <=? opcode) && (opcode <=? OP_SIZE) then on_stack m (stack_op opcode (stack m))
      else if (OP_1ADD <=? opcode) && (opcode <=? OP_WITHIN) then on_stack m (numeric_op opcode (stack m))
      else Fail) items).
  { destruct (orb _ _) eqn:E.
    - assert (0x4f <= opcode <= 0x60) by lia. apply items_with_stack; [exact I|]. apply Forall_cons. split; [|exact F].
      apply getvch_item. rewrite of_long_ok; lia.
    - clear E. destruct ((OP_2DROP <=? opcode) && _); [apply on_stack_safe; [exact I|now apply stack_op_safe]|].
      destruct ((OP_1ADD <=? opcode) && _); [apply on_stack_safe; [exact I|now apply numeric_op_safe]|easy]. }
  unfold Interpreter.exec_op.
  repeat match goal with
  | |- safe (match ?x with Z0 => _ | Zpos _ => _ | Zneg _ => _ end) _ => destruct x; try exact Def
  | |- safe (match ?x with xI _ => _ | xO _ => _ | xH => _ end) _ => destruct x; try exact Def
  end; clear Def; try exact I; try easy; try (now apply safe_need).
  all: try (apply safe_then; eapply safe_weaken; [apply check_lock_time_safe|intros ? _; exact I]).
  all: try (apply on_stack_safe; [exact I|now apply pick_op_safe]).
  all: try (apply safe_then; eapply safe_weaken; [now apply multisig_op_safe|];
    intros [[r s] k] [Fs Hk]; cbn in Fs, Hk; match goal with |- safe (if ?c then _ else _) _ => destruct c end;
    [apply safe_need; intros _|]; split; cbn; try assumption; apply Forall_cons; split; [apply of_bool_item|exact Fs]).
  all: destruct (stack m) as [|x s] eqn:Es; try destruct fExec; try easy; cut_stack F; try (apply items_with_vfExec; exact I).
  all: repeat match goal with |- safe (match ?s with [] => _ | _ :: _ => _ end) _ => destruct s eqn:?; try easy; cut_stack F; cut_stack A end.
  all: try (apply safe_then; eapply safe_weaken; [apply hash_op_safe; apply I0|]; intros h Ih;
    apply items_with_stack; [exact I|now apply Forall_cons]).
  all: try (apply safe_then; eapply safe_weaken; [apply check_one_safe; apply I1|]; intros r _;
    match goal with |- safe (if ?c then _ else _) _ => destruct c end; [apply safe_need; intros _|];
    apply items_with_stack; try exact I; try exact F; apply Forall_cons; split; [apply of_bool_item|exact F]).
  all: try (apply safe_need; intros _).
  all: try (apply items_with_stack; try exact I; try exact F; apply Forall_cons; split; [apply of_bool_item|exact F]).
  all: try (apply items_with_vfExec; try apply items_with_stack; first [exact I|exact F]).
  all: try (apply items_with_stack; first [exact I|exact F]).
  all: split; cbn; repeat (apply Forall_cons; split); assumption.
Qed.

Lemma step_safe pc m : machine_ok m -> bytes pc -> safe (step pc m) (fun r =>
  machine_ok r.2 /\ bytes r.1 /\ (length r.1 < length pc)%nat /\ exists prefix, pc = prefix ++ r.1).
Proof.
  intros [I L] B. unfold Interpreter.step. destruct (GetOp p pc) as [[[opcode data] rest]|] eqn:E; [|easy].
  destruct (GetOp_ok p _ _ _ _ B E) as (_ & Bd & Br & Lr & _ & Pre). apply safe_need. intros N. apply negb_true_iff, Z.ltb_ge in N.
  cbv zeta. apply safe_need. intros C. apply safe_need. intros _. pose proof I as [F A K D].
  set (m' := with_nOpCount _ m). assert (I' : items m').
  { split; cbn; [exact F|exact A| |exact D]. destruct (OP_16 <? opcode); [|exact K]. apply negb_true_iff, Z.ltb_ge in C. lia. }
  apply safe_then. eapply safe_weaken with (P := items).
  - set (fExec := forallb _ _). destruct (fExec && (opcode <=? OP_PUSHDATA4)).
    { apply items_with_stack; [exact I'|]. apply Forall_cons. split; [now split|exact F]. }
    destruct (fExec || _); [apply exec_op_safe; [exact I'|cbn; lia|exact Br]|exact I'].
  - intros m'' I''. apply safe_need. intros W. apply Z.leb_le in W. cbn. splits; [split; [exact I''|lia]|exact Br|exact Lr|exact Pre].
Qed.

Lemma eval_loop_safe fuel pc m : machine_ok m -> bytes pc -> (length pc <= fuel)%nat ->
  safe (eval_loop (ops := ops) p SHA256 Verify RIPEMD160 SHA1 txTo nIn flags nHashType fuel pc m) machine_ok.
Proof.
  revert pc m. induction fuel as [|fuel IH]; intros pc m M B L; cbn [eval_loop]; [destruct pc; [exact M|cbn in L; lia]|].
  destruct pc as [|b pc]; [exact M|]. apply safe_then. eapply safe_weaken; [now apply (step_safe (b :: pc))|].
  intros [pc' m'] (M' & B' & L' & _). apply IH; [exact M'|exact B'|cbn in L', L; cbn; lia].
Qed.

(** A stack that can be handed to a script. *)
Definition stack_ok (s : list (list Z)) : Prop := Forall item s /\ (length s <= 1000)%nat.

Abbreviation EvalScript := (EvalScript (ops := ops) p SHA256 Verify RIPEMD160 SHA1 txTo nIn flags nHashType).
Abbreviation VerifyScript := (VerifyScript (ops := ops) p SHA256 Verify RIPEMD160 SHA1 txTo nIn flags nHashType).

Lemma start_ok s script : stack_ok s -> bytes script -> machine_ok (Machine s [] [] 0 script).
Proof. clear input. intros [F L] B. split; [split; cbn; [exact F|constructor|lia|exact B]|cbn; lia]. Qed.

Lemma EvalScript_safe s script : stack_ok s -> bytes script -> safe (EvalScript s script) stack_ok.
Proof.
  intros S B. unfold Interpreter.EvalScript. apply safe_need. intros _. apply safe_then.
  eapply safe_weaken; [apply eval_loop_safe; [now apply start_ok|exact B|lia]|]. intros m [[F _ _ _] L].
  apply safe_need. intros _. split; [exact F|lia].
Qed.

(** A script that begins with [OP_HASH160] needs an element. *)
Lemma EvalScript_hash160 script : IsPayToScriptHash script = true -> EvalScript [] script = Fail.
Proof.
  unfold IsPayToScriptHash. intros H. apply andb_true_iff in H as [H _]. apply andb_true_iff in H as [H _]. apply andb_true_iff in H as [H1 H2].
  destruct script as [|b script]; [easy|]. cbn [nth] in H2. apply Z.eqb_eq in H2 as ->. unfold Interpreter.EvalScript.
  destruct (negb _); [|reflexivity]. reflexivity.
Qed.

Lemma VerifyScript_safe scriptSig scriptPubKey :
  bytes scriptSig -> bytes scriptPubKey -> safe (VerifyScript scriptSig scriptPubKey) (fun _ => True).
Proof.
  intros B1 B2. assert (T : forall s, safe (top_true s) (fun _ => True)) by (intros [|x s]; [easy|now apply safe_need]).
  unfold Interpreter.VerifyScript. apply safe_then. eapply safe_weaken; [apply EvalScript_safe; [split; [constructor|cbn; lia]|exact B1]|].
  intros copy S. destruct (IsPayToScriptHash scriptPubKey) eqn:P.
  - destruct copy as [|pubKey2 copy]; [now rewrite EvalScript_hash160|]. apply safe_then.
    eapply safe_weaken; [now apply EvalScript_safe|]. intros s _. apply safe_then. eapply safe_weaken; [apply T|]. intros _ _.
    apply safe_need. intros _. destruct S as [F L]. apply Forall_cons in F as [I F]. apply safe_then.
    eapply safe_weaken; [apply EvalScript_safe; [split; [exact F|cbn in L; lia]|apply I]|]. intros s' _. apply T.
  - apply safe_then. eapply safe_weaken; [now apply EvalScript_safe|]. intros s _. apply safe_then. eapply safe_weaken; [apply T|]. easy.
Qed.
End Evaluation.
