(* ===== verification/SignatureTheorems.v ===== *)
(** * Theorems on signatures

    Which encodings are accepted, and what a signature commits to. *)

From stdpp Require Import list.
From Stdlib Require Import ZArith Lia.
From S2P Require Import Prelude SphTypes Uint256 Uint256Proof Uint256Hex Serialize SerializeProof Transaction TransactionProof TransactionTheorems BigNum BigNumProof Script Interpreter ScriptProof.
Local Open Scope Z_scope.

(** ** The encoding of signatures, and what they sign *)

(** ** Encodings *)

(** The digits of a number that is not negative, without a useless byte. *)
Definition canonical (r : list Z) : bool :=
  match r with
  | [] => false
  | [b0] => (b0 .& 0x80) =? 0
  | b0 :: b1 :: _ => ((b0 .& 0x80) =? 0) && (negb (b0 =? 0) || negb ((b1 .& 0x80) =? 0))
  end.

(** A signature as the standard lays it out, and the byte of its hash type. *)
Definition der (r s : list Z) (hashtype : Z) : list Z :=
  0x30 :: size r + size s + 4 :: 0x02 :: size r :: r ++ 0x02 :: size s :: s ++ [hashtype].

Lemma at_app pre v i : size pre <= i -> at_ (pre ++ v) i = at_ v (i - size pre).
Proof. unfold at_, size. intros H. rewrite lookup_app_r by lia. now replace (Z.to_nat i - length pre)%nat with (Z.to_nat (i - Z.of_nat (length pre))) by lia. Qed.

Lemma der_integer_shape pre t r rest :
  der_integer (pre ++ t :: size r :: r ++ rest) (size pre + 2) (size r) = Done ((t =? 2) && canonical r).
Proof.
  pose proof (size_nonneg pre) as P. unfold der_integer. rewrite !at_app by lia. replace (size pre + 2 - 2 - size pre) with 0 by lia. change (at_ _ 0) with (Done t).
  cbn [mbind outcome_bind]. destruct (Z.eqb_spec t 2) as [->|N]; cbn [negb andb]; [|reflexivity].
  destruct r as [|b0 r]; [reflexivity|]. destruct (Z.eqb_spec (size (b0 :: r)) 0) as [E|_]; [now unfold size in E|].
  replace (size pre + 2 - size pre) with 2 by lia. replace (size pre + 2 + 1 - size pre) with 3 by lia.
  change (at_ _ 2) with (Done b0). cbn [mbind outcome_bind]. destruct r as [|b1 r].
  - cbn [canonical size length]. change (1 <? Z.of_nat 1) with false. cbn [andb]. now destruct (_ =? 0).
  - change (at_ _ 3) with (Done b1). cbn [mbind outcome_bind canonical]. destruct (Z.ltb_spec 1 (size (b0 :: b1 :: r))) as [_|K]; [|unfold size in K; cbn [length] in K; lia].
    cbn [andb]. destruct ((b0 .& 128) =? 0); cbn [negb andb]; [|reflexivity]. now destruct (b0 =? 0).
Qed.
Lemma canonical_size r : canonical r = true -> 1 <= size r.
Proof. destruct r; [easy|]. unfold size. cbn [length]. lia. Qed.

(** The parts a signature has when its two lengths fit. *)
Lemma der_parts v nLenR nLenS :
  v !! 3%nat = Some nLenR -> v !! Z.to_nat (5 + nLenR) = Some nLenS -> 0 <= nLenR -> 0 <= nLenS -> nLenR + nLenS + 7 = size v ->
  exists b0 b1 b2 r t s h, v = b0 :: b1 :: b2 :: size r :: r ++ t :: size s :: s ++ [h] /\ size r = nLenR /\ size s = nLenS.
Proof.
  unfold size. intros H3 H5 R S E. destruct v as [|b0 [|b1 [|b2 [|b3 v]]]]; cbn [length] in E; try lia. cbn in H3. injection H3 as ->.
  set (n := Z.to_nat nLenR). replace (Z.to_nat (5 + nLenR)) with (4 + (1 + n))%nat in H5 by lia. cbn [lookup plus] in H5.
  assert (H5' : v !! (1 + n)%nat = Some nLenS) by exact H5. clear H5. rewrite <- (firstn_skipn n v) in H5'.
  assert (Lr : length (firstn n v) = n) by (rewrite length_firstn; lia). rewrite lookup_app_r, Lr in H5' by lia. replace (1 + n - n)%nat with 1%nat in H5' by lia.
  assert (Lu : length (skipn n v) = (Z.to_nat nLenS + 3)%nat) by (rewrite length_skipn; lia).
  rewrite <- (firstn_skipn n v). destruct (skipn n v) as [|t [|t2 w]]; cbn [length] in Lu; try lia. cbn in H5'. injection H5' as ->.
  set (k := Z.to_nat nLenS) in *. assert (Ls : length (firstn k w) = k) by (rewrite length_firstn; lia).
  assert (Lh : length (skipn k w) = 1%nat) by (rewrite length_skipn; lia). rewrite <- (firstn_skipn k w). destruct (skipn k w) as [|h [|? ?]]; try easy.
  exists b0, b1, b2, (firstn n v), t, (firstn k w), h. rewrite Lr, Ls. unfold n, k. rewrite !Z2Nat.id by lia. auto.
Qed.

Lemma IsDER_shape b0 b1 b2 r t s h :
  let v := b0 :: b1 :: b2 :: size r :: r ++ t :: size s :: s ++ [h] in
  IsDERSignature v true =
  Done ((size v <=? 73) && (b0 =? 0x30) && (b1 =? size v - 3) && ((b2 =? 2) && canonical r) && ((t =? 2) && canonical s)).
Proof.
  intros v. assert (Lv : size v = size r + size s + 7) by (unfold v, size; cbn [length]; rewrite length_app; cbn [length]; rewrite length_app; cbn [length]; lia).
  pose proof (size_nonneg r). pose proof (size_nonneg s). unfold IsDERSignature. rewrite Lv. destruct (Z.ltb_spec (size r + size s + 7) 9) as [C|C].
  { f_equal. symmetry. apply andb_false_iff. destruct (canonical r) eqn:Er; [right|left; now rewrite !andb_false_r].
    destruct (canonical s) eqn:Es; [|now rewrite andb_false_r]. apply canonical_size in Er, Es. lia. }
  rewrite (Z.ltb_antisym _ 73). destruct (_ <=? 73) eqn:E73; cbn [negb andb]; [|reflexivity].
  change (at_ v 0) with (Done b0). cbn [mbind outcome_bind]. destruct (b0 =? _); cbn [negb andb]; [|reflexivity].
  change (at_ v 1) with (Done b1). cbn [mbind outcome_bind]. destruct (b1 =? _); cbn [negb andb]; [|reflexivity].
  change (at_ v 3) with (Done (size r)). cbn [mbind outcome_bind]. destruct (Z.leb_spec (size r + size s + 7) (5 + size r)); [lia|].
  assert (E5 : at_ v (5 + size r) = Done (size s)).
  { change v with ([b0; b1; b2; size r] ++ r ++ t :: size s :: s ++ [h]). rewrite (at_app [b0; b1; b2; size r]) by (change (size [b0; b1; b2; size r]) with 4; lia).
    change (size [b0; b1; b2; size r]) with 4. rewrite at_app by lia. replace (5 + size r - 4 - size r) with 1 by lia. reflexivity. }
  rewrite E5. cbn [mbind outcome_bind]. rewrite Z.eqb_refl. cbn [negb].
  rewrite (der_integer_shape [b0; b1] b2 r (t :: size s :: s ++ [h]) : der_integer v 4 (size r) = _). cbn [mbind outcome_bind].
  destruct ((b2 =? 2) && canonical r); cbn [negb andb]; [|reflexivity].
  pose proof (der_integer_shape (b0 :: b1 :: b2 :: size r :: r) t s [h]) as E.
  replace (size (b0 :: b1 :: b2 :: size r :: r) + 2) with (6 + size r) in E by (unfold size; cbn [length]; lia). exact E.
Qed.

Lemma IsDER_canonical v : bytes v ->
  IsDERSignature v true = Done true <->
  exists r s hashtype, v = der r s hashtype /\ canonical r = true /\ canonical s = true /\ size v <= 73.
Proof.
  intros B. split.
  - intros E. pose proof (IsDER_safe v B) as G. rewrite E in G. destruct (G eq_refl) as (nR & nS & H3 & H5 & R & S & L). clear G.
    destruct (der_parts v nR nS H3 H5 R S L) as (b0 & b1 & b2 & r & t & s & h & Ev & Er & Es).
    pose proof (IsDER_shape b0 b1 b2 r t s h) as H. cbv zeta in H. rewrite <- Ev, E in H. injection H as H. symmetry in H. rewrite !andb_true_iff in H.
    rewrite Z.leb_le, !Z.eqb_eq in H. destruct H as ((((C & ->) & ->) & [-> Cr]) & [-> Cs]). exists r, s, h. splits; try assumption.
    unfold der. rewrite Ev at 1. do 2 f_equal. lia.
  - intros (r & s & h & -> & Cr & Cs & L). unfold der. rewrite IsDER_shape. fold (der r s h). rewrite Cr, Cs, (proj2 (Z.leb_le _ _) L). cbn [andb]. f_equal.
    rewrite !andb_true_r. apply Z.eqb_eq. unfold der, size. cbn [length]. rewrite length_app. cbn [length]. rewrite length_app. cbn [length]. lia.
Qed.

(** ** Numbers written most significant byte first *)

Definition sign_of (c : comparison) : Z := match c with Lt => -1 | Eq => 0 | Gt => 1 end.

Lemma compare_bytes_ok c1 c2 :
  bytes c1 -> bytes c2 -> length c1 = length c2 -> compare_bytes c1 c2 = sign_of (be_val c1 ?= be_val c2).
Proof.
  revert c2. induction c1 as [|b1 c1 IH]; intros [|b2 c2] B1 B2 L; try easy. cbn [compare_bytes].
  apply bytes_cons in B1 as [_ B1], B2 as [_ B2]. injection L as L. rewrite !be_val_cons, L. pose proof (be_val_range c1 B1) as R1.
  pose proof (be_val_range c2 B2) as R2. rewrite L in R1. set (k := 256 ^ Z.of_nat (length c2)) in *.
  destruct (Z.ltb_spec b2 b1) as [C|C].
  { replace (b1 * k + be_val c1 ?= b2 * k + be_val c2) with Gt by (symmetry; apply Z.compare_gt_iff; nia). reflexivity. }
  destruct (Z.ltb_spec b1 b2) as [C'|C'].
  { replace (b1 * k + be_val c1 ?= b2 * k + be_val c2) with Lt by (symmetry; apply Z.compare_lt_iff; nia). reflexivity. }
  replace b2 with b1 by lia. rewrite IH by assumption. f_equal. symmetry. apply Zcompare_plus_compat.
Qed.

Lemma skip_longer_ok n c found k :
  bytes c -> (n <= length c)%nat ->
  be_val (skipn n c) = be_val c /\ skip_longer n c found k = k (skipn n c) /\ be_val c < 256 ^ Z.of_nat (length c - n) \/
  skip_longer n c found k = found /\ 256 ^ Z.of_nat (length c - n) <= be_val c.
Proof.
  revert c. induction n as [|n IH]; intros c B L.
  - left. rewrite Nat.sub_0_r. splits; [reflexivity|now destruct c|]. apply (be_val_range c B).
  - destruct c as [|b c]; [cbn in L; lia|]. apply bytes_cons in B as [Hb B]. cbn [length] in *. replace (S (length c) - S n)%nat with (length c - n)%nat by lia.
    cbn [skip_longer skipn]. rewrite be_val_cons. pose proof (be_val_range c B) as R. unfold word in Hb. destruct (Z.eqb_spec b 0) as [->|N].
    + rewrite Z.mul_0_l, Z.add_0_l. apply IH; [exact B|lia].
    + right. split; [reflexivity|]. assert (256 ^ Z.of_nat (length c - n) <= 256 ^ Z.of_nat (length c)) by (apply Z.pow_le_mono_r; lia). nia.
Qed.

Lemma CompareBigEndian_ok c1 c2 : bytes c1 -> bytes c2 -> CompareBigEndian c1 c2 = sign_of (be_val c1 ?= be_val c2).
Proof.
  intros B1 B2. unfold CompareBigEndian. pose proof (be_val_range c1 B1) as R1. pose proof (be_val_range c2 B2) as R2.
  destruct (Nat.le_gt_cases (length c2) (length c1)) as [L|L].
  - destruct (skip_longer_ok (length c1 - length c2) c1 1 (fun c1 => skip_longer (length c2 - length c1) c2 (-1) (fun c2 => compare_bytes c1 c2)) B1) as [(V & E & _)|(E & K)]; [lia| |].
    + rewrite E. replace (length c2 - length (skipn (length c1 - length c2) c1))%nat with 0%nat by (rewrite length_skipn; lia).
      replace (skip_longer 0 c2 _ _) with (compare_bytes (skipn (length c1 - length c2) c1) c2) by now destruct c2.
      rewrite compare_bytes_ok, V by (first [exact B2|now apply Forall_skipn'|rewrite length_skipn; lia]). reflexivity.
    + rewrite E. replace (length c1 - (length c1 - length c2))%nat with (length c2) in K by lia. now rewrite (proj2 (Z.compare_gt_iff _ _)) by lia.
  - replace (length c1 - length c2)%nat with 0%nat by lia. assert (Z0 : forall k, skip_longer 0 c1 1 k = k c1) by now destruct c1. rewrite Z0.
    destruct (skip_longer_ok (length c2 - length c1) c2 (-1) (fun c2 => compare_bytes c1 c2) B2) as [(V & -> & _)|(-> & K)]; [lia| |].
    + rewrite compare_bytes_ok, V by (first [exact B1|now apply Forall_skipn'|rewrite length_skipn; lia]). reflexivity.
    + replace (length c2 - (length c2 - length c1))%nat with (length c1) in K by lia. now rewrite (proj2 (Z.compare_lt_iff _ _)) by lia.
Qed.

(** The order of the group of the curve. *)
Definition curve_order : Z := 0xFFFFFFFFFFFFFFFFFFFFFFFFFFFFFFFEBAAEDCE6AF48A03BBFD25E8CD0364141.

Lemma CheckSignatureElement_half_ok s : bytes s -> CheckSignatureElement_half s = (0 <? be_val s) && (be_val s <=? (curve_order - 1) / 2).
Proof.
  intros B. unfold CheckSignatureElement_half.
  rewrite !CompareBigEndian_ok by (first [exact B|apply wordb_Forall; reflexivity]).
  change (be_val []) with 0. change (be_val vchMaxModHalfOrder) with ((curve_order - 1) / 2). generalize ((curve_order - 1) / 2) as h. intros h.
  f_equal; [destruct (Z.compare_spec (be_val s) 0), (Z.ltb_spec 0 (be_val s)); try reflexivity; lia|
    destruct (Z.compare_spec (be_val s) h), (Z.leb_spec (be_val s) h); try reflexivity; lia].
Qed.

(** ** What a signature signs *)

(** The parts of a transaction that every signature with [SIGHASH_ALL] covers. *)
Definition payment (tx : CTransaction) : Z * Z * list (COutPoint * Z) * list CTxOut * Z :=
  (nVersion tx, nTime tx, map (fun i => (prevout i, nSequence i)) (vin tx), vout tx, nLockTime tx).
Definition signed_scripts (code : list Z) (nIn : nat) (inputs : list CTxIn) : list (list Z) :=
  imap (fun i _ => if (i =? nIn)%nat then code else []) inputs.

Section SigHash.
  Variable p : platform.

Lemma SignatureHash_copy_all code tx nIn :
  SignatureHash_copy p code tx nIn SIGHASH_ALL =
  Some (Transaction (nVersion tx) (nTime tx)
    (imap (fun i x => with_scriptSig (if (i =? nIn)%nat then FindAndDelete p code (push_op OP_CODESEPARATOR) else []) x) (vin tx)) (vout tx) (nLockTime tx)).
Proof. reflexivity. Qed.

Lemma copy_payment code nIn tx :
  let copy := Transaction (nVersion tx) (nTime tx) (imap (fun i x => with_scriptSig (if (i =? nIn)%nat then code else []) x) (vin tx)) (vout tx) (nLockTime tx) in
  payment copy = payment tx /\ map scriptSig (vin copy) = signed_scripts code nIn (vin tx).
Proof.
  cbn [vin]. unfold payment. cbn [nVersion nTime vin vout nLockTime]. split.
  - do 3 f_equal. apply list_eq. intros i. rewrite !list_lookup_fmap, list_lookup_imap. now destruct (vin tx !! i) as [[]|].
  - apply list_eq. intros i. unfold signed_scripts. rewrite list_lookup_fmap, !list_lookup_imap. now destruct (vin tx !! i).
Qed.

Lemma delete_loop_length fuel b pc : bytes pc -> (length (delete_loop p fuel b pc) <= length pc)%nat.
Proof.
  revert pc. induction fuel as [|fuel IH]; intros pc B; cbn [delete_loop]; destruct (erase_loop_suffix (length pc) b pc) as [k ->].
  { rewrite length_skipn. lia. }
  assert (B' : bytes (skipn k pc)) by now apply Forall_skipn'. pose proof (length_skipn k pc) as Lk.
  destruct (GetOp p (skipn k pc)) as [[[opcode data] rest]|] eqn:E; [|lia].
  destruct (GetOp_ok p _ _ _ _ B' E) as (_ & _ & R & L & _). rewrite length_app, length_firstn. specialize (IH rest R). lia.
Qed.
Lemma FindAndDelete_script_ok code b : script_ok code -> script_ok (FindAndDelete p code b).
Proof.
  intros [L B]. split; [|now apply FindAndDelete_bytes]. unfold FindAndDelete. destruct b as [|x b]; [exact L|].
  pose proof (delete_loop_length (length code) (x :: b) code B). lia.
Qed.

Lemma copy_ok code nIn tx :
  tx_ok tx -> script_ok code ->
  tx_ok (Transaction (nVersion tx) (nTime tx) (imap (fun i x => with_scriptSig (if (i =? nIn)%nat then code else []) x) (vin tx)) (vout tx) (nLockTime tx)).
Proof.
  intros (V & T & [Li Fi] & O & K) C. split; [exact V|]. split; [exact T|]. split; [|now split]. cbn [vin]. split; [now rewrite length_imap|].
  apply Forall_lookup. intros i x. rewrite list_lookup_imap. destruct (vin tx !! i) as [y|] eqn:E; [|easy]. intros [= <-].
  destruct (Forall_lookup_1 _ _ _ _ Fi E) as (P & _ & N & S). split; [exact P|]. split; [|now split]. cbn [scriptSig with_scriptSig].
  destruct (_ =? _)%nat; [exact C|]. split; [cbn; unfold MAX_SIZE; lia|constructor].
Qed.

(** What [SignatureHash] hashes. *)
Definition signed_bytes (code : list Z) (tx : CTransaction) (nIn : nat) : list Z :=
  match SignatureHash_copy p code tx nIn SIGHASH_ALL with
  | Some copy => tx_bytes p copy ++ WRITEDATA p 4 SIGHASH_ALL
  | None => []
  end.
Definition without_separators (code : list Z) : list Z := FindAndDelete p code (push_op OP_CODESEPARATOR).

Lemma signed_bytes_injective ca cb a b i j :
  tx_ok a -> tx_ok b -> script_ok ca -> script_ok cb -> Z.of_nat (length (signed_bytes ca a i)) + 5000000 < 2 ^ 32 ->
  signed_bytes ca a i = signed_bytes cb b j ->
  payment a = payment b /\ signed_scripts (without_separators ca) i (vin a) = signed_scripts (without_separators cb) j (vin b).
Proof.
  intros Ha Hb Ca Cb L E. unfold signed_bytes in *. rewrite !SignatureHash_copy_all in *. fold (without_separators ca) (without_separators cb) in *.
  destruct (copy_payment (without_separators ca) i a) as [Pa Sa]. destruct (copy_payment (without_separators cb) j b) as [Pb Sb].
  pose proof (copy_ok (without_separators ca) i a Ha (FindAndDelete_script_ok _ _ Ca)) as Ka.
  pose proof (copy_ok (without_separators cb) j b Hb (FindAndDelete_script_ok _ _ Cb)) as Kb.
  set (x := Transaction _ _ _ (vout a) _) in *. set (y := Transaction _ _ _ (vout b) _) in *. apply app_inv_tail in E. rewrite length_app in L.
  assert (X : x = y).
  { apply (codec_injective _ _ _ x y (tx_codec p 1 1 1 1 ltac:(lia) ltac:(lia)) Ka Kb); [|exact E]. change (Serialize x) with (tx_bytes p x). lia. }
  rewrite <- Pa, <- Pb, <- Sa, <- Sb, X. now split.
Qed.
End SigHash.

(** ** The theorems *)

Lemma at_der_length r s h : at_ (der r s h) 3 = Done (size r) /\ at_ (der r s h) (5 + size r) = Done (size s).
Proof.
  split; [reflexivity|]. pose proof (size_nonneg r). unfold der.
  change (at_ ([0x30; size r + size s + 4; 0x02; size r] ++ r ++ 0x02 :: size s :: s ++ [h]) (5 + size r) = Done (size s)).
  set (head := [_; _; _; _]). assert (Lh : size head = 4) by reflexivity. rewrite at_app by lia. rewrite at_app by lia.
  replace (5 + size r - size head - size r) with 1 by lia. reflexivity.
Qed.

Lemma der_S r s h : firstn (Z.to_nat (size s)) (skipn (Z.to_nat (6 + size r)) (der r s h)) = s.
Proof.
  unfold der, size at 1 2. rewrite Nat2Z.id. replace (Z.to_nat (6 + Z.of_nat (length r))) with (4 + (length r + 2))%nat by lia.
  cbn [skipn plus]. rewrite <- drop_drop, skipn_app, skipn_all, Nat.sub_diag. cbn [app]. change (drop 2 _) with (s ++ [h]). rewrite firstn_app, firstn_all, Nat.sub_diag. cbn. apply app_nil_r.
Qed.

Lemma at_der_last r s h : at_ (der r s h) (size (der r s h) - 1) = Done h.
Proof.
  set (head := 0x30 :: size r + size s + 4 :: 0x02 :: size r :: r ++ 0x02 :: size s :: s).
  assert (E : der r s h = head ++ [h]) by (unfold der, head; cbn; now rewrite <- app_assoc). rewrite E.
  assert (L : size (head ++ [h]) = size head + 1) by (unfold size; rewrite length_app; cbn [length]; lia). rewrite L, at_app by lia.
  replace (size head + 1 - 1 - size head) with 0 by lia. reflexivity.
Qed.

(** C20: a signature is accepted for checking exactly when it is a sequence of two integers that are not negative in the one
    form the standard has for them, of at most 73 bytes with the hash type, whose second number, S, is at least one
    and at most half the order of the curve, and whose hash type is a known one (with or without [SIGHASH_ANYONECANPAY]).
    The first number, R, may be zero. *)
Theorem signature_encoding (v : list Z) :
  bytes v ->
  CheckSignatureEncoding v = Done true <->
  exists r s hashtype, v = der r s hashtype /\ canonical r = true /\ canonical s = true /\ size v <= 73 /\
    0 < be_val s <= (curve_order - 1) / 2 /\ 1 <= (hashtype .& 0x7f) <= 3.
Proof.
  intros B. assert (Low : forall r s h, v = der r s h -> IsDERSignature v true = Done true ->
    CheckSignatureEncoding v = if CheckSignatureElement_half s then Done (negb (((h .& 0x7f) <? 1) || (3 <? (h .& 0x7f)))) else Done false).
  { intros r s h -> D. unfold CheckSignatureEncoding, IsLowDERSignature. rewrite D. cbn [mbind outcome_bind negb]. destruct (at_der_length r s h) as [-> E].
    cbn [mbind outcome_bind]. rewrite E. cbn [mbind outcome_bind]. rewrite der_S. destruct (CheckSignatureElement_half s); cbn [negb]; [|reflexivity].
    unfold IsDefinedHashtypeSignature. destruct (Z.eqb_spec (size (der r s h)) 0) as [E0|_]; [unfold size, der in E0; cbn [length] in E0; lia|].
    rewrite at_der_last. reflexivity. }
  assert (Sub : forall r s h, v = der r s h -> bytes s).
  { intros r s h ->. unfold der in B. do 4 apply bytes_cons in B as [_ B]. apply Forall_app in B as [_ B]. do 2 apply bytes_cons in B as [_ B].
    now apply Forall_app in B as [B _]. }
  split.
  - intros E. assert (D : IsDERSignature v true = Done true).
    { unfold CheckSignatureEncoding, IsLowDERSignature in E. destruct (IsDERSignature v true) as [[]| |]; cbn in E; congruence. }
    pose proof (proj1 (IsDER_canonical v B) D) as (r & s & h & Ev & Cr & Cs & L). rewrite (Low r s h Ev D) in E.
    rewrite CheckSignatureElement_half_ok in E by now apply (Sub r s h). exists r, s, h. splits; try assumption.
    all: destruct (_ && _) eqn:C in E; [|easy]; apply andb_true_iff in C as [C1 C2]; injection E as E; apply negb_true_iff, orb_false_iff in E; lia.
  - intros (r & s & h & Ev & Cr & Cs & L & C & H). rewrite (Low r s h Ev).
    + rewrite CheckSignatureElement_half_ok by now apply (Sub r s h). destruct C as [C1 C2]. rewrite (proj2 (Z.ltb_lt _ _) C1), (proj2 (Z.leb_le _ _) C2). cbn [andb].
      f_equal. apply negb_true_iff, orb_false_iff. lia.
    + apply IsDER_canonical; [exact B|]. now exists r, s, h.
Qed.

(** C14: what a signature with [SIGHASH_ALL] signs commits to the transaction: if two transactions differ in their
    version, time, lock time, outputs, or in the outpoints and sequence numbers of their inputs, or the
    scripts that stand in their inputs differ, equal hashes give a collision of SHA-256. *)
Theorem signature_commits (p : platform) (SHA256 : list Z -> list Z) (ca cb : list Z) (a b : CTransaction) (i j : nat) :
  (forall m, length (SHA256 m) = 32%nat /\ bytes (SHA256 m)) -> tx_ok a -> tx_ok b -> script_ok ca -> script_ok cb ->
  (i < length (vin a))%nat -> (j < length (vin b))%nat -> Z.of_nat (length (signed_bytes p ca a i)) + 5000000 < 2 ^ 32 ->
  SignatureHash p SHA256 ca a i SIGHASH_ALL = SignatureHash p SHA256 cb b j SIGHASH_ALL ->
  (payment a, signed_scripts (without_separators p ca) i (vin a)) <> (payment b, signed_scripts (without_separators p cb) j (vin b)) ->
  let x := signed_bytes p ca a i in let y := signed_bytes p cb b j in
  x <> y /\ (SHA256 x = SHA256 y \/ SHA256 x <> SHA256 y /\ SHA256 (SHA256 x) = SHA256 (SHA256 y)).
Proof.
  intros HS Ha Hb Ca Cb Li Lj L E N x y. split.
  { intros X. apply N. destruct (signed_bytes_injective p ca cb a b i j Ha Hb Ca Cb L X) as [-> ->]. reflexivity. }
  unfold SignatureHash in E. destruct (Nat.leb_spec (length (vin a)) i); [lia|]. destruct (Nat.leb_spec (length (vin b)) j); [lia|].
  change (Hash p SHA256 x = Hash p SHA256 y) in E. unfold Hash in E. apply (f_equal (memory p)) in E. rewrite !memory_of_memory in E by apply HS.
  destruct (decide (SHA256 x = SHA256 y)); [now left|now right].
Qed.

Lemma signature_encoding_witness :
  let v := der [1] [2] 0x81 in
  CheckSignatureEncoding v = Done true /\
  (exists r s hashtype, v = der r s hashtype /\ canonical r = true /\ canonical s = true /\ size v <= 73 /\
    0 < be_val s <= (curve_order - 1) / 2 /\ 1 <= (hashtype .& 0x7f) <= 3) /\
  CheckSignatureEncoding (der [0; 1] [2] 0x81) = Done false.
Proof.
  intros v. assert (E : CheckSignatureEncoding v = Done true) by reflexivity. split; [exact E|]. split; [|reflexivity].
  apply (signature_encoding v); [apply wordb_Forall; reflexivity|exact E].
Defined.

Lemma signature_commits_witness :
  let SHA256 (_ : list Z) := repeat 0 32 in
  let x := signed_bytes Sample.p [0x51] Sample.tx 0 in let y := signed_bytes Sample.p [0x52; 0xab] Sample.tx 0 in
  x <> y /\ (SHA256 x = SHA256 y \/ SHA256 x <> SHA256 y /\ SHA256 (SHA256 x) = SHA256 (SHA256 y)).
Proof.
  intros SHA256 x y. assert (K : forall c, (length c <= 2)%nat -> forallb (fun x => (0 <=? x) && (x <? 2 ^ 8)) c = true -> script_ok c).
  { intros c L B. split; [unfold MAX_SIZE; lia|now apply wordb_Forall]. }
  apply (signature_commits Sample.p SHA256 [0x51] [0x52; 0xab] Sample.tx Sample.tx 0 0).
  - intros m. split; [reflexivity|]. apply wordb_Forall. reflexivity.
  - exact Sample.tx_valid.
  - exact Sample.tx_valid.
  - apply K; [cbn; lia|reflexivity].
  - apply K; [cbn; lia|reflexivity].
  - cbn; lia.
  - cbn; lia.
  - vm_compute. reflexivity.
  - reflexivity.
  - vm_compute. discriminate.
Defined.
