(* ===== verification/ScriptTheorems.v ===== *)
(** * Theorems on scripts

    The limits of the interpreter, the standard scripts, multisignatures, the arithmetic of scripts, the encoding of
    signatures and what a signature commits to. *)

From stdpp Require Import list relations.
From Stdlib Require Import ZArith Lia.
From S2P Require Import Prelude SphTypes Uint256 Uint256Proof Uint256Hex Serialize Transaction BigNum BigNumProof ConsensusProof Script Interpreter ScriptProof SignatureTheorems BigNumTheorems TransactionTheorems.
Local Open Scope Z_scope.

(** ** Scripts of pushes and operations *)

Section Code.
  Variable p : platform.
  Hypothesis little : order p <> SPH_BIG_ENDIAN.

Lemma GetOp_op opcode rest : OP_PUSHDATA4 < opcode -> GetOp p (opcode :: rest) = Some (opcode, [], rest).
Proof. intros H. cbn [GetOp]. destruct (Z.leb_spec opcode OP_PUSHDATA4); [lia|easy]. Qed.

Lemma push_uint160_vector b : length b = 20%nat -> push_uint160 b = push_vector p b.
Proof. intros L. unfold push_uint160, push_vector, size. rewrite L. reflexivity. Qed.

Lemma prefix_of_app b pc : prefix_of b pc = true -> exists r, pc = b ++ r.
Proof.
  unfold prefix_of. intros H. apply andb_true_iff in H as [_ H]. apply bool_decide_eq_true_1 in H. exists (skipn (length b) pc).
  rewrite <- H at 1. now rewrite firstn_skipn.
Qed.

(** A push is not the beginning of an operation, nor of another push. *)
Lemma prefix_op b opcode rest : size b < 2 ^ 32 -> OP_PUSHDATA4 < opcode -> prefix_of (push_vector p b) (opcode :: rest) = false.
Proof.
  intros L H. destruct (prefix_of _ _) eqn:E; [|easy]. apply prefix_of_app in E as [r E].
  destruct (GetOp_push p little b r L) as (o & G & K). rewrite <- E, GetOp_op in G by exact H. injection G. lia.
Qed.
Lemma prefix_push b c rest : size b < 2 ^ 32 -> size c < 2 ^ 32 -> b <> c -> prefix_of (push_vector p b) (push_vector p c ++ rest) = false.
Proof.
  intros Lb Lc N. destruct (prefix_of _ _) eqn:E; [|easy]. apply prefix_of_app in E as [r E]. exfalso. apply N.
  destruct (GetOp_push p little b r Lb) as (o & G & _). destruct (GetOp_push p little c rest Lc) as (o' & G' & _). congruence.
Qed.

Lemma erase_none fuel b pc : prefix_of b pc = false -> erase_loop fuel b pc = pc.
Proof. intros H. destruct fuel; cbn [erase_loop]; now rewrite ?H. Qed.

(** A script of operations and pushes of other vectors. *)
Inductive without (b : list Z) : list Z -> Prop :=
| without_nil : without b []
| without_op opcode pc : OP_PUSHDATA4 < opcode -> without b pc -> without b (opcode :: pc)
| without_push c pc : size c < 2 ^ 32 -> b <> c -> without b pc -> without b (push_vector p c ++ pc).

Lemma delete_loop_without fuel b pc : size b < 2 ^ 32 -> without b pc -> delete_loop p fuel (push_vector p b) pc = pc.
Proof.
  intros L W. revert fuel. induction W as [|opcode pc H W IH|c pc H N W IH]; intros fuel.
  - destruct fuel; cbn [delete_loop length erase_loop]; reflexivity.
  - destruct fuel; cbn [delete_loop]; rewrite (erase_none _ _ _ (prefix_op b opcode pc L H)); [reflexivity|].
    rewrite GetOp_op by exact H. rewrite IH. cbn [length]. rewrite Nat.sub_succ_l, Nat.sub_diag by lia. reflexivity.
  - destruct fuel; cbn [delete_loop]; rewrite (erase_none _ _ _ (prefix_push b c pc L H N)); [reflexivity|].
    destruct (GetOp_push p little c pc H) as (o & -> & _). rewrite IH, length_app, Nat.add_sub, firstn_app, firstn_all, Nat.sub_diag.
    cbn [firstn]. now rewrite app_nil_r.
Qed.
Lemma FindAndDelete_without b pc : size b < 2 ^ 32 -> without b pc -> FindAndDelete p pc (push_vector p b) = pc.
Proof.
  intros L W. unfold FindAndDelete. destruct (push_vector p b) eqn:E; [reflexivity|]. rewrite <- E. now apply delete_loop_without.
Qed.

Lemma PushAll_app a b : PushAll p (a ++ b) = PushAll p a ++ PushAll p b.
Proof. unfold PushAll. now rewrite map_app, concat_app. Qed.
Lemma PushAll_length values : (length values <= length (PushAll p values))%nat.
Proof.
  induction values as [|v values IH]; [easy|]. unfold PushAll in *. cbn [map concat]. rewrite length_app.
  pose proof (push_vector_length p v). cbn [length]. lia.
Qed.

Lemma item_size v : item v -> size v < 2 ^ 32.
Proof. intros [_ H]. unfold MAX_SCRIPT_ELEMENT_SIZE in H. lia. Qed.

Lemma IsPushOnly_PushAll values : Forall item values -> IsPushOnly p (PushAll p values) = true.
Proof.
  intros F. unfold IsPushOnly. assert (G : forall fuel, (length values <= fuel)%nat -> push_only_loop p fuel (PushAll p values) = true).
  { induction F as [|v values I F IH]; intros fuel L; [now destruct fuel|]. destruct fuel as [|fuel]; [cbn in L; lia|].
    change (PushAll p (v :: values)) with (push_vector p v ++ PushAll p values). cbn [push_only_loop].
    destruct (push_vector p v ++ PushAll p values) eqn:E; [reflexivity|]. rewrite <- E.
    destruct (GetOp_push p little v (PushAll p values) (item_size v I)) as (o & -> & K).
    destruct (Z.ltb_spec OP_16 o); [lia|]. apply IH. cbn in L. lia. }
  apply G, PushAll_length.
Qed.
End Code.

(** ** Evaluation *)

Section Evaluation.
  Variable p : platform.
  Variable SHA256 : list Z -> list Z.
  Variable Verify : list Z -> list Z -> list Z -> bool.
  Context {BIGNUM : Type} {ops : BN_ops BIGNUM} {spec : BN_spec ops}.
  Variables RIPEMD160 SHA1 : list Z -> list Z.
  Variable txTo : CTransaction.
  Variable nIn : nat.
  Variables flags nHashType : Z.
  Hypothesis little : order p <> SPH_BIG_ENDIAN.
  Hypothesis SHA256_ok : forall m, bytes m -> length (SHA256 m) = 32%nat /\ bytes (SHA256 m).
  Hypothesis RIPEMD160_ok : forall m, bytes m -> length (RIPEMD160 m) = 20%nat /\ bytes (RIPEMD160 m).
  Abbreviation exec_op := (exec_op (ops := ops) p SHA256 Verify RIPEMD160 SHA1 txTo nIn flags nHashType).
  Abbreviation step := (step (ops := ops) p SHA256 Verify RIPEMD160 SHA1 txTo nIn flags nHashType).
  Abbreviation eval_loop := (eval_loop (ops := ops) p SHA256 Verify RIPEMD160 SHA1 txTo nIn flags nHashType).
  Abbreviation EvalScript := (EvalScript (ops := ops) p SHA256 Verify RIPEMD160 SHA1 txTo nIn flags nHashType).
  Abbreviation VerifyScript := (VerifyScript (ops := ops) p SHA256 Verify RIPEMD160 SHA1 txTo nIn flags nHashType).
  Abbreviation check_one := (check_one p SHA256 Verify txTo nIn flags nHashType).

Lemma disabled_push opcode : opcode <= OP_16 -> disabled opcode = false.
Proof.
  intros K. apply bool_decide_eq_false. intros X. repeat (apply elem_of_cons in X as [X|X]; [lia|]). now apply elem_of_nil in X.
Qed.

Lemma step_push v pc s alt n code :
  item v -> (length s + length alt < 1000)%nat ->
  step (push_vector p v ++ pc) (Machine s alt [] n code) = Done (pc, Machine (v :: s) alt [] n code).
Proof.
  intros I L. unfold Interpreter.step. destruct (GetOp_push p little v pc (item_size v I)) as (o & -> & K). destruct I as [_ I].
  destruct (Z.ltb_spec MAX_SCRIPT_ELEMENT_SIZE (size v)); [lia|]. destruct (Z.ltb_spec OP_16 o); [lia|].
  rewrite disabled_push by lia. cbn [need negb andb forallb vfExec]. destruct (Z.leb_spec o OP_PUSHDATA4); [|lia]. cbn [need negb mbind outcome_bind].
  unfold within_limit. cbn [push with_stack with_nOpCount stack altstack nOpCount codehash vfExec length].
  destruct (Z.leb_spec (Z.of_nat (S (length s) + length alt)) 1000); [reflexivity|lia].
Qed.

Lemma step_op opcode pc s alt n code :
  OP_16 < opcode -> disabled opcode = false -> n <= 200 ->
  step (opcode :: pc) (Machine s alt [] n code) =
  (m ← exec_op opcode true pc (Machine s alt [] (n + 1) code); need (within_limit m) (Done (pc, m))).
Proof.
  intros O D N. unfold Interpreter.step. rewrite GetOp_op by lia. rewrite D. destruct (Z.ltb_spec OP_16 opcode); [|lia].
  cbn [forallb vfExec nOpCount]. destruct (Z.ltb_spec 201 (n + 1)); [lia|]. destruct (Z.leb_spec opcode OP_PUSHDATA4); [lia|]. reflexivity.
Qed.

Lemma eval_step fuel b pc pc' m : step (b :: pc) m = Done pc' -> eval_loop (S fuel) (b :: pc) m = eval_loop fuel pc'.1 pc'.2.
Proof. intros E. cbn [Interpreter.eval_loop]. now rewrite E. Qed.
Lemma eval_push fuel v pc s alt n code :
  item v -> (length s + length alt < 1000)%nat ->
  eval_loop (S fuel) (push_vector p v ++ pc) (Machine s alt [] n code) = eval_loop fuel pc (Machine (v :: s) alt [] n code).
Proof.
  intros I L. pose proof (step_push v pc s alt n code I L) as E. destruct (push_vector p v ++ pc) as [|b c] eqn:X.
  - pose proof (push_vector_length p v). apply (f_equal (@length _)) in X. rewrite length_app in X. cbn in X. lia.
  - now apply (eval_step fuel _ _ _ _ E).
Qed.

Lemma eval_PushAll fuel values s n code :
  Forall item values -> (length s + length values <= 1000)%nat ->
  eval_loop (length values + fuel) (PushAll p values) (Machine s [] [] n code) = Done (Machine (rev values ++ s) [] [] n code).
Proof.
  intros F. revert s. induction F as [|v values I F IH]; intros s L; [now destruct fuel|].
  change (PushAll p (v :: values)) with (push_vector p v ++ PushAll p values). cbn [length plus] in *.
  rewrite eval_push by (first [exact I|cbn; lia]). rewrite IH by (cbn [length]; lia). cbn [rev]. now rewrite <- app_assoc.
Qed.

Lemma EvalScript_PushAll values :
  Forall item values -> (length values <= 1000)%nat -> size (PushAll p values) <= 22000 ->
  EvalScript [] (PushAll p values) = Done (rev values).
Proof.
  intros F L S. unfold Interpreter.EvalScript. destruct (Z.ltb_spec 22000 (size (PushAll p values))); [lia|]. cbn [need negb].
  pose proof (PushAll_length p values). replace (length (PushAll p values)) with (length values + (length (PushAll p values) - length values))%nat by lia.
  rewrite eval_PushAll by (first [exact F|cbn; lia]). cbn. now rewrite app_nil_r.
Qed.

(** The unlocking scripts that matter are small. *)
Lemma PushAll_size values : Forall item values -> (length values <= 42)%nat -> size (PushAll p values) <= 22000.
Proof.
  intros F L. assert (H : size (PushAll p values) <= 523 * Z.of_nat (length values)); [|lia]. clear L.
  induction F as [|v values [B I] F IH]; [easy|]. change (PushAll p (v :: values)) with (push_vector p v ++ PushAll p values).
  unfold MAX_SCRIPT_ELEMENT_SIZE, size in *. rewrite length_app. cbn [length]. unfold push_vector, size. rewrite length_app, native_store_little by exact little.
  destruct (Z.ltb_spec (Z.of_nat (length v)) OP_PUSHDATA1); [cbn [length]; lia|]. destruct (Z.leb_spec (Z.of_nat (length v)) 0xff); [cbn [length]; lia|].
  destruct (Z.leb_spec (Z.of_nat (length v)) 0xffff); [|lia]. cbn [length]. rewrite length_le_store. lia.
Qed.

Lemma eval_op fuel opcode pc s alt n code m :
  OP_16 < opcode -> disabled opcode = false -> n <= 200 -> exec_op opcode true pc (Machine s alt [] (n + 1) code) = Done m ->
  within_limit m = true -> eval_loop (S fuel) (opcode :: pc) (Machine s alt [] n code) = eval_loop fuel pc m.
Proof. intros O D N E W. apply (eval_step fuel opcode pc (pc, m)). rewrite step_op, E by assumption. cbn. now rewrite W. Qed.

Ltac eval_next := erewrite eval_op; [|lia|reflexivity|lia|reflexivity|reflexivity].

Lemma top_true_of_bool b s : top_true (of_bool b :: s) = need b (Done tt).
Proof. now destruct b. Qed.

(** [OP_HASH160] and the push of the digest, at the top of an element. *)
Lemma eval_hash160 fuel id pc x s n code :
  length id = 20%nat -> bytes id -> n <= 190 -> (length s <= 998)%nat ->
  eval_loop (S (S fuel)) (OP_HASH160 :: push_uint160 id ++ pc) (Machine (x :: s) [] [] n code) =
  eval_loop fuel pc (Machine (id :: RIPEMD160 (SHA256 x) :: s) [] [] (n + 1) code).
Proof.
  intros L B N S. rewrite (push_uint160_vector p) by exact L.
  erewrite eval_op; [|lia|reflexivity|lia|reflexivity|apply Z.leb_le; cbn [stack altstack length with_stack]; lia].
  apply eval_push; [split; [exact B|unfold size, MAX_SCRIPT_ELEMENT_SIZE; lia]|cbn [length]; lia].
Qed.

Lemma EvalScript_key vchSig vchPubKey keyID :
  item vchSig -> bytes keyID -> length keyID = 20%nat -> vchSig <> keyID ->
  EvalScript [vchPubKey; vchSig] (script_for_key keyID) =
  need (bool_decide (RIPEMD160 (SHA256 vchPubKey) = keyID))
    (fSuccess ← check_one vchSig vchPubKey (script_for_key keyID); Done [of_bool fSuccess]).
Proof.
  intros I B L N. set (code := script_for_key keyID). assert (Lc : length code = 25%nat) by (unfold code, script_for_key, push_uint160; cbn; rewrite !length_app, L; reflexivity).
  assert (W : without p vchSig code).
  { unfold code, script_for_key, push_op. rewrite (push_uint160_vector p) by exact L. cbn [app]. do 2 (apply without_op; [lia|]).
    apply without_push; [unfold size; lia|exact N|]. do 2 (apply without_op; [lia|]). constructor. }
  unfold Interpreter.EvalScript. unfold size. rewrite Lc. cbn [need negb Z.ltb Z.compare Z.of_nat Pos.of_succ_nat Pos.succ Pos.compare Pos.compare_cont].
  change code with (OP_DUP :: OP_HASH160 :: push_uint160 keyID ++ [OP_EQUALVERIFY; OP_CHECKSIG]) at 1. eval_next. unfold with_stack. cbn [altstack vfExec nOpCount codehash].
  rewrite eval_hash160 by (first [exact L|exact B|cbn [length]; lia]). cbn [Interpreter.eval_loop]. rewrite step_op by (first [lia|reflexivity]).
  cbn [Interpreter.exec_op stack]. destruct (bool_decide _); [|reflexivity]. unfold with_stack. cbn [need mbind outcome_bind altstack vfExec nOpCount codehash stack fst snd].
  change (within_limit _) with true. cbn [need mbind outcome_bind fst snd]. rewrite step_op by (first [lia|reflexivity]). cbn [Interpreter.exec_op stack codehash].
  rewrite FindAndDelete_without by (first [exact little|exact W|now apply item_size]).
  change (OP_CHECKSIG =? OP_CHECKSIGVERIFY) with false. cbv iota. unfold mbind, outcome_bind. now destruct (check_one _ _ _).
Qed.

Lemma EvalScript_script scriptID redeem s :
  length scriptID = 20%nat -> bytes scriptID -> (length s <= 998)%nat ->
  EvalScript (redeem :: s) (script_for_script scriptID) = Done (of_bool (bool_decide (RIPEMD160 (SHA256 redeem) = scriptID)) :: s).
Proof.
  intros L B S. set (code := script_for_script scriptID).
  assert (Lc : length code = 23%nat) by (unfold code, script_for_script, push_uint160; cbn; rewrite length_app, L; reflexivity).
  unfold Interpreter.EvalScript. unfold size. rewrite Lc. change (negb (22000 <? Z.of_nat 23)) with true. cbn [need].
  change code with (OP_HASH160 :: push_uint160 scriptID ++ [OP_EQUAL]) at 1.
  rewrite eval_hash160 by (first [exact L|exact B|exact S|lia]).
  erewrite eval_op; [|lia|reflexivity|lia|reflexivity|apply Z.leb_le; cbn [stack altstack length with_stack]; lia]. reflexivity.
Qed.

(** C9: an output that pays to the hash of a key is spent by a signature and a key when, and only when,
    the key has that hash, and the signature and the key are well encoded and verify over the script of
    the output ([VerifyScript] runs the unlocking script, then the twenty-five bytes of the output). *)
Theorem pay_to_key_hash (vchSig vchPubKey keyID : list Z) :
  item vchSig -> item vchPubKey -> bytes keyID -> length keyID = 20%nat -> vchSig <> keyID ->
  VerifyScript (PushAll p [vchSig; vchPubKey]) (script_for_key keyID) = Done tt <->
  RIPEMD160 (SHA256 vchPubKey) = keyID /\ check_one vchSig vchPubKey (script_for_key keyID) = Done true.
Proof.
  intros I1 I2 B L N. assert (F : Forall item [vchSig; vchPubKey]) by auto. unfold Interpreter.VerifyScript.
  rewrite EvalScript_PushAll by (first [exact little|exact F|cbn; lia|apply PushAll_size; [exact F|cbn; lia]]).
  cbn [mbind outcome_bind rev app]. rewrite EvalScript_key by assumption.
  assert (P : IsPayToScriptHash (script_for_key keyID) = false).
  { unfold IsPayToScriptHash, script_for_key, push_uint160, size. cbn. rewrite !length_app, L. reflexivity. }
  rewrite P. destruct (bool_decide_reflect (RIPEMD160 (SHA256 vchPubKey) = keyID)) as [E|E]; cbn [need mbind outcome_bind]; [|now split].
  destruct (check_one vchSig vchPubKey (script_for_key keyID)) as [[]| |]; cbn; split; try easy; now intros [_ ?].
Qed.

(** C21: an output that pays to the hash of a script is spent by pushing the arguments and the script: the result is that
    of the pushed script on the arguments, provided that its hash is the one of the output. The pushes are
    refused when they take more than 22000 bytes; there are at most 998 arguments, for which the stack of 1000
    has room. *)
Theorem pay_to_script_hash (args : list (list Z)) (redeem scriptID : list Z) :
  Forall item args -> (length args <= 998)%nat -> item redeem -> bytes scriptID -> length scriptID = 20%nat ->
  VerifyScript (PushAll p (args ++ [redeem])) (script_for_script scriptID) =
  need (size (PushAll p (args ++ [redeem])) <=? 22000)
    (need (bool_decide (RIPEMD160 (SHA256 redeem) = scriptID)) (s ← EvalScript (rev args) redeem; top_true s)).
Proof.
  intros F La I B L. assert (F' : Forall item (args ++ [redeem])) by (apply Forall_app; auto). unfold Interpreter.VerifyScript.
  assert (S : (length (args ++ [redeem]) <= 999)%nat) by (rewrite length_app; cbn; lia).
  destruct (Z.leb_spec (size (PushAll p (args ++ [redeem]))) 22000) as [Sz|Sz]; cbn [need].
  2: { unfold Interpreter.EvalScript. now rewrite (proj2 (Z.ltb_lt _ _) Sz). }
  rewrite EvalScript_PushAll by (first [exact little|exact F'|lia]).
  rewrite rev_app_distr. cbn [mbind outcome_bind rev app].
  rewrite EvalScript_script by (first [exact L|exact B|rewrite length_rev; lia]).
  assert (P : IsPayToScriptHash (script_for_script scriptID) = true).
  { do 20 (destruct scriptID as [|? scriptID]; [easy|]). destruct scriptID; [reflexivity|easy]. }
  rewrite P, IsPushOnly_PushAll by (first [exact little|exact F']). cbn [mbind outcome_bind need].
  rewrite top_true_of_bool. now destruct (bool_decide _).
Qed.

(** C11: every state the interpreter reaches, from a stack within the limits, is within the limits: at most
    1000 elements on the two stacks, each of bytes and of at most 520, at most 201 operations counted; and the
    iterator points into the script. *)
Theorem interpreter_limits (s : list (list Z)) (script pc : list Z) (m : machine) :
  (forall m, bytes m -> length (SHA1 m) = 20%nat /\ bytes (SHA1 m)) -> (nIn < length (vin txTo))%nat ->
  stack_ok s -> bytes script ->
  rtc (fun a b => step a.1 a.2 = Done b) (script, Machine s [] [] 0 script) (pc, m) ->
  machine_ok m /\ exists prefix, script = prefix ++ pc.
Proof.
  intros SHA1_ok input S B R. assert (M : machine_ok (Machine s [] [] 0 script)) by now apply start_ok.
  enough (G : machine_ok m /\ bytes pc /\ exists prefix, script = prefix ++ pc) by (destruct G as (? & _ & ?); auto).
  apply (rtc_ind_r (fun r : list Z * machine => machine_ok r.2 /\ bytes r.1 /\ exists prefix, script = prefix ++ r.1)) in R; [exact R| |].
  { splits; [exact M|exact B|now exists []]. }
  intros a b _ E (Ma & Ba & [pre ->]).
  pose proof (step_safe p SHA256 Verify RIPEMD160 SHA1 txTo nIn flags nHashType SHA256_ok RIPEMD160_ok SHA1_ok input _ _ Ma Ba) as G.
  rewrite E in G. destruct G as (Mb & Bb & _ & [pre' ->]). splits; [exact Mb|exact Bb|]. exists (pre ++ pre'). now rewrite app_assoc.
Qed.

(** C10: the interpreter never reads outside of its vectors and always comes to an end, whatever the two scripts
    are: [VerifyScript] accepts or refuses. *)
Theorem scripts_decided (scriptSig scriptPubKey : list Z) :
  (forall m, bytes m -> length (SHA1 m) = 20%nat /\ bytes (SHA1 m)) -> (nIn < length (vin txTo))%nat ->
  bytes scriptSig -> bytes scriptPubKey ->
  VerifyScript scriptSig scriptPubKey = Done tt \/ VerifyScript scriptSig scriptPubKey = Fail.
Proof.
  intros SHA1_ok input B1 B2.
  pose proof (VerifyScript_safe p SHA256 Verify RIPEMD160 SHA1 txTo nIn flags nHashType SHA256_ok RIPEMD160_ok SHA1_ok input _ _ B1 B2) as G.
  destruct (VerifyScript scriptSig scriptPubKey) as [[]| |]; [now left|now right|easy].
Qed.

(** A script of pushes evaluates to the vectors it was built from, the last one on top, and counts as
    pushes only. *)
Theorem pushes_evaluate (values : list (list Z)) :
  Forall item values -> (length values <= 1000)%nat -> size (PushAll p values) <= 22000 ->
  EvalScript [] (PushAll p values) = Done (rev values) /\ IsPushOnly p (PushAll p values) = true.
Proof. intros F L S. split; [now apply EvalScript_PushAll|now apply IsPushOnly_PushAll]. Qed.

End Evaluation.

(** ** Multisignatures *)

Section Multisig.
  Variable p : platform.
  Variable SHA256 : list Z -> list Z.
  Variable Verify : list Z -> list Z -> list Z -> bool.
  Variable txTo : CTransaction.
  Variable nIn : nat.
  Variables flags nHashType : Z.
  Abbreviation check_one := (check_one p SHA256 Verify txTo nIn flags nHashType).

(** The keys, in their order, have signatures for a part of them: the signatures, in the order of the keys. *)
Definition signs (code vchSig vchPubKey : list Z) : Prop := check_one vchSig vchPubKey code = Done true.

(** C13: the loop of [OP_CHECKMULTISIG], that gives each signature to the first key left that accepts it, succeeds
    exactly when some of the keys, in their order, accept the signatures one by one (when no check of an
    encoding ends the script). *)
Theorem multisig_matches (code : list Z) (sigs keys : list (list Z)) :
  (forall s k : list Z, s ∈ sigs -> k ∈ keys -> exists b, check_one s k code = Done b) -> (length sigs <= length keys)%nat ->
  multisig_loop p SHA256 Verify txTo nIn flags nHashType code sigs keys = Done true <->
  exists signers, signers `sublist_of` keys /\ Forall2 (signs code) sigs signers.
Proof.
  revert sigs. induction keys as [|key keys IH]; intros [|vchSig rest] D L.
  - split; [intros _; exists []; split; constructor|easy].
  - cbn in L. lia.
  - split; [intros _; exists []; split; [apply sublist_nil_l|constructor]|easy].
  - cbn [multisig_loop]. destruct (D vchSig key) as [b E]; [left|left|]. rewrite E. cbn [mbind outcome_bind]. cbv zeta.
    assert (D' : forall sigs' : list (list Z), (forall s : list Z, s ∈ sigs' -> s ∈ vchSig :: rest) -> forall s k : list Z, s ∈ sigs' -> k ∈ keys -> exists b, check_one s k code = Done b).
    { intros sigs' Sub s k Hs Hk. apply D; [now apply Sub|now right]. }
    destruct b.
    + cbn in L. destruct (Nat.ltb_spec (length keys) (length rest)); [lia|]. rewrite IH by (first [lia|apply D'; now right]). split.
      * intros (ks & S & F). exists (key :: ks). split; [now apply sublist_skip|]. constructor; [exact E|exact F].
      * intros (ks & S & F). inversion F as [|? k ? ks' Hk F' X1 X2]; subst. exists ks'. split; [|exact F'].
        apply sublist_cons_r in S as [S|(l' & [= -> ->] & S)]; [|exact S]. transitivity (k :: ks'); [now apply sublist_cons|exact S].
    + destruct (Nat.ltb_spec (length keys) (length (vchSig :: rest))) as [K|K].
      * split; [easy|]. intros (ks & S & F). apply Forall2_length in F as Ln. apply sublist_cons_r in S as [S|(l' & -> & S)].
        -- apply sublist_length in S. lia.
        -- inversion F as [|? ? ? ? Hk]; subst. unfold signs in Hk. congruence.
      * rewrite IH by (first [exact K|now apply D']). split.
        -- intros (ks & S & F). exists ks. split; [now apply sublist_cons|exact F].
        -- intros (ks & S & F). exists ks. split; [|exact F]. apply sublist_cons_r in S as [S|(l' & -> & S)]; [exact S|].
           inversion F as [|? ? ? ? Hk]; subst. unfold signs in Hk. congruence.
Qed.
End Multisig.

(** ** Arithmetic *)

(** What the operations that push a number mean; the first operand is the lower one on the stack. *)
Definition binary_meaning (opcode : Z) : option (Z -> Z -> Z) :=
  let bool (f : Z -> Z -> bool) := Some (fun a b => Z.b2z (f a b)) in
  match opcode with
  | OP_ADD => Some Z.add
  | OP_SUB => Some Z.sub
  | OP_BOOLAND => bool (fun a b => negb (a =? 0) && negb (b =? 0))
  | OP_BOOLOR => bool (fun a b => negb (a =? 0) || negb (b =? 0))
  | OP_NUMEQUAL => bool Z.eqb
  | OP_NUMNOTEQUAL => bool (fun a b => negb (a =? b))
  | OP_LESSTHAN => bool Z.ltb
  | OP_GREATERTHAN => bool Z.gtb
  | OP_LESSTHANOREQUAL => bool Z.leb
  | OP_GREATERTHANOREQUAL => bool Z.geb
  | OP_MIN => Some Z.min
  | OP_MAX => Some Z.max
  | _ => None
  end.
Definition unary_meaning (opcode : Z) : option (Z -> Z) :=
  match opcode with
  | OP_1ADD => Some Z.succ
  | OP_1SUB => Some Z.pred
  | OP_NEGATE => Some Z.opp
  | OP_ABS => Some Z.abs
  | OP_NOT => Some (fun a => Z.b2z (a =? 0))
  | OP_0NOTEQUAL => Some (fun a => Z.b2z (negb (a =? 0)))
  | _ => None
  end.

(** The operations on numbers: those that push the value of a function of one, two or three numbers, and the one that fails
    unless two numbers pass a test. *)
Inductive operation :=
  | Unary (f : Z -> Z)
  | Binary (f : Z -> Z -> Z)
  | Ternary (f : Z -> Z -> Z -> Z)
  | Required (f : Z -> Z -> bool).
Definition numeric_meaning (opcode : Z) : option operation :=
  match opcode with
  | OP_NUMEQUALVERIFY => Some (Required Z.eqb)
  | OP_WITHIN => Some (Ternary (fun a low high => Z.b2z ((low <=? a) && (a <? high))))
  | _ =>
      match unary_meaning opcode, binary_meaning opcode with
      | Some f, _ => Some (Unary f)
      | None, Some f => Some (Binary f)
      | None, None => None
      end
  end.

(** The operands that are read as numbers. *)
Definition short (x : list Z) : bool := size x <=? 4.
(** The new stack is the one below the operands with a number on it. *)
Definition pushes_number (r : outcome (list (list Z))) (s : list (list Z)) (v : Z) : Prop :=
  exists x, r = Done (x :: s) /\ item x /\ number x = v.
(** What an operation makes of a stack. *)
Definition performs (o : operation) (st : list (list Z)) (r : outcome (list (list Z))) : Prop :=
  match o, st with
  | Unary f, x :: s => if short x then pushes_number r s (f (number x)) else r = Fail
  | Binary f, x2 :: x1 :: s =>
      if short x1 && short x2 then pushes_number r s (f (number x1) (number x2)) else r = Fail
  | Ternary f, x3 :: x2 :: x1 :: s =>
      if short x1 && short x2 && short x3 then pushes_number r s (f (number x1) (number x2) (number x3)) else r = Fail
  | Required f, x2 :: x1 :: s =>
      r = if short x1 && short x2 && f (number x1) (number x2) then Done s else Fail
  | _, _ => r = Fail
  end.

(** The cases of a table of opcodes. *)
Ltac by_opcode :=
  repeat match goal with
  | |- match ?x with Z0 => _ | Zpos _ => _ | Zneg _ => _ end = _ -> _ => destruct x; try easy
  | |- match ?x with xI _ => _ | xO _ => _ | xH => _ end = _ -> _ => destruct x; try easy
  end.

Section Arithmetic.
  Context {BIGNUM : Type} {ops : BN_ops BIGNUM} {spec : BN_spec ops}.
  Abbreviation numeric_op := (numeric_op (ops := ops)).

Lemma bn_bool_b2z b : bn (bn_bool b : BIGNUM) = Z.b2z b.
Proof. rewrite bn_bool_ok. now destruct b. Qed.
Lemma zero_ok : bn (of_long 0 : BIGNUM) = 0.
Proof. apply of_long_ok. lia. Qed.

Lemma unary_op_meaning opcode f (b : BIGNUM) :
  unary_meaning opcode = Some f -> exists r, unary_op opcode b = Done r /\ bn r = f (bn b).
Proof.
  unfold unary_meaning, unary_op.
  by_opcode; intros [= <-].
  all: try (destruct (add_spec b (of_long 1)) as (r & E & V); exists r; unfold op_plus; rewrite E, V, of_long_ok by lia; split; [reflexivity|lia]).
  all: try (destruct (sub_spec b (of_long 1)) as (r & E & V); exists r; unfold op_minus; rewrite E, V, of_long_ok by lia; split; [reflexivity|lia]).
  all: eexists; split; [reflexivity|]; rewrite ?op_lt_ok, ?op_eq_ok, ?op_ne_ok, ?zero_ok.
  all: try (destruct (_ =? _); cbn [negb Z.b2z]; apply of_long_ok; lia).
  - apply op_neg_ok.
  - destruct (Z.ltb_spec (bn b) 0); [rewrite op_neg_ok|]; lia.
Qed.

Lemma binary_op_meaning opcode f (a b : BIGNUM) :
  binary_meaning opcode = Some f -> exists r, binary_op opcode a b = Done r /\ bn r = f (bn a) (bn b).
Proof.
  unfold binary_meaning, binary_op.
  by_opcode; intros [= <-].
  all: try (eexists; split; [reflexivity|]; rewrite bn_bool_b2z, ?op_lt_ok, ?op_gt_ok, ?op_le_ok, ?op_ge_ok, ?op_eq_ok, ?op_ne_ok, ?zero_ok;
    f_equal; try reflexivity; lia).
  all: try (destruct (add_spec a b) as (r & E & V); exists r; unfold op_plus; rewrite E; now split).
  all: try (destruct (sub_spec a b) as (r & E & V); exists r; unfold op_minus; rewrite E; now split).
  all: eexists; split; [reflexivity|]; rewrite ?op_lt_ok, ?op_gt_ok; match goal with |- context [if ?c then _ else _] => destruct c eqn:C end; lia.
Qed.

Lemma numeric_binary opcode f x1 x2 s :
  binary_meaning opcode = Some f ->
  numeric_op opcode (x2 :: x1 :: s) =
  (bn1 ← CastToBigNum x1; bn2 ← CastToBigNum x2; bn ← binary_op opcode bn1 bn2; Done (getvch bn :: s)).
Proof.
  unfold binary_meaning, Interpreter.numeric_op.
  by_opcode.
Qed.
Lemma numeric_unary opcode f x s :
  unary_meaning opcode = Some f -> numeric_op opcode (x :: s) = (bn ← CastToBigNum x; bn ← unary_op opcode bn; Done (getvch bn :: s)).
Proof.
  unfold unary_meaning, Interpreter.numeric_op.
  by_opcode.
Qed.

Lemma CastToBigNum_long vch : 4 < size vch -> CastToBigNum (BIGNUM := BIGNUM) vch = Fail.
Proof. unfold CastToBigNum. intros H. now rewrite (proj2 (Z.ltb_lt _ _) H). Qed.

(** Too few operands. *)
Lemma numeric_unary_short opcode f : unary_meaning opcode = Some f -> numeric_op opcode [] = Fail.
Proof. unfold unary_meaning, Interpreter.numeric_op. by_opcode; easy. Qed.
Lemma numeric_binary_short opcode f st : binary_meaning opcode = Some f -> (length st < 2)%nat -> numeric_op opcode st = Fail.
Proof. intros M L. revert M. destruct st as [|x [|y s]]; [| |cbn in L; lia]; unfold binary_meaning, Interpreter.numeric_op; by_opcode; easy. Qed.
(** Each opcode of the range has a meaning. *)
Lemma numeric_cases opcode :
  OP_1ADD <= opcode <= OP_WITHIN -> disabled opcode = false -> opcode <> OP_NUMEQUALVERIFY -> opcode <> OP_WITHIN ->
  (exists f, unary_meaning opcode = Some f /\ numeric_meaning opcode = Some (Unary f)) \/
  (exists f, binary_meaning opcode = Some f /\ numeric_meaning opcode = Some (Binary f)).
Proof.
  intros R D N1 N2. assert (I : In opcode (map (fun k => OP_1ADD + Z.of_nat k) (seq 0 27))).
  { apply in_map_iff. exists (Z.to_nat (opcode - OP_1ADD)). split; [lia|apply in_seq; lia]. }
  cbn in I. repeat destruct I as [<-|I]; try easy; (left; eexists; split; reflexivity) || (right; eexists; split; reflexivity).
Qed.

(** A cast of an operand is a failure, or a number. *)
Lemma cast_cases {A} (x : list Z) (k : BIGNUM -> outcome A) : bytes x ->
  if short x then exists b, - 2 ^ 31 < bn b < 2 ^ 31 /\ bn b = number x /\ (bn ← CastToBigNum x; k bn) = k b
  else (bn ← CastToBigNum x; k bn) = Fail.
Proof.
  intros B. unfold short. destruct (Z.leb_spec (size x) 4) as [L|L]; [|now rewrite CastToBigNum_long].
  destruct (CastToBigNum_ok x B L) as (b & -> & E). exists b. rewrite E. splits; [now apply number_range|now apply number_range|reflexivity|reflexivity].
Qed.
Ltac cast x B b R V E :=
  let C := fresh in
  match goal with |- context [CastToBigNum x ≫= ?k] => pose proof (cast_cases x k B) as C end;
  destruct (short x); [destruct C as (b & R & V & E); rewrite E; clear E|now rewrite C].

Lemma pushes_number_done (r : BIGNUM) s v : - 2 ^ 39 < bn r < 2 ^ 39 -> bn r = v -> pushes_number (Done (getvch r :: s)) s v.
Proof. intros R V. exists (getvch r). splits; [reflexivity|now apply getvch_item|now rewrite getvch_number]. Qed.
Lemma CastToBool_bool b : CastToBool (getvch (bn_bool b : BIGNUM)) = b.
Proof. rewrite getvch_ok, bn_bool_b2z. now destruct b. Qed.

Lemma numeric_op_unary opcode f st : unary_meaning opcode = Some f -> Forall bytes st -> performs (Unary f) st (numeric_op opcode st).
Proof.
  intros M F. destruct st as [|x s]; [now apply (numeric_unary_short opcode f)|]. apply Forall_cons in F as [B F]. cbn [performs].
  rewrite (numeric_unary opcode f) by exact M. cast x B b R V E.
  destruct (unary_op_meaning opcode f b M) as (r & E & W). pose proof (unary_op_range opcode b R) as Q. rewrite E in *. cbn [mbind outcome_bind safe] in *.
  apply pushes_number_done; [lia|now rewrite W, V].
Qed.
Lemma numeric_op_binary opcode f st : binary_meaning opcode = Some f -> Forall bytes st -> performs (Binary f) st (numeric_op opcode st).
Proof.
  intros M F. destruct st as [|x2 [|x1 s]]; [apply (numeric_binary_short opcode f); [exact M|cbn; lia]..|]. apply Forall_cons in F as [B2 F]. apply Forall_cons in F as [B1 F].
  cbn [performs]. rewrite (numeric_binary opcode f) by exact M. cast x1 B1 b1 R1 V1 E1. cbn [andb]. cast x2 B2 b2 R2 V2 E2.
  destruct (binary_op_meaning opcode f b1 b2 M) as (r & E & W). pose proof (binary_op_range opcode b1 b2 R1 R2) as Q.
  rewrite E in *. cbn [mbind outcome_bind safe] in *. apply pushes_number_done; [lia|now rewrite W, V1, V2].
Qed.
Lemma numeric_op_equal st : Forall bytes st -> performs (Required Z.eqb) st (numeric_op OP_NUMEQUALVERIFY st).
Proof.
  intros F. destruct st as [|x2 [|x1 s]]; [reflexivity..|]. apply Forall_cons in F as [B2 F]. apply Forall_cons in F as [B1 F].
  cbn [performs Interpreter.numeric_op]. cast x1 B1 b1 R1 V1 E1. cbn [andb]. cast x2 B2 b2 R2 V2 E2. cbn [binary_op mbind outcome_bind andb].
  rewrite CastToBool_bool, op_eq_ok, V1, V2. reflexivity.
Qed.
Lemma numeric_op_within st :
  Forall bytes st -> performs (Ternary (fun a low high => Z.b2z ((low <=? a) && (a <? high)))) st (numeric_op OP_WITHIN st).
Proof.
  intros F. destruct st as [|x3 [|x2 [|x1 s]]]; [reflexivity..|]. apply Forall_cons in F as [B3 F]. apply Forall_cons in F as [B2 F].
  apply Forall_cons in F as [B1 F]. cbn [performs Interpreter.numeric_op]. cast x1 B1 b1 R1 V1 E1. cbn [andb].
  cast x2 B2 b2 R2 V2 E2. cbn [andb]. cast x3 B3 b3 R3 V3 E3. exists (of_bool (op_le b2 b1 && op_lt b1 b3)).
  splits; [reflexivity|apply of_bool_item|]. rewrite op_le_ok, op_lt_ok, V1, V2, V3. now destruct (_ && _).
Qed.

(** C17: every operation on numbers, from [OP_1ADD] to [OP_WITHIN], the disabled ones apart, pops its operands and pushes
    the number it stands for in the integers, with no wrap-around, as long as the operands have at most four bytes;
    [OP_NUMEQUALVERIFY] pops two equal numbers and fails on others. With a longer operand, or with fewer
    operands than it takes, the script fails. *)
Theorem arithmetic (opcode : Z) (st : list (list Z)) :
  Forall bytes st -> OP_1ADD <= opcode <= OP_WITHIN -> disabled opcode = false ->
  exists o, numeric_meaning opcode = Some o /\ performs o st (numeric_op opcode st).
Proof.
  intros F R D. destruct (decide (opcode = OP_NUMEQUALVERIFY)) as [->|N1]; [eexists; split; [reflexivity|now apply numeric_op_equal]|].
  destruct (decide (opcode = OP_WITHIN)) as [->|N2]; [eexists; split; [reflexivity|now apply numeric_op_within]|].
  destruct (numeric_cases opcode R D N1 N2) as [(f & M & ->)|(f & M & ->)]; eexists; (split; [reflexivity|]);
    [now apply numeric_op_unary|now apply numeric_op_binary].
Qed.
End Arithmetic.

(** ** Examples *)

Module ScriptExample.
Definition p : platform := Platform SPH_LITTLE_ENDIAN true true.
Definition SHA256 (m : list Z) : list Z := repeat (Z.of_nat (length m) mod 256) 32.
Definition RIPEMD160 (m : list Z) : list Z := repeat (hd 0 m) 20.
(** A key signs every hash when its second byte is the one of the signature's. *)
Definition Verify (key hash vchSig : list Z) : bool := nth 4 vchSig 0 =? nth 1 key 0.
Definition tx : CTransaction := Sample.tx.
Definition key (n : Z) : list Z := 2 :: repeat n 32.
Definition sig (n : Z) : list Z := der [n] [1] 1.

Lemma byte_repeat b n : word 8 b -> bytes (repeat b n).
Proof. intros H. now apply Forall_repeat'. Qed.
Lemma digest_ok m : bytes m -> length (SHA256 m) = 32%nat /\ bytes (SHA256 m).
Proof. intros _. split; [reflexivity|]. apply byte_repeat. unfold word. apply Z.mod_pos_bound. lia. Qed.
Lemma RIPEMD160_ok m : bytes m -> length (RIPEMD160 m) = 20%nat /\ bytes (RIPEMD160 m).
Proof.
  intros B. split; [reflexivity|]. apply byte_repeat. destruct B; [unfold word; cbn [hd]; lia|exact H].
Qed.
Lemma item_key n : word 8 n -> item (key n).
Proof. intros H. split; [|vm_compute; discriminate]. constructor; [unfold word; lia|]. now apply byte_repeat. Qed.
Lemma item_sig n : word 8 n -> item (sig n).
Proof. intros H. split; [|vm_compute; discriminate]. repeat (constructor; [first [exact H|vm_compute; now split]|]). constructor. Qed.
Lemma item_small c : (length c <= 500)%nat -> forallb (fun x => (0 <=? x) && (x <? 2 ^ 8)) c = true -> item c.
Proof. intros L B. split; [now apply wordb_Forall|unfold size, MAX_SCRIPT_ELEMENT_SIZE; lia]. Qed.
End ScriptExample.

Lemma pay_to_key_hash_witness :
  let verify s k h := VerifyScript (ops := Model.ops) ScriptExample.p ScriptExample.SHA256 ScriptExample.Verify ScriptExample.RIPEMD160
    ScriptExample.RIPEMD160 ScriptExample.tx 0 0 0 (PushAll ScriptExample.p [s; k]) (script_for_key h) in
  let h := repeat 33 20 in
  verify (ScriptExample.sig 5) (ScriptExample.key 5) h = Done tt /\ verify (ScriptExample.sig 6) (ScriptExample.key 5) h = Fail.
Proof.
  intros verify h. split; [|vm_compute; reflexivity].
  apply (pay_to_key_hash (ops := Model.ops) ScriptExample.p ScriptExample.SHA256 ScriptExample.Verify ScriptExample.RIPEMD160
    ScriptExample.RIPEMD160 ScriptExample.tx 0 0 0).
  - discriminate.
  - apply ScriptExample.item_sig. split; lia.
  - apply ScriptExample.item_key. split; lia.
  - apply ScriptExample.byte_repeat. split; lia.
  - reflexivity.
  - discriminate.
  - split; vm_compute; reflexivity.
Defined.

Lemma pay_to_script_hash_witness :
  let run (a : list Z) := VerifyScript (ops := Model.ops) ScriptExample.p ScriptExample.SHA256 ScriptExample.Verify ScriptExample.RIPEMD160
    ScriptExample.RIPEMD160 ScriptExample.tx 0 0 0 (PushAll ScriptExample.p ([a] ++ [[0x52; 0x93; 0x55; 0x9c]])) (script_for_script (repeat 4 20)) in
  run [3] = Done tt /\ run [4] = Fail.
Proof.
  intros run.
  assert (E : forall a, word 8 a -> run [a] = need true (need true (s ← EvalScript (ops := Model.ops) ScriptExample.p ScriptExample.SHA256 ScriptExample.Verify
    ScriptExample.RIPEMD160 ScriptExample.RIPEMD160 ScriptExample.tx 0 0 0 (rev [[a]]) [0x52; 0x93; 0x55; 0x9c]; top_true s))).
  { intros a Ha. apply (pay_to_script_hash (ops := Model.ops) ScriptExample.p ScriptExample.SHA256 ScriptExample.Verify
      ScriptExample.RIPEMD160 ScriptExample.RIPEMD160 ScriptExample.tx 0 0 0).
    - discriminate.
    - constructor; [|constructor]. split; [now constructor|vm_compute; discriminate].
    - cbn. lia.
    - apply ScriptExample.item_small; [cbn; lia|reflexivity].
    - apply ScriptExample.byte_repeat. split; lia.
    - reflexivity. }
  split; rewrite E by (split; lia); vm_compute; reflexivity.
Defined.

Lemma interpreter_limits_witness :
  let start := Machine [] [] [] 0 [0x51; 0x76] in
  exists m, step (ops := Model.ops) ScriptExample.p ScriptExample.SHA256 ScriptExample.Verify ScriptExample.RIPEMD160 ScriptExample.RIPEMD160
    ScriptExample.tx 0 0 0 [0x51; 0x76] start = Done ([0x76], m) /\ machine_ok m /\ exists prefix, [0x51; 0x76] = prefix ++ [0x76].
Proof.
  intros start. eexists. split; [vm_compute; reflexivity|].
  apply (interpreter_limits (ops := Model.ops) ScriptExample.p ScriptExample.SHA256 ScriptExample.Verify ScriptExample.RIPEMD160
    ScriptExample.RIPEMD160 ScriptExample.tx 0 0 0 ScriptExample.digest_ok ScriptExample.RIPEMD160_ok [] [0x51; 0x76]).
  - exact ScriptExample.RIPEMD160_ok.
  - cbn. lia.
  - split; [constructor|cbn; lia].
  - apply wordb_Forall. reflexivity.
  - apply rtc_once. vm_compute. reflexivity.
Defined.

Lemma scripts_decided_witness :
  let verify := VerifyScript (ops := Model.ops) ScriptExample.p ScriptExample.SHA256 ScriptExample.Verify ScriptExample.RIPEMD160
    ScriptExample.RIPEMD160 ScriptExample.tx 0 0 0 in
  verify [0x4c] [0x51] = Done tt \/ verify [0x4c] [0x51] = Fail.
Proof.
  intros verify. apply (scripts_decided (ops := Model.ops) ScriptExample.p ScriptExample.SHA256 ScriptExample.Verify ScriptExample.RIPEMD160
    ScriptExample.RIPEMD160 ScriptExample.tx 0 0 0 ScriptExample.digest_ok ScriptExample.RIPEMD160_ok).
  - exact ScriptExample.RIPEMD160_ok.
  - cbn. lia.
  - apply wordb_Forall. reflexivity.
  - apply wordb_Forall. reflexivity.
Defined.

Lemma pushes_evaluate_witness :
  let eval := EvalScript (ops := Model.ops) ScriptExample.p ScriptExample.SHA256 ScriptExample.Verify ScriptExample.RIPEMD160
    ScriptExample.RIPEMD160 ScriptExample.tx 0 0 0 in
  let code := PushAll ScriptExample.p [[7]; repeat 0 80] in
  length code = 84%nat /\ eval [] code = Done [repeat 0 80; [7]] /\ IsPushOnly ScriptExample.p code = true.
Proof.
  intros eval code. split; [reflexivity|].
  apply (pushes_evaluate (ops := Model.ops) ScriptExample.p ScriptExample.SHA256 ScriptExample.Verify ScriptExample.RIPEMD160
    ScriptExample.RIPEMD160 ScriptExample.tx 0 0 0 ltac:(discriminate) [[7]; repeat 0 80]).
  - constructor; [apply ScriptExample.item_small; [cbn; lia|reflexivity]|]. constructor; [apply ScriptExample.item_small; [cbn; lia|reflexivity]|constructor].
  - cbn. lia.
  - vm_compute. discriminate.
Defined.

Lemma multisig_matches_witness :
  let loop := multisig_loop ScriptExample.p ScriptExample.SHA256 ScriptExample.Verify ScriptExample.tx 0 0 0 [] in
  let keys := [ScriptExample.key 1; ScriptExample.key 2; ScriptExample.key 3] in
  let sigs := [ScriptExample.sig 1; ScriptExample.sig 3] in
  loop sigs keys = Done true /\
  (exists signers, signers `sublist_of` keys /\
    Forall2 (signs ScriptExample.p ScriptExample.SHA256 ScriptExample.Verify ScriptExample.tx 0 0 0 []) sigs signers) /\
  loop (rev sigs) keys = Done false.
Proof.
  intros loop keys sigs. assert (E : loop sigs keys = Done true) by (vm_compute; reflexivity). split; [exact E|]. split; [|vm_compute; reflexivity].
  apply (multisig_matches ScriptExample.p ScriptExample.SHA256 ScriptExample.Verify ScriptExample.tx 0 0 0 [] sigs keys).
  - intros s k Hs Hk. unfold sigs, keys in *. repeat setoid_rewrite elem_of_cons in Hs. repeat setoid_rewrite elem_of_cons in Hk.
    destruct Hs as [->|[->|Hs]]; [| |now apply elem_of_nil in Hs]; destruct Hk as [->|[->|[->|Hk]]];
      try (now apply elem_of_nil in Hk); eexists; vm_compute; reflexivity.
  - cbn. lia.
  - exact E.
Defined.

Lemma arithmetic_witness :
  pushes_number (numeric_op (ops := Model.ops) OP_ADD [[0x81]; [0xff; 0xff; 0xff; 0x7f]]) [] (2 ^ 31 - 2) /\
  numeric_op (ops := Model.ops) OP_ADD [[1]; [0; 0; 0; 0; 0]] = Fail /\
  pushes_number (numeric_op (ops := Model.ops) OP_WITHIN [[5]; [3]; [3]]) [] 1 /\
  pushes_number (numeric_op (ops := Model.ops) OP_WITHIN [[5]; [3]; [5]]) [] 0.
Proof.
  assert (K : forall c, forallb (forallb (fun x => (0 <=? x) && (x <? 2 ^ 8))) c = true -> Forall bytes c).
  { intros c H. rewrite Forall_forall. intros x Hx. rewrite forallb_forall in H. apply wordb_Forall, H. now apply list_elem_of_In. }
  assert (A : forall opcode st o, forallb (forallb (fun x => (0 <=? x) && (x <? 2 ^ 8))) st = true -> OP_1ADD <= opcode <= OP_WITHIN ->
    disabled opcode = false -> numeric_meaning opcode = Some o -> performs o st (numeric_op (ops := Model.ops) opcode st)).
  { intros opcode st o H R D M. destruct (arithmetic (ops := Model.ops) opcode st (K st H) R D) as (o' & M' & P). congruence. }
  splits.
  - exact (A OP_ADD [[0x81]; [0xff; 0xff; 0xff; 0x7f]] (Binary Z.add) eq_refl ltac:(lia) eq_refl eq_refl).
  - exact (A OP_ADD [[1]; [0; 0; 0; 0; 0]] (Binary Z.add) eq_refl ltac:(lia) eq_refl eq_refl).
  - exact (A OP_WITHIN [[5]; [3]; [3]] (Ternary _) eq_refl ltac:(lia) eq_refl eq_refl).
  - exact (A OP_WITHIN [[5]; [3]; [5]] (Ternary _) eq_refl ltac:(lia) eq_refl eq_refl).
Defined.

(** The lock time of a script is read from at most four bytes ([5] is read as true): [OP_CHECKLOCKTIMEVERIFY] fails for
    every lock time from 2^31 on, that takes five. *)
Lemma lock_time_five_bytes flags :
  flag flags SCRIPT_VERIFY_CHECKLOCKTIMEVERIFY = true -> forall x s, size x = 5 -> check_lock_time ScriptExample.tx 0 flags (x :: s) = Fail.
Proof. intros F x s L. unfold check_lock_time. rewrite F. cbn [negb]. unfold CScriptNum_of. rewrite L. reflexivity. Qed.
