(* ===== verification/Coins.v ===== *)
(** * main.cpp: the coins that transactions spend

    The index of transactions tells of every output where it was spent, if it was.  A block
    is connected on a map of changes over that index, which is written when all its
    transactions are accepted. *)

From stdpp Require Import gmap list.
From Stdlib Require Import ZArith Lia.
From S2P Require Import Prelude SphTypes Uint256 Serialize Transaction BigNum Chain Script Interpreter.
Local Open Scope Z_scope.

(** What a function does that returns false with an addition to [nDoS], throws an exception, or goes
    wrong: an assertion that fails, an access outside of a vector, a sum that overflows. *)
Inductive verdict (A : Type) : Type := Accepted (a : A) | Refused (nDoS : Z) | Exception | Wrong.
Arguments Accepted {A} _.
Arguments Refused {A} _.
Arguments Exception {A}.
Arguments Wrong {A}.
#[export] Instance verdict_ret : MRet verdict := fun A a => Accepted a.
#[export] Instance verdict_bind : MBind verdict :=
  fun A B f m => match m with Accepted a => f a | Refused d => Refused d | Exception => Exception | Wrong => Wrong end.

Definition must {A} (o : option A) : verdict A := match o with Some a => Accepted a | None => Wrong end.
(** [if (!b) return DoS (nDoS, ...)] *)
Definition unless {A} (b : bool) (nDoS : Z) (m : verdict A) : verdict A := if b then m else Refused nDoS.
Definition value_out (tx : CTransaction) : verdict Z :=
  match GetValueOut tx with Returns v => Accepted v | Throws => Exception | Overflows => Wrong end.

(** ** The index of transactions (main.h) *)

Record CDiskTxPos := DiskTxPos { pos_nFile : Z; pos_nBlockPos : Z; pos_nTxPos : Z }.
#[export] Instance CDiskTxPos_eq_dec : EqDecision CDiskTxPos.
Proof. solve_decision. Defined.
Definition CDiskTxPos_null : CDiskTxPos := DiskTxPos 0xFFFFFFFF 0 0.
Definition CDiskTxPos_IsNull (a : CDiskTxPos) : bool := pos_nFile a =? 0xFFFFFFFF.

Record CTxIndex := TxIndex { tx_pos : CDiskTxPos; vSpent : list CDiskTxPos }.
Definition CTxIndex_of (posIn : CDiskTxPos) (nOutputs : nat) : CTxIndex := TxIndex posIn (repeat CDiskTxPos_null nOutputs).
Definition with_spent (i : nat) (pos : CDiskTxPos) (a : CTxIndex) : CTxIndex := TxIndex (tx_pos a) (<[i := pos]> (vSpent a)).

Abbreviation txdb := (gmap (list Z) CTxIndex).
Abbreviation MapPrevTx := (gmap (list Z) (CTxIndex * CTransaction)).

(** [nVersion == ANON_TXN_VERSION && vin[i].IsAnonInput()] *)
Definition is_anon (tx : CTransaction) (txin : CTxIn) : bool := (nVersion tx =? ANON_TXN_VERSION) && IsAnonInput txin.

(** The outputs an input may refer to, and the places of their spending. *)
Definition out_of_range (txin : CTxIn) (txindex : CTxIndex) (txPrev : CTransaction) : bool :=
  (Z.of_nat (length (vout txPrev)) <=? n (prevout txin)) || (Z.of_nat (length (vSpent txindex)) <=? n (prevout txin)).

Definition in_memory_pool : CDiskTxPos := DiskTxPos 1 1 1.

Section Coins.
  Variable p : platform.
  Variable SHA256 : list Z -> list Z.
  Variable Verify : list Z -> list Z -> list Z -> bool.
  Context {BIGNUM : Type} {ops : BN_ops BIGNUM}.
  Variables RIPEMD160 SHA1 : list Z -> list Z.
(** The transactions in the block files and in the memory pool. *)
  Variable disk : CDiskTxPos -> option CTransaction.
  Variable mempool : gmap (list Z) CTransaction.
(** [CheckAnonInputs], of the ring signatures: its result and the sum. *)
  Variable CheckAnonInputs : CTransaction -> bool * Z.

Definition GetHash (tx : CTransaction) : list Z := CTransaction_GetHash p 0 0 0 0 SHA256 tx.

(** ** FetchInputs *)

Definition fetch (db pool : txdb) (fUse : bool) (h : list Z) : verdict (CTxIndex * CTransaction) :=
  match (if fUse then pool !! h else None) ∪ (db !! h) with
  | None =>
      if fUse then Refused 0
      else match mempool !! h with
           | None => Refused 0
           | Some txPrev => Accepted (CTxIndex_of CDiskTxPos_null (length (vout txPrev)), txPrev)
           end
  | Some txindex =>
      match (if decide (tx_pos txindex = in_memory_pool) then mempool !! h else disk (tx_pos txindex)) with
      | None => Refused 0
      | Some txPrev => Accepted (txindex, txPrev)
      end
  end.
Fixpoint fetch_loop (db pool : txdb) (fUse : bool) (tx : CTransaction) (vin : list CTxIn) (inputs : MapPrevTx) : verdict MapPrevTx :=
  match vin with
  | [] => Accepted inputs
  | txin :: vin =>
      let h := hash (prevout txin) in
      if is_anon tx txin then fetch_loop db pool fUse tx vin inputs
      else match inputs !! h with
           | Some _ => fetch_loop db pool fUse tx vin inputs
           | None => prev ← fetch db pool fUse h; fetch_loop db pool fUse tx vin (<[h := prev]> inputs)
           end
  end.
Fixpoint range_loop (tx : CTransaction) (vin : list CTxIn) (inputs : MapPrevTx) : verdict unit :=
  match vin with
  | [] => Accepted tt
  | txin :: vin =>
      if is_anon tx txin then range_loop tx vin inputs
      else
        prev ← must (inputs !! hash (prevout txin));
        unless (negb (out_of_range txin prev.1 prev.2)) 100 (range_loop tx vin inputs)
  end.
Definition FetchInputs (db pool : txdb) (fBlock fMiner : bool) (tx : CTransaction) : verdict MapPrevTx :=
  if IsCoinBase tx then Accepted ∅
  else
    inputs ← fetch_loop db pool (fBlock || fMiner) tx (vin tx) ∅;
    range_loop tx (vin tx) inputs;;
    Accepted inputs.

(** ** What the inputs bring *)

Definition GetOutputFor (input : CTxIn) (inputs : MapPrevTx) : verdict CTxOut :=
  match inputs !! hash (prevout input) with
  | None => Exception
  | Some (_, txPrev) =>
      match vout txPrev !! Z.to_nat (n (prevout input)) with Some txout => Accepted txout | None => Exception end
  end.
Fixpoint value_in_loop (tx : CTransaction) (vin : list CTxIn) (inputs : MapPrevTx) (nResult : Z) : verdict Z :=
  match vin with
  | [] => Accepted nResult
  | txin :: vin =>
      if is_anon tx txin then value_in_loop tx vin inputs nResult
      else
        txout ← GetOutputFor txin inputs;
        nResult ← must (add_int64 nResult (nValue txout));
        value_in_loop tx vin inputs nResult
  end.
Definition GetValueIn (tx : CTransaction) (inputs : MapPrevTx) : verdict Z :=
  if IsCoinBase tx then Accepted 0 else value_in_loop tx (vin tx) inputs 0.

Fixpoint p2sh_sigops_loop (tx : CTransaction) (vin : list CTxIn) (inputs : MapPrevTx) (nSigOps : Z) : verdict Z :=
  match vin with
  | [] => Accepted nSigOps
  | txin :: vin =>
      if is_anon tx txin then p2sh_sigops_loop tx vin inputs nSigOps
      else
        prevout ← GetOutputFor txin inputs;
        k ← (if IsPayToScriptHash (scriptPubKey prevout) then must (GetSigOpCount_p2sh p (scriptPubKey prevout) (scriptSig txin))
             else Accepted 0);
        p2sh_sigops_loop tx vin inputs (trunc 32 (nSigOps + k))
  end.
Definition GetP2SHSigOpCount (tx : CTransaction) (inputs : MapPrevTx) : verdict Z :=
  if IsCoinBase tx then Accepted 0 else p2sh_sigops_loop tx (vin tx) inputs 0.

Fixpoint sigops_loop (scripts : list (list Z)) (nSigOps : Z) : verdict Z :=
  match scripts with
  | [] => Accepted nSigOps
  | s :: scripts => k ← must (GetSigOpCount p s false); sigops_loop scripts (trunc 32 (nSigOps + k))
  end.
Definition GetLegacySigOpCount (tx : CTransaction) : verdict Z :=
  sigops_loop (map scriptSig (vin tx) ++ map scriptPubKey (vout tx)) 0.

(** ** ConnectInputs *)

(** script.cpp *)
Definition VerifySignature (txFrom txTo : CTransaction) (nIn : nat) (flags nHashType : Z) : Interpreter.outcome unit :=
  match vin txTo !! nIn with
  | None => Undefined
  | Some txin =>
      match vout txFrom !! Z.to_nat (n (prevout txin)) with
      | None => Fail
      | Some txout =>
          need (bool_decide (hash (prevout txin) = GetHash txFrom))
            (VerifyScript (ops := ops) p SHA256 Verify RIPEMD160 SHA1 txTo nIn flags nHashType (scriptSig txin) (scriptPubKey txout))
      end
  end.

Definition STANDARD_NOT_MANDATORY_VERIFY_FLAGS : Z :=
  SCRIPT_VERIFY_STRICTENC .| SCRIPT_VERIFY_NULLDUMMY .| SCRIPT_VERIFY_CHECKLOCKTIMEVERIFY .| SCRIPT_VERIFY_DISCOURAGE_UPGRADABLE_NOPS.

Definition check_signature (txPrev tx : CTransaction) (i : nat) (flags : Z) : verdict unit :=
  match VerifySignature txPrev tx i flags 0 with
  | Done _ => Accepted tt
  | Undefined => Wrong
  | Fail =>
      if negb ((flags .& STANDARD_NOT_MANDATORY_VERIFY_FLAGS) =? 0) then
        match VerifySignature txPrev tx i (flags .& Z.lnot STANDARD_NOT_MANDATORY_VERIFY_FLAGS) 0 with
        | Done _ => Refused 0
        | Undefined => Wrong
        | Fail => Refused 100
        end
      else Refused 100
  end.

Section Connect.
(** The block index, the number of confirmations of a coinbase, the height of the best block, and the last
    checkpoint. *)
  Variable h : heap.
  Variables nCoinbaseMaturity nBestHeight nTotalBlocksEstimate : Z.
  Variable fBlock fMiner : bool.
  Variable flags : Z.
  Variable fValidateSig : bool.

(** The loop on the blocks in which an immature coin would be. *)
Fixpoint mature_loop (fuel : nat) (nHeight0 : Z) (pindex : pointer) (pos : CDiskTxPos) : verdict unit :=
  match fuel, pindex with
  | _, None => Accepted tt
  | O, _ => Wrong
  | S fuel, _ =>
      b ← must (deref h pindex);
      if negb (nHeight0 - nHeight b <? nCoinbaseMaturity) then Accepted tt
      else if (nBlockPos b =? pos_nBlockPos pos) && (nFile b =? pos_nFile pos) then Refused 0
      else mature_loop fuel nHeight0 (pprev b) pos
  end.
Definition check_mature (pindexBlock : pointer) (txindex : CTxIndex) (txPrev : CTransaction) : verdict unit :=
  if IsCoinBase txPrev || IsCoinStake txPrev then
    match deref h pindexBlock with
    | None => match pindexBlock with None => Accepted tt | Some _ => Wrong end
    | Some b => mature_loop (walk_fuel h pindexBlock) (nHeight b) pindexBlock (tx_pos txindex)
    end
  else Accepted tt.

(** The first loop: [nValueIn]. *)
Fixpoint check_loop (tx : CTransaction) (pindexBlock : pointer) (inputs : MapPrevTx) (vin : list CTxIn) (nValueIn : Z) : verdict Z :=
  match vin with
  | [] => Accepted nValueIn
  | txin :: vin =>
      if is_anon tx txin then check_loop tx pindexBlock inputs vin nValueIn
      else
        prev ← must (inputs !! hash (prevout txin));
        let '(txindex, txPrev) := prev in
        unless (negb (out_of_range txin txindex txPrev)) 100
         (check_mature pindexBlock txindex txPrev;;
          unless (negb (nTime tx <? nTime txPrev)) 100
           (txout ← must (vout txPrev !! Z.to_nat (n (prevout txin)));
            nValueIn ← must (add_int64 nValueIn (nValue txout));
            unless (MoneyRange (nValue txout) && MoneyRange nValueIn) 100 (check_loop tx pindexBlock inputs vin nValueIn)))
  end.

(** The second loop, from the input [i] on: it changes the copies of the indexes and the map of changes. *)
Fixpoint spend_loop (tx : CTransaction) (posThisTx : CDiskTxPos) (i : nat) (vin : list CTxIn) (inputs : MapPrevTx) (mapTestPool : txdb) :
    verdict (MapPrevTx * txdb) :=
  match vin with
  | [] => Accepted (inputs, mapTestPool)
  | txin :: vin =>
      if is_anon tx txin then spend_loop tx posThisTx (S i) vin inputs mapTestPool
      else
        let key := hash (prevout txin) in
        let k := Z.to_nat (n (prevout txin)) in
        prev ← must (inputs !! key);
        let '(txindex, txPrev) := prev in
        spent ← must (vSpent txindex !! k);
        unless (CDiskTxPos_IsNull spent) 0
         ((if fValidateSig && negb (fBlock && (nBestHeight <? nTotalBlocksEstimate)) then check_signature txPrev tx i flags
           else Accepted tt);;
          let txindex := with_spent k posThisTx txindex in
          spend_loop tx posThisTx (S i) vin (<[key := (txindex, txPrev)]> inputs)
            (if fBlock || fMiner then <[key := txindex]> mapTestPool else mapTestPool))
  end.

(** The ban score of a transaction that is refused, [d] points of which were given before. *)
Definition banned (d : Z) (m : verdict unit) : verdict unit :=
  match m with Refused e => Refused (d + e) | _ => m end.

(** What the inputs bring against what the outputs take; a failure of [CheckAnonInputs] costs a hundred points and is
    ignored otherwise: its sum is added as if it had succeeded. *)
Definition check_fees (tx : CTransaction) (nValueIn : Z) : verdict unit :=
  let anon := nVersion tx =? ANON_TXN_VERSION in
  nValueIn ← (if anon then must (add_int64 nValueIn (CheckAnonInputs tx).2) else Accepted nValueIn);
  banned (if anon && negb (CheckAnonInputs tx).1 then 100 else 0)
  (if IsCoinStake tx then Accepted tt
   else
    out ← value_out tx;
    unless (negb (nValueIn <? out)) 100
     (let nTxFee := nValueIn - out in
      unless (negb (nTxFee <? 0)) 100
       (unless (negb (nTxFee <? GetMinFee tx 1 GMF_BLOCK 0)) (if fBlock then 100 else 0)
         (unless (MoneyRange nTxFee) 100 (Accepted tt))))).

(** [ConnectInputs]: the map of changes afterwards. *)
Definition ConnectInputs (tx : CTransaction) (inputs : MapPrevTx) (mapTestPool : txdb) (posThisTx : CDiskTxPos) (pindexBlock : pointer) :
    verdict txdb :=
  if IsCoinBase tx then Accepted mapTestPool
  else
    nValueIn ← check_loop tx pindexBlock inputs (vin tx) 0;
    r ← spend_loop tx posThisTx 0 (vin tx) inputs mapTestPool;
    check_fees tx nValueIn;;
    Accepted r.2.
End Connect.

(** ** DisconnectInputs *)

(** The database may refuse to write an entry. *)
  Variable UpdateTxIndex_ok : list Z -> CTxIndex -> bool.

Fixpoint unspend_loop (vin : list CTxIn) (db : txdb) : verdict txdb :=
  match vin with
  | [] => Accepted db
  | txin :: vin =>
      let key := hash (prevout txin) in
      match db !! key with
      | None => Refused 0
      | Some txindex =>
          unless (negb (Z.of_nat (length (vSpent txindex)) <=? n (prevout txin))) 0
           (let txindex := with_spent (Z.to_nat (n (prevout txin))) CDiskTxPos_null txindex in
            unless (UpdateTxIndex_ok key txindex) 0 (unspend_loop vin (<[key := txindex]> db)))
      end
  end.
Definition DisconnectInputs (tx : CTransaction) (db : txdb) : verdict txdb :=
  db ← (if IsCoinBase tx then Accepted db else unspend_loop (vin tx) db);
  Accepted (delete (GetHash tx) db).
Fixpoint disconnect_loop (vtx : list CTransaction) (db : txdb) : verdict txdb :=
  match vtx with
  | [] => Accepted db
  | tx :: vtx => db ← DisconnectInputs tx db; disconnect_loop vtx db
  end.
(** The transactions of a block, in reverse order. *)
Definition DisconnectBlock_inputs (block : CBlock) (db : txdb) : verdict txdb := disconnect_loop (rev (vtx block)) db.
End Coins.
