(* ===== verification/Blocks.v ===== *)
(** * main.cpp: the checks of a block and the connection of its transactions *)

From stdpp Require Import gmap list.
From Stdlib Require Import ZArith Lia.
From S2P Require Import Prelude SphTypes Uint256 Serialize Transaction Merkle BigNum Chain Consensus Kernel Script Interpreter Coins.
Local Open Scope Z_scope.

Definition MAX_BLOCK_SIGOPS : Z := MAX_BLOCK_SIZE / 50.
Definition FutureDrift (nTime : Z) : Z := nTime + 10 * 60.
Definition block_is_pos (block : CBlock) : bool := match vtx block with _ :: tx :: _ => IsCoinStake tx | _ => false end.

Section Blocks.
  Variable p : platform.
  Variable SHA256 : list Z -> list Z.
  Context {BIGNUM : Type} {ops : BN_ops BIGNUM}.
  Context {tx_serializable : Serializable CTransaction} {block_serializable : Serializable CBlock}.
  Variable fTestNet : bool.

(** ** CheckBlock *)

(** The hash that is the proof of work ([Tribus]), the signature of the block, the clock, and the memory
    [CheckTransaction] reads before it is set, of each transaction. *)
  Variable GetPoWHash : CBlock -> list Z.
  Variable CheckBlockSignature : CBlock -> bool.
  Variable AdjustedTime : Z.
  Variable uninitialised : nat -> nat -> list Z.

Fixpoint check_transactions (i : nat) (vtx : list CTransaction) (nTimeBlock : Z) : verdict unit :=
  match vtx with
  | [] => Accepted tt
  | tx :: vtx =>
      match CheckTransaction (uninitialised i) tx with
      | Returns (false, nDoS) => Refused nDoS
      | Throws => Exception
      | Overflows => Wrong
      | Returns (true, _) => unless (negb (nTimeBlock <? nTime tx)) 50 (check_transactions (S i) vtx nTimeBlock)
      end
  end.
Fixpoint block_sigops (vtx : list CTransaction) (nSigOps : Z) : verdict Z :=
  match vtx with
  | [] => Accepted nSigOps
  | tx :: vtx => k ← GetLegacySigOpCount p tx; block_sigops vtx (trunc 32 (nSigOps + k))
  end.

Definition CheckBlock (fCheckPOW fCheckMerkleRoot fCheckSig : bool) (block : CBlock) : verdict unit :=
  match vtx block with
  | [] => Refused 100
  | coinbase :: rest =>
      unless (negb ((MAX_BLOCK_SIZE <? Z.of_nat (length (vtx block))) || (MAX_BLOCK_SIZE <? GetSerializeSize block))) 100
     (unless (negb (fCheckPOW && negb (block_is_pos block) &&
                    negb (CheckProofOfWork (ops := ops) p fTestNet (GetPoWHash block) (nBits block)))) 50
     (unless (negb (FutureDrift AdjustedTime <? b_nTime block)) 0
     (unless (IsCoinBase coinbase) 100
     (unless (negb (existsb IsCoinBase rest)) 100
     (unless (negb (FutureDrift (nTime coinbase) <? b_nTime block)) 50
     ((if block_is_pos block then
         match vtx block with
         | _ :: coinstake :: others =>
             unless (match vout coinbase with [o] => CTxOut_IsEmpty o | _ => false end) 100
            (unless (IsCoinStake coinstake) 100
            (unless (negb (existsb IsCoinStake others)) 100
            (unless (CheckCoinStakeTimestamp (b_nTime block) (nTime coinstake)) 50
            (unless (negb (fCheckSig && negb (CheckBlockSignature block))) 100 (Accepted tt)))))
         | _ => Wrong
         end
       else Accepted tt);;
      check_transactions 0 (vtx block) (b_nTime block);;
      (let hashes := map (GetHash p SHA256) (vtx block) in
       unless (base.size (list_to_set hashes : gset (list Z)) =? length (vtx block))%nat 100
      (nSigOps ← block_sigops (vtx block) 0;
       unless (negb (MAX_BLOCK_SIGOPS <? nSigOps)) 100
         (if fCheckMerkleRoot then
            r ← must (BuildMerkleTree (node_hash p SHA256) hashes);
            unless (negb (negb (op_equal 8 (hashMerkleRoot block) r.2))) 100 (Accepted tt)
          else Accepted tt)))))))))
  end.

(** ** The transactions of ConnectBlock *)

  Variable Verify : list Z -> list Z -> list Z -> bool.
  Variables RIPEMD160 SHA1 : list Z -> list Z.
  Variable disk : CDiskTxPos -> option CTransaction.
  Variable mempool : gmap (list Z) CTransaction.
  Variable CheckAnonInputs : CTransaction -> bool * Z.
  Variable h : heap.
  Variables nCoinbaseMaturity nBestHeight nTotalBlocksEstimate : Z.
(** The index of transactions, the entry of the block in the block index and the place of that entry, and whether the
    block is only tried, by [CreateNewBlock]. *)
  Variable db : txdb.
  Variable pindex : positive.
  Variable entry : CBlockIndex.
  Variable fJustCheck : bool.

(** The variables of the loop. *)
Record tally := Tally {
  mapQueuedChanges : txdb; t_nFees : Z; t_nValueIn : Z; t_nValueOut : Z; t_nAmountBurned : Z; t_nStakeReward : Z; t_nSigOps : Z; t_nTxPos : Z
}.

Definition SCRIPT_VERIFY_NOCACHE : Z := 1 << 0.
(** The amounts of one transaction that is not a coinbase. *)
Definition value_in (tx : CTransaction) (mapInputs : MapPrevTx) : verdict Z :=
  nTxValueIn ← GetValueIn tx mapInputs;
  if nVersion tx =? ANON_TXN_VERSION then
    let '(ok, nSumAnon) := CheckAnonInputs tx in
    unless ok 0 (must (add_int64 nTxValueIn nSumAnon))
  else Accepted nTxValueIn.
Fixpoint burned (vout : list CTxOut) (nAmountBurned : Z) : verdict Z :=
  match vout with
  | [] => Accepted nAmountBurned
  | out :: vout =>
      a ← (if Script.IsUnspendable (scriptPubKey out) then must (add_int64 nAmountBurned (nValue out)) else Accepted nAmountBurned);
      burned vout a
  end.

Definition connect_tx (tx : CTransaction) (t : tally) : verdict tally :=
  let hashTx := GetHash p SHA256 tx in
  unless (match db !! hashTx with Some old => negb (existsb CDiskTxPos_IsNull (vSpent old)) | None => true end) 0
 (k ← GetLegacySigOpCount p tx;
  let nSigOps := trunc 32 (t_nSigOps t + k) in
  unless (negb (MAX_BLOCK_SIGOPS <? nSigOps)) 100
 (let posThisTx := DiskTxPos (nFile entry) (nBlockPos entry) (t_nTxPos t) in
  let nTxPos := if fJustCheck then t_nTxPos t else trunc 32 (t_nTxPos t + GetSerializeSize tx) in
  t ← (if IsCoinBase tx then
         out ← value_out tx;
         nValueOut ← must (add_int64 (t_nValueOut t) out);
         Accepted (Tally (mapQueuedChanges t) (t_nFees t) (t_nValueIn t) nValueOut (t_nAmountBurned t) (t_nStakeReward t) nSigOps nTxPos)
       else
         mapInputs ← FetchInputs disk mempool db (mapQueuedChanges t) true false tx;
         k ← GetP2SHSigOpCount p tx mapInputs;
         let nSigOps := trunc 32 (nSigOps + k) in
         unless (negb (MAX_BLOCK_SIGOPS <? nSigOps)) 100
        (nTxValueIn ← value_in tx mapInputs;
         nTxValueOut ← value_out tx;
         nValueIn ← must (add_int64 (t_nValueIn t) nTxValueIn);
         nValueOut ← must (add_int64 (t_nValueOut t) nTxValueOut);
         nAmountBurned ← burned (vout tx) (t_nAmountBurned t);
         nFees ← (if IsCoinStake tx then Accepted (t_nFees t)
                  else fee ← must (add_int64 nTxValueIn (- nTxValueOut)); must (add_int64 (t_nFees t) fee));
         nStakeReward ← (if IsCoinStake tx then must (add_int64 nTxValueOut (- nTxValueIn)) else Accepted (t_nStakeReward t));
         queued ← ConnectInputs (ops := ops) p SHA256 Verify RIPEMD160 SHA1 CheckAnonInputs h nCoinbaseMaturity nBestHeight nTotalBlocksEstimate
                    true false SCRIPT_VERIFY_NOCACHE true tx mapInputs (mapQueuedChanges t) posThisTx (Some pindex);
         Accepted (Tally queued nFees nValueIn nValueOut nAmountBurned nStakeReward nSigOps nTxPos)));
  Accepted (Tally (<[hashTx := CTxIndex_of posThisTx (length (vout tx))]> (mapQueuedChanges t)) (t_nFees t) (t_nValueIn t) (t_nValueOut t)
              (t_nAmountBurned t) (t_nStakeReward t) (t_nSigOps t) (t_nTxPos t)))).
Fixpoint connect_txs (vtx : list CTransaction) (t : tally) : verdict tally :=
  match vtx with
  | [] => Accepted t
  | tx :: vtx => t ← connect_tx tx t; connect_txs vtx t
  end.
(** The first transaction comes after the header and the number of transactions; [1, 1, 1] stands for the memory pool. *)
Definition CBlock_null : CBlock := Block 6 (zeros 8) (zeros 8) 0 0 0 [] [].
Definition first_pos (vtx : list CTransaction) : Z :=
  if fJustCheck then 1
  else trunc 32 (nBlockPos entry + GetSerializeSize CBlock_null - 2 * GetSizeOfCompactSize 0 + GetSizeOfCompactSize (Z.of_nat (length vtx))).
Definition start_tally (vtx : list CTransaction) : tally := Tally ∅ 0 0 0 0 0 0 (first_pos vtx).

(** ** The rewards, and the write *)

(** What [GetCoinAge] reads of the disk, the height of the best block, and the overflow in
    [GetProofOfStakeReward]. *)
  Variable read_prev : COutPoint -> option (CTransaction * option CBlock).
  Variables best over9000 : Z.

(** A [uint64_t] as an [int64_t]. *)
Definition to_int64 (v : Z) : Z := if v <? 2 ^ 63 then v else v - 2 ^ 64.
Definition check_rewards (block : CBlock) (t : tally) : verdict unit :=
  match vtx block with
  | coinbase :: rest =>
      if block_is_pos block then
        match rest with
        | coinstake :: _ =>
            age ← must (GetCoinAge (ops := ops) p read_prev coinstake);
            match age with
            | None => Refused 0
            | Some nCoinAge =>
                reward ← must (GetProofOfStakeReward fTestNet over9000 best (to_int64 nCoinAge) (t_nFees t));
                unless (negb (reward <? t_nStakeReward t)) 100 (Accepted tt)
            end
        | [] => Wrong
        end
      else
        reward ← must (GetProofOfWorkReward fTestNet best (nHeight entry) (t_nFees t));
        out ← value_out coinbase;
        unless (negb (reward <? out)) 50 (Accepted tt)
  | [] => Wrong
  end.

(** [nMint] and [nMoneySupply] of the entry. *)
Definition money_supply (t : tally) : verdict (Z * Z) :=
  created ← must (add_int64 (t_nValueOut t) (- t_nValueIn t));
  nMint ← must (add_int64 created (t_nFees t));
  before ← (match pprev entry with None => Accepted 0 | Some _ => b ← must (deref h (pprev entry)); Accepted (nMoneySupply b) end);
  supply ← must (add_int64 before (t_nValueOut t));
  supply ← must (add_int64 supply (- t_nValueIn t));
  supply ← must (add_int64 supply (- t_nAmountBurned t));
  if 0 <=? supply then Accepted (nMint, supply) else Wrong.

(** The changes over the index, as they are written. *)
Definition write_changes (t : tally) : txdb := mapQueuedChanges t ∪ db.

(** The check of the payment to a masternode, which reads the list of masternodes the node has collected from the network,
    and whether the database writes: the entry of a block in the block index, given by its place, and the entry of a
    transaction. *)
  Variable check_fortunastake_payment : CBlock -> tally -> verdict unit.
  Variable WriteBlockIndex_ok : positive -> bool.
  Variable UpdateTxIndex_ok : list Z -> CTxIndex -> bool.

(** The predecessor is written again, with [hashNext]. *)
Definition write_predecessor : bool :=
  match pprev entry with None => true | Some a => WriteBlockIndex_ok a end.

(** [ConnectBlock], without the index of addresses: the index of transactions afterwards, [nMint] and [nMoneySupply]. The
    calls after the last write, whose results the code drops, do not change these: the hooks of the names, the wallets
    and the interface. *)
Definition ConnectBlock (block : CBlock) : verdict (txdb * (Z * Z)) :=
  CheckBlock (negb fJustCheck) (negb fJustCheck) false block;;
  t ← connect_txs (vtx block) (start_tally (vtx block));
  check_rewards block t;;
  check_fortunastake_payment block t;;
  supply ← money_supply t;
  unless (WriteBlockIndex_ok pindex) 0
   (if fJustCheck then Accepted (db, supply)
    else unless (forallb (fun e => UpdateTxIndex_ok e.1 e.2) (map_to_list (mapQueuedChanges t))) 0
          (unless write_predecessor 0 (Accepted (write_changes t, supply)))).
End Blocks.
