(* ===== verification/CoinsProof.v ===== *)
(** * Lemmas on spending and restoring coins

    The index a block is connected on, its changes over the stored entries, is one map; connecting
    a transaction marks its coins in that map and enters the transaction. *)

From stdpp Require Import gmap list.
From Stdlib Require Import ZArith Lia.
From S2P Require Import Prelude SphTypes Uint256 Serialize Transaction BigNum Chain ChainProof Script Interpreter Coins.
Local Open Scope Z_scope.

Lemma accepted_then {A B} (m : verdict A) (f : A -> verdict B) b : m ≫= f = Accepted b -> exists a, m = Accepted a /\ f a = Accepted b.
Proof. destruct m; try discriminate. eauto. Qed.
Lemma accepted_unless {A} c d (m : verdict A) a : unless c d m = Accepted a -> c = true /\ m = Accepted a.
Proof. destruct c; [easy|discriminate]. Qed.
Lemma accepted_must {A} (o : option A) a : must o = Accepted a -> o = Some a.
Proof. destruct o; [|discriminate]. cbn. congruence. Qed.

(** Take apart a hypothesis that a computation is accepted. *)
Ltac accepted H :=
  match type of H with
  | _ ≫= _ = Accepted _ => let a := fresh "a" in let E := fresh "E" in apply accepted_then in H as (a & E & H)
  | unless _ _ _ = Accepted _ => let C := fresh "C" in apply accepted_unless in H as [C H]
  | must _ = Accepted _ => apply accepted_must in H
  end.

(** ** Coins *)

Definition coins_of (tx : CTransaction) (vin : list CTxIn) : list COutPoint := map prevout (filter (fun i => is_anon tx i = false) vin).
Definition coins (tx : CTransaction) : list COutPoint := coins_of tx (vin tx).

Lemma coins_of_cons tx i vin : coins_of tx (i :: vin) = if is_anon tx i then coins_of tx vin else prevout i :: coins_of tx vin.
Proof. unfold coins_of. rewrite filter_cons. destruct (is_anon tx i); [now rewrite decide_False|now rewrite decide_True]. Qed.

(** The output a coin refers to, of the transactions that were fetched. *)
Definition prev_out (inputs : MapPrevTx) (o : COutPoint) : option CTxOut := prev ← inputs !! hash o; vout prev.2 !! Z.to_nat (n o).
(** A coin that is entered and was not spent. *)
Definition unspent (E : txdb) (o : COutPoint) : Prop :=
  exists i q, E !! hash o = Some i /\ vSpent i !! Z.to_nat (n o) = Some q /\ CDiskTxPos_IsNull q = true.
Definition spend_coin (pos : CDiskTxPos) (o : COutPoint) (E : txdb) : txdb := alter (with_spent (Z.to_nat (n o)) pos) (hash o) E.
Fixpoint spend_coins (pos : CDiskTxPos) (os : list COutPoint) (E : txdb) : txdb :=
  match os with [] => E | o :: os => spend_coins pos os (spend_coin pos o E) end.

(** The numbers of outputs fit [unsigned int]. *)
Definition coin_ok (o : COutPoint) : Prop := 0 <= n o.

Lemma coin_eq o o' : coin_ok o -> coin_ok o' -> hash o = hash o' -> Z.to_nat (n o) = Z.to_nat (n o') -> o = o'.
Proof. unfold coin_ok. destruct o, o'. cbn. intros ? ? -> ?. f_equal. lia. Qed.

Lemma lookup_spend_coin pos o E k :
  spend_coin pos o E !! k = if decide (hash o = k) then with_spent (Z.to_nat (n o)) pos <$> E !! k else E !! k.
Proof. unfold spend_coin. case_decide; subst; [apply lookup_alter_eq|now apply lookup_alter_ne]. Qed.

Lemma unspent_spend pos o o' E :
  coin_ok o -> coin_ok o' -> CDiskTxPos_IsNull pos = false -> unspent (spend_coin pos o E) o' -> o' <> o /\ unspent E o'.
Proof.
  intros Ho Ho' P (i & q & Hi & Hq & N). rewrite lookup_spend_coin in Hi. destruct (decide (hash o = hash o')) as [Eh|Nh].
  - destruct (E !! hash o') as [j|] eqn:Ej; [|easy]. cbn in Hi. injection Hi as <-. cbn in Hq.
    destruct (decide (Z.to_nat (n o) = Z.to_nat (n o'))) as [En|Nn].
    + rewrite En in Hq. apply list_lookup_insert_Some in Hq as [(_ & <- & _)|(? & _)]; [congruence|easy].
    + rewrite list_lookup_insert_ne in Hq by exact Nn. split; [congruence|]. now exists j, q.
  - split; [congruence|]. now exists i, q.
Qed.
Lemma spend_not_unspent pos o E : CDiskTxPos_IsNull pos = false -> ~ unspent (spend_coin pos o E) o.
Proof.
  intros P (i & q & Hi & Hq & N). rewrite lookup_spend_coin, decide_True in Hi by reflexivity. destruct (E !! hash o) as [j|]; [|easy].
  cbn in Hi. injection Hi as <-. cbn in Hq. apply list_lookup_insert_Some in Hq as [(_ & <- & _)|(? & _)]; [congruence|easy].
Qed.
Lemma unspent_spend_coins pos os o E :
  Forall coin_ok os -> coin_ok o -> CDiskTxPos_IsNull pos = false -> unspent (spend_coins pos os E) o -> (o ∉ os) /\ unspent E o.
Proof.
  intros F Ho P. revert E. induction F as [|o' os Ho' F IH]; intros E U; [split; [apply not_elem_of_nil|exact U]|]. cbn in U.
  apply IH in U as [N U]. apply unspent_spend in U as [N' U]; [|assumption..]. split; [|exact U]. apply not_elem_of_cons. now split.
Qed.

Lemma spend_coins_keys pos os E k : spend_coins pos os E !! k = None <-> E !! k = None.
Proof.
  revert E. induction os as [|o os IH]; intros E; [easy|]. cbn. rewrite IH, lookup_spend_coin. case_decide; [|easy]. apply fmap_None.
Qed.

(** ** Amounts *)

Definition amounts (os : list CTxOut) : Z := foldr (fun o a => nValue o + a) 0 os.
Lemma amounts_nil : amounts [] = 0.
Proof. reflexivity. Qed.
Lemma amounts_cons o os : amounts (o :: os) = nValue o + amounts os.
Proof. reflexivity. Qed.
Create Rewrite HintDb amounts.
#[export] Hint Rewrite amounts_nil amounts_cons : amounts.
(** The outputs that coins stand for. *)
Definition outputs_of (inputs : MapPrevTx) (os : list COutPoint) (outs : list CTxOut) : Prop := Forall2 (fun o out => prev_out inputs o = Some out) os outs.

Lemma outputs_of_unique inputs os a b : outputs_of inputs os a -> outputs_of inputs os b -> a = b.
Proof. intros A. revert b. induction A as [|o x os a Ho A IH]; intros b B; inversion B; subst; [easy|]. f_equal; [congruence|now apply IH]. Qed.

Lemma add_int64_value a b c : add_int64 a b = Some c -> c = a + b.
Proof. unfold add_int64. destruct (_ && _); congruence. Qed.

Lemma value_in_loop_ok tx vin inputs acc r :
  value_in_loop tx vin inputs acc = Accepted r -> exists outs, outputs_of inputs (coins_of tx vin) outs /\ r = acc + amounts outs.
Proof.
  revert acc. induction vin as [|i vin IH]; intros acc H; [injection H as <-; exists []; split; [constructor|autorewrite with amounts; lia]|].
  rewrite coins_of_cons. cbn [value_in_loop] in H. destruct (is_anon tx i); [now apply IH|]. accepted H. accepted H.
  apply accepted_must, add_int64_value in E0 as ->. apply IH in H as (outs & O & ->). exists (a :: outs). split; [|autorewrite with amounts; lia].
  constructor; [|exact O]. unfold GetOutputFor in E. unfold prev_out. destruct (inputs !! hash (prevout i)) as [[x y]|]; [|discriminate]. cbn.
  destruct (vout y !! _); [congruence|discriminate].
Qed.

Lemma value_out_ok tx v : value_out tx = Accepted v -> v = amounts (vout tx).
Proof.
  unfold value_out, GetValueOut. assert (G : forall l a, value_out_loop l a = Returns v -> v = a + amounts l).
  { induction l as [|o l IH]; intros a H; [injection H as <-; autorewrite with amounts; lia|]. cbn in H. destruct (add_int64 a (nValue o)) eqn:E; [|discriminate].
    apply add_int64_value in E as ->. destruct (_ || _); [discriminate|]. apply IH in H. autorewrite with amounts. lia. }
  destruct (value_out_loop (vout tx) 0) eqn:E; [|discriminate|discriminate]. intros [= ->]. now apply G in E.
Qed.

(** ** Maturity *)

(** A block of the transaction at [pos]. *)
Definition holds_pos (pos : CDiskTxPos) (x : positive * CBlockIndex) : bool := (nBlockPos x.2 =? pos_nBlockPos pos) && (nFile x.2 =? pos_nFile pos).

(** The loop on the ancestors ends: it looks for the coin in the last [nCoinbaseMaturity] blocks. *)
Lemma mature_loop_ok h nCoinbaseMaturity pos nHeight0 fuel q l :
  heap_ok h -> path h q l -> (length l < fuel)%nat ->
  mature_loop h nCoinbaseMaturity fuel nHeight0 q pos =
  unless (negb (existsb (holds_pos pos) (take (Z.to_nat (Z.of_nat (length l) - 1 - nHeight0 + nCoinbaseMaturity)) l))) 0 (Accepted tt).
Proof.
  intros ok P. revert fuel. induction P as [|a b l Hb P IH]; intros fuel L; [destruct fuel; [easy|]; now rewrite take_nil|].
  pose proof (path_height h ok (Some a) a b l (path_block h a b l Hb P)) as Hh. destruct fuel as [|fuel]; [easy|].
  cbn [mature_loop deref mbind option_bind]. rewrite Hb. cbn [must mbind verdict_bind]. rewrite Hh. cbn [length] in *.
  destruct (Z.ltb_spec (nHeight0 - Z.of_nat (length l)) nCoinbaseMaturity) as [M|M].
  - replace (Z.to_nat _) with (S (Z.to_nat (Z.of_nat (length l) - 1 - nHeight0 + nCoinbaseMaturity))) by lia. cbn [negb take existsb].
    unfold holds_pos at 1. cbn [snd]. destruct (_ && _); [reflexivity|]. apply IH. lia.
  - replace (Z.to_nat _) with 0%nat by lia. reflexivity.
Qed.
Lemma check_mature_ok h nCoinbaseMaturity pindex txindex txPrev l :
  heap_ok h -> path h pindex l ->
  check_mature h nCoinbaseMaturity pindex txindex txPrev =
  unless (negb ((IsCoinBase txPrev || IsCoinStake txPrev) && existsb (holds_pos (tx_pos txindex)) (take (Z.to_nat nCoinbaseMaturity) l))) 0 (Accepted tt).
Proof.
  intros ok P. unfold check_mature. destruct (_ || _); [|reflexivity]. cbn [andb]. pose proof (walk_fuel_ok h ok _ _ P) as W.
  destruct P as [|a b l Hb P]; [now rewrite take_nil|]. cbn [deref mbind option_bind]. rewrite Hb.
  pose proof (path_height h ok (Some a) a b l (path_block h a b l Hb P)) as Hh.
  rewrite (mature_loop_ok _ _ _ _ _ _ ((a, b) :: l) ok); [|now constructor|exact W]. do 5 f_equal. rewrite Hh. cbn [length]. lia.
Qed.

(** ** ConnectInputs *)

Section Connect.
  Variable p : platform.
  Variable SHA256 : list Z -> list Z.
  Variable Verify : list Z -> list Z -> list Z -> bool.
  Context {BIGNUM : Type} {ops : BN_ops BIGNUM}.
  Variables RIPEMD160 SHA1 : list Z -> list Z.
  Variable disk : CDiskTxPos -> option CTransaction.
  Variable mempool : gmap (list Z) CTransaction.
  Variable db : txdb.

(** The copies that were fetched are those of the index. *)
Definition agree (inputs : MapPrevTx) (E : txdb) : Prop := forall k i t, inputs !! k = Some (i, t) -> E !! k = Some i.

Lemma fetch_agree pool k i t : fetch disk mempool db pool true k = Accepted (i, t) -> (pool ∪ db) !! k = Some i.
Proof.
  unfold fetch. intros H. rewrite lookup_union. destruct (pool !! k ∪ db !! k) as [j|]; [|discriminate].
  destruct (if decide _ then _ else _); [|discriminate]. congruence.
Qed.
Lemma fetch_loop_agree pool tx vin inputs r :
  fetch_loop disk mempool db pool true tx vin inputs = Accepted r -> agree inputs (pool ∪ db) -> agree r (pool ∪ db).
Proof.
  revert inputs. induction vin as [|txin vin IH]; intros inputs H A; [injection H as <-; exact A|]. cbn [fetch_loop] in H.
  destruct (is_anon tx txin); [now apply (IH inputs)|]. destruct (inputs !! _) eqn:E; [now apply (IH inputs)|]. accepted H.
  apply (IH _ H). intros k i t K. destruct (decide (hash (prevout txin) = k)) as [<-|N].
  - rewrite lookup_insert_eq in K. injection K as ->. now apply (fetch_agree pool _ i t).
  - rewrite lookup_insert_ne in K by exact N. now apply (A k i t).
Qed.
Lemma FetchInputs_agree pool fBlock fMiner tx inputs :
  fBlock || fMiner = true -> FetchInputs disk mempool db pool fBlock fMiner tx = Accepted inputs -> agree inputs (pool ∪ db).
Proof.
  intros U. unfold FetchInputs. destruct (IsCoinBase tx); [intros [= <-] k i t K; now rewrite lookup_empty in K|]. rewrite U. intros H. accepted H. accepted H.
  injection H as <-. apply (fetch_loop_agree _ _ _ _ _ E). intros k i t K. now rewrite lookup_empty in K.
Qed.

(** What the first loop checks of an input. *)
Definition input_checked (h : heap) (nCoinbaseMaturity : Z) (tx : CTransaction) (pindex : pointer) (inputs : MapPrevTx) (i : CTxIn) : Prop :=
  is_anon tx i = false -> exists txindex txPrev, inputs !! hash (prevout i) = Some (txindex, txPrev) /\
    out_of_range i txindex txPrev = false /\ check_mature h nCoinbaseMaturity pindex txindex txPrev = Accepted tt /\ nTime txPrev <= nTime tx.

Lemma check_loop_ok h nCoinbaseMaturity tx pindex inputs vin acc r :
  check_loop h nCoinbaseMaturity tx pindex inputs vin acc = Accepted r -> MoneyRange acc = true ->
  Forall (input_checked h nCoinbaseMaturity tx pindex inputs) vin /\
  exists outs, outputs_of inputs (coins_of tx vin) outs /\ r = acc + amounts outs /\ MoneyRange r = true /\ Forall (fun o => MoneyRange (nValue o) = true) outs.
Proof.
  revert acc. induction vin as [|i vin IH]; intros acc H R.
  { injection H as <-. split; [constructor|]. exists []; splits; [constructor|autorewrite with amounts; lia|exact R|constructor]. }
  rewrite coins_of_cons. cbn [check_loop] in H. destruct (is_anon tx i) eqn:An.
  { apply IH in H as [H K]; [|exact R]. split; [|exact K]. constructor; [|exact H]. intros N. congruence. }
  accepted H. destruct a as [txindex txPrev]. apply accepted_must in E. accepted H. accepted H. destruct a. accepted H. accepted H. accepted H. accepted H.
  apply accepted_must in E1. apply accepted_must, add_int64_value in E2 as ->.
  apply andb_true_iff in C1 as [C1 C2]. apply IH in H as (K & outs & O & -> & M & F); [|exact C2]. split.
  - constructor; [|exact K]. intros _. exists txindex, txPrev. apply negb_true_iff in C, C0. apply Z.ltb_ge in C0. now splits.
  - match goal with Y : _ !! _ = Some ?y |- _ => exists (y :: outs) end.
    splits; [constructor; [|exact O]|autorewrite with amounts; lia|exact M|now constructor]. unfold prev_out. rewrite E. exact E1.
Qed.

Section Loop.
  Variable CheckAnonInputs : CTransaction -> bool * Z.
  Variables nBestHeight nTotalBlocksEstimate : Z.
  Variables fBlock fMiner : bool.
  Variable flags : Z.
  Variable fValidateSig : bool.
  Variable tx : CTransaction.
  Variable pos : CDiskTxPos.
  Hypothesis use : fBlock || fMiner = true.
  Hypothesis pos_ok : CDiskTxPos_IsNull pos = false.
  Abbreviation spend_loop := (spend_loop (ops := ops) p SHA256 Verify RIPEMD160 SHA1 nBestHeight nTotalBlocksEstimate fBlock fMiner flags fValidateSig tx pos).
  Abbreviation VerifySignature := (VerifySignature (ops := ops) p SHA256 Verify RIPEMD160 SHA1).

Lemma spend_loop_ok i vin inputs pool inputs' pool' :
  Forall coin_ok (coins_of tx vin) -> agree inputs (pool ∪ db) -> spend_loop i vin inputs pool = Accepted (inputs', pool') ->
  pool' ∪ db = spend_coins pos (coins_of tx vin) (pool ∪ db) /\ NoDup (coins_of tx vin) /\ Forall (unspent (pool ∪ db)) (coins_of tx vin).
Proof.
  revert i inputs pool. induction vin as [|txin vin IH]; intros i inputs pool F A H.
  { injection H as <- <-. split; [reflexivity|]. split; constructor. }
  rewrite coins_of_cons in *. cbn [Coins.spend_loop] in H. destruct (is_anon tx txin) eqn:An; [now apply (IH (S i) inputs pool F A)|].
  apply Forall_cons in F as [Fo F]. accepted H. destruct a as [txindex txPrev]. apply accepted_must in E. accepted H. apply accepted_must in E0.
  accepted H. accepted H. clear a0 E1. rewrite use in H. set (i1 := with_spent _ _ _) in H. set (o := prevout txin) in *.
  pose proof (A _ _ _ E) as Eo. assert (E1 : (<[hash o := i1]> pool) ∪ db = spend_coin pos o (pool ∪ db)).
  { rewrite <- insert_union_l. apply map_eq. intros k. rewrite lookup_spend_coin. case_decide as D; [|now rewrite lookup_insert_ne].
    subst k. rewrite lookup_insert_eq, Eo. reflexivity. }
  apply IH in H as (H1 & H2 & H3); [|exact F|].
  - rewrite E1 in *. split; [exact H1|]. split.
    + constructor; [|exact H2]. intros K. rewrite Forall_forall in H3. now apply (spend_not_unspent pos o (pool ∪ db) pos_ok), H3.
    + constructor; [now exists txindex, a|]. rewrite Forall_forall in *. intros o' Ho'. apply (unspent_spend pos o o'); auto.
  - rewrite E1. intros k j t K. rewrite lookup_spend_coin. case_decide as D.
    + subst k. rewrite lookup_insert_eq in K. injection K as <- <-. now rewrite Eo.
    + rewrite lookup_insert_ne in K by exact D. now apply (A k j t).
Qed.

(** The transactions fetched stay the same. *)
Lemma spend_loop_signed i vin inputs pool r :
  fValidateSig && negb (fBlock && (nBestHeight <? nTotalBlocksEstimate)) = true -> spend_loop i vin inputs pool = Accepted r ->
  forall j txin, vin !! j = Some txin -> is_anon tx txin = false ->
  exists prev, inputs !! hash (prevout txin) = Some prev /\ VerifySignature prev.2 tx (i + j) flags 0 = Done tt.
Proof.
  intros V. revert i inputs pool. induction vin as [|x vin IH]; intros i inputs pool H j txin Hj An; [easy|]. cbn [Coins.spend_loop] in H.
  destruct j as [|j].
  - injection Hj as ->. rewrite An in H. accepted H. destruct a as [txindex txPrev]. apply accepted_must in E. accepted H. accepted H. accepted H.
    rewrite V in E1. exists (txindex, txPrev). split; [exact E|]. rewrite Nat.add_0_r. cbn. revert E1. unfold check_signature.
    destruct (VerifySignature txPrev tx i flags 0) as [[]| |]; [reflexivity| |intros X; discriminate X]. destruct (negb ((flags .& STANDARD_NOT_MANDATORY_VERIFY_FLAGS) =? 0)); [|intros X; discriminate X].
    destruct (VerifySignature txPrev tx i (flags .& _) 0); intros X; discriminate X.
  - cbn in Hj. replace (i + S j)%nat with (S i + j)%nat by lia. destruct (is_anon tx x); [now apply (IH (S i) _ _ H)|].
    accepted H. destruct a as [txindex txPrev]. apply accepted_must in E. accepted H. accepted H. accepted H.
    destruct (IH _ _ _ H j txin Hj An) as (prev & Hp & S). destruct (decide (hash (prevout x) = hash (prevout txin))) as [Eq|Ne].
    + rewrite Eq, lookup_insert_eq in Hp. injection Hp as <-. rewrite Eq in E. now exists (txindex, txPrev).
    + rewrite lookup_insert_ne in Hp by exact Ne. now exists prev.
Qed.
End Loop.
End Connect.
