(* ===== verification/BlocksProof.v ===== *)
(** * Lemmas on connecting and disconnecting the transactions of a block *)

From stdpp Require Import gmap list.
From Stdlib Require Import ZArith Lia.
From S2P Require Import Prelude SphTypes Uint256 Serialize Transaction Merkle BigNum Chain Consensus Kernel Script Interpreter Coins Blocks CoinsProof.
Local Open Scope Z_scope.

(** The coins a transaction takes from the index. *)
Definition spent_by (tx : CTransaction) : list COutPoint := if IsCoinBase tx then [] else coins tx.
Definition tx_coins_ok (tx : CTransaction) : Prop := Forall coin_ok (spent_by tx).

Lemma coins_ok tx : tx_coins_ok tx -> IsCoinBase tx = false -> Forall coin_ok (coins tx).
Proof. unfold tx_coins_ok, spent_by. intros H E. now rewrite E in H. Qed.

Section Connect.
  Variable p : platform.
  Variable SHA256 : list Z -> list Z.
  Variable Verify : list Z -> list Z -> list Z -> bool.
  Context {BIGNUM : Type} {ops : BN_ops BIGNUM}.
  Variables RIPEMD160 SHA1 : list Z -> list Z.
  Variable disk : CDiskTxPos -> option CTransaction.
  Variable mempool : gmap (list Z) CTransaction.
  Variable CheckAnonInputs : CTransaction -> bool * Z.
  Variable h : heap.
  Variables nCoinbaseMaturity nBestHeight nTotalBlocksEstimate : Z.
  Variable db : txdb.

(** What the inputs bring, with the sum of the anonymous ones. *)
Definition total_in (tx : CTransaction) (outs : list CTxOut) : Z :=
  amounts outs + (if nVersion tx =? ANON_TXN_VERSION then (CheckAnonInputs tx).2 else 0).

Lemma banned_accepted d m r : banned d m = Accepted r -> m = Accepted r.
Proof. now destruct m. Qed.

Lemma check_fees_ok fBlock tx v r :
  check_fees CheckAnonInputs fBlock tx v = Accepted r -> IsCoinStake tx = false ->
  amounts (vout tx) + GetMinFee tx 1 GMF_BLOCK 0 <= v + (if nVersion tx =? ANON_TXN_VERSION then (CheckAnonInputs tx).2 else 0) /\
  amounts (vout tx) <= v + (if nVersion tx =? ANON_TXN_VERSION then (CheckAnonInputs tx).2 else 0).
Proof.
  intros H S. unfold check_fees in H. accepted H. apply banned_accepted in H. rewrite S in H. accepted H. apply value_out_ok in E0 as ->.
  assert (V : a = v + (if nVersion tx =? ANON_TXN_VERSION then (CheckAnonInputs tx).2 else 0)).
  { destruct (nVersion tx =? ANON_TXN_VERSION); [now apply accepted_must, add_int64_value in E|]. injection E as <-. lia. }
  rewrite <- V. do 4 accepted H. apply negb_true_iff, Z.ltb_ge in C, C0, C1. lia.
Qed.

Section Inputs.
  Variables fBlock fMiner : bool.
  Variable flags : Z.
  Variable fValidateSig : bool.
  Abbreviation ConnectInputs := (ConnectInputs (ops := ops) p SHA256 Verify RIPEMD160 SHA1 CheckAnonInputs h nCoinbaseMaturity nBestHeight
    nTotalBlocksEstimate fBlock fMiner flags fValidateSig).

(** A transaction that is accepted: its coins, its amounts, its signatures. *)
Record connected (tx : CTransaction) (inputs : MapPrevTx) (pool : txdb) (pos : CDiskTxPos) (pindex : pointer) (pool' : txdb) (outs : list CTxOut) : Prop := {
  connected_checked : Forall (input_checked h nCoinbaseMaturity tx pindex inputs) (vin tx);
  connected_index : pool' ∪ db = spend_coins pos (coins tx) (pool ∪ db);
  connected_distinct : NoDup (coins tx);
  connected_unspent : Forall (unspent (pool ∪ db)) (coins tx);
  connected_outputs : outputs_of inputs (coins tx) outs;
  connected_amounts : MoneyRange (amounts outs) = true /\ Forall (fun o => MoneyRange (nValue o) = true) outs;
  connected_fee : IsCoinStake tx = false ->
    amounts (vout tx) <= total_in tx outs /\ amounts (vout tx) + GetMinFee tx 1 GMF_BLOCK 0 <= total_in tx outs;
  connected_signed : fValidateSig && negb (fBlock && (nBestHeight <? nTotalBlocksEstimate)) = true ->
    forall i txin, vin tx !! i = Some txin -> is_anon tx txin = false ->
    exists prev, inputs !! hash (prevout txin) = Some prev /\
      VerifySignature (ops := ops) p SHA256 Verify RIPEMD160 SHA1 prev.2 tx i flags 0 = Done tt
}.

Lemma ConnectInputs_ok tx inputs pool pos pindex pool' :
  fBlock || fMiner = true -> CDiskTxPos_IsNull pos = false -> IsCoinBase tx = false -> Forall coin_ok (coins tx) ->
  agree inputs (pool ∪ db) -> ConnectInputs tx inputs pool pos pindex = Accepted pool' ->
  exists outs, connected tx inputs pool pos pindex pool' outs.
Proof.
  intros U P CB F A H. unfold Coins.ConnectInputs in H. rewrite CB in H. accepted H. accepted H. accepted H. injection H as <-.
  destruct a0 as [inputs' pool']. apply check_loop_ok in E as (K & outs & O & -> & M & G); [|reflexivity]. exists outs.
  destruct (spend_loop_ok p SHA256 Verify RIPEMD160 SHA1 db nBestHeight nTotalBlocksEstimate fBlock fMiner flags fValidateSig tx pos U P
    _ _ _ _ _ _ F A E0) as (I & N & S).
  split; [exact K|exact I|exact N|exact S|exact O|now split| |].
  - intros K'. destruct (check_fees_ok _ _ _ _ E1 K') as [L1 L2]. unfold total_in. split; lia.
  - intros V i txin Hi An. eapply (spend_loop_signed p SHA256 Verify RIPEMD160 SHA1) with (i := 0%nat) (j := i); eassumption.
Qed.
End Inputs.
End Connect.

(** ** Coins that are restored *)

Lemma spend_coin_comm a b o o' E : coin_ok o -> coin_ok o' -> o <> o' -> spend_coin a o (spend_coin b o' E) = spend_coin b o' (spend_coin a o E).
Proof.
  intros K K' N. apply map_eq. intros k. rewrite !lookup_spend_coin. repeat case_decide; try reflexivity. destruct (E !! k) as [i|]; [|reflexivity]. cbn.
  unfold with_spent. cbn. do 2 f_equal. apply list_insert_insert_ne. intros Q. apply N, coin_eq; auto. congruence.
Qed.
Lemma spend_coins_comm a b o os E :
  coin_ok o -> Forall coin_ok os -> o ∉ os -> spend_coin a o (spend_coins b os E) = spend_coins b os (spend_coin a o E).
Proof.
  intros K F. revert E. induction F as [|o' os K' F IH]; intros E N; [easy|]. apply not_elem_of_cons in N as [N1 N2]. cbn.
  now rewrite IH, spend_coin_comm.
Qed.
Lemma spend_coin_twice a b o E : spend_coin a o (spend_coin b o E) = spend_coin a o E.
Proof.
  apply map_eq. intros k. rewrite !lookup_spend_coin. case_decide; [|reflexivity]. destruct (E !! k) as [i|]; [|reflexivity]. cbn.
  unfold with_spent. cbn. do 2 f_equal. apply list_insert_insert_eq.
Qed.

(** The places that are null are the place [SetNull] writes. *)
Definition canonical (E : txdb) : Prop := forall k i q, E !! k = Some i -> q ∈ vSpent i -> CDiskTxPos_IsNull q = true -> q = CDiskTxPos_null.

Lemma spend_null o E : canonical E -> unspent E o -> spend_coin CDiskTxPos_null o E = E.
Proof.
  intros C (i & q & Hi & Hq & N). apply map_eq. intros k. rewrite lookup_spend_coin. case_decide as D; [|reflexivity]. subst k. rewrite Hi. cbn. f_equal.
  destruct i as [ps sp]. unfold with_spent. cbn in *. f_equal. apply list_insert_id. rewrite Hq. f_equal.
  apply (C _ _ q Hi); [cbn; now apply list_elem_of_lookup_2 in Hq|exact N].
Qed.
Lemma unspend_coins pos os E :
  Forall coin_ok os -> NoDup os -> canonical E -> Forall (unspent E) os -> spend_coins CDiskTxPos_null os (spend_coins pos os E) = E.
Proof.
  intros F N C U. induction F as [|o os K F IH]; [easy|]. apply NoDup_cons in N as [N1 N2]. apply Forall_cons in U as [U1 U2]. cbn.
  rewrite spend_coins_comm by assumption. rewrite spend_coin_twice, spend_null by assumption. now apply IH.
Qed.

Lemma spend_coin_insert pos o k i E : hash o <> k -> spend_coin pos o (<[k := i]> E) = <[k := i]> (spend_coin pos o E).
Proof.
  intros N. apply map_eq. intros x. rewrite lookup_spend_coin. case_decide as D.
  - subst x. rewrite !lookup_insert_ne by congruence. now rewrite lookup_spend_coin, decide_True.
  - destruct (decide (k = x)) as [->|M]; [now rewrite !lookup_insert_eq|]. rewrite !lookup_insert_ne by exact M. now rewrite lookup_spend_coin, decide_False.
Qed.
Lemma spend_coins_insert pos os k i E : Forall (fun o => hash o <> k) os -> spend_coins pos os (<[k := i]> E) = <[k := i]> (spend_coins pos os E).
Proof. intros F. revert E. induction F as [|o os N F IH]; intros E; [easy|]. cbn. now rewrite spend_coin_insert. Qed.

(** An output that is entered. *)
Definition in_range (E : txdb) (o : COutPoint) : Prop := exists i, E !! hash o = Some i /\ 0 <= n o < Z.of_nat (length (vSpent i)).

Lemma in_range_spend pos o o' E : in_range E o' -> in_range (spend_coin pos o E) o'.
Proof.
  intros (i & Hi & R). unfold in_range. rewrite lookup_spend_coin, Hi. case_decide; [|now exists i]. cbn. eexists. split; [reflexivity|]. cbn. now rewrite length_insert.
Qed.
Lemma in_range_spends pos os o' E : in_range E o' -> in_range (spend_coins pos os E) o'.
Proof. revert E. induction os as [|o os IH]; intros E R; [exact R|]. cbn. now apply IH, in_range_spend. Qed.
Lemma unspent_in_range E o : coin_ok o -> unspent E o -> in_range E o.
Proof. intros K (i & q & Hi & Hq & _). exists i. split; [exact Hi|]. apply lookup_lt_Some in Hq. unfold coin_ok in K. lia. Qed.
Lemma in_range_insert k i o E : hash o <> k -> in_range E o -> in_range (<[k := i]> E) o.
Proof. intros N (j & Hj & R). exists j. now rewrite lookup_insert_ne. Qed.

Lemma unspend_loop_ok vin E :
  Forall (in_range E) (map prevout vin) -> unspend_loop (fun _ _ => true) vin E = Accepted (spend_coins CDiskTxPos_null (map prevout vin) E).
Proof.
  revert E. induction vin as [|i vin IH]; intros E F; [reflexivity|]. cbn [map] in F. apply Forall_cons in F as [(j & Hj & R) F]. cbn [unspend_loop map spend_coins].
  rewrite Hj. replace (_ <=? _) with false by (symmetry; apply Z.leb_gt; lia). cbn [negb unless].
  assert (Q : <[hash (prevout i) := with_spent (Z.to_nat (n (prevout i))) CDiskTxPos_null j]> E = spend_coin CDiskTxPos_null (prevout i) E).
  { apply map_eq. intros k. rewrite lookup_spend_coin. case_decide as D; [subst k; now rewrite lookup_insert_eq, Hj|now rewrite lookup_insert_ne]. }
  rewrite Q. apply IH. apply (Forall_impl _ _ _ F). intros o. apply in_range_spend.
Qed.

(** ** One transaction after the other *)

Section Block.
  Variable p : platform.
  Variable SHA256 : list Z -> list Z.
  Context {BIGNUM : Type} {ops : BN_ops BIGNUM}.
  Context {tx_serializable : Serializable CTransaction}.
  Variable Verify : list Z -> list Z -> list Z -> bool.
  Variables RIPEMD160 SHA1 : list Z -> list Z.
  Variable disk : CDiskTxPos -> option CTransaction.
  Variable mempool : gmap (list Z) CTransaction.
  Variable CheckAnonInputs : CTransaction -> bool * Z.
  Variable h : heap.
  Variables nCoinbaseMaturity nBestHeight nTotalBlocksEstimate : Z.
  Variable db : txdb.
  Variable pindex : positive.
  Variable entry : CBlockIndex.
  Variable fJustCheck : bool.
  Hypothesis file_ok : nFile entry <> 0xFFFFFFFF.
  Abbreviation connect_tx := (connect_tx (ops := ops) p SHA256 Verify RIPEMD160 SHA1 disk mempool CheckAnonInputs h nCoinbaseMaturity
    nBestHeight nTotalBlocksEstimate db pindex entry fJustCheck).
  Abbreviation connect_txs := (connect_txs (ops := ops) p SHA256 Verify RIPEMD160 SHA1 disk mempool CheckAnonInputs h nCoinbaseMaturity
    nBestHeight nTotalBlocksEstimate db pindex entry fJustCheck).
  Abbreviation GetHash := (GetHash p SHA256).

(** The index as the transactions see it. *)
Definition seen (t : tally) : txdb := mapQueuedChanges t ∪ db.
Definition pos_of (t : tally) : CDiskTxPos := DiskTxPos (nFile entry) (nBlockPos entry) (t_nTxPos t).
Definition unspendable (outs : list CTxOut) : list CTxOut := filter (fun o => Script.IsUnspendable (scriptPubKey o) = true) outs.
Definition ordinary (tx : CTransaction) : bool := negb (IsCoinBase tx) && negb (IsCoinStake tx).

Record tx_connected (tx : CTransaction) (t t' : tally) (brought : Z) : Prop := {
  txc_fresh : forall o, hash o = GetHash tx -> ~ unspent db o;
  txc_index : seen t' = <[GetHash tx := CTxIndex_of (pos_of t) (length (vout tx))]> (spend_coins (pos_of t) (spent_by tx) (seen t));
  txc_distinct : NoDup (spent_by tx);
  txc_unspent : Forall (unspent (seen t)) (spent_by tx);
  txc_out : t_nValueOut t' = t_nValueOut t + amounts (vout tx);
  txc_in : t_nValueIn t' = t_nValueIn t + brought;
  txc_fees : t_nFees t' = t_nFees t + (if ordinary tx then brought - amounts (vout tx) else 0);
  txc_stake : t_nStakeReward t' = if negb (IsCoinBase tx) && IsCoinStake tx then amounts (vout tx) - brought else t_nStakeReward t;
  txc_burned : t_nAmountBurned t' = t_nAmountBurned t + (if IsCoinBase tx then 0 else amounts (unspendable (vout tx)));
  txc_coinbase : IsCoinBase tx = true -> brought = 0;
  txc_brought : IsCoinBase tx = false -> exists inputs queued outs,
    FetchInputs disk mempool db (mapQueuedChanges t) true false tx = Accepted inputs /\
    connected p SHA256 Verify RIPEMD160 SHA1 CheckAnonInputs h nCoinbaseMaturity nBestHeight nTotalBlocksEstimate db true SCRIPT_VERIFY_NOCACHE true
      tx inputs (mapQueuedChanges t) (pos_of t) (Some pindex) queued outs /\
    brought = total_in CheckAnonInputs tx outs;
  txc_paid : ordinary tx = true -> amounts (vout tx) + GetMinFee tx 1 GMF_BLOCK 0 <= brought
}.

Lemma pos_of_ok t : CDiskTxPos_IsNull (pos_of t) = false.
Proof. now apply Z.eqb_neq. Qed.

Lemma fresh_of_check hashTx : match db !! hashTx with Some old => negb (existsb CDiskTxPos_IsNull (vSpent old)) | None => true end = true ->
  forall o, hash o = hashTx -> ~ unspent db o.
Proof.
  intros C o <- (i & q & Hi & Hq & N). rewrite Hi in C. apply negb_true_iff in C.
  assert (existsb CDiskTxPos_IsNull (vSpent i) = true); [|congruence]. apply existsb_exists. exists q. split; [|exact N].
  apply list_elem_of_In. now apply list_elem_of_lookup_2 in Hq.
Qed.

Lemma value_in_ok tx inputs v :
  IsCoinBase tx = false -> value_in CheckAnonInputs tx inputs = Accepted v ->
  exists outs, outputs_of inputs (coins tx) outs /\ v = total_in CheckAnonInputs tx outs.
Proof.
  intros CB H. unfold value_in in H. accepted H. unfold GetValueIn in E. rewrite CB in E. apply value_in_loop_ok in E as (outs & O & ->).
  exists outs. split; [exact O|]. unfold total_in. destruct (nVersion tx =? ANON_TXN_VERSION); [|injection H as <-; lia].
  destruct (CheckAnonInputs tx) as [ok s]. accepted H. apply accepted_must, add_int64_value in H as ->. cbn. lia.
Qed.

Lemma burned_ok outs acc r : burned outs acc = Accepted r -> r = acc + amounts (unspendable outs).
Proof.
  revert acc. induction outs as [|o outs IH]; intros acc H; [injection H as <-; cbn; lia|]. cbn [burned] in H. accepted H. apply IH in H as ->.
  unfold unspendable. rewrite filter_cons. destruct (Script.IsUnspendable _).
  - apply accepted_must, add_int64_value in E as ->. rewrite decide_True by reflexivity. autorewrite with amounts. fold (unspendable outs). lia.
  - injection E as <-. rewrite decide_False by easy. reflexivity.
Qed.

Lemma connect_tx_ok tx t t' : tx_coins_ok tx -> connect_tx tx t = Accepted t' -> exists brought, tx_connected tx t t' brought.
Proof.
  intros F H. unfold Blocks.connect_tx in H. accepted H. pose proof (fresh_of_check _ C) as Fresh. accepted H. accepted H. cbv zeta in H. accepted H.
  injection H as <-. destruct (IsCoinBase tx) eqn:CB.
  - accepted E0. apply value_out_ok in E1 as ->. accepted E0. apply accepted_must, add_int64_value in E1 as ->. injection E0 as <-.
    exists 0. split; unfold ordinary, seen, spent_by; rewrite ?CB;
      cbn [mapQueuedChanges t_nFees t_nValueIn t_nValueOut t_nStakeReward t_nAmountBurned negb andb spend_coins]; try exact Fresh; try lia; try easy.
    + now rewrite <- insert_union_l.
    + constructor.
  - apply accepted_then in E0 as (inputs & EI & E0). apply accepted_then in E0 as (k & _ & E0). cbv zeta in E0. apply accepted_unless in E0 as [_ E0].
    apply accepted_then in E0 as (vi & EV & E0). apply accepted_then in E0 as (vo & EO & E0). apply accepted_then in E0 as (ni & ENI & E0).
    apply accepted_then in E0 as (no & ENO & E0). apply accepted_then in E0 as (nb & EB & E0). apply accepted_then in E0 as (fs & EFS & E0).
    apply accepted_then in E0 as (sr & ESR & E0). apply accepted_then in E0 as (queued & EQ & E0). injection E0 as <-.
    apply value_in_ok in EV as (outs & O & ->); [|exact CB]. apply value_out_ok in EO as ->. apply burned_ok in EB as ->.
    apply accepted_must, add_int64_value in ENI as ->, ENO as ->. pose proof EI as Fetched. apply FetchInputs_agree in EI; [|reflexivity].
    eapply (ConnectInputs_ok p SHA256 Verify RIPEMD160 SHA1) with (disk := disk) (db := db) in EQ as (outs' & K);
      [|reflexivity|apply pos_of_ok|exact CB|now apply coins_ok|exact EI].
    assert (outs' = outs) as -> by (eapply outputs_of_unique; [eapply connected_outputs; exact K|exact O]).
    exists (total_in CheckAnonInputs tx outs). pose proof K as [_ K1 K2 K3 K4 K5 K6 K7].
    split; unfold ordinary, seen, spent_by; rewrite ?CB;
      cbn [mapQueuedChanges t_nFees t_nValueIn t_nValueOut t_nStakeReward t_nAmountBurned negb andb]; try easy.
    + rewrite <- insert_union_l. f_equal. exact K1.
    + destruct (IsCoinStake tx); [injection EFS as <-; cbn; lia|]. apply accepted_then in EFS as (fee & EF & EFS).
      apply accepted_must, add_int64_value in EF as ->, EFS as ->. cbn. lia.
    + destruct (IsCoinStake tx); [apply accepted_must, add_int64_value in ESR as ->; lia|now injection ESR].
    + intros _. exists inputs, queued, outs. now splits.
    + intros S. apply negb_true_iff in S. now apply K6.
Qed.

Inductive run : list CTransaction -> list Z -> tally -> tally -> Prop :=
| run_nil t : run [] [] t t
| run_cons tx vtx b bs t t1 t2 : tx_connected tx t t1 b -> run vtx bs t1 t2 -> run (tx :: vtx) (b :: bs) t t2.

Lemma connect_txs_run vtx t t' : Forall tx_coins_ok vtx -> connect_txs vtx t = Accepted t' -> exists bs, run vtx bs t t'.
Proof.
  intros F. revert t. induction F as [|tx vtx K F IH]; intros t H; [injection H as <-; exists []; constructor|]. cbn [Blocks.connect_txs] in H.
  accepted H. apply connect_tx_ok in E as [b E]; [|exact K]. apply IH in H as [bs H]. exists (b :: bs). eapply run_cons; eassumption.
Qed.

(** ** No coin twice *)

Lemma run_spends vtx bs t t' (P : list (list Z)) (S : list COutPoint) :
  run vtx bs t t' -> Forall tx_coins_ok vtx -> NoDup (map GetHash vtx) -> (forall tx, tx ∈ vtx -> GetHash tx ∉ P) ->
  Forall coin_ok S -> NoDup S -> (forall o, o ∈ S -> ~ unspent (seen t) o) -> (forall o, o ∈ S -> hash o ∈ P \/ unspent db o) ->
  (forall o, coin_ok o -> hash o ∉ P -> unspent (seen t) o -> unspent db o) ->
  NoDup (S ++ concat (map spent_by vtx)) /\ (forall o, o ∈ S ++ concat (map spent_by vtx) -> (hash o ∈ P ++ map GetHash vtx \/ unspent db o) /\ ~ unspent (seen t') o).
Proof.
  intros R. revert P S. induction R as [t|tx vtx b bs t t1 t2 C R IH]; intros P S F N Q Sk Sn Su Sp D.
  { cbn. rewrite !app_nil_r. split; [exact Sn|]. intros o Ho. split; [now apply Sp|now apply Su]. }
  apply Forall_cons in F as [Ft F]. cbn [map] in N. apply NoDup_cons in N as [Nt N]. cbn [map concat]. rewrite !app_assoc, cons_middle, app_assoc.
  set (hx := GetHash tx) in *. assert (Hx : hx ∉ P) by (apply Q; left).
  assert (Ux : forall o, o ∈ spent_by tx -> unspent (seen t) o) by (apply Forall_forall, C).
  assert (Nx : forall o, coin_ok o -> unspent (seen t) o -> hash o <> hx).
  { intros o K U E. apply (txc_fresh _ _ _ _ C o E), D; [exact K|now rewrite E|exact U]. }
  unfold tx_coins_ok in Ft. rewrite Forall_forall in Ft, Sk.
  assert (Seen : forall o, coin_ok o -> unspent (seen t1) o -> hash o <> hx -> (o ∉ spent_by tx) /\ unspent (seen t) o).
  { intros o Ho (i & q & Hi & Hq) E. apply (unspent_spend_coins (pos_of t)); [now apply Forall_forall|exact Ho|apply pos_of_ok|].
    rewrite (txc_index _ _ _ _ C), lookup_insert_ne in Hi by (apply not_eq_sym, E). now exists i, q. }
  apply IH; [exact F|exact N| | | | | |].
  - intros tx' H'. rewrite not_elem_of_app, list_elem_of_singleton. split; [apply Q; now right|]. intros E. apply Nt. rewrite <- E. now apply list_elem_of_fmap_2.
  - apply Forall_app. split; now apply Forall_forall.
  - apply NoDup_app. split; [exact Sn|]. split; [|apply C]. intros o H1 H2. now apply (Su o H1), Ux.
  - intros o Ho U. destruct (decide (hash o = hx)) as [E|E].
    + apply elem_of_app in Ho as [H|H]; [|now apply (Nx o (Ft o H) (Ux o H))].
      destruct (Sp o H) as [Hp|Hd]; [apply Hx; now rewrite <- E|]. now apply (txc_fresh _ _ _ _ C o E).
    + apply elem_of_app in Ho as [H|H].
      * apply (Su o H). now apply (Seen o (Sk o H) U).
      * now destruct (Seen o (Ft o H) U E) as [K _].
  - intros o Ho. apply elem_of_app in Ho as [H|H].
    + destruct (Sp o H) as [Hp|Hd]; [left; apply elem_of_app; now left|now right].
    + destruct (decide (hash o ∈ P)) as [Hp|Hp]; [left; apply elem_of_app; now left|right]. apply D; [now apply Ft|exact Hp|now apply Ux].
  - intros o K Ho U. rewrite not_elem_of_app, list_elem_of_singleton in Ho. destruct Ho as [Ho1 Ho2].
    apply D; [exact K|exact Ho1|]. now apply Seen.
Qed.
(** ** The sums *)

Definition sum (bs : list Z) : Z := foldr Z.add 0 bs.
Definition total_out (vtx : list CTransaction) : Z := sum (map (fun tx => amounts (vout tx)) vtx).

Lemma run_sums vtx bs t t' : run vtx bs t t' -> t_nValueOut t' = t_nValueOut t + total_out vtx /\ t_nValueIn t' = t_nValueIn t + sum bs.
Proof.
  induction 1 as [|tx vtx b bs t t1 t2 C R [IH1 IH2]]; [cbn; lia|]. unfold total_out in *. cbn [map sum foldr].
  rewrite IH1, IH2, (txc_out _ _ _ _ C), (txc_in _ _ _ _ C). unfold sum. lia.
Qed.
(** Transactions that are neither a coinbase nor a coinstake: what they do not pay out is fees. *)
Lemma run_ordinary vtx bs t t' :
  run vtx bs t t' -> Forall (fun tx => ordinary tx = true) vtx -> t_nFees t' = t_nFees t + sum bs - total_out vtx /\ t_nStakeReward t' = t_nStakeReward t.
Proof.
  induction 1 as [|tx vtx b bs t t1 t2 C R IH]; intros F; [cbn; lia|]. apply Forall_cons in F as [F1 F2]. destruct (IH F2) as [IH1 IH2].
  unfold total_out in *. cbn [map sum foldr]. rewrite IH1, IH2, (txc_fees _ _ _ _ C), (txc_stake _ _ _ _ C), F1. unfold ordinary in F1.
  apply andb_true_iff in F1 as [-> F1]. apply negb_true_iff in F1. rewrite F1. cbn [andb]. unfold sum. lia.
Qed.

(** ** The block disconnected *)

(** A transaction whose inputs are all coins. *)
Definition plain (tx : CTransaction) : Prop := IsCoinBase tx = false -> Forall (fun i => is_anon tx i = false) (vin tx).

Lemma plain_coins tx : plain tx -> IsCoinBase tx = false -> coins tx = map prevout (vin tx).
Proof.
  intros P C. specialize (P C). unfold coins, coins_of. f_equal. induction (vin tx) as [|i l IH]; [easy|]. apply Forall_cons in P as [P1 P2].
  rewrite filter_cons_True by exact P1. f_equal. now apply IH.
Qed.
Lemma disconnect_loop_app ok a b E :
  disconnect_loop p SHA256 ok (a ++ b) E = E ← disconnect_loop p SHA256 ok a E; disconnect_loop p SHA256 ok b E.
Proof. revert E. induction a as [|tx a IH]; intros E; [easy|]. cbn [app disconnect_loop]. destruct (DisconnectInputs p SHA256 ok tx E); try easy. apply IH. Qed.

Lemma spend_coins_canonical pos os E : CDiskTxPos_IsNull pos = false -> canonical E -> canonical (spend_coins pos os E).
Proof.
  intros P. revert E. induction os as [|o os IH]; intros E C; [exact C|]. cbn. apply IH. intros k i q Hi Hq N. rewrite lookup_spend_coin in Hi.
  case_decide; [|now apply (C k i)]. destruct (E !! k) as [j|] eqn:Ej; [|easy]. cbn in Hi. injection Hi as <-. cbn in Hq.
  apply list_elem_of_lookup in Hq as [m Hq]. apply list_lookup_insert_Some in Hq as [(_ & <- & _)|(_ & Hq)]; [congruence|].
  apply (C k j); [exact Ej|now apply list_elem_of_lookup_2 in Hq|exact N].
Qed.
Lemma CTxIndex_of_canonical pos m k E : canonical E -> canonical (<[k := CTxIndex_of pos m]> E).
Proof.
  intros C x i q Hi Hq N. destruct (decide (k = x)) as [->|M]; [|rewrite lookup_insert_ne in Hi by exact M; now apply (C x i)].
  rewrite lookup_insert_eq in Hi. injection Hi as <-. cbn in Hq. apply list_elem_of_In in Hq. now apply repeat_spec in Hq.
Qed.

Lemma disconnect_tx tx t t' b :
  tx_coins_ok tx -> plain tx -> canonical (seen t) -> seen t !! GetHash tx = None -> tx_connected tx t t' b ->
  DisconnectInputs p SHA256 (fun _ _ => true) tx (seen t') = Accepted (seen t).
Proof.
  intros F P C N K. unfold DisconnectInputs. rewrite (txc_index _ _ _ _ K). set (i := CTxIndex_of _ _).
  pose proof (txc_unspent _ _ _ _ K) as U. pose proof (txc_distinct _ _ _ _ K) as D. unfold tx_coins_ok, spent_by in *.
  destruct (IsCoinBase tx) eqn:CB; [cbn; now rewrite delete_insert_id|].
  assert (Ne : Forall (fun o => hash o <> GetHash tx) (coins tx)).
  { apply (Forall_impl _ _ _ U). intros o (j & q & Hj & _) E. rewrite E in Hj. congruence. }
  rewrite unspend_loop_ok; rewrite <- (plain_coins tx P CB).
  - cbn. f_equal. rewrite spend_coins_insert by exact Ne. rewrite unspend_coins by assumption. now apply delete_insert_id.
  - rewrite Forall_forall in *. intros o Ho. apply in_range_insert; [now apply Ne|]. apply in_range_spends, unspent_in_range; [now apply F|now apply U].
Qed.

Lemma run_undone vtx bs t t' :
  run vtx bs t t' -> Forall tx_coins_ok vtx -> Forall plain vtx -> NoDup (map GetHash vtx) -> Forall (fun tx => seen t !! GetHash tx = None) vtx ->
  canonical (seen t) -> disconnect_loop p SHA256 (fun _ _ => true) (rev vtx) (seen t') = Accepted (seen t).
Proof.
  intros R. induction R as [t|tx vtx b bs t t1 t2 K R IH]; intros F P N Q C; [reflexivity|].
  apply Forall_cons in F as [F1 F2], P as [P1 P2], Q as [Q1 Q2]. cbn [map] in N. apply NoDup_cons in N as [N1 N2]. cbn [rev].
  rewrite disconnect_loop_app, IH; [|exact F2|exact P2|exact N2| |].
  - cbn [mbind verdict_bind disconnect_loop]. erewrite disconnect_tx; [reflexivity|exact F1|exact P1|exact C|exact Q1|exact K].
  - rewrite Forall_forall in *. intros tx' H'. rewrite (txc_index _ _ _ _ K), lookup_insert_ne; [now apply spend_coins_keys, Q2|].
    intros E. apply N1. rewrite E. now apply list_elem_of_fmap_2.
  - rewrite (txc_index _ _ _ _ K). apply CTxIndex_of_canonical, spend_coins_canonical; [apply pos_of_ok|exact C].
Qed.
End Block.

(** ** Lemmas on CheckBlock: the blocks it accepts *)

Lemma unless_iff c d (m : verdict unit) : unless c d m = Accepted tt <-> c = true /\ m = Accepted tt.
Proof. split; [apply accepted_unless|]. now intros [-> ?]. Qed.
Lemma then_iff (m k : verdict unit) : (m ;; k) = Accepted tt <-> m = Accepted tt /\ k = Accepted tt.
Proof. destruct m as [[]|d| |]; cbn; split; try easy; now intros [_ ?]. Qed.
Lemma bind_iff {A} (m : verdict A) (f : A -> verdict unit) : m ≫= f = Accepted tt <-> exists a, m = Accepted a /\ f a = Accepted tt.
Proof. split; [apply accepted_then|]. now intros (a & -> & ?). Qed.
Lemma must_iff {A} (o : option A) a : must o = Accepted a <-> o = Some a.
Proof. split; [apply accepted_must|]. now intros ->. Qed.

Lemma existsb_Forall {A} (f : A -> bool) l : existsb f l = false <-> Forall (fun x => f x = false) l.
Proof. induction l as [|x l IH]; cbn; [easy|]. rewrite orb_false_iff, IH, Forall_cons. easy. Qed.

(** As many elements as the list is long: no duplicate. *)
Section Sets.
  Context `{Countable A}.

Lemma size_list_to_set_le (l : list A) : (base.size (list_to_set l : gset A) <= length l)%nat.
Proof.
  induction l as [|x l IH]; cbn; [now rewrite size_empty|]. rewrite size_union_alt, size_singleton.
  pose proof (subseteq_size (list_to_set l ∖ {[x]} : gset A) (list_to_set l) (subseteq_difference_l _ _ _ (reflexivity _))). lia.
Qed.
Lemma size_list_to_set_NoDup (l : list A) : base.size (list_to_set l : gset A) = length l <-> NoDup l.
Proof.
  split; [|apply size_list_to_set]. induction l as [|x l IH]; intros E; [constructor|]. cbn in E. destruct (decide (x ∈ l)) as [I|I].
  - replace ({[x]} ∪ list_to_set l : gset A) with (list_to_set l : gset A) in E by set_solver. pose proof (size_list_to_set_le l). lia.
  - constructor; [exact I|]. apply IH. rewrite size_union in E by set_solver. rewrite size_singleton in E. lia.
Qed.
End Sets.

Section Check.
  Variable p : platform.
  Variable SHA256 : list Z -> list Z.
  Context {BIGNUM : Type} {ops : BN_ops BIGNUM}.
  Context {tx_serializable : Serializable CTransaction} {block_serializable : Serializable CBlock}.
  Variable fTestNet : bool.
  Variable GetPoWHash : CBlock -> list Z.
  Variable CheckBlockSignature : CBlock -> bool.
  Variable AdjustedTime : Z.
  Variable uninitialised : nat -> nat -> list Z.

Definition tx_valid (nTimeBlock : Z) (i : nat) (tx : CTransaction) : Prop :=
  (exists d, CheckTransaction (uninitialised i) tx = Returns (true, d)) /\ nTime tx <= nTimeBlock.

Lemma check_transactions_iff i vtx nTimeBlock :
  check_transactions uninitialised i vtx nTimeBlock = Accepted tt <-> forall j tx, vtx !! j = Some tx -> tx_valid nTimeBlock (i + j) tx.
Proof.
  revert i. induction vtx as [|tx vtx IH]; intros i; [easy|]. cbn [check_transactions]. transitivity (tx_valid nTimeBlock i tx /\ check_transactions uninitialised (S i) vtx nTimeBlock = Accepted tt).
  - unfold tx_valid. destruct (CheckTransaction (uninitialised i) tx) as [[[] d]| |]; rewrite ?unless_iff, ?negb_true_iff, ?Z.ltb_ge; split; try easy.
    + intros [L R]. split; [|exact R]. split; [now exists d|exact L].
    + now intros [[[d' E] _] _].
    + now intros [[[d' E] _] _].
    + now intros [[[d' E] _] _].
  - rewrite IH. split.
    + intros [V R] [|j] t J; [injection J as <-; now rewrite Nat.add_0_r|]. replace (i + S j)%nat with (S i + j)%nat by lia. now apply R.
    + intros R. split; [replace i with (i + 0)%nat by lia; now apply R|]. intros j t J. replace (S i + j)%nat with (i + S j)%nat by lia. now apply R.
Qed.

(** The rules of a block. *)
Record block_valid (fCheckPOW fCheckMerkleRoot fCheckSig : bool) (block : CBlock) : Prop := {
  bv_size : Z.of_nat (length (vtx block)) <= MAX_BLOCK_SIZE /\ GetSerializeSize block <= MAX_BLOCK_SIZE;
  bv_work : fCheckPOW = true -> block_is_pos block = false -> CheckProofOfWork (ops := ops) p fTestNet (GetPoWHash block) (nBits block) = true;
  bv_time : b_nTime block <= FutureDrift AdjustedTime;
  bv_coinbase : exists coinbase rest, vtx block = coinbase :: rest /\ IsCoinBase coinbase = true /\ Forall (fun tx => IsCoinBase tx = false) rest /\
    b_nTime block <= FutureDrift (nTime coinbase);
  bv_stake : block_is_pos block = true -> exists coinbase coinstake others o, vtx block = coinbase :: coinstake :: others /\
    vout coinbase = [o] /\ CTxOut_IsEmpty o = true /\ IsCoinStake coinstake = true /\ Forall (fun tx => IsCoinStake tx = false) others /\
    CheckCoinStakeTimestamp (b_nTime block) (nTime coinstake) = true /\ (fCheckSig = true -> CheckBlockSignature block = true);
  bv_txs : forall i tx, vtx block !! i = Some tx -> tx_valid (b_nTime block) i tx;
  bv_distinct : NoDup (map (GetHash p SHA256) (vtx block));
  bv_sigops : exists k, block_sigops p (vtx block) 0 = Accepted k /\ k <= MAX_BLOCK_SIGOPS;
  bv_root : fCheckMerkleRoot = true -> exists tree root,
    BuildMerkleTree (node_hash p SHA256) (map (GetHash p SHA256) (vtx block)) = Some (tree, root) /\ op_equal 8 (hashMerkleRoot block) root = true
}.

Lemma implb_iff a b : negb (a && negb b) = true <-> (a = true -> b = true).
Proof. destruct a, b; cbn; split; auto; intros H; try easy; now specialize (H eq_refl). Qed.

Abbreviation CheckBlock := (CheckBlock (ops := ops) p SHA256 fTestNet GetPoWHash CheckBlockSignature AdjustedTime uninitialised).

(** The rules of a proof-of-stake block, as the code states them on the list. *)
Lemma stake_rules fCheckSig block coinbase rest :
  vtx block = coinbase :: rest ->
  ((if block_is_pos block then
      match rest with
      | coinstake :: others =>
          unless (match vout coinbase with [o] => CTxOut_IsEmpty o | _ => false end) 100
         (unless (IsCoinStake coinstake) 100
         (unless (negb (existsb IsCoinStake others)) 100
         (unless (CheckCoinStakeTimestamp (b_nTime block) (nTime coinstake)) 50
         (unless (negb (fCheckSig && negb (CheckBlockSignature block))) 100 (Accepted tt)))))
      | _ => Wrong
      end
    else Accepted tt) = Accepted tt <->
   (block_is_pos block = true -> exists coinbase coinstake others o, vtx block = coinbase :: coinstake :: others /\
     vout coinbase = [o] /\ CTxOut_IsEmpty o = true /\ IsCoinStake coinstake = true /\ Forall (fun tx => IsCoinStake tx = false) others /\
     CheckCoinStakeTimestamp (b_nTime block) (nTime coinstake) = true /\ (fCheckSig = true -> CheckBlockSignature block = true))).
Proof.
  intros V. rewrite V. destruct (block_is_pos block); [|now split]. destruct rest as [|cs others].
  { split; [discriminate|]. intros H. destruct (H eq_refl) as (c & s & o & x & E & _). discriminate E. }
  rewrite !unless_iff, implb_iff, negb_true_iff, existsb_Forall. split.
  - intros (O & S & F & T & G & _) _. exists coinbase, cs, others. destruct (vout coinbase) as [|o [|]]; try easy. now exists o.
  - intros H. destruct (H eq_refl) as (c & s & os & o & [= <- <- <-] & -> & O & S & F & T & G). auto 10.
Qed.

(** The proof of work and the root of the tree. *)
Lemma work_rule fCheckPOW block :
  fCheckPOW && negb (block_is_pos block) && negb (CheckProofOfWork (ops := ops) p fTestNet (GetPoWHash block) (nBits block)) = false <->
  (fCheckPOW = true -> block_is_pos block = false -> CheckProofOfWork (ops := ops) p fTestNet (GetPoWHash block) (nBits block) = true).
Proof.
  destruct fCheckPOW, (block_is_pos block), (CheckProofOfWork (ops := ops) p fTestNet (GetPoWHash block) (nBits block)); cbn; split; auto; intros H; try easy; now specialize (H eq_refl eq_refl).
Qed.
Lemma root_rule (fCheckMerkleRoot : bool) block hashes :
  (if fCheckMerkleRoot then
     r ← must (BuildMerkleTree (node_hash p SHA256) hashes);
     unless (negb (negb (op_equal 8 (hashMerkleRoot block) r.2))) 100 (Accepted tt)
   else Accepted tt) = Accepted tt <->
  (fCheckMerkleRoot = true -> exists tree root,
     BuildMerkleTree (node_hash p SHA256) hashes = Some (tree, root) /\ op_equal 8 (hashMerkleRoot block) root = true).
Proof.
  destruct fCheckMerkleRoot; [|now split]. rewrite bind_iff. split.
  - intros ([tree root] & B & U) _. apply must_iff in B. rewrite unless_iff, negb_involutive in U. now exists tree, root.
  - intros H. destruct (H eq_refl) as (tree & root & B & U). exists (tree, root). now rewrite must_iff, unless_iff, negb_involutive.
Qed.

Lemma CheckBlock_iff fCheckPOW fCheckMerkleRoot fCheckSig block :
  CheckBlock fCheckPOW fCheckMerkleRoot fCheckSig block = Accepted tt <-> block_valid fCheckPOW fCheckMerkleRoot fCheckSig block.
Proof.
  unfold Blocks.CheckBlock. destruct (vtx block) as [|coinbase rest] eqn:V.
  { split; [easy|]. intros B. destruct (bv_coinbase _ _ _ _ B) as (c & r & E & _). congruence. }
  pose proof (stake_rules fCheckSig block coinbase rest V) as SR. rewrite V in SR. cbn match in SR.
  rewrite !unless_iff, !then_iff, !unless_iff, bind_iff, check_transactions_iff, SR, !negb_true_iff, orb_false_iff, !Z.ltb_ge.
  rewrite existsb_Forall, Nat.eqb_eq, work_rule, <- (length_map (GetHash p SHA256) (coinbase :: rest)), size_list_to_set_NoDup, length_map.
  split.
  - intros (C1 & C2 & C3 & C4 & C5 & C6 & S & T & D & k & K & M). rewrite unless_iff, negb_true_iff, Z.ltb_ge, root_rule in M. destruct M as [M R].
    split; rewrite ?V; eauto 10.
  - intros [C1 C2 C3 (c & r & E & C4 & C5 & C6) S T D (k & K & M) R]. rewrite V in *. injection E as <- <-. splits; try easy.
    exists k. split; [exact K|]. now rewrite unless_iff, negb_true_iff, Z.ltb_ge, root_rule.
Qed.
End Check.
