(* ===== verification/BlockRules.v ===== *)
(** * The rules of a block

    What [CheckBlock] is meant to accept, on the data of the block and on numbers: transactions and amounts, the bytes of
    its encoding, the opcodes of its scripts, the rows of its Merkle tree. Apart from
    the encoding and the hash of SHA-256, no function that [Blocks.CheckBlock] calls is used to state them; the lemmas
    relate these functions to the rules, one by one. *)

From stdpp Require Import gmap list.
From Stdlib Require Import ZArith Lia.
From S2P Require Import Prelude SphTypes Uint256 Uint256Proof Uint256Hex Serialize SerializeProof Transaction TransactionProof TransactionTheorems Merkle BigNum BigNumProof Chain Consensus ConsensusProof Kernel Script Interpreter ScriptProof Coins Blocks CoinsProof BlocksProof.
Local Open Scope Z_scope.

(** ** The opcodes of a script *)

(** The bytes that announce [n] bytes of data. *)
Inductive announces : list Z -> Z -> Prop :=
  | announces_short n : 0 <= n <= 75 -> announces [n] n
  | announces_1 n : announces [76; n] n
  | announces_2 a b : announces [77; a; b] (a + 2 ^ 8 * b)
  | announces_4 a b c d : announces [78; a; b; c; d] (a + 2 ^ 8 * b + 2 ^ 16 * c + 2 ^ 24 * d).

(** A script and its opcodes, up to a push whose data is cut off. *)
Inductive opcodes : list Z -> list Z -> Prop :=
  | opcodes_end : opcodes [] []
  | opcodes_op o s l : 78 < o -> opcodes s l -> opcodes (o :: s) (o :: l)
  | opcodes_push o head data s l :
      announces (o :: head) (Z.of_nat (length data)) -> opcodes s l -> opcodes (o :: head ++ data ++ s) (o :: l)
  | opcodes_cut o s :
      o <= 78 -> (forall head data rest, s = head ++ data ++ rest -> ~ announces (o :: head) (Z.of_nat (length data))) ->
      opcodes (o :: s) [].

(** [OP_CHECKSIG] and [OP_CHECKSIGVERIFY] count as one signature, [OP_CHECKMULTISIG] and [OP_CHECKMULTISIGVERIFY] as twenty. *)
Definition signatures (o : Z) : Z :=
  if decide (o = 0xac \/ o = 0xad) then 1 else if decide (o = 0xae \/ o = 0xaf) then 20 else 0.
Definition script_signatures (s : list Z) (k : Z) : Prop := exists l, opcodes s l /\ k = sum (map signatures l).
Definition scripts_of (tx : CTransaction) : list (list Z) := map scriptSig (vin tx) ++ map scriptPubKey (vout tx).

(** ** Transactions *)

Definition null_outpoint (o : COutPoint) : Prop := o = OutPoint (repeat 0 8) 0xFFFFFFFF.
(** The empty output that marks a coinstake. *)
Definition marker : CTxOut := TxOut 0 [].
Definition is_coinbase (tx : CTransaction) : Prop := exists i, vin tx = [i] /\ null_outpoint (prevout i) /\ vout tx <> [].
Definition is_coinstake (tx : CTransaction) : Prop :=
  exists i ins o outs, vin tx = i :: ins /\ ~ null_outpoint (prevout i) /\ vout tx = marker :: o :: outs.
(** A script of at least [least] bytes that begins with OP_RETURN and the mark of anonymous inputs and outputs. *)
Definition marked (least : Z) (s : list Z) : Prop := least <= Z.of_nat (length s) /\ s !! 0%nat = Some 0x6a /\ s !! 1%nat = Some 0xb9.
(** What an input spends: a coin, or, in an anonymous transaction, the image of a key, with the size of the ring cut off. *)
Definition spends (tx : CTransaction) (i : CTxIn) : COutPoint :=
  if decide (nVersion tx = 1000 /\ marked 99 (scriptSig i)) then OutPoint (hash (prevout i)) (n (prevout i) mod 2 ^ 8) else prevout i.
(** The keys of the anonymous outputs: 33 bytes after the marks and their length. *)
Definition ring_keys (tx : CTransaction) : list (list Z) :=
  map (fun o => take 33 (drop 3 (scriptPubKey o))) (filter (fun o => marked 70 (scriptPubKey o)) (vout tx)).
(** Ten million coins of 10^8. *)
Definition max_money : Z := 10 ^ 7 * 10 ^ 8.

Section Rules.
  Variable p : platform.
  Variable SHA256 : list Z -> list Z.
  Variables s_out s_in s_txout s_tx s_block : Z.
#[local] Instance tx_ser : Serializable CTransaction := CTransaction_serializable p s_out s_in s_txout s_tx.
#[local] Instance block_ser : Serializable CBlock := CBlock_serializable p s_out s_in s_txout s_tx s_block 1.

(** The rules of a transaction of a block. *)
Record tx_rules (tx : CTransaction) : Prop := {
  tr_inputs : vin tx <> [];
  tr_outputs : vout tx <> [];
  tr_size : Z.of_nat (length (Serialize tx)) <= 1000000;
  tr_values : Forall (fun o => 0 <= nValue o <= max_money) (vout tx);
  tr_total : amounts (vout tx) <= max_money;
  tr_marker : marker ∈ vout tx -> is_coinbase tx \/ is_coinstake tx;
  tr_distinct : NoDup (map (spends tx) (vin tx));
  tr_keys : nVersion tx = 1000 -> NoDup (ring_keys tx);
  tr_coinbase : is_coinbase tx -> Forall (fun i => 2 <= Z.of_nat (length (scriptSig i)) <= 100) (vin tx);
  tr_null : ~ is_coinbase tx -> Forall (fun i => ~ null_outpoint (prevout i)) (vin tx)
}.

(** The identifier of a transaction and the hash of two nodes. *)
Definition txid (tx : CTransaction) : list Z := of_memory 8 p (SHA256 (SHA256 (Serialize tx))).
Definition node (a b : list Z) : list Z := of_memory 8 p (SHA256 (SHA256 (memory p a ++ memory p b))).

(** The second transaction is a coinstake. *)
Definition staked (block : CBlock) : Prop := exists coinbase coinstake rest, vtx block = coinbase :: coinstake :: rest /\ is_coinstake coinstake.

(** The rules of a block: its work is at most the target that [nBits] stands for, with the hash [pow] of its header, the clock
    reads [now], and [signed] says that its signature is good; the last three flags say what is checked. *)
Record block_rules (fTestNet : bool) (pow : list Z) (signed : Prop) (now : Z) (work root sig : bool) (block : CBlock) : Prop := {
  br_size : Z.of_nat (length (vtx block)) <= 1000000 /\ Z.of_nat (length (Serialize block)) <= 1000000;
  br_work : work = true -> ~ staked block ->
    0 < compact_value (nBits block) <= pow_limit fTestNet /\ val pow <= compact_value (nBits block);
  br_time : b_nTime block <= now + 600;
  br_coinbase : exists coinbase rest, vtx block = coinbase :: rest /\ is_coinbase coinbase /\ Forall (fun tx => ~ is_coinbase tx) rest /\
    b_nTime block <= nTime coinbase + 600;
  br_stake : forall coinbase coinstake rest, vtx block = coinbase :: coinstake :: rest -> is_coinstake coinstake ->
    vout coinbase = [marker] /\ Forall (fun tx => ~ is_coinstake tx) rest /\ b_nTime block = nTime coinstake /\ (sig = true -> signed);
  br_txs : Forall (fun tx => tx_rules tx /\ nTime tx <= b_nTime block) (vtx block);
  br_ids : NoDup (map txid (vtx block));
  br_signatures : exists ks, Forall2 script_signatures (concat (map scripts_of (vtx block))) ks /\ sum ks <= 20000;
  br_root : root = true -> hashMerkleRoot block = merkle_root node (map txid (vtx block))
}.
End Rules.

(** ** Lemmas on outpoints, coinbases and coinstakes *)

Lemma null_outpoint_iff a : outpoint_ok a -> COutPoint_IsNull a = true <-> null_outpoint a.
Proof.
  intros [H N]. unfold COutPoint_IsNull, null_outpoint, max_unsigned. rewrite (op_equal64_ok 8) by (first [exact H|lia|unfold word; lia]).
  rewrite andb_true_iff, !Z.eqb_eq. destruct a as [h k]. cbn in *. split; [|now intros [= -> ->]].
  intros [V ->]. f_equal. apply (val_inj 8); [exact H|split; [reflexivity|repeat (apply Forall_cons; split; [unfold word; lia|]); now apply Forall_nil]|exact V].
Qed.
Lemma marker_iff o : CTxOut_IsEmpty o = true <-> o = marker.
Proof.
  unfold CTxOut_IsEmpty, marker. destruct o as [v [|x s]]; cbn; rewrite andb_true_iff, Z.eqb_eq; split; try (intros [? ?]; congruence); now intros [= ->].
Qed.

Lemma marked_iff least s : 2 <= least ->
  (least <=? script_size s) && (script_at s 0 =? 0x6a) && (script_at s 1 =? 0xb9) = true <-> marked least s.
Proof.
  intros L. unfold marked, script_size, script_at. rewrite !andb_true_iff, Z.leb_le, !Z.eqb_eq.
  destruct s as [|a [|b s]]; [cbn; split; [intros [[] _]; lia|intros []; lia]..|].
  cbn [nth lookup list_lookup]. split; [intros [[A ->] ->]; auto|intros (A & [= ->] & [= ->]); auto].
Qed.
Lemma spends_ok tx i : input_key (nVersion tx =? ANON_TXN_VERSION) i = spends tx i.
Proof.
  unfold input_key, spends, IsAnonInput. pose proof (marked_iff 99 (scriptSig i) ltac:(lia)) as M. change (2 + (33 + 32 + 32)) with 99.
  change (n (prevout i) .& 0xFF) with (trunc 8 (n (prevout i))). rewrite trunc_mod by lia.
  destruct (_ && _ && _) eqn:E, (Z.eqb_spec (nVersion tx) ANON_TXN_VERSION) as [V|V]; cbn [andb]; case_decide as D; try reflexivity; exfalso.
  - apply D. split; [exact V|now apply M].
  - now apply V.
  - now destruct D as [_ D%M].
  - now apply V.
Qed.
Lemma ring_keys_ok tx : anon_keys (vout tx) = ring_keys tx.
Proof.
  unfold anon_keys, ring_keys. induction (vout tx) as [|o l IH]; [reflexivity|]. cbn [List.filter].
  pose proof (marked_iff 70 (scriptPubKey o) ltac:(lia)) as M. change (IsAnonOutput o) with ((70 <=? script_size (scriptPubKey o)) &&
    (script_at (scriptPubKey o) 0 =? 0x6a) && (script_at (scriptPubKey o) 1 =? 0xb9)).
  destruct (_ && _ && _).
  - rewrite filter_cons_True by now apply M. cbn [map]. now rewrite IH.
  - rewrite filter_cons_False by (intros H%M; discriminate). exact IH.
Qed.

Section Kinds.
  Variable tx : CTransaction.
  Hypothesis inputs_ok : Forall (fun i => outpoint_ok (prevout i)) (vin tx).

Lemma is_coinbase_iff : IsCoinBase tx = true <-> is_coinbase tx.
Proof.
  unfold IsCoinBase, is_coinbase. destruct (vin tx) as [|i [|j l]] eqn:V; [split; [easy|]; now intros (? & ? & _)| |split; [easy|]; now intros (? & ? & _)].
  apply Forall_cons in inputs_ok as [Hi _]. rewrite andb_true_iff, null_outpoint_iff, Z.leb_le by exact Hi. split.
  - intros [N L]. exists i. splits; [reflexivity|exact N|]. intros E. rewrite E in L. cbn in L. lia.
  - intros (j & [= <-] & N & L). split; [exact N|]. destruct (vout tx); [easy|cbn; lia].
Qed.
Lemma is_coinstake_iff : IsCoinStake tx = true <-> is_coinstake tx.
Proof.
  unfold IsCoinStake, is_coinstake. destruct (vin tx) as [|i l] eqn:V; [split; [easy|]; now intros (? & ? & ? & ? & ? & _)|].
  apply Forall_cons in inputs_ok as [Hi _]. rewrite !andb_true_iff, negb_true_iff, <- not_true_iff_false, null_outpoint_iff, Z.leb_le by exact Hi. split.
  - intros [[N L] E]. destruct (vout tx) as [|m [|o outs]]; [easy|cbn in L; lia|]. apply marker_iff in E as ->. now exists i, l, o, outs.
  - intros (j & ins & o & outs & [= <- <-] & N & ->). splits; [exact N|cbn; lia|reflexivity].
Qed.
Lemma not_coinbase_iff : IsCoinBase tx = false <-> ~ is_coinbase tx.
Proof. now rewrite <- is_coinbase_iff, not_true_iff_false. Qed.
Lemma not_coinstake_iff : IsCoinStake tx = false <-> ~ is_coinstake tx.
Proof. now rewrite <- is_coinstake_iff, not_true_iff_false. Qed.
End Kinds.

(** ** Lemmas on the opcodes *)

Section Opcodes.
  Variable p : platform.
  Hypothesis little : order p <> SPH_BIG_ENDIAN.

Lemma le_load_cons k h t : word 8 h -> le_load (S k) (h :: t) = h + 2 ^ 8 * le_load k t.
Proof. intros H. cbn [le_load]. rewrite Z.lor_comm, lor_shifted by (lia || exact H). ring. Qed.
Lemma native_load_2 a b : word 8 a -> word 8 b -> native_load p 4 [a; b; 0; 0] = a + 2 ^ 8 * b.
Proof. intros A B. rewrite native_little by exact little. rewrite !le_load_cons by (assumption || (unfold word; lia)). cbn [le_load]. ring. Qed.
Lemma native_load_4 a b c d : bytes [a; b; c; d] -> native_load p 4 [a; b; c; d] = a + 2 ^ 8 * b + 2 ^ 16 * c + 2 ^ 24 * d.
Proof.
  intros F. unfold bytes in F. rewrite !Forall_cons in F. destruct F as (A & B & C & D & _). rewrite native_little by exact little.
  rewrite !le_load_cons by assumption. cbn [le_load]. ring.
Qed.

(** [n] bytes of data in front. *)
Lemma cut_iff (o n : Z) pc o' data rest : 0 <= n ->
  (if size pc <? n then None else Some (o, firstn (Z.to_nat n) pc, skipn (Z.to_nat n) pc)) = Some (o', data, rest) <->
  o' = o /\ n = Z.of_nat (length data) /\ pc = data ++ rest.
Proof.
  intros N. unfold size. destruct (Z.ltb_spec (Z.of_nat (length pc)) n) as [L|L].
  - split; [discriminate|]. intros (_ & -> & ->). rewrite length_app in L. lia.
  - split.
    + intros [= <- <- <-]. splits; [reflexivity|rewrite length_firstn; lia|now rewrite firstn_skipn].
    + intros (-> & -> & ->). now rewrite Nat2Z.id, firstn_app, skipn_app, firstn_all, skipn_all, Nat.sub_diag, app_nil_r.
Qed.

(** A push is read exactly when its bytes announce the data that follow. *)
Lemma GetOp_push_iff o s o' data rest : bytes (o :: s) -> o <= 78 ->
  GetOp p (o :: s) = Some (o', data, rest) <->
  o' = o /\ exists head, announces (o :: head) (Z.of_nat (length data)) /\ s = head ++ data ++ rest.
Proof.
  intros F L. apply Forall_cons in F as [Ho F]. unfold word in Ho. unfold GetOp. rewrite (proj2 (Z.leb_le o OP_PUSHDATA4)) by exact L.
  destruct (Z.ltb_spec o OP_PUSHDATA1) as [L1|L1].
  { rewrite cut_iff by lia. split; [intros (-> & E & ->); split; [reflexivity|]; exists []; split; [rewrite <- E; constructor; lia|reflexivity]|].
    intros (-> & head & A & ->). inversion A; subst; try lia. auto. }
  destruct (Z.eqb_spec o OP_PUSHDATA1) as [->|N1].
  { destruct s as [|k s]; [split; [discriminate|]; intros (_ & head & A & E); inversion A; subst; (lia || discriminate E)|].
    apply Forall_cons in F as [Hk F]. unfold word in Hk. rewrite cut_iff by lia. split.
    - intros (-> & -> & ->). split; [reflexivity|]. exists [Z.of_nat (length data)]. split; [constructor|reflexivity].
    - intros (-> & head & A & E). inversion A; subst; try lia. injection E as -> ->. auto. }
  destruct (Z.eqb_spec o OP_PUSHDATA2) as [->|N2].
  { destruct s as [|a [|b s]]; try (split; [discriminate|]; intros (_ & head & A & E); inversion A; subst; (lia || discriminate E)).
    apply Forall_cons in F as [Ha F]. apply Forall_cons in F as [Hb F]. rewrite (proj2 (Z.ltb_ge _ 2)) by (unfold size; cbn; lia).
    change (skipn 2 (a :: b :: s)) with s. change (firstn 2 (a :: b :: s) ++ [0; 0]) with [a; b; 0; 0]. rewrite native_load_2 by assumption. unfold word in *. rewrite cut_iff by lia. split.
    - intros (-> & E & ->). split; [reflexivity|]. exists [a; b]. split; [rewrite <- E; constructor|reflexivity].
    - intros (-> & head & A & E). inversion A; subst; try lia. injection E as -> -> ->. auto. }
  assert (o = 78) as -> by lia.
  destruct s as [|a [|b [|c [|d s]]]]; try (split; [discriminate|]; intros (_ & head & A & E); inversion A; subst; (lia || discriminate E)).
  rewrite (proj2 (Z.ltb_ge _ 4)) by (unfold size; cbn; lia). change (skipn 4 (a :: b :: c :: d :: s)) with s.
  change (firstn 4 (a :: b :: c :: d :: s)) with [a; b; c; d]. rewrite native_load_4 by (now apply (Forall_take _ 4) in F).
  unfold bytes in F. rewrite !Forall_cons in F. destruct F as (Ha & Hb & Hc & Hd & F). unfold word in *. rewrite cut_iff by lia. split.
  - intros (-> & E & ->). split; [reflexivity|]. exists [a; b; c; d]. split; [rewrite <- E; constructor|reflexivity].
  - intros (-> & head & A & E). inversion A; subst; try lia. injection E as -> -> -> -> ->. auto.
Qed.
Lemma GetOp_high o s : 78 < o -> GetOp p (o :: s) = Some (o, [], s).
Proof. intros L. unfold GetOp. now rewrite (proj2 (Z.leb_gt o OP_PUSHDATA4)). Qed.

(** Every script has its opcodes, and the loop of the code counts them. *)
Lemma opcodes_exist s : bytes s -> exists l, opcodes s l.
Proof.
  induction s as [s IH] using (well_founded_induction (well_founded_ltof _ (@length Z))). intros F. destruct s as [|o s]; [exists []; constructor|].
  destruct (Z_lt_le_dec 78 o) as [L|L].
  - apply Forall_cons in F as [_ F]. destruct (IH s) as [l P]; [unfold ltof; cbn; lia|exact F|]. exists (o :: l). now constructor.
  - destruct (GetOp p (o :: s)) as [[[o' data] rest]|] eqn:E.
    + pose proof (GetOp_shorter p _ _ _ _ F E) as Sh. apply GetOp_push_iff in E as (-> & head & A & ->); [|exact F|exact L].
      destruct (IH rest Sh) as [l P]; [apply Forall_cons in F as [_ F]; unfold bytes in F; rewrite !Forall_app in F; tauto|].
      exists (o :: l). now constructor.
    + exists []. constructor; [exact L|]. intros head data rest -> A.
      assert (G : GetOp p (o :: head ++ data ++ rest) = Some (o, data, rest)) by (apply GetOp_push_iff; eauto). congruence.
Qed.

Lemma trunc_plus k n : trunc 32 (k + trunc 32 n) = trunc 32 (k + n).
Proof. rewrite !trunc_mod by lia. now rewrite Zplus_mod_idemp_r. Qed.
Lemma sigop_loop_count script ops : opcodes script ops -> bytes script -> forall fuel last, (length script <= fuel)%nat ->
  sigop_loop p fuel false last script = Some (trunc 32 (sum (map signatures ops))).
Proof.
  assert (Step : forall o l n, n = Some (trunc 32 (sum (map signatures l))) ->
    (let* k := if (o =? OP_CHECKSIG) || (o =? OP_CHECKSIGVERIFY) then Some 1
               else if (o =? OP_CHECKMULTISIG) || (o =? OP_CHECKMULTISIGVERIFY) then Some 20 else Some 0 in
     let* n := n in Some (trunc 32 (k + n))) = Some (trunc 32 (sum (map signatures (o :: l))))).
  { intros o l n ->. cbn [map sum foldr]. rewrite <- trunc_plus. unfold signatures.
    destruct (Z.eqb_spec o OP_CHECKSIG), (Z.eqb_spec o OP_CHECKSIGVERIFY), (Z.eqb_spec o OP_CHECKMULTISIG), (Z.eqb_spec o OP_CHECKMULTISIGVERIFY);
      cbn [orb]; repeat case_decide; try lia; reflexivity. }
  induction 1 as [|o s l L P IH|o head data s l A P IH|o s L C]; intros F fuel last Lf.
  - now destruct fuel.
  - destruct fuel as [|fuel]; [cbn in Lf; lia|]. cbn [sigop_loop]. rewrite GetOp_high by exact L. cbn [andb].
    apply Forall_cons in F as [_ F]. apply Step, IH; [exact F|cbn in Lf; lia].
  - destruct fuel as [|fuel]; [cbn in Lf; lia|]. cbn [sigop_loop].
    assert (L : o <= 78) by (inversion A; lia). rewrite (proj2 (GetOp_push_iff o _ o data s F L)) by eauto. cbn [andb].
    apply Forall_cons in F as [_ F]. unfold bytes in F. rewrite !Forall_app in F. apply Step, IH; [apply F|].
    cbn in Lf. rewrite !length_app in Lf. lia.
  - destruct fuel as [|fuel]; [cbn in Lf; lia|]. cbn [sigop_loop]. destruct (GetOp p (o :: s)) as [[[o' data] rest]|] eqn:E; [|reflexivity].
    apply GetOp_push_iff in E as (_ & head & A & ->); [|exact F|exact L]. now destruct (C head data rest eq_refl).
Qed.
Lemma GetSigOpCount_ok s : bytes s -> exists k, script_signatures s k /\ GetSigOpCount p s false = Some (trunc 32 k).
Proof.
  intros F. destruct (opcodes_exist s F) as [l P]. exists (sum (map signatures l)). split; [now exists l|]. now apply sigop_loop_count.
Qed.
Lemma GetSigOpCount_unique s k : bytes s -> script_signatures s k -> GetSigOpCount p s false = Some (trunc 32 k).
Proof. intros F (l & P & ->). now apply sigop_loop_count. Qed.

Lemma signatures_range o : 0 <= signatures o <= 20.
Proof. unfold signatures. repeat case_decide; lia. Qed.
Lemma opcodes_length s l : opcodes s l -> (length l <= length s)%nat.
Proof. induction 1; cbn; rewrite ?length_app; lia. Qed.
Lemma script_signatures_range s k : script_signatures s k -> 0 <= k <= 20 * Z.of_nat (length s).
Proof.
  intros (l & P & ->). apply opcodes_length in P. enough (0 <= sum (map signatures l) <= 20 * Z.of_nat (length l)) by lia. clear.
  induction l as [|o l IH]; [easy|]. cbn [map sum foldr length]. pose proof (signatures_range o). unfold sum in IH. lia.
Qed.
End Opcodes.

(** ** The signatures of the transactions *)

Section Signatures.
  Variable p : platform.
  Hypothesis little : order p <> SPH_BIG_ENDIAN.

Lemma sum_app a b : sum (a ++ b) = sum a + sum b.
Proof. induction a as [|x a IH]; [reflexivity|]. cbn. unfold sum in *. lia. Qed.
Lemma sigops_loop_ok scripts ks k :
  Forall bytes scripts -> Forall2 script_signatures scripts ks -> word 32 k -> sigops_loop p scripts k = Accepted (trunc 32 (k + sum ks)).
Proof.
  intros F S. revert k. induction S as [|s c scripts ks C S IH]; intros k W; cbn [sigops_loop sum foldr].
  - rewrite Z.add_0_r, trunc_id by (lia || exact W). reflexivity.
  - apply Forall_cons in F as [B F]. rewrite (GetSigOpCount_unique p little s c B C). cbn [must mbind verdict_bind]. rewrite trunc_plus.
    rewrite IH by (exact F || (apply trunc_word; lia)). unfold sum. f_equal. rewrite Z.add_comm, trunc_plus. f_equal. lia.
Qed.
Lemma block_sigops_ok vtx ks k :
  Forall (fun tx => Forall bytes (scripts_of tx)) vtx -> Forall2 script_signatures (concat (map scripts_of vtx)) ks -> word 32 k ->
  block_sigops p vtx k = Accepted (trunc 32 (k + sum ks)).
Proof.
  revert ks k. induction vtx as [|tx vtx IH]; intros ks k F S W; cbn [block_sigops map concat] in *.
  - inversion S; subst. cbn. rewrite Z.add_0_r, trunc_id by (lia || exact W). reflexivity.
  - apply Forall_cons in F as [F1 F]. apply Forall2_app_inv_l in S as (ks1 & ks2 & S1 & S2 & ->). unfold GetLegacySigOpCount.
    change (map scriptSig (vin tx) ++ map scriptPubKey (vout tx)) with (scripts_of tx). rewrite (sigops_loop_ok _ ks1 0 F1 S1) by (unfold word; lia). cbn [mbind verdict_bind]. rewrite Z.add_0_l, trunc_plus.
    rewrite (IH ks2) by (exact F || exact S2 || (apply trunc_word; lia)). rewrite sum_app. f_equal. rewrite Z.add_comm, trunc_plus. f_equal. lia.
Qed.
Lemma signatures_exist scripts : Forall bytes scripts -> exists ks, Forall2 script_signatures scripts ks.
Proof.
  induction 1 as [|s scripts B F [ks IH]]; [exists []; constructor|]. destruct (opcodes_exist p little s B) as [l P].
  exists (sum (map signatures l) :: ks). constructor; [now exists l|exact IH].
Qed.

(** The counts are bounded by the bytes of the scripts. *)
Definition weight (scripts : list (list Z)) : Z := sum (map (fun s => Z.of_nat (length s)) scripts).
Lemma signatures_bound scripts ks : Forall2 script_signatures scripts ks -> 0 <= sum ks <= 20 * weight scripts.
Proof.
  unfold weight. induction 1 as [|s k scripts ks K S IH]; [easy|]. cbn [map sum foldr]. apply script_signatures_range in K. unfold sum in *. lia.
Qed.
Lemma weight_app a b : weight (a ++ b) = weight a + weight b.
Proof. unfold weight. now rewrite map_app, sum_app. Qed.
End Signatures.

(** ** The sizes of the encodings *)

Section Sizes.
  Variable p : platform.
  Variables s_out s_in s_txout s_tx s_block : Z.
  Abbreviation tx_ser := (CTransaction_serializable p s_out s_in s_txout s_tx).
  Abbreviation block_ser := (CBlock_serializable p s_out s_in s_txout s_tx s_block 1).

Lemma flat_map_weight {A} (f : A -> list Z) (g : A -> list (list Z)) l :
  (forall a, weight (g a) <= Z.of_nat (length (f a))) -> weight (concat (map g l)) <= Z.of_nat (length (flat_map f l)).
Proof. intros H. induction l as [|a l IH]; [easy|]. cbn [map concat flat_map]. rewrite weight_app, length_app. specialize (H a). lia. Qed.
Lemma concat_single {A} (f : A -> list Z) l : concat (map (fun a => [f a]) l) = map f l.
Proof. induction l as [|a l IH]; [easy|]. cbn. now rewrite IH. Qed.
Lemma tx_weight tx : weight (scripts_of tx) <= Z.of_nat (length (@Serialize _ tx_ser tx)).
Proof.
  unfold scripts_of. rewrite weight_app, <- !concat_single. cbn [Serialize CTransaction_serializable]. unfold Serialize_vector. rewrite !length_app.
  pose proof (flat_map_weight (@Serialize _ (CTxIn_serializable p s_out s_in)) (fun i => [scriptSig i]) (vin tx)) as I.
  pose proof (flat_map_weight (@Serialize _ (CTxOut_serializable p s_txout)) (fun o => [scriptPubKey o]) (vout tx)) as O.
  cbn [Serialize CTxIn_serializable CTxOut_serializable] in *. unfold Serialize_bytes, weight in *.
  specialize (I ltac:(intros i; cbn; rewrite !length_app; lia)). specialize (O ltac:(intros o; cbn; rewrite !length_app; lia)). lia.
Qed.
Lemma block_weight block : weight (concat (map scripts_of (vtx block))) <= Z.of_nat (length (@Serialize _ block_ser block)).
Proof.
  cbn [Serialize CBlock_serializable]. change (header_only 1) with false. unfold Serialize_vector. rewrite !length_app.
  pose proof (flat_map_weight (@Serialize _ tx_ser) scripts_of (vtx block) tx_weight) as B. cbn [Serialize CTransaction_serializable] in *. lia.
Qed.
Lemma flat_map_in {A} (f : A -> list Z) l a : a ∈ l -> (length (f a) <= length (flat_map f l))%nat.
Proof.
  induction l as [|x l IH]; intros H; [now apply not_elem_of_nil in H|]. cbn [flat_map]. rewrite length_app.
  apply elem_of_cons in H as [->|H]; [lia|]. specialize (IH H). lia.
Qed.
Lemma tx_in_block block tx : tx ∈ vtx block -> (length (@Serialize _ tx_ser tx) <= length (@Serialize _ block_ser block))%nat.
Proof.
  intros H. apply (flat_map_in (@Serialize _ tx_ser)) in H.
  change (@Serialize _ block_ser block) with (Serialize_header p block ++ (WriteCompactSize p (Z.of_nat (length (vtx block))) ++
    flat_map (@Serialize _ tx_ser) (vtx block)) ++ Serialize_bytes p (vchBlockSig block)).
  rewrite !length_app. lia.
Qed.

Lemma fits_32 (size len : Z) : size = trunc 32 len -> 0 <= len < 2 ^ 32 -> size = len.
Proof. intros -> W. apply trunc_id; [lia|exact W]. Qed.
End Sizes.

(** ** The root of the Merkle tree *)

Lemma root_node H (P : list Z -> Prop) fuel l :
  (forall a b, P a -> P b -> P (H a b)) -> P uint256_0 -> Forall P l -> P (root H fuel l).
Proof.
  intros PH P0. revert l. induction fuel as [|fuel IH]; intros l F; destruct l as [|a [|b l]]; cbn [root]; try exact P0; try (now apply Forall_cons in F).
  apply IH. now apply pair_up_nodes.
Qed.

(** ** Each rule *)

Section Each.
  Variable p : platform.
  Hypothesis little : order p <> SPH_BIG_ENDIAN.
  Variable SHA256 : list Z -> list Z.
  Hypothesis SHA256_ok : forall m, length (SHA256 m) = 32%nat /\ bytes (SHA256 m).
  Variables s_out s_in s_txout s_tx s_block : Z.
  Hypothesis s_ok : sizes_ok s_in s_txout s_tx.
#[local] Instance rules_tx_ser : Serializable CTransaction := CTransaction_serializable p s_out s_in s_txout s_tx.
#[local] Instance rules_block_ser : Serializable CBlock := CBlock_serializable p s_out s_in s_txout s_tx s_block 1.
  Abbreviation tx_rules := (tx_rules p s_out s_in s_txout s_tx).

Lemma inputs_outpoints tx : tx_ok tx -> Forall (fun i => outpoint_ok (prevout i)) (vin tx).
Proof. intros (_ & _ & (_ & F) & _). apply (Forall_impl _ _ _ F). now intros i [H _]. Qed.
Lemma scripts_bytes tx : tx_ok tx -> Forall bytes (scripts_of tx).
Proof.
  intros (_ & _ & (_ & I) & (_ & O) & _). unfold scripts_of. apply Forall_app. split; apply Forall_fmap; [apply (Forall_impl _ _ _ I)|apply (Forall_impl _ _ _ O)].
  - intros i (_ & (_ & B) & _). exact B.
  - intros o (_ & (_ & B)). exact B.
Qed.
Lemma tx_size_exact tx : tx_ok tx -> Z.of_nat (length (Serialize tx)) < 2 ^ 32 -> GetSerializeSize tx = Z.of_nat (length (Serialize tx)).
Proof. intros H L. destruct s_ok as (Hi & Ho & Ht). apply fits_32; [now apply (tx_size p s_out s_in s_txout s_tx Hi Ho Ht)|split; [lia|exact L]]. Qed.

Lemma outputs_rule e (outs : list CTxOut) (P : Prop) : (e = true <-> P) ->
  Forall (output_ok e) outs <-> Forall (fun o => 0 <= nValue o <= max_money) outs /\ (marker ∈ outs -> P).
Proof.
  intros E. unfold output_ok. rewrite !Forall_forall. split.
  - intros F. split; [intros o Ho; now destruct (F o Ho) as [_ V]|]. intros M. apply E. now apply (F marker M), marker_iff.
  - intros [F M] o Ho. split; [|now apply F]. intros Em. apply E, M. apply marker_iff in Em. now subst o.
Qed.

Lemma tx_rules_iff tx : tx_ok tx -> Z.of_nat (length (Serialize tx)) < 2 ^ 32 ->
  tx_acceptable tx /\ (nVersion tx = ANON_TXN_VERSION -> List.NoDup (anon_keys (vout tx))) <-> tx_rules tx.
Proof.
  intros H L. pose proof (inputs_outpoints tx H) as I. unfold tx_acceptable. rewrite tx_size_exact by assumption.
  pose proof (is_coinbase_iff tx I) as CB. pose proof (is_coinstake_iff tx I) as CS.
  rewrite (outputs_rule _ (vout tx) (is_coinbase tx \/ is_coinstake tx)) by (now rewrite orb_true_iff, CB, CS).
  assert (K : (if IsCoinBase tx then exists i l, vin tx = i :: l /\ 2 <= script_size (scriptSig i) <= 100
               else Forall (fun i => COutPoint_IsNull (prevout i) = false) (vin tx)) <->
    (is_coinbase tx -> Forall (fun i => 2 <= Z.of_nat (length (scriptSig i)) <= 100) (vin tx)) /\
    (~ is_coinbase tx -> Forall (fun i => ~ null_outpoint (prevout i)) (vin tx))).
  { destruct (IsCoinBase tx).
    - pose proof (proj1 CB eq_refl) as C. pose proof C as (i & Vi & _). rewrite Vi. split.
      + intros (j & l & [= <- <-] & S). split; [intros _; apply Forall_cons; split; [exact S|apply Forall_nil; exact Logic.I]|]. intros N. now destruct N.
      + intros [S _]. exists i, []. split; [reflexivity|]. pose proof (S C) as F. now apply Forall_cons in F as [F _].
    - assert (N : ~ is_coinbase tx) by (intros C; apply CB in C; discriminate). rewrite Forall_forall in I.
      split.
      + intros F. split; [intros C; now destruct N|]. intros _. rewrite Forall_forall in *. intros i Hi Z. apply null_outpoint_iff in Z; [|now apply I].
        rewrite (F i Hi) in Z. discriminate.
      + intros [_ F]. specialize (F N). rewrite Forall_forall in *. intros i Hi. apply not_true_iff_false. rewrite null_outpoint_iff by now apply I. now apply F. }
  rewrite K, (map_ext _ _ (spends_ok tx)), ring_keys_ok, <- !NoDup_ListNoDup. split.
  - intros ((A1 & A2 & A3 & (A4 & A5) & A6 & A7 & A8 & A9) & A10). constructor; assumption.
  - intros [A1 A2 A3 A4 A5 A6 A7 A8 A9 A10]. splits; assumption.
Qed.

(** The check of one transaction. *)
Lemma tx_valid_rules u nTimeBlock i tx : tx_ok tx -> keys_compressed tx -> Z.of_nat (length (Serialize tx)) < 2 ^ 32 ->
  tx_valid u nTimeBlock i tx <-> tx_rules tx /\ nTime tx <= nTimeBlock.
Proof.
  intros H K L. rewrite <- tx_rules_iff by assumption. unfold tx_valid.
  destruct (CheckTransaction_iff (u i) tx (inputs_outpoints tx H)) as (ok & d & E & _ & O). rewrite E, (CheckTransaction_keys _ _ _ K) in *.
  rewrite <- O. split; [intros [[d' [= -> <-]] T]; now split|]. intros [-> T]. split; [now exists d|exact T].
Qed.

(** ** The rules of the block *)

Section Block.
  Variable block : CBlock.
  Hypothesis txs_ok : Forall tx_ok (vtx block).

Lemma kinds tx : tx ∈ vtx block -> Forall (fun i => outpoint_ok (prevout i)) (vin tx).
Proof. intros H. rewrite Forall_forall in txs_ok. now apply inputs_outpoints, txs_ok. Qed.
Lemma staked_iff : block_is_pos block = true <-> staked block.
Proof.
  unfold block_is_pos, staked. pose proof kinds as K. destruct (vtx block) as [|cb [|cs rest]]; try (split; [easy|]; now intros (? & ? & ? & ? & _)).
  rewrite is_coinstake_iff by (apply K; right; left). split; [intros H; now exists cb, cs, rest|]. intros (? & ? & ? & [= <- <- <-] & H). exact H.
Qed.
Lemma not_coinbase_all rest : (forall tx, tx ∈ rest -> tx ∈ vtx block) ->
  Forall (fun tx => IsCoinBase tx = false) rest <-> Forall (fun tx => ~ is_coinbase tx) rest.
Proof. intros S. rewrite !Forall_forall. split; intros F tx H; specialize (F tx H); now apply (not_coinbase_iff tx (kinds tx (S tx H))). Qed.
Lemma not_coinstake_all rest : (forall tx, tx ∈ rest -> tx ∈ vtx block) ->
  Forall (fun tx => IsCoinStake tx = false) rest <-> Forall (fun tx => ~ is_coinstake tx) rest.
Proof. intros S. rewrite !Forall_forall. split; intros F tx H; specialize (F tx H); now apply (not_coinstake_iff tx (kinds tx (S tx H))). Qed.

Lemma coinbase_rule :
  (exists coinbase rest, vtx block = coinbase :: rest /\ IsCoinBase coinbase = true /\ Forall (fun tx => IsCoinBase tx = false) rest /\
     b_nTime block <= FutureDrift (nTime coinbase)) <->
  exists coinbase rest, vtx block = coinbase :: rest /\ is_coinbase coinbase /\ Forall (fun tx => ~ is_coinbase tx) rest /\
    b_nTime block <= nTime coinbase + 600.
Proof.
  split; intros (cb & rest & V & C & N & T); exists cb, rest.
  all: assert (K : forall tx, tx ∈ cb :: rest -> tx ∈ vtx block) by (intros tx; now rewrite V).
  all: splits; [exact V|apply (is_coinbase_iff cb); [apply kinds, K; left|exact C]| |exact T].
  all: revert N; apply not_coinbase_all; intros tx H; apply K; now right.
Qed.
Lemma stake_rule (sig signed : bool) :
  (block_is_pos block = true -> exists coinbase coinstake others o, vtx block = coinbase :: coinstake :: others /\
     vout coinbase = [o] /\ CTxOut_IsEmpty o = true /\ IsCoinStake coinstake = true /\ Forall (fun tx => IsCoinStake tx = false) others /\
     CheckCoinStakeTimestamp (b_nTime block) (nTime coinstake) = true /\ (sig = true -> signed = true)) <->
  forall coinbase coinstake rest, vtx block = coinbase :: coinstake :: rest -> is_coinstake coinstake ->
    vout coinbase = [marker] /\ Forall (fun tx => ~ is_coinstake tx) rest /\ b_nTime block = nTime coinstake /\ (sig = true -> signed = true).
Proof.
  unfold CheckCoinStakeTimestamp. split.
  - intros H cb cs rest V S. destruct H as (cb' & cs' & others & o & V' & O & E & _ & N & T & G); [apply staked_iff; now exists cb, cs, rest|].
    rewrite V in V'. injection V' as <- <- <-. apply marker_iff in E as ->. apply Z.eqb_eq in T. splits; [exact O| |exact T|exact G].
    revert N. apply not_coinstake_all. intros tx H. rewrite V. now do 2 right.
  - intros H P. apply staked_iff in P as (cb & cs & rest & V & S). destruct (H cb cs rest V S) as (O & N & T & G). exists cb, cs, rest, marker.
    assert (I : cs ∈ vtx block) by (rewrite V; right; left).
    splits; [exact V|exact O|reflexivity|now apply (is_coinstake_iff cs (kinds cs I))| |now apply Z.eqb_eq|exact G].
    revert N. apply not_coinstake_all. intros tx Ht. rewrite V. now do 2 right.
Qed.

Lemma signatures_rule : Z.of_nat (length (Serialize block)) <= 1000000 ->
  (exists k, block_sigops p (vtx block) 0 = Accepted k /\ k <= MAX_BLOCK_SIGOPS) <->
  exists ks, Forall2 script_signatures (concat (map scripts_of (vtx block))) ks /\ sum ks <= 20000.
Proof.
  intros L. pose proof (block_weight p s_out s_in s_txout s_tx s_block block) as W.
  assert (B : Forall (fun tx => Forall bytes (scripts_of tx)) (vtx block)) by (apply (Forall_impl _ _ _ txs_ok); exact scripts_bytes).
  assert (Q : forall ks, Forall2 script_signatures (concat (map scripts_of (vtx block))) ks ->
    block_sigops p (vtx block) 0 = Accepted (sum ks)).
  { intros ks S. rewrite (block_sigops_ok p little _ ks 0 B S) by (unfold word; lia). rewrite Z.add_0_l, trunc_id; [reflexivity|lia|].
    apply signatures_bound in S. unfold word. change (length (Serialize block)) with (length (@Serialize _ (CBlock_serializable p s_out s_in s_txout s_tx s_block 1) block)) in L. lia. }
  split.
  - intros (k & E & K). destruct (signatures_exist p little (concat (map scripts_of (vtx block)))) as [ks S].
    { apply Forall_concat, Forall_fmap. exact B. }
    exists ks. split; [exact S|]. rewrite (Q ks S) in E. injection E as <-. exact K.
  - intros (ks & S & K). exists (sum ks). split; [now apply Q|exact K].
Qed.

(** The transactions are smaller than the block, so that their sizes do not wrap around either. *)
Lemma block_size_exact : TransactionProof.block_ok 1 block -> Z.of_nat (length (Serialize block)) < 2 ^ 32 ->
  GetSerializeSize block = Z.of_nat (length (Serialize block)).
Proof.
  intros H L. destruct s_ok as (Hi & Ho & Ht). apply fits_32; [now apply (block_size p s_out s_in s_txout s_tx s_block Hi Ho Ht)|split; [lia|exact L]].
Qed.
Lemma txs_rule u : Z.of_nat (length (Serialize block)) < 2 ^ 32 -> Forall keys_compressed (vtx block) ->
  (forall i tx, vtx block !! i = Some tx -> tx_valid u (b_nTime block) (0 + i) tx) <->
  Forall (fun tx => tx_rules tx /\ nTime tx <= b_nTime block) (vtx block).
Proof.
  intros L K. rewrite Forall_lookup. apply forall_proper. intros i. apply forall_proper. intros tx. rewrite Forall_forall in K, txs_ok.
  assert (Small : tx ∈ vtx block -> Z.of_nat (length (Serialize tx)) < 2 ^ 32).
  { intros H. eapply Z.le_lt_trans; [|exact L]. apply inj_le. exact (tx_in_block p s_out s_in s_txout s_tx s_block block tx H). }
  split; intros H E; specialize (H E); apply list_elem_of_lookup_2 in E;
    apply (tx_valid_rules u (b_nTime block) (0 + i) tx (txs_ok tx E) (K tx E) (Small E)); exact H.
Qed.

Lemma txid_words tx : words_ok 8 (txid p SHA256 s_out s_in s_txout s_tx tx).
Proof. apply of_memory_ok; apply SHA256_ok. Qed.
Lemma root_ids_rule (root : bool) : words_ok 8 (hashMerkleRoot block) ->
  (root = true -> exists tree r, BuildMerkleTree (node_hash p SHA256) (map (GetHash p SHA256) (vtx block)) = Some (tree, r) /\
     op_equal 8 (hashMerkleRoot block) r = true) <->
  (root = true -> hashMerkleRoot block = merkle_root (node p SHA256) (map (txid p SHA256 s_out s_in s_txout s_tx) (vtx block))).
Proof.
  intros M. change (map (GetHash p SHA256) (vtx block)) with (map (txid p SHA256 s_out s_in s_txout s_tx) (vtx block)).
  change (node_hash p SHA256) with (node p SHA256). set (ids := map _ (vtx block)).
  assert (R : words_ok 8 (merkle_root (node p SHA256) ids)).
  { unfold merkle_root. apply (root_node _ (words_ok 8)); [intros a b _ _; apply of_memory_ok; apply SHA256_ok|exact (proj1 (zeros_ok 8))|].
    apply Forall_fmap, Forall_forall. intros tx _. apply txid_words. }
  assert (E : op_equal 8 (hashMerkleRoot block) (merkle_root (node p SHA256) ids) = true <-> hashMerkleRoot block = merkle_root (node p SHA256) ids).
  { rewrite (op_equal_ok 8) by (first [exact M|exact R|lia]). rewrite Z.eqb_eq. split; [now apply (val_inj 8)|now intros ->]. }
  split; intros H T; specialize (H T).
  - destruct H as (tree & r & B & O). rewrite BuildMerkleTree_ok in B. injection B as _ <-. now apply E.
  - rewrite BuildMerkleTree_ok. eexists. eexists. split; [reflexivity|now apply E].
Qed.
Lemma work_rule_ok {BIGNUM : Type} {ops : BN_ops BIGNUM} {spec : BN_spec ops} (fTestNet work : bool) (pow : list Z) :
  words_ok 8 pow -> word 32 (nBits block) ->
  (work = true -> block_is_pos block = false -> CheckProofOfWork (ops := ops) p fTestNet pow (nBits block) = true) <->
  (work = true -> ~ staked block -> 0 < compact_value (nBits block) <= pow_limit fTestNet /\ val pow <= compact_value (nBits block)).
Proof.
  intros Hp Hb. rewrite (CheckProofOfWork_ok p fTestNet little pow (nBits block) Hp Hb), !andb_true_iff, Z.ltb_lt, !Z.leb_le, <- staked_iff, not_true_iff_false.
  tauto.
Qed.

(** ** CheckBlock comes to an end *)

(** A computation that accepts or refuses: no exception, no failed assertion, no access outside. *)
Definition decided {A} (m : verdict A) : Prop := match m with Accepted _ | Refused _ => True | Exception | Wrong => False end.
Lemma decided_unless {A} b d (m : verdict A) : (b = true -> decided m) -> decided (unless b d m).
Proof. destruct b; cbn; auto. Qed.
Lemma decided_then {A B} (m : verdict A) (k : A -> verdict B) : decided m -> (forall a, m = Accepted a -> decided (k a)) -> decided (m ≫= k).
Proof. destruct m; cbn; auto. Qed.

Lemma check_transactions_decided u i vtx t : Forall tx_ok vtx -> decided (check_transactions u i vtx t).
Proof.
  revert i. induction vtx as [|tx vtx IH]; intros i F; [exact I|]. apply Forall_cons in F as [F1 F]. cbn [check_transactions].
  destruct (CheckTransaction_iff (u i) tx (inputs_outpoints tx F1)) as ([] & d & -> & _); [|exact I]. apply decided_unless. intros _. now apply IH.
Qed.

Context {BIGNUM : Type} {ops : BN_ops BIGNUM}.
Lemma CheckBlock_decided fTestNet GetPoWHash CheckBlockSignature now u work root sig :
  decided (CheckBlock (ops := ops) p SHA256 fTestNet GetPoWHash CheckBlockSignature now u work root sig block).
Proof.
  unfold CheckBlock. destruct (vtx block) as [|cb rest] eqn:V; [exact I|]. do 6 (apply decided_unless; intros _). apply decided_then; [|intros [] _; apply decided_then].
  - unfold block_is_pos. rewrite V. destruct rest as [|cs others]; [exact I|]. destruct (IsCoinStake cs); [|exact I]. now do 5 (apply decided_unless; intros _).
  - now apply check_transactions_decided.
  - intros [] _. apply decided_unless. intros _. apply decided_then.
    + destruct (signatures_exist p little (concat (map scripts_of (cb :: rest)))) as [ks S].
      { apply Forall_concat, Forall_fmap, (Forall_impl _ _ _ txs_ok). exact scripts_bytes. }
      rewrite (block_sigops_ok p little _ ks 0) by (first [exact S|unfold word; lia|apply (Forall_impl _ _ _ txs_ok); exact scripts_bytes]). exact I.
    + intros k _. apply decided_unless. intros _. destruct root; [|exact I]. rewrite BuildMerkleTree_ok. cbn [must mbind verdict_bind]. now apply decided_unless.
Qed.
End Block.
End Each.
