(* ===== verification/BlocksTheorems.v ===== *)
(** * Theorems on the coins and on the blocks *)

From stdpp Require Import gmap list.
From Stdlib Require Import ZArith Lia.
From S2P Require Import Prelude SphTypes Uint256 Uint256Proof Serialize SerializeProof Transaction TransactionProof TransactionTheorems Merkle BigNum BigNumProof BigNumTheorems Chain ChainProof Consensus ConsensusProof Kernel Script Interpreter Coins CoinsProof Blocks BlocksProof BlockRules.
Local Open Scope Z_scope.

(** ** The inputs of a transaction *)

Section Inputs.
  Variable p : platform.
  Variable SHA256 : list Z -> list Z.
  Variable Verify : list Z -> list Z -> list Z -> bool.
  Context {BIGNUM : Type} {ops : BN_ops BIGNUM}.
  Variables RIPEMD160 SHA1 : list Z -> list Z.
  Variable disk : CDiskTxPos -> option CTransaction.
  Variable mempool : gmap (list Z) CTransaction.
  Variable CheckAnonInputs : CTransaction -> bool * Z.
  Variable h : heap.
  Variables nCoinbaseMaturity nBestHeight nTotalBlocksEstimate : Z.
  Variable db pool : txdb.
  Variables fBlock fMiner : bool.
  Variables flags : Z.
  Variable fValidateSig : bool.

(** C7: When a block or the miner connects a transaction that is not a coinbase, on the inputs that were fetched from the
    changes [pool] over the index [db], and the transaction is accepted, then its coins are different, each was entered and
    unspent, and the index afterwards is the index before with exactly these coins spent at the place of the transaction.
    The outputs they stand for are amounts of money, as is their sum; unless it is a coinstake, the transaction pays out at
    most that sum and the anonymous inputs, less the minimum fee; every script is verified if [fValidateSig] is set and it is
    not a block that is connected below the height of the last checkpoint; and no coin is of a coinbase or coinstake in the last [nCoinbaseMaturity] blocks, or younger than the transaction. *)
Theorem inputs_connected (tx : CTransaction) (inputs : MapPrevTx) (pos : CDiskTxPos) (pindex : pointer) (pool' : txdb) (l : list (positive * CBlockIndex)) :
  fBlock || fMiner = true -> CDiskTxPos_IsNull pos = false -> Forall coin_ok (coins tx) -> IsCoinBase tx = false ->
  heap_ok h -> path h pindex l ->
  FetchInputs disk mempool db pool fBlock fMiner tx = Accepted inputs ->
  ConnectInputs (ops := ops) p SHA256 Verify RIPEMD160 SHA1 CheckAnonInputs h nCoinbaseMaturity nBestHeight nTotalBlocksEstimate
    fBlock fMiner flags fValidateSig tx inputs pool pos pindex = Accepted pool' ->
  (exists outs, connected (ops := ops) p SHA256 Verify RIPEMD160 SHA1 CheckAnonInputs h nCoinbaseMaturity nBestHeight nTotalBlocksEstimate db
     fBlock flags fValidateSig tx inputs pool pos pindex pool' outs) /\
  forall i, i ∈ vin tx -> is_anon tx i = false -> exists txindex txPrev, inputs !! hash (prevout i) = Some (txindex, txPrev) /\ nTime txPrev <= nTime tx /\
    (IsCoinBase txPrev || IsCoinStake txPrev = true -> Forall (fun b => holds_pos (tx_pos txindex) b = false) (take (Z.to_nat nCoinbaseMaturity) l)).
Proof.
  intros U P F CB ok Pl Fe H. apply FetchInputs_agree in Fe; [|exact U]. eapply ConnectInputs_ok in H as (outs & C); try eassumption.
  split; [now exists outs|]. intros i Hi An. pose proof C as [K _ _ _ _ _ _ _]. rewrite Forall_forall in K.
  destruct (K i Hi An) as (txindex & txPrev & E & _ & M & T). exists txindex, txPrev. splits; [exact E|exact T|]. intros S.
  rewrite (check_mature_ok _ _ _ _ _ l ok Pl), S in M. apply unless_iff in M as [M _]. cbn [andb] in M. now apply negb_true_iff, existsb_Forall in M.
Qed.
End Inputs.

(** ** The blocks CheckBlock accepts *)

Section Rules.
  Variable p : platform.
  Variable SHA256 : list Z -> list Z.
  Context {BIGNUM : Type} {ops : BN_ops BIGNUM} {spec : BN_spec ops}.
  Variables s_out s_in s_txout s_tx s_block : Z.
#[local] Instance wire_tx : Serializable CTransaction := CTransaction_serializable p s_out s_in s_txout s_tx.
#[local] Instance wire_block : Serializable CBlock := CBlock_serializable p s_out s_in s_txout s_tx s_block 1.
  Variable fTestNet : bool.
  Variable GetPoWHash : CBlock -> list Z.
  Variable CheckBlockSignature : CBlock -> bool.
  Variable AdjustedTime : Z.
  Variable uninitialised : nat -> nat -> list Z.

(** C8: On a block whose members are in the range of their types, whose encoding is shorter than 2^32 bytes and whose
    anonymous keys are compressed, [CheckBlock] accepts or refuses: it throws no exception, fails no assertion, and
    accepts exactly when the block satisfies [block_rules], which state the limits and times, the proof of work on the
    numbers, the coinbase and the coinstake, the rules of every transaction, different identifiers, at most 20000
    signatures in the opcodes of the scripts, and the Merkle root, without the functions that the code checks them with. *)
Theorem CheckBlock_decides (work root sig : bool) (block : CBlock) :
  order p <> SPH_BIG_ENDIAN -> (forall m, length (SHA256 m) = 32%nat /\ bytes (SHA256 m)) -> sizes_ok s_in s_txout s_tx ->
  TransactionProof.block_ok 1 block -> Z.of_nat (length (Serialize block)) < 2 ^ 32 -> Forall keys_compressed (vtx block) -> words_ok 8 (GetPoWHash block) ->
  let result := CheckBlock (ops := ops) p SHA256 fTestNet GetPoWHash CheckBlockSignature AdjustedTime uninitialised work root sig block in
  (result = Accepted tt <->
   block_rules p SHA256 s_out s_in s_txout s_tx s_block fTestNet (GetPoWHash block) (CheckBlockSignature block = true) AdjustedTime work root sig block) /\
  (result = Accepted tt \/ exists nDoS, result = Refused nDoS).
Proof.
  intros little Hs Hz Hb L Hk Hp result. pose proof Hb as [Hh [[_ Ht] _]]. split.
  - pose proof (work_rule_ok p little block Ht (ops := ops) fTestNet work (GetPoWHash block) Hp ltac:(apply Hh)) as Wk.
    pose proof (coinbase_rule block Ht) as Cb. pose proof (stake_rule block Ht sig (CheckBlockSignature block)) as St.
    pose proof (txs_rule p s_out s_in s_txout s_tx s_block Hz block Ht uninitialised L Hk) as Tx.
    pose proof (signatures_rule p little s_out s_in s_txout s_tx s_block block Ht) as Sg.
    pose proof (root_ids_rule p SHA256 Hs s_out s_in s_txout s_tx block root ltac:(apply Hh)) as Rt.
    assert (Sz : GetSerializeSize block = Z.of_nat (length (Serialize block)))
      by exact (block_size_exact p s_out s_in s_txout s_tx s_block Hz block Hb L).
    unfold result. rewrite CheckBlock_iff. split.
    + intros [R1 R2 R3 R4 R5 R6 R7 R8 R9]. rewrite Sz in R1. constructor; try assumption.
      all: first [now apply Wk|now apply Cb|now apply St|now apply Tx|now apply Rt|apply Sg; [apply R1|exact R8]].
    + intros [R1 R2 R3 R4 R5 R6 R7 R8 R9]. constructor; rewrite ?Sz; try assumption.
      all: first [now apply Wk|now apply Cb|now apply St|now apply Tx|now apply Rt|apply Sg; [apply R1|exact R8]].
  - assert (D : decided result) by now apply (CheckBlock_decided p little SHA256 s_out s_in s_txout s_tx s_block).
    destruct result as [[]|d| |]; [now left|right; now exists d|easy..].
Qed.
End Rules.

Section Blocks.
  Variable p : platform.
  Variable SHA256 : list Z -> list Z.
  Context {BIGNUM : Type} {ops : BN_ops BIGNUM}.
  Context {tx_serializable : Serializable CTransaction} {block_serializable : Serializable CBlock}.
  Variable fTestNet : bool.
  Variable GetPoWHash : CBlock -> list Z.
  Variable CheckBlockSignature : CBlock -> bool.
  Variable AdjustedTime : Z.
  Variable uninitialised : nat -> nat -> list Z.
  Variable Verify : list Z -> list Z -> list Z -> bool.
  Variables RIPEMD160 SHA1 : list Z -> list Z.
  Variable disk : CDiskTxPos -> option CTransaction.
  Variable mempool : gmap (list Z) CTransaction.
  Variable CheckAnonInputs : CTransaction -> bool * Z.
  Variable h : heap.
  Variables nCoinbaseMaturity nBestHeight nTotalBlocksEstimate : Z.
  Variable db : txdb.
  Variable pindex : positive.
  Variable entry : CBlockIndex.
  Variable fJustCheck : bool.
  Variable read_prev : COutPoint -> option (CTransaction * option CBlock).
  Variables best over9000 : Z.
  Variable check_fortunastake_payment : CBlock -> tally -> verdict unit.
  Variable WriteBlockIndex_ok : positive -> bool.
  Variable UpdateTxIndex_ok : list Z -> CTxIndex -> bool.
  Hypothesis file_ok : nFile entry <> 0xFFFFFFFF.
  Abbreviation ConnectBlock := (ConnectBlock (ops := ops) p SHA256 fTestNet GetPoWHash CheckBlockSignature AdjustedTime uninitialised
    Verify RIPEMD160 SHA1 disk mempool CheckAnonInputs h nCoinbaseMaturity nBestHeight nTotalBlocksEstimate db pindex entry fJustCheck
    read_prev best over9000 check_fortunastake_payment WriteBlockIndex_ok UpdateTxIndex_ok).
  Abbreviation run := (run (ops := ops) p SHA256 Verify RIPEMD160 SHA1 disk mempool CheckAnonInputs h nCoinbaseMaturity
    nBestHeight nTotalBlocksEstimate db pindex entry).
  Abbreviation check_rewards := (check_rewards (ops := ops) p fTestNet entry read_prev best over9000).
  Abbreviation money_supply := (money_supply h entry).
  Abbreviation GetHash := (GetHash p SHA256).
  Abbreviation seen := (seen db).
  Abbreviation start vtx := (start_tally entry fJustCheck vtx).

(** The parts of a block that was connected. *)
Lemma ConnectBlock_parts block E s :
  Forall tx_coins_ok (vtx block) -> ConnectBlock block = Accepted (E, s) ->
  exists bs t, block_valid (ops := ops) p SHA256 fTestNet GetPoWHash CheckBlockSignature AdjustedTime uninitialised (negb fJustCheck) (negb fJustCheck) false block /\
    run (vtx block) bs (start (vtx block)) t /\ check_rewards block t = Accepted tt /\ money_supply t = Accepted s /\ E = if fJustCheck then db else seen t.
Proof.
  intros F H. unfold Blocks.ConnectBlock in H. apply accepted_then in H as ([] & B & H). apply CheckBlock_iff in B. apply accepted_then in H as (t & T & H).
  apply connect_txs_run in T as [bs R]; [|exact file_ok|exact F]. apply accepted_then in H as ([] & W & H). apply accepted_then in H as ([] & _ & H).
  apply accepted_then in H as (s' & M & H). accepted H. exists bs, t. destruct fJustCheck; [injection H as <- <-; now splits|]. do 2 accepted H.
  injection H as <- <-. now splits.
Qed.
Lemma seen_start vtx : seen (start vtx) = db.
Proof. unfold BlocksProof.seen, start_tally. cbn. apply (left_id_L ∅ (∪)). Qed.

(** C4: A block that is connected spends no coin twice: the coins its transactions take are all different, each was unspent in
    the index or is of a transaction of the block, and none is unspent in the index afterwards. *)
Theorem block_spends_once (block : CBlock) (E : txdb) (s : Z * Z) :
  Forall tx_coins_ok (vtx block) -> fJustCheck = false -> ConnectBlock block = Accepted (E, s) ->
  NoDup (concat (map spent_by (vtx block))) /\
  forall o, o ∈ concat (map spent_by (vtx block)) -> (unspent db o \/ exists tx, tx ∈ vtx block /\ hash o = GetHash tx) /\ ~ unspent E o.
Proof.
  intros F J H. apply ConnectBlock_parts in H as (bs & t & B & R & _ & _ & EE); [|exact F]. rewrite J in EE. subst E.
  destruct B as [_ _ _ _ _ _ D _ _]. eapply run_spends with (P := []) (S := []) in R as [N K];
    [|exact file_ok|exact F|exact D|intros; apply not_elem_of_nil|constructor|constructor|easy|easy|intros; now rewrite seen_start in *].
  split; [exact N|]. intros o Ho. destruct (K o Ho) as [[I|U] W]; (split; [|exact W]); [right|now left].
  apply list_elem_of_fmap in I as (tx & -> & I). now exists tx.
Qed.

(** C6: The blocks are undone: when a block was connected and written, [DisconnectInputs] on its transactions, last first,
    succeeds and gives the index before the block back, provided that its inputs are all coins ([plain]: none is anonymous),
    that its identifiers are not in the index before it, that the index is [canonical] (a place that is null is the
    null one the constructor makes), and that the database writes every entry. *)
Theorem block_disconnects (block : CBlock) (E : txdb) (s : Z * Z) :
  Forall tx_coins_ok (vtx block) -> Forall plain (vtx block) -> Forall (fun tx => db !! GetHash tx = None) (vtx block) -> canonical db ->
  fJustCheck = false -> ConnectBlock block = Accepted (E, s) ->
  DisconnectBlock_inputs p SHA256 (fun _ _ => true) block E = Accepted db.
Proof.
  intros F P N C J H. apply ConnectBlock_parts in H as (bs & t & B & R & _ & _ & EE); [|exact F]. rewrite J in EE. subst E.
  destruct B as [_ _ _ _ _ _ D _ _]. rewrite <- (seen_start (vtx block)) at 2. unfold DisconnectBlock_inputs.
  eapply run_undone; try eassumption; now rewrite seen_start.
Qed.

(** What a block may create: the subsidy of its proof of work or of the age of the coins of its coinstake. *)
Definition subsidy (block : CBlock) : option Z :=
  if block_is_pos block then
    match vtx block with
    | _ :: coinstake :: _ =>
        match GetCoinAge (ops := ops) p read_prev coinstake with
        | Some (Some nCoinAge) => GetProofOfStakeReward fTestNet over9000 best (to_int64 nCoinAge) 0
        | _ => None
        end
    | _ => None
    end
  else Some (pow_subsidy fTestNet best).

Lemma stake_reward_fees age fees r :
  GetProofOfStakeReward fTestNet over9000 best age fees = Some r -> GetProofOfStakeReward fTestNet over9000 best age 0 = Some (r - fees).
Proof.
  unfold GetProofOfStakeReward. destruct (over9000 <? best); [intros [= ->]; f_equal; lia|]. unfold mul_int64.
  destruct (_ && _) eqn:M; [|easy]. cbn [mbind option_bind]. assert (Q : forall x, add_int64 x fees = Some r -> - 2 ^ 63 <= x < 2 ^ 63 -> add_int64 x 0 = Some (r - fees)).
  { intros x A B. apply add_int64_value in A as ->. unfold add_int64. rewrite Z.add_0_r. replace (_ && _) with true by lia. f_equal. lia. }
  apply andb_true_iff in M as [M1 M2]. apply Z.leb_le in M1. apply Z.ltb_lt in M2. set (product := age * COIN_YEAR_REWARD) in *.
  assert (B : - 2 ^ 63 <= Z.quot product 365 < 2 ^ 63).
  { destruct (Z.le_ge_cases 0 product) as [S|S].
    - rewrite Z.quot_div_nonneg by lia. pose proof (Z.div_le_upper_bound product 365 product ltac:(lia) ltac:(lia)). pose proof (Z.div_pos product 365 S ltac:(lia)). lia.
    - replace product with (- - product) by lia. rewrite Z.quot_opp_l by lia. rewrite Z.quot_div_nonneg by lia.
      pose proof (Z.div_le_upper_bound (- product) 365 (- product) ltac:(lia) ltac:(lia)). pose proof (Z.div_pos (- product) 365 ltac:(lia) ltac:(lia)). lia. }
  destruct ((MAINNET_POSFIX <=? best) || fTestNet); cbn; intros A; now apply Q.
Qed.

Lemma run_head tx vtx bs t t' : run (tx :: vtx) bs t t' -> exists b bs' t1, bs = b :: bs' /\ run vtx bs' t1 t' /\
  t_nFees t1 = t_nFees t + (if ordinary tx then b - amounts (vout tx) else 0) /\
  t_nStakeReward t1 = (if negb (IsCoinBase tx) && IsCoinStake tx then amounts (vout tx) - b else t_nStakeReward t) /\ (IsCoinBase tx = true -> b = 0).
Proof. intros R. inversion R as [|? ? b bs' ? t1 ? C R']; subst. destruct C. exists b, bs', t1. now splits. Qed.

(** Coinstakes are where they are looked for: in a proof-of-stake block, or nowhere. *)
Definition coinstakes_seen (block : CBlock) : Prop := block_is_pos block = true \/ Forall (fun tx => IsCoinStake tx = false) (vtx block).

Lemma rewards_bound block bs t :
  block_valid (ops := ops) p SHA256 fTestNet GetPoWHash CheckBlockSignature AdjustedTime uninitialised (negb fJustCheck) (negb fJustCheck) false block ->
  coinstakes_seen block -> run (vtx block) bs (start (vtx block)) t -> check_rewards block t = Accepted tt ->
  exists s, subsidy block = Some s /\ total_out (vtx block) <= sum bs + s.
Proof.
  intros [_ _ _ (cb & rest & V & CB & NCB & _) ST _ _ _ _] K R W. unfold Blocks.check_rewards in W. unfold subsidy. rewrite V in *.
  apply run_head in R as (b & bs' & t1 & -> & R & Fe & SR & B0). rewrite (B0 CB). unfold ordinary in Fe. rewrite CB in Fe, SR. cbn [negb andb] in Fe, SR.
  change (t_nFees (start (cb :: rest))) with 0 in Fe. unfold total_out. cbn [map sum foldr].
  destruct (block_is_pos block) eqn:PS.
  - destruct (ST eq_refl) as (cb' & cs & others & o & [= <- ->] & O & Em & Sk & NS & _). apply Forall_cons in NCB as [NCs NCB].
    apply run_head in R as (b2 & bs2 & t2 & -> & R & Fe2 & SR2 & _). unfold ordinary in Fe2. rewrite NCs, Sk in Fe2, SR2. cbn [negb andb] in Fe2, SR2.
    apply run_ordinary in R as [Fe3 SR3]; [|apply Forall_forall; intros x Hx; rewrite Forall_forall in NCB, NS; unfold ordinary; now rewrite NCB, NS].
    apply bind_iff in W as (age & A & W). apply must_iff in A. rewrite A. destruct age as [age|]; [|discriminate].
    apply bind_iff in W as (r & Rw & W). apply must_iff in Rw. apply unless_iff in W as [W _]. apply negb_true_iff, Z.ltb_ge in W.
    exists (r - t_nFees t). split; [now apply stake_reward_fees|]. rewrite O. unfold CTxOut_IsEmpty in Em. apply andb_true_iff in Em as [Em _].
    apply Z.eqb_eq in Em. autorewrite with amounts. unfold total_out in Fe3. cbn [map foldr]. unfold sum in *. cbn [foldr]. lia.
  - destruct K as [K|K]; [congruence|]. rewrite V in K. apply Forall_cons in K as [_ K].
    apply run_ordinary in R as [Fe3 _]; [|apply Forall_forall; intros x Hx; rewrite Forall_forall in NCB, K; unfold ordinary; now rewrite NCB, K].
    apply bind_iff in W as (r & Rw & W). apply must_iff in Rw. apply bind_iff in W as (out & VO & W). apply value_out_ok in VO as ->.
    apply unless_iff in W as [W _]. apply negb_true_iff, Z.ltb_ge in W. apply add_int64_value in Rw as ->. eexists. split; [reflexivity|].
    unfold total_out in Fe3. unfold sum in *. lia.
Qed.

Lemma money_supply_ok t s : money_supply t = Accepted s ->
  s.1 = t_nValueOut t - t_nValueIn t + t_nFees t /\ 0 <= s.2 /\
  exists before, match pprev entry with None => before = 0 | Some a => exists b, h !! a = Some b /\ before = nMoneySupply b end /\
    s.2 = before + t_nValueOut t - t_nValueIn t - t_nAmountBurned t.
Proof.
  unfold Blocks.money_supply. intros H. apply accepted_then in H as (c & C & H). apply accepted_then in H as (m & M & H). apply accepted_then in H as (x & X & H).
  apply accepted_then in H as (u & U & H). apply accepted_then in H as (v & V & H). apply accepted_then in H as (w & W & H).
  apply accepted_must, add_int64_value in C as ->, M as ->, U as ->, V as ->, W as ->. destruct (Z.leb_spec 0 (x + t_nValueOut t + - t_nValueIn t + - t_nAmountBurned t)); [|discriminate].
  injection H as <-. cbn [fst snd]. splits; [lia|lia|]. exists x. split; [|lia]. destruct (pprev entry) as [a|]; [|now injection X].
  apply accepted_then in X as (b & B & X). apply accepted_must in B. injection X as <-. now exists b.
Qed.

(** C5: A block creates at most its subsidy: when a block is connected in which every coinstake is where the code looks for
    it ([coinstakes_seen]: a proof-of-stake block, or no coinstake at all; [late_coinstake_unlimited] below shows a block
    with another one), what its
    transactions pay out is at most what they bring, [bs], and the subsidy that is due to its proof of work or to the age of
    its stake; [nMint] is at most the subsidy and the fees, and [nMoneySupply] grows by what was paid out, less what was
    brought, less what was burned, without overflow. *)
Theorem block_creates (block : CBlock) (E : txdb) (nMint nMoneySupply' : Z) :
  Forall tx_coins_ok (vtx block) -> coinstakes_seen block -> ConnectBlock block = Accepted (E, (nMint, nMoneySupply')) ->
  exists bs t s before, run (vtx block) bs (start (vtx block)) t /\ subsidy block = Some s /\
    match pprev entry with None => before = 0 | Some a => exists b, h !! a = Some b /\ before = nMoneySupply b end /\
    total_out (vtx block) <= sum bs + s /\ nMint <= s + t_nFees t /\
    nMoneySupply' = before + total_out (vtx block) - sum bs - t_nAmountBurned t /\ 0 <= nMoneySupply'.
Proof.
  intros F K H. apply ConnectBlock_parts in H as (bs & t & B & R & W & M & _); [|exact F]. apply money_supply_ok in M as (M1 & M2 & before & M3 & M4).
  destruct (rewards_bound _ _ _ B K R W) as (s & S & T). pose proof R as RS. apply run_sums in RS as [O I].
  exists bs, t, s, before. cbn [fst snd] in *. change (t_nValueOut (start (vtx block))) with 0 in O. change (t_nValueIn (start (vtx block))) with 0 in I.
  splits; [exact R|exact S|exact M3|exact T|lia|lia|exact M2].
Qed.
End Blocks.

(** ** A block *)

Module BlockExample.
Definition p : platform := Platform SPH_LITTLE_ENDIAN true true.
Definition SHA256 (m : list Z) : list Z := repeat (foldr (fun b a => (a * 31 + b) mod 251) 7 m) 32.
Definition no_hash (m : list Z) : list Z := repeat 0 20.
#[local] Instance tx_ser : Serializable CTransaction := CTransaction_serializable p 0 0 0 0.
#[local] Instance block_ser : Serializable CBlock := CBlock_serializable p 0 0 0 0 0 0.

Abbreviation GetHash := (GetHash p SHA256).
(** A script that anyone can spend. *)
Definition anyone : list Z := [0x51].
Definition pay (v : Z) : CTxOut := TxOut v anyone.
Definition spend (o : COutPoint) : CTxIn := TxIn o [] [] 0xFFFFFFFF.
Definition coin (tx : CTransaction) (k : Z) : COutPoint := OutPoint (GetHash tx) k.

Definition funding : CTransaction := Transaction 1 900 [spend (OutPoint (repeat 5 8) 0)] [pay (100 * COIN); pay (50 * COIN)] 0.
Definition coinbase (v : Z) : CTransaction := Transaction 1 1000 [TxIn COutPoint_null [1; 2] [] 0] [pay v] 0.
(** The second transaction spends an output of the first. *)
Definition first_tx : CTransaction := Transaction 1 1000 [spend (coin funding 0)] [pay (99 * COIN)] 0.
Definition second_tx : CTransaction := Transaction 1 1000 [spend (coin first_tx 0)] [pay (98 * COIN)] 0.

Definition block_of (txs : list CTransaction) : CBlock :=
  Block 6 (zeros 8) (match BuildMerkleTree (node_hash p SHA256) (map GetHash txs) with Some (_, r) => r | None => [] end) 1100 0x1c0fffff 0 txs [].
Definition block : CBlock := block_of [coinbase (5 * COIN); first_tx; second_tx].

Definition b_of (height supply : Z) (prev : pointer) : CBlockIndex :=
  BlockIndex (zeros 8) prev None 1 500 (zeros 8) height 0 supply 0 0 0 COutPoint_null 0 [] 1 [] 1100 0x1c0fffff 0.
Definition before : CBlockIndex := b_of 0 (5000 * COIN) None.
Definition entry : CBlockIndex := b_of 1 0 (Some 1%positive).
Definition h : heap := <[2%positive := entry]> {[1%positive := before]}.
Definition db : txdb := {[GetHash funding := CTxIndex_of (DiskTxPos 1 100 120) 2]}.
Definition disk (pos : CDiskTxPos) : option CTransaction :=
  if decide (pos = DiskTxPos 1 100 120) then Some funding
  else if decide (pos_nBlockPos pos = 500) then Some first_tx else None.
Definition ConnectBlock (block : CBlock) : verdict (txdb * (Z * Z)) :=
  Blocks.ConnectBlock (ops := Model.ops) p SHA256 false (fun _ => zeros 8) (fun _ => true) 2000 (fun _ _ => []) (fun _ _ _ => true) no_hash no_hash
    disk ∅ (fun _ => (true, 0)) h 30 299 0 db 2 entry false (fun _ => None) 299 1000 (fun _ _ => Accepted tt) (fun _ => true) (fun _ _ => true) block.

(** Whether a computation is accepted, and its value: the maps are not compared. *)
Definition accepts {A} (m : verdict A) : bool := match m with Accepted _ => true | _ => false end.
Definition value {A} (d : A) (m : verdict A) : A := match m with Accepted a => a | _ => d end.
Lemma accepts_value {A} (d : A) (m : verdict A) : accepts m = true -> m = Accepted (value d m).
Proof. now destruct m. Qed.

Definition connected_db : txdb := fst (value (∅, (0, 0)) (ConnectBlock block)).
Lemma connects : ConnectBlock block = Accepted (connected_db, (5 * COIN, 5003 * COIN)).
Proof.
  rewrite (accepts_value (∅, (0, 0)) (ConnectBlock block)) by (vm_compute; reflexivity). unfold connected_db.
  assert (S : snd (value (∅, (0, 0)) (ConnectBlock block)) = (5 * COIN, 5003 * COIN)) by (vm_compute; reflexivity).
  rewrite <- S. now destruct (value _ _).
Qed.
Lemma coins_ok_example : Forall tx_coins_ok (vtx block).
Proof. apply (bool_decide_unpack (Forall (fun tx => Forall (fun o => 0 <= n o) (spent_by tx)) (vtx block))). vm_compute. exact I. Qed.
Lemma plain_example : Forall plain (vtx block).
Proof.
  apply (bool_decide_unpack (Forall (fun tx => IsCoinBase tx = false -> Forall (fun i => is_anon tx i = false) (vin tx)) (vtx block))).
  vm_compute. exact I.
Qed.
Lemma fresh_example : Forall (fun tx => db !! GetHash tx = None) (vtx block).
Proof. apply (bool_decide_unpack _). vm_compute. exact I. Qed.
Lemma canonical_example : canonical db.
Proof.
  intros k i q H. unfold db in H. apply lookup_singleton_Some in H as [_ <-]. cbn. intros Q _. apply list_elem_of_In in Q. cbn in Q. intuition congruence.
Qed.
Lemma coinstakes_example : coinstakes_seen block.
Proof. right. apply (bool_decide_unpack _). vm_compute. exact I. Qed.
Lemma coin_example : coin funding 0 ∈ concat (map spent_by (vtx block)).
Proof. apply (bool_decide_unpack _). vm_compute. exact I. Qed.
Lemma file_example : nFile entry <> 0xFFFFFFFF.
Proof. discriminate. Qed.
Lemma heap_example : heap_ok h.
Proof.
  intros a b H. unfold h in H. apply lookup_insert_Some in H as [[_ <-]|[_ H]]; [|apply lookup_singleton_Some in H as [_ <-]].
  - exists [(1%positive, before)]. split; [|reflexivity]. now constructor.
  - exists []. split; [constructor|reflexivity].
Qed.

Definition pos : CDiskTxPos := DiskTxPos 1 500 648.
Definition fetched : MapPrevTx := value ∅ (FetchInputs disk ∅ db ∅ true false first_tx).
Definition ConnectInputs : verdict txdb :=
  Coins.ConnectInputs (ops := Model.ops) p SHA256 (fun _ _ _ => true) no_hash no_hash (fun _ => (true, 0)) h 30 299 0 true false SCRIPT_VERIFY_NOCACHE true
    first_tx fetched ∅ pos (Some 2%positive).

Lemma example_digest m : length (SHA256 m) = 32%nat /\ bytes (SHA256 m).
Proof.
  split; [apply repeat_length|]. apply Forall_forall. intros x Hx. apply list_elem_of_In, repeat_spec in Hx as ->. destruct m as [|a m].
  - cbn [foldr]. unfold word. lia.
  - cbn [foldr]. pose proof (Z.mod_pos_bound (foldr (fun b a => (a * 31 + b) mod 251) 7 m * 31 + a) 251 ltac:(lia)). unfold word. lia.
Qed.
#[local] Instance word_decision w x : Decision (word w x).
Proof. unfold word. apply _. Defined.
Lemma block_typed : TransactionProof.block_ok 1 block.
Proof.
  unfold TransactionProof.block_ok, header_ok, vector_ok, tx_ok, vector_ok, txin_ok, txout_ok, outpoint_ok, script_ok, bytes, words_ok, signed_range.
  change (header_only 1) with false. cbn match. apply (bool_decide_unpack _). vm_compute. exact I.
Qed.
Lemma keys_example : Forall keys_compressed (vtx block).
Proof. unfold keys_compressed. apply (bool_decide_unpack _). vm_compute. exact I. Qed.

(** A proof-of-work block with a coinstake that is not its second transaction. *)
Definition late_coinstake : CTransaction := Transaction 1 1000 [spend (coin funding 1)] [TxOut 0 []; pay (8000000 * COIN)] 0.
Definition inflating : CBlock := block_of [coinbase (3 * COIN); first_tx; late_coinstake].
End BlockExample.

(** A coinstake that is not the second transaction of a proof-of-work block pays out eight million coins that no transaction
    brought, where the subsidy is three coins. *)
Theorem late_coinstake_unlimited :
  block_is_pos BlockExample.inflating = false /\ pow_subsidy false 299 = 3 * COIN /\
  exists E, BlockExample.ConnectBlock BlockExample.inflating = Accepted (E, (7999953 * COIN, 5000 * COIN + 7999952 * COIN)).
Proof.
  split; [reflexivity|]. split; [reflexivity|]. exists (fst (BlockExample.value (∅, (0, 0)) (BlockExample.ConnectBlock BlockExample.inflating))).
  rewrite (BlockExample.accepts_value (∅, (0, 0)) (BlockExample.ConnectBlock BlockExample.inflating)) at 1 by (vm_compute; reflexivity).
  assert (S : snd (BlockExample.value (∅, (0, 0)) (BlockExample.ConnectBlock BlockExample.inflating)) = (7999953 * COIN, 5000 * COIN + 7999952 * COIN))
    by (vm_compute; reflexivity).
  rewrite <- S. now destruct (BlockExample.value _ _).
Qed.

Lemma inputs_connected_witness :
  (exists pool' outs, connected (ops := Model.ops) BlockExample.p BlockExample.SHA256 (fun _ _ _ => true) BlockExample.no_hash BlockExample.no_hash
     (fun _ => (true, 0)) BlockExample.h 30 299 0 BlockExample.db true SCRIPT_VERIFY_NOCACHE true BlockExample.first_tx BlockExample.fetched ∅
     BlockExample.pos (Some 2%positive) pool' outs) /\
  exists txindex txPrev, BlockExample.fetched !! hash (BlockExample.coin BlockExample.funding 0) = Some (txindex, txPrev) /\ nTime txPrev <= 1000.
Proof.
  destruct (inputs_connected (ops := Model.ops) BlockExample.p BlockExample.SHA256 (fun _ _ _ => true) BlockExample.no_hash BlockExample.no_hash
    BlockExample.disk ∅ (fun _ => (true, 0)) BlockExample.h 30 299 0 BlockExample.db ∅ true false SCRIPT_VERIFY_NOCACHE true BlockExample.first_tx
    BlockExample.fetched BlockExample.pos (Some 2%positive) (BlockExample.value ∅ BlockExample.ConnectInputs)
    [(2%positive, BlockExample.entry); (1%positive, BlockExample.before)]) as [(outs & C) K].
  - reflexivity.
  - reflexivity.
  - apply (bool_decide_unpack (Forall (fun o => 0 <= n o) (coins BlockExample.first_tx))). vm_compute. exact I.
  - reflexivity.
  - exact BlockExample.heap_example.
  - repeat constructor.
  - apply BlockExample.accepts_value. vm_compute. reflexivity.
  - apply BlockExample.accepts_value. vm_compute. reflexivity.
  - split; [exists (BlockExample.value ∅ BlockExample.ConnectInputs), outs; exact C|].
    destruct (K (BlockExample.spend (BlockExample.coin BlockExample.funding 0))) as (i & t & E & T & _); [left|reflexivity|]. exists i, t. split; [exact E|exact T].
Defined.

Lemma CheckBlock_decides_witness :
  let check root block := CheckBlock (ops := Model.ops) (tx_serializable := CTransaction_serializable BlockExample.p 40 80 40 96)
    (block_serializable := CBlock_serializable BlockExample.p 40 80 40 96 200 1) BlockExample.p BlockExample.SHA256 false (fun _ => zeros 8)
    (fun _ => true) 2000 (fun _ _ => []) true root true block in
  check true BlockExample.block = Accepted tt /\
  block_rules BlockExample.p BlockExample.SHA256 40 80 40 96 200 false (zeros 8) (true = true) 2000 true true true BlockExample.block.
Proof.
  intros check. assert (E : check true BlockExample.block = Accepted tt) by (vm_compute; reflexivity). split; [exact E|].
  apply (CheckBlock_decides (spec := Model.spec) BlockExample.p BlockExample.SHA256 40 80 40 96 200 false (fun _ => zeros 8) (fun _ => true) 2000
    (fun _ _ => []) true true true BlockExample.block); [discriminate|exact BlockExample.example_digest|unfold sizes_ok; lia|exact BlockExample.block_typed
    |vm_compute; reflexivity|exact BlockExample.keys_example|exact (proj1 (zeros_ok 8))|exact E].
Defined.

Lemma block_spends_once_witness :
  NoDup (concat (map spent_by (vtx BlockExample.block))) /\ ~ unspent BlockExample.connected_db (BlockExample.coin BlockExample.funding 0).
Proof.
  destruct (block_spends_once (ops := Model.ops) BlockExample.p BlockExample.SHA256 false (fun _ => zeros 8) (fun _ => true) 2000 (fun _ _ => [])
    (fun _ _ _ => true) BlockExample.no_hash BlockExample.no_hash BlockExample.disk ∅ (fun _ => (true, 0)) BlockExample.h 30 299 0 BlockExample.db 2
    BlockExample.entry false (fun _ => None) 299 1000 (fun _ _ => Accepted tt) (fun _ => true) (fun _ _ => true) BlockExample.file_example
    BlockExample.block _ _ BlockExample.coins_ok_example eq_refl BlockExample.connects) as [N K].
  split; [exact N|]. exact (proj2 (K _ BlockExample.coin_example)).
Defined.

Lemma block_disconnects_witness :
  DisconnectBlock_inputs BlockExample.p BlockExample.SHA256 (fun _ _ => true) BlockExample.block BlockExample.connected_db = Accepted BlockExample.db.
Proof.
  exact (block_disconnects (ops := Model.ops) BlockExample.p BlockExample.SHA256 false (fun _ => zeros 8) (fun _ => true) 2000 (fun _ _ => [])
    (fun _ _ _ => true) BlockExample.no_hash BlockExample.no_hash BlockExample.disk ∅ (fun _ => (true, 0)) BlockExample.h 30 299 0 BlockExample.db 2
    BlockExample.entry false (fun _ => None) 299 1000 (fun _ _ => Accepted tt) (fun _ => true) (fun _ _ => true) BlockExample.file_example
    BlockExample.block _ _ BlockExample.coins_ok_example BlockExample.plain_example BlockExample.fresh_example BlockExample.canonical_example
    eq_refl BlockExample.connects).
Defined.

Lemma block_creates_witness : exists bs s, subsidy (ops := Model.ops) BlockExample.p false (fun _ => None) 299 1000 BlockExample.block = Some s /\
  total_out (vtx BlockExample.block) <= sum bs + s.
Proof.
  destruct (block_creates (ops := Model.ops) BlockExample.p BlockExample.SHA256 false (fun _ => zeros 8) (fun _ => true) 2000 (fun _ _ => [])
    (fun _ _ _ => true) BlockExample.no_hash BlockExample.no_hash BlockExample.disk ∅ (fun _ => (true, 0)) BlockExample.h 30 299 0 BlockExample.db 2
    BlockExample.entry false (fun _ => None) 299 1000 (fun _ _ => Accepted tt) (fun _ => true) (fun _ _ => true) BlockExample.file_example
    BlockExample.block _ _ _ BlockExample.coins_ok_example BlockExample.coinstakes_example BlockExample.connects) as (bs & t & s & b & _ & S & _ & T & _).
  exists bs, s. split; [exact S|exact T].
Defined.
