(* ===== verification/Base58.v ===== *)
(** * base58.cpp: addresses and keys as strings

    A string is the list of its characters; a function that takes a [const char*] reads it up to
    its terminator.  [None] is an exception of CBigNum or an assertion that fails. *)

From stdpp Require Import list.
From Stdlib Require Import ZArith Lia Bool.
From S2P Require Import Prelude SphTypes Uint256 Serialize Transaction BigNum.
Local Open Scope Z_scope.

(** ["123456789ABCDEFGHJKLMNPQRSTUVWXYZabcdefghijkmnopqrstuvwxyz"] *)
Definition pszBase58 : list Z :=
  [49; 50; 51; 52; 53; 54; 55; 56; 57;
   65; 66; 67; 68; 69; 70; 71; 72; 74; 75; 76; 77; 78; 80; 81; 82; 83; 84; 85; 86; 87; 88; 89; 90;
   97; 98; 99; 100; 101; 102; 103; 104; 105; 106; 107; 109; 110; 111; 112; 113; 114; 115; 116; 117; 118; 119; 120; 121; 122].

(** [strchr (psz, c) - psz] for a character that is not the terminator. *)
Fixpoint strchr (psz : list Z) (c : Z) : option Z :=
  match psz with
  | [] => None
  | d :: psz => if d =? c then Some 0 else let* i := strchr psz c in Some (i + 1)
  end.

(** How many elements at the front are [c]. *)
Fixpoint leading (c : Z) (l : list Z) : nat := match l with d :: l => if d =? c then S (leading c l) else O | [] => O end.

Section Base58.
  Context {BIGNUM : Type} {ops : BN_ops BIGNUM}.

(** ** Strings of digits *)

(** [while (bn > bn0)]: the characters appended; the number has at most [fuel] bits. *)
Fixpoint encode_loop (fuel : nat) (bn : BIGNUM) : option (list Z) :=
  if op_gt bn (of_long 0) then
    match fuel with
    | O => None
    | S fuel =>
        let* (dv, rem) := BN_div bn (of_long 58) in
        let c := nth (Z.to_nat (trunc 32 (BN_get_word rem))) pszBase58 0 in
        let* str := encode_loop fuel dv in
        Some (c :: str)
    end
  else Some [].
Definition EncodeBase58 (vch : list Z) : option (list Z) :=
  let bn := setvch (rev vch ++ [0]) in
  let* str := encode_loop (8 * length vch) bn in
  Some (rev (str ++ repeat (nth 0 pszBase58 0) (leading 0 vch))).

(** The number, or false. *)
Fixpoint decode_loop (psz : list Z) (bn : BIGNUM) : option (option BIGNUM) :=
  match psz with
  | [] => Some (Some bn)
  | c :: rest =>
      match strchr pszBase58 c with
      | None => Some (match skip_spaces psz with [] => Some bn | _ => None end)
      | Some i =>
          let* bn := BN_mul bn (of_long 58) in
          let* bn := BN_add bn (BN_set_word i) in
          decode_loop rest bn
      end
  end.
(** [vchTmp] without its sign byte. *)
Definition trim_sign (vchTmp : list Z) : list Z :=
  match rev vchTmp with
  | last :: before :: _ => if (last =? 0) && (0x80 <=? before) then removelast vchTmp else vchTmp
  | _ => vchTmp
  end.
Definition DecodeBase58 (psz : list Z) : option (bool * list Z) :=
  let psz := skip_spaces psz in
  let* r := decode_loop psz (of_long 0) in
  match r with
  | None => Some (false, [])
  | Some bn => Some (true, repeat 0 (leading (nth 0 pszBase58 0) psz) ++ rev (trim_sign (getvch bn)))
  end.

(** ** With a checksum *)

  Variable p : platform.
  Variable SHA256 : list Z -> list Z.

Definition checksum (vch : list Z) : list Z := firstn 4 (memory p (Hash p SHA256 vch)).
Definition EncodeBase58Check (vchIn : list Z) : option (list Z) := EncodeBase58 (vchIn ++ checksum vchIn).
Definition DecodeBase58Check (psz : list Z) : option (bool * list Z) :=
  let* (ok, vchRet) := DecodeBase58 psz in
  let body := firstn (length vchRet - 4) vchRet in
  if negb ok || (length vchRet <? 4)%nat then Some (false, [])
  else if bool_decide (checksum body = skipn (length vchRet - 4) vchRet) then Some (true, body) else Some (false, []).

(** ** CBase58Data *)

Record CBase58Data := Base58Data { d_nVersion : Z; vchData : list Z }.

Definition SetData (nVersionIn : Z) (pdata : list Z) : CBase58Data := Base58Data (trunc 8 nVersionIn) pdata.
Definition SetString (psz : list Z) : option (bool * CBase58Data) :=
  let* (rc58, vchTemp) := DecodeBase58Check psz in
  match vchTemp with
  | v :: rest => if rc58 : bool then Some (true, Base58Data v rest) else Some (false, Base58Data 0 [])
  | [] => Some (false, Base58Data 0 [])
  end.
Definition ToString (d : CBase58Data) : option (list Z) := EncodeBase58Check (d_nVersion d :: vchData d).

(** ** CBitcoinAddress and CBitcoinSecret *)

  Variable fTestNet : bool.

Definition PUBKEY_ADDRESS : Z := 30.
Definition SCRIPT_ADDRESS : Z := 90.
Definition PUBKEY_ADDRESS_TEST : Z := 5.
Definition SCRIPT_ADDRESS_TEST : Z := 127.

(** The alternatives of [CTxDestination]; the stealth address is not looked into. *)
Inductive CTxDestination := NoDestination | KeyID (id : list Z) | ScriptID (id : list Z) | StealthAddress.

(** [Set]: false for what has no such address. *)
Definition Set_dest (dest : CTxDestination) (d : CBase58Data) : bool * CBase58Data :=
  match dest with
  | KeyID id => (true, SetData (if fTestNet then PUBKEY_ADDRESS_TEST else PUBKEY_ADDRESS) (firstn 20 (memory p id)))
  | ScriptID id => (true, SetData (if fTestNet then SCRIPT_ADDRESS_TEST else SCRIPT_ADDRESS) (firstn 20 (memory p id)))
  | StealthAddress | NoDestination => (false, d)
  end.
Definition IsValid (d : CBase58Data) : bool :=
  let v := d_nVersion d in
  let nExpectedSize := 20%nat in
  if (v =? PUBKEY_ADDRESS) || (v =? SCRIPT_ADDRESS) then eqb false fTestNet && (length (vchData d) =? nExpectedSize)%nat
  else if (v =? PUBKEY_ADDRESS_TEST) || (v =? SCRIPT_ADDRESS_TEST) then eqb true fTestNet && (length (vchData d) =? nExpectedSize)%nat
  else false.
Definition is_pubkey (d : CBase58Data) : bool := (d_nVersion d =? PUBKEY_ADDRESS) || (d_nVersion d =? PUBKEY_ADDRESS_TEST).
Definition is_script (d : CBase58Data) : bool := (d_nVersion d =? SCRIPT_ADDRESS) || (d_nVersion d =? SCRIPT_ADDRESS_TEST).
Definition Get_dest (d : CBase58Data) : CTxDestination :=
  if negb (IsValid d) then NoDestination
  else if is_pubkey d then KeyID (of_memory 5 p (firstn 20 (vchData d)))
  else if is_script d then ScriptID (of_memory 5 p (firstn 20 (vchData d)))
  else NoDestination.
Definition GetKeyID (d : CBase58Data) : option (list Z) :=
  if negb (IsValid d) then None else if is_pubkey d then Some (of_memory 5 p (firstn 20 (vchData d))) else None.
Definition IsScript (d : CBase58Data) : bool := if negb (IsValid d) then false else is_script d.

(** A secret of 32 bytes, and the byte 1 after it when its key is compressed. *)
Definition secret_version : Z := 128 + (if fTestNet then PUBKEY_ADDRESS_TEST else PUBKEY_ADDRESS).
Definition SetSecret (vchSecret : list Z) (fCompressed : bool) : option CBase58Data :=
  if negb (length vchSecret =? 32)%nat then None
  else
    let d := SetData secret_version vchSecret in
    Some (if fCompressed then Base58Data (d_nVersion d) (vchData d ++ [1]) else d).
Definition GetSecret (d : CBase58Data) : option (list Z * bool) :=
  if (length (vchData d) <? 32)%nat then None else Some (firstn 32 (vchData d), (length (vchData d) =? 33)%nat).
Definition IsValid_secret (d : CBase58Data) : bool :=
  let size_ok := (length (vchData d) =? 32)%nat || ((length (vchData d) =? 33)%nat && (nth 32 (vchData d) 0 =? 1)) in
  if d_nVersion d =? 128 + PUBKEY_ADDRESS then eqb false fTestNet && size_ok
  else if d_nVersion d =? 128 + PUBKEY_ADDRESS_TEST then eqb true fTestNet && size_ok
  else false.
Definition SetString_secret (psz : list Z) : option (bool * CBase58Data) :=
  let* (ok, d) := SetString psz in Some (ok && IsValid_secret d, d).
End Base58.
