(* ===== verification/Base58Theorems.v ===== *)
(** * Addresses as strings

    A string of base58.cpp is decoded exactly when it is, up to spaces around it, the encoding of the
    bytes it is decoded to; so addresses and secrets are read back. *)

From stdpp Require Import list.
From Stdlib Require Import ZArith Lia Bool.
From S2P Require Import Prelude SphTypes Uint256 Uint256Proof Uint256Hex Serialize Transaction BigNum BigNumProof BigNumTheorems Base58.
Local Open Scope Z_scope.

(** ** Numbers without leading zeros *)

Definition be (B : Z) (s : list Z) : Z := base_val B (rev s).
Definition normal (B : Z) (s : list Z) : Prop := digits B s /\ match s with d :: _ => d <> 0 | [] => True end.

Lemma be_snoc B s d : be B (s ++ [d]) = B * be B s + d.
Proof. unfold be. rewrite rev_app_distr. cbn [rev app base_val]. lia. Qed.
Lemma be_cons B d s : be B (d :: s) = d * B ^ Z.of_nat (length s) + be B s.
Proof. unfold be. cbn [rev]. rewrite base_val_app, length_rev. cbn [base_val]. lia. Qed.
Lemma be_zeros B k s : be B (repeat 0 k ++ s) = be B s.
Proof. induction k as [|k IH]; [reflexivity|]. cbn [repeat app]. rewrite be_cons, IH. lia. Qed.
Lemma be_range B s : 0 < B -> digits B s -> 0 <= be B s < B ^ Z.of_nat (length s).
Proof. intros HB D. unfold be. rewrite <- (length_rev s). apply base_val_range; [exact HB|now apply Forall_rev]. Qed.

Lemma normal_range B d s : 1 < B -> normal B (d :: s) -> B ^ Z.of_nat (length s) <= be B (d :: s) < B ^ Z.of_nat (S (length s)).
Proof.
  intros HB [D N]. split; [|apply (be_range B (d :: s)); [lia|exact D]]. apply Forall_cons in D as [Hd D].
  pose proof (be_range B s ltac:(lia) D). rewrite be_cons. nia.
Qed.
Lemma normal_zero B s : 1 < B -> normal B s -> be B s = 0 -> s = [].
Proof.
  intros HB N E. destruct s as [|d s]; [reflexivity|]. pose proof (normal_range B d s HB N) as R.
  pose proof (Z.pow_pos_nonneg B (Z.of_nat (length s)) ltac:(lia) ltac:(lia)). lia.
Qed.
Lemma normal_unique B a b : 1 < B -> normal B a -> normal B b -> be B a = be B b -> a = b.
Proof.
  intros HB Na Nb E. destruct a as [|x a]; [symmetry; apply (normal_zero B); [exact HB|exact Nb|now rewrite <- E]|].
  destruct b as [|y b]; [now apply (normal_zero B) in E|]. pose proof (normal_range B x a HB Na) as Ra. pose proof (normal_range B y b HB Nb) as Rb.
  assert (L : length a = length b).
  { destruct (Nat.lt_trichotomy (length a) (length b)) as [C|[C|C]]; [exfalso|exact C|exfalso].
    - pose proof (Z.pow_le_mono_r B (Z.of_nat (S (length a))) (Z.of_nat (length b)) ltac:(lia) ltac:(lia)). lia.
    - pose proof (Z.pow_le_mono_r B (Z.of_nat (S (length b))) (Z.of_nat (length a)) ltac:(lia) ltac:(lia)). lia. }
  rewrite <- (rev_involutive (x :: a)), <- (rev_involutive (y :: b)). f_equal. destruct Na as [Da _], Nb as [Db _].
  apply (base_val_inj B); [lia|now apply Forall_rev|now apply Forall_rev|rewrite !length_rev; cbn; lia|exact E].
Qed.

(** The zeros in front, and the rest. *)
Lemma leading_split s : s = repeat 0 (leading 0 s) ++ skipn (leading 0 s) s.
Proof. induction s as [|d s IH]; [reflexivity|]. cbn [leading]. destruct (Z.eqb_spec d 0) as [->|]; [|reflexivity]. cbn. now f_equal. Qed.
Lemma leading_normal B s : digits B s -> normal B (skipn (leading 0 s) s).
Proof.
  intros D. split; [now apply Forall_drop|]. clear D. induction s as [|d s IH]; [exact I|]. cbn [leading]. destruct (Z.eqb_spec d 0); [exact IH|assumption].
Qed.
Lemma leading_zeros B k s : normal B s -> leading 0 (repeat 0 k ++ s) = k.
Proof.
  intros [_ N]. induction k as [|k IH]; cbn; [|now rewrite IH]. destruct s as [|d s]; [reflexivity|]. cbn. now rewrite (proj2 (Z.eqb_neq d 0) N).
Qed.

(** ** The alphabet *)

Definition ch (i : Z) : Z := nth (Z.to_nat i) pszBase58 0.

Lemma digit_cases (P : Z -> bool) : forallb P (map Z.of_nat (seq 0 58)) = true -> forall i, 0 <= i < 58 -> P i = true.
Proof.
  intros H i Hi. rewrite forallb_forall in H. apply H, in_map_iff. exists (Z.to_nat i). split; [lia|apply in_seq; lia].
Qed.
Lemma strchr_ch i : 0 <= i < 58 -> strchr pszBase58 (ch i) = Some i.
Proof.
  intros Hi. pose proof (digit_cases (fun i => match strchr pszBase58 (ch i) with Some j => j =? i | None => false end) ltac:(vm_compute; reflexivity) i Hi) as H.
  cbv beta in H. destruct (strchr pszBase58 (ch i)); [|discriminate]. f_equal. lia.
Qed.
Lemma ch_shape i : 0 <= i < 58 -> isspace (ch i) = false /\ ((ch i =? 49) = (i =? 0)).
Proof.
  intros Hi. pose proof (digit_cases (fun i => negb (isspace (ch i)) && Bool.eqb (ch i =? 49) (i =? 0)) ltac:(vm_compute; reflexivity) i Hi) as H.
  apply andb_true_iff in H as [H1 H2]. apply negb_true_iff in H1. apply eqb_prop in H2. now split.
Qed.
Lemma strchr_inv l c i : strchr l c = Some i -> nth (Z.to_nat i) l 0 = c /\ 0 <= i < Z.of_nat (length l).
Proof.
  revert i. induction l as [|d l IH]; intros i H; [discriminate|]. cbn [strchr length] in *. destruct (Z.eqb_spec d c) as [->|N].
  - injection H as <-. split; [reflexivity|lia].
  - destruct (strchr l c) as [j|]; [|discriminate]. injection H as <-. destruct (IH j eq_refl) as [E R]. split; [|lia].
    replace (Z.to_nat (j + 1)) with (S (Z.to_nat j)) by lia. exact E.
Qed.
Lemma isspace_cases c : isspace c = true -> c = 32 \/ c = 9 \/ c = 10 \/ c = 11 \/ c = 12 \/ c = 13.
Proof. unfold isspace. lia. Qed.
Lemma strchr_space c : isspace c = true -> strchr pszBase58 c = None /\ (c =? 49) = false.
Proof. intros H. apply isspace_cases in H as [->|[->|[->|[->|[->| ->]]]]]; split; reflexivity. Qed.

Definition spaces (s : list Z) : Prop := Forall (fun c => isspace c = true) s.

Lemma skip_spaces_split s : exists sp, s = sp ++ skip_spaces s /\ spaces sp.
Proof.
  induction s as [|c s (sp & E & F)]; [exists []; repeat constructor|]. cbn [skip_spaces]. destruct (isspace c) eqn:C; [|exists []; repeat constructor].
  exists (c :: sp). split; [cbn; congruence|now constructor].
Qed.
Lemma skip_spaces_all s : spaces s <-> skip_spaces s = [].
Proof.
  unfold spaces. induction s as [|c s IH]; [split; [reflexivity|constructor]|]. cbn [skip_spaces]. rewrite Forall_cons. destruct (isspace c); [tauto|]. split; [intros [E _]|intros E]; discriminate.
Qed.
Lemma skip_spaces_app sp s : spaces sp -> skip_spaces (sp ++ s) = skip_spaces s.
Proof. intros F. induction F as [|c sp C F IH]; [reflexivity|]. cbn. now rewrite C. Qed.

(** ** Encoding and decoding *)

Section Strings.
  Context {BIGNUM : Type} {ops : BN_ops BIGNUM} {spec : BN_spec ops}.
  Implicit Types b : BIGNUM.

Lemma of_58 : bn (of_long 58) = 58.
Proof. now apply of_long_ok. Qed.
Lemma of_0 : bn (of_long 0) = 0.
Proof. now apply of_long_ok. Qed.
Lemma gt_0 b : op_gt b (of_long 0) = (0 <? bn b).
Proof. unfold op_gt. rewrite cmp_spec, of_0. unfold Z.ltb. rewrite (Z.compare_antisym (bn b) 0). now destruct (bn b ?= 0). Qed.

Lemma encode_loop_ok fuel b :
  0 <= bn b < 2 ^ Z.of_nat fuel -> exists ds, encode_loop fuel b = Some (map ch (rev ds)) /\ normal 58 ds /\ be 58 ds = bn b.
Proof.
  revert b. induction fuel as [|fuel IH]; intros b R; cbn [encode_loop]; rewrite gt_0; destruct (Z.ltb_spec 0 (bn b)) as [P|P];
    try (exists []; split; [reflexivity|]; split; [split; [constructor|exact I]|cbn; lia]); [change (2 ^ Z.of_nat 0) with 1 in R; lia|].
  destruct (div_spec b (of_long 58)) as (q & r & -> & Q & M); [now rewrite of_58|]. rewrite of_58 in Q, M.
  rewrite Z.quot_div_nonneg in Q by lia. rewrite Z.rem_mod_nonneg in M by lia. cbn match.
  pose proof (Z.div_mod (bn b) 58 ltac:(lia)) as E. pose proof (Z.mod_pos_bound (bn b) 58 ltac:(lia)) as B.
  rewrite Nat2Z.inj_succ, Z.pow_succ_r in R by lia. destruct (IH q) as (ds & -> & [D N] & V); [lia|].
  exists (ds ++ [bn r]). rewrite rev_app_distr, be_snoc, V. split; [|split; [split|lia]].
  - rewrite get_word_spec, trunc_id by (unfold word; lia). replace (Z.min (Z.abs (bn r)) (2 ^ 64 - 1)) with (bn r) by lia. reflexivity.
  - apply Forall_app. split; [exact D|]. constructor; [lia|constructor].
  - destruct ds; [|exact N]. cbn. change (be 58 []) with 0 in V. lia.
Qed.

Lemma EncodeBase58_ok vch :
  bytes vch -> Z.of_nat (length vch) < 2 ^ 31 - 1 ->
  exists ds, EncodeBase58 vch = Some (map ch (repeat 0 (leading 0 vch) ++ ds)) /\ normal 58 ds /\ be 58 ds = be 256 vch.
Proof.
  intros B L. unfold EncodeBase58. cbv zeta.
  assert (V : bn (setvch (rev vch ++ [0])) = be 256 vch).
  { rewrite setvch_ok; [|apply Forall_app; split; [now apply Forall_rev|constructor; [split; lia|constructor]]|rewrite length_app, length_rev; cbn; lia].
    rewrite rev_app_distr, rev_involutive. cbn [rev app]. rewrite mpi_value_nonneg; [|constructor; [split; lia|exact B]|lia].
    change (be_val (0 :: vch)) with (be 256 (0 :: vch)). rewrite be_cons. lia. }
  destruct (encode_loop_ok (8 * length vch) (setvch (rev vch ++ [0]))) as (ds & -> & N & E).
  { rewrite V. pose proof (be_range 256 vch ltac:(lia) B) as R. rewrite pow_256 in R. replace (Z.of_nat (8 * length vch)) with (8 * Z.of_nat (length vch)) by lia. exact R. }
  exists ds. rewrite <- V. split; [|now split]. cbn match. f_equal. rewrite rev_app_distr, map_app, map_rev, rev_involutive, rev_repeat. f_equal.
  change (nth 0 pszBase58 0) with (ch 0). clear. induction (leading 0 vch) as [|k IH]; cbn; [reflexivity|]. now f_equal.
Qed.

(** What the loop reads. *)
Lemma decode_loop_reads ds t b : digits 58 ds ->
  exists b', decode_loop (map ch ds ++ t) b = decode_loop t b' /\ bn b' = bn b * 58 ^ Z.of_nat (length ds) + be 58 ds.
Proof.
  intros D. revert b. induction D as [|d ds Hd D IH]; intros b; [exists b; split; [reflexivity|cbn; lia]|].
  cbn [map app decode_loop]. rewrite strchr_ch by exact Hd. destruct (mul_spec b (of_long 58)) as (m & -> & M). rewrite of_58 in M. cbn match.
  destruct (add_spec m (BN_set_word d)) as (s & -> & S). rewrite set_word_spec in S by (unfold word; lia). cbn match.
  destruct (IH s) as (b' & -> & E). exists b'. split; [reflexivity|]. rewrite E, S, M, be_cons. cbn [length]. rewrite Nat2Z.inj_succ, Z.pow_succ_r by lia. ring.
Qed.
Lemma decode_loop_spaces t b : spaces t -> decode_loop t b = Some (Some b).
Proof.
  intros F. destruct t as [|c t]; [reflexivity|]. cbn [decode_loop]. pose proof F as F'. apply Forall_cons in F' as [C _].
  destruct (strchr_space c C) as [-> _]. apply skip_spaces_all in F. now rewrite F.
Qed.
Lemma decode_loop_inv psz b : exists r, decode_loop psz b = Some r /\
  forall b', r = Some b' -> exists ds sp, psz = map ch ds ++ sp /\ digits 58 ds /\ spaces sp.
Proof.
  revert b. induction psz as [|c psz IH]; intros b; [exists (Some b); split; [reflexivity|]; intros; exists [], []; repeat constructor|]. cbn [decode_loop].
  destruct (strchr pszBase58 c) as [i|] eqn:C.
  - destruct (mul_spec b (of_long 58)) as (m & -> & _). cbn match. destruct (add_spec m (BN_set_word i)) as (s & -> & _). cbn match.
    destruct (IH s) as (r & -> & K). exists r. split; [reflexivity|]. intros b' E. destruct (K b' E) as (ds & sp & -> & D & S).
    apply strchr_inv in C as [<- R]. exists (i :: ds), sp. split; [reflexivity|]. split; [|exact S]. constructor; [exact R|exact D].
  - eexists. split; [reflexivity|]. intros b' E. exists [], (c :: psz). split; [reflexivity|]. split; [constructor|]. apply skip_spaces_all.
    destruct (skip_spaces (c :: psz)); [reflexivity|discriminate].
Qed.

Lemma removelast_rev {A} (x : A) l : removelast (rev (x :: l)) = rev l.
Proof. cbn [rev]. apply removelast_last. Qed.
(** The bytes that are read from a number, without the sign. *)
Lemma trim_sign_ok b : 0 <= bn b -> normal 256 (rev (trim_sign (getvch b))) /\ be 256 (rev (trim_sign (getvch b))) = bn b.
Proof.
  intros P. rewrite getvch_ok. pose proof (bytes_mpi_bytes (bn b)) as B. pose proof (be_val_mpi_bytes (bn b)) as V.
  unfold mpi_word in V. rewrite (proj2 (Z.ltb_ge (bn b) 0)), Z.abs_eq in V by lia. change (be_val (mpi_bytes (bn b))) with (be 256 (mpi_bytes (bn b))) in V.
  pose proof (length_mpi_bytes (bn b)) as L. unfold trim_sign. rewrite rev_involutive. set (m := mpi_bytes (bn b)) in *.
  destruct m as [|h m]; [split; [split; [constructor|exact I]|cbn in *; lia]|].
  destruct (Z.eq_dec h 0) as [->|H].
  - destruct m as [|h2 m]; [cbn in V; exfalso; assert (Z0 : bn b = 0) by lia; rewrite Z0 in L; discriminate L|].
    rewrite be_cons in V. pose proof B as B'. apply Forall_cons in B' as [_ B']. pose proof B' as B2. apply Forall_cons in B2 as [H2 B2].
    assert (H128 : 0x80 <= h2).
    { destruct (Z.eq_dec (bn b) 0) as [Z0|N0]; [rewrite Z0 in L; discriminate L|]. destruct (mpi_size_bounds (bn b) N0) as (_ & _ & K).
      rewrite <- L in K. rewrite Z.abs_eq in K by lia. pose proof (be_range 256 m ltac:(lia) B2) as R. assert (V2 : bn b = h2 * 256 ^ Z.of_nat (length m) + be 256 m) by (rewrite <- be_cons; lia).
      rewrite pow_256 in R, V2. clear V. cbn [length] in *.
      replace (8 * (Z.of_nat (S (S (length m))) - 1) - 1) with (8 * Z.of_nat (length m) + 7) in K by lia. rewrite Z.pow_add_r in K by lia. change (2 ^ 7) with 128 in K.
      set (Q := 2 ^ (8 * Z.of_nat (length m))) in *. nia. }
    rewrite (proj2 (Z.leb_le _ _) H128). cbn [Z.eqb andb]. rewrite removelast_rev, rev_involutive. split; [split; [exact B'|lia]|lia].
  - assert (E : rev (match m with before :: _ => if (h =? 0) && (128 <=? before) then removelast (rev (h :: m)) else rev (h :: m) | [] => rev (h :: m) end) = h :: m).
    { rewrite (proj2 (Z.eqb_neq h 0) H). cbn [andb]. destruct m; now rewrite rev_involutive. }
    rewrite E. split; [now split|lia].
Qed.

(** What surrounds the encoded bytes in a string that is accepted. *)
Definition padded (s psz : list Z) : Prop := exists before after, psz = before ++ s ++ after /\ spaces before /\ spaces after.

Lemma leading_ch ds sp : digits 58 ds -> spaces sp -> leading 49 (map ch ds ++ sp) = leading 0 ds.
Proof.
  intros D S. induction D as [|d ds Hd D IH]; cbn [map app leading].
  - destruct S as [|c sp C _]; [reflexivity|]. cbn [leading]. now destruct (strchr_space c C) as [_ ->].
  - destruct (ch_shape d Hd) as [_ ->]. destruct (d =? 0); [now rewrite IH|reflexivity].
Qed.
Lemma skip_spaces_ch ds sp : digits 58 ds -> spaces sp -> exists sp', skip_spaces (map ch ds ++ sp) = map ch ds ++ sp' /\ spaces sp'.
Proof.
  intros D S. destruct D as [|d ds Hd D]; [exists []; split; [now apply skip_spaces_all|constructor]|].
  exists sp. split; [|exact S]. cbn [map app skip_spaces]. now destruct (ch_shape d Hd) as [-> _].
Qed.

(** Decoding a string of digits. *)
Lemma decode_digits ds sp : digits 58 ds -> spaces sp ->
  exists t, DecodeBase58 (map ch ds ++ sp) = Some (true, repeat 0 (leading 0 ds) ++ t) /\ normal 256 t /\ be 256 t = be 58 ds.
Proof.
  intros D S. unfold DecodeBase58. cbv zeta. destruct (skip_spaces_ch ds sp D S) as (sp' & -> & S').
  destruct (decode_loop_reads ds sp' (of_long 0) D) as (b & -> & E). rewrite decode_loop_spaces by exact S'. cbn match.
  rewrite of_0 in E. pose proof (be_range 58 ds ltac:(lia) D) as R. destruct (trim_sign_ok b) as [N V]; [lia|].
  change (nth 0 pszBase58 0) with 49. rewrite leading_ch by assumption. eexists. split; [reflexivity|]. split; [exact N|lia].
Qed.
(** A string that is accepted is digits, between spaces. *)
Lemma decode_accepts psz : exists r, DecodeBase58 psz = Some r /\ (r.1 = false -> r.2 = []) /\
  (r.1 = true -> exists before ds after, psz = before ++ map ch ds ++ after /\ digits 58 ds /\ spaces before /\ spaces after /\
    DecodeBase58 psz = DecodeBase58 (map ch ds ++ after)).
Proof.
  destruct (skip_spaces_split psz) as (before & E & S). unfold DecodeBase58 at 1. cbv zeta.
  destruct (decode_loop_inv (skip_spaces psz) (of_long 0)) as (r & -> & K). cbn match. destruct r as [b|]; [|now exists (false, [])].
  eexists. split; [reflexivity|]. split; [discriminate|]. intros _. destruct (K b eq_refl) as (ds & after & Q & D & S').
  exists before, ds, after. rewrite E, Q. splits; try easy. rewrite <- Q. unfold DecodeBase58. now rewrite skip_spaces_app by exact S.
Qed.

Lemma norm_length v ds : normal 256 v -> digits 58 ds -> be 256 v = be 58 ds -> (length v <= length ds)%nat.
Proof.
  intros N D E. destruct v as [|x v]; [cbn; lia|]. pose proof (normal_range 256 x v ltac:(lia) N) as R. pose proof (be_range 58 ds ltac:(lia) D) as R'.
  destruct (le_lt_dec (length (x :: v)) (length ds)) as [|C]; [assumption|exfalso]. cbn [length] in C.
  pose proof (Z.pow_le_mono_r 256 (Z.of_nat (length ds)) (Z.of_nat (length v)) ltac:(lia) ltac:(lia)).
  pose proof (Z.pow_le_mono_l 58 256 (Z.of_nat (length ds)) ltac:(lia)). lia.
Qed.

Lemma base58_iff psz v : Z.of_nat (length psz) < 2 ^ 31 - 1 ->
  DecodeBase58 psz = Some (true, v) <-> bytes v /\ Z.of_nat (length v) < 2 ^ 31 - 1 /\ exists s, padded s psz /\ EncodeBase58 v = Some s.
Proof.
  intros L. split.
  - intros H. destruct (decode_accepts psz) as (r & H' & _ & K). rewrite H in H'. injection H' as <-.
    destruct (K eq_refl) as (before & ds & after & E & D & S1 & S2 & Q). rewrite H in Q. destruct (decode_digits ds after D S2) as (t & Q' & N & V).
    rewrite Q' in Q. injection Q as ->. set (k := leading 0 ds). pose proof (leading_normal 58 ds D) as N'. pose proof (leading_split ds) as Sp. fold k in N', Sp.
    assert (V' : be 256 t = be 58 (skipn k ds)) by (rewrite V, Sp at 1; apply be_zeros).
    assert (Lt : (length t <= length (skipn k ds))%nat) by (apply norm_length; [exact N|apply N'|exact V']).
    assert (Lv : Z.of_nat (length (repeat 0 k ++ t)) < 2 ^ 31 - 1).
    { apply (f_equal (@length Z)) in E, Sp. rewrite !length_app, length_map in E. rewrite length_app, repeat_length in *. lia. }
    assert (B : bytes (repeat 0 k ++ t)) by (apply Forall_app; split; [apply Forall_repeat'; split; lia|apply N]).
    split; [exact B|]. split; [exact Lv|]. destruct (EncodeBase58_ok _ B Lv) as (ds' & -> & N2 & V2). rewrite (leading_zeros 256), be_zeros in * by exact N.
    eexists. split; [|reflexivity]. exists before, after. splits; [|exact S1|exact S2].
    rewrite E, (normal_unique 58 ds' (skipn k ds)) by (lia || assumption || congruence). now rewrite <- Sp.
  - intros (B & Lv & s & (before & after & -> & S1 & S2) & E). destruct (EncodeBase58_ok v B Lv) as (ds & E' & N & V). rewrite E in E'. injection E' as ->.
    set (k := leading 0 v) in *. assert (D : digits 58 (repeat 0 k ++ ds)) by (apply Forall_app; split; [apply Forall_repeat'; lia|apply N]).
    destruct (decode_digits _ after D S2) as (t & Q & Nt & Vt). rewrite (leading_zeros 58) in Q by exact N. rewrite be_zeros, V in Vt.
    unfold DecodeBase58 in *. rewrite skip_spaces_app by exact S1. cbv zeta in Q |- *. rewrite Q. do 2 f_equal.
    pose proof (leading_split v) as Sp. fold k in Sp. transitivity (repeat 0 k ++ skipn k v); [f_equal|now symmetry].
    apply (normal_unique 256); [lia|exact Nt|now apply leading_normal|]. rewrite Vt, Sp at 1. apply be_zeros.
Qed.
End Strings.

Section Exact.
  Context {BIGNUM : Type} {ops : BN_ops BIGNUM} {spec : BN_spec ops}.

(** C18: Base 58 is exact: every string of bytes has an encoding, [DecodeBase58] answers on every string, and it accepts a
    string as the bytes [v] exactly when the string is the encoding of [v] with spaces around it. *)
Theorem base58_exact (psz v : list Z) :
  Z.of_nat (length psz) < 2 ^ 31 - 1 ->
  (exists r, DecodeBase58 psz = Some r) /\
  (bytes v -> Z.of_nat (length v) < 2 ^ 31 - 1 -> exists s, EncodeBase58 v = Some s) /\
  (DecodeBase58 psz = Some (true, v) <->
     bytes v /\ Z.of_nat (length v) < 2 ^ 31 - 1 /\ exists s, padded s psz /\ EncodeBase58 v = Some s).
Proof.
  intros L. split; [destruct (decode_accepts psz) as (r & H & _); now exists r|]. split; [|exact (base58_iff psz v L)].
  intros B Lv. destruct (EncodeBase58_ok v B Lv) as (ds & E & _). now exists (map ch (repeat 0 (leading 0 v) ++ ds)).
Qed.

  Variable p : platform.
  Variable SHA256 : list Z -> list Z.
  Variable fTestNet : bool.
  Abbreviation checksum := (checksum p SHA256).
  Abbreviation EncodeBase58Check := (EncodeBase58Check (ops := ops) p SHA256).
  Abbreviation DecodeBase58Check := (DecodeBase58Check (ops := ops) p SHA256).
  Abbreviation SetString := (SetString (ops := ops) p SHA256).
  Abbreviation ToString := (ToString (ops := ops) p SHA256).

Lemma length_checksum v : length (checksum v) = 4%nat.
Proof. unfold Base58.checksum. rewrite length_firstn, (memory_length 8); [reflexivity|]. unfold Hash, of_memory. now rewrite length_map, length_seq. Qed.
Lemma bytes_checksum v : bytes (checksum v).
Proof. apply Forall_firstn', memory_bytes. Qed.

Lemma check_iff psz v : Z.of_nat (length psz) < 2 ^ 31 - 1 ->
  DecodeBase58Check psz = Some (true, v) <->
  bytes v /\ Z.of_nat (length v) + 4 < 2 ^ 31 - 1 /\ exists s, padded s psz /\ EncodeBase58Check v = Some s.
Proof.
  intros L. unfold Base58.DecodeBase58Check, Base58.EncodeBase58Check. split.
  - destruct (DecodeBase58 psz) as [[ok w]|] eqn:D; [|discriminate]. cbn match. destruct ok; [|discriminate]. cbn [negb orb].
    destruct (Nat.ltb_spec (length w) 4) as [|G]; [discriminate|]. case_bool_decide as C; [|discriminate]. intros [= <-].
    apply base58_iff in D as (B & Lw & s & P & E); [|exact L]. set (k := (length w - 4)%nat) in *.
    rewrite C, firstn_skipn. split; [now apply Forall_firstn'|]. split; [rewrite length_firstn; lia|]. now exists s.
  - intros (B & Lv & s & P & E). assert (D : DecodeBase58 psz = Some (true, v ++ checksum v)).
    { apply base58_iff; [exact L|]. pose proof (length_checksum v). split; [apply Forall_app; split; [exact B|apply bytes_checksum]|].
      split; [rewrite length_app; lia|]. now exists s. }
    rewrite D. cbn match. cbn [negb orb]. pose proof (length_checksum v) as K. rewrite length_app, K.
    destruct (Nat.ltb_spec (length v + 4) 4); [lia|]. replace (length v + 4 - 4)%nat with (length v) by lia.
    rewrite firstn_app, Nat.sub_diag, firstn_all, skipn_app, Nat.sub_diag, skipn_all. cbn [firstn skipn app]. rewrite app_nil_r.
    now rewrite bool_decide_eq_true_2.
Qed.
Lemma SetString_iff psz d : Z.of_nat (length psz) < 2 ^ 31 - 1 ->
  SetString psz = Some (true, d) <->
  bytes (d_nVersion d :: vchData d) /\ Z.of_nat (length (vchData d)) + 5 < 2 ^ 31 - 1 /\ exists s, padded s psz /\ ToString d = Some s.
Proof.
  intros L. pose proof (check_iff psz (d_nVersion d :: vchData d) L) as K. cbn [length] in K. unfold Base58.ToString.
  transitivity (DecodeBase58Check psz = Some (true, d_nVersion d :: vchData d)).
  - unfold Base58.SetString. destruct (DecodeBase58Check psz) as [[[] [|x w]]|]; cbn; split; try discriminate.
    + now intros [= <-].
    + intros [= -> ->]. now destruct d.
  - rewrite K. split; intros (B & Lv & R); (split; [exact B|split; [lia|exact R]]).
Qed.

Lemma memory_20 id : words_ok 5 id -> firstn 20 (memory p id) = memory p id.
Proof. intros [L _]. apply firstn_all2. now rewrite (memory_length 5). Qed.

Definition is_dest (dest : CTxDestination) (id : list Z) : Prop := dest = KeyID id \/ dest = ScriptID id.

Lemma Get_Set dest id d0 : words_ok 5 id -> is_dest dest id ->
  let d := (Set_dest p fTestNet dest d0).2 in
  IsValid fTestNet d = true /\ Get_dest p fTestNet d = dest /\ bytes (d_nVersion d :: vchData d) /\ length (vchData d) = 20%nat.
Proof.
  intros W D d. pose proof (memory_length 5 p id (proj1 W)) as Lm. pose proof (memory_bytes p id) as B.
  assert (G : d = Base58Data (match dest with KeyID _ => if fTestNet then 5 else 30 | _ => if fTestNet then 127 else 90 end) (memory p id)).
  { subst d. destruct D as [-> | ->]; cbn [Set_dest snd]; unfold SetData; rewrite memory_20 by exact W; now destruct fTestNet. }
  rewrite G. unfold Get_dest, IsValid, is_pubkey, is_script. cbn [vchData d_nVersion]. rewrite Lm, firstn_all2, of_memory_memory by (assumption || lia).
  destruct D as [-> | ->], fTestNet; (split; [reflexivity|split; [reflexivity|split; [|reflexivity]]]); (constructor; [split; lia|exact B]).
Qed.
Lemma Set_Get d d0 : bytes (d_nVersion d :: vchData d) -> IsValid fTestNet d = true ->
  (Set_dest p fTestNet (Get_dest p fTestNet d) d0).2 = d /\ exists id, words_ok 5 id /\ is_dest (Get_dest p fTestNet d) id.
Proof.
  intros B V. apply Forall_cons in B as [_ B]. unfold Get_dest. rewrite V. cbn [negb].
  assert (K : length (vchData d) = 20%nat /\
    d_nVersion d = if is_pubkey d then (if fTestNet then 5 else 30) else (if fTestNet then 127 else 90)).
  { revert V. unfold IsValid, is_pubkey, PUBKEY_ADDRESS, PUBKEY_ADDRESS_TEST, SCRIPT_ADDRESS, SCRIPT_ADDRESS_TEST.
    destruct (Z.eqb_spec (d_nVersion d) 30), (Z.eqb_spec (d_nVersion d) 90), (Z.eqb_spec (d_nVersion d) 5), (Z.eqb_spec (d_nVersion d) 127), fTestNet;
      cbn [orb andb eqb]; intros E; try discriminate E; apply Nat.eqb_eq in E; split; lia. }
  destruct K as [L K]. rewrite (firstn_all2 (vchData d)) by lia. set (id := of_memory 5 p (vchData d)).
  assert (W : words_ok 5 id) by (apply of_memory_ok; [now rewrite L|exact B]). assert (M : memory p id = vchData d) by (apply memory_of_memory; [now rewrite L|exact B]).
  destruct (is_pubkey d) eqn:PK.
  - split; [|exists id; split; [exact W|now left]]. cbn [Set_dest snd]. unfold SetData. rewrite memory_20, M by exact W. destruct d. cbn in *. rewrite K. now destruct fTestNet.
  - assert (SC : is_script d = true) by (unfold is_script, SCRIPT_ADDRESS, SCRIPT_ADDRESS_TEST; rewrite K; now destruct fTestNet). rewrite SC.
    split; [|exists id; split; [exact W|now right]]. cbn [Set_dest snd]. unfold SetData. rewrite memory_20, M by exact W. destruct d. cbn in *. rewrite K. now destruct fTestNet.
Qed.

(** C19: Addresses are exact: a string is read as a valid address of the key or the script [dest], on the network the
    program runs on, exactly when it is the string of that address with spaces around it. *)
Theorem addresses_exact (psz : list Z) (dest : CTxDestination) (d0 : CBase58Data) :
  Z.of_nat (length psz) < 2 ^ 31 - 1 ->
  (exists d, SetString psz = Some (true, d) /\ IsValid fTestNet d = true /\ Get_dest p fTestNet d = dest) <->
  exists id s, words_ok 5 id /\ is_dest dest id /\ padded s psz /\ ToString (Set_dest p fTestNet dest d0).2 = Some s.
Proof.
  intros L. split.
  - intros (d & H & V & <-). apply SetString_iff in H as (B & _ & s & P & E); [|exact L]. destruct (Set_Get d d0 B V) as (G & id & W & D).
    exists id, s. rewrite G. now splits.
  - intros (id & s & W & D & P & E). destruct (Get_Set dest id d0 W D) as (V & G & B & K). exists (Set_dest p fTestNet dest d0).2.
    split; [|now split]. apply SetString_iff; [exact L|]. split; [exact B|]. split; [rewrite K; lia|]. now exists s.
Qed.

(** Secrets are read back, with the mark of compressed keys. *)
Theorem secrets_read_back (vchSecret : list Z) (fCompressed : bool) :
  bytes vchSecret -> length vchSecret = 32%nat ->
  exists d s, SetSecret fTestNet vchSecret fCompressed = Some d /\ ToString d = Some s /\
    (Z.of_nat (length s) < 2 ^ 31 - 1 -> SetString_secret (ops := ops) p SHA256 fTestNet s = Some (true, d)) /\ GetSecret d = Some (vchSecret, fCompressed).
Proof.
  intros B L. unfold SetSecret. rewrite L. cbn [Nat.eqb negb]. set (d := if fCompressed then _ else _).
  assert (V : d_nVersion d = 128 + (if fTestNet then 5 else 30)) by (subst d; now destruct fCompressed, fTestNet).
  assert (D : vchData d = vchSecret ++ (if fCompressed then [1] else [])) by (subst d; destruct fCompressed; cbn; [reflexivity|now rewrite app_nil_r]).
  assert (Bd : bytes (d_nVersion d :: vchData d)).
  { constructor; [rewrite V; destruct fTestNet; split; lia|]. rewrite D. apply Forall_app. split; [exact B|]. destruct fCompressed; [constructor; [split; lia|]|]; constructor. }
  assert (Ld : length (vchData d) = if fCompressed then 33%nat else 32%nat) by (rewrite D, length_app, L; now destruct fCompressed).
  assert (E : exists s, ToString d = Some s).
  { unfold Base58.ToString, Base58.EncodeBase58Check. destruct (EncodeBase58_ok (ops := ops) ((d_nVersion d :: vchData d) ++ checksum (d_nVersion d :: vchData d))) as (ds & E & _).
    - apply Forall_app. split; [exact Bd|apply bytes_checksum].
    - rewrite length_app, length_checksum. cbn [length]. rewrite Ld. destruct fCompressed; lia.
    - eexists. exact E. }
  destruct E as [s E]. exists d, s. split; [reflexivity|]. split; [exact E|]. split.
  - intros Ls. unfold SetString_secret. rewrite (proj2 (SetString_iff s d Ls)).
    + cbn match. do 2 f_equal. unfold IsValid_secret. rewrite V, Ld, D. cbn [andb]. destruct fTestNet, fCompressed; cbn; try reflexivity; rewrite app_nth2 by lia; now rewrite L.
    + split; [exact Bd|]. split; [rewrite Ld; destruct fCompressed; lia|]. exists s. split; [|exact E]. exists [], []. rewrite app_nil_r. repeat constructor.
  - unfold GetSecret. rewrite Ld, D. rewrite firstn_app, firstn_all2, L by lia. cbn [Nat.sub firstn]. rewrite app_nil_r. now destruct fCompressed.
Qed.
End Exact.

(** ** Examples *)

Module Base58Example.
Definition p : platform := Platform SPH_LITTLE_ENDIAN true true.
Definition SHA256 (m : list Z) : list Z := repeat (Z.of_nat (length m) mod 256) 32.
Definition id : list Z := [1; 2; 3; 4; 5].
(** The address of [id], as a string. *)
Definition address : list Z :=
  match ToString (ops := Model.ops) p SHA256 (Set_dest p false (KeyID id) (Base58Data 0 [])).2 with Some s => s | None => [] end.
End Base58Example.

Lemma base58_exact_witness : DecodeBase58 (ops := Model.ops) [32; 49; 122; 10] = Some (true, [0; 57]).
Proof.
  apply (proj2 (proj2 (proj2 (base58_exact (spec := Model.spec) [32; 49; 122; 10] [0; 57] ltac:(reflexivity))))).
  split; [repeat constructor; discriminate|]. split; [reflexivity|]. exists [49; 122]. split; [|vm_compute; reflexivity].
  exists [32], [10]. split; [reflexivity|]. repeat constructor.
Defined.

Lemma addresses_exact_witness :
  exists d, SetString (ops := Model.ops) Base58Example.p Base58Example.SHA256 (Base58Example.address ++ [32]) = Some (true, d) /\
    IsValid false d = true /\ Get_dest Base58Example.p false d = KeyID Base58Example.id.
Proof.
  apply (addresses_exact (spec := Model.spec) Base58Example.p Base58Example.SHA256 false (Base58Example.address ++ [32]) (KeyID Base58Example.id) (Base58Data 0 []));
    [vm_compute; reflexivity|].
  exists Base58Example.id, Base58Example.address. split; [split; [reflexivity|repeat constructor; discriminate]|]. split; [now left|].
  split; [exists [], [32]; split; [reflexivity|]; repeat constructor|]. vm_compute. reflexivity.
Defined.

(** The version 30 or 90 on the main network and 5 or 127 on the test network, which the code gives its addresses, are
    the only ones that are valid: not 25, 85, 111 and 196, which the comment on [CBitcoinAddress] names. *)
Lemma IsValid_version fTestNet d :
  IsValid fTestNet d = true -> if fTestNet then d_nVersion d = 5 \/ d_nVersion d = 127 else d_nVersion d = 30 \/ d_nVersion d = 90.
Proof.
  unfold IsValid, PUBKEY_ADDRESS, SCRIPT_ADDRESS, PUBKEY_ADDRESS_TEST, SCRIPT_ADDRESS_TEST.
  destruct (Z.eqb_spec (d_nVersion d) 30), (Z.eqb_spec (d_nVersion d) 90), (Z.eqb_spec (d_nVersion d) 5), (Z.eqb_spec (d_nVersion d) 127), fTestNet;
    cbn; try discriminate; auto.
Qed.

(** "1AGNa15ZQXAZUgFiqJ2i7Z2DPU2J6hW62i" is the first string of src/src/test/data/base58_keys_valid.json, and not valid on either network:
    its version is 0. *)
Lemma test_string_not_valid (p : platform) (SHA256 : list Z -> list Z) (fTestNet : bool) :
  let psz := [49; 65; 71; 78; 97; 49; 53; 90; 81; 88; 65; 90; 85; 103; 70; 105; 113; 74; 50; 105; 55; 90; 50; 68; 80; 85; 50; 74; 54; 104; 87; 54; 50; 105] in
  exists ok d, SetString (ops := Model.ops) p SHA256 psz = Some (ok, d) /\ d_nVersion d = 0 /\ IsValid fTestNet d = false.
Proof.
  intros psz. assert (D : DecodeBase58 (ops := Model.ops) psz = Some (true, [0; 101; 161; 96; 89; 134; 74; 47; 219; 199; 201; 154; 71; 35; 168; 57;
    91; 198; 241; 136; 235; 192; 70; 178; 255])) by (vm_compute; reflexivity).
  unfold SetString, DecodeBase58Check. rewrite D. cbn [negb orb length Nat.ltb Nat.leb]. destruct (bool_decide _);
    (eexists; eexists; split; [reflexivity|]; split; [reflexivity|]; destruct fTestNet; reflexivity).
Qed.
